(* ===== verification/_CoqProject ===== *)
-Q . S2P
Prelude.v
Rid.v
Shm.v
LocalStore.v
FileMap.v
KV.v
Like.v
Tee.v
F32.v
Crypto.v
TextStore.v
Wal.v
Segments.v
Handler.v
Layout.v
FileIO.v
Request.v
Region.v
Invoker.v
Fmt.v
Clib.v
Aggregate.v
SqlInt.v
SqlFloat.v
SqlText.v
SqlTimestamp.v
Btree.v
Sql.v
Server.v
Session.v
DeleteQueue.v
Uio.v
UioFile.v
UioLife.v
UioSafe.v
UioMap.v
UioRace.v
Handshake.v
Drivers.v
Ivshmem.v
ShmMap.v
Util.v
Pg.v
LazyDelete.v
Extension.v
Rng.v
Calendar.v
Bcd.v
Build.v
Dist.v
Rows.v
Print.v
Driver.v
Chunks.v
TextPool.v
Query.v
