(* ===== verification/Prelude.v ===== *)
(** * A verification of ZENO

    ZENO keeps the values of database columns outside PostgreSQL. A column of one of the types
    kv_int4, kv_float4, kv_text and kv_timestamp holds a 64-bit record identifier (RID); the
    value it stands for lives in a trusted process, the privacy zone. The extension in
    PostgreSQL, the integrity zone, computes by sending requests with RIDs through shared
    memory; plaintext crosses the boundary only under encryption.

    ** The parts and how they work together

    A backend claims one of the request regions of the shared memory (rpc.h), and for every SQL
    function call writes a request into it, sets its status to SENT and waits for DONE
    (client.cpp, request.hpp). One of the server's worker processes polls the region
    (server.cpp), dispatches the request (handler.cpp) to an operation (tee.cpp), which reads
    its operands from the stores and puts its result there (kv.hpp): intermediate results in
    the worker's local store (kv-local.hpp), column values in files mapped per relation
    (file-map-operator.hpp). A row trigger of the extension (extension.cpp) moves the results a
    row refers to into the relation's files before the row is stored, hooks clear the local
    store behind each outermost SELECT, and a write-ahead log (wal.hpp) recovers the values of
    committed rows. The benchmark's data and query generators (benchmark/tpch/dbgen) and two
    kernel drivers (tools/drivers) belong to the repository as well.

    ** Conventions

    A [w]-bit integer is a [Z] with the wrap of its type written out ([u32], [s64], ...); a
    byte string is a [list Z]; a [float] is its bit pattern, with the arithmetic of Stdlib's
    [SpecFloat]. Stateful code is in the state and error monad [M] of this file: [Err Fatal]
    is a failed KVDB_CHECK, [Err Raised] an error reported to PostgreSQL, [Err Undefined] what
    the C++ standard leaves undefined (out-of-bounds access, signed overflow), so a theorem
    that a call returns [Ok] excludes all three. [zoomM] runs a component on its part of a
    larger state.

    ** Files

    Privacy zone (src/privacy_zone and src/include):
    - [Rid]: rid.h, packing a partition and an index into a RID, in both builds.
    - [Shm]: rpc.h, the layout of the shared memory, the bitmap, claim and release of regions:
      as one process runs them, its compare-and-swap repeated when another process was faster,
      and as atomic steps of any number of processes.
    - [LocalStore], [TextStore]: the class templates of kv-local.hpp and their [char *]
      specialisations in all build variants.
    - [FileMap]: file-map-operator.hpp, the numeric and text stores of a partition and the
      operator over all partitions.
    - [KV]: kv.hpp, the choice between the two by RID.
    - [Like], [Tee], [F32]: tee.cpp, the LIKE matcher, every operation on stored values, and
      the representation of floats.
    - [Crypto]: crypto.cpp, nonces and framing; AES-GCM and the entropy source are
      parameters.
    - [FileIO]: the read, write and lock loops of wal.hpp over a kernel that interrupts
      and splits transfers.
    - [Wal]: wal.hpp, the payload handed to PostgreSQL and the log file.
    - [Segments]: the files behind a partition, page cache and disk apart: opening, flushing,
      which only asks for a write-back, the write-back itself and loss of power; the operator
      of the build without partitions.
    - [Handler]: handler.cpp on typed requests.
    Transport:
    - [Layout]: bytes in memory, and the structures of request_types.h and enc_types.h by the
      C++ ABI.
    - [Request]: request.hpp, the methods of every request class on those bytes.
    - [Region]: handler.cpp, handle_request of server.cpp and sendRequest of client.cpp on the
      bytes of a region.
    - [Server]: backends that claim, use and release regions, and a worker that scans them, as
      a step relation with one step per access to the shared memory.
    - [Handshake]: the same exchange on memory that reorders loads and stores, with the
      barriers of the x86-64 and the aarch64 build.
    - [Session]: opening and closing a connection, the scan of a worker, the server's main.
    - [ShmMap]: get_shm of both sides and tdx_shm.hpp, CPU binding, idling and the signal
      handler.
    Integrity zone (src/integrity_zone):
    - [Invoker]: the class [TEEInvoker] with the laws of its sendRequest, which the region
      implements; the SQL functions are verified against the laws.
    - [Fmt], [Clib], [Aggregate]: decimal text, strtod and printf of the C library, and the
      loops of the aggregates.
    - [SqlInt], [SqlFloat], [SqlText], [SqlTimestamp]: int.cpp, float.cpp, text.cpp,
      timestamp.cpp, one definition per function.
    - [Btree]: the operator classes the extension declares for its types.
    - [Sql]: expressions composed of these functions.
    - [Pg], [DeleteQueue], [LazyDelete], [Extension]: extension.cpp and delete_queue.hpp, the
      trigger and the hooks of the default build, the trigger of the build with lazy deletion,
      loading and the lookup of the types.
    Helpers and drivers (utils/util.cpp and tools/drivers):
    - [Util]: time, waiting, fatal errors.
    - [Drivers]: the cycle counter driver of arm-pmu-driver.
    - [Uio], [UioFile], [UioLife], [UioSafe], [UioMap], [UioRace]: uio.c, its devices and
      minors, the operations of an open file, registering and unregistering, what a file may
      still reach after its device is gone, mappings, and readers against interrupts.
    - [Ivshmem]: uio-ivshmem.c on top of these.
    Data generator (benchmark/tpch/dbgen):
    - [Rng], [Calendar], [Bcd]: random streams and skipping, dates, decimal arithmetic.
    - [Dist], [Build], [Rows]: distributions, row builders and what the rows satisfy.
    - [TextPool]: the sentences of the grammar and the pool the comments are taken from.
    - [Print], [Driver], [Chunks]: output files, options and table generation, and generation
      in parallel chunks.
    - [Query]: query templates, parameters and orders.

    ** What the theorems show

    - Stores: the local store is a map with fresh keys, a value put anywhere is read back under
      its RID and under no other, the text stores hold strings up to their limits.
    - Operations: integers are exact or undefined, floats are the IEEE result, LIKE decides
      matching and returns for every input, years are Gregorian, aggregates over arrays of any
      length give the sum, average and extremes.
    - Transport: a request sent as bytes has the effect of the typed handler and leaves the
      region ready for the next one; calls are handled exactly once however backends and a
      worker interleave, and a waiting backend gets its answer when the others pause; regions
      are never owned twice; a connection attempt ends if in each pass it loses only finitely
      many races for a word of the bitmap. On reordering memory the exchange has the results
      of a sequential one in every execution that keeps the accesses of the two processes in
      the order the protocol means: with the barriers of the x86-64 build that is every
      execution, with those of the aarch64 build it is not. Two processes that map the device
      see the same bytes.
    - SQL: a well-typed expression of any depth evaluates to a RID of its type that holds its
      value, unless its value is undefined, and comparisons, LIKE and their negations decide
      what they say of the values.
    - Persistence: the trigger makes rows persistent without changing other values; the log
      recovers what was written; deleted RIDs are reused only after commit, once each and in
      order; values whose flush was followed by the write-back it asks for survive a loss of
      power.
    - Encryption: decryption inverts encryption, an encryption the library refuses is a fatal
      error, and no nonce is used twice.
    - Drivers: registering, unregistering and probing leave no minor, name, interrupt or
      region behind on any error path and report every failed call of the kernel, an open file
      outlives its device without reaching freed memory, a page fault reaches only pages of
      the device, and a reader does not miss an interrupt.
    - Generator: at scales below 30000 chunks joined are the table a single process writes,
      rows respect their references, draws stay in range, every process fills its text pool
      with the same sentences.
    Statements about defects are theorems as well (for example
    [Server.local_clear_drops_other_sessions], [SqlText.substring_drops_partition],
    [Session.busy_region_starves_later_ones], [Segments.flush_alone_is_not_durable],
    [Handshake.worker_may_load_next_request], [Chunks.large_scale_seek_uses_wrong_generator]).

    ** Fuel and bounds

    Every pass of [Like.match_loop] consumes a part of the pattern, and [MatchText] gives it
    one unit of fuel more than the pattern is long. A batch is not nested in another, so
    [handle_ops_at] needs depth one. Loops of the clock and of waiting processes take the list
    of what happens meanwhile as an argument, one element per pass: the repeated
    compare-and-swap of [Shm.claim_loop] takes the races it loses, and
    [Session.connecting_terminates] bounds the wait for a region whose lists end. Decimal
    text is produced with twenty digits, enough for 64 bits, and sixty for the [%f] of a
    float. Store capacities, [BULK_SIZE], [STRING_LENGTH] and [MAX_ELE_NUM] are the code's.

    ** Not modelled

    mbedTLS's cipher and entropy and PostgreSQL's own routines are parameters with the
    documented laws, each with an instance; the laws do not say that a call of the cipher
    succeeds. Boost's managed_mapped_file is used for its mapped arrays, which are lists in the
    state of [FileMap], and for its flush, by default asynchronous, which [Segments] takes as a
    request only. Calls of the kernel (allocation, idr, cdev, request_irq, PCI, mmap) are
    modelled by their documented effect, with an answer, failure included, that the caller's
    argument chooses. [ShmMap] runs server and backend on one kernel; the deployment in two
    virtual machines is not modelled. Fork and signals enter as what waitpid and the handler
    report; a backend that dies in the middle of a call is not modelled. Of batches the bytes
    and the handler are modelled, but the repository has no caller that sends one. Expressions
    of [Sql] are built of columns, arithmetic, concatenation and the year; conditions of
    comparisons, LIKE and NOT: AND and OR are PostgreSQL's own, and pow, substring and the
    casts are modelled outside of expressions. NaN payloads are canonical. Logging and
    progress messages are left out. The direct-load stubs of the data generator return 0.
    Benchmark scripts are not programs of the database. *)
From Stdlib Require Export ZArith Lia.
From stdpp Require Export base list gmap numbers.
#[global] Open Scope Z_scope.

(** * Fixed-width integers

    A [w]-bit integer of the C sources is a [Z]; every operation that can leave
    the range is followed by the wrap of its type. *)

Definition u8 (x : Z) : Z := x mod 2 ^ 8.
Definition u16 (x : Z) : Z := x mod 2 ^ 16.
Definition u32 (x : Z) : Z := x mod 2 ^ 32.
Definition u64 (x : Z) : Z := x mod 2 ^ 64.

Definition s32 (x : Z) : Z := (x + 2 ^ 31) mod 2 ^ 32 - 2 ^ 31.
Definition s64 (x : Z) : Z := (x + 2 ^ 63) mod 2 ^ 64 - 2 ^ 63.

Definition INT_MAX : Z := 2 ^ 31 - 1.
Definition INT_MIN : Z := - 2 ^ 31.

Definition in_u8 (x : Z) : Prop := 0 <= x < 2 ^ 8.
Definition in_u16 (x : Z) : Prop := 0 <= x < 2 ^ 16.
Definition in_u32 (x : Z) : Prop := 0 <= x < 2 ^ 32.
Definition in_u64 (x : Z) : Prop := 0 <= x < 2 ^ 64.
Definition in_s32 (x : Z) : Prop := - 2 ^ 31 <= x < 2 ^ 31.
Definition in_s64 (x : Z) : Prop := - 2 ^ 63 <= x < 2 ^ 63.

(** The executable range test of a signed [int]. *)
Definition fits_s32 (x : Z) : bool := (INT_MIN <=? x) && (x <=? INT_MAX).
Definition fits_s64 (x : Z) : bool := (- 2 ^ 63 <=? x) && (x <? 2 ^ 63).

Create HintDb zeno.

(** Linear arithmetic with divisions by constants. *)
Ltac dlia := Z.to_euclidean_division_equations; lia.

Lemma u64_range (x : Z) : in_u64 (u64 x).
Proof. apply Z.mod_pos_bound. lia. Qed.

Lemma u64_small (x : Z) : in_u64 x -> u64 x = x.
Proof. apply Z.mod_small. Qed.

Lemma u32_range (x : Z) : in_u32 (u32 x).
Proof. apply Z.mod_pos_bound. lia. Qed.

Lemma u32_small (x : Z) : in_u32 x -> u32 x = x.
Proof. apply Z.mod_small. Qed.

Lemma u16_range (x : Z) : in_u16 (u16 x).
Proof. apply Z.mod_pos_bound. lia. Qed.

Lemma u16_small (x : Z) : in_u16 x -> u16 x = x.
Proof. apply Z.mod_small. Qed.

Lemma s32_range (x : Z) : in_s32 (s32 x).
Proof. unfold s32, in_s32. pose proof (Z.mod_pos_bound (x + 2 ^ 31) (2 ^ 32)). lia. Qed.

Lemma s32_small (x : Z) : in_s32 x -> s32 x = x.
Proof. unfold s32, in_s32. intros. rewrite Z.mod_small by lia. lia. Qed.

Lemma s64_range (x : Z) : in_s64 (s64 x).
Proof. unfold s64, in_s64. pose proof (Z.mod_pos_bound (x + 2 ^ 63) (2 ^ 64)). lia. Qed.

Lemma s64_small (x : Z) : in_s64 x -> s64 x = x.
Proof. unfold s64, in_s64. intros. rewrite Z.mod_small by lia. lia. Qed.

Lemma fits_s32_spec (x : Z) : fits_s32 x = true <-> in_s32 x.
Proof. unfold fits_s32, in_s32, INT_MIN, INT_MAX. rewrite andb_true_iff. lia. Qed.

Lemma fits_s64_spec (x : Z) : fits_s64 x = true <-> in_s64 x.
Proof. unfold fits_s64, in_s64. rewrite andb_true_iff. lia. Qed.

#[export] Hint Resolve u64_range u32_range u16_range s32_range s64_range : zeno.

(** Masking with a power of two minus one, and its complement. *)
Lemma land_mask (x k : Z) : 0 <= k -> Z.land x (2 ^ k - 1) = x mod 2 ^ k.
Proof. intros. rewrite <- Z.land_ones by lia. f_equal. rewrite Z.ones_equiv. lia. Qed.

Lemma shiftr_div (x k : Z) : 0 <= k -> Z.shiftr x k = x / 2 ^ k.
Proof. apply Z.shiftr_div_pow2. Qed.

Lemma shiftl_mul (x k : Z) : 0 <= k -> Z.shiftl x k = x * 2 ^ k.
Proof. apply Z.shiftl_mul_pow2. Qed.

(** A number below [2^k] has no bit at or above position [k]. *)
Lemma testbit_above (lo k n : Z) : 0 <= lo < 2 ^ k -> 0 <= k <= n -> Z.testbit lo n = false.
Proof.
  intros Hlo Hk. rewrite <- (Z.mod_small lo (2 ^ k)) by lia.
  apply Z.mod_pow2_bits_high. lia.
Qed.

(** A multiple of [2^k] and a number below [2^k] share no bit. *)
Lemma land_disjoint (hi lo k : Z) :
  0 <= k -> 0 <= lo < 2 ^ k -> Z.land (hi * 2 ^ k) lo = 0.
Proof.
  intros Hk Hlo. rewrite <- Z.shiftl_mul_pow2 by lia. apply Z.bits_inj'. intros n Hn.
  rewrite Z.land_spec, Z.bits_0, Z.shiftl_spec by lia.
  destruct (Z.ltb_spec n k).
  - rewrite (Z.testbit_neg_r hi) by lia. reflexivity.
  - rewrite (testbit_above lo k n) by lia. apply andb_false_r.
Qed.

(** ... so their bitwise or is their sum. *)
Lemma lor_disjoint (hi lo k : Z) :
  0 <= k -> 0 <= lo < 2 ^ k -> Z.lor (hi * 2 ^ k) lo = hi * 2 ^ k + lo.
Proof.
  intros Hk Hlo. pose proof (land_disjoint hi lo k Hk Hlo) as Hd.
  rewrite <- Z.lxor_lor by exact Hd. symmetry. now apply Z.add_nocarry_lxor.
Qed.

(** Bitwise operations stay below a power of two. *)
Lemma land_bound (x y k : Z) : 0 <= k -> 0 <= x < 2 ^ k -> 0 <= Z.land x y < 2 ^ k.
Proof.
  intros Hk Hx. enough (Z.land x y = Z.land x y mod 2 ^ k) as ->.
  { apply Z.mod_pos_bound. lia. }
  rewrite <- !Z.land_ones by lia. rewrite <- (Z.mod_small x (2 ^ k)) at 1 by lia.
  rewrite <- Z.land_ones by lia. now rewrite <- !Z.land_assoc, (Z.land_comm y).
Qed.

Lemma lor_bound (x y k : Z) :
  0 <= k -> 0 <= x < 2 ^ k -> 0 <= y < 2 ^ k -> 0 <= Z.lor x y < 2 ^ k.
Proof.
  intros Hk Hx Hy. enough (Z.lor x y = Z.lor x y mod 2 ^ k) as ->.
  { apply Z.mod_pos_bound. lia. }
  rewrite <- Z.land_ones, Z.land_lor_distr_l, !Z.land_ones, !Z.mod_small by lia. reflexivity.
Qed.

(** * Failure and state

    [Fatal] is a failed [KVDB_CHECK] or a call of [kvdb_fatal_at]/[abort]; the
    state at that point is kept, because shared memory and mapped files outlive
    the process. [Undefined] is behaviour the C and C++ standards leave
    undefined: signed overflow, division by zero, an access out of bounds.
    [Raised] is PostgreSQL's [elog(ERROR, ...)], which aborts the transaction. *)

Inductive failure : Type :=
| Fatal
| Undefined
| Raised.

Inductive res (A : Type) : Type :=
| Ok (a : A)
| Err (f : failure).
Arguments Ok {A} a.
Arguments Err {A} f.

(** Computations over a state [S] that may fail. *)
Definition M (S A : Type) : Type := S -> res A * S.

Definition retM {S A : Type} (a : A) : M S A := fun s => (Ok a, s).
Definition failM {S A : Type} (f : failure) : M S A := fun s => (Err f, s).
Definition bindM {S A B : Type} (m : M S A) (k : A -> M S B) : M S B :=
  fun s => match m s with
           | (Ok a, s') => k a s'
           | (Err f, s') => (Err f, s')
           end.
Definition getM {S : Type} : M S S := fun s => (Ok s, s).
Definition putM {S : Type} (s : S) : M S unit := fun _ => (Ok tt, s).
Definition modifyM {S : Type} (f : S -> S) : M S unit := fun s => (Ok tt, f s).
Definition ofRes {S A : Type} (r : res A) : M S A := fun s => (r, s).

(** [KVDB_CHECK(cond, ...)] of util.h. *)
Definition checkM {S : Type} (b : bool) : M S unit := if b then retM tt else failM Fatal.
(** A condition without which the behaviour is undefined. *)
Definition definedM {S : Type} (b : bool) : M S unit := if b then retM tt else failM Undefined.

Declare Scope zeno_scope.
Delimit Scope zeno_scope with zeno.
Notation "'let*' x := m 'in' k" := (bindM m (fun x => k))
  (at level 10, x name, m at level 100, k at level 200) : zeno_scope.
Notation "'let*' ' p := m 'in' k" := (bindM m (fun x => match x with p => k end))
  (at level 10, p pattern, m at level 100, k at level 200) : zeno_scope.
Notation "'do*' m 'in' k" := (bindM m (fun _ => k))
  (at level 10, m at level 100, k at level 200) : zeno_scope.
#[global] Open Scope zeno_scope.

(** Run a computation on a component [T] of the state [S]. *)
Definition zoomM {S T A : Type} (proj : S -> T) (upd : T -> S -> S) (m : M T A) : M S A :=
  fun s => let '(r, t) := m (proj s) in (r, upd t s).

Fixpoint forM {S A B : Type} (l : list A) (f : A -> M S B) : M S (list B) :=
  match l with
  | [] => retM []
  | a :: l' => let* b := f a in let* bs := forM l' f in retM (b :: bs)
  end.

Fixpoint iterM {S A : Type} (l : list A) (f : A -> M S unit) : M S unit :=
  match l with
  | [] => retM tt
  | a :: l' => do* f a in iterM l' f
  end.

Lemma bindM_ok {S A B : Type} (m : M S A) (k : A -> M S B) s s' b :
  bindM m k s = (Ok b, s') <-> exists a s1, m s = (Ok a, s1) /\ k a s1 = (Ok b, s').
Proof.
  unfold bindM. destruct (m s) as [[a|f] s1]; split.
  - intros H. eauto.
  - intros (a' & s1' & [= <- <-] & H). exact H.
  - intros [=].
  - intros (? & ? & [=] & _).
Qed.

Lemma bindM_run {S A B : Type} (m : M S A) (k : A -> M S B) s s1 a :
  m s = (Ok a, s1) -> bindM m k s = k a s1.
Proof. unfold bindM. now intros ->. Qed.

Lemma bindM_fail {S A B : Type} (m : M S A) (k : A -> M S B) s s1 f :
  m s = (Err f, s1) -> bindM m k s = (Err f, s1).
Proof. unfold bindM. now intros ->. Qed.

Lemma bindM_assoc {S A B C : Type} (m : M S A) (k : A -> M S B) (h : B -> M S C) s :
  bindM (bindM m k) h s = bindM m (fun a => bindM (k a) h) s.
Proof. unfold bindM. destruct (m s) as [[a|f] s1]; reflexivity. Qed.

Lemma checkM_true {S : Type} (b : bool) (s : S) : b = true -> checkM b s = (Ok tt, s).
Proof. now intros ->. Qed.

Lemma definedM_true {S : Type} (b : bool) (s : S) : b = true -> definedM b s = (Ok tt, s).
Proof. now intros ->. Qed.

Lemma checkM_false {S : Type} (b : bool) (s : S) : b = false -> checkM b s = (Err Fatal, s).
Proof. now intros ->. Qed.

(** Take apart hypotheses [m s = (Ok a, s')], one bind, check or return at a time. *)
Ltac inv_run1 :=
  match goal with
  | H : bindM _ _ _ = (Ok _, _) |- _ =>
      apply bindM_ok in H; destruct H as (? & ? & ? & ?)
  | H : retM _ _ = (Ok _, _) |- _ => unfold retM in H; simplify_eq
  | H : getM _ = (Ok _, _) |- _ => unfold getM in H; simplify_eq
  | H : putM _ _ = (Ok _, _) |- _ => unfold putM in H; simplify_eq
  | H : modifyM _ _ = (Ok _, _) |- _ => unfold modifyM in H; simplify_eq
  | H : failM _ _ = (Ok _, _) |- _ => unfold failM in H; discriminate H
  | H : checkM ?b _ = (Ok _, _) |- _ =>
      destruct b eqn:?; unfold checkM, retM, failM in H; simplify_eq
  | H : definedM ?b _ = (Ok _, _) |- _ =>
      destruct b eqn:?; unfold definedM, retM, failM in H; simplify_eq
  end.
Ltac inv_run := repeat inv_run1.

Lemma forM_app {S A B} (f : A -> M S B) l1 l2 s s1 s2 r1 r2 :
  forM l1 f s = (Ok r1, s1) -> forM l2 f s1 = (Ok r2, s2) -> forM (l1 ++ l2) f s = (Ok (r1 ++ r2), s2).
Proof.
  revert s r1. induction l1 as [|a l1 IH]; intros s r1 H1 H2; cbn [forM app] in *.
  - unfold retM in H1. injection H1 as <- ->. exact H2.
  - apply bindM_ok in H1 as (b & u & Hb & H1). apply bindM_ok in H1 as (bs & v & Hbs & H1).
    unfold retM in H1. injection H1 as <- ->. rewrite (bindM_run _ _ _ _ _ Hb), (bindM_run _ _ _ _ _ (IH _ _ Hbs H2)).
    reflexivity.
Qed.

(** * Byte strings *)

(** A byte string is a list of values in [0, 256). *)
Abbreviation bytes := (list Z).
Definition wf_bytes (l : bytes) : Prop := Forall in_u8 l.

(** The object representation of an [n]-byte unsigned integer on the
    little-endian targets (x86-64, aarch64) of the build. *)
Fixpoint le_bytes (n : nat) (v : Z) : bytes :=
  match n with
  | O => []
  | S n' => v mod 256 :: le_bytes n' (v / 256)
  end.

Fixpoint le_val (l : bytes) : Z :=
  match l with
  | [] => 0
  | b :: l' => b + 256 * le_val l'
  end.

Lemma length_le_bytes n v : length (le_bytes n v) = n.
Proof. revert v. induction n; intros; simpl; [reflexivity|]. now rewrite IHn. Qed.

Lemma wf_le_bytes n v : wf_bytes (le_bytes n v).
Proof.
  revert v. induction n; intros; simpl; constructor; [|apply IHn].
  apply Z.mod_pos_bound. lia.
Qed.

Lemma le_val_le_bytes n v : le_val (le_bytes n v) = v mod 256 ^ Z.of_nat n.
Proof.
  revert v. induction n as [|n IH]; intros; simpl le_bytes; simpl le_val.
  - now rewrite Z.mod_1_r.
  - rewrite IH, Nat2Z.inj_succ, Z.pow_succ_r by lia.
    rewrite (Z.rem_mul_r v 256) by lia. lia.
Qed.

Lemma le_val_range l : wf_bytes l -> 0 <= le_val l < 256 ^ Z.of_nat (length l).
Proof.
  induction 1 as [|b l Hb _ IH]; cbn [le_val length]; [lia|].
  rewrite Nat2Z.inj_succ, Z.pow_succ_r by lia.
  unfold in_u8 in Hb. lia.
Qed.

Lemma le_bytes_le_val l : wf_bytes l -> le_bytes (length l) (le_val l) = l.
Proof.
  induction 1 as [|b l Hb _ IH]; simpl; [reflexivity|]. unfold in_u8 in Hb.
  rewrite (Z.mul_comm 256), Z.mod_add, Z.mod_small by lia.
  rewrite Z.div_add, Z.div_small by lia. now rewrite Z.add_0_l, IH.
Qed.

(** C strings: bytes without a terminator, and the string at the start of a buffer. *)
Definition cstr (l : bytes) : Prop := Forall (fun b => 0 < b < 256) l.
Fixpoint until_zero (l : bytes) : bytes :=
  match l with
  | [] => []
  | b :: l' => if b =? 0 then [] else b :: until_zero l'
  end.

Lemma until_zero_cstr v rest : cstr v -> until_zero (v ++ 0 :: rest) = v.
Proof.
  induction 1 as [|b v Hb _ IH]; simpl; [reflexivity|]. now rewrite (proj2 (Z.eqb_neq b 0)), IH by lia.
Qed.

Lemma until_zero_id v : cstr v -> until_zero v = v.
Proof. induction 1 as [|b v Hb _ IH]; simpl; [reflexivity|]. now rewrite (proj2 (Z.eqb_neq b 0)), IH by lia. Qed.

#[export] Hint Resolve wf_le_bytes : zeno.
