(* ===== verification/Rid.v ===== *)
(** Record identifiers: src/include/rid.h and the local/global conversions of
    src/privacy_zone/include/kv.hpp, in the default build configuration
    ([USE_KVMAP_PARTITION] with [KVMAP_PARTITION_BITS] = 16), and the variant of
    rid.h without partitions.

    A RID is a 64-bit word. The high 16 bits name a partition (the low bits of
    a relation's OID), the low 48 bits an index into the partition's stores;
    partition 0xFFFF is reserved for the per-worker local store. *)
From S2P Require Import Prelude.

Abbreviation RID := Z.

Definition INVALID_RID : RID := 2 ^ 64 - 1.

Definition KVMAP_PARTITION_BITS : Z := 16.
Definition RID_PARTITION_SHIFT : Z := 64 - KVMAP_PARTITION_BITS.
Definition RID_MASK : RID := u64 (u64 (Z.shiftl 1 RID_PARTITION_SHIFT) - 1).
Definition RID_LOCAL_PARTITION : RID := u64 (u64 (Z.shiftl 1 KVMAP_PARTITION_BITS) - 1).
Definition RID_DEFAULT_PARTITION : RID := 0.

Definition rid_partition (id : RID) : RID := Z.shiftr id RID_PARTITION_SHIFT.

Definition rid_index (id : RID) : RID := Z.land id RID_MASK.

Definition make_partitioned_rid (partition idx : RID) : RID :=
  Z.lor (u64 (Z.shiftl partition RID_PARTITION_SHIFT)) (Z.land idx RID_MASK).

Definition islocal (id : RID) : bool := rid_partition id =? RID_LOCAL_PARTITION.

Definition idx2local (idx : RID) : RID := make_partitioned_rid RID_LOCAL_PARTITION idx.

Definition local2idx (id : RID) : RID := rid_index id.

(** ** The layout as arithmetic *)

Definition wf_partition (p : RID) : Prop := 0 <= p < 2 ^ 16.
Definition wf_index (i : RID) : Prop := 0 <= i < 2 ^ 48.

Lemma rid_partition_eq id : rid_partition id = id / 2 ^ 48.
Proof. unfold rid_partition. apply shiftr_div. vm_compute. discriminate. Qed.

Lemma rid_index_eq id : rid_index id = id mod 2 ^ 48.
Proof. unfold rid_index. change RID_MASK with (2 ^ 48 - 1). apply land_mask. lia. Qed.

Lemma make_partitioned_rid_eq p i :
  wf_partition p -> make_partitioned_rid p i = p * 2 ^ 48 + i mod 2 ^ 48.
Proof.
  intros Hp. unfold make_partitioned_rid, wf_partition in *.
  change RID_MASK with (2 ^ 48 - 1). rewrite land_mask by lia.
  rewrite shiftl_mul by (vm_compute; discriminate). change RID_PARTITION_SHIFT with 48.
  rewrite u64_small by (unfold in_u64; lia).
  apply lor_disjoint; [lia|]. apply Z.mod_pos_bound. lia.
Qed.

Lemma islocal_eq id : islocal id = (id / 2 ^ 48 =? 2 ^ 16 - 1).
Proof. unfold islocal. now rewrite rid_partition_eq. Qed.

Lemma wf_partition_of id : in_u64 id -> wf_partition (rid_partition id).
Proof. rewrite rid_partition_eq. unfold in_u64, wf_partition. intros.
  pose proof (Z.div_lt_upper_bound id (2 ^ 48) (2 ^ 16)). pose proof (Z.div_pos id (2 ^ 48)). lia.
Qed.

Lemma wf_index_of id : wf_index (rid_index id).
Proof. rewrite rid_index_eq. apply Z.mod_pos_bound. lia. Qed.

Lemma rid_partition_make p i : wf_partition p -> rid_partition (make_partitioned_rid p i) = p.
Proof.
  intros Hp. rewrite rid_partition_eq, make_partitioned_rid_eq by exact Hp.
  rewrite Z.div_add_l by lia. pose proof (Z.mod_pos_bound i (2 ^ 48)).
  rewrite Z.div_small by lia. lia.
Qed.

Lemma rid_index_make p i : wf_partition p -> rid_index (make_partitioned_rid p i) = i mod 2 ^ 48.
Proof.
  intros Hp. rewrite rid_index_eq, make_partitioned_rid_eq by exact Hp.
  rewrite Z.add_comm, Z.mod_add by lia. apply Z.mod_mod. lia.
Qed.

Lemma make_partitioned_rid_range p i : wf_partition p -> in_u64 (make_partitioned_rid p i).
Proof.
  intros Hp. rewrite make_partitioned_rid_eq by exact Hp.
  pose proof (Z.mod_pos_bound i (2 ^ 48)). unfold wf_partition, in_u64 in *. lia.
Qed.

Lemma make_rid_of_parts id :
  in_u64 id -> make_partitioned_rid (rid_partition id) (rid_index id) = id.
Proof.
  intros H. rewrite make_partitioned_rid_eq by now apply wf_partition_of.
  rewrite rid_partition_eq, rid_index_eq, Z.mod_mod by lia.
  pose proof (Z.div_mod id (2 ^ 48)). lia.
Qed.

Lemma wf_local_partition : wf_partition RID_LOCAL_PARTITION.
Proof. vm_compute. split; congruence. Qed.

#[export] Hint Resolve wf_partition_of wf_index_of wf_local_partition
  make_partitioned_rid_range : zeno.

(** a RID is exactly a pair of a partition and an index: packing then
    unpacking returns the partition and the index, unpacking then packing any
    64-bit word returns the word, and the packed word is a 64-bit word. *)
Theorem rid_pack_unpack :
  (forall p i, wf_partition p -> wf_index i ->
     rid_partition (make_partitioned_rid p i) = p /\
     rid_index (make_partitioned_rid p i) = i /\
     in_u64 (make_partitioned_rid p i)) /\
  (forall id, in_u64 id -> make_partitioned_rid (rid_partition id) (rid_index id) = id).
Proof.
  split; [|exact make_rid_of_parts]. intros p i Hp Hi.
  rewrite rid_partition_make, rid_index_make by exact Hp.
  rewrite Z.mod_small by exact Hi. auto with zeno.
Qed.

Lemma islocal_idx2local i : islocal (idx2local i) = true.
Proof.
  unfold islocal, idx2local. rewrite rid_partition_make by auto with zeno. apply Z.eqb_refl.
Qed.

Lemma local2idx_idx2local i : wf_index i -> local2idx (idx2local i) = i.
Proof.
  intros Hi. unfold local2idx, idx2local. rewrite rid_index_make by auto with zeno.
  now apply Z.mod_small.
Qed.

Lemma islocal_make p i :
  wf_partition p -> islocal (make_partitioned_rid p i) = (p =? RID_LOCAL_PARTITION).
Proof. intros Hp. unfold islocal. now rewrite rid_partition_make. Qed.

Lemma idx2local_local2idx id : in_u64 id -> islocal id = true -> idx2local (local2idx id) = id.
Proof.
  intros Hid Hl. unfold idx2local, local2idx. apply Z.eqb_eq in Hl. rewrite <- Hl.
  now apply make_rid_of_parts.
Qed.

(** ** rid.h without [USE_KVMAP_PARTITION] *)
Module Unpartitioned.

Definition RID_MASK : RID := u64 (u64 (Z.shiftl 1 63) - 1).
Definition islocal (id : RID) : bool :=
  if negb (0 =? Z.land id (u64 (Z.lnot RID_MASK))) then true else false.
Definition idx2local (idx : RID) : RID := Z.lor idx (u64 (Z.lnot RID_MASK)).
Definition local2idx (id : RID) : RID := Z.land id RID_MASK.

Lemma flag_bit : u64 (Z.lnot RID_MASK) = 1 * 2 ^ 63.
Proof. reflexivity. Qed.

Lemma unpartitioned_idx2local_eq i : 0 <= i < 2 ^ 63 -> idx2local i = i + 2 ^ 63.
Proof.
  intros Hi. unfold idx2local. rewrite flag_bit, Z.lor_comm, lor_disjoint by lia. lia.
Qed.

Lemma unpartitioned_local_roundtrip i :
  0 <= i < 2 ^ 63 ->
  islocal (idx2local i) = true /\ islocal i = false /\ local2idx (idx2local i) = i.
Proof.
  intros Hi. rewrite unpartitioned_idx2local_eq by exact Hi.
  unfold islocal, local2idx. rewrite flag_bit. repeat split.
  - replace (i + 2 ^ 63) with (1 * 2 ^ 63 + i) by lia.
    rewrite <- lor_disjoint, Z.land_lor_distr_l, Z.land_diag, (Z.land_comm i), land_disjoint by lia.
    reflexivity.
  - now rewrite Z.land_comm, land_disjoint by lia.
  - change RID_MASK with (2 ^ 63 - 1). rewrite land_mask by lia.
    rewrite <- (Z.mul_1_l (2 ^ 63)) at 1. rewrite Z.mod_add, Z.mod_small by lia. reflexivity.
Qed.

End Unpartitioned.
