(* ===== verification/Shm.v ===== *)
(** The shared-memory control block of src/include/rpc.h: the layout of the
    request regions and the lock-free bitmap that hands them out. *)
From S2P Require Import Prelude.

(** ** Layout *)

Definition SHM_SIZE : Z := 540 * 1024 * 1024.
Definition META_REQ_SIZE : Z := 1024.
Definition REQ_REGION_SIZE : Z := 1024 * 1024.
Definition REGION_N_OFFSET (n : Z) : Z := META_REQ_SIZE + REQ_REGION_SIZE * n.
Definition MAX_REGION_NUM : Z := (SHM_SIZE - META_REQ_SIZE) / REQ_REGION_SIZE.
Definition BITMAP_BITS : Z := 64.
Definition BITMAP_SIZE : Z := (MAX_REGION_NUM + BITMAP_BITS - 1) / BITMAP_BITS.

(** [ShmReqStatus]. *)
Inductive ShmReqStat : Type :=
| SHM_NONE
| SHM_GET
| SHM_FREE
| SHM_DONE
| SHM_EXIT.

#[export] Instance ShmReqStat_eq_dec : EqDecision ShmReqStat.
Proof. solve_decision. Defined.

Definition BITMAP_WORD (n : Z) : Z := n / BITMAP_BITS.
Definition BITMAP_MASK (n : Z) : Z := u64 (Z.shiftl 1 (n mod BITMAP_BITS)).

(** [OpsReq]: the bitmap is an array of [BITMAP_SIZE] 64-bit words. *)
Record OpsReq : Type := mkOpsReq {
  ops_lock : Z;
  ops_status : ShmReqStat;
  ops_free_id : Z;
  ops_ret_id : Z;
  ops_bitmap : list Z;
}.

Definition set_bitmap (bm : list Z) (r : OpsReq) : OpsReq :=
  mkOpsReq (ops_lock r) (ops_status r) (ops_free_id r) (ops_ret_id r) bm.

(** [a[BITMAP_WORD(n)]]; an index outside the array reads 0 here and never occurs
    on the regions the code uses ([bitmap_word_in_range]). *)
Definition bm_word (a : list Z) (n : Z) : Z := default 0 (a !! Z.to_nat (BITMAP_WORD n)).
Definition bm_store (a : list Z) (n w : Z) : list Z := <[Z.to_nat (BITMAP_WORD n) := w]> a.

(** The macros [GET], [SET] and [CLEAR]. *)
Definition bm_GET (a : list Z) (n : Z) : bool := negb (Z.land (bm_word a n) (BITMAP_MASK n) =? 0).
Definition bm_SET (a : list Z) (n : Z) : list Z :=
  bm_store a n (Z.lor (bm_word a n) (BITMAP_MASK n)).
Definition bm_CLEAR (a : list Z) (n : Z) : list Z :=
  bm_store a n (Z.land (bm_word a n) (u64 (Z.lnot (BITMAP_MASK n)))).

(** ** The two operations *)

(** What the other processes do to the control block between two accesses of this one. *)
Definition race : Type := OpsReq -> OpsReq.

(** The [while] loop of [claim_shm_region] on one region: the load, what the others do then, and
    the compare-and-swap, which is lost when the word has changed. Whether the region was
    claimed, and the races that are left; when there are none, nobody interferes any more. *)
Fixpoint claim_loop (region_id : Z) (races : list race) (req : OpsReq) : bool * list race * OpsReq :=
  let mask := BITMAP_MASK region_id in
  let old := bm_word (ops_bitmap req) region_id in
  match races with
  | [] =>
      if negb (Z.land old mask =? 0) then (false, [], req)
      else (true, [], set_bitmap (bm_store (ops_bitmap req) region_id (Z.lor old mask)) req)
  | others :: races =>
      let req := others req in
      if negb (Z.land old mask =? 0) then (false, races, req)
      else if bm_word (ops_bitmap req) region_id =? old
      then (true, races, set_bitmap (bm_store (ops_bitmap req) region_id (Z.lor old mask)) req)
      else match races with
           | [] => claim_loop region_id races req
           | others' :: races' => claim_loop region_id races' (others' req)
           end
  end.

(** The scan from region [region_id], with [fuel] regions left. *)
Fixpoint claim_from (fuel : nat) (region_id : Z) (races : list race) (req : OpsReq) : Z * OpsReq :=
  match fuel with
  | O => (-1, req)
  | S fuel' =>
      let '(claimed, races', req') := claim_loop region_id races req in
      if claimed : bool then (region_id, req') else claim_from fuel' (region_id + 1) races' req'
  end.

Definition claim_shm_region (races : list race) : M OpsReq Z :=
  fun req => let '(id, req') := claim_from (Z.to_nat MAX_REGION_NUM) 0 races req in (Ok id, req').

Definition release_shm_region (region_id : Z) : M OpsReq unit :=
  do* checkM ((0 <=? region_id) && (region_id <? MAX_REGION_NUM)) in
  let* req := getM in
  let mask := BITMAP_MASK region_id in
  let old := bm_word (ops_bitmap req) region_id in
  do* putM (set_bitmap (bm_store (ops_bitmap req) region_id (Z.land old (u64 (Z.lnot mask)))) req) in
  checkM (negb (Z.land old mask =? 0)).

(** ** Bits *)

Definition valid_region (n : Z) : Prop := 0 <= n < MAX_REGION_NUM.

(** The bitmap has its declared size and holds 64-bit words. *)
Definition wf_bitmap (a : list Z) : Prop :=
  length a = Z.to_nat BITMAP_SIZE /\ Forall in_u64 a.

Lemma max_region_num_val : MAX_REGION_NUM = 539.
Proof. reflexivity. Qed.

Lemma bitmap_word_in_range a n :
  wf_bitmap a -> valid_region n -> (Z.to_nat (BITMAP_WORD n) < length a)%nat.
Proof.
  intros [Hl _] Hn. rewrite Hl. unfold valid_region in Hn. rewrite max_region_num_val in Hn.
  unfold BITMAP_WORD. change BITMAP_SIZE with 9. change BITMAP_BITS with 64.
  pose proof (Z.div_lt_upper_bound n 64 9). pose proof (Z.div_pos n 64). lia.
Qed.

Lemma bitmap_mask_eq n : BITMAP_MASK n = 2 ^ (n mod 64).
Proof.
  unfold BITMAP_MASK. change BITMAP_BITS with 64. rewrite Z.shiftl_1_l. apply u64_small.
  pose proof (Z.mod_pos_bound n 64). split; [apply Z.pow_nonneg; lia|].
  apply Z.pow_lt_mono_r; lia.
Qed.

Lemma bm_word_u64 a n : wf_bitmap a -> in_u64 (bm_word a n).
Proof.
  intros [_ Hf]. unfold bm_word. destruct (a !! _) eqn:E; simpl.
  - eapply Forall_lookup_1; eauto.
  - unfold in_u64. lia.
Qed.

(** Masking a word with one bit tests that bit. *)
Lemma land_pow2_testbit w k : 0 <= k -> (Z.land w (2 ^ k) =? 0) = negb (Z.testbit w k).
Proof.
  intros Hk. destruct (Z.testbit w k) eqn:E; simpl.
  - apply Z.eqb_neq. intros H. apply (f_equal (fun z => Z.testbit z k)) in H.
    rewrite Z.land_spec, Z.bits_0, Z.pow2_bits_true, E in H by lia. discriminate.
  - apply Z.eqb_eq. apply Z.bits_inj'. intros n Hn.
    rewrite Z.land_spec, Z.bits_0, Z.pow2_bits_eqb by lia.
    destruct (Z.eqb_spec k n); [subst; now rewrite E|apply andb_false_r].
Qed.

Lemma bm_GET_testbit a n : bm_GET a n = Z.testbit (bm_word a n) (n mod 64).
Proof.
  unfold bm_GET. rewrite bitmap_mask_eq, land_pow2_testbit, negb_involutive.
  - reflexivity.
  - apply Z.mod_pos_bound. lia.
Qed.

(** Two regions share a word and a bit only if they are the same region. *)
Lemma region_bit_inj n m :
  0 <= n -> 0 <= m -> BITMAP_WORD n = BITMAP_WORD m -> n mod 64 = m mod 64 -> n = m.
Proof.
  unfold BITMAP_WORD. change BITMAP_BITS with 64. intros _ _ Hd Hm.
  rewrite (Z.div_mod n 64), (Z.div_mod m 64) by lia. congruence.
Qed.

Lemma bm_word_store_same a n w :
  wf_bitmap a -> valid_region n -> bm_word (bm_store a n w) n = w.
Proof.
  intros Hw Hn. unfold bm_word, bm_store.
  rewrite list_lookup_insert_eq by now apply bitmap_word_in_range. reflexivity.
Qed.

Lemma bm_word_store_ne a n m w :
  0 <= n -> 0 <= m -> BITMAP_WORD n <> BITMAP_WORD m -> bm_word (bm_store a n w) m = bm_word a m.
Proof.
  intros Hn Hm Hne. unfold bm_word, bm_store. rewrite list_lookup_insert_ne; [reflexivity|].
  pose proof (Z.div_pos n 64). pose proof (Z.div_pos m 64).
  unfold BITMAP_WORD in *. change BITMAP_BITS with 64 in *. lia.
Qed.

Lemma wf_bitmap_store a n w : wf_bitmap a -> in_u64 w -> wf_bitmap (bm_store a n w).
Proof.
  intros [Hl Hf] Hw. split; unfold bm_store; [now rewrite length_insert|].
  now apply Forall_insert.
Qed.

(** What storing [f] of the old word does to the bit of any region. *)
Lemma bm_GET_store a n m w :
  wf_bitmap a -> valid_region n -> valid_region m ->
  bm_GET (bm_store a n w) m =
    if decide (BITMAP_WORD n = BITMAP_WORD m) then Z.testbit w (m mod 64) else bm_GET a m.
Proof.
  intros Hw Hn Hm. rewrite !bm_GET_testbit. case_decide as E.
  - f_equal. replace (bm_word (bm_store a n w) m) with (bm_word (bm_store a n w) n).
    + now apply bm_word_store_same.
    + unfold bm_word. now rewrite E.
  - rewrite bm_word_store_ne by (unfold valid_region in *; lia). reflexivity.
Qed.

(** The words the two operations write. *)
Lemma set_word_u64 a n : wf_bitmap a -> in_u64 (Z.lor (bm_word a n) (BITMAP_MASK n)).
Proof.
  intros Hw. apply lor_bound; [lia|exact (bm_word_u64 a n Hw)|].
  unfold BITMAP_MASK. apply u64_range.
Qed.

Lemma clear_word_u64 a n :
  wf_bitmap a -> in_u64 (Z.land (bm_word a n) (u64 (Z.lnot (BITMAP_MASK n)))).
Proof. intros Hw. apply land_bound; [lia|exact (bm_word_u64 a n Hw)]. Qed.

Lemma set_bit_testbit w n j :
  0 <= j < 64 -> Z.testbit (Z.lor w (BITMAP_MASK n)) j = Z.testbit w j || (n mod 64 =? j).
Proof.
  intros Hj. rewrite bitmap_mask_eq, Z.lor_spec, Z.pow2_bits_eqb; [reflexivity|].
  apply Z.mod_pos_bound. lia.
Qed.

Lemma clear_bit_testbit w n j :
  0 <= j < 64 ->
  Z.testbit (Z.land w (u64 (Z.lnot (BITMAP_MASK n)))) j = Z.testbit w j && negb (n mod 64 =? j).
Proof.
  intros Hj. unfold u64. rewrite Z.land_spec, Z.mod_pow2_bits_low, Z.lnot_spec by lia.
  rewrite bitmap_mask_eq, Z.pow2_bits_eqb; [reflexivity|]. apply Z.mod_pos_bound. lia.
Qed.

(** Setting and clearing act on one region only. *)
Lemma bm_GET_SET a n m :
  wf_bitmap a -> valid_region n -> valid_region m ->
  bm_GET (bm_SET a n) m = if decide (n = m) then true else bm_GET a m.
Proof.
  intros Hw Hn Hm. unfold bm_SET. rewrite bm_GET_store by assumption.
  pose proof (Z.mod_pos_bound m 64). case_decide as E.
  - rewrite set_bit_testbit by lia. rewrite (bm_GET_testbit a m).
    replace (bm_word a n) with (bm_word a m) by (unfold bm_word; now rewrite E).
    case_decide as E2.
    + subst. rewrite Z.eqb_refl. apply orb_true_r.
    + destruct (Z.eqb_spec (n mod 64) (m mod 64)); [|apply orb_false_r].
      exfalso. apply E2. unfold valid_region in *. apply region_bit_inj; lia.
  - rewrite decide_False; [reflexivity|]. intros ->. contradiction.
Qed.

Lemma bm_GET_CLEAR a n m :
  wf_bitmap a -> valid_region n -> valid_region m ->
  bm_GET (bm_CLEAR a n) m = if decide (n = m) then false else bm_GET a m.
Proof.
  intros Hw Hn Hm. unfold bm_CLEAR. rewrite bm_GET_store by assumption.
  pose proof (Z.mod_pos_bound m 64). case_decide as E.
  - rewrite clear_bit_testbit by lia. rewrite (bm_GET_testbit a m).
    replace (bm_word a n) with (bm_word a m) by (unfold bm_word; now rewrite E).
    case_decide as E2.
    + subst. rewrite Z.eqb_refl. apply andb_false_r.
    + destruct (Z.eqb_spec (n mod 64) (m mod 64)); [|apply andb_true_r].
      exfalso. apply E2. unfold valid_region in *. apply region_bit_inj; lia.
  - rewrite decide_False; [reflexivity|]. intros ->. contradiction.
Qed.

Lemma wf_bm_SET a n : wf_bitmap a -> wf_bitmap (bm_SET a n).
Proof. intros Hw. apply wf_bitmap_store; [exact Hw|now apply set_word_u64]. Qed.

Lemma wf_bm_CLEAR a n : wf_bitmap a -> wf_bitmap (bm_CLEAR a n).
Proof. intros Hw. apply wf_bitmap_store; [exact Hw|now apply clear_word_u64]. Qed.

#[export] Hint Resolve wf_bm_SET wf_bm_CLEAR : zeno.

(** ** The sequential specification *)

(** The scan stops at the first free region and sets exactly its bit. *)
Lemma claim_from_spec fuel i req : let a := ops_bitmap req in
  wf_bitmap a -> 0 <= i -> i + Z.of_nat fuel = MAX_REGION_NUM ->
  (exists r, claim_from fuel i [] req = (r, set_bitmap (bm_SET a r) req) /\ i <= r < MAX_REGION_NUM /\
     bm_GET a r = false /\ forall k, i <= k < r -> bm_GET a k = true) \/
  (claim_from fuel i [] req = (-1, req) /\ forall k, i <= k < MAX_REGION_NUM -> bm_GET a k = true).
Proof.
  intros a Hw. revert i. induction fuel as [|fuel IH]; intros i Hi Hf.
  - right. split; [reflexivity|]. intros. lia.
  - cbn [claim_from claim_loop]. fold a. fold (bm_GET a i). destruct (bm_GET a i) eqn:E.
    + assert (i + 1 + Z.of_nat fuel = MAX_REGION_NUM) as Hf' by lia.
      destruct (IH (i + 1) ltac:(lia) Hf') as [(r & Hc & Hr & Hfree & Hall)|[Hc Hall]].
      * left. exists r. repeat split; try assumption; try lia.
        intros k Hk. destruct (Z.eq_dec k i) as [->|]; [exact E|]. apply Hall. lia.
      * right. split; [exact Hc|]. intros k Hk.
        destruct (Z.eq_dec k i) as [->|]; [exact E|]. apply Hall. lia.
    + left. exists i. repeat split; try lia. exact E.
Qed.

(** without interference [claim_shm_region] returns the lowest free region and marks
    exactly that region as taken, or returns -1 and changes nothing exactly when every
    region is taken. *)
Theorem claim_shm_region_spec (req : OpsReq) :
  wf_bitmap (ops_bitmap req) ->
  (exists r, claim_shm_region [] req = (Ok r, set_bitmap (bm_SET (ops_bitmap req) r) req) /\
     valid_region r /\ bm_GET (ops_bitmap req) r = false /\
     forall k, 0 <= k < r -> bm_GET (ops_bitmap req) k = true) \/
  (claim_shm_region [] req = (Ok (-1), req) /\
     forall k, valid_region k -> bm_GET (ops_bitmap req) k = true).
Proof.
  intros Hw. unfold claim_shm_region, valid_region.
  destruct (claim_from_spec (Z.to_nat MAX_REGION_NUM) 0 req Hw ltac:(lia) eq_refl)
    as [(r & Hc & Hr & Hfree & Hall)|[Hc Hall]].
  - left. exists r. rewrite Hc. auto.
  - right. rewrite Hc. split; [reflexivity|exact Hall].
Qed.

(** The compare-and-swap is retried as often as others change the word between load and swap:
    [n] processes that take and release another region of the word delay the claim of a free
    region by [n] rounds, in which the caller does nothing else. *)
Theorem lost_races_delay_the_claim (n : nat) (id other : Z) (req : OpsReq) :
  wf_bitmap (ops_bitmap req) -> valid_region id -> valid_region other -> BITMAP_WORD id = BITMAP_WORD other ->
  bm_GET (ops_bitmap req) id = false -> bm_GET (ops_bitmap req) other = false ->
  let take req := set_bitmap (bm_SET (ops_bitmap req) other) req in
  let back req := set_bitmap (bm_CLEAR (ops_bitmap req) other) req in
  exists req', claim_loop id (List.concat (replicate n [take; back])) req = claim_loop id [] req' /\
    wf_bitmap (ops_bitmap req') /\ forall r, valid_region r -> bm_GET (ops_bitmap req') r = bm_GET (ops_bitmap req) r.
Proof.
  intros Hw Hid Hoth Hword Hfree Hofree take back. revert req Hw Hfree Hofree. induction n as [|n IH]; intros req Hw Hfree Hofree.
  { exists req. auto. }
  assert (Hne : bm_word (bm_SET (ops_bitmap req) other) id <> bm_word (ops_bitmap req) id).
  { intros E. pose proof (bm_GET_SET (ops_bitmap req) other other Hw Hoth Hoth) as H. rewrite decide_True in H by reflexivity.
    unfold bm_GET, bm_word in *. rewrite Hword in E. rewrite E in H. congruence. }
  set (req2 := back (take req)).
  assert (Hw1 : wf_bitmap (bm_SET (ops_bitmap req) other)) by now apply wf_bm_SET.
  assert (Hsame : forall r, valid_region r -> bm_GET (ops_bitmap req2) r = bm_GET (ops_bitmap req) r).
  { intros r Hr. unfold req2, back, take. cbn. rewrite bm_GET_CLEAR by assumption.
    destruct (decide (other = r)) as [->|Hd]; [now rewrite Hofree|]. rewrite bm_GET_SET by assumption.
    now rewrite decide_False by assumption. }
  destruct (IH req2) as (req' & E & Hw' & Hr').
  { unfold req2. cbn. now apply wf_bm_CLEAR. } { now rewrite Hsame. } { now rewrite Hsame. }
  exists req'. split; [|split; [exact Hw'|intros r Hr; now rewrite Hr', Hsame]].
  cbn [replicate List.concat app claim_loop]. fold (bm_GET (ops_bitmap req) id). rewrite Hfree.
  change (ops_bitmap (take req)) with (bm_SET (ops_bitmap req) other). rewrite (proj2 (Z.eqb_neq _ _) Hne). exact E.
Qed.

(** Releasing a taken region succeeds and clears its bit. *)
Lemma release_taken req r :
  valid_region r -> bm_GET (ops_bitmap req) r = true ->
  release_shm_region r req = (Ok tt, set_bitmap (bm_CLEAR (ops_bitmap req) r) req).
Proof.
  intros Hr Hg. unfold release_shm_region, valid_region in *.
  rewrite (bindM_run _ _ _ req tt).
  2: { apply checkM_true. rewrite andb_true_iff. lia. }
  unfold bindM, getM, putM. unfold bm_GET in Hg. now rewrite Hg.
Qed.

(** releasing a region that is not taken, or one outside the map, is a fatal error. *)
Theorem release_free_is_fatal (req : OpsReq) (r : Z) :
  bm_GET (ops_bitmap req) r = false \/ ~ valid_region r ->
  fst (release_shm_region r req) = Err Fatal.
Proof.
  intros Hor. unfold release_shm_region, valid_region in *.
  destruct ((0 <=? r) && (r <? MAX_REGION_NUM)) eqn:E.
  - destruct Hor as [Hg|Hn]; [|apply andb_true_iff in E; lia].
    unfold bindM, checkM, getM, putM, retM. unfold bm_GET in Hg. now rewrite Hg.
  - reflexivity.
Qed.


(** A control block in which regions 0 and 1 are taken. *)
Definition sample_req : OpsReq := mkOpsReq 0 SHM_NONE 0 0 (3 :: replicate 8 0).

Lemma wf_sample_req : wf_bitmap (ops_bitmap sample_req).
Proof.
  split; [reflexivity|]. cbn. repeat (apply Forall_cons_2; [unfold in_u64; lia|]). constructor.
Qed.

Lemma claim_shm_region_spec_witness :
  fst (claim_shm_region [] sample_req) = Ok 2 /\ bm_GET (ops_bitmap sample_req) 2 = false.
Proof.
  assert (fst (claim_shm_region [] sample_req) = Ok 2) as Hc by reflexivity.
  split; [exact Hc|].
  destruct (claim_shm_region_spec sample_req wf_sample_req) as [(r & H & _ & Hf & _)|[H _]];
    rewrite H in Hc; injection Hc as Hc.
  - now subst r.
  - discriminate Hc.
Defined.

Lemma release_free_is_fatal_witness : fst (release_shm_region 5 sample_req) = Err Fatal.
Proof. apply (release_free_is_fatal sample_req 5). left. reflexivity. Defined.

(** ** Regions in memory *)

(** The byte interval of region [n] inside the mapping. *)
Definition region_byte (n addr : Z) : Prop :=
  REGION_N_OFFSET n <= addr < REGION_N_OFFSET n + REQ_REGION_SIZE.

(** [sizeof(OpsReq)]: five 4-byte fields, padding to the 8-byte alignment of the
    bitmap, and the bitmap. *)
Definition sizeof_OpsReq : Z := 5 * 4 + 4 + 8 * BITMAP_SIZE.

(** every region lies inside the mapping and behind the control block, and two different
    regions share no byte. *)
Theorem regions_disjoint_in_shm (n m addr : Z) :
  valid_region n -> valid_region m -> region_byte n addr ->
  sizeof_OpsReq <= addr < SHM_SIZE /\ (region_byte m addr -> n = m).
Proof.
  unfold valid_region, region_byte, REGION_N_OFFSET. rewrite max_region_num_val.
  change sizeof_OpsReq with 96. change REQ_REGION_SIZE with 1048576.
  change META_REQ_SIZE with 1024. change SHM_SIZE with 566231040. lia.
Qed.

Lemma regions_disjoint_in_shm_witness :
  sizeof_OpsReq <= 1048576 + 1024 < SHM_SIZE /\ (region_byte 0 (1048576 + 1024) -> 1 = 0).
Proof.
  apply (regions_disjoint_in_shm 1 0 (1048576 + 1024)); vm_compute; split; congruence.
Defined.

(** ** Concurrent clients

    Every backend runs [claim_shm_region] and later [release_shm_region] on the same
    bitmap. The steps of a backend are its atomic accesses to a bitmap word: the relaxed
    load, the compare-and-swap and the fetch-and-and; everything between two of them is
    local. *)
Module Concurrent.

(** Where a backend is: about to load the word of region [i]; holding the loaded value;
    owning a region; done without one; or outside both operations. *)
Inductive pc : Type :=
| Idle
| Scan (i : Z)
| Loaded (i old : Z)
| Owns (i : Z)
| Failed.

Record cstate : Type := mkC {
  cs_bitmap : list Z;
  cs_pc : nat -> pc;
}.

Definition upd (f : nat -> pc) (t : nat) (p : pc) : nat -> pc :=
  fun t' => if Nat.eqb t t' then p else f t'.

Inductive cstep : cstate -> cstate -> Prop :=
| step_call s t :
    cs_pc s t = Idle -> cstep s (mkC (cs_bitmap s) (upd (cs_pc s) t (Scan 0)))
| step_exhausted s t i :
    cs_pc s t = Scan i -> ~ (i < MAX_REGION_NUM) ->
    cstep s (mkC (cs_bitmap s) (upd (cs_pc s) t Failed))
| step_load s t i :
    cs_pc s t = Scan i -> i < MAX_REGION_NUM ->
    cstep s (mkC (cs_bitmap s) (upd (cs_pc s) t (Loaded i (bm_word (cs_bitmap s) i))))
| step_taken s t i old :
    cs_pc s t = Loaded i old -> Z.land old (BITMAP_MASK i) <> 0 ->
    cstep s (mkC (cs_bitmap s) (upd (cs_pc s) t (Scan (i + 1))))
| step_cas_win s t i old :
    cs_pc s t = Loaded i old -> Z.land old (BITMAP_MASK i) = 0 ->
    bm_word (cs_bitmap s) i = old ->
    cstep s (mkC (bm_store (cs_bitmap s) i (Z.lor old (BITMAP_MASK i)))
                 (upd (cs_pc s) t (Owns i)))
| step_cas_lose s t i old :
    cs_pc s t = Loaded i old -> Z.land old (BITMAP_MASK i) = 0 ->
    bm_word (cs_bitmap s) i <> old ->
    cstep s (mkC (cs_bitmap s) (upd (cs_pc s) t (Scan i)))
| step_release s t i :
    cs_pc s t = Owns i ->
    cstep s (mkC (bm_CLEAR (cs_bitmap s) i) (upd (cs_pc s) t Idle))
| step_retry s t :
    cs_pc s t = Failed -> cstep s (mkC (cs_bitmap s) (upd (cs_pc s) t (Scan 0))).

(** The server clears the mapping before it forks its workers ([memset] in [main]). *)
Definition cinit : cstate :=
  mkC (replicate (Z.to_nat BITMAP_SIZE) 0) (fun _ => Idle).

Inductive creach : cstate -> Prop :=
| creach_init : creach cinit
| creach_step s s' : creach s -> cstep s s' -> creach s'.

Definition pc_ok (p : pc) : Prop :=
  match p with
  | Scan i => 0 <= i
  | Loaded i _ | Owns i => valid_region i
  | _ => True
  end.

(** A region's bit is set exactly when some backend owns it, and owners are unique. *)
Record cinv (s : cstate) : Prop := {
  ci_wf : wf_bitmap (cs_bitmap s);
  ci_pc : forall t, pc_ok (cs_pc s t);
  ci_bit : forall i, valid_region i ->
             (bm_GET (cs_bitmap s) i = true <-> exists t, cs_pc s t = Owns i);
  ci_uniq : forall t1 t2 i, cs_pc s t1 = Owns i -> cs_pc s t2 = Owns i -> t1 = t2;
}.

Lemma upd_same f t p : upd f t p t = p.
Proof. unfold upd. now rewrite Nat.eqb_refl. Qed.

Lemma upd_other f t t' p : t <> t' -> upd f t p t' = f t'.
Proof. intros H. unfold upd. now apply Nat.eqb_neq in H as ->. Qed.

Lemma upd_cases f t t' p q : upd f t p t' = q -> (t = t' /\ p = q) \/ (t <> t' /\ f t' = q).
Proof.
  destruct (Nat.eq_dec t t') as [->|Hne].
  - rewrite upd_same. auto.
  - rewrite upd_other by exact Hne. auto.
Qed.

(** A step that moves one backend between program points that own nothing keeps the
    invariant. *)
Lemma cinv_move s t p :
  cinv s -> pc_ok p -> (forall i, cs_pc s t <> Owns i) -> (forall i, p <> Owns i) ->
  cinv (mkC (cs_bitmap s) (upd (cs_pc s) t p)).
Proof.
  intros [Hw Hp Hb Hu] Hok Hno Hnp. split; cbn [cs_bitmap cs_pc].
  - exact Hw.
  - intros t'. destruct (Nat.eq_dec t t') as [->|Hne].
    + now rewrite upd_same.
    + rewrite upd_other by exact Hne. apply Hp.
  - intros i Hi. rewrite (Hb i Hi). split; intros [t' Ht'].
    + exists t'. rewrite upd_other; [exact Ht'|]. intros <-. now apply (Hno i).
    + apply upd_cases in Ht' as [[_ He]|[_ He]]; [now apply Hnp in He|eauto].
  - intros t1 t2 i H1 H2. apply upd_cases in H1 as [[_ H1]|[_ H1]]; [now apply Hnp in H1|].
    apply upd_cases in H2 as [[_ H2]|[_ H2]]; [now apply Hnp in H2|]. eauto.
Qed.

(** Winning the compare-and-swap: the word still has the value in which the bit was
    clear, so nobody owns the region. *)
Lemma cinv_win s t i :
  cinv s -> (forall j, cs_pc s t <> Owns j) -> valid_region i ->
  Z.land (bm_word (cs_bitmap s) i) (BITMAP_MASK i) = 0 ->
  cinv (mkC (bm_SET (cs_bitmap s) i) (upd (cs_pc s) t (Owns i))).
Proof.
  intros [Hw Hp Hb Hu] Hno Hi Hfree.
  assert (Hnone : forall t', cs_pc s t' <> Owns i).
  { intros t' Ht'. assert (bm_GET (cs_bitmap s) i = true) as Hg by (apply Hb; eauto).
    unfold bm_GET in Hg. now rewrite Hfree in Hg. }
  split; cbn [cs_bitmap cs_pc].
  - auto with zeno.
  - intros t'. destruct (Nat.eq_dec t t') as [->|Hne].
    + now rewrite upd_same.
    + rewrite upd_other by exact Hne. apply Hp.
  - intros j Hj. rewrite bm_GET_SET by assumption. case_decide as E.
    + subst j. split; [|reflexivity]. exists t. apply upd_same.
    + rewrite (Hb j Hj). split; intros [t' Ht'].
      * exists t'. rewrite upd_other; [exact Ht'|]. intros <-. now apply (Hno j).
      * apply upd_cases in Ht' as [[_ He]|[_ He]]; [congruence|eauto].
  - intros t1 t2 j H1 H2.
    apply upd_cases in H1 as [[<- H1]|[_ H1]]; apply upd_cases in H2 as [[<- H2]|[_ H2]].
    + reflexivity.
    + injection H1 as <-. now apply Hnone in H2.
    + injection H2 as <-. now apply Hnone in H1.
    + eauto.
Qed.

Lemma cinv_release s t i :
  cinv s -> cs_pc s t = Owns i -> cinv (mkC (bm_CLEAR (cs_bitmap s) i) (upd (cs_pc s) t Idle)).
Proof.
  intros [Hw Hp Hb Hu] Ht. assert (valid_region i) as Hi.
  { specialize (Hp t). now rewrite Ht in Hp. }
  split; cbn [cs_bitmap cs_pc].
  - auto with zeno.
  - intros t'. destruct (Nat.eq_dec t t') as [->|Hne].
    + now rewrite upd_same.
    + rewrite upd_other by exact Hne. apply Hp.
  - intros j Hj. rewrite bm_GET_CLEAR by assumption. case_decide as E.
    + subst j. split; [discriminate|]. intros [t' Ht'].
      apply upd_cases in Ht' as [[_ He]|[Hne He]]; [discriminate|].
      exfalso. apply Hne. eauto.
    + rewrite (Hb j Hj). split; intros [t' Ht'].
      * exists t'. rewrite upd_other; [exact Ht'|]. intros <-. congruence.
      * apply upd_cases in Ht' as [[_ He]|[_ He]]; [discriminate|eauto].
  - intros t1 t2 j H1 H2.
    apply upd_cases in H1 as [[_ H1]|[_ H1]]; [discriminate|].
    apply upd_cases in H2 as [[_ H2]|[_ H2]]; [discriminate|]. eauto.
Qed.

Lemma cinit_inv : cinv cinit.
Proof.
  assert (Hw : wf_bitmap (cs_bitmap cinit)).
  { split; [reflexivity|]. apply Forall_replicate. unfold in_u64. lia. }
  split; [exact Hw|done| |done].
  intros i Hi. split; [|intros [t Ht]; discriminate Ht].
  rewrite bm_GET_testbit. unfold bm_word, cinit. cbn [cs_bitmap].
  rewrite lookup_replicate_2; [cbn [default]; rewrite Z.bits_0; discriminate|].
  pose proof (bitmap_word_in_range _ i Hw Hi) as H. exact H.
Qed.

Lemma cstep_inv s s' : cinv s -> cstep s s' -> cinv s'.
Proof.
  intros Hinv Hstep. pose proof (ci_pc s Hinv) as Hp.
  destruct Hstep as [s t H|s t i H _|s t i H Hi|s t i old H _|s t i old H Hz He
                    |s t i old H _ _|s t i H|s t H];
    try specialize (Hp t); rewrite H in Hp; cbn [pc_ok] in Hp.
  all: try (apply cinv_move; [exact Hinv| |intros j; rewrite H; discriminate|discriminate]).
  - cbn [pc_ok]. lia.
  - exact I.
  - cbn [pc_ok]. unfold valid_region. lia.
  - cbn [pc_ok]. unfold valid_region in Hp. lia.
  - subst old. apply (cinv_win s t i Hinv); [intros j; rewrite H; discriminate|exact Hp|exact Hz].
  - cbn [pc_ok]. unfold valid_region in Hp. lia.
  - now apply cinv_release.
  - cbn [pc_ok]. lia.
Qed.

Lemma creach_inv s : creach s -> cinv s.
Proof. induction 1; [apply cinit_inv|eapply cstep_inv; eauto]. Qed.

(** C12: in every reachable state of any number of backends claiming and releasing
    concurrently, no two backends own the same region, and a region's bit is set exactly
    when a backend owns it (no region is leaked and none is handed out twice). *)
Theorem claim_mutual_exclusion (s : cstate) :
  creach s ->
  (forall t1 t2 i, cs_pc s t1 = Owns i -> cs_pc s t2 = Owns i -> t1 = t2) /\
  (forall i, valid_region i ->
     (bm_GET (cs_bitmap s) i = true <-> exists t, cs_pc s t = Owns i)).
Proof. intros H. apply creach_inv in H as [_ _ Hb Hu]. auto. Qed.

(** Two backends race for region 0: the first wins the compare-and-swap. *)
Definition race_state : cstate :=
  mkC (bm_SET (cs_bitmap cinit) 0)
      (upd (upd (upd (upd (upd (cs_pc cinit) 0 (Scan 0)) 1 (Scan 0)) 0 (Loaded 0 0)) 1 (Loaded 0 0))
           0 (Owns 0)).

Lemma race_state_reach : creach race_state.
Proof.
  pose proof (creach_step _ _ creach_init (step_call cinit 0 eq_refl)) as H1.
  match type of H1 with creach ?s =>
    pose proof (creach_step _ _ H1 (step_call s 1 eq_refl)) as H2 end.
  match type of H2 with creach ?s =>
    pose proof (creach_step _ _ H2 (step_load s 0 0 eq_refl eq_refl)) as H3 end.
  match type of H3 with creach ?s =>
    pose proof (creach_step _ _ H3 (step_load s 1 0 eq_refl eq_refl)) as H4 end.
  match type of H4 with creach ?s =>
    exact (creach_step _ _ H4 (step_cas_win s 0 0 0 eq_refl eq_refl eq_refl)) end.
Qed.

Lemma claim_mutual_exclusion_witness :
  creach race_state /\ cs_pc race_state 0 = Owns 0 /\
  (bm_GET (cs_bitmap race_state) 0 = true <-> exists t, cs_pc race_state t = Owns 0).
Proof.
  split; [exact race_state_reach|]. split; [reflexivity|].
  apply (claim_mutual_exclusion race_state race_state_reach). split; reflexivity || easy.
Defined.

End Concurrent.
