(* ===== verification/LocalStore.v ===== *)
(** The per-worker local value stores of src/privacy_zone/include/kv-local.hpp.

    [ReusableLocalKVStore] is the store of the default build
    ([USE_LOCAL_STORE_CLEAR]); the sections [Append] and [Ring] hold the two other
    templates of the header. [LocalKVStoreOperator] bundles four stores. *)
From S2P Require Import Prelude Rid.

(** ** std::vector *)

(** Element access by a 64-bit key. *)
Definition vlookup {A : Type} (l : list A) (key : RID) : option A :=
  if 0 <=? key then l !! Z.to_nat key else None.
Definition vupdate {A : Type} (l : list A) (key : RID) (a : A) : list A :=
  <[Z.to_nat key := a]> l.
Definition vsize {A : Type} (l : list A) : Z := Z.of_nat (length l).
Definition vin {A : Type} (l : list A) (key : RID) : bool := (0 <=? key) && (key <? vsize l).

Lemma vin_spec {A : Type} (l : list A) k : vin l k = true <-> 0 <= k < vsize l.
Proof. unfold vin. rewrite andb_true_iff. lia. Qed.

Lemma vlookup_lt {A : Type} (l : list A) k : is_Some (vlookup l k) <-> 0 <= k < vsize l.
Proof.
  unfold vlookup, vsize. destruct (Z.leb_spec 0 k).
  - rewrite lookup_lt_is_Some. lia.
  - split; [intros [? [=]]|lia].
Qed.

Lemma vlookup_Some_lt {A : Type} (l : list A) k a : vlookup l k = Some a -> 0 <= k < vsize l.
Proof. intros H. apply vlookup_lt. eauto. Qed.

Lemma vlookup_update_eq {A : Type} (l : list A) k a :
  0 <= k < vsize l -> vlookup (vupdate l k a) k = Some a.
Proof.
  unfold vlookup, vupdate, vsize. intros H. rewrite (proj2 (Z.leb_le 0 k)) by lia.
  apply list_lookup_insert_eq. lia.
Qed.

Lemma vlookup_update_ne {A : Type} (l : list A) k k' a :
  0 <= k -> k <> k' -> vlookup (vupdate l k a) k' = vlookup l k'.
Proof.
  unfold vlookup, vupdate. intros Hk Hne. destruct (Z.leb_spec 0 k'); [|reflexivity].
  apply list_lookup_insert_ne. lia.
Qed.

Lemma vlookup_app_new {A : Type} (l : list A) a : vlookup (l ++ [a]) (vsize l) = Some a.
Proof.
  unfold vlookup, vsize. rewrite (proj2 (Z.leb_le 0 _)) by lia. rewrite Nat2Z.id.
  now rewrite lookup_app_r, Nat.sub_diag by lia.
Qed.

Lemma vlookup_app_old {A : Type} (l : list A) a k : k <> vsize l -> vlookup (l ++ [a]) k = vlookup l k.
Proof.
  unfold vlookup, vsize. intros Hne. destruct (Z.leb_spec 0 k); [|reflexivity].
  destruct (decide (Z.to_nat k < length l)%nat).
  - now apply lookup_app_l.
  - rewrite lookup_app_r, (lookup_ge_None_2 l) by lia.
    apply lookup_ge_None_2. simpl. lia.
Qed.

Lemma vsize_update {A : Type} (l : list A) k a : vsize (vupdate l k a) = vsize l.
Proof. unfold vsize, vupdate. now rewrite length_insert. Qed.

Lemma vsize_app1 {A : Type} (l : list A) a : vsize (l ++ [a]) = vsize l + 1.
Proof. unfold vsize. rewrite length_app. simpl. lia. Qed.

(** ** What a client may rely on

    A store shows a finite view: the values that were put and not erased. *)
Class LocalStoreSpec (St V : Type) (put : V -> M St RID) (get : RID -> M St V)
    (erase : RID -> M St unit) (clear : M St unit)
    (ok : St -> Prop) (view : St -> RID -> option V) : Prop := {
  ls_put : forall s v, ok s ->
    exists k s', put v s = (Ok k, s') /\ ok s' /\ 0 <= k /\ view s k = None /\
      view s' k = Some v /\ forall k', k' <> k -> view s' k' = view s k';
  ls_get : forall s k v, ok s -> view s k = Some v -> get k s = (Ok v, s);
  ls_erase : forall s k, ok s -> 0 <= k ->
    exists s', erase k s = (Ok tt, s') /\ ok s' /\ view s' k = None /\
      forall k', k' <> k -> view s' k' = view s k';
  ls_clear : forall s, exists s', clear s = (Ok tt, s') /\ ok s' /\ forall k, view s' k = None;
}.

(** ** ReusableLocalKVStore *)
Section Reusable.
Context {V : Type} (dflt : V).

(** [free_list] is kept with its back element first. *)
Record rstore : Type := mkRstore {
  rs_store : list V;
  rs_live : list bool;
  rs_free : list RID;
}.

Definition rempty : rstore := mkRstore [] [] [].

Definition rs_put (value : V) : M rstore RID :=
  let* s := getM in
  match rs_free s with
  | key :: rest =>
      do* definedM (vin (rs_store s) key && vin (rs_live s) key) in
      do* putM (mkRstore (vupdate (rs_store s) key value) (vupdate (rs_live s) key true) rest) in
      retM key
  | [] =>
      let key := vsize (rs_store s) in
      do* putM (mkRstore (rs_store s ++ [value]) (rs_live s ++ [true]) []) in
      retM key
  end.

Definition rs_get (key : RID) : M rstore V :=
  let* s := getM in
  match vlookup (rs_store s) key with
  | Some v => retM v
  | None => failM Undefined
  end.

Definition rs_replace (key : RID) (value : V) : M rstore unit :=
  let* s := getM in
  let s1 :=
    if vsize (rs_store s) <=? key
    then mkRstore (resize (Z.to_nat (key + 1)) dflt (rs_store s))
                  (resize (Z.to_nat (key + 1)) false (rs_live s)) (rs_free s)
    else s in
  do* definedM (vin (rs_store s1) key && vin (rs_live s1) key) in
  putM (mkRstore (vupdate (rs_store s1) key value) (vupdate (rs_live s1) key true) (rs_free s1)).

Definition rs_erase (key : RID) : M rstore unit :=
  let* s := getM in
  if (vsize (rs_live s) <=? key) || negb (default false (vlookup (rs_live s) key)) then retM tt
  else
    do* definedM (vin (rs_store s) key) in
    putM (mkRstore (vupdate (rs_store s) key dflt) (vupdate (rs_live s) key false)
                   (key :: rs_free s)).

Definition rs_clear : M rstore unit := putM rempty.

(** The flags run parallel to the values, and the free list holds exactly the dead keys,
    once each. *)
Record rs_ok (s : rstore) : Prop := {
  rs_len : length (rs_live s) = length (rs_store s);
  rs_nodup : NoDup (rs_free s);
  rs_dead : forall k, k ∈ rs_free s <-> vlookup (rs_live s) k = Some false;
}.

(** The value a live key holds. *)
Definition rs_view (s : rstore) (k : RID) : option V :=
  match vlookup (rs_live s) k with
  | Some true => vlookup (rs_store s) k
  | _ => None
  end.

Lemma rs_vsize s : rs_ok s -> vsize (rs_live s) = vsize (rs_store s).
Proof. intros [H _ _]. unfold vsize. now rewrite H. Qed.

Lemma rs_ok_empty : rs_ok rempty.
Proof.
  split; [reflexivity|constructor|]. intros k. simpl.
  split; [intros H; inversion H|]. intros H. apply vlookup_Some_lt in H. unfold vsize in H. simpl in H. lia.
Qed.

(** Pushing a fresh key keeps the store well formed. *)
Lemma rs_put_push s v :
  rs_ok s -> rs_free s = [] ->
  rs_ok (mkRstore (rs_store s ++ [v]) (rs_live s ++ [true]) []).
Proof.
  intros [Hl Hn Hd] Hf. split; simpl.
  - rewrite !length_app. simpl. lia.
  - constructor.
  - intros k. split; [intros H; inversion H|]. intros H.
    destruct (decide (k = vsize (rs_live s))) as [->|Hne].
    + now rewrite vlookup_app_new in H.
    + rewrite vlookup_app_old in H by exact Hne. rewrite <- Hd, Hf in H. exact H.
Qed.

(** Reusing the key at the back of the free list. *)
Lemma rs_put_reuse s k rest v :
  rs_ok s -> rs_free s = k :: rest ->
  0 <= k < vsize (rs_store s) /\
  rs_ok (mkRstore (vupdate (rs_store s) k v) (vupdate (rs_live s) k true) rest).
Proof.
  intros Hok Hf. pose proof (rs_vsize s Hok) as Hvs. destruct Hok as [Hl Hn Hd].
  assert (vlookup (rs_live s) k = Some false) as Hk by (apply Hd; rewrite Hf; left).
  apply vlookup_Some_lt in Hk as Hr. rewrite Hf in Hn. apply list.NoDup_cons in Hn as [Hnot Hn'].
  split; [lia|]. split; simpl.
  - unfold vupdate. now rewrite !length_insert.
  - exact Hn'.
  - intros k'. destruct (decide (k' = k)) as [->|Hne].
    + rewrite vlookup_update_eq by lia. split; [contradiction|discriminate].
    + rewrite vlookup_update_ne by (lia || congruence). rewrite <- Hd, Hf, elem_of_cons. tauto.
Qed.

Lemma rs_erase_ok s k :
  rs_ok s -> vlookup (rs_live s) k = Some true ->
  rs_ok (mkRstore (vupdate (rs_store s) k dflt) (vupdate (rs_live s) k false) (k :: rs_free s)).
Proof.
  intros [Hl Hn Hd] Hk. apply vlookup_Some_lt in Hk as Hr. split; simpl.
  - unfold vupdate. now rewrite !length_insert.
  - constructor; [|exact Hn]. rewrite Hd, Hk. discriminate.
  - intros k'. rewrite elem_of_cons. destruct (decide (k' = k)) as [->|Hne].
    + rewrite vlookup_update_eq by lia. tauto.
    + rewrite vlookup_update_ne by (lia || congruence). rewrite <- Hd. tauto.
Qed.

Lemma rs_put_spec s v :
  rs_ok s ->
  exists k s', rs_put v s = (Ok k, s') /\ rs_ok s' /\ 0 <= k /\ rs_view s k = None /\
    rs_view s' k = Some v /\ forall k', k' <> k -> rs_view s' k' = rs_view s k'.
Proof.
  intros Hok. pose proof (rs_vsize s Hok) as Hvs. unfold rs_put, bindM, getM.
  destruct (rs_free s) as [|k rest] eqn:Hf.
  - exists (vsize (rs_store s)). eexists. split; [reflexivity|].
    split; [now apply rs_put_push|]. split; [unfold vsize; lia|].
    unfold rs_view. cbn [rs_live rs_store]. rewrite <- Hvs at 1 2. rewrite vlookup_app_new, vlookup_app_new.
    split; [|split; [reflexivity|]].
    + destruct (vlookup (rs_live s) (vsize (rs_live s))) eqn:E; [|reflexivity].
      apply vlookup_Some_lt in E. lia.
    + intros k' Hne. rewrite !vlookup_app_old by congruence. reflexivity.
  - destruct (rs_put_reuse s k rest v Hok Hf) as [Hr Hok'].
    exists k. eexists. unfold definedM. rewrite (proj2 (vin_spec (rs_store s) k)) by lia.
    rewrite (proj2 (vin_spec (rs_live s) k)) by lia.
    split; [reflexivity|]. split; [exact Hok'|]. split; [lia|].
    unfold rs_view. cbn [rs_live rs_store]. rewrite !vlookup_update_eq by lia.
    split; [|split; [reflexivity|]].
    + assert (vlookup (rs_live s) k = Some false) as ->; [|reflexivity].
      apply (rs_dead s Hok). rewrite Hf. left.
    + intros k' Hne. rewrite !vlookup_update_ne by (lia || congruence). reflexivity.
Qed.

Lemma rs_get_spec s k v : rs_ok s -> rs_view s k = Some v -> rs_get k s = (Ok v, s).
Proof.
  intros _ Hv. unfold rs_view in Hv. unfold rs_get, bindM, getM.
  destruct (vlookup (rs_live s) k) as [[|]|]; try discriminate. now rewrite Hv.
Qed.

Lemma rs_erase_spec s k :
  rs_ok s -> 0 <= k ->
  exists s', rs_erase k s = (Ok tt, s') /\ rs_ok s' /\ rs_view s' k = None /\
    forall k', k' <> k -> rs_view s' k' = rs_view s k'.
Proof.
  intros Hok Hk. unfold rs_erase, bindM, getM.
  destruct ((vsize (rs_live s) <=? k) || negb (default false (vlookup (rs_live s) k))) eqn:E.
  - exists s. split; [reflexivity|]. split; [exact Hok|]. split; [|reflexivity].
    unfold rs_view. destruct (vlookup (rs_live s) k) as [[|]|] eqn:El; try reflexivity.
    apply vlookup_Some_lt in El. apply orb_true_iff in E as [E|E]; [lia|discriminate].
  - apply orb_false_iff in E as [E1 E2]. apply negb_false_iff in E2.
    destruct (vlookup (rs_live s) k) as [[|]|] eqn:El; try discriminate E2.
    pose proof (rs_vsize s Hok). apply vlookup_Some_lt in El as Hr.
    unfold definedM. rewrite (proj2 (vin_spec (rs_store s) k)) by lia.
    eexists. split; [reflexivity|]. split; [now apply rs_erase_ok|].
    unfold rs_view. cbn [rs_live rs_store]. rewrite vlookup_update_eq by lia.
    split; [reflexivity|]. intros k' Hne.
    rewrite !vlookup_update_ne by (lia || congruence). reflexivity.
Qed.

Lemma rs_clear_spec s : exists s', rs_clear s = (Ok tt, s') /\ rs_ok s' /\ forall k, rs_view s' k = None.
Proof.
  exists rempty. split; [reflexivity|]. split; [apply rs_ok_empty|]. intros k.
  unfold rs_view. destruct (vlookup (rs_live rempty) k) eqn:E; [|reflexivity].
  apply vlookup_Some_lt in E. unfold vsize in E. simpl in E. lia.
Qed.

#[export] Instance rstore_spec : LocalStoreSpec rstore V rs_put rs_get rs_erase rs_clear rs_ok rs_view.
Proof.
  split; [exact rs_put_spec|exact rs_get_spec|exact rs_erase_spec|exact rs_clear_spec].
Qed.

End Reusable.
Arguments rstore : clear implicits.

(** ** Refinement of a map with fresh keys *)
Section Refinement.
Context {V : Type} (dflt : V).

(** A client's calls and what they return. *)
Inductive ls_op : Type :=
| OpPut (v : V)
| OpGet (k : RID)
| OpErase (k : RID)
| OpClear.

Inductive ls_out : Type :=
| OutKey (k : RID)
| OutVal (v : V)
| OutUnit.

Definition ls_step (o : ls_op) : M (rstore V) ls_out :=
  match o with
  | OpPut v => let* k := rs_put v in retM (OutKey k)
  | OpGet k => let* v := rs_get k in retM (OutVal v)
  | OpErase k => do* rs_erase dflt k in retM OutUnit
  | OpClear => do* rs_clear in retM OutUnit
  end.

(** The abstract machine: a partial function from keys to values; a put picks any key that
    is not in use. *)
Inductive map_step : (RID -> option V) -> ls_op -> ls_out -> (RID -> option V) -> Prop :=
| map_put f g v k :
    f k = None -> (forall k', g k' = if decide (k' = k) then Some v else f k') ->
    map_step f (OpPut v) (OutKey k) g
| map_get f g k v :
    f k = Some v -> (forall k', g k' = f k') -> map_step f (OpGet k) (OutVal v) g
| map_erase f g k :
    (forall k', g k' = if decide (k' = k) then None else f k') ->
    map_step f (OpErase k) OutUnit g
| map_clear f g : (forall k', g k' = None) -> map_step f OpClear OutUnit g.

(** What a client must respect: keys are 64-bit words, and only live keys are read. *)
Definition ls_valid (f : RID -> option V) (o : ls_op) : Prop :=
  match o with
  | OpGet k => is_Some (f k)
  | OpErase k => 0 <= k
  | _ => True
  end.

(** C5: [ReusableLocalKVStore] implements a map with fresh keys. From every well-formed
    store each of put, get, erase and clear returns (it neither fails nor touches memory out
    of bounds), leaves the store well formed, and its result and effect are those of the
    abstract map; in particular a reused key is never one that is still live. *)
Theorem reusable_store_refines_map (s : rstore V) (o : ls_op) :
  rs_ok s -> ls_valid (rs_view s) o ->
  exists out s', ls_step o s = (Ok out, s') /\ rs_ok s' /\
    map_step (rs_view s) o out (rs_view s').
Proof.
  intros Hok Hval. destruct o as [v|k|k|]; cbn [ls_step ls_valid] in *.
  - destruct (rs_put_spec s v Hok) as (k & s' & Hr & Hok' & _ & Hfresh & Hnew & Hframe).
    exists (OutKey k), s'. rewrite (bindM_run _ _ _ _ _ Hr).
    repeat split; try apply Hok'. apply map_put; [exact Hfresh|]. intros k'. case_decide; [now subst|auto].
  - destruct Hval as [v Hv]. exists (OutVal v), s.
    rewrite (bindM_run _ _ _ _ _ (rs_get_spec s k v Hok Hv)).
    repeat split; try apply Hok. now apply map_get.
  - destruct (rs_erase_spec dflt s k Hok Hval) as (s' & Hr & Hok' & Hgone & Hframe).
    exists OutUnit, s'. rewrite (bindM_run _ _ _ _ _ Hr).
    repeat split; try apply Hok'. apply map_erase. intros k'. case_decide; [now subst|auto].
  - destruct (rs_clear_spec s) as (s' & Hr & Hok' & Hempty).
    exists OutUnit, s'. rewrite (bindM_run _ _ _ _ _ Hr).
    repeat split; try apply Hok'. now apply map_clear.
Qed.

End Refinement.
Arguments ls_op : clear implicits.
Arguments ls_out : clear implicits.

(** Put two values, erase the first, put a third: the freed key 0 is handed out again. *)
Definition sample_store : rstore Z := mkRstore [0; 20] [false; true] [0].

Lemma sample_store_ok : rs_ok sample_store.
Proof.
  split; [reflexivity|repeat constructor; set_solver|]. intros k. cbn [rs_free rs_live sample_store].
  rewrite list_elem_of_singleton. split.
  - now intros ->.
  - intros H. apply vlookup_Some_lt in H as Hr. unfold vsize in Hr. simpl in Hr.
    assert (k = 0 \/ k = 1) as [->| ->] by lia; [reflexivity|discriminate H].
Qed.

Lemma reusable_store_refines_map_witness :
  exists out s', ls_step 0 (OpPut 30) sample_store = (Ok out, s') /\ out = OutKey 0 /\ rs_ok s'.
Proof.
  destruct (reusable_store_refines_map 0 sample_store (OpPut 30) sample_store_ok I)
    as (out & s' & Hr & Hok & _).
  exists out, s'. split; [exact Hr|]. split; [|exact Hok].
  assert (fst (ls_step 0 (OpPut 30) sample_store) = Ok (OutKey 0)) as H by reflexivity.
  rewrite Hr in H. now injection H.
Defined.

(** [replace] does not take the key out of the free list, so replacing a freed key makes
    the next put return that key although it is live again: the value just replaced is
    overwritten. (No caller of the repository replaces a local key.) *)
Theorem replace_freed_key_is_reissued (v1 v2 v3 : Z) :
  fst ((let* k1 := rs_put v1 in
        do* rs_erase 0 k1 in
        do* rs_replace 0 k1 v2 in
        let* k2 := rs_put v3 in
        let* x := rs_get k1 in
        retM (k1, k2, x)) rempty) = Ok (0, 0, v3).
Proof. reflexivity. Qed.

(** ** LocalKVStore of the build with [USE_LOCAL_STORE_CLEAR]: append only *)
Section Append.
Context {V : Type} (dflt : V).

Definition as_put (value : V) : M (list V) RID :=
  let* store := getM in
  let key := vsize store in
  do* putM (store ++ [value]) in
  retM key.

Definition as_get (key : RID) : M (list V) V :=
  let* store := getM in
  match vlookup store key with
  | Some v => retM v
  | None => failM Undefined
  end.

Definition as_replace (key : RID) (value : V) : M (list V) unit :=
  let* store := getM in
  let store1 := if vsize store <=? key then resize (Z.to_nat (key + 1)) dflt store else store in
  do* definedM (vin store1 key) in
  putM (vupdate store1 key value).

Definition as_clear : M (list V) unit := putM [].

Lemma as_put_get store v :
  exists store', as_put v store = (Ok (vsize store), store') /\
    as_get (vsize store) store' = (Ok v, store') /\
    forall k, k <> vsize store -> vlookup store' k = vlookup store k.
Proof.
  exists (store ++ [v]). split; [reflexivity|]. split.
  - unfold as_get, bindM, getM. now rewrite vlookup_app_new.
  - intros k Hk. now apply vlookup_app_old.
Qed.

End Append.

(** ** LocalKVStore of the build without [USE_LOCAL_STORE_CLEAR]: a ring *)
Section Ring.
Context {V : Type} (MAX_ARRAY_ELE_NUM : Z).

(** A C array of [MAX_ARRAY_ELE_NUM] elements and the next key. *)
Record ring : Type := mkRing {
  rg_cur : RID;
  rg_store : list V;
}.

Definition ring_put (value : V) : M ring RID :=
  let* s := getM in
  let key := rg_cur s in
  do* definedM (vin (rg_store s) key) in
  let cur := key + 1 in
  do* putM (mkRing (if MAX_ARRAY_ELE_NUM <=? cur then 0 else cur) (vupdate (rg_store s) key value)) in
  retM key.

Definition ring_get (key : RID) : M ring V :=
  let* s := getM in
  match vlookup (rg_store s) key with
  | Some v => retM v
  | None => failM Undefined
  end.

Definition ring_replace (key : RID) (value : V) : M ring unit :=
  let* s := getM in
  do* definedM (vin (rg_store s) key) in
  putM (mkRing (rg_cur s) (vupdate (rg_store s) key value)).

Definition ring_ok (s : ring) : Prop :=
  vsize (rg_store s) = MAX_ARRAY_ELE_NUM /\ 0 <= rg_cur s < MAX_ARRAY_ELE_NUM.

(** Put a list of values one after the other; the keys in order. *)
Definition ring_puts (vs : list V) : M ring (list RID) := forM vs ring_put.

Lemma ring_put_ok s v :
  ring_ok s ->
  ring_put v s =
    (Ok (rg_cur s), mkRing ((rg_cur s + 1) mod MAX_ARRAY_ELE_NUM) (vupdate (rg_store s) (rg_cur s) v)) /\
  ring_ok (mkRing ((rg_cur s + 1) mod MAX_ARRAY_ELE_NUM) (vupdate (rg_store s) (rg_cur s) v)).
Proof.
  intros [Hsz Hc]. unfold ring_put, bindM, getM, definedM.
  rewrite (proj2 (vin_spec (rg_store s) (rg_cur s))) by lia. split.
  - cbn. do 3 f_equal. destruct (Z.leb_spec MAX_ARRAY_ELE_NUM (rg_cur s + 1)).
    + replace (rg_cur s + 1) with MAX_ARRAY_ELE_NUM by lia. rewrite Z.mod_same by lia. reflexivity.
    + now rewrite Z.mod_small by lia.
  - split; cbn [rg_store rg_cur]; [now rewrite vsize_update|]. apply Z.mod_pos_bound. lia.
Qed.

(** The key [n] puts after the current one. *)
Lemma ring_puts_keep s vs k v :
  ring_ok s -> vlookup (rg_store s) k = Some v ->
  (forall j, 0 <= j < Z.of_nat (length vs) -> (rg_cur s + j) mod MAX_ARRAY_ELE_NUM <> k) ->
  exists ks s', ring_puts vs s = (Ok ks, s') /\ vlookup (rg_store s') k = Some v.
Proof.
  revert s. induction vs as [|x vs IH]; intros s Hok Hk Hne.
  - exists [], s. auto.
  - unfold ring_puts in *. cbn [forM]. destruct (ring_put_ok s x Hok) as [Hp Hok'].
    rewrite (bindM_run _ _ _ _ _ Hp). destruct Hok as [Hsz Hc].
    destruct (IH _ Hok') as (ks & s' & Hr & Hk').
    + cbn [rg_store]. rewrite vlookup_update_ne; [exact Hk|lia|].
      specialize (Hne 0). rewrite Z.add_0_r, Z.mod_small in Hne by lia.
      apply Hne. simpl. lia.
    + intros j Hj. cbn [rg_cur]. rewrite Z.add_mod_idemp_l by lia.
      replace (rg_cur s + 1 + j) with (rg_cur s + (j + 1)) by lia. apply Hne. simpl length. lia.
    + exists (rg_cur s :: ks), s'. now rewrite (bindM_run _ _ _ _ _ Hr).
Qed.

End Ring.
Arguments ring : clear implicits.

(** in the ring store a value is still readable under the key its put returned after
    any number of further puts below the capacity, so a query may hold fewer than
    [MAX_ARRAY_ELE_NUM] intermediate results at a time. *)
Theorem ring_value_survives {V : Type} (cap : Z) (s : ring V) (v : V) (vs : list V) :
  ring_ok cap s -> Z.of_nat (length vs) < cap ->
  exists k s1 ks s2, ring_put cap v s = (Ok k, s1) /\ ring_puts cap vs s1 = (Ok ks, s2) /\
    ring_get k s2 = (Ok v, s2).
Proof.
  intros Hok Hlen. destruct (ring_put_ok cap s v Hok) as [Hp Hok'].
  destruct Hok as [Hsz Hc].
  destruct (ring_puts_keep cap _ vs (rg_cur s) v Hok') as (ks & s2 & Hr & Hk).
  - cbn [rg_store]. apply vlookup_update_eq. lia.
  - intros j Hj. cbn [rg_cur]. rewrite Z.add_mod_idemp_l by lia. intros E.
    destruct (Z.lt_ge_cases (rg_cur s + 1 + j) cap) as [Hlt|Hge].
    + rewrite Z.mod_small in E by lia. lia.
    + replace (rg_cur s + 1 + j) with ((rg_cur s + 1 + j - cap) + 1 * cap) in E by lia.
      rewrite Z.mod_add, Z.mod_small in E by lia. lia.
  - exists (rg_cur s). eexists. exists ks, s2. split; [exact Hp|]. split; [exact Hr|].
    unfold ring_get, bindM, getM. now rewrite Hk.
Qed.

Lemma ring_value_survives_witness :
  exists k s1 ks s2, ring_put 3 7 (mkRing 2 [0; 0; 0]) = (Ok k, s1) /\
    ring_puts 3 [8; 9] s1 = (Ok ks, s2) /\ ring_get k s2 = (Ok 7, s2).
Proof.
  apply (ring_value_survives 3 (mkRing 2 [0; 0; 0]) 7 [8; 9]).
  - split; [reflexivity|cbn; lia].
  - reflexivity.
Defined.

(** ** LocalKVStoreOperator *)

(** Strings are the bytes before the terminating zero of a [const char *]; a [float] is its
    32-bit pattern. *)
Record LocalKVStoreOperator : Type := mkLocalKV {
  lk_int : rstore Z;
  lk_float : rstore Z;
  lk_timestamp : rstore Z;
  lk_text : rstore bytes;
}.

Definition local_empty : LocalKVStoreOperator := mkLocalKV rempty rempty rempty rempty.

Definition zint {A} (c : M (rstore Z) A) : M LocalKVStoreOperator A :=
  zoomM lk_int (fun x s => mkLocalKV x (lk_float s) (lk_timestamp s) (lk_text s)) c.
Definition zfloat {A} (c : M (rstore Z) A) : M LocalKVStoreOperator A :=
  zoomM lk_float (fun x s => mkLocalKV (lk_int s) x (lk_timestamp s) (lk_text s)) c.
Definition ztimestamp {A} (c : M (rstore Z) A) : M LocalKVStoreOperator A :=
  zoomM lk_timestamp (fun x s => mkLocalKV (lk_int s) (lk_float s) x (lk_text s)) c.
Definition ztext {A} (c : M (rstore bytes) A) : M LocalKVStoreOperator A :=
  zoomM lk_text (fun x s => mkLocalKV (lk_int s) (lk_float s) (lk_timestamp s) x) c.

Definition local_putInt (value : Z) : M LocalKVStoreOperator RID := zint (rs_put value).
Definition local_getInt (key : RID) : M LocalKVStoreOperator Z := zint (rs_get key).
Definition local_putFloat (value : Z) : M LocalKVStoreOperator RID := zfloat (rs_put value).
Definition local_getFloat (key : RID) : M LocalKVStoreOperator Z := zfloat (rs_get key).
Definition local_putTimestamp (value : Z) : M LocalKVStoreOperator RID := ztimestamp (rs_put value).
Definition local_getTimestamp (key : RID) : M LocalKVStoreOperator Z := ztimestamp (rs_get key).
Definition local_putString (value : bytes) : M LocalKVStoreOperator RID := ztext (rs_put value).
Definition local_getString (key : RID) : M LocalKVStoreOperator bytes := ztext (rs_get key).

Definition local_replaceInt (key : RID) (value : Z) : M LocalKVStoreOperator unit :=
  zint (rs_replace 0 key value).
Definition local_replaceFloat (key : RID) (value : Z) : M LocalKVStoreOperator unit :=
  zfloat (rs_replace 0 key value).
Definition local_replaceTimestamp (key : RID) (value : Z) : M LocalKVStoreOperator unit :=
  ztimestamp (rs_replace 0 key value).
Definition local_replaceString (key : RID) (value : bytes) : M LocalKVStoreOperator unit :=
  ztext (rs_replace [] key value).

Definition local_eraseInt (key : RID) : M LocalKVStoreOperator unit := zint (rs_erase 0 key).
Definition local_eraseFloat (key : RID) : M LocalKVStoreOperator unit := zfloat (rs_erase 0 key).
Definition local_eraseTimestamp (key : RID) : M LocalKVStoreOperator unit :=
  ztimestamp (rs_erase 0 key).
Definition local_eraseString (key : RID) : M LocalKVStoreOperator unit := ztext (rs_erase [] key).

Definition local_clear : M LocalKVStoreOperator unit :=
  do* zint rs_clear in
  do* zfloat rs_clear in
  do* ztimestamp rs_clear in
  ztext rs_clear.

Definition local_ok (s : LocalKVStoreOperator) : Prop :=
  rs_ok (lk_int s) /\ rs_ok (lk_float s) /\ rs_ok (lk_timestamp s) /\ rs_ok (lk_text s).

Lemma local_empty_ok : local_ok local_empty.
Proof. repeat split; apply rs_ok_empty. Qed.

(** ** The operator as one store per value type *)

Inductive vtype : Type :=
| TInt
| TFloat
| TTimestamp
| TText.

#[export] Instance vtype_eq_dec : EqDecision vtype.
Proof. solve_decision. Defined.

(** The values of a type: 32-bit integers, float patterns and timestamps are [Z], strings
    are byte lists. *)
Definition vty (t : vtype) : Type :=
  match t with
  | TText => bytes
  | _ => Z
  end.

Definition lput (t : vtype) : vty t -> M LocalKVStoreOperator RID :=
  match t with
  | TInt => local_putInt
  | TFloat => local_putFloat
  | TTimestamp => local_putTimestamp
  | TText => local_putString
  end.
Definition lget (t : vtype) : RID -> M LocalKVStoreOperator (vty t) :=
  match t with
  | TInt => local_getInt
  | TFloat => local_getFloat
  | TTimestamp => local_getTimestamp
  | TText => local_getString
  end.
Definition lerase (t : vtype) : RID -> M LocalKVStoreOperator unit :=
  match t with
  | TInt => local_eraseInt
  | TFloat => local_eraseFloat
  | TTimestamp => local_eraseTimestamp
  | TText => local_eraseString
  end.

(** The live values of one type. *)
Definition lview (s : LocalKVStoreOperator) (t : vtype) : RID -> option (vty t) :=
  match t with
  | TInt => rs_view (lk_int s)
  | TFloat => rs_view (lk_float s)
  | TTimestamp => rs_view (lk_timestamp s)
  | TText => rs_view (lk_text s)
  end.

(** The number of slots of one type. *)
Definition lsize (s : LocalKVStoreOperator) (t : vtype) : Z :=
  match t with
  | TInt => vsize (rs_store (lk_int s))
  | TFloat => vsize (rs_store (lk_float s))
  | TTimestamp => vsize (rs_store (lk_timestamp s))
  | TText => vsize (rs_store (lk_text s))
  end.

Lemma rs_put_size {V} (s s' : rstore V) v k :
  rs_ok s -> rs_put v s = (Ok k, s') ->
  0 <= k <= vsize (rs_store s) /\ vsize (rs_store s) <= vsize (rs_store s') <= vsize (rs_store s) + 1.
Proof.
  intros Hok. unfold rs_put, bindM, getM. destruct (rs_free s) as [|key rest] eqn:Hf.
  - intros [= <- <-]. cbn [rs_store]. rewrite vsize_app1. unfold vsize. lia.
  - destruct (rs_put_reuse s key rest v Hok Hf) as [Hr _]. unfold definedM.
    destruct (vin _ _ && vin _ _); intros [= <- <-]. cbn [rs_store]. rewrite vsize_update. lia.
Qed.

Lemma rs_erase_size {V} (d : V) (s s' : rstore V) k :
  rs_erase d k s = (Ok tt, s') -> vsize (rs_store s') = vsize (rs_store s).
Proof.
  unfold rs_erase, bindM, getM. destruct (_ || _); [now intros [= <-]|].
  unfold definedM. destruct (vin _ _); intros [= <-]. cbn [rs_store]. apply vsize_update.
Qed.

(** Run the store an operation of the operator works on. *)
Ltac local_unfold :=
  unfold local_putInt, local_putFloat, local_putTimestamp, local_putString,
    local_getInt, local_getFloat, local_getTimestamp, local_getString,
    local_eraseInt, local_eraseFloat, local_eraseTimestamp, local_eraseString,
    zint, zfloat, ztimestamp, ztext, zoomM.
Ltac local_frame Hf :=
  split;
  [intros [] k' Hne; cbn [lview lk_int lk_float lk_timestamp lk_text]; try reflexivity;
   apply Hf; congruence
  |intros []; cbn [lsize lk_int lk_float lk_timestamp lk_text]; lia].

Lemma lput_spec (s : LocalKVStoreOperator) (t : vtype) (v : vty t) :
  local_ok s ->
  exists k s', lput t v s = (Ok k, s') /\ local_ok s' /\ 0 <= k <= lsize s t /\
    lview s t k = None /\ lview s' t k = Some v /\
    (forall t' k', (t', k') <> (t, k) -> lview s' t' k' = lview s t' k') /\
    (forall t', lsize s t' <= lsize s' t' <= lsize s t' + 1).
Proof.
  intros (H1 & H2 & H3 & H4).
  destruct t; cbn [lput lview lsize vty] in *; local_unfold;
    match goal with
    | H : rs_ok ?x |- context [rs_put v ?x] =>
        destruct (rs_put_spec x v H) as (k & y & Hr & Hok & _ & Hn & Hv & Hf);
        pose proof (rs_put_size _ _ _ _ H Hr) as [Hk Hs]
    end;
    rewrite Hr; exists k; eexists; (split; [reflexivity|]); (split; [unfold local_ok; auto|]);
    (split; [exact Hk|]); (split; [exact Hn|]); (split; [exact Hv|]); local_frame Hf.
Qed.

Lemma lget_spec (s : LocalKVStoreOperator) (t : vtype) (k : RID) (v : vty t) :
  local_ok s -> lview s t k = Some v -> lget t k s = (Ok v, s).
Proof.
  intros (H1 & H2 & H3 & H4) Hv. destruct s as [a b c d].
  destruct t; cbn [lget lview lk_int lk_float lk_timestamp lk_text] in *; local_unfold;
    cbn [lk_int lk_float lk_timestamp lk_text];
    rewrite (rs_get_spec _ k v) by assumption; reflexivity.
Qed.

Lemma lerase_spec (s : LocalKVStoreOperator) (t : vtype) (k : RID) :
  local_ok s -> 0 <= k ->
  exists s', lerase t k s = (Ok tt, s') /\ local_ok s' /\ lview s' t k = None /\
    (forall t' k', (t', k') <> (t, k) -> lview s' t' k' = lview s t' k') /\
    (forall t', lsize s' t' = lsize s t').
Proof.
  intros (H1 & H2 & H3 & H4) Hk.
  destruct t; cbn [lerase lview lsize vty] in *; local_unfold;
    match goal with
    | H : rs_ok ?x |- context [rs_erase ?d k ?x] =>
        destruct (rs_erase_spec d x k H Hk) as (y & Hr & Hok & Hn & Hf);
        pose proof (rs_erase_size _ _ _ _ Hr) as Hs
    end;
    rewrite Hr; eexists; (split; [reflexivity|]); (split; [unfold local_ok; auto|]);
    (split; [exact Hn|]); local_frame Hf.
Qed.
