(* ===== verification/FileMap.v ===== *)
(** The memory-mapped global value stores of
    src/privacy_zone/include/file-map-operator.hpp, in the default build
    ([USE_KVMAP_PARTITION], [USE_VARLEN_STRING]). *)
From S2P Require Import Prelude Rid.

Definition PAGE_SIZE : Z := 4096.
Definition KV_MMAP_SIZE : Z := 2 ^ 40.
Definition PAGE_ALIGN_DOWN (v : Z) : Z := Z.land v (u64 (Z.lnot (PAGE_SIZE - 1))).
Definition PAGE_ALIGN_UP (v : Z) : Z :=
  Z.land (u64 (v + (PAGE_SIZE - 1))) (u64 (Z.lnot (PAGE_SIZE - 1))).

(** ** Fixed-size values: FileMapKVStore<int>, <float>, <TIMESTAMP> *)
Section Fixed.
(** [sizeof(ValueType)]. *)
Context (sizeof : Z).

Definition MAX_ARRAY_ELE_NUM : Z := (KV_MMAP_SIZE - PAGE_SIZE) / sizeof.

(** The array in the mapped file; an element never written holds the zero bytes the new
    file is filled with. *)
Record fstore : Type := mkFstore {
  fs_cur : RID;
  fs_arr : gmap Z Z;
}.

Definition fs_new : fstore := mkFstore 0 ∅.

Definition fs_read (s : fstore) (key : RID) : Z := default 0 (fs_arr s !! key).

Definition fs_put (value : Z) : M fstore RID :=
  let* s := getM in
  let key := fs_cur s in
  do* putM (mkFstore (u64 (key + 1)) (fs_arr s)) in
  do* checkM (key <? MAX_ARRAY_ELE_NUM) in
  do* modifyM (fun s => mkFstore (fs_cur s) (<[key := value]> (fs_arr s))) in
  retM key.

Definition fs_get (key : RID) : M fstore Z :=
  do* checkM (key <? MAX_ARRAY_ELE_NUM) in
  let* s := getM in
  retM (fs_read s key).

Definition fs_replace (key : RID) (value : Z) : M fstore unit :=
  do* checkM (key <? MAX_ARRAY_ELE_NUM) in
  modifyM (fun s => mkFstore (fs_cur s) (<[key := value]> (fs_arr s))).

(** The range [flush_async] hands to [msync]: start address and length, or nothing when no
    key was ever allocated. [store] is the address of the array. *)
Definition fs_flush_async (store : Z) (s : fstore) : option (Z * Z) :=
  let used := u64 (fs_cur s * sizeof) in
  if used =? 0 then None
  else
    let aligned_start := PAGE_ALIGN_DOWN store in
    let aligned_end := PAGE_ALIGN_UP (u64 (store + used)) in
    Some (aligned_start, u64 (aligned_end - aligned_start)).

Lemma fs_put_run s v :
  0 <= fs_cur s < MAX_ARRAY_ELE_NUM -> MAX_ARRAY_ELE_NUM < 2 ^ 64 ->
  fs_put v s = (Ok (fs_cur s), mkFstore (fs_cur s + 1) (<[fs_cur s := v]> (fs_arr s))).
Proof.
  intros Hc Hm. unfold fs_put, bindM, getM, putM, modifyM, checkM.
  rewrite (proj2 (Z.ltb_lt _ _)) by lia. cbn. rewrite u64_small by (unfold in_u64; lia). reflexivity.
Qed.

Lemma fs_put_full s v :
  MAX_ARRAY_ELE_NUM <= fs_cur s ->
  fs_put v s = (Err Fatal, mkFstore (u64 (fs_cur s + 1)) (fs_arr s)).
Proof.
  intros Hc. unfold fs_put, bindM, getM, putM, checkM.
  rewrite (proj2 (Z.ltb_ge _ _)) by lia. reflexivity.
Qed.

Lemma fs_get_run s k :
  k < MAX_ARRAY_ELE_NUM -> fs_get k s = (Ok (fs_read s k), s).
Proof. intros Hk. unfold fs_get, bindM, checkM. now rewrite (proj2 (Z.ltb_lt _ _)) by lia. Qed.

Lemma fs_replace_run s k v :
  k < MAX_ARRAY_ELE_NUM ->
  fs_replace k v s = (Ok tt, mkFstore (fs_cur s) (<[k := v]> (fs_arr s))).
Proof. intros Hk. unfold fs_replace, bindM, checkM. now rewrite (proj2 (Z.ltb_lt _ _)) by lia. Qed.

Lemma fs_read_insert_eq c m k v : fs_read (mkFstore c (<[k := v]> m)) k = v.
Proof. unfold fs_read. cbn. now rewrite lookup_insert_eq. Qed.

Lemma fs_read_insert_ne c c' m k k' v :
  k <> k' -> fs_read (mkFstore c (<[k := v]> m)) k' = fs_read (mkFstore c' m) k'.
Proof. intros H. unfold fs_read. cbn. now rewrite lookup_insert_ne. Qed.

End Fixed.

(** ** Page alignment *)

Lemma page_align_down_eq v : in_u64 v -> PAGE_ALIGN_DOWN v = v - v mod PAGE_SIZE.
Proof.
  intros Hv. unfold PAGE_ALIGN_DOWN, PAGE_SIZE.
  assert (Hl : Z.land v (u64 (Z.lnot (4096 - 1))) = Z.ldiff v (Z.ones 12)).
  { apply Z.bits_inj'. intros n Hn. unfold u64. rewrite Z.land_spec, Z.ldiff_spec.
    destruct (Z.ltb_spec n 64).
    - rewrite Z.mod_pow2_bits_low, Z.lnot_spec by lia. reflexivity.
    - rewrite (testbit_above v 64 n) by (exact Hv || lia). reflexivity. }
  rewrite Hl, Z.ldiff_ones_r by lia. rewrite Z.shiftl_mul_pow2, Z.shiftr_div_pow2 by lia.
  change (2 ^ 12) with 4096. pose proof (Z.div_mod v 4096). lia.
Qed.

Lemma page_align_up_eq v :
  0 <= v -> v + 4095 < 2 ^ 64 -> PAGE_ALIGN_UP v = (v + 4095) - (v + 4095) mod PAGE_SIZE.
Proof.
  intros H1 H2. unfold PAGE_ALIGN_UP. change (PAGE_SIZE - 1) with 4095.
  rewrite u64_small by (unfold in_u64; lia). apply page_align_down_eq. unfold in_u64. lia.
Qed.

(** [flush_async] hands [msync] a page-aligned range that contains every byte of the
    allocated prefix of the array and less than a page on either side of it. *)
Theorem flush_async_covers (sizeof store : Z) (s : fstore) :
  0 < sizeof -> 0 <= store -> 0 < fs_cur s -> store + fs_cur s * sizeof + PAGE_SIZE <= 2 ^ 64 ->
  exists start len, fs_flush_async sizeof store s = Some (start, len) /\
    start mod PAGE_SIZE = 0 /\ len mod PAGE_SIZE = 0 /\
    start <= store < start + PAGE_SIZE /\
    store + fs_cur s * sizeof <= start + len < store + fs_cur s * sizeof + PAGE_SIZE.
Proof.
  intros Hs H0 Hc Hend. unfold PAGE_SIZE in Hend. unfold fs_flush_async.
  assert (Hu : u64 (fs_cur s * sizeof) = fs_cur s * sizeof) by (apply u64_small; unfold in_u64; nia).
  rewrite Hu. assert (0 < fs_cur s * sizeof) by nia.
  rewrite (proj2 (Z.eqb_neq _ _)) by lia.
  set (e := store + fs_cur s * sizeof) in *.
  assert (He : u64 e = e) by (apply u64_small; unfold in_u64; lia). rewrite He.
  rewrite page_align_down_eq by (unfold in_u64; lia).
  rewrite page_align_up_eq by lia. unfold PAGE_SIZE.
  pose proof (Z.div_mod store 4096). pose proof (Z.mod_pos_bound store 4096).
  pose proof (Z.div_mod (e + 4095) 4096). pose proof (Z.mod_pos_bound (e + 4095) 4096).
  eexists _, _. split; [reflexivity|]. rewrite u64_small by (unfold in_u64; lia).
  replace (store - store mod 4096) with (store / 4096 * 4096) by lia.
  replace (e + 4095 - (e + 4095) mod 4096) with ((e + 4095) / 4096 * 4096) by lia.
  rewrite <- Z.mul_sub_distr_r, !Z.mod_mul by lia. lia.
Qed.

Lemma flush_async_covers_witness :
  exists start len, fs_flush_async 8 5000 (mkFstore 10 ∅) = Some (start, len) /\
    start mod PAGE_SIZE = 0 /\ len mod PAGE_SIZE = 0 /\
    start <= 5000 < start + PAGE_SIZE /\
    5000 + 10 * 8 <= start + len < 5000 + 10 * 8 + PAGE_SIZE.
Proof. apply (flush_async_covers 8 5000 (mkFstore 10 ∅)); vm_compute; congruence. Defined.

(** ** C strings in a byte array *)

(** A byte never written is zero. *)
Definition byte_at (m : gmap Z Z) (p : Z) : Z := default 0 (m !! p).

Fixpoint write_bytes (m : gmap Z Z) (p : Z) (l : bytes) : gmap Z Z :=
  match l with
  | [] => m
  | b :: l' => write_bytes (<[p := b]> m) (p + 1) l'
  end.

(** The bytes from [p] up to the first zero byte. *)
Fixpoint read_cstr (fuel : nat) (m : gmap Z Z) (p : Z) : option bytes :=
  match fuel with
  | O => None
  | S fuel' =>
      let b := byte_at m p in
      if b =? 0 then Some []
      else match read_cstr fuel' m (p + 1) with
           | Some l => Some (b :: l)
           | None => None
           end
  end.

(** Only finitely many bytes were written, so a scan that takes one step more than that has
    met a zero byte ([cstr_at_total]). *)
Definition cstr_at (m : gmap Z Z) (p : Z) : option bytes := read_cstr (S (size m)) m p.
Arguments cstr_at : simpl never.

(** The contents of a [const char *]: bytes other than zero. *)

Lemma byte_at_insert_eq m p b : byte_at (<[p := b]> m) p = b.
Proof. unfold byte_at. now rewrite lookup_insert_eq. Qed.

Lemma byte_at_insert_ne m p q b : p <> q -> byte_at (<[p := b]> m) q = byte_at m q.
Proof. intros H. unfold byte_at. now rewrite lookup_insert_ne. Qed.

Lemma byte_at_write_out m p l q :
  q < p \/ p + Z.of_nat (length l) <= q -> byte_at (write_bytes m p l) q = byte_at m q.
Proof.
  revert m p. induction l as [|b l IH]; intros m p Hq; [reflexivity|].
  cbn [write_bytes length] in *. rewrite IH by lia. apply byte_at_insert_ne. lia.
Qed.

Lemma byte_at_write_in m p l i b :
  l !! i = Some b -> byte_at (write_bytes m p l) (p + Z.of_nat i) = b.
Proof.
  revert m p i. induction l as [|a l IH]; intros m p i Hi; [discriminate|].
  destruct i as [|i]; cbn [write_bytes].
  - injection Hi as ->. rewrite byte_at_write_out by lia.
    rewrite Z.add_0_r. apply byte_at_insert_eq.
  - replace (p + Z.of_nat (S i)) with ((p + 1) + Z.of_nat i) by lia. now apply IH.
Qed.

(** [l] and its terminator are stored at [p]. *)
Definition holds_cstr (m : gmap Z Z) (p : Z) (l : bytes) : Prop :=
  cstr l /\ (forall i b, l !! i = Some b -> byte_at m (p + Z.of_nat i) = b) /\
  byte_at m (p + Z.of_nat (length l)) = 0.

Lemma holds_cstr_tail m p b l : holds_cstr m p (b :: l) -> holds_cstr m (p + 1) l.
Proof.
  intros (Hc & Hb & Hz). split; [now inversion Hc|]. split.
  - intros i x Hi. rewrite <- (Hb (S i) x Hi). f_equal. lia.
  - rewrite <- Hz. f_equal. simpl length. lia.
Qed.

Lemma read_cstr_holds m l fuel p :
  holds_cstr m p l -> (length l < fuel)%nat -> read_cstr fuel m p = Some l.
Proof.
  revert fuel p. induction l as [|b l IH]; intros fuel p H Hf; destruct fuel as [|fuel];
    simpl length in Hf; try lia; cbn [read_cstr].
  - destruct H as (_ & _ & Hz). rewrite Z.add_0_r in Hz. now rewrite Hz.
  - pose proof (holds_cstr_tail _ _ _ _ H) as Ht. destruct H as (Hc & Hb & _).
    specialize (Hb 0%nat b eq_refl). rewrite Z.add_0_r in Hb. rewrite Hb.
    inversion Hc as [|? ? Hnz _]; subst. rewrite (proj2 (Z.eqb_neq _ _)) by lia.
    rewrite (IH fuel (p + 1) Ht) by lia. reflexivity.
Qed.

(** Bytes other than zero were written. *)
Lemma byte_at_nonzero m p : byte_at m p <> 0 -> p ∈ dom m.
Proof.
  unfold byte_at. intros H. apply elem_of_dom. destruct (m !! p); [eauto|]. now simpl in H.
Qed.

(** A run of [n] non-zero bytes needs [n] entries of the map. *)
Lemma nonzero_run_size m p n :
  (forall i, (i < n)%nat -> byte_at m (p + Z.of_nat i) <> 0) -> (n <= size m)%nat.
Proof.
  intros H. set (ks := list_to_set ((fun i => p + Z.of_nat i) <$> seq 0 n) : gset Z).
  assert (Hsub : ks ⊆ dom m).
  { intros k Hk. unfold ks in Hk. rewrite elem_of_list_to_set, list_elem_of_fmap in Hk.
    destruct Hk as (i & -> & Hi). apply elem_of_seq in Hi. apply byte_at_nonzero, H. lia. }
  apply subseteq_size in Hsub. rewrite size_dom in Hsub. unfold ks in Hsub.
  rewrite size_list_to_set, length_fmap, length_seq in Hsub; [exact Hsub|].
  apply NoDup_fmap_2; [intros a b; lia|apply NoDup_seq].
Qed.

Lemma read_cstr_short m p fuel :
  read_cstr fuel m p = None -> forall i, (i < fuel)%nat -> byte_at m (p + Z.of_nat i) <> 0.
Proof.
  revert p. induction fuel as [|fuel IH]; intros p H i Hi; [lia|]. cbn [read_cstr] in H.
  destruct (Z.eqb_spec (byte_at m p) 0) as [|Hne]; [discriminate|].
  destruct (read_cstr fuel m (p + 1)) eqn:E; [discriminate|]. destruct i as [|i].
  - now rewrite Z.add_0_r.
  - replace (p + Z.of_nat (S i)) with (p + 1 + Z.of_nat i) by lia. apply (IH (p + 1) E). lia.
Qed.

Lemma cstr_at_total m p : is_Some (cstr_at m p).
Proof.
  unfold cstr_at. destruct (read_cstr (S (size m)) m p) eqn:E; [eauto|].
  pose proof (nonzero_run_size m p (S (size m)) (read_cstr_short m p _ E)). lia.
Qed.

Lemma cstr_at_holds m p l : holds_cstr m p l -> cstr_at m p = Some l.
Proof.
  intros H. apply read_cstr_holds; [exact H|]. apply Nat.lt_succ_r.
  apply (nonzero_run_size m p). intros i Hi. destruct H as (Hc & Hb & _).
  destruct (lookup_lt_is_Some_2 l i Hi) as [b Hl]. rewrite (Hb i b Hl).
  eapply Forall_lookup_1 in Hc; [|exact Hl]. cbn in Hc. lia.
Qed.

Lemma holds_cstr_written m p l : cstr l -> holds_cstr (write_bytes m p (l ++ [0])) p l.
Proof.
  intros Hc. split; [exact Hc|]. split.
  - intros i b Hi. apply byte_at_write_in. rewrite lookup_app_l; [exact Hi|].
    apply lookup_lt_Some in Hi. lia.
  - apply byte_at_write_in. rewrite lookup_app_r, Nat.sub_diag by lia. reflexivity.
Qed.

Lemma holds_cstr_frame m p q l w :
  holds_cstr m p l -> p + Z.of_nat (length l) < q -> holds_cstr (write_bytes m q w) p l.
Proof.
  intros (Hc & Hb & Hz) Hq. split; [exact Hc|]. split.
  - intros i b Hi. rewrite byte_at_write_out; [now apply Hb|].
    apply lookup_lt_Some in Hi. lia.
  - rewrite byte_at_write_out; [exact Hz|lia].
Qed.

(** ** FileMapKVStore<char *> with variable-length strings *)

Definition TEXT_MAX_ARRAY_ELE_NUM : Z := 512 * 1024 * 1024.
Definition OFFSET_ARRAY_BYTES : Z := TEXT_MAX_ARRAY_ELE_NUM * 8.
Definition STORE_SIZE : Z := (KV_MMAP_SIZE - PAGE_SIZE) - OFFSET_ARRAY_BYTES.

Record tstore : Type := mkTstore {
  ts_cur : RID;
  ts_end : Z;
  ts_offsets : gmap Z Z;
  ts_bytes : gmap Z Z;
}.

Definition ts_new : tstore := mkTstore 0 0 ∅ ∅.

Definition ts_offset (s : tstore) (key : RID) : Z := default 0 (ts_offsets s !! key).

(** The part [put] and [replace] share: reserve space, record the offset, copy the string
    and its terminator. *)
Definition ts_write (key : RID) (value : bytes) : M tstore unit :=
  let len := Z.of_nat (length value) in
  let write_len := len + 1 in
  let* s := getM in
  let write_pos := ts_end s in
  do* putM (mkTstore (ts_cur s) (u64 (write_pos + write_len)) (ts_offsets s) (ts_bytes s)) in
  do* checkM (u64 (write_pos + write_len) <=? STORE_SIZE) in
  modifyM (fun s => mkTstore (ts_cur s) (ts_end s) (<[key := write_pos]> (ts_offsets s))
                             (write_bytes (ts_bytes s) write_pos (value ++ [0]))).

Definition ts_put (value : bytes) : M tstore RID :=
  let* s := getM in
  let key := ts_cur s in
  do* putM (mkTstore (u64 (key + 1)) (ts_end s) (ts_offsets s) (ts_bytes s)) in
  do* checkM (key <? TEXT_MAX_ARRAY_ELE_NUM) in
  do* ts_write key value in
  retM key.

Definition ts_get (key : RID) : M tstore bytes :=
  do* checkM (key <? TEXT_MAX_ARRAY_ELE_NUM) in
  let* s := getM in
  match cstr_at (ts_bytes s) (ts_offset s key) with
  | Some l => retM l
  | None => failM Undefined
  end.

Definition ts_replace (key : RID) (value : bytes) : M tstore unit :=
  do* checkM (key <? TEXT_MAX_ARRAY_ELE_NUM) in
  ts_write key value.

(** The range of [flush_async]: from the offset array to the end of the used bytes. *)
Definition ts_flush_async (offsets store : Z) (s : tstore) : option (Z * Z) :=
  let store_used := ts_end s in
  if store_used =? 0 then None
  else
    let aligned_start := PAGE_ALIGN_DOWN offsets in
    let aligned_end := PAGE_ALIGN_UP (u64 (store + store_used)) in
    Some (aligned_start, u64 (aligned_end - aligned_start)).

(** Every recorded offset points to a terminated string below the end of the used bytes. *)
Definition ts_ok (s : tstore) : Prop :=
  0 <= ts_end s /\ 0 <= ts_cur s /\
  forall key off, ts_offsets s !! key = Some off ->
    exists l, holds_cstr (ts_bytes s) off l /\ off + Z.of_nat (length l) < ts_end s.

(** What a key that was written reads back. *)
Definition ts_view (s : tstore) (key : RID) : option bytes :=
  match ts_offsets s !! key with
  | Some off => cstr_at (ts_bytes s) off
  | None => None
  end.

Lemma ts_ok_new : ts_ok ts_new.
Proof. repeat split; cbn; try lia. intros key off H. now rewrite lookup_empty in H. Qed.

Lemma ts_write_run s key value :
  ts_ok s -> ts_end s + Z.of_nat (length value) + 1 <= STORE_SIZE ->
  ts_write key value s =
    (Ok tt, mkTstore (ts_cur s) (ts_end s + (Z.of_nat (length value) + 1))
              (<[key := ts_end s]> (ts_offsets s))
              (write_bytes (ts_bytes s) (ts_end s) (value ++ [0]))).
Proof.
  intros (He & _ & _) Hfit. assert (STORE_SIZE < 2 ^ 64) by reflexivity.
  unfold ts_write, bindM, getM, putM, modifyM, checkM.
  rewrite u64_small by (unfold in_u64; lia).
  rewrite (proj2 (Z.leb_le _ _)) by lia. reflexivity.
Qed.

(** Writing a key keeps every other string and makes the key read the new one. *)
Lemma ts_write_spec s key value :
  ts_ok s -> cstr value -> ts_end s + Z.of_nat (length value) + 1 <= STORE_SIZE ->
  exists s', ts_write key value s = (Ok tt, s') /\ ts_ok s' /\ ts_cur s' = ts_cur s /\
    ts_view s' key = Some value /\ forall k, k <> key -> ts_view s' k = ts_view s k.
Proof.
  intros Hok Hc Hfit. eexists. split; [now apply ts_write_run|].
  destruct Hok as (He & Hcur & Hstr). split; [|split; [reflexivity|split]].
  - split; [cbn; lia|]. split; [exact Hcur|]. cbn. intros k off Hk.
    destruct (decide (key = k)) as [->|Hne].
    + rewrite lookup_insert_eq in Hk. injection Hk as <-. exists value.
      split; [now apply holds_cstr_written|lia].
    + rewrite lookup_insert_ne in Hk by exact Hne.
      destruct (Hstr k off Hk) as (l & Hl & Hlt). exists l.
      split; [now apply holds_cstr_frame|lia].
  - unfold ts_view. cbn. rewrite lookup_insert_eq. apply cstr_at_holds.
    now apply holds_cstr_written.
  - intros k Hne. unfold ts_view. cbn. rewrite lookup_insert_ne by congruence.
    destruct (ts_offsets s !! k) as [off|] eqn:Hk; [|reflexivity].
    destruct (Hstr k off Hk) as (l & Hl & Hlt). rewrite (cstr_at_holds _ _ _ Hl).
    apply cstr_at_holds. now apply holds_cstr_frame.
Qed.

Lemma ts_get_view s key l :
  key < TEXT_MAX_ARRAY_ELE_NUM -> ts_view s key = Some l -> ts_get key s = (Ok l, s).
Proof.
  intros Hk Hv. unfold ts_view in Hv.
  destruct (ts_offsets s !! key) as [off|] eqn:E; [|discriminate Hv].
  unfold ts_get, ts_offset, bindM, checkM, getM, retM.
  rewrite (proj2 (Z.ltb_lt _ _)) by lia. rewrite E. simpl (default _ _). now rewrite Hv.
Qed.

Lemma ts_put_spec s value :
  ts_ok s -> cstr value -> ts_cur s < TEXT_MAX_ARRAY_ELE_NUM ->
  ts_end s + Z.of_nat (length value) + 1 <= STORE_SIZE ->
  exists s', ts_put value s = (Ok (ts_cur s), s') /\ ts_ok s' /\ ts_cur s' = ts_cur s + 1 /\
    ts_end s' = ts_end s + (Z.of_nat (length value) + 1) /\
    ts_view s' (ts_cur s) = Some value /\ forall k, k <> ts_cur s -> ts_view s' k = ts_view s k.
Proof.
  intros (He & H0 & Hstr) Hc Hcur Hfit.
  set (s1 := mkTstore (ts_cur s + 1) (ts_end s) (ts_offsets s) (ts_bytes s)).
  assert (Hok1 : ts_ok s1) by (split; [exact He|split; [cbn; lia|exact Hstr]]).
  destruct (ts_write_spec s1 (ts_cur s) value Hok1 Hc Hfit) as (s' & Hw & Hok' & Hcur' & Hv & Hf).
  assert (Hend : ts_end s' = ts_end s + (Z.of_nat (length value) + 1)).
  { rewrite ts_write_run in Hw by assumption. now injection Hw as <-. }
  exists s'. split; [|auto]. assert (TEXT_MAX_ARRAY_ELE_NUM < 2 ^ 64) by reflexivity.
  unfold ts_put, bindM, getM, putM, checkM. rewrite u64_small by (unfold in_u64; lia).
  rewrite (proj2 (Z.ltb_lt _ _)) by lia. unfold retM at 1. fold s1. now rewrite Hw.
Qed.

(** C25: the text store is faithful while it has room: [put] returns the next key, a following
    [get] of that key returns exactly the stored string, and no other key changes what it
    reads. *)
Theorem text_put_get (s : tstore) (value : bytes) :
  ts_ok s -> cstr value -> ts_cur s < TEXT_MAX_ARRAY_ELE_NUM ->
  ts_end s + Z.of_nat (length value) + 1 <= STORE_SIZE ->
  exists s', ts_put value s = (Ok (ts_cur s), s') /\ ts_ok s' /\ ts_cur s' = ts_cur s + 1 /\
    ts_get (ts_cur s) s' = (Ok value, s') /\
    forall k, k <> ts_cur s -> ts_view s' k = ts_view s k.
Proof.
  intros Hok Hc Hcur Hfit.
  destruct (ts_put_spec s value Hok Hc Hcur Hfit) as (s' & Hp & Hok' & Hcur' & _ & Hv & Hf).
  exists s'. repeat split; auto using ts_get_view; apply Hok'.
Qed.

(** "hi" into an empty store. *)
Lemma text_put_get_witness :
  exists s', ts_put [104; 105] ts_new = (Ok 0, s') /\ ts_ok s' /\ ts_cur s' = 1 /\
    ts_get 0 s' = (Ok [104; 105], s') /\ forall k, k <> 0 -> ts_view s' k = ts_view ts_new k.
Proof.
  apply (text_put_get ts_new [104; 105] ts_ok_new).
  - repeat constructor; lia.
  - vm_compute. congruence.
  - vm_compute. congruence.
Defined.

(** What the store looks like after the first put. *)
Lemma ts_put_first value :
  1 + Z.of_nat (length value) <= STORE_SIZE ->
  ts_put value ts_new =
    (Ok 0, mkTstore 1 (Z.of_nat (length value) + 1) {[0 := 0]} (write_bytes ∅ 0 (value ++ [0]))).
Proof.
  intros Hfit. assert (Hok : ts_ok (mkTstore 1 0 ∅ ∅)).
  { repeat split; cbn; try lia. intros key off H. now rewrite lookup_empty in H. }
  pose proof (ts_write_run _ 0 value Hok) as Hw. cbn [ts_end ts_cur ts_offsets ts_bytes] in Hw.
  unfold ts_put, bindM, getM, putM, checkM. cbn [ts_cur ts_new ts_end ts_offsets ts_bytes].
  change (0 <? TEXT_MAX_ARRAY_ELE_NUM) with true. change (u64 (0 + 1)) with 1.
  unfold retM at 1. rewrite Hw by lia. reflexivity.
Qed.

(** a key that was never written has offset 0 and therefore reads the string stored
    first, whichever key that string belongs to. *)
Theorem text_unwritten_key_reads_first_string (value : bytes) (key : RID) :
  cstr value -> 0 < key < TEXT_MAX_ARRAY_ELE_NUM ->
  1 + Z.of_nat (length value) <= STORE_SIZE ->
  exists s', ts_put value ts_new = (Ok 0, s') /\ ts_get key s' = (Ok value, s').
Proof.
  intros Hc Hk Hfit. eexists. split; [now apply ts_put_first|].
  unfold ts_get, ts_offset, bindM, checkM, getM, retM.
  rewrite (proj2 (Z.ltb_lt _ _)) by lia. cbn [ts_offsets ts_bytes].
  rewrite lookup_singleton_ne by lia. simpl (default _ _).
  now rewrite (cstr_at_holds _ _ value) by now apply holds_cstr_written.
Qed.

Lemma text_unwritten_key_reads_first_string_witness :
  exists s', ts_put [115] ts_new = (Ok 0, s') /\ ts_get 77 s' = (Ok [115], s').
Proof.
  apply (text_unwritten_key_reads_first_string [115] 77).
  - repeat constructor; lia.
  - split; reflexivity.
  - vm_compute. congruence.
Defined.

(** ** FileMapKVStoreOperator with partitions *)

(** The four stores of one partition. *)
Record pstores : Type := mkP {
  p_int : fstore;
  p_float : fstore;
  p_timestamp : fstore;
  p_text : tstore;
}.

Definition p_new : pstores := mkP fs_new fs_new fs_new ts_new.

(** The mapped files by partition (they persist), and the partitions this process has
    opened ([int_stores.find] and its siblings, which are filled together). *)
Record FileMapKV : Type := mkFK {
  fk_files : gmap Z pstores;
  fk_open : gset Z;
}.

Definition kv_empty : FileMapKV := mkFK ∅ ∅.

(** The three value types of fixed size. *)
Inductive ftype : Type :=
| FInt
| FFloat
| FTimestamp.

#[export] Instance ftype_eq_dec : EqDecision ftype.
Proof. solve_decision. Defined.

Definition fsizeof (t : ftype) : Z :=
  match t with
  | FInt => 4
  | FFloat => 4
  | FTimestamp => 8
  end.

Definition p_get (t : ftype) (ps : pstores) : fstore :=
  match t with
  | FInt => p_int ps
  | FFloat => p_float ps
  | FTimestamp => p_timestamp ps
  end.

Definition p_set (t : ftype) (x : fstore) (ps : pstores) : pstores :=
  match t with
  | FInt => mkP x (p_float ps) (p_timestamp ps) (p_text ps)
  | FFloat => mkP (p_int ps) x (p_timestamp ps) (p_text ps)
  | FTimestamp => mkP (p_int ps) (p_float ps) x (p_text ps)
  end.

Definition p_set_text (x : tstore) (ps : pstores) : pstores :=
  mkP (p_int ps) (p_float ps) (p_timestamp ps) x.

(** [init_partition]: refuse the local partition, return if the partition is open, else map
    its four files, creating them when they do not exist ([open_or_create],
    [find_or_construct]). *)
Definition init_partition (partition : RID) : M FileMapKV unit :=
  do* checkM (negb (partition =? RID_LOCAL_PARTITION)) in
  let* s := getM in
  if decide (partition ∈ fk_open s) then retM tt
  else putM (mkFK (match fk_files s !! partition with
                   | Some _ => fk_files s
                   | None => <[partition := p_new]> (fk_files s)
                   end) ({[partition]} ∪ fk_open s)).

(** Run [c] on the stores of an opened partition. *)
Definition on_partition {A : Type} (partition : RID) (c : M pstores A) : M FileMapKV A :=
  do* init_partition partition in
  fun s => match fk_files s !! partition with
           | Some ps => let '(r, ps') := c ps in (r, mkFK (<[partition := ps']> (fk_files s)) (fk_open s))
           | None => (Err Undefined, s)
           end.

Definition kv_put (t : ftype) (value : Z) (partition : RID) : M FileMapKV RID :=
  let* key := on_partition partition (zoomM (p_get t) (p_set t) (fs_put (fsizeof t) value)) in
  do* checkM (key <=? RID_MASK) in
  retM (make_partitioned_rid partition key).

Definition kv_get (t : ftype) (key : RID) : M FileMapKV Z :=
  on_partition (rid_partition key)
    (zoomM (p_get t) (p_set t) (fs_get (fsizeof t) (rid_index key))).

Definition kv_replace (t : ftype) (key : RID) (value : Z) : M FileMapKV RID :=
  do* on_partition (rid_partition key)
        (zoomM (p_get t) (p_set t) (fs_replace (fsizeof t) (rid_index key) value)) in
  retM key.

Definition kv_putInt (value : Z) (partition : RID) : M FileMapKV RID := kv_put FInt value partition.
Definition kv_getInt (key : RID) : M FileMapKV Z := kv_get FInt key.
Definition kv_replaceInt (key : RID) (value : Z) : M FileMapKV RID := kv_replace FInt key value.
Definition kv_putFloat (value : Z) (partition : RID) : M FileMapKV RID := kv_put FFloat value partition.
Definition kv_getFloat (key : RID) : M FileMapKV Z := kv_get FFloat key.
Definition kv_replaceFloat (key : RID) (value : Z) : M FileMapKV RID := kv_replace FFloat key value.
Definition kv_putTimestamp (value : Z) (partition : RID) : M FileMapKV RID :=
  kv_put FTimestamp value partition.
Definition kv_getTimestamp (key : RID) : M FileMapKV Z := kv_get FTimestamp key.
Definition kv_replaceTimestamp (key : RID) (value : Z) : M FileMapKV RID :=
  kv_replace FTimestamp key value.

Definition kv_putString (value : bytes) (partition : RID) : M FileMapKV RID :=
  let* key := on_partition partition (zoomM p_text p_set_text (ts_put value)) in
  do* checkM (key <=? RID_MASK) in
  retM (make_partitioned_rid partition key).

Definition kv_getString (key : RID) : M FileMapKV bytes :=
  on_partition (rid_partition key) (zoomM p_text p_set_text (ts_get (rid_index key))).

Definition kv_replaceString (key : RID) (value : bytes) : M FileMapKV RID :=
  do* on_partition (rid_partition key)
        (zoomM p_text p_set_text (ts_replace (rid_index key) value)) in
  retM key.

(** ** Reading the whole map *)

(** The stores a partition has, or will have once it is opened. *)
Definition kv_part (s : FileMapKV) (partition : RID) : pstores :=
  default p_new (fk_files s !! partition).

(** The contents: what every RID reads. *)
Definition kv_fixed (s : FileMapKV) (t : ftype) (key : RID) : Z :=
  fs_read (p_get t (kv_part s (rid_partition key))) (rid_index key).
Definition kv_text (s : FileMapKV) (key : RID) : option bytes :=
  ts_view (p_text (kv_part s (rid_partition key))) (rid_index key).

Definition kv_ok (s : FileMapKV) : Prop :=
  (forall p, p ∈ fk_open s -> is_Some (fk_files s !! p)) /\
  forall p t, 0 <= fs_cur (p_get t (kv_part s p)) /\ ts_ok (p_text (kv_part s p)).

Definition global_partition (p : RID) : Prop := wf_partition p /\ p <> RID_LOCAL_PARTITION.

Lemma p_get_set_eq t x ps : p_get t (p_set t x ps) = x.
Proof. now destruct t. Qed.

Lemma p_get_set_ne t t' x ps : t <> t' -> p_get t' (p_set t x ps) = p_get t' ps.
Proof. destruct t, t'; congruence || reflexivity. Qed.

Lemma p_text_set t x ps : p_text (p_set t x ps) = p_text ps.
Proof. now destruct t. Qed.

Lemma p_get_set_text t x ps : p_get t (p_set_text x ps) = p_get t ps.
Proof. now destruct t. Qed.

Lemma p_set_get t ps : p_set t (p_get t ps) ps = ps.
Proof. now destruct t, ps. Qed.

Lemma kv_ok_empty : kv_ok kv_empty.
Proof.
  split; [set_solver|]. intros p t. unfold kv_part, kv_empty. cbn [fk_files].
  rewrite lookup_empty. simpl (default _ _). destruct t; (split; [cbn; lia|apply ts_ok_new]).
Qed.

(** The state after running on partition [p] with resulting stores [ps]. *)
Definition kv_with (s : FileMapKV) (p : RID) (ps : pstores) : FileMapKV :=
  mkFK (<[p := ps]> (fk_files s)) ({[p]} ∪ fk_open s).

Lemma kv_part_with s p ps q : kv_part (kv_with s p ps) q = if decide (q = p) then ps else kv_part s q.
Proof.
  unfold kv_part, kv_with. cbn [fk_files]. case_decide as E.
  - subst. now rewrite lookup_insert_eq.
  - now rewrite lookup_insert_ne by congruence.
Qed.

(** An open partition has its files. *)
Definition files_open (s : FileMapKV) : Prop := forall p, p ∈ fk_open s -> is_Some (fk_files s !! p).

Lemma on_partition_open_run {A} s p (c : M pstores A) :
  files_open s -> p <> RID_LOCAL_PARTITION ->
  on_partition p c s = (fst (c (kv_part s p)), kv_with s p (snd (c (kv_part s p)))).
Proof.
  intros Ho Hp. unfold on_partition, init_partition, bindM, checkM, getM, putM, kv_part, kv_with.
  rewrite (proj2 (Z.eqb_neq _ _) Hp). cbn [negb]. unfold retM. case_decide as E.
  - specialize (Ho p E) as [ps Hps]. rewrite Hps. simpl (default _ _). destruct (c ps) as [r ps'].
    cbn [fst snd]. do 2 f_equal. set_solver.
  - destruct (fk_files s !! p) as [ps|] eqn:Hps; cbn [fk_files fk_open].
    + rewrite Hps. simpl (default _ _). now destruct (c ps) as [r ps'].
    + rewrite lookup_insert_eq. simpl (default _ _). destruct (c p_new) as [r ps']. cbn [fst snd].
      now rewrite insert_insert_eq.
Qed.

Lemma on_partition_run {A} s p (c : M pstores A) :
  kv_ok s -> p <> RID_LOCAL_PARTITION ->
  on_partition p c s = (fst (c (kv_part s p)), kv_with s p (snd (c (kv_part s p)))).
Proof. intros [Ho _]. now apply on_partition_open_run. Qed.

(** every operation on a RID of the local partition is refused with a fatal error before
    any file is touched, so local values can never reach the persistent map by their RID. *)
Theorem local_rid_refused_by_global_store (s : FileMapKV) (key : RID) (t : ftype) (v : Z) (l : bytes) :
  islocal key = true ->
  kv_get t key s = (Err Fatal, s) /\ kv_replace t key v s = (Err Fatal, s) /\
  kv_getString key s = (Err Fatal, s) /\ kv_replaceString key l s = (Err Fatal, s) /\
  kv_put t v RID_LOCAL_PARTITION s = (Err Fatal, s).
Proof.
  intros Hl. apply Z.eqb_eq in Hl.
  assert (forall A (c : M pstores A), on_partition RID_LOCAL_PARTITION c s = (Err Fatal, s)) as H
    by reflexivity.
  unfold kv_get, kv_replace, kv_getString, kv_replaceString, kv_put, bindM. rewrite Hl, !H. auto.
Qed.

Lemma local_rid_refused_by_global_store_witness :
  kv_get FInt (idx2local 3) kv_empty = (Err Fatal, kv_empty).
Proof.
  apply (local_rid_refused_by_global_store kv_empty (idx2local 3) FInt 0 []). reflexivity.
Defined.

Lemma max_ele_bound t : 0 < MAX_ARRAY_ELE_NUM (fsizeof t) <= 2 ^ 48 - 1.
Proof. destruct t; vm_compute; split; congruence. Qed.

Lemma kv_ok_with_fixed s p t x :
  kv_ok s -> 0 <= fs_cur x -> kv_ok (kv_with s p (p_set t x (kv_part s p))).
Proof.
  intros [Ho Hc] Hx. split.
  - intros q Hq. unfold kv_with in *. cbn [fk_files fk_open] in *.
    destruct (decide (q = p)) as [->|Hne].
    + rewrite lookup_insert_eq. eauto.
    + rewrite lookup_insert_ne by congruence. apply Ho. set_solver.
  - intros q t'. rewrite kv_part_with. case_decide as E; [|apply Hc]. subst q.
    rewrite p_text_set. split; [|apply (Hc p t')].
    destruct (decide (t = t')) as [<-|Hne].
    + now rewrite p_get_set_eq.
    + rewrite p_get_set_ne by exact Hne. apply (Hc p t').
Qed.

Lemma kv_ok_with_text s p x : kv_ok s -> ts_ok x -> kv_ok (kv_with s p (p_set_text x (kv_part s p))).
Proof.
  intros [Ho Hc] Hx. split.
  - intros q Hq. unfold kv_with in *. cbn [fk_files fk_open] in *.
    destruct (decide (q = p)) as [->|Hne].
    + rewrite lookup_insert_eq. eauto.
    + rewrite lookup_insert_ne by congruence. apply Ho. set_solver.
  - intros q t'. rewrite kv_part_with. case_decide as E; [|apply Hc]. subst q.
    rewrite p_get_set_text. split; [apply (Hc p t')|exact Hx].
Qed.

(** What [put] leaves behind. *)
Definition kv_after_put (s : FileMapKV) (t : ftype) (v p : Z) : FileMapKV :=
  let x := p_get t (kv_part s p) in
  kv_with s p (p_set t (mkFstore (fs_cur x + 1) (<[fs_cur x := v]> (fs_arr x))) (kv_part s p)).

Lemma kv_put_run s t v p :
  kv_ok s -> global_partition p -> fs_cur (p_get t (kv_part s p)) < MAX_ARRAY_ELE_NUM (fsizeof t) ->
  kv_put t v p s =
    (Ok (make_partitioned_rid p (fs_cur (p_get t (kv_part s p)))), kv_after_put s t v p).
Proof.
  intros Hok [Hwf Hnl] Hcur. pose proof (max_ele_bound t) as Hm.
  destruct (proj2 Hok p t) as [H0 _]. unfold kv_put, bindM.
  rewrite on_partition_run by assumption. unfold zoomM. rewrite fs_put_run by lia. cbn [fst snd].
  rewrite checkM_true; [reflexivity|]. apply Z.leb_le. change RID_MASK with (2 ^ 48 - 1). lia.
Qed.

Lemma kv_get_run s t key :
  kv_ok s -> islocal key = false -> rid_index key < MAX_ARRAY_ELE_NUM (fsizeof t) ->
  kv_get t key s = (Ok (kv_fixed s t key), kv_with s (rid_partition key) (kv_part s (rid_partition key))).
Proof.
  intros Hok Hl Hi. unfold kv_get. apply Z.eqb_neq in Hl. rewrite on_partition_run by assumption.
  unfold zoomM. rewrite fs_get_run by exact Hi. cbn [fst snd]. now rewrite p_set_get.
Qed.

Lemma kv_putString_run s v p :
  kv_ok s -> global_partition p -> cstr v ->
  ts_cur (p_text (kv_part s p)) < TEXT_MAX_ARRAY_ELE_NUM ->
  ts_end (p_text (kv_part s p)) + Z.of_nat (length v) + 1 <= STORE_SIZE ->
  exists x, kv_putString v p s =
      (Ok (make_partitioned_rid p (ts_cur (p_text (kv_part s p)))),
       kv_with s p (p_set_text x (kv_part s p))) /\
    ts_ok x /\ ts_cur x = ts_cur (p_text (kv_part s p)) + 1 /\
    ts_end x = ts_end (p_text (kv_part s p)) + (Z.of_nat (length v) + 1) /\
    ts_view x (ts_cur (p_text (kv_part s p))) = Some v /\
    forall k, k <> ts_cur (p_text (kv_part s p)) -> ts_view x k = ts_view (p_text (kv_part s p)) k.
Proof.
  intros Hok [Hwf Hnl] Hc Hcur Hfit. destruct (proj2 Hok p FInt) as [_ Ht].
  destruct (ts_put_spec _ v Ht Hc Hcur Hfit) as (x & Hp & Hrest). exists x. split; [|exact Hrest].
  unfold kv_putString, bindM. rewrite on_partition_run by assumption. unfold zoomM. rewrite Hp.
  cbn [fst snd]. rewrite checkM_true; [reflexivity|].
  apply Z.leb_le. change RID_MASK with (2 ^ 48 - 1).
  change TEXT_MAX_ARRAY_ELE_NUM with 536870912 in Hcur. lia.
Qed.

Lemma kv_getString_run s key l :
  kv_ok s -> islocal key = false -> rid_index key < TEXT_MAX_ARRAY_ELE_NUM -> kv_text s key = Some l ->
  kv_getString key s = (Ok l, kv_with s (rid_partition key) (kv_part s (rid_partition key))).
Proof.
  intros Hok Hl Hi Hv. unfold kv_getString. apply Z.eqb_neq in Hl. rewrite on_partition_run by assumption.
  unfold zoomM. rewrite (ts_get_view _ _ l Hi Hv). cbn [fst snd].
  now destruct (kv_part s (rid_partition key)).
Qed.

(** C26: putting a value of a fixed-size type into a partition returns a global RID of that
    partition under which the value reads back, and no other RID of any type reads a
    different value than before. *)
Theorem kv_put_get (s : FileMapKV) (t : ftype) (v p : Z) :
  kv_ok s -> global_partition p -> fs_cur (p_get t (kv_part s p)) < MAX_ARRAY_ELE_NUM (fsizeof t) ->
  exists rid s' s'', kv_put t v p s = (Ok rid, s') /\ kv_ok s' /\
    rid_partition rid = p /\ islocal rid = false /\
    kv_get t rid s' = (Ok v, s'') /\
    (forall t' k, in_u64 k -> (t', k) <> (t, rid) -> kv_fixed s' t' k = kv_fixed s t' k) /\
    (forall k, kv_text s' k = kv_text s k).
Proof.
  intros Hok [Hwf Hnl] Hcur. pose proof (max_ele_bound t) as Hm.
  destruct (proj2 Hok p t) as [H0 _]. set (c := fs_cur (p_get t (kv_part s p))) in *.
  set (s' := kv_after_put s t v p).
  assert (Hok' : kv_ok s') by (apply kv_ok_with_fixed; [exact Hok|cbn; lia]).
  assert (Hidx : rid_index (make_partitioned_rid p c) = c)
    by (rewrite rid_index_make by exact Hwf; apply Z.mod_small; lia).
  assert (Hloc : islocal (make_partitioned_rid p c) = false)
    by (rewrite islocal_make by exact Hwf; now apply Z.eqb_neq).
  exists (make_partitioned_rid p c), s'. eexists. split; [|split; [exact Hok'|split; [|split; [exact Hloc|split]]]].
  - now apply kv_put_run.
  - now apply rid_partition_make.
  - rewrite kv_get_run by (assumption || lia). unfold kv_fixed, s', kv_after_put.
    rewrite rid_partition_make, Hidx, kv_part_with by exact Hwf. rewrite decide_True by reflexivity.
    fold c. rewrite p_get_set_eq, fs_read_insert_eq. reflexivity.
  - split.
    + intros t' k Hk Hne. unfold kv_fixed, s', kv_after_put. rewrite kv_part_with.
      case_decide as E; [|reflexivity].
      rewrite E. destruct (decide (t = t')) as [<-|Hne'].
      * rewrite p_get_set_eq. unfold fs_read. cbn [fs_arr]. rewrite lookup_insert_ne; [reflexivity|].
        intros Hc. apply Hne. f_equal. rewrite <- (make_rid_of_parts k Hk). unfold c. congruence.
      * now rewrite p_get_set_ne by exact Hne'.
    + intros k. unfold kv_text, s', kv_after_put. rewrite kv_part_with. case_decide as E; [|reflexivity].
      now rewrite E, p_text_set.
Qed.

Lemma kv_put_get_witness :
  exists rid s' s'', kv_put FInt 42 7 kv_empty = (Ok rid, s') /\ kv_ok s' /\
    rid_partition rid = 7 /\ islocal rid = false /\ kv_get FInt rid s' = (Ok 42, s'') /\
    (forall t' k, in_u64 k -> (t', k) <> (FInt, rid) -> kv_fixed s' t' k = kv_fixed kv_empty t' k) /\
    (forall k, kv_text s' k = kv_text kv_empty k).
Proof.
  apply (kv_put_get kv_empty FInt 42 7 kv_ok_empty).
  - split; [split; reflexivity || easy|]. vm_compute. congruence.
  - reflexivity.
Defined.
