(* ===== verification/KV.v ===== *)
(** The dispatch between the local and the persistent stores:
    src/privacy_zone/include/kv.hpp. *)
From S2P Require Import Prelude Rid LocalStore FileMap.

(** [localkv_ops] and [kv_ops]. *)
Record store : Type := mkStore {
  st_local : LocalKVStoreOperator;
  st_kv : FileMapKV;
}.

Definition st_empty : store := mkStore local_empty kv_empty.

Definition localkv_ops {A : Type} (c : M LocalKVStoreOperator A) : M store A :=
  zoomM st_local (fun x s => mkStore x (st_kv s)) c.
Definition kv_ops {A : Type} (c : M FileMapKV A) : M store A :=
  zoomM st_kv (fun x s => mkStore (st_local s) x) c.

Definition putInt (key : RID) (value : Z) (local : bool) (partition : RID) : M store RID :=
  if local then let* idx := localkv_ops (local_putInt value) in retM (idx2local idx)
  else if negb (key =? INVALID_RID) then kv_ops (kv_replaceInt key value)
  else kv_ops (kv_putInt value partition).

Definition putFloat (key : RID) (value : Z) (local : bool) (partition : RID) : M store RID :=
  if local then let* idx := localkv_ops (local_putFloat value) in retM (idx2local idx)
  else if negb (key =? INVALID_RID) then kv_ops (kv_replaceFloat key value)
  else kv_ops (kv_putFloat value partition).

Definition putTimestamp (key : RID) (value : Z) (local : bool) (partition : RID) : M store RID :=
  if local then let* idx := localkv_ops (local_putTimestamp value) in retM (idx2local idx)
  else if negb (key =? INVALID_RID) then kv_ops (kv_replaceTimestamp key value)
  else kv_ops (kv_putTimestamp value partition).

Definition putText (key : RID) (value : bytes) (local : bool) (partition : RID) : M store RID :=
  if local then let* idx := localkv_ops (local_putString value) in retM (idx2local idx)
  else if negb (key =? INVALID_RID) then kv_ops (kv_replaceString key value)
  else kv_ops (kv_putString value partition).

Definition getInt (key : RID) : M store Z :=
  if islocal key then localkv_ops (local_getInt (local2idx key)) else kv_ops (kv_getInt key).

Definition getFloat (key : RID) : M store Z :=
  if islocal key then localkv_ops (local_getFloat (local2idx key)) else kv_ops (kv_getFloat key).

Definition getTimestamp (key : RID) : M store Z :=
  if islocal key then localkv_ops (local_getTimestamp (local2idx key))
  else kv_ops (kv_getTimestamp key).

Definition getText (key : RID) : M store bytes :=
  if islocal key then localkv_ops (local_getString (local2idx key)) else kv_ops (kv_getString key).

Definition freeLocalInt (key : RID) : M store unit :=
  if islocal key then localkv_ops (local_eraseInt (local2idx key)) else retM tt.

Definition freeLocalFloat (key : RID) : M store unit :=
  if islocal key then localkv_ops (local_eraseFloat (local2idx key)) else retM tt.

Definition freeLocalTimestamp (key : RID) : M store unit :=
  if islocal key then localkv_ops (local_eraseTimestamp (local2idx key)) else retM tt.

Definition freeLocalText (key : RID) : M store unit :=
  if islocal key then localkv_ops (local_eraseString (local2idx key)) else retM tt.

(** ** The stores as one map *)

Definition put (t : vtype) (key : RID) : vty t -> bool -> RID -> M store RID :=
  match t with
  | TInt => putInt key
  | TFloat => putFloat key
  | TTimestamp => putTimestamp key
  | TText => putText key
  end.

Definition get (t : vtype) : RID -> M store (vty t) :=
  match t with
  | TInt => getInt
  | TFloat => getFloat
  | TTimestamp => getTimestamp
  | TText => getText
  end.

Definition freeLocal (t : vtype) : RID -> M store unit :=
  match t with
  | TInt => freeLocalInt
  | TFloat => freeLocalFloat
  | TTimestamp => freeLocalTimestamp
  | TText => freeLocalText
  end.

(** What a fixed-size store has written under an index. *)
Definition fview (x : fstore) (cap : Z) (i : RID) : option Z :=
  if i <? cap then fs_arr x !! i else None.
Definition tview (x : tstore) (i : RID) : option bytes :=
  if i <? TEXT_MAX_ARRAY_ELE_NUM then ts_view x i else None.

Definition pview (ps : pstores) (t : vtype) : RID -> option (vty t) :=
  match t with
  | TInt => fview (p_int ps) (MAX_ARRAY_ELE_NUM 4)
  | TFloat => fview (p_float ps) (MAX_ARRAY_ELE_NUM 4)
  | TTimestamp => fview (p_timestamp ps) (MAX_ARRAY_ELE_NUM 8)
  | TText => tview (p_text ps)
  end.

(** The value a RID stands for: a live local value or a value written to its partition. *)
Definition view (s : store) (t : vtype) (key : RID) : option (vty t) :=
  if islocal key then lview (st_local s) t (local2idx key)
  else pview (kv_part (st_kv s) (rid_partition key)) t (rid_index key).

(** Keys are allocated in order: nothing is written at or above the counter. *)
Definition part_fresh (ps : pstores) : Prop :=
  (forall t k, fs_cur (p_get t ps) <= k -> fs_arr (p_get t ps) !! k = None) /\
  (forall k, ts_cur (p_text ps) <= k -> ts_view (p_text ps) k = None).

Definition store_ok (s : store) : Prop :=
  local_ok (st_local s) /\ kv_ok (st_kv s) /\ forall p, part_fresh (kv_part (st_kv s) p).

(** Two states that differ only in which partitions are open. *)
Definition st_equiv (s s' : store) : Prop :=
  st_local s' = st_local s /\ forall p, kv_part (st_kv s') p = kv_part (st_kv s) p.

#[export] Instance st_equiv_equivalence : Equivalence st_equiv.
Proof.
  split.
  - now split.
  - intros s s' [H1 H2]. split; [easy|]. intros p. now rewrite H2.
  - intros s s' s'' [H1 H2] [H3 H4]. split; [congruence|]. intros p. now rewrite H4.
Qed.

#[export] Instance view_proper t : Proper (st_equiv ==> eq ==> eq) (fun s k => view s t k).
Proof. intros s s' [Hl Hg] k _ <-. unfold view. now rewrite Hl, Hg. Qed.

Lemma view_equiv s s' t k : st_equiv s s' -> view s' t k = view s t k.
Proof. intros H. symmetry. now apply (view_proper t). Qed.

(** ** The persistent half by value type *)

Definition gput (t : vtype) : vty t -> RID -> M FileMapKV RID :=
  match t with
  | TInt => kv_putInt
  | TFloat => kv_putFloat
  | TTimestamp => kv_putTimestamp
  | TText => kv_putString
  end.
Definition gget (t : vtype) : RID -> M FileMapKV (vty t) :=
  match t with
  | TInt => kv_getInt
  | TFloat => kv_getFloat
  | TTimestamp => kv_getTimestamp
  | TText => kv_getString
  end.

Definition greplace (t : vtype) (key : RID) : vty t -> M FileMapKV RID :=
  match t with
  | TInt => kv_replaceInt key
  | TFloat => kv_replaceFloat key
  | TTimestamp => kv_replaceTimestamp key
  | TText => kv_replaceString key
  end.

(** Whether a partition has room for a value. *)
Definition proom (ps : pstores) (t : vtype) : vty t -> Prop :=
  match t with
  | TInt => fun _ => fs_cur (p_int ps) < MAX_ARRAY_ELE_NUM 4
  | TFloat => fun _ => fs_cur (p_float ps) < MAX_ARRAY_ELE_NUM 4
  | TTimestamp => fun _ => fs_cur (p_timestamp ps) < MAX_ARRAY_ELE_NUM 8
  | TText => fun v => cstr v /\ ts_cur (p_text ps) < TEXT_MAX_ARRAY_ELE_NUM /\
                      ts_end (p_text ps) + Z.of_nat (length v) + 1 <= STORE_SIZE
  end.

(** The bytes a value takes in the text store. *)
Definition text_size {t : vtype} : vty t -> Z :=
  match t with
  | TText => fun v => Z.of_nat (length v) + 1
  | _ => fun _ => 0
  end.

(** The index the next put of a type gets. *)
Definition pnext (ps : pstores) (t : vtype) : RID :=
  match t with
  | TInt => fs_cur (p_int ps)
  | TFloat => fs_cur (p_float ps)
  | TTimestamp => fs_cur (p_timestamp ps)
  | TText => ts_cur (p_text ps)
  end.

Lemma put_eq t key v local p :
  put t key v local p =
  if local then let* idx := localkv_ops (lput t v) in retM (idx2local idx)
  else if negb (key =? INVALID_RID) then kv_ops (greplace t key v) else kv_ops (gput t v p).
Proof. now destruct t. Qed.

Lemma get_eq t key :
  get t key = if islocal key then localkv_ops (lget t (local2idx key)) else kv_ops (gget t key).
Proof. now destruct t. Qed.

Lemma freeLocal_eq t key :
  freeLocal t key = if islocal key then localkv_ops (lerase t (local2idx key)) else retM tt.
Proof. now destruct t. Qed.

Lemma kv_part_self s p q : kv_part (kv_with s p (kv_part s p)) q = kv_part s q.
Proof. rewrite kv_part_with. case_decide; congruence. Qed.

Lemma kv_ok_self s p : kv_ok s -> kv_ok (kv_with s p (kv_part s p)).
Proof.
  intros Hok. rewrite <- (p_set_get FInt (kv_part s p)). apply kv_ok_with_fixed; [exact Hok|].
  apply (proj2 Hok p FInt).
Qed.

Lemma gget_spec s t key v :
  kv_ok s -> islocal key = false -> pview (kv_part s (rid_partition key)) t (rid_index key) = Some v ->
  gget t key s = (Ok v, kv_with s (rid_partition key) (kv_part s (rid_partition key))).
Proof.
  intros Hok Hl Hv.
  destruct t; cbn [gget pview] in *; unfold kv_getInt, kv_getFloat, kv_getTimestamp;
    unfold fview, tview in Hv;
    match type of Hv with (if ?i <? ?c then _ else _) = _ => destruct (Z.ltb_spec i c) as [Hi|] end;
    try discriminate Hv; try now apply kv_getString_run.
  all: rewrite kv_get_run by assumption; unfold kv_fixed, fs_read; cbn [p_get]; now rewrite Hv.
Qed.

(** The same put on the stores of fixed-size values. *)
Lemma fput_spec s t v p :
  let x := p_get t (kv_part s p) in
  let x' := mkFstore (fs_cur x + 1) (<[fs_cur x := v]> (fs_arr x)) in
  let cap := MAX_ARRAY_ELE_NUM (fsizeof t) in
  kv_ok s -> part_fresh (kv_part s p) -> global_partition p -> fs_cur x < cap ->
  kv_put t v p s = (Ok (make_partitioned_rid p (fs_cur x)), kv_with s p (p_set t x' (kv_part s p))) /\
  kv_ok (kv_with s p (p_set t x' (kv_part s p))) /\ part_fresh (p_set t x' (kv_part s p)) /\
  0 <= fs_cur x < 2 ^ 48 - 1 /\
  fview x cap (fs_cur x) = None /\ fview x' cap (fs_cur x) = Some v /\
  forall i, i <> fs_cur x -> fview x' cap i = fview x cap i.
Proof.
  intros x x' cap Hok [Hf Ht] Hp Hroom. pose proof (max_ele_bound t) as Hm. fold cap in Hm.
  destruct (proj2 Hok p t) as [H0 _]. fold x in H0. unfold fview.
  assert (H1 : fs_cur x <? cap = true) by (apply Z.ltb_lt; lia).
  split; [now apply kv_put_run|]. split; [apply kv_ok_with_fixed; [exact Hok|cbn; lia]|].
  split; [split|].
  - intros t' k. destruct (decide (t = t')) as [<-|Hne].
    + rewrite p_get_set_eq. cbn. intros Hk. rewrite lookup_insert_ne by lia. apply Hf. fold x. lia.
    + rewrite p_get_set_ne by exact Hne. apply Hf.
  - intros k. rewrite p_text_set. apply Ht.
  - rewrite H1. split; [lia|]. split; [apply Hf; fold x; lia|]. split; [apply lookup_insert_eq|].
    intros i Hi. cbn [fs_arr x']. now rewrite lookup_insert_ne by congruence.
Qed.

(** A put into a partition with room: the next key, whose value is new; the rest is kept. *)
Lemma gput_spec s t v p :
  kv_ok s -> part_fresh (kv_part s p) -> global_partition p -> proom (kv_part s p) t v ->
  exists ps, gput t v p s = (Ok (make_partitioned_rid p (pnext (kv_part s p) t)), kv_with s p ps) /\
    kv_ok (kv_with s p ps) /\ part_fresh ps /\ 0 <= pnext (kv_part s p) t < 2 ^ 48 - 1 /\
    pview (kv_part s p) t (pnext (kv_part s p) t) = None /\
    pview ps t (pnext (kv_part s p) t) = Some v /\
    (forall t' i, (t', i) <> (t, pnext (kv_part s p) t) -> pview ps t' i = pview (kv_part s p) t' i) /\
    (forall t', pnext ps t' <= pnext (kv_part s p) t' + 1) /\
    ts_end (p_text ps) <= ts_end (p_text (kv_part s p)) + text_size v.
Proof.
  intros Hok Hfr Hp Hroom.
  destruct t; cbn [gput proom pnext pview] in *.
  1: destruct (fput_spec s FInt v p Hok Hfr Hp Hroom) as (Hr & Hok' & Hfr' & Hb & Hn & Hv & Hrest).
  2: destruct (fput_spec s FFloat v p Hok Hfr Hp Hroom) as (Hr & Hok' & Hfr' & Hb & Hn & Hv & Hrest).
  3: destruct (fput_spec s FTimestamp v p Hok Hfr Hp Hroom) as (Hr & Hok' & Hfr' & Hb & Hn & Hv & Hrest).
  1-3: eexists; split; [exact Hr|]; split; [exact Hok'|]; split; [exact Hfr'|]; split; [exact Hb|];
    split; [exact Hn|]; split; [exact Hv|]; split;
    [intros [] i Hne; cbn [pview p_set p_int p_float p_timestamp p_text]; try reflexivity;
     apply Hrest; intros ->; now apply Hne
    |split; [intros []; cbn; lia|cbn; lia]].
  destruct Hroom as (Hc & Hcur & Hend).
  destruct (kv_putString_run s v p Hok Hp Hc Hcur Hend) as (x & Hr & Hx & Hcx & Hxe & Hv & Hrest).
  destruct (proj2 Hok p FInt) as [_ (_ & H0 & _)]. destruct Hfr as [Hf Ht].
  exists (p_set_text x (kv_part s p)). split; [exact Hr|]. split; [now apply kv_ok_with_text|].
  unfold tview. rewrite (proj2 (Z.ltb_lt _ _) Hcur).
  assert (TEXT_MAX_ARRAY_ELE_NUM < 2 ^ 48 - 1) by reflexivity.
  split; [split|split; [lia|split; [|split; [exact Hv|split; [|split; [intros []|]]]]]];
    cbn [pnext p_set_text p_int p_float p_timestamp p_text text_size]; try lia.
  - intros t' k. rewrite p_get_set_text. apply Hf.
  - intros k Hk. cbn [p_set_text p_text] in *. rewrite Hrest by lia. apply Ht. lia.
  - apply Ht. lia.
  - intros [] i Hne; cbn [pview p_set_text p_int p_float p_timestamp p_text]; try reflexivity.
    unfold tview. rewrite Hrest; [reflexivity|]. intros ->. now apply Hne.
Qed.

(** ** Operations on the map *)

Lemma get_spec s t k v :
  store_ok s -> view s t k = Some v ->
  exists s', get t k s = (Ok v, s') /\ store_ok s' /\ st_equiv s s'.
Proof.
  intros (Hl & Hg & Hf) Hv. rewrite get_eq. unfold view in Hv.
  destruct (islocal k) eqn:E; unfold localkv_ops, kv_ops, zoomM.
  - rewrite (lget_spec _ _ _ v Hl Hv). exists s. destruct s. split; [reflexivity|].
    split; [now split|reflexivity].
  - rewrite (gget_spec _ _ _ v Hg E Hv). eexists. split; [reflexivity|]. split.
    + split; [exact Hl|]. split; [now apply kv_ok_self|]. intros p. cbn [st_kv].
      rewrite kv_part_self. apply Hf.
    + split; [reflexivity|]. intros p. cbn [st_kv]. apply kv_part_self.
Qed.

(** Room for a value: below the index width in the local store, below the capacity of the
    mapped file in a partition. *)
Definition room (s : store) (t : vtype) (v : vty t) (local : bool) (p : RID) : Prop :=
  if local then lsize (st_local s) t < 2 ^ 48 - 1
  else global_partition p /\ proom (kv_part (st_kv s) p) t v.

(** What storing [v] under the fresh [rid] means. *)
Record stored (s s' : store) (t : vtype) (v : vty t) (rid : RID) : Prop := {
  stored_ok : store_ok s';
  stored_u64 : in_u64 rid;
  stored_valid : rid <> INVALID_RID;
  stored_fresh : view s t rid = None;
  stored_view : view s' t rid = Some v;
  stored_frame : forall t' k, in_u64 k -> (t', k) <> (t, rid) -> view s' t' k = view s t' k;
  stored_size : forall t', lsize (st_local s') t' <= lsize (st_local s) t' + 1;
}.

Lemma make_rid_not_invalid p i : wf_partition p -> 0 <= i < 2 ^ 48 - 1 -> make_partitioned_rid p i <> INVALID_RID.
Proof.
  intros Hp Hi E. apply (f_equal rid_index) in E. rewrite rid_index_make, Z.mod_small in E by (assumption || lia).
  change (rid_index INVALID_RID) with (2 ^ 48 - 1) in E. lia.
Qed.

Lemma put_local_spec s t v p :
  store_ok s -> room s t v true p ->
  exists rid s', put t INVALID_RID v true p s = (Ok rid, s') /\ islocal rid = true /\
    stored s s' t v rid /\ st_kv s' = st_kv s /\
    (forall t', lsize (st_local s) t' <= lsize (st_local s') t' <= lsize (st_local s) t' + 1).
Proof.
  intros (Hl & Hg & Hf) Hroom. cbn [room] in Hroom. rewrite put_eq.
  destruct (lput_spec (st_local s) t v Hl) as (k & l' & Hr & Hok & Hk & Hn & Hv & Hfr & Hs).
  assert (Hwi : wf_index k) by (unfold wf_index; lia).
  exists (idx2local k), (mkStore l' (st_kv s)). unfold bindM, localkv_ops, zoomM. rewrite Hr.
  split; [reflexivity|]. split; [apply islocal_idx2local|]. split; [|split; [reflexivity|exact Hs]].
  split.
  - split; [exact Hok|]. now split.
  - apply make_partitioned_rid_range. auto with zeno.
  - apply make_rid_not_invalid; [auto with zeno|lia].
  - unfold view. now rewrite islocal_idx2local, local2idx_idx2local by exact Hwi.
  - unfold view. now rewrite islocal_idx2local, local2idx_idx2local by exact Hwi.
  - intros t' k' Hu Hne. unfold view. cbn [st_local st_kv]. destruct (islocal k') eqn:E; [|reflexivity].
    apply Hfr. intros [= -> <-]. apply Hne. f_equal. symmetry. now apply idx2local_local2idx.
  - intros t'. apply Hs.
Qed.

Lemma put_global_spec s t v p :
  store_ok s -> room s t v false p ->
  exists rid s', put t INVALID_RID v false p s = (Ok rid, s') /\ islocal rid = false /\
    rid_partition rid = p /\ stored s s' t v rid /\ st_local s' = st_local s /\
    (forall q t', pnext (kv_part (st_kv s') q) t' <= pnext (kv_part (st_kv s) q) t' + 1) /\
    (forall q, ts_end (p_text (kv_part (st_kv s') q)) <= ts_end (p_text (kv_part (st_kv s) q)) + text_size v).
Proof.
  intros (Hl & Hg & Hf) [Hp Hroom]. rewrite put_eq. change (negb (INVALID_RID =? INVALID_RID)) with false.
  destruct (gput_spec (st_kv s) t v p Hg (Hf p) Hp Hroom) as (ps & Hr & Hok & Hfr & Hb & Hn & Hv & Hrest & Hgrow).
  set (i := pnext (kv_part (st_kv s) p) t) in *. destruct Hp as [Hwf Hnl].
  assert (Hpart : rid_partition (make_partitioned_rid p i) = p) by now apply rid_partition_make.
  assert (Hidx : rid_index (make_partitioned_rid p i) = i)
    by (rewrite rid_index_make by exact Hwf; apply Z.mod_small; lia).
  assert (Hloc : islocal (make_partitioned_rid p i) = false)
    by (rewrite islocal_make by exact Hwf; now apply Z.eqb_neq).
  exists (make_partitioned_rid p i), (mkStore (st_local s) (kv_with (st_kv s) p ps)).
  unfold kv_ops, zoomM. rewrite Hr.
  split; [reflexivity|]. split; [exact Hloc|]. split; [exact Hpart|].
  assert (Hts : 0 <= text_size v) by (destruct t; cbn; lia).
  split; [|split; [reflexivity|split; [intros q t'|intros q]; cbn [st_kv]; rewrite kv_part_with;
    case_decide; subst; (apply Hgrow || lia)]]. split.
  - split; [exact Hl|]. split; [exact Hok|]. intros q. cbn [st_kv]. rewrite kv_part_with.
    case_decide; [exact Hfr|apply Hf].
  - now apply make_partitioned_rid_range.
  - now apply make_rid_not_invalid.
  - unfold view. now rewrite Hloc, Hpart, Hidx.
  - unfold view. cbn [st_kv]. rewrite Hloc, Hpart, Hidx, kv_part_with, decide_True by reflexivity. exact Hv.
  - intros t' k Hu Hne. unfold view. cbn [st_local st_kv]. destruct (islocal k); [reflexivity|].
    rewrite kv_part_with. case_decide as E; [|reflexivity]. rewrite E. apply Hrest. intros [= -> Hi].
    apply Hne. f_equal. rewrite <- E, <- Hi. symmetry. now apply make_rid_of_parts.
  - intros t'. cbn [st_local]. lia.
Qed.

Lemma free_spec s t k :
  store_ok s -> in_u64 k ->
  exists s', freeLocal t k s = (Ok tt, s') /\ store_ok s' /\ st_kv s' = st_kv s /\
    (islocal k = true -> view s' t k = None) /\
    (forall t' k', in_u64 k' -> (t', k') <> (t, k) -> view s' t' k' = view s t' k') /\
    (forall t', lsize (st_local s') t' = lsize (st_local s) t').
Proof.
  intros (Hl & Hg & Hf) Hk. rewrite freeLocal_eq. destruct (islocal k) eqn:E.
  - assert (H0 : 0 <= local2idx k) by apply wf_index_of.
    destruct (lerase_spec (st_local s) t (local2idx k) Hl H0) as (l' & Hr & Hok & Hn & Hrest & Hs).
    exists (mkStore l' (st_kv s)). unfold localkv_ops, zoomM. rewrite Hr.
    split; [reflexivity|]. split; [now split|]. split; [reflexivity|]. split; [|split; [|exact Hs]].
    + intros _. unfold view. now rewrite E.
    + intros t' k' Hu Hne. unfold view. cbn [st_local st_kv]. destruct (islocal k') eqn:E'; [|reflexivity].
      apply Hrest. intros [= -> Hi]. apply Hne. f_equal.
      rewrite <- (idx2local_local2idx k'), <- (idx2local_local2idx k) by assumption. congruence.
  - exists s. split; [reflexivity|]. repeat (split; [easy|]). easy.
Qed.

(** C6: the two stores behave as one map from RIDs to values. Storing a value of any type, as
    a worker's intermediate result or persistently in a relation's partition, returns a RID
    that held nothing, marks it local exactly when it was stored locally, reading it gives
    the value back, and every other RID keeps its value. Freeing the RID with [freeLocal]
    removes exactly it when it is local, and nothing when it is persistent. *)
Theorem store_put_get (s : store) (t : vtype) (v : vty t) (local : bool) (p : RID) :
  store_ok s -> room s t v local p ->
  exists rid s' s'', put t INVALID_RID v local p s = (Ok rid, s') /\
    islocal rid = local /\ stored s s' t v rid /\
    get t rid s' = (Ok v, s'') /\ st_equiv s' s'' /\
    exists s3, freeLocal t rid s' = (Ok tt, s3) /\ store_ok s3 /\
      view s3 t rid = (if local then None else Some v) /\
      (forall t' k, in_u64 k -> (t', k) <> (t, rid) -> view s3 t' k = view s' t' k).
Proof.
  intros Hok Hroom.
  assert (exists rid s', put t INVALID_RID v local p s = (Ok rid, s') /\ islocal rid = local /\
            stored s s' t v rid) as (rid & s' & Hr & Hl & Hst).
  { destruct local.
    - destruct (put_local_spec s t v p Hok Hroom) as (rid & s' & H1 & H2 & H3 & _). eauto.
    - destruct (put_global_spec s t v p Hok Hroom) as (rid & s' & H1 & H2 & _ & H3 & _ & _). eauto. }
  destruct (get_spec s' t rid v (stored_ok _ _ _ _ _ Hst) (stored_view _ _ _ _ _ Hst))
    as (s'' & Hg & _ & He).
  destruct (free_spec s' t rid (stored_ok _ _ _ _ _ Hst) (stored_u64 _ _ _ _ _ Hst)) as (s3 & Hf & Hok3 & _ & Hnone & Hrest & _).
  exists rid, s', s''. split_and!; auto. exists s3. split_and!; auto. destruct local; [now apply Hnone|].
  rewrite freeLocal_eq, Hl in Hf. unfold retM in Hf. injection Hf as <-. exact (stored_view _ _ _ _ _ Hst).
Qed.

Lemma st_empty_ok : store_ok st_empty.
Proof.
  split; [apply local_empty_ok|]. split; [apply kv_ok_empty|]. intros p. unfold kv_part.
  cbn [st_kv st_empty kv_empty fk_files]. rewrite lookup_empty. simpl (default _ _).
  split; intros; [destruct t|]; reflexivity.
Qed.

Lemma store_put_get_witness :
  exists rid s' s'', put TText INVALID_RID [97; 98] false 5 st_empty = (Ok rid, s') /\
    islocal rid = false /\ stored st_empty s' TText [97; 98] rid /\
    get TText rid s' = (Ok [97; 98], s'') /\ st_equiv s' s'' /\
    exists s3, freeLocal TText rid s' = (Ok tt, s3) /\ store_ok s3 /\ view s3 TText rid = Some [97; 98] /\
      (forall t' k, in_u64 k -> (t', k) <> (TText, rid) -> view s3 t' k = view s' t' k).
Proof.
  apply (store_put_get st_empty TText [97; 98] false 5 st_empty_ok).
  split; [split; [split; reflexivity || easy|vm_compute; congruence]|].
  split; [repeat constructor; lia|]. split; vm_compute; congruence.
Defined.

(** ** Replacing persistent values *)

(** What a persistent RID holds. *)
Definition gview (s : FileMapKV) (t : vtype) (key : RID) : option (vty t) :=
  pview (kv_part s (rid_partition key)) t (rid_index key).

Definition pcap (t : vtype) : Z :=
  match t with
  | TInt | TFloat => MAX_ARRAY_ELE_NUM 4
  | TTimestamp => MAX_ARRAY_ELE_NUM 8
  | TText => TEXT_MAX_ARRAY_ELE_NUM
  end.

Definition wf_text {t : vtype} : vty t -> Prop :=
  match t with
  | TText => cstr
  | _ => fun _ => True
  end.

Definition text_end (s : FileMapKV) (p : RID) : Z := ts_end (p_text (kv_part s p)).

Lemma kv_replace_run s t key v :
  kv_ok s -> islocal key = false -> rid_index key < MAX_ARRAY_ELE_NUM (fsizeof t) ->
  let x := p_get t (kv_part s (rid_partition key)) in
  kv_replace t key v s =
    (Ok key, kv_with s (rid_partition key)
               (p_set t (mkFstore (fs_cur x) (<[rid_index key := v]> (fs_arr x)))
                        (kv_part s (rid_partition key)))).
Proof.
  intros Hok Hl Hi x. unfold kv_replace, bindM. apply Z.eqb_neq in Hl.
  rewrite on_partition_run by assumption. unfold zoomM. rewrite fs_replace_run by exact Hi. reflexivity.
Qed.

Lemma rid_parts_inj k k' :
  in_u64 k -> in_u64 k' -> rid_partition k = rid_partition k' -> rid_index k = rid_index k' -> k = k'.
Proof. intros H H' Hp Hi. rewrite <- (make_rid_of_parts k H), <- (make_rid_of_parts k' H'). congruence. Qed.

(** Replacing one store of the partition of [key] changes nothing but [key]'s value. *)
Lemma gview_with s t key ps v :
  in_u64 key ->
  pview ps t (rid_index key) = Some v ->
  (forall t' i, (t', i) <> (t, rid_index key) ->
     pview ps t' i = pview (kv_part s (rid_partition key)) t' i) ->
  gview (kv_with s (rid_partition key) ps) t key = Some v /\
  forall t' k, in_u64 k -> (t', k) <> (t, key) ->
    gview (kv_with s (rid_partition key) ps) t' k = gview s t' k.
Proof.
  intros Hk Hv Hf. unfold gview. split.
  - now rewrite kv_part_with, decide_True by reflexivity.
  - intros t' k Hu Hne. rewrite kv_part_with. case_decide as E; [|reflexivity]. rewrite <- E in *.
    rewrite Hf, E; [reflexivity|]. intros [= -> Hi]. apply Hne. f_equal. now apply rid_parts_inj.
Qed.

Lemma greplace_spec s t key (v : vty t) :
  kv_ok s -> in_u64 key -> islocal key = false -> rid_index key < pcap t -> wf_text v ->
  text_end s (rid_partition key) + text_size v <= STORE_SIZE ->
  exists s', greplace t key v s = (Ok key, s') /\ kv_ok s' /\ gview s' t key = Some v /\
    (forall t' k, in_u64 k -> (t', k) <> (t, key) -> gview s' t' k = gview s t' k) /\
    (forall p, text_end s' p <= text_end s p + text_size v).
Proof.
  intros Hok Hk Hl Hi Hwf Hend.
  destruct t; cbn [greplace pcap text_size wf_text] in *;
    unfold kv_replaceInt, kv_replaceFloat, kv_replaceTimestamp.
  1-3: rewrite kv_replace_run by assumption; eexists; split; [reflexivity|];
    split; [apply kv_ok_with_fixed; [exact Hok|apply (proj2 Hok (rid_partition key))]|];
    apply and_assoc; split;
    [apply gview_with; [exact Hk| |];
     [cbn [pview p_set p_get p_int p_float p_timestamp]; unfold fview; cbn [fs_arr];
      rewrite (proj2 (Z.ltb_lt _ _) Hi); apply lookup_insert_eq
     |intros [] i Hne; cbn [pview p_set p_get p_int p_float p_timestamp p_text]; try reflexivity;
      unfold fview; cbn [fs_arr]; rewrite lookup_insert_ne; [reflexivity|intros <-; now apply Hne]]
    |intros p; unfold text_end; rewrite kv_part_with; case_decide as E; [rewrite p_text_set, E|]; lia].
  set (p := rid_partition key) in *. destruct (proj2 Hok p FInt) as [_ Ht].
  destruct (ts_write_spec (p_text (kv_part s p)) (rid_index key) v Ht Hwf) as (x & Hw & Hx & _ & Hv & Hf).
  { unfold text_end in Hend. lia. }
  assert (Hend' : ts_end x = ts_end (p_text (kv_part s p)) + (Z.of_nat (length v) + 1)).
  { rewrite ts_write_run in Hw by (unfold text_end in Hend; assumption || lia). now injection Hw as <-. }
  exists (kv_with s p (p_set_text x (kv_part s p))). split.
  { unfold kv_replaceString, bindM. apply Z.eqb_neq in Hl. fold p. rewrite on_partition_run by assumption.
    unfold zoomM, ts_replace, bindM. rewrite checkM_true by now apply Z.ltb_lt. now rewrite Hw. }
  split; [now apply kv_ok_with_text|]. apply and_assoc. split.
  - apply gview_with; [exact Hk| |].
    + cbn [pview p_set_text p_text]. unfold tview. now rewrite (proj2 (Z.ltb_lt _ _) Hi).
    + intros [] i Hne; cbn [pview p_set_text p_int p_float p_timestamp p_text]; try reflexivity.
      unfold tview. rewrite Hf; [reflexivity|]. intros ->. now apply Hne.
  - intros q. unfold text_end. rewrite kv_part_with. case_decide as E; [rewrite E; cbn [p_set_text p_text]|]; lia.
Qed.
