(* ===== verification/Like.v ===== *)
(** The LIKE matcher of the privacy zone: MatchText of src/privacy_zone/tee.cpp.

    [like] states which texts a pattern matches; [MatchText] is the code's matcher. A
    pointer with its remaining length is the list of the remaining bytes. *)
From S2P Require Import Prelude.

Definition LIKE_TRUE : Z := 1.
Definition LIKE_FALSE : Z := 0.
Definition LIKE_ABORT : Z := 0.

Definition PERCENT : Z := 37.
Definition UNDERSCORE : Z := 95.
Definition BACKSLASH : Z := 92.

(** The fast path for the match-everything pattern. *)
Definition match_everything (p : bytes) : bool :=
  match p with
  | [c] => c =? PERCENT
  | _ => false
  end.

(** Skip the wildcards behind a [%]; every [_] takes one text character. [None]: the text
    ran out. *)
Fixpoint skip_wildcards (p t : bytes) : option (bytes * bytes) :=
  match p with
  | [] => Some ([], t)
  | c :: p' =>
      if c =? PERCENT then skip_wildcards p' t
      else if c =? UNDERSCORE then
        match t with
        | [] => None
        | _ :: t' => skip_wildcards p' t'
        end
      else Some (p, t)
  end.

(** Try [recurse] at every text position that starts with [firstpat]. *)
Fixpoint scan_text (recurse : bytes -> option Z) (firstpat : Z) (t : bytes) : option Z :=
  match t with
  | [] => Some LIKE_ABORT
  | c :: t' =>
      if c =? firstpat then
        match recurse t with
        | None => None
        | Some matched =>
            if negb (matched =? LIKE_FALSE) then Some matched else scan_text recurse firstpat t'
        end
      else scan_text recurse firstpat t'
  end.

(** [while (plen > 0 && *p == '%')] at the end of the text. *)
Fixpoint skip_percents (p : bytes) : bytes :=
  match p with
  | c :: p' => if c =? PERCENT then skip_percents p' else p
  | [] => []
  end.

(** The body of MatchText behind the fast path. Every iteration and every recursive call
    has a shorter pattern, so the length of the pattern bounds both. *)
Fixpoint match_loop (fuel : nat) (t p : bytes) : option Z :=
  match fuel with
  | O => None
  | S fuel' =>
      match t, p with
      | tc :: t', pc :: p' =>
          if pc =? BACKSLASH then
            match p' with
            | [] => Some LIKE_ABORT
            | lit :: p'' =>
                if negb (lit =? tc) then Some LIKE_FALSE else match_loop fuel' t' p''
            end
          else if pc =? PERCENT then
            match skip_wildcards p' t with
            | None => Some LIKE_ABORT
            | Some ([], _) => Some LIKE_TRUE
            | Some (first :: p2, t1) =>
                let p1 := first :: p2 in
                let recurse u :=
                  if match_everything p1 then Some LIKE_TRUE else match_loop fuel' u p1 in
                if first =? BACKSLASH then
                  match p2 with
                  | [] => Some LIKE_ABORT
                  | lit :: _ => scan_text recurse lit t1
                  end
                else scan_text recurse first t1
            end
          else if pc =? UNDERSCORE then match_loop fuel' t' p'
          else if negb (pc =? tc) then Some LIKE_FALSE
          else match_loop fuel' t' p'
      | _ :: _, [] => Some LIKE_FALSE
      | [], _ =>
          match skip_percents p with
          | [] => Some LIKE_TRUE
          | _ => Some LIKE_ABORT
          end
      end
  end.

Definition MatchText (t p : bytes) : option Z :=
  if match_everything p then Some LIKE_TRUE else match_loop (S (length p)) t p.

(** ** What LIKE means *)

Inductive like : bytes -> bytes -> Prop :=
| like_end : like [] []
| like_escape c p t : like p t -> like (BACKSLASH :: c :: p) (c :: t)
| like_any_none p t : like p t -> like (PERCENT :: p) t
| like_any_one c p t : like (PERCENT :: p) t -> like (PERCENT :: p) (c :: t)
| like_single c p t : like p t -> like (UNDERSCORE :: p) (c :: t)
| like_literal c p t :
    c <> BACKSLASH -> c <> PERCENT -> c <> UNDERSCORE -> like p t -> like (c :: p) (c :: t).

Ltac wild := unfold BACKSLASH, PERCENT, UNDERSCORE in *; try lia; try congruence.

(** [%] followed by [p] matches a text iff [p] matches one of its suffixes. *)
Lemma like_percent p t : like (PERCENT :: p) t <-> exists u v, t = u ++ v /\ like p v.
Proof.
  split.
  - intros H. remember (PERCENT :: p) as q eqn:Eq. induction H; try (injection Eq as <- <-); wild.
    + exists [], t. injection Eq as ->. auto.
    + destruct (IHlike Eq) as (u & v & -> & Hv). exists (c :: u), v. auto.
  - intros (u & v & -> & Hv). induction u; simpl; auto using like.
Qed.

Lemma like_underscore p t : like (UNDERSCORE :: p) t <-> exists c t', t = c :: t' /\ like p t'.
Proof.
  split.
  - intros H. inversion H; subst; wild. eauto.
  - intros (c & t' & -> & H). now constructor.
Qed.

Lemma like_literal_iff c p t :
  c <> BACKSLASH -> c <> PERCENT -> c <> UNDERSCORE ->
  like (c :: p) t <-> exists t', t = c :: t' /\ like p t'.
Proof.
  intros H1 H2 H3. split.
  - intros H. inversion H; subst; wild. eauto.
  - intros (t' & -> & H). now constructor.
Qed.

Lemma like_escape_iff c p t : like (BACKSLASH :: c :: p) t <-> exists t', t = c :: t' /\ like p t'.
Proof.
  split.
  - intros H. inversion H; subst; wild. eauto.
  - intros (t' & -> & H). now constructor.
Qed.

Lemma like_dangling t : ~ like [BACKSLASH] t.
Proof. intros H. inversion H; subst; wild. Qed.

Lemma like_nil t : like [] t <-> t = [].
Proof. split; [now inversion 1|intros ->; constructor]. Qed.

(** The two equivalences the skipping of wildcards relies on. *)
Lemma like_percent_percent p t : like (PERCENT :: PERCENT :: p) t <-> like (PERCENT :: p) t.
Proof.
  rewrite !like_percent. split.
  - intros (u & v & -> & Hv). apply like_percent in Hv as (u' & v' & -> & Hv').
    exists (u ++ u'), v'. now rewrite app_assoc.
  - intros (u & v & -> & Hv). exists u, v. split; [reflexivity|]. now constructor.
Qed.

Lemma like_percent_underscore p c t :
  like (PERCENT :: UNDERSCORE :: p) (c :: t) <-> like (PERCENT :: p) t.
Proof.
  rewrite !like_percent. split.
  - intros (u & v & E & Hv). apply like_underscore in Hv as (c' & v' & -> & Hv').
    destruct u as [|c0 u]; simplify_eq/=; [now exists [], v'|].
    exists (u ++ [c']), v'. now rewrite <- app_assoc.
  - intros (u & v & -> & Hv). destruct (exists_last (l := c :: u)) as (u0 & c0 & E); [discriminate|].
    exists u0, (c0 :: v). split; [|now constructor].
    change (c :: u ++ v) with ((c :: u) ++ v). rewrite E, <- app_assoc. reflexivity.
Qed.

Lemma not_like_percent_underscore_nil p : ~ like (PERCENT :: UNDERSCORE :: p) [].
Proof.
  rewrite like_percent. intros (u & v & E & Hv). apply like_underscore in Hv as (? & ? & -> & _).
  now destruct u.
Qed.

(** ** The matcher decides LIKE *)

(** A result of the matcher agrees with the meaning of the pattern. *)
Definition decides (r : option Z) (P : Prop) : Prop :=
  (r = Some LIKE_TRUE /\ P) \/ (r = Some LIKE_FALSE /\ ~ P).

Lemma decides_iff r P Q : (P <-> Q) -> decides r P <-> decides r Q.
Proof. unfold decides. tauto. Qed.

Lemma decides_true (P : Prop) : P -> decides (Some LIKE_TRUE) P.
Proof. now left. Qed.

Lemma decides_false (P : Prop) : ~ P -> decides (Some LIKE_FALSE) P.
Proof. now right. Qed.

Lemma skip_wildcards_spec p t :
  match skip_wildcards p t with
  | None => ~ like (PERCENT :: p) t
  | Some (p1, t1) =>
      (like (PERCENT :: p) t <-> like (PERCENT :: p1) t1) /\ (length p1 <= length p)%nat /\
      match p1 with
      | c :: _ => c <> PERCENT /\ c <> UNDERSCORE
      | [] => True
      end
  end.
Proof.
  revert t. induction p as [|c p IH]; intros t; simpl; [auto|].
  destruct (Z.eqb_spec c PERCENT) as [->|H1].
  - specialize (IH t). pose proof (like_percent_percent p t).
    destruct (skip_wildcards p t) as [[p1 t1]|]; [|tauto]. intuition lia.
  - destruct (Z.eqb_spec c UNDERSCORE) as [->|H2]; [|auto].
    destruct t as [|x t]; [apply not_like_percent_underscore_nil|]. specialize (IH t).
    pose proof (like_percent_underscore p x t).
    destruct (skip_wildcards p t) as [[p1 t1]|]; [|tauto]. intuition lia.
Qed.

Lemma skip_percents_spec p :
  match skip_percents p with
  | [] => like p []
  | _ => ~ like p []
  end.
Proof.
  induction p as [|c p IH]; simpl; [constructor|]. destruct (Z.eqb_spec c PERCENT) as [->|Hne].
  - destruct (skip_percents p); [now constructor|]. intros H. inversion H; subst; wild.
  - intros H. inversion H; subst; wild.
Qed.

(** Scanning for the first literal finds a suffix that matches, if there is one. *)
Lemma scan_text_spec recurse first p t :
  (forall u, decides (recurse u) (like p u)) ->
  (forall u, like p u -> exists u', u = first :: u') ->
  decides (scan_text recurse first t) (like (PERCENT :: p) t).
Proof.
  intros Hrec Hfirst.
  assert (Hstep : forall c t, ~ like p (c :: t) -> like (PERCENT :: p) (c :: t) <-> like (PERCENT :: p) t).
  { intros c t' Hn. split; [|now constructor]. intros H.
    apply like_percent in H as ([|x u] & v & E & Hv); simplify_eq/=; [easy|].
    apply like_percent. eauto. }
  induction t as [|c t IH]; simpl.
  - apply decides_false. rewrite like_percent. intros (u & v & E & Hv).
    destruct (Hfirst v Hv) as [u' ->]. now destruct u.
  - destruct (Z.eqb_spec c first) as [->|Hne].
    + destruct (Hrec (first :: t)) as [[-> H]|[-> H]].
      * apply decides_true. now constructor.
      * simpl. now apply (decides_iff _ _ _ (Hstep _ _ H)).
    + apply (decides_iff _ _ _ (Hstep c t ltac:(intros H; destruct (Hfirst _ H) as [? [= -> _]]; easy))).
      exact IH.
Qed.

Lemma match_everything_spec p : match_everything p = true -> forall t, like p t.
Proof.
  destruct p as [|c [|]]; try discriminate. simpl. intros ->%Z.eqb_eq t.
  apply like_percent. exists t, []. rewrite app_nil_r. auto using like.
Qed.

(** The [%] branch, given that shorter patterns are decided. *)
Lemma percent_branch fuel t p :
  (forall u q, (length q < fuel)%nat -> decides (match_loop fuel u q) (like q u)) ->
  (length p < fuel)%nat ->
  decides
    match skip_wildcards p t with
    | None => Some LIKE_ABORT
    | Some ([], _) => Some LIKE_TRUE
    | Some (first :: p2, t1) =>
        let recurse u :=
          if match_everything (first :: p2) then Some LIKE_TRUE
          else match_loop fuel u (first :: p2) in
        if first =? BACKSLASH then
          match p2 with
          | [] => Some LIKE_ABORT
          | lit :: _ => scan_text recurse lit t1
          end
        else scan_text recurse first t1
    end (like (PERCENT :: p) t).
Proof.
  intros IH Hlen. pose proof (skip_wildcards_spec p t) as Hs.
  destruct (skip_wildcards p t) as [[p1 t1]|]; [|now apply decides_false].
  destruct Hs as (Heq & Hle & Hfirst). apply (decides_iff _ _ _ Heq).
  destruct p1 as [|first p2].
  { apply decides_true, like_percent. exists t1, []. rewrite app_nil_r. auto using like. }
  set (recurse u := if match_everything (first :: p2) then Some LIKE_TRUE
                    else match_loop fuel u (first :: p2)).
  assert (Hrec : forall u, decides (recurse u) (like (first :: p2) u)).
  { intros u. unfold recurse. destruct (match_everything (first :: p2)) eqn:E.
    - apply decides_true. now apply match_everything_spec.
    - apply IH. lia. }
  cbv zeta. destruct (Z.eqb_spec first BACKSLASH) as [->|Hb].
  - destruct p2 as [|lit p3].
    + apply decides_false. rewrite like_percent. intros (u & v & _ & Hv). now apply like_dangling in Hv.
    + apply scan_text_spec; [exact Hrec|]. intros u Hu. apply like_escape_iff in Hu as (t' & -> & _). eauto.
  - apply scan_text_spec; [exact Hrec|]. intros u Hu.
    apply like_literal_iff in Hu as (t' & -> & _); tauto || eauto.
Qed.

Lemma match_loop_decides fuel t p :
  (length p < fuel)%nat -> decides (match_loop fuel t p) (like p t).
Proof.
  revert t p. induction fuel as [|fuel IH]; intros t p Hlen; [lia|]. cbn [match_loop].
  destruct t as [|tc t].
  { pose proof (skip_percents_spec p). destruct (skip_percents p); [now apply decides_true|now apply decides_false]. }
  destruct p as [|pc p]; [apply decides_false; now rewrite like_nil|]. simpl length in Hlen.
  destruct (Z.eqb_spec pc BACKSLASH) as [->|Hb].
  - destruct p as [|lit p]; [apply decides_false, like_dangling|]. simpl length in Hlen.
    destruct (Z.eqb_spec lit tc) as [->|Hne]; cbn [negb].
    + eapply decides_iff; [|apply (IH t p); lia]. rewrite like_escape_iff. naive_solver.
    + apply decides_false. rewrite like_escape_iff. naive_solver.
  - destruct (Z.eqb_spec pc PERCENT) as [->|Hp].
    + apply percent_branch; [exact IH|lia].
    + destruct (Z.eqb_spec pc UNDERSCORE) as [->|Hu].
      * eapply decides_iff; [|apply (IH t p); lia]. rewrite like_underscore. naive_solver.
      * destruct (Z.eqb_spec pc tc) as [->|Hne]; cbn [negb].
        -- eapply decides_iff; [|apply (IH t p); lia]. rewrite like_literal_iff by assumption. naive_solver.
        -- apply decides_false. rewrite like_literal_iff by assumption. naive_solver.
Qed.

Lemma MatchText_decides t p : decides (MatchText t p) (like p t).
Proof.
  unfold MatchText. destruct (match_everything p) eqn:E.
  - apply decides_true. now apply match_everything_spec.
  - apply match_loop_decides. lia.
Qed.

(** C10: MatchText always returns, and it returns LIKE_TRUE exactly for the texts the pattern
    matches: [_] stands for one character, [%] for any number, a backslash makes the next
    character literal, and a pattern that ends in a lone backslash matches nothing. *)
Theorem MatchText_correct (t p : bytes) :
  is_Some (MatchText t p) /\
  (MatchText t p = Some LIKE_TRUE <-> like p t) /\ (MatchText t p = Some LIKE_FALSE <-> ~ like p t).
Proof.
  destruct (MatchText_decides t p) as [[-> H]|[-> H]]; unfold LIKE_TRUE, LIKE_FALSE;
    (split; [eauto|]); split; split; intros; congruence || tauto.
Qed.
