(* ===== verification/Tee.v ===== *)
(** The operations of the privacy zone: src/privacy_zone/tee.cpp.

    Operands and results are RIDs. Integer operations are C++ [int] operations, so a result
    out of range and a division by zero are undefined behaviour; floats are IEEE 754
    binary32 patterns. *)
From Stdlib Require Import SpecFloat.
From S2P Require Import Prelude Rid LocalStore FileMap KV Like.

(** ** int *)

(** [int] arithmetic with its undefined cases. *)
Definition int_result (x : Z) : res Z := if fits_s32 x then Ok x else Err Undefined.
Definition int_add (l r : Z) : res Z := int_result (l + r).
Definition int_sub (l r : Z) : res Z := int_result (l - r).
Definition int_mult (l r : Z) : res Z := int_result (l * r).
Definition int_div (l r : Z) : res Z :=
  if r =? 0 then Err Undefined else int_result (Z.quot l r).
Definition int_mod (l r : Z) : res Z :=
  if (r =? 0) || negb (fits_s32 (Z.quot l r)) then Err Undefined else Ok (Z.rem l r).

Definition kv_int_add (left right : RID) : M store RID :=
  let* l := getInt left in
  let* r := getInt right in
  let* v := ofRes (int_add l r) in
  putInt INVALID_RID v true RID_DEFAULT_PARTITION.

Definition kv_int_sub (left right : RID) : M store RID :=
  let* l := getInt left in
  let* r := getInt right in
  let* v := ofRes (int_sub l r) in
  putInt INVALID_RID v true RID_DEFAULT_PARTITION.

Definition kv_int_mult (left right : RID) : M store RID :=
  let* l := getInt left in
  let* r := getInt right in
  let* v := ofRes (int_mult l r) in
  putInt INVALID_RID v true RID_DEFAULT_PARTITION.

Definition kv_int_div (left right : RID) : M store RID :=
  let* l := getInt left in
  let* r := getInt right in
  let* v := ofRes (int_div l r) in
  putInt INVALID_RID v true RID_DEFAULT_PARTITION.

Definition kv_int_mod (left right : RID) : M store RID :=
  let* l := getInt left in
  let* r := getInt right in
  let* v := ofRes (int_mod l r) in
  putInt INVALID_RID v true RID_DEFAULT_PARTITION.

(** [l > r ? 1 : (l < r ? -1 : 0)] *)
Definition three_way (l r : Z) : Z := if r <? l then 1 else if l <? r then -1 else 0.

Definition kv_int_cmp (left right : RID) : M store Z :=
  let* l := getInt left in
  let* r := getInt right in
  retM (three_way l r).

(** [sum += getInt(bulk_data[i])] *)
Fixpoint int_sum_loop (sum : Z) (bulk_data : list RID) : M store Z :=
  match bulk_data with
  | [] => retM sum
  | k :: rest =>
      let* v := getInt k in
      let* sum' := ofRes (int_add sum v) in
      int_sum_loop sum' rest
  end.

Definition kv_int_sum_bulk (bulk_data : list RID) : M store RID :=
  let* sum := int_sum_loop 0 bulk_data in
  let* key := putInt INVALID_RID sum true RID_DEFAULT_PARTITION in
  do* iterM bulk_data freeLocalInt in
  retM key.

(** ** float *)

(** The value of a binary32 pattern, and the pattern of a value; a NaN result is the quiet
    NaN without payload. *)
Definition f32_of_bits (b : Z) : spec_float :=
  let s := Z.testbit b 31 in
  let e := Z.land (Z.shiftr b 23) 255 in
  let m := Z.land b (2 ^ 23 - 1) in
  if e =? 255 then (if m =? 0 then S754_infinity s else S754_nan)
  else match (if e =? 0 then m else m + 2 ^ 23) with
       | Zpos p => S754_finite s p ((if e =? 0 then 1 else e) - 150)
       | _ => S754_zero s
       end.

(** A NaN has one bit pattern here: its payload and sign, which IEEE 754 leaves to the
    implementation, are made canonical. *)
Definition bits_of_f32 (x : spec_float) : Z :=
  let sgn (s : bool) : Z := if s then 2 ^ 31 else 0 in
  match x with
  | S754_zero s => sgn s
  | S754_infinity s => sgn s + 255 * 2 ^ 23
  | S754_nan => 255 * 2 ^ 23 + 2 ^ 22
  | S754_finite s m e =>
      sgn s + (if Zpos m <? 2 ^ 23 then Zpos m else (e + 150) * 2 ^ 23 + (Zpos m - 2 ^ 23))
  end.

Definition f32_op (op : spec_float -> spec_float -> spec_float) (l r : Z) : Z :=
  bits_of_f32 (op (f32_of_bits l) (f32_of_bits r)).

Definition f32_add : Z -> Z -> Z := f32_op (SFadd 24 128).
Definition f32_sub : Z -> Z -> Z := f32_op (SFsub 24 128).
Definition f32_mult : Z -> Z -> Z := f32_op (SFmul 24 128).
Definition f32_div : Z -> Z -> Z := f32_op (SFdiv 24 128).
Definition f32_gt (l r : Z) : bool := SFltb (f32_of_bits r) (f32_of_bits l).
Definition f32_lt (l r : Z) : bool := SFltb (f32_of_bits l) (f32_of_bits r).

(** Conversion of a value to another format, rounding to nearest even. *)
Definition sf_convert (prec emax : Z) (x : spec_float) : spec_float :=
  match x with
  | S754_finite s m e => binary_normalize prec emax (cond_Zopp s (Zpos m)) e s
  | _ => x
  end.

Definition kv_float_add (left right : RID) : M store RID :=
  let* l := getFloat left in
  let* r := getFloat right in
  putFloat INVALID_RID (f32_add l r) true RID_DEFAULT_PARTITION.

Definition kv_float_sub (left right : RID) : M store RID :=
  let* l := getFloat left in
  let* r := getFloat right in
  putFloat INVALID_RID (f32_sub l r) true RID_DEFAULT_PARTITION.

Definition kv_float_mult (left right : RID) : M store RID :=
  let* l := getFloat left in
  let* r := getFloat right in
  putFloat INVALID_RID (f32_mult l r) true RID_DEFAULT_PARTITION.

Definition kv_float_div (left right : RID) : M store RID :=
  let* l := getFloat left in
  let* r := getFloat right in
  putFloat INVALID_RID (f32_div l r) true RID_DEFAULT_PARTITION.

Definition float_three_way (l r : Z) : Z := if f32_gt l r then 1 else if f32_lt l r then -1 else 0.

Definition kv_float_cmp (left right : RID) : M store Z :=
  let* l := getFloat left in
  let* r := getFloat right in
  retM (float_three_way l r).

(** The sum is kept in a [double]. *)
Fixpoint float_sum_loop (sum : spec_float) (bulk_data : list RID) : M store spec_float :=
  match bulk_data with
  | [] => retM sum
  | k :: rest =>
      let* v := getFloat k in
      float_sum_loop (SFadd 53 1024 sum (sf_convert 53 1024 (f32_of_bits v))) rest
  end.

Definition kv_float_sum_bulk (bulk_data : list RID) : M store RID :=
  let* sum := float_sum_loop (S754_zero false) bulk_data in
  let* key := putFloat INVALID_RID (bits_of_f32 (sf_convert 24 128 sum)) true RID_DEFAULT_PARTITION in
  do* iterM bulk_data freeLocalFloat in
  retM key.

(** [pow] and [fmod] are the C library's. *)
Section Libm.
Context (pow : spec_float -> spec_float -> spec_float).
Context (powf fmodf : Z -> Z -> Z).

(** The conversion of a [double] to [int]: the value without its fraction, undefined out of
    range. *)
Definition int_of_double (x : spec_float) : res Z :=
  match x with
  | S754_zero _ => Ok 0
  | S754_finite s m e =>
      int_result (cond_Zopp s (if 0 <=? e then Zpos m * 2 ^ e else Zpos m / 2 ^ (- e)))
  | _ => Err Undefined
  end.

Definition double_of_int (x : Z) : spec_float := binary_normalize 53 1024 x 0 false.

Definition kv_int_pow (left right : RID) : M store RID :=
  let* l := getInt left in
  let* r := getInt right in
  let* v := ofRes (int_of_double (pow (double_of_int l) (double_of_int r))) in
  putInt INVALID_RID v true RID_DEFAULT_PARTITION.

Definition kv_float_pow (left right : RID) : M store RID :=
  let* l := getFloat left in
  let* r := getFloat right in
  putFloat INVALID_RID (powf l r) true RID_DEFAULT_PARTITION.

Definition kv_float_mod (left right : RID) : M store RID :=
  let* l := getFloat left in
  let* r := getFloat right in
  putFloat INVALID_RID (fmodf l r) true RID_DEFAULT_PARTITION.

End Libm.

(** ** timestamp *)

Definition USECS_PER_DAY : Z := 86400000000.
Definition POSTGRES_EPOCH_JDATE : Z := 2451545.

(** [TMODULO(t, q, u)]: the new [t] and [q]. *)
Definition TMODULO (t u : Z) : Z * Z :=
  let q := Z.quot t u in
  (if q =? 0 then t else t - q * u, q).

(** From the Julian day to the year; [quad] and [extra] are [unsigned int], [date] is
    64-bit and signed. *)
Definition year_of_julian (date0 : Z) : Z :=
  let date1 := date0 + 32044 in
  let quad1 := u32 (Z.quot date1 146097) in
  let extra := u32 ((date1 - u32 (quad1 * 146097)) * 4 + 3) in
  let date2 := date1 + u32 (u32 (60 + u32 (quad1 * 3)) + extra / 146097) in
  let quad2 := u32 (Z.quot date2 1461) in
  let date3 := date2 - u32 (quad2 * 1461) in
  let year1 := s32 (Z.quot (date3 * 4) 1461) in
  let year2 := s32 (u32 (u32 year1 + u32 (quad2 * 4))) in
  year2 - 4800.

Definition timestamp_extract_year (timestamp : Z) : Z :=
  let '(t1, date1) := TMODULO timestamp USECS_PER_DAY in
  let '(t2, date2) := if t1 <? 0 then (t1 + USECS_PER_DAY, date1 - 1) else (t1, date1) in
  let date3 := date2 + POSTGRES_EPOCH_JDATE in
  if (date3 <? 0) || (INT_MAX <? date3) then -1 else year_of_julian date3.

Definition kv_timestamp_extract_year (timestamp : RID) : M store RID :=
  let* t := getTimestamp timestamp in
  putInt INVALID_RID (timestamp_extract_year t) true RID_DEFAULT_PARTITION.

Definition kv_timestamp_cmp (left right : RID) : M store Z :=
  let* l := getTimestamp left in
  let* r := getTimestamp right in
  retM (three_way l r).

(** ** text *)

(** [strcmp]: the sign of the difference at the first byte that differs, the terminator
    counting as a zero byte; the standard fixes no more than the sign. *)
Fixpoint strcmp (l r : bytes) : Z :=
  match l, r with
  | [], [] => 0
  | [], _ :: _ => -1
  | _ :: _, [] => 1
  | a :: l', b :: r' => if a =? b then strcmp l' r' else three_way a b
  end.

Definition kv_text_cmp (left right : RID) : M store Z :=
  let* l := getText left in
  let* r := getText right in
  retM (strcmp l r).

Definition kv_text_concat (left right : RID) : M store RID :=
  let* l := getText left in
  let* r := getText right in
  putText INVALID_RID (l ++ r) true RID_DEFAULT_PARTITION.

(** [t + s] must stay inside the string and its terminator, and the buffer needs a size that
    is not negative. [strncpy] copies up to [l] bytes of the string. *)
Definition kv_text_substr (text start length : RID) : M store RID :=
  let* t := getText text in
  let* v := getInt start in
  let* s := ofRes (int_sub v 1) in
  let* l := getInt length in
  do* definedM ((0 <=? s) && (s <=? Z.of_nat (List.length t)) && (0 <=? l) && (l <? INT_MAX)) in
  putText INVALID_RID (take (Z.to_nat l) (drop (Z.to_nat s) t)) true RID_DEFAULT_PARTITION.

Definition kv_text_like (text pattern : RID) : M store Z :=
  let* t := getText text in
  let* p := getText pattern in
  match MatchText t p with
  | Some r => retM r
  | None => failM Undefined
  end.

(** ** The year of a timestamp *)

Definition leap_year (y : Z) : bool :=
  ((y mod 4 =? 0) && negb (y mod 100 =? 0)) || (y mod 400 =? 0).

(** The Julian day of January 1st: [year_start_epoch] and [year_start_step] say that this is
    the proleptic Gregorian calendar. *)
Definition year_start (y : Z) : Z :=
  365 * y + (y + 3) / 4 - (y + 99) / 100 + (y + 399) / 400 + 1721060.

Lemma year_start_epoch : year_start 2000 = POSTGRES_EPOCH_JDATE.
Proof. reflexivity. Qed.

Lemma year_start_step y : year_start (y + 1) = year_start y + (if leap_year y then 366 else 365).
Proof.
  unfold year_start, leap_year.
  destruct (Z.eqb_spec (y mod 4) 0), (Z.eqb_spec (y mod 100) 0), (Z.eqb_spec (y mod 400) 0);
    cbn [andb orb negb]; dlia.
Qed.

(** One 400-year cycle of the code's formula. *)
Lemma year_in_cycle r :
  0 <= r < 146097 ->
  let z := 4 * (r + (4 * r + 3) / 146097 + 60) / 1461 in
  year_start (z - 4800) <= r - 32044 < year_start (z - 4800 + 1).
Proof. intros Hr z. unfold year_start. subst z. dlia. Qed.

Lemma year_start_cycle y q : year_start (y + 400 * q) = year_start y + 146097 * q.
Proof. unfold year_start. dlia. Qed.

(** The code's steps without their wrap-around, which never occurs for a day that fits an
    [int]. *)
Lemma year_of_julian_eq d :
  0 <= d <= INT_MAX ->
  let q := (d + 32044) / 146097 in
  let r := (d + 32044) mod 146097 in
  year_of_julian d = 4 * (r + (4 * r + 3) / 146097 + 60) / 1461 - 4800 + 400 * q.
Proof.
  intros Hd q r. unfold INT_MAX in Hd.
  assert (Hdm : d + 32044 = 146097 * q + r) by (apply Z.div_mod; lia).
  assert (Hr : 0 <= r < 146097) by (apply Z.mod_pos_bound; lia).
  assert (Hq : 0 <= q < 15000) by lia. clearbody q r.
  unfold year_of_julian. rewrite Hdm.
  assert (E1 : Z.quot (146097 * q + r) 146097 = q) by dlia.
  rewrite E1, (u32_small q), (u32_small (q * 146097)), (u32_small (q * 3)) by (unfold in_u32; lia).
  replace ((146097 * q + r - q * 146097) * 4 + 3) with (4 * r + 3) by lia.
  rewrite (u32_small (4 * r + 3)) by (unfold in_u32; lia).
  set (c := (4 * r + 3) / 146097). assert (Hc : 0 <= c < 4) by (subst c; dlia). clearbody c.
  rewrite (u32_small (60 + q * 3)), (u32_small (60 + q * 3 + c)) by (unfold in_u32; lia).
  set (d2 := 146097 * q + r + (60 + q * 3 + c)).
  rewrite (Z.quot_div_nonneg d2) by lia.
  assert (Hd2 : 0 <= d2 / 1461 < 2000000) by dlia.
  rewrite (u32_small (d2 / 1461)), (u32_small (d2 / 1461 * 1461)), (u32_small (d2 / 1461 * 4))
    by (unfold in_u32; lia).
  rewrite (Z.quot_div_nonneg ((d2 - d2 / 1461 * 1461) * 4)) by dlia.
  set (y1 := (d2 - d2 / 1461 * 1461) * 4 / 1461). assert (Hy1 : 0 <= y1 < 4) by (subst y1; dlia).
  rewrite (s32_small y1) by (unfold in_s32; lia).
  rewrite (u32_small y1), (u32_small (y1 + d2 / 1461 * 4)) by (unfold in_u32; lia).
  rewrite s32_small by (unfold in_s32; lia). subst y1 d2. dlia.
Qed.

Lemma TMODULO_floor t :
  let '(t1, d1) := TMODULO t USECS_PER_DAY in
  (if t1 <? 0 then (t1 + USECS_PER_DAY, d1 - 1) else (t1, d1)) =
  (t mod USECS_PER_DAY, t / USECS_PER_DAY).
Proof.
  unfold TMODULO, USECS_PER_DAY. set (u := 86400000000).
  assert (E : (if Z.quot t u =? 0 then t else t - Z.quot t u * u) = Z.rem t u).
  { pose proof (Z.quot_rem' t u). destruct (Z.eqb_spec (Z.quot t u) 0) as [E|]; [rewrite E in *|]; lia. }
  rewrite E. subst u. destruct (Z.ltb_spec (Z.rem t 86400000000) 0); f_equal;
    dlia.
Qed.

(** timestamp_extract_year gives the proleptic Gregorian year of a timestamp: with [day]
    the Julian day the microseconds fall on, the year's first day is not after it and the
    next year's first day is. For a day before Julian day 0 or beyond [INT_MAX] it gives
    -1. *)
Theorem timestamp_extract_year_gregorian (timestamp : Z) :
  let day := timestamp / USECS_PER_DAY + POSTGRES_EPOCH_JDATE in
  let year := timestamp_extract_year timestamp in
  if (0 <=? day) && (day <=? INT_MAX)
  then year_start year <= day < year_start (year + 1)
  else year = -1.
Proof.
  intros day year. unfold year, timestamp_extract_year.
  pose proof (TMODULO_floor timestamp) as H.
  destruct (TMODULO timestamp USECS_PER_DAY) as [t1 d1]. rewrite H. fold day. clear H.
  replace ((day <? 0) || (INT_MAX <? day)) with (negb ((0 <=? day) && (day <=? INT_MAX)))
    by (rewrite negb_andb; f_equal; lia).
  destruct ((0 <=? day) && (day <=? INT_MAX)) eqn:E; cbn [negb]; [|reflexivity].
  apply andb_true_iff in E as [E1%Z.leb_le E2%Z.leb_le]. clearbody day.
  rewrite year_of_julian_eq by lia. set (q := (day + 32044) / 146097).
  set (r := (day + 32044) mod 146097).
  assert (Hdm : day + 32044 = 146097 * q + r) by (apply Z.div_mod; lia).
  pose proof (year_in_cycle r ltac:(apply Z.mod_pos_bound; lia)) as Hc. cbv zeta in Hc.
  set (z := 4 * (r + (4 * r + 3) / 146097 + 60) / 1461) in *.
  replace (z - 4800 + 400 * q + 1) with ((z - 4800 + 1) + 400 * q) by lia.
  rewrite !year_start_cycle. lia.
Qed.

Example year_2024 : timestamp_extract_year (757382400 * 1000000) = 2024.
Proof. reflexivity. Qed.
Example year_before_epoch : timestamp_extract_year (-1) = 1999.
Proof. reflexivity. Qed.

(** ** Operations on stored values *)

(** The shape of the two-operand operations. *)
Definition compute2 {ta tb : vtype} (tc : vtype) (f : vty ta -> vty tb -> res (vty tc))
    (left right : RID) : M store RID :=
  let* l := get ta left in
  let* r := get tb right in
  let* v := ofRes (f l r) in
  put tc INVALID_RID v true RID_DEFAULT_PARTITION.

(** What a store needs for one more local value. *)
Definition local_room (s : store) (t : vtype) : Prop := lsize (st_local s) t < 2 ^ 48 - 1.

Lemma stored_equiv s s1 s2 t v rid : st_equiv s s1 -> stored s1 s2 t v rid -> stored s s2 t v rid.
Proof.
  intros He [H1 H2 H3 H4 H5 H6 H7]. split; try assumption.
  - now rewrite <- (view_equiv _ _ _ _ He).
  - intros t' k Hk Hne. now rewrite <- (view_equiv _ _ _ _ He), H6.
  - intros t'. specialize (H7 t'). now rewrite (proj1 He) in H7.
Qed.

(** Every two-operand operation: a fresh local result, or the operation's own error with
    nothing changed. *)
Lemma compute2_spec {ta tb tc} (f : vty ta -> vty tb -> res (vty tc)) left right s a b :
  store_ok s -> view s ta left = Some a -> view s tb right = Some b -> local_room s tc ->
  match f a b with
  | Ok v => exists rid s', compute2 tc f left right s = (Ok rid, s') /\ islocal rid = true /\
              stored s s' tc v rid
  | Err e => exists s', compute2 tc f left right s = (Err e, s') /\ st_equiv s s'
  end.
Proof.
  intros Hok Ha Hb Hroom. destruct (get_spec s ta left a Hok Ha) as (s1 & H1 & Hok1 & He1).
  destruct (get_spec s1 tb right b Hok1) as (s2 & H2 & Hok2 & He2).
  { now rewrite (view_equiv _ _ _ _ He1). }
  assert (He : st_equiv s s2) by (etransitivity; eassumption).
  unfold compute2. rewrite (bindM_run _ _ _ _ _ H1), (bindM_run _ _ _ _ _ H2).
  destruct (f a b) as [v|e].
  - unfold bindM, ofRes.
    destruct (put_local_spec s2 tc v RID_DEFAULT_PARTITION Hok2) as (rid & s' & Hr & Hl & Hst & _).
    { unfold room. now rewrite (proj1 He). }
    exists rid, s'. split; [exact Hr|]. split; [exact Hl|]. now apply (stored_equiv s s2).
  - exists s2. now split.
Qed.

Inductive int_op : Type :=
| IAdd
| ISub
| IMult
| IDiv
| IMod.

Definition kv_int_op (op : int_op) : RID -> RID -> M store RID :=
  match op with
  | IAdd => kv_int_add
  | ISub => kv_int_sub
  | IMult => kv_int_mult
  | IDiv => kv_int_div
  | IMod => kv_int_mod
  end.

(** The mathematical result, where it is an [int]; the remainder is defined when the
    quotient is. *)
Definition int_op_spec (op : int_op) (a b : Z) : option Z :=
  match op with
  | IAdd => if fits_s32 (a + b) then Some (a + b) else None
  | ISub => if fits_s32 (a - b) then Some (a - b) else None
  | IMult => if fits_s32 (a * b) then Some (a * b) else None
  | IDiv => if negb (b =? 0) && fits_s32 (Z.quot a b) then Some (Z.quot a b) else None
  | IMod => if negb (b =? 0) && fits_s32 (Z.quot a b) then Some (Z.rem a b) else None
  end.

Definition int_op_res (op : int_op) : Z -> Z -> res Z :=
  match op with
  | IAdd => int_add
  | ISub => int_sub
  | IMult => int_mult
  | IDiv => int_div
  | IMod => int_mod
  end.

Lemma kv_int_op_compute2 op : kv_int_op op = compute2 (ta := TInt) (tb := TInt) TInt (int_op_res op).
Proof. now destruct op. Qed.

Lemma int_op_res_spec op a b :
  int_op_res op a b = match int_op_spec op a b with Some v => Ok v | None => Err Undefined end.
Proof.
  destruct op; cbn; unfold int_add, int_sub, int_mult, int_div, int_mod, int_result.
  1-3: now destruct (fits_s32 _).
  all: destruct (Z.eqb_spec b 0); cbn [negb andb orb]; [reflexivity|]; now destruct (fits_s32 _).
Qed.

(** each integer operation on two stored operands yields a fresh local RID holding the
    mathematical result and leaves every other value alone; when the result is not an
    [int], or the divisor is zero, the behaviour is undefined (nothing else is checked). *)
Theorem kv_int_op_correct (op : int_op) (left right : RID) (s : store) (a b : Z) :
  store_ok s -> view s TInt left = Some a -> view s TInt right = Some b -> local_room s TInt ->
  match int_op_spec op a b with
  | Some v => exists rid s', kv_int_op op left right s = (Ok rid, s') /\ islocal rid = true /\
                stored s s' TInt v rid
  | None => exists s', kv_int_op op left right s = (Err Undefined, s') /\ st_equiv s s'
  end.
Proof.
  intros Hok Ha Hb Hroom.
  pose proof (compute2_spec (ta := TInt) (tb := TInt) (tc := TInt) (int_op_res op) left right s a b
                Hok Ha Hb Hroom) as H.
  rewrite int_op_res_spec in H. rewrite kv_int_op_compute2. now destruct (int_op_spec op a b).
Qed.

(** A local store that holds two values. *)
Definition rpair {A} (a b : A) : rstore A := mkRstore [a; b] [true; true] [].
Lemma rpair_ok {A} (a b : A) : rs_ok (rpair a b).
Proof.
  split; [reflexivity|constructor|]. intros k. cbn [rpair rs_free rs_live].
  split; [intros H; inversion H|]. intros H. apply vlookup_Some_lt in H as Hr.
  unfold vsize in Hr. simpl in Hr. assert (k = 0 \/ k = 1) as [-> | ->] by lia; discriminate H.
Qed.

(** A store with two local integers, 7 and 3. *)
Definition two_ints : store := mkStore (mkLocalKV (rpair 7 3) rempty rempty rempty) kv_empty.
Lemma two_ints_ok : store_ok two_ints.
Proof. split; [|apply st_empty_ok]. split; [apply rpair_ok|repeat split; apply rs_ok_empty]. Qed.

Lemma kv_int_op_correct_witness :
  exists rid s', kv_int_op IDiv (idx2local 0) (idx2local 1) two_ints = (Ok rid, s') /\
    islocal rid = true /\ stored two_ints s' TInt 2 rid.
Proof.
  apply (kv_int_op_correct IDiv (idx2local 0) (idx2local 1) two_ints 7 3 two_ints_ok); reflexivity.
Defined.

(** ** Sums *)

(** Every partial sum is an [int]. *)
Fixpoint sums_fit (acc : Z) (vs : list Z) : bool :=
  match vs with
  | [] => true
  | v :: vs' => fits_s32 (acc + v) && sums_fit (acc + v) vs'
  end.

Definition sum_list (vs : list Z) : Z := fold_left Z.add vs 0.

(** The values under a list of RIDs. *)
Definition views (s : store) (t : vtype) (ks : list RID) (vs : list (vty t)) : Prop :=
  Forall2 (fun k v => view s t k = Some v) ks vs.

Lemma views_equiv s s' t ks vs : st_equiv s s' -> views s t ks vs -> views s' t ks vs.
Proof. intros He. apply Forall2_impl. intros k v H. now rewrite (view_equiv _ _ _ _ He). Qed.

Lemma int_sum_loop_spec ks vs acc s :
  store_ok s -> views s TInt ks vs -> sums_fit acc vs = true ->
  exists s', int_sum_loop acc ks s = (Ok (fold_left Z.add vs acc), s') /\ store_ok s' /\ st_equiv s s'.
Proof.
  revert vs acc s. induction ks as [|k ks IH]; intros vs acc s Hok Hv Hfit;
    inversion Hv as [|? v ? vs' Hk Hrest]; subst.
  - exists s. now split.
  - cbn [sums_fit] in Hfit. apply andb_true_iff in Hfit as [Hf1 Hf2].
    destruct (get_spec s TInt k v Hok Hk) as (s1 & Hg & Hok1 & He1). cbn [int_sum_loop].
    change (getInt k) with (get TInt k). rewrite (bindM_run _ _ _ _ _ Hg).
    unfold int_add, int_result. rewrite Hf1.
    destruct (IH vs' (acc + v) s1 Hok1 (views_equiv _ _ _ _ _ He1 Hrest) Hf2) as (s' & Hr & Hok' & He').
    exists s'. split; [exact Hr|]. split; [exact Hok'|]. etransitivity; eassumption.
Qed.

(** Freeing a list of RIDs drops the local ones of that type and nothing else. *)
Lemma iter_free_spec t ks s :
  store_ok s -> Forall in_u64 ks ->
  exists s', iterM ks (freeLocal t) s = (Ok tt, s') /\ store_ok s' /\
    (forall k, k ∈ ks -> islocal k = true -> view s' t k = None) /\
    (forall t' k, in_u64 k -> ~ (t' = t /\ k ∈ ks) -> view s' t' k = view s t' k).
Proof.
  revert s. induction ks as [|k ks IH]; intros s Hok Hks.
  - exists s. split; [reflexivity|]. split; [exact Hok|]. split; [intros k H; inversion H|easy].
  - inversion Hks as [|? ? Hk Hks']; subst.
    destruct (free_spec s t k Hok Hk) as (s1 & Hr1 & Hok1 & _ & Hn1 & Hf1 & _).
    destruct (IH s1 Hok1 Hks') as (s' & Hr & Hok' & Hn & Hf). exists s'. cbn [iterM].
    rewrite (bindM_run _ _ _ _ _ Hr1). split; [exact Hr|]. split; [exact Hok'|]. split.
    + intros k' Hin Hl. destruct (decide (k' ∈ ks)) as [Hin'|Hni]; [now apply Hn|].
      apply elem_of_cons in Hin as [->|]; [|easy]. rewrite Hf by naive_solver. now apply Hn1.
    + intros t' k' Hu Hni. rewrite Hf, Hf1; [reflexivity|exact Hu| |exact Hu|].
      * intros [= -> ->]. apply Hni. split; [reflexivity|left].
      * intros [-> Hin]. apply Hni. split; [reflexivity|now right].
Qed.

(** Freeing keeps the number of slots and the persistent stores. *)
Lemma iter_free_size t ks s s' :
  store_ok s -> Forall in_u64 ks -> iterM ks (freeLocal t) s = (Ok tt, s') ->
  (forall t', lsize (st_local s') t' = lsize (st_local s) t') /\ st_kv s' = st_kv s.
Proof.
  revert s. induction ks as [|k ks IH]; intros s Hok Hks Hrun.
  - cbn in Hrun. unfold retM in Hrun. now simplify_eq.
  - inversion Hks as [|? ? Hk Hks']; subst.
    destruct (free_spec s t k Hok Hk) as (s1 & Hr1 & Hok1 & Hkv & _ & _ & Hs1).
    cbn [iterM] in Hrun. rewrite (bindM_run _ _ _ _ _ Hr1) in Hrun. destruct (IH s1 Hok1 Hks' Hrun) as [H1 H2].
    split; [intros t'; now rewrite H1, Hs1|congruence].
Qed.

(** What a bulk operation leaves behind. *)
Record summed (t : vtype) (s s' : store) (ks : list RID) (rid : RID) (v : vty t) : Prop := {
  sum_ok : store_ok s';
  sum_local : islocal rid = true;
  sum_u64 : in_u64 rid;
  sum_fresh : view s t rid = None;
  sum_view : view s' t rid = Some v;
  sum_freed : forall k, k ∈ ks -> islocal k = true -> view s' t k = None;
  sum_frame : forall t' k, in_u64 k -> (t', k) <> (t, rid) -> ~ (t' = t /\ k ∈ ks) -> view s' t' k = view s t' k;
  sum_size : lsize (st_local s') t <= lsize (st_local s) t + 1;
  sum_kv : forall p, kv_part (st_kv s') p = kv_part (st_kv s) p;
}.
Arguments summed t s s' ks rid v : clear implicits.

(** Store the result of a bulk operation and free its operands. *)
Lemma sum_tail_spec t ks vs (v : vty t) s s1 :
  store_ok s1 -> st_equiv s s1 -> views s t ks vs -> Forall in_u64 ks -> local_room s t ->
  exists rid s', (let* key := put t INVALID_RID v true RID_DEFAULT_PARTITION in
                  do* iterM ks (freeLocal t) in retM key) s1 = (Ok rid, s') /\ summed t s s' ks rid v.
Proof.
  intros Hok1 He1 Hv Hu Hroom.
  destruct (put_local_spec s1 t v RID_DEFAULT_PARTITION Hok1) as (rid & s2 & Hr2 & Hl & Hst & Hkv2 & Hs2).
  { unfold room. now rewrite (proj1 He1). }
  apply (stored_equiv s) in Hst; [|exact He1]. destruct Hst as [Hok2 Hru _ Hfresh Hval Hframe].
  destruct (iter_free_spec t ks s2 Hok2 Hu) as (s3 & Hr3 & Hok3 & Hn3 & Hf3).
  assert (Hnot : rid ∉ ks).
  { intros Hin. apply list_elem_of_lookup in Hin as [i Hi].
    destruct (Forall2_lookup_l _ _ _ _ _ Hv Hi) as (x & _ & Hx). cbn in Hx. congruence. }
  exists rid, s3. split; [now rewrite (bindM_run _ _ _ _ _ Hr2), (bindM_run _ _ _ _ _ Hr3)|].
  split; try assumption.
  - rewrite Hf3 by naive_solver. exact Hval.
  - intros t' k Hk Hne Hni. rewrite Hf3 by assumption. now apply Hframe.
  - rewrite (proj1 (iter_free_size t ks s2 s3 Hok2 Hu Hr3)). specialize (Hs2 t). rewrite (proj1 He1) in Hs2. lia.
  - intros p. now rewrite (proj2 (iter_free_size t ks s2 s3 Hok2 Hu Hr3)), Hkv2, (proj2 He1).
Qed.

Lemma kv_int_sum_bulk_spec ks vs s :
  store_ok s -> views s TInt ks vs -> Forall in_u64 ks -> sums_fit 0 vs = true -> local_room s TInt ->
  exists rid s', kv_int_sum_bulk ks s = (Ok rid, s') /\ summed TInt s s' ks rid (sum_list vs).
Proof.
  intros Hok Hv Hu Hfit Hroom.
  destruct (int_sum_loop_spec ks vs 0 s Hok Hv Hfit) as (s1 & Hr1 & Hok1 & He1).
  destruct (sum_tail_spec TInt ks vs (sum_list vs) s s1 Hok1 He1 Hv Hu Hroom) as (rid & s' & Hr & Hs).
  exists rid, s'. split; [|exact Hs]. unfold kv_int_sum_bulk. now rewrite (bindM_run _ _ _ _ _ Hr1).
Qed.

(** The [double] a bulk sum of floats accumulates, and the [float] it stores. *)
Definition double_sum (acc : spec_float) (vs : list Z) : spec_float :=
  fold_left (fun sum v => SFadd 53 1024 sum (sf_convert 53 1024 (f32_of_bits v))) vs acc.
Definition float_sum (vs : list Z) : Z := bits_of_f32 (sf_convert 24 128 (double_sum (S754_zero false) vs)).

Lemma float_sum_loop_spec ks vs acc s :
  store_ok s -> views s TFloat ks vs ->
  exists s', float_sum_loop acc ks s = (Ok (double_sum acc vs), s') /\ store_ok s' /\ st_equiv s s'.
Proof.
  revert vs acc s. induction ks as [|k ks IH]; intros vs acc s Hok Hv;
    inversion Hv as [|? v ? vs' Hk Hrest]; subst.
  - exists s. now split.
  - destruct (get_spec s TFloat k v Hok Hk) as (s1 & Hg & Hok1 & He1). cbn [float_sum_loop].
    change (getFloat k) with (get TFloat k). rewrite (bindM_run _ _ _ _ _ Hg).
    destruct (IH vs' (SFadd 53 1024 acc (sf_convert 53 1024 (f32_of_bits v))) s1 Hok1 (views_equiv _ _ _ _ _ He1 Hrest))
      as (s' & Hr & Hok' & He').
    exists s'. split; [exact Hr|]. split; [exact Hok'|]. etransitivity; eassumption.
Qed.

Lemma kv_float_sum_bulk_spec ks vs s :
  store_ok s -> views s TFloat ks vs -> Forall in_u64 ks -> local_room s TFloat ->
  exists rid s', kv_float_sum_bulk ks s = (Ok rid, s') /\ summed TFloat s s' ks rid (float_sum vs).
Proof.
  intros Hok Hv Hu Hroom.
  destruct (float_sum_loop_spec ks vs (S754_zero false) s Hok Hv) as (s1 & Hr1 & Hok1 & He1).
  destruct (sum_tail_spec TFloat ks vs (float_sum vs) s s1 Hok1 He1 Hv Hu Hroom) as (rid & s' & Hr & Hs).
  exists rid, s'. split; [|exact Hs]. unfold kv_float_sum_bulk. now rewrite (bindM_run _ _ _ _ _ Hr1).
Qed.

(** a bulk sum over stored integers whose partial sums are all [int]s yields a fresh
    local RID holding the sum, frees exactly the local operands, also when a RID occurs
    more than once, and changes nothing else. *)
Theorem kv_int_sum_bulk_correct (ks : list RID) (vs : list Z) (s : store) :
  store_ok s -> views s TInt ks vs -> Forall in_u64 ks -> sums_fit 0 vs = true -> local_room s TInt ->
  exists rid s', kv_int_sum_bulk ks s = (Ok rid, s') /\ store_ok s' /\ islocal rid = true /\
    view s TInt rid = None /\ view s' TInt rid = Some (sum_list vs) /\
    (forall k, k ∈ ks -> islocal k = true -> view s' TInt k = None) /\
    (forall t k, in_u64 k -> (t, k) <> (TInt, rid) -> ~ (t = TInt /\ k ∈ ks) -> view s' t k = view s t k).
Proof.
  intros Hok Hv Hu Hfit Hroom.
  destruct (kv_int_sum_bulk_spec ks vs s Hok Hv Hu Hfit Hroom) as (rid & s' & Hr & []).
  exists rid, s'. auto 10.
Qed.

(** Sum 7 + 3 + 7: the RID of 7 occurs twice. *)
Lemma kv_int_sum_bulk_correct_witness :
  exists rid s', kv_int_sum_bulk [idx2local 0; idx2local 1; idx2local 0] two_ints = (Ok rid, s') /\
    store_ok s' /\ islocal rid = true /\ view two_ints TInt rid = None /\
    view s' TInt rid = Some 17 /\
    (forall k, k ∈ [idx2local 0; idx2local 1; idx2local 0] -> islocal k = true -> view s' TInt k = None) /\
    (forall t k, in_u64 k -> (t, k) <> (TInt, rid) ->
       ~ (t = TInt /\ k ∈ [idx2local 0; idx2local 1; idx2local 0]) -> view s' t k = view two_ints t k).
Proof.
  apply (kv_int_sum_bulk_correct [idx2local 0; idx2local 1; idx2local 0] [7; 3; 7] two_ints two_ints_ok).
  - repeat constructor.
  - repeat constructor; vm_compute; congruence.
  - reflexivity.
  - reflexivity.
Defined.

(** ** Text *)

Lemma three_way_antisym a b : three_way b a = - three_way a b.
Proof. unfold three_way. destruct (Z.ltb_spec a b), (Z.ltb_spec b a); lia. Qed.

Lemma strcmp_antisym l r : strcmp r l = - strcmp l r.
Proof.
  revert r. induction l as [|a l IH]; intros [|b r]; simpl; try reflexivity.
  rewrite (Z.eqb_sym b a). destruct (Z.eqb_spec a b); [apply IH|apply three_way_antisym].
Qed.

Lemma strcmp_eq l r : strcmp l r = 0 <-> l = r.
Proof.
  revert r. induction l as [|a l IH]; intros [|b r]; simpl; try easy.
  destruct (Z.eqb_spec a b) as [->|Hne].
  - rewrite IH. naive_solver.
  - unfold three_way. destruct (Z.ltb_spec b a), (Z.ltb_spec a b); naive_solver lia.
Qed.

(** Byte-wise lexicographic order: a proper prefix, or a smaller byte at the first place where
    the strings differ. *)
Definition lex_lt (l r : bytes) : Prop :=
  exists p, (exists b r', l = p /\ r = p ++ b :: r') \/
            (exists a b l' r', l = p ++ a :: l' /\ r = p ++ b :: r' /\ a < b).

Lemma lex_lt_cons a l r : lex_lt l r -> lex_lt (a :: l) (a :: r).
Proof.
  intros (p & [(b & r' & -> & ->)|(x & y & l' & r' & -> & -> & H)]); exists (a :: p); [left|right]; eauto 10.
Qed.

Lemma strcmp_lt l r : strcmp l r < 0 -> lex_lt l r.
Proof.
  revert r. induction l as [|a l IH]; intros [|b r]; simpl; try lia.
  - intros _. exists []. left. eauto.
  - destruct (Z.eqb_spec a b) as [->|Hne]; [auto using lex_lt_cons|]. unfold three_way.
    destruct (Z.ltb_spec b a), (Z.ltb_spec a b); try lia. intros _. exists []. right. eauto 10.
Qed.

Lemma strcmp_app p l r : strcmp (p ++ l) (p ++ r) = strcmp l r.
Proof. induction p as [|a p IH]; simpl; [reflexivity|]. now rewrite Z.eqb_refl. Qed.

Lemma lex_lt_strcmp l r : lex_lt l r -> strcmp l r < 0.
Proof.
  intros (p & [(b & r' & -> & ->)|(a & b & l' & r' & -> & -> & H)]).
  - rewrite <- (app_nil_r p) at 1. rewrite strcmp_app. simpl. lia.
  - rewrite strcmp_app. simpl. unfold three_way. rewrite (proj2 (Z.eqb_neq a b)) by lia.
    rewrite (proj2 (Z.ltb_ge b a)), (proj2 (Z.ltb_lt a b)) by lia. lia.
Qed.

(** The pair of texts behind two RIDs. *)
Lemma kv_text_cmp_run left right s l r :
  store_ok s -> view s TText left = Some l -> view s TText right = Some r ->
  exists s', kv_text_cmp left right s = (Ok (strcmp l r), s') /\ st_equiv s s'.
Proof.
  intros Hok Hl Hr. destruct (get_spec s TText left l Hok Hl) as (s1 & H1 & Hok1 & He1).
  destruct (get_spec s1 TText right r Hok1) as (s2 & H2 & _ & He2).
  { now rewrite (view_equiv _ _ _ _ He1). }
  exists s2. split; [|etransitivity; eassumption]. unfold kv_text_cmp.
  change getText with (get TText).
  now rewrite (bindM_run _ _ _ _ _ H1), (bindM_run _ _ _ _ _ H2).
Qed.

(** comparing two stored texts decides their byte-wise lexicographic order: zero exactly
    for equal texts, negative exactly when the first is smaller, positive exactly when it is
    larger, and the stores are left as they were. *)
Theorem kv_text_cmp_lexicographic (left right : RID) (s : store) (l r : bytes) :
  store_ok s -> view s TText left = Some l -> view s TText right = Some r ->
  exists c s', kv_text_cmp left right s = (Ok c, s') /\ st_equiv s s' /\
    (c = 0 <-> l = r) /\ (c < 0 <-> lex_lt l r) /\ (0 < c <-> lex_lt r l).
Proof.
  intros Hok Hl Hr. destruct (kv_text_cmp_run left right s l r Hok Hl Hr) as (s' & Hrun & He).
  exists (strcmp l r), s'. split; [exact Hrun|]. split; [exact He|]. split; [apply strcmp_eq|].
  split; [split; [apply strcmp_lt|apply lex_lt_strcmp]|]. pose proof (strcmp_antisym l r). split.
  - intros H1. apply strcmp_lt. lia.
  - intros H1%lex_lt_strcmp. lia.
Qed.

(** "ab" and "b" in the local text store, 2 and 1 in the int store. *)
Definition two_texts : store :=
  mkStore (mkLocalKV (mkRstore [2; 1] [true; true] []) rempty rempty
             (mkRstore [[97; 98]; [98]] [true; true] [])) kv_empty.

Lemma rs_ok_all_live {V} (l : list V) : rs_ok (mkRstore l (replicate (length l) true) []).
Proof.
  split; cbn; [apply length_replicate|constructor|]. intros k. split; [intros H; inversion H|].
  intros H. unfold vlookup in H. destruct (0 <=? k); [|discriminate H].
  apply lookup_replicate in H as [[=] _].
Qed.

Lemma two_texts_ok : store_ok two_texts.
Proof.
  split; [|apply st_empty_ok]. split; [apply (rs_ok_all_live [2; 1])|].
  repeat (split; [apply rs_ok_empty|]). apply (rs_ok_all_live [[97; 98]; [98]]).
Qed.

Lemma kv_text_cmp_lexicographic_witness :
  exists c s', kv_text_cmp (idx2local 0) (idx2local 1) two_texts = (Ok c, s') /\ st_equiv two_texts s' /\
    (c = 0 <-> [97; 98] = [98]) /\ (c < 0 <-> lex_lt [97; 98] [98]) /\ (0 < c <-> lex_lt [98] [97; 98]).
Proof.
  apply (kv_text_cmp_lexicographic (idx2local 0) (idx2local 1) two_texts [97; 98] [98] two_texts_ok); reflexivity.
Defined.

Lemma kv_text_substr_spec (text start len : RID) (s : store) (t : bytes) (b l : Z) :
  store_ok s -> view s TText text = Some t -> view s TInt start = Some b -> view s TInt len = Some l ->
  in_s32 b -> l < INT_MAX -> local_room s TText ->
  if (1 <=? b) && (b <=? Z.of_nat (length t) + 1) && (0 <=? l)
  then exists rid s', kv_text_substr text start len s = (Ok rid, s') /\ islocal rid = true /\
         stored s s' TText (take (Z.to_nat l) (drop (Z.to_nat (b - 1)) t)) rid
  else exists s', kv_text_substr text start len s = (Err Undefined, s') /\ st_equiv s s'.
Proof.
  intros Hok Ht Hb Hl Hbr Hlm Hroom.
  destruct (get_spec s TText text t Hok Ht) as (s1 & H1 & Hok1 & He1).
  destruct (get_spec s1 TInt start b Hok1) as (s2 & H2 & Hok2 & He2); [now rewrite (view_equiv _ _ _ _ He1)|].
  assert (He02 : st_equiv s s2) by (etransitivity; eassumption).
  destruct (get_spec s2 TInt len l Hok2) as (s3 & H3 & Hok3 & He3); [now rewrite (view_equiv _ _ _ _ He02)|].
  assert (He03 : st_equiv s s3) by (etransitivity; eassumption).
  assert (Hrun : kv_text_substr text start len s =
    if (1 <=? b) && (b <=? Z.of_nat (length t) + 1) && (0 <=? l)
    then put TText INVALID_RID (take (Z.to_nat l) (drop (Z.to_nat (b - 1)) t)) true RID_DEFAULT_PARTITION s3
    else (Err Undefined, if fits_s32 (b - 1) then s3 else s2)).
  { unfold kv_text_substr. change getText with (get TText). change getInt with (get TInt).
    rewrite (bindM_run _ _ _ _ _ H1), (bindM_run _ _ _ _ _ H2). unfold int_sub, int_result.
    destruct (fits_s32 (b - 1)) eqn:Hf.
    - unfold ofRes. unfold bindM at 1. rewrite (bindM_run _ _ _ _ _ H3).
      rewrite (proj2 (Z.ltb_lt l INT_MAX)), andb_true_r by lia.
      replace (0 <=? b - 1) with (1 <=? b) by lia.
      replace (b - 1 <=? Z.of_nat (length t)) with (b <=? Z.of_nat (length t) + 1) by lia.
      now destruct ((1 <=? b) && (b <=? Z.of_nat (length t) + 1) && (0 <=? l)).
    - assert (~ 1 <= b) as Hn.
      { intros H. apply not_true_iff_false in Hf. apply Hf, fits_s32_spec. unfold in_s32 in *. lia. }
      now rewrite (proj2 (Z.leb_gt 1 b)) by lia. }
  rewrite Hrun. destruct ((1 <=? b) && (b <=? Z.of_nat (length t) + 1) && (0 <=? l)).
  - destruct (put_local_spec s3 TText (take (Z.to_nat l) (drop (Z.to_nat (b - 1)) t)) RID_DEFAULT_PARTITION Hok3)
      as (rid & s' & Hr & Hloc & Hst & _); [unfold room; now rewrite (proj1 He03)|].
    exists rid, s'. split; [exact Hr|]. split; [exact Hloc|]. now apply (stored_equiv s s3).
  - eexists. split; [reflexivity|]. now destruct (fits_s32 (b - 1)).
Qed.

(** the substring operation on a stored text, start and length. For a start between 1 and
    one past the end and a length that is not negative it yields a fresh local text holding
    the characters of SQL's substring; for every other start or length the code computes a
    pointer outside the text or a buffer of negative size, which is undefined behaviour. *)
Theorem kv_text_substr_correct (text start len : RID) (s : store) (t : bytes) (b l : Z) :
  store_ok s -> view s TText text = Some t -> view s TInt start = Some b -> view s TInt len = Some l ->
  in_s32 b -> l < INT_MAX -> local_room s TText ->
  if (1 <=? b) && (b <=? Z.of_nat (length t) + 1) && (0 <=? l)
  then exists rid s', kv_text_substr text start len s = (Ok rid, s') /\ islocal rid = true /\
         stored s s' TText (take (Z.to_nat l) (drop (Z.to_nat (b - 1)) t)) rid
  else exists s', kv_text_substr text start len s = (Err Undefined, s') /\ st_equiv s s'.
Proof. exact (kv_text_substr_spec text start len s t b l). Qed.

(** substring("ab" from 2 for 1) *)
Lemma kv_text_substr_correct_witness :
  exists rid s', kv_text_substr (idx2local 0) (idx2local 0) (idx2local 1) two_texts = (Ok rid, s') /\
    islocal rid = true /\ stored two_texts s' TText [98] rid.
Proof.
  apply (kv_text_substr_correct (idx2local 0) (idx2local 0) (idx2local 1) two_texts [97; 98] 2 1
           two_texts_ok); try reflexivity. split; [vm_compute; congruence|reflexivity].
Defined.
