(* ===== verification/F32.v ===== *)
(** The [float] of the privacy zone (the patterns and operations of [Tee]): rounding gives a
    value in the range of the format, so that an operation's result, stored as 32 bits, decodes
    to the value IEEE 754 prescribes; and the order of the patterns. *)
From Stdlib Require Import SpecFloat.
From S2P Require Import Prelude Rid LocalStore KV Tee.

(** ** Binary digits *)

Lemma digits2_bounds p : 2 ^ (Zpos (digits2_pos p) - 1) <= Zpos p < 2 ^ Zpos (digits2_pos p).
Proof.
  induction p as [p IH|p IH|]; cbn [digits2_pos]; rewrite ?Pos2Z.inj_succ; [| |cbn; lia];
    rewrite Z.pow_succ_r by lia; unfold Z.succ; rewrite Z.add_simpl_r;
    replace (Zpos (digits2_pos p)) with (1 + (Zpos (digits2_pos p) - 1)) in IH at 2 |- * by lia;
    rewrite ?Z.pow_add_r in * by lia; lia.
Qed.

Lemma digits2_iter p k : Zpos (digits2_pos (Pos.iter xO p k)) = Zpos (digits2_pos p) + Zpos k.
Proof.
  induction k as [|k IH] using Pos.peano_ind; [cbn [Pos.iter digits2_pos]; lia|].
  rewrite Pos.iter_succ. cbn [digits2_pos]. lia.
Qed.

Lemma iter_xO_value p k : Zpos (Pos.iter xO p k) = Zpos p * 2 ^ Zpos k.
Proof.
  induction k as [|k IH] using Pos.peano_ind; [cbn [Pos.iter]; lia|].
  rewrite Pos.iter_succ, Pos2Z.inj_succ, Z.pow_succ_r by lia. lia.
Qed.

Lemma digits2_small p k : 0 <= k -> Zpos p < 2 ^ k -> Zpos (digits2_pos p) <= k.
Proof.
  intros Hk Hp. destruct (Z.le_gt_cases (Zpos (digits2_pos p)) k) as [|Hgt]; [assumption|].
  pose proof (digits2_bounds p) as Hb. pose proof (Z.pow_le_mono_r 2 k (Zpos (digits2_pos p) - 1)). lia.
Qed.

(** ** Rounding *)

Section Format.
Context (prec emax : Z).
Hypothesis Hprec : 0 < prec.

(** A value in the range of the format, with the exponent the format gives it. *)
Definition canonical (x : spec_float) : Prop :=
  match x with
  | S754_finite _ m e =>
      emin prec emax <= e <= emax - prec /\ Zpos m < 2 ^ prec /\ (e = emin prec emax \/ 2 ^ (prec - 1) <= Zpos m)
  | _ => True
  end.

Lemma shr_1_half r : 0 <= shr_m r -> shr_m (shr_1 r) = shr_m r / 2.
Proof.
  destruct r as [m r s]. cbn [shr_m shr_1]. intros Hm. rewrite <- Z.div2_div.
  now destruct m as [|[p|p|]|p].
Qed.

Lemma iter_shr p : forall r, 0 <= shr_m r -> shr_m (SpecFloat.iter_pos shr_1 p r) = shr_m r / 2 ^ Zpos p.
Proof.
  assert (Hp : forall k, 0 < 2 ^ Zpos k) by (intros; lia).
  assert (Hd : forall x k, 0 <= x -> 0 <= x / 2 ^ Zpos k) by (intros; apply Z.div_pos; auto).
  induction p as [p IH|p IH|]; intros r Hr; cbn [SpecFloat.iter_pos].
  - assert (H1 : 0 <= shr_m (shr_1 r)) by (rewrite shr_1_half by exact Hr; apply Z.div_pos; lia).
    assert (H2 : 0 <= shr_m (SpecFloat.iter_pos shr_1 p (shr_1 r))) by (rewrite IH; auto).
    rewrite (IH _ H2), (IH _ H1), shr_1_half by exact Hr. rewrite !Z.div_div by auto with lia.
    f_equal. rewrite (Pos2Z.inj_xI p), Z.pow_add_r, Z.pow_twice_r by lia. lia.
  - assert (H1 : 0 <= shr_m (SpecFloat.iter_pos shr_1 p r)) by (rewrite IH; auto).
    rewrite (IH _ H1), (IH _ Hr), Z.div_div by auto with lia.
    f_equal. rewrite <- Z.pow_add_r by lia. f_equal. lia.
  - now apply shr_1_half.
Qed.

Lemma shr_m_of_loc m l : shr_m (shr_record_of_loc m l) = m.
Proof. now destruct l as [|[]]. Qed.

(** Aligning a mantissa that has enough digits. *)
Lemma shr_fexp_spec m e l : 0 <= m -> let k := fexp prec emax (Zdigits2 m + e) - e in
  shr_m (fst (shr_fexp prec emax m e l)) = m / 2 ^ Z.max 0 k /\ snd (shr_fexp prec emax m e l) = e + Z.max 0 k.
Proof.
  intros Hm k. unfold shr_fexp. fold k. unfold shr. destruct k as [|p|p]; cbn [fst snd].
  - rewrite shr_m_of_loc, Z.div_1_r, Z.add_0_r. now split.
  - rewrite iter_shr by now rewrite shr_m_of_loc. now rewrite shr_m_of_loc.
  - rewrite shr_m_of_loc. cbn [Z.max Z.compare]. rewrite Z.div_1_r, Z.add_0_r. now split.
Qed.

Lemma round_near m l : round_nearest_even m l = m \/ round_nearest_even m l = m + 1.
Proof. destruct l as [|[]]; cbn; [now left| |now left|now right]. destruct (Z.even m); auto. Qed.

Lemma digits_bounds m : 0 < m -> 2 ^ (Zdigits2 m - 1) <= m < 2 ^ Zdigits2 m.
Proof. destruct m as [|p|p]; [lia| |lia]. intros _. apply digits2_bounds. Qed.

Lemma digits_le m k : 0 <= k -> 0 <= m < 2 ^ k -> Zdigits2 m <= k.
Proof. intros Hk Hm. destruct m as [|p|p]; [exact Hk| |lia]. now apply digits2_small. Qed.

Lemma digits_pow k : 0 <= k -> Zdigits2 (2 ^ k) = k + 1.
Proof.
  intros Hk. pose proof (digits_bounds (2 ^ k) ltac:(lia)) as [H1 H2].
  apply Z.pow_le_mono_r_iff in H1; [|lia|lia]. apply Z.pow_lt_mono_r_iff in H2; [lia|lia|].
  destruct (2 ^ k); cbn; lia.
Qed.

(** The mantissa after the first alignment. *)
Lemma aligned_bounds m e : 0 <= m -> e <= fexp prec emax (Zdigits2 m + e) ->
  let e' := fexp prec emax (Zdigits2 m + e) in
  let m' := m / 2 ^ (e' - e) in
  0 <= m' < 2 ^ prec /\ (e' = emin prec emax \/ 2 ^ (prec - 1) <= m').
Proof.
  intros Hm He. cbv zeta. set (e' := fexp prec emax (Zdigits2 m + e)) in *.
  destruct (Z.eq_dec m 0) as [->|Hm0].
  { cbn [Zdigits2] in e'. rewrite Z.div_0_l by lia. split; [lia|]. left. unfold e', fexp in *. lia. }
  pose proof (digits_bounds m ltac:(lia)) as [Hlo Hhi]. set (d := Zdigits2 m) in *.
  assert (Hd : 0 < d) by (unfold d; destruct m; cbn; lia).
  assert (Hpow : 0 < 2 ^ (e' - e)) by lia. unfold fexp in e'. split.
  - split; [apply Z.div_pos; lia|]. apply Z.div_lt_upper_bound; [lia|]. rewrite <- Z.pow_add_r by lia.
    eapply Z.lt_le_trans; [exact Hhi|]. apply Z.pow_le_mono_r; lia.
  - destruct (Z.max_spec (d + e - prec) (emin prec emax)) as [[_ Hx]|[Hge Hx]]; [left; exact Hx|right].
    apply Z.div_le_lower_bound; [lia|]. rewrite <- Z.pow_add_r by lia.
    replace (e' - e + (prec - 1)) with (d - 1) by lia. exact Hlo.
Qed.

Lemma binary_round_aux_canonical sx m e l : 0 <= m -> e <= fexp prec emax (Zdigits2 m + e) ->
  canonical (binary_round_aux prec emax sx m e l).
Proof.
  intros Hm He. unfold binary_round_aux.
  pose proof (shr_fexp_spec m e l ltac:(lia)) as [Hm1 He1]. rewrite Z.max_r in Hm1, He1 by lia.
  destruct (shr_fexp prec emax m e l) as [r1 e1]. cbn [fst snd] in Hm1, He1.
  pose proof (aligned_bounds m e Hm He) as [Hb Hc]. rewrite <- Hm1 in Hb, Hc.
  replace (e + _) with (fexp prec emax (Zdigits2 m + e)) in He1 by lia. rewrite <- He1 in Hc.
  assert (Hmin : emin prec emax <= e1) by (rewrite He1; unfold fexp; lia).
  set (m2 := round_nearest_even (shr_m r1) (loc_of_shr_record r1)).
  assert (Hm2 : m2 = shr_m r1 \/ m2 = shr_m r1 + 1) by apply round_near.
  pose proof (shr_fexp_spec m2 e1 loc_Exact ltac:(lia)) as [Hm3 He3].
  destruct (shr_fexp prec emax m2 e1 loc_Exact) as [r3 e3]. cbn [fst snd] in Hm3, He3.
  assert (Hfin : 0 <= shr_m r3 < 2 ^ prec /\ emin prec emax <= e3 /\
                 (e3 = emin prec emax \/ 2 ^ (prec - 1) <= shr_m r3)).
  { assert (Hcase : m2 < 2 ^ prec \/ m2 = 2 ^ prec) by lia. destruct Hcase as [Hlt|Heq].
    - pose proof (digits_le m2 prec ltac:(lia) ltac:(lia)) as Hd.
      rewrite (Z.max_l 0) in Hm3, He3 by (unfold fexp; lia). rewrite Z.div_1_r in Hm3. subst e3. rewrite Hm3. lia.
    - rewrite Heq, digits_pow in Hm3, He3 by lia. unfold fexp in Hm3, He3.
      replace (Z.max 0 _) with 1 in Hm3, He3 by lia.
      replace (2 ^ prec) with (2 ^ (prec - 1) * 2 ^ 1) in Hm3 by (rewrite <- Z.pow_add_r by lia; f_equal; lia).
      rewrite Z.div_mul in Hm3 by lia. rewrite Hm3.
      pose proof (Z.pow_lt_mono_r 2 (prec - 1) prec). lia. }
  destruct (shr_m r3) as [|p|p]; [exact I| |exact I].
  destruct (Z.leb_spec e3 (emax - prec)); [|exact I]. cbn [canonical]. lia.
Qed.

Lemma binary_round_canonical sx m e : canonical (binary_round prec emax sx m e).
Proof.
  unfold binary_round, shl_align. set (f := fexp prec emax (Zpos (digits2_pos m) + e)).
  destruct (f - e) as [|p|p] eqn:Ef; (apply binary_round_aux_canonical; [lia|]); cbn [Zdigits2].
  - fold f. lia.
  - fold f. lia.
  - rewrite digits2_iter. replace (Zpos (digits2_pos m) + Zpos p + f) with (Zpos (digits2_pos m) + e) by lia.
    fold f. lia.
Qed.

Lemma binary_normalize_canonical m e s : canonical (binary_normalize prec emax m e s).
Proof. destruct m; [exact I|apply binary_round_canonical|apply binary_round_canonical]. Qed.

Lemma SFadd_canonical x y : canonical x -> canonical y -> canonical (SFadd prec emax x y).
Proof.
  intros Hx Hy. destruct x as [[]|[]| |], y as [[]|[]| |]; cbn [SFadd]; try exact I; try assumption;
    apply binary_normalize_canonical.
Qed.

Lemma SFsub_canonical x y : canonical x -> canonical y -> canonical (SFsub prec emax x y).
Proof.
  intros Hx Hy. destruct x as [[]|[]| |], y as [[]|[]| |]; cbn [SFsub]; try exact I; try assumption;
    apply binary_normalize_canonical.
Qed.

Lemma digits_mono m k : 0 < m -> 2 ^ k <= m -> k + 1 <= Zdigits2 m.
Proof.
  intros Hm Hk. destruct (Z.le_gt_cases 0 k) as [Hk0|Hk0].
  - pose proof (digits_bounds m Hm) as [_ Hhi].
    assert (Hlt : 2 ^ k < 2 ^ Zdigits2 m) by lia. apply Z.pow_lt_mono_r_iff in Hlt; [lia|lia|]. destruct m; cbn; lia.
  - destruct m; cbn; lia.
Qed.

Hypothesis Hemin : emin prec emax <= 0.

Lemma SFmul_canonical x y : canonical x -> canonical y -> canonical (SFmul prec emax x y).
Proof.
  intros Hx Hy. destruct x as [[]|[]| |s1 m1 e1], y as [[]|[]| |s2 m2 e2]; cbn [SFmul]; try exact I.
  apply binary_round_aux_canonical; [lia|]. cbn [canonical] in Hx, Hy. unfold fexp.
  assert (Hpos : forall m, (1 <= Zpos m)) by lia. pose proof (Hpos m1). pose proof (Hpos m2).
  destruct Hx as (He1 & _ & Hx), Hy as (He2 & _ & Hy).
  assert (Hd : e1 = emin prec emax /\ e2 = emin prec emax \/ prec <= Zdigits2 (Zpos (m1 * m2))).
  { destruct Hx as [Hx|Hx]; [destruct Hy as [Hy|Hy]; [now left|]|]; right;
      (replace prec with (prec - 1 + 1) by lia; apply digits_mono; [lia|]); nia. }
  lia.
Qed.

Lemma SFdiv_canonical x y : canonical x -> canonical y -> canonical (SFdiv prec emax x y).
Proof.
  intros Hx Hy. destruct x as [[]|[]| |s1 m1 e1], y as [[]|[]| |s2 m2 e2]; cbn [SFdiv]; try exact I.
  unfold SFdiv_core_binary. cbn [Zdigits2].
  set (d1 := Zpos (digits2_pos m1)). set (d2 := Zpos (digits2_pos m2)).
  set (e' := Z.min (fexp prec emax (d1 + e1 - (d2 + e2))) (e1 - e2)). set (s := e1 - e2 - e').
  replace (match s with 0 => Zpos m1 | Zpos _ => Z.shiftl (Zpos m1) s | Zneg _ => 0 end) with (Zpos m1 * 2 ^ s).
  2: { rewrite <- Z.shiftl_mul_pow2 by lia. destruct s eqn:Es; [reflexivity|reflexivity|lia]. }
  pose proof (Z.div_mod (Zpos m1 * 2 ^ s) (Zpos m2) ltac:(lia)) as Hdm. unfold Z.div, Z.modulo in Hdm.
  pose proof (Z.mod_pos_bound (Zpos m1 * 2 ^ s) (Zpos m2) ltac:(lia)) as Hr. unfold Z.modulo in Hr.
  destruct (Z.div_eucl (Zpos m1 * 2 ^ s) (Zpos m2)) as [q r].
  pose proof (digits2_bounds m1) as [Hm1 _]. pose proof (digits2_bounds m2) as [_ Hm2]. fold d1 in Hm1. fold d2 in Hm2.
  assert (Hpow : 0 < 2 ^ s) by lia. assert (Hq0 : 0 <= q) by nia.
  assert (Hq : 2 ^ (d1 - 1 + s) < (q + 1) * 2 ^ d2).
  { rewrite Z.pow_add_r by lia. apply Z.le_lt_trans with (Zpos m1 * 2 ^ s); [apply Z.mul_le_mono_nonneg_r; lia|].
    apply Z.lt_le_trans with ((q + 1) * Zpos m2); [lia|apply Z.mul_le_mono_nonneg_l; lia]. }
  apply binary_round_aux_canonical; [exact Hq0|].
  assert (Hdq : d1 + s - d2 <= Zdigits2 q).
  { destruct (Z.le_gt_cases (d1 + s - d2) 0) as [Hle|Hgt]; [destruct q; cbn; lia|].
    assert (Hp : 2 ^ (d1 + s - d2 - 1) <= q).
    { replace (d1 - 1 + s) with (d1 + s - d2 - 1 + d2) in Hq by lia. rewrite Z.pow_add_r in Hq by lia. nia. }
    replace (d1 + s - d2) with (d1 + s - d2 - 1 + 1) by lia. apply digits_mono; lia. }
  unfold fexp in *. lia.
Qed.
End Format.
(** ** Patterns and values *)

(** The value of a pattern by its fields. *)
Lemma f32_fields (s : bool) E M : 0 <= E < 2 ^ 8 -> 0 <= M < 2 ^ 23 ->
  f32_of_bits ((if s then 2 ^ 31 else 0) + E * 2 ^ 23 + M) =
    if E =? 255 then (if M =? 0 then S754_infinity s else S754_nan)
    else match (if E =? 0 then M else M + 2 ^ 23) with
         | Zpos p => S754_finite s p ((if E =? 0 then 1 else E) - 150)
         | _ => S754_zero s
         end.
Proof.
  intros HE HM. set (b := (if s then 2 ^ 31 else 0) + E * 2 ^ 23 + M). unfold f32_of_bits.
  assert (Hs : Z.testbit b 31 = s).
  { rewrite Z.testbit_odd, Z.shiftr_div_pow2 by lia.
    destruct s; [replace (b / 2 ^ 31) with 1 by (unfold b; dlia)|rewrite Z.div_small by (unfold b; lia)]; reflexivity. }
  assert (HEE : Z.land (Z.shiftr b 23) 255 = E).
  { change 255 with (2 ^ 8 - 1). rewrite land_mask, Z.shiftr_div_pow2 by lia. unfold b. destruct s; dlia. }
  assert (HMM : Z.land b (2 ^ 23 - 1) = M) by (rewrite land_mask by lia; unfold b; destruct s; dlia).
  now rewrite Hs, HEE, HMM.
Qed.

Lemma bits_of_f32_inverse x : canonical 24 128 x -> in_u32 (bits_of_f32 x) /\ f32_of_bits (bits_of_f32 x) = x.
Proof.
  unfold in_u32. destruct x as [s|s| |s m e]; cbn [canonical bits_of_f32]; intros Hc.
  - split; [destruct s; lia|now destruct s].
  - split; [destruct s; lia|now destruct s].
  - split; [lia|reflexivity].
  - change (emin 24 128) with (-149) in Hc. change (128 - 24) with 104 in Hc. change (24 - 1) with 23 in Hc.
    destruct (Z.ltb_spec (Zpos m) (2 ^ 23)) as [Hm|Hm].
    + split; [destruct s; lia|]. pose proof (f32_fields s 0 (Zpos m) ltac:(lia) ltac:(lia)) as Hf.
      rewrite Z.mul_0_l, Z.add_0_r in Hf. rewrite Hf. cbn. f_equal. lia.
    + split; [destruct s; lia|]. rewrite Z.add_assoc, f32_fields by lia.
      rewrite (proj2 (Z.eqb_neq _ 255)), (proj2 (Z.eqb_neq _ 0)) by lia.
      replace (Zpos m - 2 ^ 23 + 2 ^ 23) with (Zpos m) by lia. f_equal. lia.
Qed.

Lemma f32_of_bits_canonical b : canonical 24 128 (f32_of_bits b).
Proof.
  unfold f32_of_bits. set (E := Z.land (Z.shiftr b 23) 255). set (M := Z.land b (2 ^ 23 - 1)).
  assert (HE : 0 <= E < 2 ^ 8) by (unfold E; change 255 with (2 ^ 8 - 1); rewrite land_mask by lia; apply Z.mod_pos_bound; lia).
  assert (HM : 0 <= M < 2 ^ 23) by (unfold M; rewrite land_mask by lia; apply Z.mod_pos_bound; lia).
  destruct (Z.eqb_spec E 255); [now destruct (M =? 0)|].
  destruct (Z.eqb_spec E 0) as [->|]; [destruct M eqn:EM|destruct (M + 2 ^ 23) eqn:EM]; try exact I; cbn [canonical];
    change (emin 24 128) with (-149); lia.
Qed.

Lemma sf_convert_canonical x : canonical 24 128 (sf_convert 24 128 x).
Proof. destruct x; try exact I. now apply binary_normalize_canonical. Qed.

(** ** The operations *)

Inductive float_op := FAdd | FSub | FMult | FDiv.
(** The correctly rounded operation of IEEE 754, and the operation on patterns. *)
Definition ieee_op (op : float_op) : spec_float -> spec_float -> spec_float :=
  match op with
  | FAdd => SFadd 24 128
  | FSub => SFsub 24 128
  | FMult => SFmul 24 128
  | FDiv => SFdiv 24 128
  end.
Definition f32_arith (op : float_op) : Z -> Z -> Z :=
  match op with
  | FAdd => f32_add
  | FSub => f32_sub
  | FMult => f32_mult
  | FDiv => f32_div
  end.

Lemma f32_arith_ieee op l r :
  in_u32 (f32_arith op l r) /\ f32_of_bits (f32_arith op l r) = ieee_op op (f32_of_bits l) (f32_of_bits r).
Proof.
  pose proof (f32_of_bits_canonical l) as Hl. pose proof (f32_of_bits_canonical r) as Hr.
  destruct op; apply bits_of_f32_inverse; cbn [ieee_op].
  - apply SFadd_canonical; [lia|exact Hl|exact Hr].
  - apply SFsub_canonical; [lia|exact Hl|exact Hr].
  - apply SFmul_canonical; [lia|vm_compute; congruence|exact Hl|exact Hr].
  - apply SFdiv_canonical; [lia|exact Hl|exact Hr].
Qed.

(** ** The order of floats *)

(** A pattern that is not a NaN, and its place in the order: sign and magnitude. *)
Definition f32_ok (b : Z) : bool := (b mod 2 ^ 31) <=? 255 * 2 ^ 23.
Definition f32_key (b : Z) : Z := if b <? 2 ^ 31 then b else 2 ^ 31 - b.

(** The value of a pattern with sign [s] and magnitude [mag]. *)
Definition decoded (s : bool) (mag : Z) (x : spec_float) : Prop :=
  (mag = 0 /\ x = S754_zero s) \/ (mag = 255 * 2 ^ 23 /\ x = S754_infinity s) \/
  (exists m e, x = S754_finite s m e /\ 0 < mag < 255 * 2 ^ 23 /\ mag = Zpos m + (e + 149) * 2 ^ 23 /\
     -149 <= e /\ Zpos m < 2 ^ 24 /\ (e = -149 \/ 2 ^ 23 <= Zpos m)).

Lemma f32_decoded b : in_u32 b -> f32_ok b = true -> decoded (2 ^ 31 <=? b) (b mod 2 ^ 31) (f32_of_bits b).
Proof.
  unfold in_u32, f32_ok. intros Hb Hok. apply Z.leb_le in Hok. unfold f32_of_bits, decoded.
  assert (Hs : Z.testbit b 31 = (2 ^ 31 <=? b)).
  { rewrite Z.testbit_odd, Z.shiftr_div_pow2 by lia.
    destruct (Z.leb_spec (2 ^ 31) b); [replace (b / 2 ^ 31) with 1 by dlia|rewrite Z.div_small by lia]; reflexivity. }
  assert (HEE : Z.land (Z.shiftr b 23) 255 = (b / 2 ^ 23) mod 2 ^ 8).
  { change 255 with (2 ^ 8 - 1). rewrite land_mask, Z.shiftr_div_pow2 by lia. reflexivity. }
  rewrite Hs, HEE, land_mask by lia.
  set (E := (b / 2 ^ 23) mod 2 ^ 8). set (M := b mod 2 ^ 23).
  assert (HE : 0 <= E < 2 ^ 8) by (apply Z.mod_pos_bound; lia).
  assert (HM : 0 <= M < 2 ^ 23) by (apply Z.mod_pos_bound; lia).
  assert (Hmag : b mod 2 ^ 31 = E * 2 ^ 23 + M) by (unfold E, M; dlia).
  rewrite Hmag in *. destruct (Z.eqb_spec E 255) as [->|Hn].
  - assert (M = 0) as -> by lia. cbn [Z.eqb]. right. left. split; [lia|reflexivity].
  - destruct (Z.eqb_spec E 0) as [->|Hn0].
    + destruct M as [|p|p] eqn:EM; [left; split; [lia|reflexivity]| |lia].
      right. right. exists p, (-149). split; [reflexivity|]. lia.
    + destruct (M + 2 ^ 23) as [|p|p] eqn:EM; [lia| |lia].
      right. right. exists p, (E - 150). split; [reflexivity|]. lia.
Qed.

Definition signed (s : bool) (mag : Z) : Z := if s then - mag else mag.

Lemma pcompare_spec (m1 m2 : positive) : Pos.compare_cont Eq m1 m2 = (Zpos m1 ?= Zpos m2).
Proof. reflexivity. Qed.

(** Comparing values is comparing signed magnitudes. *)
Lemma SFcompare_signed s1 mag1 x s2 mag2 y : decoded s1 mag1 x -> decoded s2 mag2 y ->
  SFcompare x y = Some (signed s1 mag1 ?= signed s2 mag2).
Proof.
  intros Hx Hy.
  assert (Hlex : forall m1 e1 m2 e2, mag1 = Zpos m1 + (e1 + 149) * 2 ^ 23 -> -149 <= e1 -> Zpos m1 < 2 ^ 24 ->
    (e1 = -149 \/ 2 ^ 23 <= Zpos m1) -> mag2 = Zpos m2 + (e2 + 149) * 2 ^ 23 -> -149 <= e2 -> Zpos m2 < 2 ^ 24 ->
    (e2 = -149 \/ 2 ^ 23 <= Zpos m2) ->
    (e1 ?= e2) = Lt /\ mag1 < mag2 \/ (e1 ?= e2) = Gt /\ mag2 < mag1 \/
    (e1 ?= e2) = Eq /\ (mag1 ?= mag2) = (Zpos m1 ?= Zpos m2)).
  { intros. destruct (Z.compare_spec e1 e2) as [E|E|E]; [right; right|left|right; left]; split; try reflexivity; try lia.
    destruct (Z.compare_spec (Zpos m1) (Zpos m2)); [apply Z.compare_eq_iff|apply Z.compare_lt_iff|apply Z.compare_gt_iff]; lia. }
  destruct Hx as [[-> ->]|[[-> ->]|(m1 & e1 & -> & H1 & H2 & H3 & H4 & H5)]];
    destruct Hy as [[-> ->]|[[-> ->]|(m2 & e2 & -> & K1 & K2 & K3 & K4 & K5)]];
    destruct s1, s2; cbn [SFcompare signed]; f_equal; symmetry;
    try (apply Z.compare_eq_iff; lia); try (apply Z.compare_lt_iff; lia); try (apply Z.compare_gt_iff; lia).
  all: rewrite ?Z.compare_opp; destruct (Hlex m1 e1 m2 e2) as [[Hc H]|[[Hc H]|[Hc H]]]; try assumption; rewrite Hc.
  all: first [ apply Z.compare_gt_iff; exact H | apply Z.compare_lt_iff; exact H | rewrite pcompare_spec, <- H ].
  - now rewrite Z.compare_antisym.
  - reflexivity.
Qed.

(** The comparison of the privacy zone orders all floats but the NaNs; the two zeros are
    equal. *)
Lemma float_three_way_key l r : in_u32 l -> in_u32 r -> f32_ok l = true -> f32_ok r = true ->
  float_three_way l r = three_way (f32_key l) (f32_key r).
Proof.
  intros Hl Hr Hol Hor. unfold float_three_way, f32_gt, f32_lt, SFltb.
  rewrite (SFcompare_signed _ _ _ _ _ _ (f32_decoded r Hr Hor) (f32_decoded l Hl Hol)).
  rewrite (SFcompare_signed _ _ _ _ _ _ (f32_decoded l Hl Hol) (f32_decoded r Hr Hor)).
  assert (Hk : forall b, in_u32 b -> signed (2 ^ 31 <=? b) (b mod 2 ^ 31) = f32_key b).
  { unfold in_u32, signed, f32_key. intros b Hb. destruct (Z.leb_spec (2 ^ 31) b), (Z.ltb_spec b (2 ^ 31)); dlia. }
  rewrite !Hk by assumption. unfold three_way.
  rewrite (Z.compare_antisym (f32_key l) (f32_key r)).
  destruct (Z.compare_spec (f32_key l) (f32_key r)) as [E|E|E]; cbn [CompOpp];
    destruct (Z.ltb_spec (f32_key r) (f32_key l)), (Z.ltb_spec (f32_key l) (f32_key r)); try lia; reflexivity.
Qed.
