(* ===== verification/Crypto.v ===== *)
(** Encryption of the values that cross the zone boundary: src/privacy_zone/crypto.cpp, with
    the layouts of src/include/enc_types.h.

    AES-GCM itself is Mbed TLS and a parameter; the counter that supplies the nonces, the
    framing of a ciphertext and the checks are modelled. *)
From S2P Require Import Prelude.

Definition KEY_SIZE : Z := 32.
Definition IV_SIZE : Z := 12.
Definition TAG_SIZE : Z := 16.
Definition STRING_LENGTH : Z := 540.

Definition enc_key : bytes :=
  replicate 8 0x34 ++ replicate 8 0x12 ++ replicate 8 0x34 ++ replicate 8 0x12.

(** The loop from the last byte to the first: a byte is touched while every byte behind it
    was 0xFF. *)
Fixpoint increment_from (iv : bytes) : bytes * bool :=
  match iv with
  | [] => ([], true)
  | b :: rest =>
      let '(rest', carry) := increment_from rest in
      if carry then (if b =? 255 then (0 :: rest', true) else (b + 1 :: rest', false))
      else (b :: rest', false)
  end.
Definition increment (iv : bytes) : bytes := fst (increment_from iv).

(** An encrypted value of [enc_types.h] and a plain string. *)
Record EncData : Type := mkEnc {
  enc_iv : bytes;
  enc_tag : bytes;
  enc_data : bytes;
}.
Definition enc_bytes (e : EncData) : bytes := enc_iv e ++ enc_tag e ++ enc_data e.

Record EncStr : Type := mkEncStr {
  estr_len : Z;
  estr_enc : bytes;
}.
Record Str : Type := mkStr {
  str_len : Z;
  str_data : bytes;
}.
Definition ENCSTRLEN (len : Z) : Z := 4 + IV_SIZE + TAG_SIZE + len.

Section Gcm.
(** [mbedtls_gcm_crypt_and_tag] in encryption mode: result code, ciphertext and tag for a
    key, a nonce and a message; [mbedtls_gcm_auth_decrypt]: result code and message. *)
Context (mbedtls_gcm_crypt_and_tag : bytes -> bytes -> bytes -> Z * (bytes * bytes)).
Context (mbedtls_gcm_auth_decrypt : bytes -> bytes -> bytes -> bytes -> Z * bytes).

(** The state is the thread's nonce. The result: code, the bytes written to [out], [*out_sz]. *)
Definition gcm_encrypt (input : bytes) : M bytes (Z * bytes * Z) :=
  do* modifyM increment in
  let* iv := getM in
  let '(r, (data, tag)) := mbedtls_gcm_crypt_and_tag enc_key iv input in
  retM (r, iv ++ tag ++ data, u64 (Z.of_nat (length input) + IV_SIZE + TAG_SIZE)).

Definition gcm_decrypt (input : bytes) : Z * bytes * Z :=
  let iv := take 12 input in
  let tag := take 16 (drop 12 input) in
  let data_sz := u32 (Z.of_nat (length input) - IV_SIZE - TAG_SIZE) in
  let data := take (Z.to_nat data_sz) (drop 28 input) in
  let '(r, out) := mbedtls_gcm_auth_decrypt enc_key iv tag data in
  (r, out, data_sz).

Definition encrypt_bytes (src : bytes) (exp_dst_len : Z) : M bytes (Z * bytes) :=
  let* '(resp, dst, dst_len) := gcm_encrypt src in
  do* checkM ((dst_len =? exp_dst_len) && (resp =? 0)) in
  retM (resp, dst).

Definition decrypt_bytes (src : bytes) (exp_dst_len : Z) : M bytes (Z * bytes) :=
  do* checkM (IV_SIZE + TAG_SIZE <=? Z.of_nat (length src)) in
  let '(resp, dst, dst_len) := gcm_decrypt src in
  do* checkM ((dst_len =? exp_dst_len) && (resp =? 0)) in
  retM (resp, dst).

(** [randombytes] and [gcm_init]: the codes of seeding, drawing and setting the key are printed
    and otherwise ignored; [out] is what the generator left in the buffer. *)
Definition randombytes (seed random : Z) (out : bytes) : M bytes unit := putM out.
Definition gcm_init (seed random setkey : Z) (out : bytes) : M bytes unit := randombytes seed random out.

(** Documented behaviour of the library: a successful encryption writes as many bytes as the
    message has and a 16-byte tag; decryption with the same key, nonce and tag returns the
    message. *)
Record gcm_documented : Prop := {
  gcm_sizes : forall key iv m c t,
    mbedtls_gcm_crypt_and_tag key iv m = (0, (c, t)) ->
    length c = length m /\ length t = 16%nat;
  gcm_inverse : forall key iv m c t,
    mbedtls_gcm_crypt_and_tag key iv m = (0, (c, t)) ->
    mbedtls_gcm_auth_decrypt key iv t c = (0, m);
}.

End Gcm.

(** ** The nonce counter *)

Fixpoint be_val (l : bytes) : Z :=
  match l with
  | [] => 0
  | b :: l' => b * 256 ^ Z.of_nat (length l') + be_val l'
  end.

Lemma be_val_range l : wf_bytes l -> 0 <= be_val l < 256 ^ Z.of_nat (length l).
Proof.
  induction 1 as [|b l Hb _ IH]; cbn [be_val length]; [lia|].
  rewrite Nat2Z.inj_succ, Z.pow_succ_r by lia. unfold in_u8 in Hb. nia.
Qed.

Lemma be_val_inj l l' :
  wf_bytes l -> wf_bytes l' -> length l = length l' -> be_val l = be_val l' -> l = l'.
Proof.
  intros H. revert l'. induction H as [|b l Hb Hl IH]; intros l' H' Hlen Hv.
  - now destruct l'.
  - destruct l' as [|b' l']; [discriminate|]. inversion H' as [|? ? Hb' Hl']; subst.
    injection Hlen as Hlen. cbn [be_val] in Hv. rewrite Hlen in Hv.
    pose proof (be_val_range l Hl) as R. pose proof (be_val_range l' Hl') as R'. rewrite Hlen in R.
    unfold in_u8 in *. assert (b = b') as -> by nia. f_equal. apply IH; auto. lia.
Qed.

Lemma increment_from_spec l :
  wf_bytes l ->
  let '(l', carry) := increment_from l in
  wf_bytes l' /\ length l' = length l /\
  be_val l' + (if carry then 256 ^ Z.of_nat (length l) else 0) = be_val l + 1.
Proof.
  induction 1 as [|b l Hb Hl IH]; cbn [increment_from be_val length]; [repeat constructor|].
  destruct (increment_from l) as [l' carry]. destruct IH as (Hw & Hlen & Hv). unfold in_u8 in Hb.
  destruct carry; [destruct (Z.eqb_spec b 255)|]; cbn [be_val length]; rewrite Hlen;
    (split; [constructor; [unfold in_u8; lia|exact Hw]|split; [reflexivity|]]);
    rewrite ?Nat2Z.inj_succ, ?Z.pow_succ_r by lia; subst; nia.
Qed.

(** Incrementing adds one to the big-endian number, modulo its size. *)
Lemma increment_spec iv :
  wf_bytes iv ->
  wf_bytes (increment iv) /\ length (increment iv) = length iv /\
  be_val (increment iv) = (be_val iv + 1) mod 256 ^ Z.of_nat (length iv).
Proof.
  intros H. pose proof (increment_from_spec iv H) as Hs. unfold increment.
  destruct (increment_from iv) as [l' carry]. destruct Hs as (Hw & Hlen & Hv).
  split; [exact Hw|]. split; [exact Hlen|]. cbn [fst].
  pose proof (be_val_range l' Hw) as R. rewrite Hlen in R.
  set (m := 256 ^ Z.of_nat (length iv)) in *. destruct carry.
  - replace (be_val iv + 1) with (be_val l' + 1 * m) by lia. now rewrite Z.mod_add, Z.mod_small by lia.
  - replace (be_val iv + 1) with (be_val l') by lia. now rewrite Z.mod_small by lia.
Qed.

(** The nonce after [n] increments. *)
Lemma increment_iter n iv :
  wf_bytes iv ->
  wf_bytes (Nat.iter n increment iv) /\ length (Nat.iter n increment iv) = length iv /\
  be_val (Nat.iter n increment iv) = (be_val iv + Z.of_nat n) mod 256 ^ Z.of_nat (length iv).
Proof.
  intros H. induction n as [|n (Hw & Hl & Hv)]; simpl.
  - rewrite Z.add_0_r, Z.mod_small by now apply be_val_range. auto.
  - destruct (increment_spec _ Hw) as (Hw' & Hl' & Hv'). rewrite Hl in *.
    split; [exact Hw'|]. split; [exact Hl'|]. rewrite Hv', Hv, Z.add_mod_idemp_l by lia.
    f_equal. lia.
Qed.

Section Properties.
Context (crypt_and_tag : bytes -> bytes -> bytes -> Z * (bytes * bytes)).
Context (auth_decrypt : bytes -> bytes -> bytes -> bytes -> Z * bytes).

Abbreviation encrypt := (encrypt_bytes crypt_and_tag).
Abbreviation decrypt := (decrypt_bytes auth_decrypt).

(** Encrypt messages one after the other. *)
Definition encrypt_all (msgs : list bytes) : M bytes (list bytes) :=
  forM msgs (fun m => let* '(_, c) := encrypt m (Z.of_nat (length m) + 28) in retM c).

(** The nonces a run of encryptions uses are the successive increments. *)
Lemma encrypt_all_nonces msgs iv cs iv' :
  wf_bytes iv -> length iv = 12%nat -> encrypt_all msgs iv = (Ok cs, iv') ->
  take 12 <$> cs = (fun i => Nat.iter (S i) increment iv) <$> seq 0 (length msgs).
Proof.
  unfold encrypt_all. revert iv cs. induction msgs as [|m msgs IH]; intros iv cs Hw Hl Hrun;
    cbn [forM] in Hrun.
  - unfold retM in Hrun. now simplify_eq.
  - apply bindM_ok in Hrun as (c & iv1 & Hc & Hrun). apply bindM_ok in Hrun as (cs' & iv2 & Hr & Hrun).
    unfold retM in Hrun. simplify_eq. destruct (increment_spec iv Hw) as (Hw1 & Hl1 & _).
    assert (iv1 = increment iv /\ take 12 c = increment iv) as [-> Htake].
    { unfold encrypt_bytes, gcm_encrypt, bindM, modifyM, getM in Hc.
      destruct (crypt_and_tag enc_key (increment iv) m) as [r [d t]]. unfold retM, checkM in Hc.
      destruct (_ && _) in Hc; cbn in Hc; simplify_eq. split; [reflexivity|].
      rewrite take_app_le by lia. apply take_ge. lia. }
    rewrite fmap_cons, Htake. cbn [length seq]. rewrite fmap_cons. f_equal.
    rewrite (IH _ _ Hw1 ltac:(lia) Hr), <- fmap_S_seq, <- list_fmap_compose.
    apply list_fmap_ext. intros i x _. unfold compose. now rewrite <- Nat.iter_succ_r.
Qed.

(** C27: no nonce is used twice: in a run of fewer than 2^96 encryptions of a worker the first
    12 bytes of the ciphertexts, which are the nonces, are pairwise different. *)
Theorem encryptions_use_distinct_nonces (msgs : list bytes) (iv : bytes) (cs : list bytes) (iv' : bytes) :
  wf_bytes iv -> length iv = 12%nat -> Z.of_nat (length msgs) < 2 ^ 96 ->
  encrypt_all msgs iv = (Ok cs, iv') -> NoDup (take 12 <$> cs).
Proof.
  intros Hw Hl Hlen Hrun. rewrite (encrypt_all_nonces msgs iv cs iv' Hw Hl Hrun).
  apply NoDup_fmap_2_strong; [|apply NoDup_seq]. intros i j Hi Hj E.
  apply elem_of_seq in Hi, Hj. apply (f_equal be_val) in E.
  rewrite !(proj2 (proj2 (increment_iter _ iv Hw))), Hl in E.
  change (256 ^ Z.of_nat 12) with (2 ^ 96) in E.
  apply (f_equal (fun x => (x - be_val iv) mod 2 ^ 96)) in E. rewrite !Zminus_mod_idemp_l in E.
  replace (be_val iv + Z.of_nat (S i) - be_val iv) with (Z.of_nat (S i)) in E by lia.
  replace (be_val iv + Z.of_nat (S j) - be_val iv) with (Z.of_nat (S j)) in E by lia.
  rewrite !Z.mod_small in E by lia. lia.
Qed.

(** Two workers whose nonce starts at the same bytes, as when drawing fails in both and leaves
    the buffer as it was, use the same nonces under the one key, message by message. *)
Theorem failed_entropy_repeats_nonces seed random setkey seed' random' setkey' out iv iv' (msgs msgs' cs cs' : list bytes) e e' :
  wf_bytes out -> length out = 12%nat -> length msgs = length msgs' ->
  (do* gcm_init seed random setkey out in encrypt_all msgs) iv = (Ok cs, e) ->
  (do* gcm_init seed' random' setkey' out in encrypt_all msgs') iv' = (Ok cs', e') ->
  take 12 <$> cs = take 12 <$> cs'.
Proof.
  intros Hw Hl Hn Hr Hr'. unfold gcm_init, randombytes, bindM, putM in Hr, Hr'.
  now rewrite (encrypt_all_nonces _ _ _ _ Hw Hl Hr), (encrypt_all_nonces _ _ _ _ Hw Hl Hr'), Hn.
Qed.

Lemma encrypt_run m iv r d t :
  Z.of_nat (length m) < 2 ^ 32 -> crypt_and_tag enc_key (increment iv) m = (r, (d, t)) ->
  encrypt m (Z.of_nat (length m) + 28) iv =
    if r =? 0 then (Ok (0, increment iv ++ t ++ d), increment iv) else (Err Fatal, increment iv).
Proof.
  intros Hlen Hc. unfold encrypt_bytes, gcm_encrypt, bindM, modifyM, getM. rewrite Hc. unfold retM, checkM.
  rewrite u64_small by (unfold in_u64, IV_SIZE, TAG_SIZE; lia).
  replace (_ =? _) with true by (symmetry; apply Z.eqb_eq; unfold IV_SIZE, TAG_SIZE; lia).
  cbn [andb]. destruct (Z.eqb_spec r 0) as [->|]; reflexivity.
Qed.

(** A ciphertext is taken apart where it was put together. *)
Lemma decrypt_framed iv t d m st :
  length iv = 12%nat -> length t = 16%nat -> Z.of_nat (length d) < 2 ^ 32 ->
  auth_decrypt enc_key iv t d = (0, m) ->
  decrypt (iv ++ t ++ d) (Z.of_nat (length d)) st = (Ok (0, m), st).
Proof.
  intros Hl Ht Hd Hm. unfold decrypt_bytes, gcm_decrypt, bindM, checkM. rewrite !length_app, Hl, Ht.
  replace (IV_SIZE + TAG_SIZE <=? _) with true by (symmetry; apply Z.leb_le; unfold IV_SIZE, TAG_SIZE; lia).
  replace (Z.of_nat (12 + (16 + length d)) - IV_SIZE - TAG_SIZE) with (Z.of_nat (length d))
    by (unfold IV_SIZE, TAG_SIZE; lia).
  rewrite u32_small, Nat2Z.id by (unfold in_u32; lia).
  rewrite (take_app_length' iv), (drop_app_length' iv) by lia. rewrite (take_app_length' t) by lia.
  replace (drop 28 (iv ++ t ++ d)) with d
    by (rewrite app_assoc, drop_app_length' by (rewrite length_app; lia); reflexivity).
  rewrite (take_ge d) by lia. rewrite Hm, Z.eqb_refl. reflexivity.
Qed.

(** C28: what a worker encrypts it can decrypt, with any later nonce state: the ciphertext has
    the nonce and the tag in front and 28 bytes more than the message, both length checks
    pass, and decryption returns the message. A failing library call is a fatal error. *)
Theorem encrypt_decrypt_roundtrip (m : bytes) (iv iv2 : bytes) (r : Z) (d t : bytes) :
  gcm_documented crypt_and_tag auth_decrypt -> wf_bytes iv -> length iv = 12%nat ->
  Z.of_nat (length m) < 2 ^ 32 -> crypt_and_tag enc_key (increment iv) m = (r, (d, t)) ->
  if r =? 0
  then exists c, encrypt m (Z.of_nat (length m) + 28) iv = (Ok (0, c), increment iv) /\
         length c = (length m + 28)%nat /\
         decrypt c (Z.of_nat (length m)) iv2 = (Ok (0, m), iv2)
  else encrypt m (Z.of_nat (length m) + 28) iv = (Err Fatal, increment iv).
Proof.
  intros [Hsizes Hinv] Hw Hl Hlen Hc. destruct (increment_spec iv Hw) as (_ & Hl1 & _).
  rewrite (encrypt_run m iv r d t Hlen Hc).
  destruct (Z.eqb_spec r 0) as [->|]; [|reflexivity].
  destruct (Hsizes _ _ _ _ _ Hc) as [Hd Ht]. exists (increment iv ++ t ++ d).
  split; [reflexivity|]. split; [rewrite !length_app; lia|]. rewrite <- Hd.
  apply decrypt_framed; [lia|exact Ht|lia|]. now apply Hinv.
Qed.

End Properties.

(** A cipher that satisfies the documented behaviour: it adds nothing to the message. *)
Definition null_crypt (key iv m : bytes) : Z * (bytes * bytes) := (0, (m, replicate 16 0)).
Definition null_decrypt (key iv tag c : bytes) : Z * bytes := (0, c).

Lemma null_documented : gcm_documented null_crypt null_decrypt.
Proof.
  split; unfold null_crypt, null_decrypt; intros; simplify_eq; [|reflexivity].
  split; [reflexivity|]. apply length_replicate.
Qed.

Lemma wf_replicate n b : in_u8 b -> wf_bytes (replicate n b).
Proof. intros H. induction n; simpl; constructor; auto. Qed.

Lemma encryptions_use_distinct_nonces_witness :
  exists cs iv', encrypt_all null_crypt [[1]; [2]; [1]] (replicate 12 255) = (Ok cs, iv') /\
    NoDup (take 12 <$> cs).
Proof.
  eexists _, _. split; [reflexivity|].
  eapply (encryptions_use_distinct_nonces null_crypt [[1]; [2]; [1]] (replicate 12 255)).
  - apply wf_replicate. unfold in_u8. lia.
  - reflexivity.
  - reflexivity.
  - reflexivity.
Defined.

Lemma encrypt_decrypt_roundtrip_witness :
  exists c, encrypt_bytes null_crypt [65; 66] 30 (replicate 12 0) = (Ok (0, c), increment (replicate 12 0)) /\
    length c = 30%nat /\
    decrypt_bytes null_decrypt c 2 (replicate 12 9) = (Ok (0, [65; 66]), replicate 12 9).
Proof.
  apply (encrypt_decrypt_roundtrip null_crypt null_decrypt [65; 66] (replicate 12 0) (replicate 12 9) 0
           [65; 66] (replicate 16 0) null_documented).
  - apply wf_replicate. unfold in_u8. lia.
  - reflexivity.
  - reflexivity.
  - reflexivity.
Defined.
