(* ===== verification/TextStore.v ===== *)
(** The [char *] specialisations of the local value stores in
    src/privacy_zone/include/kv-local.hpp: the reusable store of the default build, and the
    append-only and ring stores of the other builds, each with [USE_VARLEN_STRING] and with
    rows of [STRING_LENGTH] bytes; and the mapped text store of file-map-operator.hpp with such
    rows. A [const char *] is the memory from the pointer on. *)
From S2P Require Import Prelude Rid LocalStore FileMap Crypto.

(** ** Strings *)

(** [std::string(value)]. *)
Definition std_string (p : bytes) : res bytes :=
  if existsb (Z.eqb 0) p then Ok (until_zero p) else Err Undefined.
(** [std::string(value, strnlen(value, STRING_LENGTH))]. *)
Definition std_string_n (p : bytes) : res bytes :=
  let q := take (Z.to_nat STRING_LENGTH) p in
  if existsb (Z.eqb 0) q || (STRING_LENGTH <=? Z.of_nat (length p)) then Ok (until_zero q) else Err Undefined.

Lemma existsb_zero_app v rest : existsb (Z.eqb 0) (v ++ 0 :: rest) = true.
Proof. rewrite existsb_app. cbn. apply orb_true_r. Qed.

Lemma std_string_cstr v rest : cstr v -> std_string (v ++ 0 :: rest) = Ok v.
Proof. intros Hv. unfold std_string. now rewrite existsb_zero_app, until_zero_cstr. Qed.

Lemma std_string_n_cstr v rest : cstr v -> std_string_n (v ++ 0 :: rest) = Ok (take (Z.to_nat STRING_LENGTH) v).
Proof.
  intros Hv. unfold std_string_n. destruct (decide (length v < Z.to_nat STRING_LENGTH)%nat) as [Hl|Hl].
  - rewrite take_app_ge by lia. replace (Z.to_nat STRING_LENGTH - length v)%nat with
      (S (Z.to_nat STRING_LENGTH - length v - 1)) by lia.
    cbn [take]. rewrite existsb_zero_app. cbn [orb]. now rewrite until_zero_cstr, take_ge by (exact Hv || lia).
  - rewrite take_app_le by lia. rewrite length_app. cbn [length].
    rewrite (proj2 (Z.leb_le STRING_LENGTH _)) by lia. rewrite orb_true_r. rewrite until_zero_id; [reflexivity|].
    now apply Forall_take.
Qed.

(** ** The reusable store *)

Definition rs_text_put (value : bytes) : M (rstore bytes) RID := let* s := ofRes (std_string value) in rs_put s.
Definition rs_text_get (key : RID) : M (rstore bytes) bytes := rs_get key.
Definition rs_text_replace (key : RID) (value : bytes) : M (rstore bytes) unit :=
  let* s := ofRes (std_string value) in rs_replace [] key s.
Definition rs_text_erase (key : RID) : M (rstore bytes) unit := rs_erase [] key.
Definition rs_text_clear : M (rstore bytes) unit := rs_clear.

(** ** The append-only store, with strings of any length and with a limit *)

Definition as_text_put (value : bytes) : M (list bytes) RID := let* s := ofRes (std_string value) in as_put s.
Definition as_text_get (key : RID) : M (list bytes) bytes := as_get key.
Definition as_text_replace (key : RID) (value : bytes) : M (list bytes) unit :=
  let* s := ofRes (std_string value) in as_replace [] key s.
Definition as_text_clear : M (list bytes) unit := as_clear.

Definition as_fixed_put (value : bytes) : M (list bytes) RID := let* s := ofRes (std_string_n value) in as_put s.
Definition as_fixed_get (key : RID) : M (list bytes) bytes := as_get key.
Definition as_fixed_replace (key : RID) (value : bytes) : M (list bytes) unit :=
  let* s := ofRes (std_string_n value) in as_replace [] key s.
Definition as_fixed_clear : M (list bytes) unit := as_clear.

(** ** The ring with strings of any length: a vector that grows as it is filled *)

Definition VARLEN_RING_ELE_NUM : Z := 10 * 1024 * 1024 / STRING_LENGTH.

Definition grown (store : list bytes) (key : RID) : list bytes :=
  if vsize store <=? key then resize (Z.to_nat (key + 1)) [] store else store.
Definition vring_put (value : bytes) : M (ring bytes) RID :=
  let* s := getM in
  let key := rg_cur s in
  let cur := key + 1 in
  let store := grown (rg_store s) key in
  let* v := ofRes (std_string value) in
  do* definedM (vin store key) in
  do* putM (mkRing (if VARLEN_RING_ELE_NUM <=? cur then 0 else cur) (vupdate store key v)) in
  retM key.
Definition vring_get (key : RID) : M (ring bytes) bytes := ring_get key.
Definition vring_replace (key : RID) (value : bytes) : M (ring bytes) unit :=
  let* s := getM in
  let store := grown (rg_store s) key in
  let* v := ofRes (std_string value) in
  do* definedM (vin store key) in
  putM (mkRing (rg_cur s) (vupdate store key v)).

(** ** The ring of rows *)

Definition FIXED_RING_ELE_NUM : Z := 10 * 1024 / STRING_LENGTH.

(** [memcpy(store[key], value, STRING_LENGTH)]. *)
Definition row_of (value : bytes) : M (ring bytes) bytes :=
  do* definedM (STRING_LENGTH <=? Z.of_nat (length value)) in retM (take (Z.to_nat STRING_LENGTH) value).
Definition fring_put (value : bytes) : M (ring bytes) RID := let* row := row_of value in ring_put FIXED_RING_ELE_NUM row.
(** The pointer returned is read as a C string; the rows lie one behind the other. *)
Definition fring_get (key : RID) : M (ring bytes) bytes :=
  let* s := getM in
  do* definedM (vin (rg_store s) key) in
  ofRes (std_string (concat (drop (Z.to_nat key) (rg_store s)))).
Definition fring_replace (key : RID) (value : bytes) : M (ring bytes) unit :=
  let* row := row_of value in ring_replace key row.

(** ** Reading back *)

Lemma ofRes_ok {S A} (a : A) (s : S) : ofRes (Ok a) s = (Ok a, s).
Proof. reflexivity. Qed.

(** The vector of the growing ring is the array of the generic ring without its unused end. *)
Definition padded (s : ring bytes) : ring bytes :=
  mkRing (rg_cur s) (resize (Z.to_nat VARLEN_RING_ELE_NUM) [] (rg_store s)).
Definition vring_ok (s : ring bytes) : Prop :=
  0 <= rg_cur s < VARLEN_RING_ELE_NUM /\ vsize (rg_store s) <= VARLEN_RING_ELE_NUM.

Lemma length_grown l k : 0 <= k -> vsize (grown l k) = Z.max (vsize l) (k + 1).
Proof. intros Hk. unfold grown, vsize. destruct (Z.leb_spec (Z.of_nat (length l)) k); rewrite ?length_resize; lia. Qed.

Lemma padded_update l k (v : bytes) n : 0 <= k < Z.of_nat n -> (length l <= n)%nat ->
  resize n [] (vupdate (grown l k) k v) = vupdate (resize n [] l) k v.
Proof.
  intros Hk Hl. unfold vupdate, grown, vsize. apply list_eq. intros i.
  destruct (decide (i < n)%nat) as [Hi|Hi].
  2: { rewrite !lookup_ge_None_2; [reflexivity|rewrite length_insert, length_resize; lia|rewrite length_resize; lia]. }
  destruct (decide (i = Z.to_nat k)) as [->|Hne].
  - rewrite list_lookup_insert_eq by (rewrite length_resize; lia).
    rewrite lookup_resize; [apply list_lookup_insert_eq|lia|rewrite length_insert];
      destruct (Z.leb_spec (Z.of_nat (length l)) k); rewrite ?length_resize; lia.
  - rewrite list_lookup_insert_ne by congruence.
    destruct (Z.leb_spec (Z.of_nat (length l)) k) as [Hle|Hgt].
    + destruct (decide (i < length l)%nat) as [Hil|Hil].
      * rewrite !lookup_resize; rewrite ?length_insert, ?length_resize; try lia.
        rewrite list_lookup_insert_ne by congruence. rewrite lookup_resize by lia. reflexivity.
      * rewrite (lookup_resize_new l) by lia. destruct (decide (i < Z.to_nat (k + 1))%nat) as [Hik|Hik].
        -- rewrite lookup_resize by (rewrite ?length_insert, ?length_resize; lia).
           rewrite list_lookup_insert_ne by congruence. now rewrite lookup_resize_new by lia.
        -- apply lookup_resize_new; rewrite ?length_insert, ?length_resize; lia.
    + destruct (decide (i < length l)%nat) as [Hil|Hil].
      * rewrite !lookup_resize; rewrite ?length_insert; try lia. now rewrite list_lookup_insert_ne by congruence.
      * rewrite !lookup_resize_new; rewrite ?length_insert; try lia. reflexivity.
Qed.

Lemma vring_put_run s v rest : vring_ok s -> cstr v ->
  let s' := mkRing ((rg_cur s + 1) mod VARLEN_RING_ELE_NUM) (vupdate (grown (rg_store s) (rg_cur s)) (rg_cur s) v) in
  vring_put (v ++ 0 :: rest) s = (Ok (rg_cur s), s') /\ vring_ok s'.
Proof.
  intros [Hc Hsz] Hv s'. unfold vring_put, bindM at 1, getM. cbv iota beta.
  rewrite std_string_cstr by exact Hv. rewrite (bindM_run _ _ _ _ _ (ofRes_ok v s)).
  rewrite (bindM_run _ _ s s tt) by (apply definedM_true, vin_spec; rewrite length_grown; lia).
  split.
  - unfold bindM, putM, retM, s'. do 2 f_equal. f_equal. destruct (Z.leb_spec VARLEN_RING_ELE_NUM (rg_cur s + 1)).
    + replace (rg_cur s + 1) with VARLEN_RING_ELE_NUM by lia. now rewrite Z.mod_same by lia.
    + now rewrite Z.mod_small by lia.
  - split; cbn [s' rg_cur rg_store]; [apply Z.mod_pos_bound; lia|]. rewrite vsize_update, length_grown by lia. lia.
Qed.

(** Putting a string into the growing ring is putting it into the ring of fixed size. *)
Lemma vring_put_sim s v rest : vring_ok s -> cstr v ->
  exists s', vring_put (v ++ 0 :: rest) s = (Ok (rg_cur s), s') /\ vring_ok s' /\
    ring_put VARLEN_RING_ELE_NUM v (padded s) = (Ok (rg_cur s), padded s') /\
    ring_ok VARLEN_RING_ELE_NUM (padded s) /\
    vsize (rg_store s') = Z.max (vsize (rg_store s)) (rg_cur s + 1).
Proof.
  intros Hok Hv. destruct (vring_put_run s v rest Hok Hv) as [Hr Hok']. eexists. split; [exact Hr|]. split; [exact Hok'|].
  destruct Hok as [Hc Hsz].
  assert (Hp : ring_ok VARLEN_RING_ELE_NUM (padded s)).
  { split; [|exact Hc]. cbn [padded rg_store]. unfold vsize. rewrite length_resize. lia. }
  destruct (ring_put_ok VARLEN_RING_ELE_NUM (padded s) v Hp) as [Hput _]. split; [|split; [exact Hp|]].
  - rewrite Hput. cbn [padded rg_cur rg_store]. unfold padded. cbn [rg_cur rg_store].
    rewrite padded_update; [reflexivity|lia|unfold vsize in Hsz; lia].
  - cbn [rg_store]. rewrite vsize_update. apply length_grown. lia.
Qed.

(** [put] of a list of terminated strings. *)
Definition vring_puts (vs : list bytes) : M (ring bytes) (list RID) := forM (map (fun v => v ++ [0]) vs) vring_put.

Lemma vring_puts_sim vs : forall s, vring_ok s -> Forall cstr vs ->
  exists ks s', vring_puts vs s = (Ok ks, s') /\ ring_puts VARLEN_RING_ELE_NUM vs (padded s) = (Ok ks, padded s') /\
    vsize (rg_store s) <= vsize (rg_store s') /\ vring_ok s'.
Proof.
  induction vs as [|v vs IH]; intros s Hok Hvs.
  - exists [], s. split; [reflexivity|]. split; [reflexivity|]. split; [lia|exact Hok].
  - apply Forall_cons_1 in Hvs as [Hv Hvs]. destruct (vring_put_sim s v [] Hok Hv) as (s1 & Hp & Hok1 & Hr & _ & Hsz).
    destruct (IH s1 Hok1 Hvs) as (ks & s2 & Hps & Hrs & Hle & Hok2). exists (rg_cur s :: ks), s2.
    unfold vring_puts, ring_puts in *. cbn [map forM]. rewrite (bindM_run _ _ _ _ _ Hp), (bindM_run _ _ _ _ _ Hps).
    rewrite (bindM_run _ _ _ _ _ Hr), (bindM_run _ _ _ _ _ Hrs). split_and!; [reflexivity|reflexivity|lia|exact Hok2].
Qed.

(** A string put into the ring of any-length strings is read back, whatever length it has and
    whatever follows its terminator, as long as fewer strings than the ring has places are put
    after it. *)
Theorem varlen_ring_text_survives s v rest vs :
  vring_ok s -> cstr v -> Forall cstr vs -> Z.of_nat (length vs) < VARLEN_RING_ELE_NUM ->
  exists k s1 ks s2, vring_put (v ++ 0 :: rest) s = (Ok k, s1) /\ vring_puts vs s1 = (Ok ks, s2) /\
    vring_get k s2 = (Ok v, s2).
Proof.
  intros Hok Hv Hvs Hlen. destruct (vring_put_sim s v rest Hok Hv) as (s1 & Hp & Hok1 & Hr & Hpad & Hsz).
  destruct (vring_puts_sim vs s1 Hok1 Hvs) as (ks & s2 & Hps & Hrs & Hle & Hok2).
  destruct (ring_value_survives VARLEN_RING_ELE_NUM (padded s) v vs Hpad Hlen) as (k' & p1 & ks' & p2 & E1 & E2 & Hg).
  rewrite Hr in E1. injection E1 as <- <-. rewrite Hrs in E2. injection E2 as <- <-.
  exists (rg_cur s), s1, ks, s2. split; [exact Hp|]. split; [exact Hps|].
  destruct Hok as [Hc _]. revert Hg. unfold vring_get, ring_get, bindM, getM, vlookup. cbn [padded rg_store].
  rewrite (proj2 (Z.leb_le 0 _)) by lia. destruct Hok2 as [_ Hsz2]. unfold vsize in *.
  rewrite lookup_resize by lia. destruct (rg_store s2 !! Z.to_nat (rg_cur s)); [|discriminate]. now intros [= ->].
Qed.

Definition empty_ring : ring bytes := mkRing 0 [].
Lemma varlen_ring_text_survives_witness :
  exists k s1 ks s2, vring_put [104; 105; 0; 99] empty_ring = (Ok k, s1) /\ vring_puts [[97]; []] s1 = (Ok ks, s2) /\
    vring_get k s2 = (Ok [104; 105], s2).
Proof.
  apply (varlen_ring_text_survives empty_ring [104; 105] [99] [[97]; []]).
  - split; [vm_compute; split; congruence|vm_compute; congruence].
  - repeat constructor.
  - repeat constructor.
  - reflexivity.
Defined.

(** ** Rows *)

Definition fring_ok (s : ring bytes) : Prop :=
  ring_ok FIXED_RING_ELE_NUM s /\ Forall (fun row => length row = Z.to_nat STRING_LENGTH) (rg_store s).

Lemma fring_put_run s p : fring_ok s -> STRING_LENGTH <= Z.of_nat (length p) ->
  exists s', fring_put p s = (Ok (rg_cur s), s') /\ fring_ok s' /\
    drop (Z.to_nat (rg_cur s)) (rg_store s') =
      take (Z.to_nat STRING_LENGTH) p :: drop (S (Z.to_nat (rg_cur s))) (rg_store s).
Proof.
  intros [Hok Hrows] Hp. unfold fring_put, row_of.
  destruct (ring_put_ok FIXED_RING_ELE_NUM s (take (Z.to_nat STRING_LENGTH) p) Hok) as [Hput Hok'].
  eexists. split; [|split; [split; [exact Hok'|]|]].
  - unfold bindM at 1. rewrite (bindM_run _ _ s s tt) by (apply definedM_true, Z.leb_le, Hp). exact Hput.
  - cbn [rg_store]. apply Forall_insert; [exact Hrows|]. rewrite length_take. lia.
  - cbn [rg_store]. unfold vupdate. destruct Hok as [Hsz Hc]. unfold vsize in Hsz.
    rewrite (drop_S _ (take (Z.to_nat STRING_LENGTH) p)) by (apply list_lookup_insert_eq; lia).
    now rewrite drop_insert_lt by lia.
Qed.

Lemma fring_get_run s k : vin (rg_store s) k = true ->
  fring_get k s = ofRes (std_string (concat (drop (Z.to_nat k) (rg_store s)))) s.
Proof. intros Hk. unfold fring_get, bindM, getM, definedM. now rewrite Hk. Qed.

(** A string that leaves room for its terminator is read back from the ring of rows, of which
    there are 18. A longer one fills its row without a terminator and is read on into the
    string of the next row. *)
Theorem fixed_ring_text s v rest :
  fring_ok s -> cstr v -> STRING_LENGTH <= Z.of_nat (length (v ++ 0 :: rest)) ->
  exists s', fring_put (v ++ 0 :: rest) s = (Ok (rg_cur s), s') /\ fring_ok s' /\
    (Z.of_nat (length v) < STRING_LENGTH -> fring_get (rg_cur s) s' = (Ok v, s')) /\
    (forall w pad, STRING_LENGTH <= Z.of_nat (length v) -> cstr w ->
       rg_store s !! S (Z.to_nat (rg_cur s)) = Some (w ++ 0 :: pad) ->
       fring_get (rg_cur s) s' = (Ok (take (Z.to_nat STRING_LENGTH) v ++ w), s')).
Proof.
  intros Hok Hv Hp. destruct (fring_put_run s _ Hok Hp) as (s' & Hput & Hok' & Hd). exists s'.
  split; [exact Hput|]. split; [exact Hok'|].
  assert (Hget : fring_get (rg_cur s) s' = ofRes (std_string (concat (drop (Z.to_nat (rg_cur s)) (rg_store s')))) s').
  { apply fring_get_run, vin_spec. destruct Hok as [[_ Hc] _], Hok' as [[Hsz _] _]. lia. }
  rewrite Hget, Hd. cbn [concat]. split.
  - intros Hl. rewrite take_app_ge by lia. replace (Z.to_nat STRING_LENGTH - length v)%nat with
      (S (Z.to_nat STRING_LENGTH - length v - 1)) by lia.
    cbn [take]. rewrite <- app_assoc. cbn [app]. now rewrite std_string_cstr.
  - intros w pad Hl Hw Hnext. rewrite take_app_le by lia. rewrite (drop_S _ _ _ Hnext). cbn [concat].
    rewrite <- app_assoc. cbn [app]. rewrite app_assoc. rewrite std_string_cstr; [reflexivity|].
    apply Forall_app. split; [now apply Forall_take|exact Hw].
Qed.

(** Eighteen empty rows. *)
Definition empty_rows : ring bytes := mkRing 0 (replicate 18 (replicate 540 0)).
Lemma empty_rows_ok : fring_ok empty_rows.
Proof.
  split; [split; [reflexivity|vm_compute; split; congruence]|]. apply Forall_replicate. apply length_replicate.
Qed.
Lemma fixed_ring_text_witness :
  exists s', fring_put (replicate 600 120 ++ 0 :: []) empty_rows = (Ok 0, s') /\ fring_get 0 s' = (Ok (replicate 540 120), s').
Proof.
  destruct (fixed_ring_text empty_rows (replicate 600 120) []) as (s' & Hput & _ & _ & Hget).
  - exact empty_rows_ok.
  - apply Forall_replicate. lia.
  - rewrite length_app, length_replicate. vm_compute. congruence.
  - exists s'. split; [exact Hput|]. change (rg_cur empty_rows) with 0 in Hget.
    rewrite (Hget [] (replicate 539 0)); [|rewrite length_replicate; vm_compute; congruence|constructor|reflexivity].
    now rewrite app_nil_r, take_replicate.
Defined.

(** In the reusable store and the append-only store of strings of any length a string is read
    back whole; the append-only store with a limit keeps its first [STRING_LENGTH] bytes. *)
Theorem text_stores_read_back v rest :
  cstr v ->
  (forall s, rs_ok s -> exists k s', rs_text_put (v ++ 0 :: rest) s = (Ok k, s') /\ rs_ok s' /\
     rs_text_get k s' = (Ok v, s') /\ rs_view s k = None /\ forall k', k' <> k -> rs_view s' k' = rs_view s k') /\
  (forall store, exists store', as_text_put (v ++ 0 :: rest) store = (Ok (vsize store), store') /\
     as_text_get (vsize store) store' = (Ok v, store')) /\
  (forall store, exists store', as_fixed_put (v ++ 0 :: rest) store = (Ok (vsize store), store') /\
     as_fixed_get (vsize store) store' = (Ok (take (Z.to_nat STRING_LENGTH) v), store')).
Proof.
  intros Hv. split_and!.
  - intros s Hok. destruct (rs_put_spec s v Hok) as (k & s' & Hp & Hok' & _ & Hfresh & Hnew & Hframe).
    exists k, s'. split_and!; try assumption; [|now apply rs_get_spec].
    unfold rs_text_put. rewrite std_string_cstr by exact Hv. exact Hp.
  - intros store. destruct (as_put_get store v) as (store' & Hp & Hg & _). exists store'. split; [|exact Hg].
    unfold as_text_put. rewrite std_string_cstr by exact Hv. exact Hp.
  - intros store. destruct (as_put_get store (take (Z.to_nat STRING_LENGTH) v)) as (store' & Hp & Hg & _).
    exists store'. split; [|exact Hg]. unfold as_fixed_put. rewrite std_string_n_cstr by exact Hv. exact Hp.
Qed.
Lemma text_stores_read_back_witness :
  exists store', as_fixed_put (replicate 600 120 ++ [0]) [] = (Ok 0, store') /\ as_fixed_get 0 store' = (Ok (replicate 540 120), store').
Proof.
  destruct (text_stores_read_back (replicate 600 120) []) as (_ & _ & H); [apply Forall_replicate; lia|].
  destruct (H []) as (store' & Hp & Hg). exists store'. split; [exact Hp|exact Hg].
Defined.

(** ** The mapped store of rows *)

Definition ROWS_ELE_NUM : Z := (KV_MMAP_SIZE - PAGE_SIZE) / STRING_LENGTH.
(** The array of rows in the file; a row never written is zero. *)
Record rows : Type := mkRows {
  rw_cur : RID;
  rw_arr : gmap Z bytes;
}.
Definition row_at (s : rows) (key : RID) : bytes := default (replicate (Z.to_nat STRING_LENGTH) 0) (rw_arr s !! key).

Definition ff_put (value : bytes) : M rows RID :=
  let* s := getM in
  let key := rw_cur s in
  do* putM (mkRows (u64 (key + 1)) (rw_arr s)) in
  do* checkM (key <? ROWS_ELE_NUM) in
  do* definedM (STRING_LENGTH <=? Z.of_nat (length value)) in
  do* modifyM (fun s => mkRows (rw_cur s) (<[key := take (Z.to_nat STRING_LENGTH) value]> (rw_arr s))) in
  retM key.
(** The pointer is read as a C string, on into the following rows; a row that was never
    written ends it. *)
Fixpoint read_rows (fuel : nat) (s : rows) (key : RID) : res bytes :=
  match fuel with
  | O => Err Undefined
  | S fuel' =>
      let row := row_at s key in
      if existsb (Z.eqb 0) row then Ok (until_zero row)
      else match read_rows fuel' s (key + 1) with
           | Ok rest => Ok (row ++ rest)
           | Err f => Err f
           end
  end.
Definition ff_get (key : RID) : M rows bytes :=
  do* checkM (key <? ROWS_ELE_NUM) in
  let* s := getM in ofRes (read_rows (S (size (rw_arr s))) s key).
Definition ff_replace (key : RID) (value : bytes) : M rows unit :=
  do* checkM (key <? ROWS_ELE_NUM) in
  do* definedM (STRING_LENGTH <=? Z.of_nat (length value)) in
  modifyM (fun s => mkRows (rw_cur s) (<[key := take (Z.to_nat STRING_LENGTH) value]> (rw_arr s))).
Definition ff_flush_async (store : Z) (s : rows) : option (Z * Z) :=
  fs_flush_async STRING_LENGTH store (mkFstore (rw_cur s) ∅).

Lemma row_cstr v rest : cstr v -> Z.of_nat (length v) < STRING_LENGTH ->
  existsb (Z.eqb 0) (take (Z.to_nat STRING_LENGTH) (v ++ 0 :: rest)) = true /\
  until_zero (take (Z.to_nat STRING_LENGTH) (v ++ 0 :: rest)) = v.
Proof.
  intros Hv Hl. rewrite take_app_ge by lia. replace (Z.to_nat STRING_LENGTH - length v)%nat with
    (S (Z.to_nat STRING_LENGTH - length v - 1)) by lia.
  cbn [take]. split; [apply existsb_zero_app|now apply until_zero_cstr].
Qed.

(** A text that leaves room for its terminator is read back from the mapped rows under the key
    of its put, and stays readable when other keys are replaced. *)
Theorem mapped_rows_hold_text (s : rows) v rest w k :
  0 <= rw_cur s < ROWS_ELE_NUM -> cstr v -> Z.of_nat (length v) < STRING_LENGTH ->
  STRING_LENGTH <= Z.of_nat (length (v ++ 0 :: rest)) -> STRING_LENGTH <= Z.of_nat (length w) ->
  k <> rw_cur s -> k < ROWS_ELE_NUM ->
  exists s1 s2, ff_put (v ++ 0 :: rest) s = (Ok (rw_cur s), s1) /\ ff_get (rw_cur s) s1 = (Ok v, s1) /\
    ff_replace k w s1 = (Ok tt, s2) /\ ff_get (rw_cur s) s2 = (Ok v, s2).
Proof.
  intros Hc Hv Hl Hp Hw Hk Hkm. destruct (row_cstr v rest Hv Hl) as [Hz Hu].
  assert (Hget : forall s', rw_arr s' !! rw_cur s = Some (take (Z.to_nat STRING_LENGTH) (v ++ 0 :: rest)) ->
    ff_get (rw_cur s) s' = (Ok v, s')).
  { intros s' Hs'. unfold ff_get, bindM, checkM, getM. rewrite (proj2 (Z.ltb_lt _ _)) by lia.
    assert (Hrow : row_at s' (rw_cur s) = take (Z.to_nat STRING_LENGTH) (v ++ 0 :: rest)) by (unfold row_at; now rewrite Hs').
    unfold retM, ofRes. cbn [read_rows]. now rewrite Hrow, Hz, Hu. }
  eexists _, _. split; [|split; [|split]].
  - unfold ff_put, bindM, getM, putM, checkM, definedM. rewrite (proj2 (Z.ltb_lt _ _)) by lia.
    unfold retM at 1. rewrite (proj2 (Z.leb_le _ _)) by lia. reflexivity.
  - apply Hget. cbn [rw_arr]. apply lookup_insert_eq.
  - unfold ff_replace, bindM, checkM, definedM. rewrite (proj2 (Z.ltb_lt _ _)) by lia.
    unfold retM. rewrite (proj2 (Z.leb_le _ _)) by lia. reflexivity.
  - apply Hget. cbn [rw_arr]. rewrite lookup_insert_ne by exact Hk. apply lookup_insert_eq.
Qed.
