(* ===== verification/Wal.v ===== *)
(** The write-ahead log of the privacy zone: src/privacy_zone/include/wal.hpp.

    The integrity zone hands over the RIDs a transaction made persistent; the log holds
    their values. There are two paths: a payload that PostgreSQL keeps in its own WAL
    ([materialize_payload], [replay_payload]) and a log file of fixed-size entries
    ([appendBatch], [flush], [replay]). *)
From S2P Require Import Prelude Rid LocalStore FileMap KV Crypto.

Definition WAL_RID_BATCH_SIZE : Z := 4096.
Definition WAL_MATERIALIZE_RID_BATCH_SIZE : Z := 3000.
Definition UINT16_MAX : Z := 65535.

(** [type]: 0 int, 1 float, 2 text, 3 timestamp. *)
Record WalRidItem : Type := mkItem {
  wi_type : Z;
  wi_rid : RID;
}.

Definition PENDING_MAGIC : Z := 0x4645444257414c33.
Definition WAL_MAGIC : Z := 0x4645444257414c34.
Definition WAL_PAYLOAD_MAGIC : Z := 0x31564c57.
Definition WAL_PAYLOAD_VERSION : Z := 1.
Definition WAL_FILE_SIZE : Z := Z.shiftl 4 30.
Definition WAL_DATA_OFFSET : Z := PAGE_SIZE.
Definition MAX_PENDING_ITEMS : Z := Z.shiftl 1 20.

(** ** The payload *)

(** [append_record_value] *)
Definition append_record_value (key : RID) (value : bytes) : res bytes :=
  if Z.of_nat (length value) <=? UINT16_MAX
  then Ok (le_bytes 2 (Z.of_nat (length value)) ++ le_bytes 8 key ++ value)
  else Err Fatal.

(** The bytes from the start of a C string: [strnlen(value, STRING_LENGTH - 1) + 1] of them,
    the terminator included when the string is short enough. *)
Definition text_record (value : bytes) : bytes :=
  take (Nat.min (length value) 539 + 1) (value ++ [0]).

Definition payload_item (item : WalRidItem) : M FileMapKV bytes :=
  let ty := le_bytes 1 (wi_type item) in
  match wi_type item with
  | 0 => let* value := kv_getInt (wi_rid item) in
         let* r := ofRes (append_record_value (wi_rid item) (le_bytes 4 (u32 value))) in
         retM (ty ++ r)
  | 1 => let* value := kv_getFloat (wi_rid item) in
         let* r := ofRes (append_record_value (wi_rid item) (le_bytes 4 value)) in
         retM (ty ++ r)
  | 2 => let* value := kv_getString (wi_rid item) in
         let* r := ofRes (append_record_value (wi_rid item) (text_record value)) in
         retM (ty ++ r)
  | 3 => let* value := kv_getTimestamp (wi_rid item) in
         let* r := ofRes (append_record_value (wi_rid item) (le_bytes 8 (u64 value))) in
         retM (ty ++ r)
  | _ => failM Fatal
  end.

Definition payload_header (nitems : Z) : bytes :=
  le_bytes 4 WAL_PAYLOAD_MAGIC ++ le_bytes 2 WAL_PAYLOAD_VERSION ++ le_bytes 2 (u16 nitems).

Definition materialize_payload (items : list WalRidItem) : M FileMapKV bytes :=
  let nitems := Z.of_nat (length items) in
  do* checkM (nitems <=? UINT16_MAX) in
  let* records := forM items payload_item in
  retM (payload_header nitems ++ concat records).

(** [read_bytes]: [n] bytes from the front, or the fatal error of a truncated payload. *)
Definition read_bytes (n : nat) (data : bytes) : res (bytes * bytes) :=
  if (n <=? length data)%nat then Ok (take n data, drop n data) else Err Fatal.

(** The text a record holds: copied into a zeroed buffer of [STRING_LENGTH] bytes whose last
    byte is cleared, and read back up to the first zero byte. *)
Definition record_text (value : bytes) : bytes := until_zero (take 539 value).

Definition replay_value (type len : Z) (key : RID) (value : bytes) : M FileMapKV unit :=
  match type with
  | 0 => do* checkM (len =? 4) in
         do* kv_replaceInt key (s32 (le_val value)) in retM tt
  | 1 => do* checkM (len =? 4) in
         do* kv_replaceFloat key (le_val value) in retM tt
  | 2 => do* checkM ((0 <? len) && (len <=? STRING_LENGTH)) in
         do* kv_replaceString key (record_text value) in retM tt
  | 3 => do* checkM (len =? 8) in
         do* kv_replaceTimestamp key (s64 (le_val value)) in retM tt
  | _ => failM Fatal
  end.

Fixpoint replay_records (n : nat) (data : bytes) : M FileMapKV bytes :=
  match n with
  | O => retM data
  | S n' =>
      let* '(ty, d1) := ofRes (read_bytes 1 data) in
      let* '(ln, d2) := ofRes (read_bytes 2 d1) in
      let* '(k, d3) := ofRes (read_bytes 8 d2) in
      let len := le_val ln in
      do* checkM (len <=? Z.of_nat (length d3)) in
      do* replay_value (le_val ty) len (le_val k) (take (Z.to_nat len) d3) in
      replay_records n' (drop (Z.to_nat len) d3)
  end.

Definition replay_payload (data : bytes) : M FileMapKV unit :=
  let* '(h, d) := ofRes (read_bytes 8 data) in
  let magic := le_val (take 4 h) in
  let version := le_val (take 2 (drop 4 h)) in
  let nitems := le_val (drop 6 h) in
  do* checkM ((magic =? WAL_PAYLOAD_MAGIC) && (version =? WAL_PAYLOAD_VERSION)) in
  let* rest := replay_records (Z.to_nat nitems) d in
  checkM (Z.of_nat (length rest) =? 0).

(** ** Round trip of the payload *)

Definition item_type (item : WalRidItem) : option vtype :=
  match wi_type item with
  | 0 => Some TInt
  | 1 => Some TFloat
  | 2 => Some TText
  | 3 => Some TTimestamp
  | _ => None
  end.

(** A value has its C type. *)
Definition wf_value {t : vtype} : vty t -> Prop :=
  match t with
  | TInt => in_s32
  | TFloat => in_u32
  | TTimestamp => in_s64
  | TText => cstr
  end.

(** The value that survives the log: texts longer than 539 bytes are cut. *)
Definition logged {t : vtype} : vty t -> vty t :=
  match t with
  | TText => fun v => take 539 v
  | _ => fun v => v
  end.

(** The record of a value. *)
Definition value_bytes {t : vtype} : vty t -> bytes :=
  match t with
  | TInt => fun v => le_bytes 4 (u32 v)
  | TFloat => fun v => le_bytes 4 v
  | TTimestamp => fun v => le_bytes 8 (u64 v)
  | TText => text_record
  end.

Definition type_code (t : vtype) : Z :=
  match t with
  | TInt => 0
  | TFloat => 1
  | TText => 2
  | TTimestamp => 3
  end.

Definition record_bytes {t : vtype} (key : RID) (v : vty t) : bytes :=
  le_bytes 1 (type_code t) ++ le_bytes 2 (Z.of_nat (length (value_bytes v))) ++ le_bytes 8 key ++ value_bytes v.

Lemma length_value_bytes {t} (v : vty t) : (0 < length (value_bytes v) <= 540)%nat.
Proof.
  destruct t; cbn [value_bytes]; rewrite ?length_le_bytes; try lia.
  unfold text_record. rewrite length_take, length_app. cbn [length]. lia.
Qed.

Lemma payload_item_spec s t (v : vty t) key :
  kv_ok s -> islocal key = false -> gview s t key = Some v ->
  payload_item (mkItem (type_code t) key) s =
    (Ok (record_bytes key v), kv_with s (rid_partition key) (kv_part s (rid_partition key))).
Proof.
  intros Hok Hl Hv. pose proof (gget_spec s t key v Hok Hl Hv) as Hg.
  pose proof (length_value_bytes v) as Hlen.
  assert (Hr : append_record_value key (value_bytes v) =
    Ok (le_bytes 2 (Z.of_nat (length (value_bytes v))) ++ le_bytes 8 key ++ value_bytes v)).
  { unfold append_record_value. now rewrite (proj2 (Z.leb_le _ _)) by (unfold UINT16_MAX; lia). }
  unfold payload_item, record_bytes. cbn [wi_type wi_rid].
  destruct t; cbn [type_code gget value_bytes] in *; rewrite (bindM_run _ _ _ _ _ Hg);
    unfold bindM, ofRes; rewrite Hr; reflexivity.
Qed.

Lemma read_bytes_app n (a b : bytes) : length a = n -> read_bytes n (a ++ b) = Ok (a, b).
Proof.
  intros <-. unfold read_bytes. rewrite length_app, (proj2 (Nat.leb_le _ _)) by lia.
  now rewrite take_app_length, drop_app_length.
Qed.

Lemma record_text_record v : cstr v -> record_text (text_record v) = take 539 v.
Proof.
  intros Hc. unfold record_text, text_record. rewrite take_take.
  destruct (decide (length v < 539)%nat) as [Hlt|Hge].
  - rewrite take_ge by (rewrite length_app; cbn [length]; lia). rewrite until_zero_cstr by exact Hc.
    now rewrite take_ge by lia.
  - replace (539 `min` (length v `min` 539 + 1))%nat with 539%nat by lia. rewrite take_app_le by lia. apply until_zero_id.
    now apply Forall_take.
Qed.

Lemma s32_u32 v : in_s32 v -> s32 (u32 v mod 256 ^ 4) = v.
Proof. unfold in_s32, s32, u32. intros H. change (256 ^ 4) with (2 ^ 32). dlia. Qed.

Lemma s64_u64 v : in_s64 v -> s64 (u64 v mod 256 ^ 8) = v.
Proof. unfold in_s64, s64, u64. intros H. change (256 ^ 8) with (2 ^ 64). dlia. Qed.

(** Replaying the record of a value replaces the key's value. *)
Lemma replay_value_record s t (v : vty t) key :
  wf_value v ->
  replay_value (type_code t) (Z.of_nat (length (value_bytes v))) key (value_bytes v) s =
  bindM (greplace t key (logged v)) (fun _ => retM tt) s.
Proof.
  intros Hwf. unfold replay_value.
  destruct t; cbn [type_code value_bytes greplace logged wf_value] in *; rewrite ?length_le_bytes.
  - change (Z.of_nat 4 =? 4) with true. now rewrite le_val_le_bytes, s32_u32.
  - change (Z.of_nat 4 =? 4) with true. rewrite le_val_le_bytes. rewrite Z.mod_small by exact Hwf. reflexivity.
  - change (Z.of_nat 8 =? 8) with true. now rewrite le_val_le_bytes, s64_u64.
  - pose proof (@length_value_bytes TText v) as Hlen. cbn [value_bytes] in Hlen.
    rewrite (proj2 (Z.ltb_lt 0 _)), (proj2 (Z.leb_le _ STRING_LENGTH)) by (unfold STRING_LENGTH; lia).
    now rewrite record_text_record.
Qed.

Lemma type_code_u8 t : le_val (le_bytes 1 (type_code t)) = type_code t.
Proof. now destruct t. Qed.

(** One record at the front of the data. *)
Lemma replay_records_step n s t (v : vty t) key rest :
  wf_value v -> in_u64 key ->
  replay_records (S n) (record_bytes key v ++ rest) s =
  bindM (greplace t key (logged v)) (fun _ => replay_records n rest) s.
Proof.
  intros Hwf Hk. pose proof (length_value_bytes v) as Hlen. unfold record_bytes.
  rewrite <- !app_assoc. cbn [replay_records].
  unfold ofRes. rewrite !read_bytes_app by apply length_le_bytes.
  unfold bindM at 1. rewrite read_bytes_app by apply length_le_bytes. unfold bindM at 1.
  rewrite read_bytes_app by apply length_le_bytes. unfold bindM at 1.
  rewrite type_code_u8, !le_val_le_bytes.
  rewrite (Z.mod_small (Z.of_nat (length (value_bytes v)))) by lia.
  rewrite (Z.mod_small key) by exact Hk. unfold bindM at 1, checkM. rewrite length_app.
  rewrite (proj2 (Z.leb_le _ _)) by lia. unfold retM at 1. rewrite Nat2Z.id.
  rewrite take_app_length, drop_app_length. unfold bindM at 1. rewrite replay_value_record by exact Hwf.
  unfold bindM, retM. now destruct (greplace t key (logged v) s) as [[] ?].
Qed.

(** ** Recovery *)

(** A logged item: its type, its RID and the value it has. *)
Definition litem : Type := sigT (fun t : vtype => (RID * vty t)%type).
Definition li (t : vtype) (key : RID) (v : vty t) : litem := existT t (key, v).

Definition item_of (x : litem) : WalRidItem := mkItem (type_code (projT1 x)) (fst (projT2 x)).
Definition litem_key (x : litem) : vtype * RID := (projT1 x, fst (projT2 x)).
Definition litem_bytes (x : litem) : bytes := record_bytes (fst (projT2 x)) (snd (projT2 x)).

(** The item is persistent, in range, and holds its value in [s]. *)
Definition holds (s : FileMapKV) (x : litem) : Prop :=
  let key := fst (projT2 x) in
  gview s (projT1 x) key = Some (snd (projT2 x)) /\ islocal key = false /\ in_u64 key /\
  rid_index key < pcap (projT1 x) /\ wf_value (snd (projT2 x)).

Lemma holds_self s p x : holds s x -> holds (kv_with s p (kv_part s p)) x.
Proof. unfold holds, gview. intros H. now rewrite kv_part_self. Qed.

Lemma materialize_items xs s :
  kv_ok s -> Forall (holds s) xs ->
  exists s', forM (item_of <$> xs) payload_item s = (Ok (litem_bytes <$> xs), s') /\ kv_ok s'.
Proof.
  revert s. induction xs as [|[t [key v]] xs IH]; intros s Hok Hx.
  - exists s. now split.
  - apply Forall_cons_1 in Hx as [(Hv & Hl & Hk & Hi & Hwf) Hxs]. cbn in Hv, Hl, Hk, Hi, Hwf.
    destruct (IH (kv_with s (rid_partition key) (kv_part s (rid_partition key)))) as (s' & Hr & Hok').
    + now apply kv_ok_self.
    + eapply Forall_impl; [|exact Hxs]. intros y. apply holds_self.
    + exists s'. split; [|exact Hok']. rewrite !fmap_cons. cbn [forM].
      unfold item_of at 1. cbn [projT1 projT2 fst].
      rewrite (bindM_run _ _ _ _ _ (payload_item_spec s t v key Hok Hl Hv)).
      now rewrite (bindM_run _ _ _ _ _ Hr).
Qed.

Lemma text_size_logged {t} (v : vty t) : 0 <= text_size (logged v) <= 540.
Proof. destruct t; cbn [text_size logged]; try lia. rewrite length_take. lia. Qed.

Lemma wf_text_logged {t} (v : vty t) : wf_value v -> wf_text (logged v).
Proof. destruct t; cbn; try easy. apply Forall_take. Qed.

(** Replace the values of a list of items one after the other. *)
Definition replace_all (xs : list litem) : M FileMapKV unit :=
  iterM xs (fun x => do* greplace (projT1 x) (fst (projT2 x)) (snd (projT2 x)) in retM tt).

(** The item can be replayed in any state: a persistent RID in range and a value of its type
    that takes at most [STRING_LENGTH] bytes. *)
Definition replayable (x : litem) : Prop :=
  islocal (fst (projT2 x)) = false /\ in_u64 (fst (projT2 x)) /\
  rid_index (fst (projT2 x)) < pcap (projT1 x) /\ wf_text (snd (projT2 x)) /\
  0 <= text_size (snd (projT2 x)) <= 540.

(** It gives every listed key its last value and leaves the others. *)
Lemma replace_all_spec xs s :
  kv_ok s -> Forall replayable xs ->
  (forall p, text_end s p + 540 * Z.of_nat (length xs) <= STORE_SIZE) ->
  exists s', replace_all xs s = (Ok tt, s') /\ kv_ok s' /\
    (forall t k, in_u64 k -> (t, k) ∉ (litem_key <$> xs) -> gview s' t k = gview s t k) /\
    (forall t k, in_u64 k -> (t, k) ∈ (litem_key <$> xs) ->
       exists v, li t k v ∈ xs /\ gview s' t k = Some v).
Proof.
  revert s. induction xs as [|[t [key v]] xs IH]; intros s Hok Hx Hroom.
  - exists s. split; [reflexivity|]. split; [exact Hok|]. split; [easy|]. intros t k _ H. inversion H.
  - apply Forall_cons_1 in Hx as [(Hl & Hk & Hi & Hwf & Hts) Hxs]. cbn in Hl, Hk, Hi, Hwf, Hts.
    cbn [length] in Hroom.
    destruct (greplace_spec s t key v Hok Hk Hl Hi Hwf) as (s1 & Hr1 & Hok1 & Hv1 & Hf1 & He1).
    { specialize (Hroom (rid_partition key)). lia. }
    destruct (IH s1 Hok1 Hxs) as (s' & Hr & Hok' & Hf & Hin).
    { intros p. specialize (Hroom p). specialize (He1 p). lia. }
    exists s'. split; [|split; [exact Hok'|]].
    { unfold replace_all. cbn [iterM projT1 projT2 fst snd].
      rewrite bindM_assoc, (bindM_run _ _ _ _ _ Hr1). exact Hr. }
    rewrite fmap_cons. unfold litem_key at 1 3. cbn [projT1 projT2 fst]. split.
    + intros t' k' Hu Hni. apply not_elem_of_cons in Hni as [Hne Hni].
      rewrite Hf by assumption. now apply Hf1.
    + intros t' k' Hu Hin'. destruct (decide ((t', k') ∈ litem_key <$> xs)) as [Hd|Hd].
      * destruct (Hin t' k' Hu Hd) as (v' & Hel & Hv'). exists v'. split; [now right|exact Hv'].
      * apply elem_of_cons in Hin' as [[= -> ->]|]; [|easy]. exists v. split; [left|]. now rewrite Hf.
Qed.

(** The item as the payload keeps it. *)
Definition logged_item (x : litem) : litem := li (projT1 x) (fst (projT2 x)) (logged (snd (projT2 x))).

Lemma logged_item_key (xs : list litem) : litem_key <$> (logged_item <$> xs) = litem_key <$> xs.
Proof. rewrite <- list_fmap_compose. now apply list_fmap_ext. Qed.

(** Replaying the records of a list of items is replacing the logged values. *)
Lemma replay_records_eq xs s :
  Forall (fun x => wf_value (snd (projT2 x)) /\ in_u64 (fst (projT2 x))) xs ->
  replay_records (length xs) (concat (litem_bytes <$> xs)) s =
  bindM (replace_all (logged_item <$> xs)) (fun _ => retM []) s.
Proof.
  intros Hx. revert s. induction Hx as [|[t [key v]] xs [Hwf Hk] _ IH]; intros s; [reflexivity|].
  cbn in Hwf, Hk. cbn [fmap list_fmap concat length]. unfold litem_bytes at 1. cbn [projT2 fst snd].
  rewrite (replay_records_step (length xs) s t v key) by assumption.
  unfold replace_all. cbn [iterM logged_item projT1 projT2 fst snd li]. rewrite !bindM_assoc.
  unfold bindM at 1 2. destruct (greplace t key (logged v) s) as [[r|f] s']; [|reflexivity]. apply IH.
Qed.

Lemma replayable_logged s x : holds s x -> replayable (logged_item x).
Proof.
  destruct x as [t [key v]]. intros (_ & Hl & Hk & Hi & Hwf). cbn in *.
  repeat split; try assumption; try apply Hk; try apply text_size_logged. now apply wf_text_logged.
Qed.

(** C8: the payload written to PostgreSQL's log recovers the store. Encoding the values of a
    batch of persistent RIDs in one state and replaying the payload in any other state with
    room for the texts succeeds; afterwards every RID of the batch holds the value it had,
    and every other RID what it held before. Texts are recovered up to their first 539
    bytes. *)
Theorem wal_payload_recovers (xs : list litem) (s1 s2 : FileMapKV) :
  kv_ok s1 -> kv_ok s2 -> Forall (holds s1) xs -> Z.of_nat (length xs) <= UINT16_MAX ->
  (forall p, text_end s2 p + 540 * Z.of_nat (length xs) <= STORE_SIZE) ->
  exists payload s1' s2',
    materialize_payload (item_of <$> xs) s1 = (Ok payload, s1') /\
    replay_payload payload s2 = (Ok tt, s2') /\ kv_ok s2' /\
    (forall t k v, in_u64 k -> (t, k) ∈ (litem_key <$> xs) -> gview s1 t k = Some v ->
       gview s2' t k = Some (logged v)) /\
    (forall t k, in_u64 k -> (t, k) ∉ (litem_key <$> xs) -> gview s2' t k = gview s2 t k).
Proof.
  intros Hok1 Hok2 Hx Hn Hroom. unfold UINT16_MAX in Hn.
  destruct (materialize_items xs s1 Hok1 Hx) as (s1' & Hm & _).
  destruct (replace_all_spec (logged_item <$> xs) s2 Hok2) as (s2' & Hr & Hok' & Hf & Hin).
  { apply Forall_fmap. eapply Forall_impl; [|exact Hx]. intros x. apply replayable_logged. }
  { intros p. rewrite length_fmap. apply Hroom. }
  rewrite logged_item_key in Hf, Hin.
  exists (payload_header (Z.of_nat (length xs)) ++ concat (litem_bytes <$> xs)), s1', s2'.
  split; [|split; [|split; [exact Hok'|split; [|exact Hf]]]].
  - unfold materialize_payload. rewrite length_fmap. unfold bindM at 1.
    rewrite checkM_true by (apply Z.leb_le; unfold UINT16_MAX; lia).
    now rewrite (bindM_run _ _ _ _ _ Hm).
  - unfold replay_payload, ofRes. unfold bindM at 1.
    rewrite read_bytes_app by reflexivity.
    assert (Hnn : le_val (drop 6 (payload_header (Z.of_nat (length xs)))) = Z.of_nat (length xs)).
    { change (drop 6 (payload_header (Z.of_nat (length xs)))) with (le_bytes 2 (u16 (Z.of_nat (length xs)))).
      rewrite le_val_le_bytes, u16_small by (unfold in_u16; lia). apply Z.mod_small. lia. }
    rewrite Hnn, Nat2Z.id. change (le_val (take 4 (payload_header _))) with WAL_PAYLOAD_MAGIC.
    change (le_val (take 2 (drop 4 (payload_header _)))) with WAL_PAYLOAD_VERSION.
    unfold bindM at 1. rewrite checkM_true by reflexivity.
    assert (Hrep : replay_records (length xs) (concat (litem_bytes <$> xs)) s2 = (Ok [], s2')).
    { rewrite replay_records_eq; [now rewrite (bindM_run _ _ _ _ _ Hr)|].
      eapply Forall_impl; [|exact Hx]. intros x (_ & _ & H1 & _ & H2). now split. }
    rewrite (bindM_run _ _ _ _ _ Hrep). reflexivity.
  - intros t k v Hk Hel Hv. destruct (Hin t k Hk Hel) as (v' & Hv' & ->).
    apply list_elem_of_fmap in Hv' as ([t0 [k0 v0]] & E & Hel'). apply list_elem_of_In in Hel'.
    rewrite Forall_forall in Hx. destruct (Hx _ Hel') as (Hg & _). unfold logged_item, li in E.
    cbn in Hg, E. pose proof (f_equal (fun x : litem => projT1 x) E) as Et. cbn in Et. subst t0.
    apply Eqdep_dec.inj_pair2_eq_dec in E; [|apply vtype_eq_dec]. injection E as -> ->. congruence.
Qed.

(** A store with one integer and one text in partition 7. *)
Definition sample_kv : FileMapKV := snd ((do* kv_putInt 42 7 in kv_putString [104; 105] 7) kv_empty).

Definition sample_items : list litem :=
  [li TInt (make_partitioned_rid 7 0) 42; li TText (make_partitioned_rid 7 0) [104; 105]].

Lemma global_partition_7 : global_partition 7.
Proof. split; [split; reflexivity || easy|vm_compute; congruence]. Qed.

Lemma sample_kv_ok : kv_ok sample_kv.
Proof.
  unfold sample_kv, bindM. change (kv_putInt 42 7) with (kv_put FInt 42 7).
  rewrite kv_put_run by (apply kv_ok_empty || apply global_partition_7 || reflexivity).
  assert (Hok : kv_ok (kv_after_put kv_empty FInt 42 7))
    by (apply kv_ok_with_fixed; [apply kv_ok_empty|vm_compute; congruence]).
  destruct (kv_putString_run _ [104; 105] 7 Hok global_partition_7) as (x & Hr & Hx & _).
  - repeat constructor; lia.
  - reflexivity.
  - vm_compute. congruence.
  - rewrite Hr. cbn [snd]. now apply kv_ok_with_text.
Qed.

Lemma text_end_empty p : text_end kv_empty p = 0.
Proof. unfold text_end, kv_part, kv_empty. cbn [fk_files]. now rewrite lookup_empty. Qed.

Lemma sample_items_hold : Forall (holds sample_kv) sample_items.
Proof.
  repeat constructor; try reflexivity; try (vm_compute; congruence); cbn; unfold in_s32; lia.
Qed.

(** Log both values and replay them into an empty store. *)
Lemma wal_payload_recovers_witness :
  exists payload s1' s2',
    materialize_payload (item_of <$> sample_items) sample_kv = (Ok payload, s1') /\
    replay_payload payload kv_empty = (Ok tt, s2') /\ kv_ok s2' /\
    (forall t k v, in_u64 k -> (t, k) ∈ (litem_key <$> sample_items) -> gview sample_kv t k = Some v ->
       gview s2' t k = Some (logged v)) /\
    (forall t k, in_u64 k -> (t, k) ∉ (litem_key <$> sample_items) -> gview s2' t k = gview kv_empty t k).
Proof.
  apply (wal_payload_recovers sample_items sample_kv kv_empty sample_kv_ok kv_ok_empty sample_items_hold).
  - vm_compute. congruence.
  - intros p. rewrite text_end_empty. vm_compute. congruence.
Defined.

(** ** The log file *)

(** [value] of a WALEntry; a text is the raw buffer of [STRING_LENGTH] bytes. *)
Inductive wal_value : Type :=
| WInt (i : Z)
| WFloat (f : Z)
| WText (s : bytes)
| WTimestamp (t : Z).

Record WALEntry : Type := mkEntry {
  we_key : RID;
  we_value : wal_value;
}.

(** [sizeof(WALEntry)]: type and padding, key, the union rounded up to its alignment. *)
Definition WALENTRY_SIZE : Z := 4 + 4 + 8 + 544.

(** What all workers share: the header and the entries of the file by position, the pending
    items, the persistent stores; and each worker's own copy of [header.write_pos], present
    once the worker has called [init]. *)
Record wal_state : Type := mkWal {
  w_magic : Z;
  w_write_pos : Z;
  w_data : gmap Z WALEntry;
  w_pending : list WalRidItem;
  w_kv : FileMapKV;
  w_headers : gmap Z Z;
}.

Definition w_on_kv {A : Type} (c : M FileMapKV A) : M wal_state A :=
  zoomM w_kv (fun kv s => mkWal (w_magic s) (w_write_pos s) (w_data s) (w_pending s) kv (w_headers s)) c.

(** [write_header]: the worker's copy goes to the file. *)
Definition write_header (pos : Z) : M wal_state unit :=
  modifyM (fun s => mkWal WAL_MAGIC pos (w_data s) (w_pending s) (w_kv s) (w_headers s)).
Definition set_header (worker pos : Z) : M wal_state unit :=
  modifyM (fun s => mkWal (w_magic s) (w_write_pos s) (w_data s) (w_pending s) (w_kv s)
                          (<[worker := pos]> (w_headers s))).

(** [init] with [init_wal_file]: nothing when the worker is initialised, else load the
    header, and reset it when it does not describe a log. *)
Definition wal_init (worker : Z) : M wal_state unit :=
  let* s := getM in
  match w_headers s !! worker with
  | Some _ => retM tt
  | None =>
      let pos := w_write_pos s in
      if negb (w_magic s =? WAL_MAGIC) || (pos <? WAL_DATA_OFFSET) || (WAL_FILE_SIZE <? pos) ||
         negb ((pos - WAL_DATA_OFFSET) mod WALENTRY_SIZE =? 0)
      then do* write_header WAL_DATA_OFFSET in set_header worker WAL_DATA_OFFSET
      else set_header worker pos
  end.

Definition valid_item (item : WalRidItem) : bool := (0 <=? wi_type item) && (wi_type item <=? 3).

Definition appendBatch (worker : Z) (items : list WalRidItem) : M wal_state unit :=
  match items with
  | [] => retM tt
  | _ =>
      do* wal_init worker in
      do* checkM (forallb valid_item items) in
      let* s := getM in
      do* checkM (Z.of_nat (length (w_pending s)) + Z.of_nat (length items) <=? MAX_PENDING_ITEMS) in
      modifyM (fun s => mkWal (w_magic s) (w_write_pos s) (w_data s) (w_pending s ++ items)
                              (w_kv s) (w_headers s))
  end.

(** [take_pending] *)
Definition take_pending : M wal_state (list WalRidItem) :=
  let* s := getM in
  do* putM (mkWal (w_magic s) (w_write_pos s) (w_data s) [] (w_kv s) (w_headers s)) in
  retM (w_pending s).

(** [memcpy(entry.value.s, kv_ops.getString(rid), STRING_LENGTH)]: the bytes from the start of
    the string on, whatever follows it. *)
Definition ts_get_raw (key : RID) : M tstore bytes :=
  do* checkM (key <? TEXT_MAX_ARRAY_ELE_NUM) in
  let* s := getM in
  do* definedM (ts_offset s key + STRING_LENGTH <=? STORE_SIZE) in
  retM ((fun i => byte_at (ts_bytes s) (ts_offset s key + Z.of_nat i)) <$> seq 0 540).
Definition kv_getString_raw (key : RID) : M FileMapKV bytes :=
  on_partition (rid_partition key) (zoomM p_text p_set_text (ts_get_raw (rid_index key))).

Definition materialize_entry (item : WalRidItem) : M FileMapKV WALEntry :=
  match wi_type item with
  | 0 => let* v := kv_getInt (wi_rid item) in retM (mkEntry (wi_rid item) (WInt v))
  | 1 => let* v := kv_getFloat (wi_rid item) in retM (mkEntry (wi_rid item) (WFloat v))
  | 2 => let* v := kv_getString_raw (wi_rid item) in retM (mkEntry (wi_rid item) (WText v))
  | 3 => let* v := kv_getTimestamp (wi_rid item) in retM (mkEntry (wi_rid item) (WTimestamp v))
  | _ => failM Fatal
  end.
Definition materialize (items : list WalRidItem) : M FileMapKV (list WALEntry) :=
  forM items materialize_entry.

(** [pwrite_full] of whole entries at a position. *)
Fixpoint write_entries (data : gmap Z WALEntry) (pos : Z) (entries : list WALEntry) : gmap Z WALEntry :=
  match entries with
  | [] => data
  | e :: rest => write_entries (<[pos := e]> data) (pos + WALENTRY_SIZE) rest
  end.

(** The worker's copy of [header.write_pos]. *)
Definition header_pos (worker : Z) (s : wal_state) : Z := default 0 (w_headers s !! worker).

Definition wal_flush (worker : Z) : M wal_state unit :=
  do* wal_init worker in
  let* items := take_pending in
  match items with
  | [] => retM tt
  | _ =>
      let* entries := w_on_kv (materialize items) in
      let* s := getM in
      let pos := header_pos worker s in
      let size := Z.of_nat (length entries) * WALENTRY_SIZE in
      do* checkM (pos + size <=? WAL_FILE_SIZE) in
      do* modifyM (fun s => mkWal (w_magic s) (w_write_pos s) (write_entries (w_data s) pos entries)
                                  (w_pending s) (w_kv s) (w_headers s)) in
      do* set_header worker (pos + size) in
      write_header (pos + size)
  end.

Definition wal_truncate (worker : Z) : M wal_state unit :=
  do* wal_init worker in
  do* modifyM (fun s => mkWal (w_magic s) (w_write_pos s) (w_data s) [] (w_kv s) (w_headers s)) in
  do* set_header worker WAL_DATA_OFFSET in
  write_header WAL_DATA_OFFSET.

(** [replay_entry]; [replaceString] reads the buffer up to a zero byte, which must be in it. *)
Definition replay_entry (entry : WALEntry) : M FileMapKV unit :=
  match we_value entry with
  | WInt i => do* kv_replaceInt (we_key entry) i in retM tt
  | WFloat f => do* kv_replaceFloat (we_key entry) f in retM tt
  | WText s => do* definedM (existsb (Z.eqb 0) s) in
               do* kv_replaceString (we_key entry) (until_zero s) in retM tt
  | WTimestamp t => do* kv_replaceTimestamp (we_key entry) t in retM tt
  end.

(** The zero bytes of the preallocated file read as an entry. *)
Definition zero_entry : WALEntry := mkEntry 0 (WInt 0).

Fixpoint replay_from (n : nat) (pos : Z) : M wal_state unit :=
  match n with
  | O => retM tt
  | S n' =>
      let* s := getM in
      do* w_on_kv (replay_entry (default zero_entry (w_data s !! pos))) in
      replay_from n' (pos + WALENTRY_SIZE)
  end.

Definition wal_replay (worker : Z) : M wal_state unit :=
  do* wal_init worker in
  let* s := getM in
  replay_from (Z.to_nat ((header_pos worker s - WAL_DATA_OFFSET + WALENTRY_SIZE - 1) / WALENTRY_SIZE))
              WAL_DATA_OFFSET.

(** [replay_log], [truncate] and [flush] of kv.hpp. *)
Definition replay_log (worker : Z) : M wal_state unit := do* wal_init worker in wal_replay worker.
Definition truncate (worker : Z) : M wal_state unit := do* wal_init worker in wal_truncate worker.
Definition flush_log (worker : Z) : M wal_state unit := do* wal_init worker in wal_flush worker.

(** The destructor: a worker that has used the log flushes it when it ends. *)
Definition is_init (worker : Z) (s : wal_state) : bool := match w_headers s !! worker with Some _ => true | None => false end.
Definition wal_destroy (worker : Z) : M wal_state unit :=
  let* s := getM in if is_init worker s then wal_flush worker else retM tt.

(** ** The file as a list of entries *)

(** The file holds exactly the log [es], and [worker]'s header agrees with it. *)
Record wal_log (s : wal_state) (worker : Z) (es : list WALEntry) : Prop := {
  wl_magic : w_magic s = WAL_MAGIC;
  wl_pos : w_write_pos s = WAL_DATA_OFFSET + WALENTRY_SIZE * Z.of_nat (length es);
  wl_header : w_headers s !! worker = Some (w_write_pos s);
  wl_data : forall i e, es !! i = Some e -> w_data s !! (WAL_DATA_OFFSET + WALENTRY_SIZE * Z.of_nat i) = Some e;
}.

Lemma write_entries_other data pos es q :
  (forall i, (i < length es)%nat -> q <> pos + WALENTRY_SIZE * Z.of_nat i) ->
  write_entries data pos es !! q = data !! q.
Proof.
  revert data pos. induction es as [|e es IH]; intros data pos Hq; cbn [write_entries]; [reflexivity|].
  rewrite IH.
  - apply lookup_insert_ne. specialize (Hq 0%nat). cbn [length] in Hq. lia.
  - intros i Hi. specialize (Hq (S i)). cbn [length] in Hq. unfold WALENTRY_SIZE in *. lia.
Qed.

Lemma write_entries_lookup data pos es i e :
  es !! i = Some e -> write_entries data pos es !! (pos + WALENTRY_SIZE * Z.of_nat i) = Some e.
Proof.
  revert data pos i. induction es as [|e0 es IH]; intros data pos i Hi; [discriminate|].
  cbn [write_entries]. destruct i as [|i].
  - injection Hi as ->. rewrite write_entries_other.
    + rewrite Z.mul_0_r, Z.add_0_r. apply lookup_insert_eq.
    + intros j _. unfold WALENTRY_SIZE. lia.
  - replace (pos + WALENTRY_SIZE * Z.of_nat (S i)) with (pos + WALENTRY_SIZE + WALENTRY_SIZE * Z.of_nat i) by lia.
    now apply IH.
Qed.

Lemma wal_init_done s worker pos : w_headers s !! worker = Some pos -> wal_init worker s = (Ok tt, s).
Proof. intros H. unfold wal_init, bindM, getM. now rewrite H. Qed.

(** A worker that starts on a file with a valid header adopts it. *)
Lemma wal_init_fresh s worker n :
  w_headers s !! worker = None -> w_magic s = WAL_MAGIC ->
  w_write_pos s = WAL_DATA_OFFSET + WALENTRY_SIZE * Z.of_nat n -> w_write_pos s <= WAL_FILE_SIZE ->
  wal_init worker s =
    (Ok tt, mkWal (w_magic s) (w_write_pos s) (w_data s) (w_pending s) (w_kv s)
                  (<[worker := w_write_pos s]> (w_headers s))).
Proof.
  intros Hh Hm Hp Hs. unfold wal_init, bindM, getM. rewrite Hh, Hm, Z.eqb_refl. cbn [negb orb].
  rewrite (proj2 (Z.ltb_ge _ WAL_DATA_OFFSET)) by (unfold WALENTRY_SIZE in *; lia).
  rewrite (proj2 (Z.ltb_ge WAL_FILE_SIZE _)) by lia.
  replace (w_write_pos s - WAL_DATA_OFFSET) with (Z.of_nat n * WALENTRY_SIZE) by lia.
  rewrite Z.mod_mul by (unfold WALENTRY_SIZE; lia). cbn [Z.eqb negb orb].
  unfold set_header, modifyM. now rewrite Hm.
Qed.

(** An entry that stands for an item: a text is followed by its terminator in the buffer. *)
Definition entry_for (e : WALEntry) (x : litem) : Prop :=
  we_key e = fst (projT2 x) /\
  match x with
  | existT TInt (_, v) => we_value e = WInt v
  | existT TFloat (_, v) => we_value e = WFloat v
  | existT TTimestamp (_, v) => we_value e = WTimestamp v
  | existT TText (_, v) => cstr v /\ exists rest, we_value e = WText (v ++ 0 :: rest)
  end.

Lemma existsb_zero (v rest : bytes) : existsb (Z.eqb 0) (v ++ 0 :: rest) = true.
Proof. rewrite existsb_app. apply orb_true_r. Qed.

Lemma replay_entry_item e x s :
  entry_for e x ->
  replay_entry e s = bindM (greplace (projT1 x) (fst (projT2 x)) (snd (projT2 x))) (fun _ => retM tt) s.
Proof.
  destruct x as [[] [key v]]; unfold entry_for, replay_entry; cbn [projT1 projT2 fst snd greplace].
  1-3: now intros (-> & ->).
  intros (-> & Hc & rest & ->). unfold definedM. rewrite existsb_zero. now rewrite until_zero_cstr.
Qed.

(** Replaying a stretch of the file replaces the values of the items it stands for. *)
Lemma replay_from_items es xs s pos :
  Forall2 entry_for es xs ->
  (forall i e, es !! i = Some e -> w_data s !! (pos + WALENTRY_SIZE * Z.of_nat i) = Some e) ->
  replay_from (length es) pos s = w_on_kv (replace_all xs) s.
Proof.
  intros Hex. revert s pos. induction Hex as [|e x es xs He _ IH]; intros s pos Hd.
  - unfold w_on_kv, zoomM, replace_all. cbn. now destruct s.
  - cbn [length replay_from]. unfold bindM at 1, getM at 1.
    pose proof (Hd 0%nat e eq_refl) as H0. rewrite Z.mul_0_r, Z.add_0_r in H0. rewrite H0.
    simpl (default _ _). unfold replace_all. cbn [iterM]. unfold bindM at 1, w_on_kv, zoomM.
    rewrite (replay_entry_item e x _ He). unfold bindM at 2.
    destruct (bindM _ _ (w_kv s)) as [[[]|f] kv']; [|reflexivity].
    rewrite IH; [reflexivity|]. intros i e' Hi. cbn [w_data]. rewrite <- (Hd (S i) e' Hi). f_equal. lia.
Qed.

(** Copying a fixed number of bytes from the start of a shorter string takes the string, its
    terminator and what follows. *)
Lemma raw_copy m p l n :
  holds_cstr m p l -> (length l < n)%nat ->
  exists rest, (fun i => byte_at m (p + Z.of_nat i)) <$> seq 0 n = l ++ 0 :: rest.
Proof.
  intros (_ & Hb & Hz) Hn.
  exists ((fun i => byte_at m (p + Z.of_nat i)) <$> seq (S (length l)) (n - S (length l))).
  replace n with (length l + S (n - S (length l)))%nat at 1 by lia.
  rewrite seq_app, fmap_app. f_equal.
  - apply list_eq. intros i. rewrite list_lookup_fmap.
    destruct (decide (i < length l)%nat) as [Hi|Hi].
    + rewrite lookup_seq_lt by exact Hi. destruct (lookup_lt_is_Some_2 l i Hi) as [b Hl].
      cbn. rewrite Hl. f_equal. now apply Hb.
    + rewrite lookup_seq_ge by lia. cbn. now rewrite lookup_ge_None_2 by lia.
  - cbn [Nat.add seq]. rewrite fmap_cons. f_equal. exact Hz.
Qed.

(** Items the file can log: short texts, in stores with a buffer's room behind them. *)
Definition file_item (s : FileMapKV) (x : litem) : Prop :=
  holds s x /\ text_size (snd (projT2 x)) <= 540 /\
  text_end s (rid_partition (fst (projT2 x))) + STRING_LENGTH <= STORE_SIZE.

Lemma getString_raw_spec s key v :
  kv_ok s -> islocal key = false -> gview s TText key = Some v -> (length v < 540)%nat ->
  text_end s (rid_partition key) + STRING_LENGTH <= STORE_SIZE ->
  exists rest, kv_getString_raw key s =
    (Ok (v ++ 0 :: rest), kv_with s (rid_partition key) (kv_part s (rid_partition key))).
Proof.
  intros Hok Hl Hv Hlen Hroom. set (p := rid_partition key) in *.
  unfold gview in Hv. fold p in Hv. cbn [pview] in Hv. unfold tview in Hv.
  destruct (Z.ltb_spec (rid_index key) TEXT_MAX_ARRAY_ELE_NUM) as [Hi|]; [|discriminate Hv].
  destruct (proj2 Hok p FInt) as [_ (He & _ & Hstr)]. set (x := p_text (kv_part s p)) in *.
  unfold ts_view in Hv. destruct (ts_offsets x !! rid_index key) as [off|] eqn:Eo; [|discriminate Hv].
  destruct (Hstr _ _ Eo) as (l & Hh & Hlt). rewrite (cstr_at_holds _ _ _ Hh) in Hv. injection Hv as ->.
  destruct (raw_copy (ts_bytes x) off v 540 Hh Hlen) as [rest Hrest]. exists rest.
  unfold kv_getString_raw. apply Z.eqb_neq in Hl. fold p. rewrite on_partition_run by assumption.
  unfold zoomM, ts_get_raw, bindM, getM, ts_offset. fold x.
  rewrite checkM_true by now apply Z.ltb_lt. rewrite Eo. simpl (default _ _).
  unfold definedM. rewrite (proj2 (Z.leb_le _ _)) by (unfold text_end in Hroom; fold x in Hroom; lia).
  cbn [fst snd retM]. unfold retM. rewrite Hrest. cbn [fst snd]. do 2 f_equal.
  unfold x. now destruct (kv_part s p).
Qed.

Lemma materialize_entry_spec s x :
  kv_ok s -> file_item s x ->
  exists e, materialize_entry (item_of x) s =
      (Ok e, kv_with s (rid_partition (fst (projT2 x))) (kv_part s (rid_partition (fst (projT2 x))))) /\
    entry_for e x.
Proof.
  destruct x as [t [key v]]. intros Hok ((Hv & Hl & Hk & Hi & Hwf) & Hts & Hroom).
  cbn [projT1 projT2 fst snd] in *. unfold materialize_entry, item_of. cbn [projT1 projT2 fst wi_type wi_rid].
  destruct t; cbn [type_code] in *; try pose proof (gget_spec s _ key v Hok Hl Hv) as Hg; cbn [gget] in *.
  1-3: rewrite (bindM_run _ _ _ _ _ Hg); eexists; split; [reflexivity|]; split; reflexivity.
  cbn [text_size] in Hts.
  destruct (getString_raw_spec s key v Hok Hl Hv ltac:(lia) Hroom) as [rest Hr].
  rewrite (bindM_run _ _ _ _ _ Hr). eexists. split; [reflexivity|].
  split; [reflexivity|]. split; [exact Hwf|]. now exists rest.
Qed.

Lemma file_item_self s p x : file_item s x -> file_item (kv_with s p (kv_part s p)) x.
Proof. unfold file_item, text_end. rewrite kv_part_self. intros [H1 H2]. split; [now apply holds_self|exact H2]. Qed.

Lemma materialize_spec xs s :
  kv_ok s -> Forall (file_item s) xs ->
  exists es s', materialize (item_of <$> xs) s = (Ok es, s') /\ Forall2 entry_for es xs /\
    kv_ok s' /\ forall p, kv_part s' p = kv_part s p.
Proof.
  unfold materialize. revert s. induction xs as [|x xs IH]; intros s Hok Hx.
  - exists [], s. split; [reflexivity|]. split; [constructor|]. now split.
  - apply Forall_cons_1 in Hx as [Hx Hxs]. destruct (materialize_entry_spec s x Hok Hx) as (e & Hr & He).
    set (p := rid_partition (fst (projT2 x))) in *.
    destruct (IH (kv_with s p (kv_part s p))) as (es & s' & Hrs & Hes & Hok' & Hp).
    + now apply kv_ok_self.
    + eapply Forall_impl; [|exact Hxs]. intros y. apply file_item_self.
    + exists (e :: es), s'. rewrite fmap_cons. cbn [forM].
      rewrite (bindM_run _ _ _ _ _ Hr), (bindM_run _ _ _ _ _ Hrs). split; [reflexivity|]. split; [now constructor|].
      split; [exact Hok'|]. intros q. rewrite Hp. apply kv_part_self.
Qed.

(** A flush appends the pending values at the position of the worker's own header. *)
Lemma wal_flush_run s worker pos xs :
  w_headers s !! worker = Some pos -> w_pending s = item_of <$> xs -> xs <> [] ->
  kv_ok (w_kv s) -> Forall (file_item (w_kv s)) xs ->
  pos + Z.of_nat (length xs) * WALENTRY_SIZE <= WAL_FILE_SIZE ->
  exists es kv', wal_flush worker s =
      (Ok tt, mkWal WAL_MAGIC (pos + Z.of_nat (length xs) * WALENTRY_SIZE)
                (write_entries (w_data s) pos es) [] kv'
                (<[worker := pos + Z.of_nat (length xs) * WALENTRY_SIZE]> (w_headers s))) /\
    Forall2 entry_for es xs /\ kv_ok kv' /\ forall p, kv_part kv' p = kv_part (w_kv s) p.
Proof.
  intros Hhead Hpend Hne Hok Hx Hfit.
  destruct (materialize_spec xs (w_kv s) Hok Hx) as (es & kv' & Hm & Hes & Hrest).
  pose proof (Forall2_length Hes) as Hlen. exists es, kv'. split; [|auto].
  unfold wal_flush. rewrite (bindM_run _ _ _ _ _ (wal_init_done s worker _ Hhead)).
  unfold take_pending, bindM at 1, getM, putM. unfold bindM at 1 2, retM. rewrite Hpend.
  destruct (item_of <$> xs) as [|i0 items] eqn:Eitems; [now destruct xs|].
  unfold w_on_kv, zoomM. unfold bindM at 1. cbn [w_kv w_magic w_write_pos w_data w_pending w_headers].
  rewrite Hm. unfold bindM, getM, checkM, header_pos. cbn [w_headers]. rewrite Hhead, Hlen.
  simpl (default _ _). rewrite (proj2 (Z.leb_le _ WAL_FILE_SIZE)) by lia. reflexivity.
Qed.

(** C15: the log file recovers committed values. A worker whose header agrees with a truncated
    log flushes the pending RIDs; when a worker of a restarted server replays the file into
    whatever persistent state it finds, every flushed RID gets back the value it had and no
    other RID changes. *)
Theorem wal_file_recovers (worker worker' : Z) (xs : list litem) (s : wal_state)
    (kv2 : FileMapKV) (pending2 : list WalRidItem) :
  wal_log s worker [] -> kv_ok (w_kv s) -> kv_ok kv2 ->
  w_pending s = item_of <$> xs -> xs <> [] -> Forall (file_item (w_kv s)) xs ->
  WAL_DATA_OFFSET + WALENTRY_SIZE * Z.of_nat (length xs) <= WAL_FILE_SIZE ->
  (forall p, text_end kv2 p + 540 * Z.of_nat (length xs) <= STORE_SIZE) ->
  exists s', wal_flush worker s = (Ok tt, s') /\ w_pending s' = [] /\
    exists s2', wal_replay worker'
        (mkWal (w_magic s') (w_write_pos s') (w_data s') pending2 kv2 ∅) = (Ok tt, s2') /\
      (forall t k v, in_u64 k -> (t, k) ∈ (litem_key <$> xs) -> gview (w_kv s) t k = Some v ->
         gview (w_kv s2') t k = Some v) /\
      (forall t k, in_u64 k -> (t, k) ∉ (litem_key <$> xs) -> gview (w_kv s2') t k = gview kv2 t k).
Proof.
  intros [Hmagic Hpos Hhead _] Hok Hok2 Hpend Hne Hx Hfit Hroom. cbn [length Z.of_nat] in Hpos.
  rewrite Z.mul_0_r, Z.add_0_r in Hpos.
  rewrite Hpos in Hhead.
  destruct (wal_flush_run s worker _ xs Hhead Hpend Hne Hok Hx ltac:(lia)) as (es & kv' & Hflush & Hes & _).
  pose proof (Forall2_length Hes) as Hlen. rewrite <- Hlen in Hflush.
  set (pos' := WAL_DATA_OFFSET + Z.of_nat (length es) * WALENTRY_SIZE) in *.
  eexists. split; [exact Hflush|]. split; [reflexivity|]. cbn [w_magic w_write_pos w_data].
  assert (Hrep : Forall replayable xs).
  { eapply Forall_impl; [|exact Hx]. intros [t [key v]] ((_ & Hl & Hk & Hi & Hwf) & Hts & _). cbn in *.
    repeat split; try assumption; try apply Hk; [destruct t; cbn in *; easy|destruct t; cbn in *; lia]. }
  destruct (replace_all_spec xs kv2 Hok2 Hrep Hroom) as (kv2' & Hr & _ & Hf & Hin).
  eexists. split.
  { unfold wal_replay.
    rewrite (bindM_run _ _ _ _ _ (wal_init_fresh (mkWal WAL_MAGIC pos' _ pending2 kv2 ∅) worker' (length es)
               (lookup_empty _) eq_refl ltac:(cbn [w_write_pos]; unfold pos'; lia)
               ltac:(cbn [w_write_pos]; unfold pos'; lia))).
    unfold bindM, getM, header_pos. cbn [w_headers w_write_pos w_magic w_data w_pending w_kv].
    rewrite lookup_insert_eq. simpl (default _ _).
    replace (Z.to_nat ((pos' - WAL_DATA_OFFSET + WALENTRY_SIZE - 1) / WALENTRY_SIZE)) with (length es)
      by (unfold pos', WALENTRY_SIZE; dlia).
    rewrite (replay_from_items es xs) by
      (exact Hes || (intros i e Hi; cbn [w_data]; now apply write_entries_lookup)).
    unfold w_on_kv, zoomM. cbn [w_kv]. rewrite Hr. reflexivity. }
  cbn [w_kv]. split; [|exact Hf]. intros t k v Hk Hel Hv. destruct (Hin t k Hk Hel) as (v' & Hv' & ->).
  apply list_elem_of_In in Hv'. rewrite Forall_forall in Hx. destruct (Hx _ Hv') as ((Hg & _) & _).
  cbn in Hg. congruence.
Qed.

Definition sample_wal : wal_state :=
  mkWal WAL_MAGIC WAL_DATA_OFFSET ∅ (item_of <$> sample_items) sample_kv {[0 := WAL_DATA_OFFSET]}.

Lemma sample_text_end p : text_end sample_kv p + STRING_LENGTH <= STORE_SIZE.
Proof.
  unfold text_end, kv_part. destruct (decide (p = 7)) as [->|Hne]; [vm_compute; congruence|].
  replace (fk_files sample_kv !! p) with (@None pstores); [vm_compute; congruence|].
  symmetry. change (fk_files sample_kv) with (<[7 := kv_part sample_kv 7]> (∅ : gmap Z pstores)).
  now rewrite lookup_insert_ne by congruence.
Qed.

Lemma sample_file_items : Forall (file_item sample_kv) sample_items.
Proof.
  pose proof sample_items_hold as H. apply Forall_cons_1 in H as [H1 H]. apply Forall_cons_1 in H as [H2 _].
  repeat constructor; try assumption; try apply sample_text_end; vm_compute; congruence.
Qed.

Lemma wal_file_recovers_witness :
  exists s', wal_flush 0 sample_wal = (Ok tt, s') /\ w_pending s' = [] /\
    exists s2', wal_replay 3
        (mkWal (w_magic s') (w_write_pos s') (w_data s') [] kv_empty ∅) = (Ok tt, s2') /\
      (forall t k v, in_u64 k -> (t, k) ∈ (litem_key <$> sample_items) -> gview sample_kv t k = Some v ->
         gview (w_kv s2') t k = Some v) /\
      (forall t k, in_u64 k -> (t, k) ∉ (litem_key <$> sample_items) ->
         gview (w_kv s2') t k = gview kv_empty t k).
Proof.
  apply (wal_file_recovers 0 3 sample_items sample_wal kv_empty []).
  - split; reflexivity || (intros i e H; discriminate H).
  - apply sample_kv_ok.
  - apply kv_ok_empty.
  - reflexivity.
  - discriminate.
  - apply sample_file_items.
  - vm_compute. congruence.
  - intros p. rewrite text_end_empty. vm_compute. congruence.
Defined.

(** [flush] trusts the header each worker read when it started. Two workers that both
    started on the truncated log flush one after the other, each under the file lock: the
    second writes over the first one's entries and sets the file's position back, so the
    log describes only the second worker's values and the first worker's are lost to
    recovery. *)
Theorem wal_second_worker_overwrites (w1 w2 : Z) (x1 x2 : litem) (s : wal_state) :
  w1 <> w2 -> w_headers s !! w1 = Some WAL_DATA_OFFSET -> w_headers s !! w2 = Some WAL_DATA_OFFSET ->
  w_pending s = [] -> kv_ok (w_kv s) -> file_item (w_kv s) x1 -> file_item (w_kv s) x2 ->
  exists s', (do* appendBatch w1 [item_of x1] in do* wal_flush w1 in
              do* appendBatch w2 [item_of x2] in wal_flush w2) s = (Ok tt, s') /\
    w_write_pos s' = WAL_DATA_OFFSET + WALENTRY_SIZE /\
    exists e, w_data s' !! WAL_DATA_OFFSET = Some e /\ entry_for e x2.
Proof.
  intros Hw H1 H2 Hpend Hok Hx1 Hx2.
  assert (Happ : forall w x st, w_headers st !! w = Some WAL_DATA_OFFSET -> w_pending st = [] ->
    appendBatch w [item_of x] st =
    (Ok tt, mkWal (w_magic st) (w_write_pos st) (w_data st) [item_of x] (w_kv st) (w_headers st))).
  { intros w x st Hh Hp. unfold appendBatch. rewrite (bindM_run _ _ _ _ _ (wal_init_done st w _ Hh)).
    unfold bindM, getM, modifyM. rewrite !checkM_true; [now rewrite Hp| |]; rewrite ?Hp; [reflexivity|].
    destruct x as [[] [? ?]]; reflexivity. }
  rewrite (bindM_run _ _ _ _ _ (Happ w1 x1 s H1 Hpend)).
  destruct (wal_flush_run (mkWal (w_magic s) (w_write_pos s) (w_data s) [item_of x1] (w_kv s) (w_headers s))
              w1 WAL_DATA_OFFSET [x1] H1 eq_refl ltac:(discriminate) Hok ltac:(constructor; [exact Hx1|constructor])
              ltac:(vm_compute; congruence)) as (es1 & kv1 & Hf1 & _ & Hok1 & Hp1).
  rewrite (bindM_run _ _ _ _ _ Hf1). clear Hf1. cbn [w_data w_headers] in *.
  assert (Hh2 : forall q, (<[w1 := q]> (w_headers s)) !! w2 = Some WAL_DATA_OFFSET)
    by (intros q; now rewrite lookup_insert_ne).
  match goal with |- context [bindM (appendBatch w2 _) _ ?st] =>
    rewrite (bindM_run _ _ _ _ _ (Happ w2 x2 st (Hh2 _) eq_refl)) end.
  cbn [w_magic w_write_pos w_data w_kv w_headers].
  match goal with |- context [wal_flush w2 ?st] =>
    destruct (wal_flush_run st w2 WAL_DATA_OFFSET [x2] (Hh2 _) eq_refl ltac:(discriminate) Hok1)
      as (es2 & kv2 & Hf2 & He2 & _) end.
  - constructor; [|constructor]. split; [|split; [apply Hx2|]].
    + destruct Hx2 as [Hh _]. unfold holds, gview in *. cbn [w_kv] in *. now rewrite Hp1.
    + unfold text_end. cbn [w_kv] in *. rewrite Hp1. apply Hx2.
  - vm_compute. congruence.
  - rewrite Hf2. eexists. split; [reflexivity|]. cbn [w_write_pos w_data length]. split; [reflexivity|].
    inversion He2 as [|e ? ? ? He Hnil]; subst. inversion Hnil; subst. exists e. split; [|exact He].
    cbn [write_entries]. apply lookup_insert_eq.
Qed.

Lemma wal_second_worker_overwrites_witness :
  exists s', (do* appendBatch 0 [item_of (li TInt (make_partitioned_rid 7 0) 42)] in do* wal_flush 0 in
              do* appendBatch 1 [item_of (li TText (make_partitioned_rid 7 0) [104; 105])] in wal_flush 1)
       (mkWal WAL_MAGIC WAL_DATA_OFFSET ∅ [] sample_kv {[0 := WAL_DATA_OFFSET; 1 := WAL_DATA_OFFSET]}) = (Ok tt, s') /\
    w_write_pos s' = WAL_DATA_OFFSET + WALENTRY_SIZE /\
    exists e, w_data s' !! WAL_DATA_OFFSET = Some e /\
      entry_for e (li TText (make_partitioned_rid 7 0) [104; 105]).
Proof.
  pose proof sample_file_items as H. apply Forall_cons_1 in H as [H1 H]. apply Forall_cons_1 in H as [H2 _].
  apply (wal_second_worker_overwrites 0 1); try assumption; try reflexivity; [lia|apply sample_kv_ok].
Defined.
