(* ===== verification/Segments.v ===== *)
(** Durability of the persistent stores: the mapped files behind FileMapKVStoreOperator
    (file-map-operator.hpp) as the page cache shows them and as the disk holds them, the flushes
    of the operator, which ask for a write-back and do not wait for it, a loss of power; and the
    operator of the build without partitions. *)
From S2P Require Import Prelude Rid LocalStore FileMap KV Wal.

(** ** Segments *)

(** [cached] is what processes see through their mappings, [disk] what the disk holds of the
    files of a partition, [requested] the files whose write-back was asked for since the machine
    runs. *)
Record machine : Type := mkMach { cached : FileMapKV; disk : gmap Z pstores; requested : list (vtype * Z) }.
Definition set_cached (k : FileMapKV) (m : machine) : machine := mkMach k (disk m) (requested m).
Definition disk_part (m : machine) (p : RID) : pstores := default p_new (disk m !! p).

(** [segment.flush()] of Boost.Interprocess with its default [async = true], an [msync] with
    MS_ASYNC: the call asks for the write-back of the whole mapping and returns before it is
    done. *)
Definition segment_flush (t : vtype) (p : RID) : M machine unit :=
  modifyM (fun m => mkMach (cached m) (disk m) (requested m ++ [(t, p)])).

(** [init_partition], whose [init_store] flushes each segment it opened. *)
Definition open_partition (p : RID) : M machine unit :=
  let* m := getM in
  do* zoomM cached set_cached (init_partition p) in
  if decide (p ∈ fk_open (cached m)) then retM tt
  else do* segment_flush TInt p in do* segment_flush TFloat p in do* segment_flush TTimestamp p in segment_flush TText p.

(** An operation of the operator on a partition. *)
Definition at_partition {A} (p : RID) (c : M FileMapKV A) : M machine A :=
  do* open_partition p in zoomM cached set_cached c.
Definition m_put (t : vtype) (v : vty t) (p : RID) : M machine RID := at_partition p (gput t v p).
Definition m_get (t : vtype) (key : RID) : M machine (vty t) := at_partition (rid_partition key) (gget t key).
Definition m_replace (t : vtype) (key : RID) (v : vty t) : M machine RID := at_partition (rid_partition key) (greplace t key v).

(** [flush]: [for (auto &[_, segment] : int_segments) segment.flush()] and so on. *)
Definition flush_segments (t : vtype) : M machine unit :=
  let* m := getM in iterM (elements (fk_open (cached m))) (segment_flush t).
Definition flush : M machine unit :=
  do* flush_segments TInt in do* flush_segments TFloat in do* flush_segments TTimestamp in flush_segments TText.
(** The destructor flushes, and the mappings go with the operator. *)
Definition unmap : M machine unit := modifyM (fun m => set_cached (mkFK (fk_files (cached m)) ∅) m).
Definition destroy : M machine unit := do* flush in unmap.

(** [flush_async]: the ranges given to [msync] with MS_ASYNC, which waits for nothing. [addr]
    are the addresses of the arrays of a store. *)
Definition async_range (addr : vtype -> RID -> Z * Z) (t : vtype) (m : machine) (p : RID) : option (Z * Z) :=
  match t with
  | TInt => fs_flush_async 4 (fst (addr t p)) (p_int (kv_part (cached m) p))
  | TFloat => fs_flush_async 4 (fst (addr t p)) (p_float (kv_part (cached m) p))
  | TTimestamp => fs_flush_async 8 (fst (addr t p)) (p_timestamp (kv_part (cached m) p))
  | TText => ts_flush_async (fst (addr t p)) (snd (addr t p)) (p_text (kv_part (cached m) p))
  end.
Definition flush_async (addr : vtype -> RID -> Z * Z) : M machine (list (Z * Z)) :=
  let* m := getM in
  retM (concat (map (fun t => omap (async_range addr t m) (elements (fk_open (cached m)))) [TInt; TFloat; TTimestamp; TText])).

(** ** What the system does on its own *)

(** What is written to the disk as a whole: the counter [cur_rid], the end of the used bytes, an
    element or an offset, a byte of the strings. *)
Inductive cell : Type :=
| Counter
| EndMark
| Item (k : Z)
| TextByte (a : Z).
Definition fs_cell (s : fstore) (x : cell) : Z :=
  match x with Counter => fs_cur s | Item k => fs_read s k | _ => 0 end.
Definition ts_cell (s : tstore) (x : cell) : Z :=
  match x with Counter => ts_cur s | EndMark => ts_end s | Item k => ts_offset s k | TextByte a => byte_at (ts_bytes s) a end.
Definition p_cell (ps : pstores) (t : vtype) : cell -> Z :=
  match t with
  | TInt => fs_cell (p_int ps)
  | TFloat => fs_cell (p_float ps)
  | TTimestamp => fs_cell (p_timestamp ps)
  | TText => ts_cell (p_text ps)
  end.

(** Some of what changed is written back, cell by cell: a cell is on the disk as it was or as it
    is, and those in [W] are written. *)
Definition written_back (W : vtype -> Z -> cell -> Prop) (m m' : machine) : Prop :=
  cached m' = cached m /\ requested m' = requested m /\ forall t p x,
    let now := p_cell (kv_part (cached m) p) t x in
    (p_cell (disk_part m' p) t x = p_cell (disk_part m p) t x \/ p_cell (disk_part m' p) t x = now) /\
    (W t p x -> p_cell (disk_part m' p) t x = now).

(** After a loss of power the files are what the disk holds, and no process runs. *)
Definition power_loss (m : machine) : machine := mkMach (mkFK (disk m) ∅) (disk m) [].

(** What processes do while the value of type [t] under [key] is not replaced. A process that
    ends loses its mappings. *)
Definition is_key (t : vtype) (key : RID) (t' : vtype) (key' : RID) : Prop :=
  t' = t /\ rid_partition key' = rid_partition key /\ rid_index key' = rid_index key.
Inductive mop (t : vtype) (key : RID) : machine -> machine -> Prop :=
| MPut t' v p rid m m' : wf_text v -> text_size v <= 2 ^ 32 -> m_put t' v p m = (Ok rid, m') -> mop t key m m'
| MGet t' key' v m m' : m_get t' key' m = (Ok v, m') -> mop t key m m'
| MReplace t' key' v rid m m' : ~ is_key t key t' key' -> wf_text v -> text_size v <= 2 ^ 32 ->
    m_replace t' key' v m = (Ok rid, m') -> mop t key m m'
| MFlush m m' : flush m = (Ok tt, m') -> mop t key m m'
| MFlushAsync addr r m m' : flush_async addr m = (Ok r, m') -> mop t key m m'
| MExit m m' : unmap m = (Ok tt, m') -> mop t key m m'.
(** What happens to a machine. *)
Inductive mstep (t : vtype) (key : RID) : machine -> machine -> Prop :=
| MOp m m' : mop t key m m' -> mstep t key m m'
| MWriteBack W m m' : written_back W m m' -> mstep t key m m'
| MPowerLoss m : mstep t key m (power_loss m).

(** The machine runs with power, and the cells in [W] are written at least once. *)
Inductive syncing (t : vtype) (key : RID) (m : machine) : (vtype -> Z -> cell -> Prop) -> machine -> Prop :=
| sync_start : syncing t key m (fun _ _ _ => False) m
| sync_op W m1 m2 : syncing t key m W m1 -> mop t key m1 m2 -> syncing t key m W m2
| sync_write W W' m1 m2 : syncing t key m W m1 -> written_back W' m1 m2 ->
    syncing t key m (fun t' p x => W t' p x \/ W' t' p x) m2.
(** The write-back of a file has completed when all its cells are written. *)
Definition completed (W : vtype -> Z -> cell -> Prop) (f : vtype * Z) : Prop := forall x, W (fst f) (snd f) x.

(** ** Values that are safe *)

(** An element below the counter, and a string below the end of the used bytes. *)
Definition fkeeps (cap i v : Z) (x : fstore) : Prop := 0 <= i < fs_cur x /\ fs_cur x <= cap /\ fs_read x i = v.
Definition tkeeps (i o : Z) (l : bytes) (x : tstore) : Prop :=
  0 <= i < ts_cur x /\ ts_cur x <= TEXT_MAX_ARRAY_ELE_NUM /\ ts_offset x i = o /\ holds_cstr (ts_bytes x) o l /\
  o + Z.of_nat (length l) < ts_end x /\ 0 <= ts_end x <= STORE_SIZE.
Definition pkeeps (t : vtype) (i o : Z) (ps : pstores) : vty t -> Prop :=
  match t with
  | TInt => fun v => fkeeps (MAX_ARRAY_ELE_NUM 4) i v (p_int ps)
  | TFloat => fun v => fkeeps (MAX_ARRAY_ELE_NUM 4) i v (p_float ps)
  | TTimestamp => fun v => fkeeps (MAX_ARRAY_ELE_NUM 8) i v (p_timestamp ps)
  | TText => fun v => tkeeps i o v (p_text ps)
  end.

Lemma fkeeps_put size i v w x k x' : 0 < MAX_ARRAY_ELE_NUM size < 2 ^ 64 ->
  fkeeps (MAX_ARRAY_ELE_NUM size) i v x -> fs_put size w x = (Ok k, x') -> fkeeps (MAX_ARRAY_ELE_NUM size) i v x'.
Proof.
  intros Hm (Hi & Hc & Hv). unfold fs_put, bindM, getM, putM, checkM, modifyM, retM.
  destruct (Z.ltb_spec (fs_cur x) (MAX_ARRAY_ELE_NUM size)); [|discriminate]. cbn [fs_cur fs_arr]. rewrite u64_small by (unfold in_u64; lia).
  intros [= <- <-]. unfold fkeeps, fs_read in *. cbn [fs_cur fs_arr]. rewrite lookup_insert_ne by lia. lia.
Qed.

Lemma fkeeps_replace size cap i v j w x x' : fkeeps cap i v x -> j <> i -> fs_replace size j w x = (Ok tt, x') -> fkeeps cap i v x'.
Proof.
  intros (Hi & Hc & Hv) Hj. unfold fs_replace, bindM, checkM, modifyM. destruct (j <? _); [|discriminate]. intros [= <-].
  unfold fkeeps, fs_read in *. cbn [fs_cur fs_arr]. now rewrite lookup_insert_ne by congruence.
Qed.

Lemma tkeeps_write i o l j w x x' : tkeeps i o l x -> j <> i -> Z.of_nat (length w) < 2 ^ 32 -> ts_write j w x = (Ok tt, x') -> tkeeps i o l x'.
Proof.
  intros (Hi & Hc & Ho & Hl & He & Hs) Hj Hw. assert (STORE_SIZE < 2 ^ 62) by reflexivity.
  unfold ts_write, bindM, getM, putM, checkM, modifyM. rewrite u64_small by (unfold in_u64; lia).
  destruct (Z.leb_spec (ts_end x + (Z.of_nat (length w) + 1)) STORE_SIZE); [|discriminate]. intros [= <-].
  unfold tkeeps, ts_offset in *. cbn [ts_cur ts_end ts_offsets ts_bytes]. rewrite lookup_insert_ne by congruence.
  split; [lia|]. split; [lia|]. split; [exact Ho|]. split; [now apply holds_cstr_frame|lia].
Qed.

Lemma tkeeps_put i o l w x k x' : tkeeps i o l x -> Z.of_nat (length w) < 2 ^ 32 -> ts_put w x = (Ok k, x') -> tkeeps i o l x'.
Proof.
  intros Hk Hw. unfold ts_put. unfold getM at 1. cbn [bindM]. unfold putM at 1. cbn [bindM]. unfold bindM at 1, checkM.
  destruct (Z.ltb_spec (ts_cur x) TEXT_MAX_ARRAY_ELE_NUM); [|discriminate]. intros Hrun. apply bindM_ok in Hrun as ([] & x1 & H1 & [= <- <-]).
  refine (tkeeps_write i o l (ts_cur x) w _ x1 _ _ Hw H1); [|destruct Hk; lia].
  destruct Hk as (Hi & Hc & Hrest). assert (TEXT_MAX_ARRAY_ELE_NUM < 2 ^ 63) by reflexivity. unfold tkeeps. cbn [ts_cur ts_end ts_offsets ts_bytes].
  rewrite u64_small by (unfold in_u64; lia). split; [lia|]. split; [lia|exact Hrest].
Qed.

Lemma tkeeps_replace i o l j w x x' : tkeeps i o l x -> j <> i -> Z.of_nat (length w) < 2 ^ 32 -> ts_replace j w x = (Ok tt, x') -> tkeeps i o l x'.
Proof.
  intros Hk Hj Hw. unfold ts_replace, bindM at 1, checkM. destruct (j <? _); [|discriminate]. now apply tkeeps_write.
Qed.

(** What reading a safe value gives. *)
Lemma fkeeps_get size i v x : fkeeps (MAX_ARRAY_ELE_NUM size) i v x -> fs_get size i x = (Ok v, x).
Proof. intros (Hi & Hc & Hv). rewrite fs_get_run by lia. now rewrite Hv. Qed.
Lemma tkeeps_get i o l x : tkeeps i o l x -> ts_get i x = (Ok l, x).
Proof.
  intros (Hi & Hc & Ho & Hl & _). unfold ts_get, bindM, checkM, getM, retM. rewrite (proj2 (Z.ltb_lt _ _)) by lia.
  rewrite Ho. now rewrite (cstr_at_holds _ _ _ Hl).
Qed.

(** A value is safe when each of its cells is: what the cell must hold. *)
Definition fcell_safe (cap i v : Z) (x : cell) (z : Z) : Prop :=
  match x with Counter => 0 <= i < z /\ z <= cap | Item k => k = i -> z = v | _ => True end.
Definition tcell_safe (i o : Z) (l : bytes) (x : cell) (z : Z) : Prop :=
  match x with
  | Counter => 0 <= i < z /\ z <= TEXT_MAX_ARRAY_ELE_NUM
  | EndMark => o + Z.of_nat (length l) < z /\ 0 <= z <= STORE_SIZE
  | Item k => k = i -> z = o
  | TextByte a => forall j : nat, a = o + Z.of_nat j -> (forall b, l !! j = Some b -> z = b) /\ (j = length l -> z = 0)
  end.
Definition cell_safe (t : vtype) (i o : Z) : vty t -> cell -> Z -> Prop :=
  match t with
  | TInt => fun v => fcell_safe (MAX_ARRAY_ELE_NUM 4) i v
  | TFloat => fun v => fcell_safe (MAX_ARRAY_ELE_NUM 4) i v
  | TTimestamp => fun v => fcell_safe (MAX_ARRAY_ELE_NUM 8) i v
  | TText => fun v => tcell_safe i o v
  end.

Lemma fkeeps_cells cap i v s : fkeeps cap i v s <-> forall x, fcell_safe cap i v x (fs_cell s x).
Proof.
  split.
  - intros (A & B & C) []; cbn; [easy|exact I|now intros ->|exact I].
  - intros H. pose proof (H Counter). pose proof (H (Item i) eq_refl). cbn in *. now unfold fkeeps.
Qed.
Lemma tkeeps_cells i o l s : tkeeps i o l s <-> cstr l /\ forall x, tcell_safe i o l x (ts_cell s x).
Proof.
  split.
  - intros (A & B & C & (Dc & Db & Dz) & E & F). split; [exact Dc|]. intros []; cbn; [easy|easy|now intros ->|].
    intros j ->. split; [apply Db|now intros ->].
  - intros [Dc H]. pose proof (H Counter) as [A B]. pose proof (H EndMark) as [C D]. pose proof (H (Item i) eq_refl) as E. cbn in *.
    unfold tkeeps. split_and!; try tauto. split; [exact Dc|]. split.
    + intros j b Hj. exact (proj1 (H (TextByte _) j eq_refl) b Hj).
    + exact (proj2 (H (TextByte _) (length l) eq_refl) eq_refl).
Qed.
Lemma pkeeps_safe t i o v ps : pkeeps t i o ps v -> forall x, cell_safe t i o v x (p_cell ps t x).
Proof. destruct t; cbn; [apply fkeeps_cells..|apply tkeeps_cells]. Qed.
(** Another version of the file in which all cells are safe keeps the value. *)
Lemma safe_pkeeps t i o v ps ps' : pkeeps t i o ps v -> (forall x, cell_safe t i o v x (p_cell ps' t x)) -> pkeeps t i o ps' v.
Proof.
  destruct t; cbn; intros Hk H; [now apply fkeeps_cells..|]. apply tkeeps_cells in Hk as [Hc _]. now apply tkeeps_cells.
Qed.

(** ** Operations keep safe values *)

Lemma on_partition_ok {A} s p (c : M pstores A) r s' : files_open s -> on_partition p c s = (Ok r, s') ->
  exists ps, c (kv_part s p) = (Ok r, ps) /\ s' = kv_with s p ps.
Proof.
  intros Ho H. destruct (decide (p = RID_LOCAL_PARTITION)) as [->|Hp]; [discriminate|].
  rewrite on_partition_open_run in H by assumption. destruct (c (kv_part s p)) as [r0 ps]. injection H as -> <-. now exists ps.
Qed.

Lemma zoomM_ok {S T A} (g : S -> T) (u : T -> S -> S) (c : M T A) s r s' : zoomM g u c s = (Ok r, s') -> exists x, c (g s) = (Ok r, x) /\ s' = u x s.
Proof. unfold zoomM. destruct (c (g s)) as [r0 x]. intros [= -> <-]. now exists x. Qed.

Lemma files_open_with s p ps : files_open s -> files_open (kv_with s p ps).
Proof.
  intros Ho q Hq. unfold kv_with in *. cbn in *. destruct (decide (q = p)) as [->|]; [rewrite lookup_insert_eq; eauto|].
  rewrite lookup_insert_ne by congruence. apply Ho. set_solver.
Qed.

(** A computation on the stores of a partition that keeps the value. *)
Definition keeper {A} (t : vtype) (i o : Z) (v : vty t) (c : M pstores A) : Prop :=
  forall ps r ps', pkeeps t i o ps v -> c ps = (Ok r, ps') -> pkeeps t i o ps' v.

Lemma keeper_fput t i o v t' w : keeper t i o v (zoomM (p_get t') (p_set t') (fs_put (fsizeof t') w)).
Proof.
  intros ps r ps' Hk H. apply zoomM_ok in H as (x & H & ->).
  assert (Hm : forall t, 0 < MAX_ARRAY_ELE_NUM (fsizeof t) < 2 ^ 64) by (intros u; pose proof (max_ele_bound u); lia).
  destruct t, t'; cbn in *; try exact Hk;
    [exact (fkeeps_put 4 _ _ _ _ _ _ (Hm FInt) Hk H)|exact (fkeeps_put 4 _ _ _ _ _ _ (Hm FInt) Hk H)|exact (fkeeps_put 8 _ _ _ _ _ _ (Hm FTimestamp) Hk H)].
Qed.
Definition vtype_of (t : ftype) : vtype := match t with FInt => TInt | FFloat => TFloat | FTimestamp => TTimestamp end.
Lemma keeper_freplace t i o v t' j w : ~ (vtype_of t' = t /\ j = i) -> keeper t i o v (zoomM (p_get t') (p_set t') (fs_replace (fsizeof t') j w)).
Proof.
  intros Hne ps [] ps' Hk H. apply zoomM_ok in H as (x & H & ->).
  destruct t, t'; cbn in *; try exact Hk; (eapply fkeeps_replace; [exact Hk| |exact H]); intros ->; now apply Hne.
Qed.
Lemma keeper_fget t i o v t' j : keeper t i o v (zoomM (p_get t') (p_set t') (fs_get (fsizeof t') j)).
Proof.
  intros ps r ps' Hk H. apply zoomM_ok in H as (x & H & ->). unfold fs_get, bindM, checkM, getM, retM in H.
  destruct (j <? _); [|discriminate]. injection H as _ <-. now rewrite p_set_get.
Qed.
Lemma keeper_tput t i o v w : Z.of_nat (length w) < 2 ^ 32 -> keeper t i o v (zoomM p_text p_set_text (ts_put w)).
Proof.
  intros Hw ps r ps' Hk H. apply zoomM_ok in H as (x & H & ->). destruct t; try exact Hk. exact (tkeeps_put _ _ _ _ _ _ _ Hk Hw H).
Qed.
Lemma keeper_treplace t i o v j w : ~ (TText = t /\ j = i) -> Z.of_nat (length w) < 2 ^ 32 -> keeper t i o v (zoomM p_text p_set_text (ts_replace j w)).
Proof.
  intros Hne Hw ps [] ps' Hk H. apply zoomM_ok in H as (x & H & ->). destruct t; try exact Hk.
  apply (tkeeps_replace _ _ _ j w _ _ Hk); [|exact Hw|exact H]. intros ->. now apply Hne.
Qed.
Lemma keeper_tget t i o v j : keeper t i o v (zoomM p_text p_set_text (ts_get j)).
Proof.
  intros ps r ps' Hk H. apply zoomM_ok in H as (x & H & ->). unfold ts_get, bindM, checkM, getM, retM in H.
  destruct (j <? _); [|discriminate]. destruct (cstr_at _ _); [|discriminate]. injection H as _ <-. now destruct ps.
Qed.

(** The value is safe in the files, and its cells on the disk are where [W] says. *)
Record mkeeps (t : vtype) (p i o : Z) (v : vty t) (W : cell -> Prop) (m : machine) : Prop := {
  mk_open : files_open (cached m);
  mk_cached : pkeeps t i o (kv_part (cached m) p) v;
  mk_disk : forall x, W x -> cell_safe t i o v x (p_cell (disk_part m p) t x);
}.

(** A computation on the map that keeps the value of partition [p] in the files. *)
Definition kv_keeper {A} (t : vtype) (p i o : Z) (v : vty t) (c : M FileMapKV A) : Prop :=
  forall s r s', files_open s -> pkeeps t i o (kv_part s p) v -> c s = (Ok r, s') -> files_open s' /\ pkeeps t i o (kv_part s' p) v.

Lemma on_partition_keeper {A B} t p i o v q (c : M pstores A) (k : A -> M FileMapKV B) :
  (q = p -> keeper t i o v c) -> (forall a s r s', k a s = (Ok r, s') -> s' = s) -> kv_keeper t p i o v (bindM (on_partition q c) k).
Proof.
  intros Hc Hpure s r s' Ho Hk H. apply bindM_ok in H as (a & s1 & H & Hrest). apply Hpure in Hrest as ->.
  destruct (on_partition_ok s q c a s1 Ho H) as (ps & Hps & ->). split; [now apply files_open_with|].
  rewrite kv_part_with. case_decide as E; [|exact Hk]. subst q. exact (Hc eq_refl _ _ _ Hk Hps).
Qed.

Lemma check_ret_pure {S A} (b : bool) (x : A) (s : S) r s' : (do* checkM b in retM x) s = (Ok r, s') -> s' = s.
Proof. unfold bindM, checkM. destruct b; [|discriminate]. now intros [= _ <-]. Qed.

Lemma gput_keeper t p i o v t' (w : vty t') q : text_size w <= 2 ^ 32 -> kv_keeper t p i o v (gput t' w q).
Proof.
  intros Hw. destruct t'; cbn [gput text_size] in *; unfold kv_putInt, kv_putFloat, kv_putTimestamp, kv_put, kv_putString;
    (apply on_partition_keeper; [intros _|intros a s r s'; apply check_ret_pure]).
  - apply (keeper_fput t i o v FInt).
  - apply (keeper_fput t i o v FFloat).
  - apply (keeper_fput t i o v FTimestamp).
  - apply keeper_tput. lia.
Qed.

Lemma greplace_keeper t p i o v t' key' (w : vty t') : text_size w <= 2 ^ 32 -> ~ (t' = t /\ rid_partition key' = p /\ rid_index key' = i) ->
  kv_keeper t p i o v (greplace t' key' w).
Proof.
  intros Hw Hne. destruct t'; cbn [greplace text_size] in *;
    unfold kv_replaceInt, kv_replaceFloat, kv_replaceTimestamp, kv_replace, kv_replaceString;
    (apply on_partition_keeper; [intros Hp|intros a s r s' [= _ <-]; reflexivity]).
  - apply (keeper_freplace t i o v FInt). tauto.
  - apply (keeper_freplace t i o v FFloat). tauto.
  - apply (keeper_freplace t i o v FTimestamp). tauto.
  - apply keeper_treplace; [tauto|lia].
Qed.

Lemma bindM_ret {S A} (c : M S A) s : bindM c retM s = c s.
Proof. unfold bindM. now destruct (c s) as [[]]. Qed.

Lemma gget_keeper t p i o v t' key' : kv_keeper t p i o v (gget t' key').
Proof.
  assert (Hret : forall A q (c : M pstores A), (q = p -> keeper t i o v c) -> kv_keeper t p i o v (on_partition q c)).
  { intros A q c Hc s r s' Ho Hk H. apply (on_partition_keeper t p i o v q c retM Hc) with (r := r) (s := s); try assumption.
    - intros a s0 r0 s0' [= _ <-]. reflexivity.
    - now rewrite bindM_ret. }
  destruct t'; cbn [gget]; unfold kv_getInt, kv_getFloat, kv_getTimestamp, kv_get, kv_getString; apply Hret; intros _.
  - apply (keeper_fget t i o v FInt).
  - apply (keeper_fget t i o v FFloat).
  - apply (keeper_fget t i o v FTimestamp).
  - apply keeper_tget.
Qed.

(** ** Flushing *)

Lemma iter_flush_run t qs m : iterM qs (segment_flush t) m =
  (Ok tt, mkMach (cached m) (disk m) (requested m ++ map (pair t) qs)).
Proof.
  revert m. induction qs as [|q qs IH]; intros m; cbn [iterM map].
  - rewrite app_nil_r. now destruct m.
  - unfold bindM at 1. cbn [segment_flush modifyM]. rewrite IH. cbn [cached disk requested]. now rewrite <- app_assoc.
Qed.

(** [flush] asks for the write-back of every file the process has mapped, and changes nothing. *)
Lemma flush_run m : flush m = (Ok tt, mkMach (cached m) (disk m) (requested m ++
  concat (map (fun t => map (pair t) (elements (fk_open (cached m)))) [TInt; TFloat; TTimestamp; TText]))).
Proof.
  assert (Hs : forall t m, flush_segments t m = (Ok tt, mkMach (cached m) (disk m) (requested m ++ map (pair t) (elements (fk_open (cached m))))))
    by (intros t m0; exact (iter_flush_run t _ m0)).
  unfold flush. do 3 (rewrite (bindM_run _ _ _ _ _ (Hs _ _))). rewrite Hs. cbn [cached disk requested map concat].
  now rewrite app_nil_r, <- !app_assoc.
Qed.

(** ** Opening a partition *)

Lemma init_partition_ok p s s' : files_open s -> init_partition p s = (Ok tt, s') -> files_open s' /\ forall q, kv_part s' q = kv_part s q.
Proof.
  intros Ho. unfold init_partition, bindM, checkM. destruct (negb (p =? RID_LOCAL_PARTITION)); [|discriminate].
  unfold getM, retM. case_decide as E; [now intros [= <-]|]. unfold putM. intros [= <-]. split.
  - intros q. cbn [fk_open fk_files]. intros Hq. destruct (fk_files s !! p) as [ps|] eqn:Ep.
    + apply elem_of_union in Hq as [->%elem_of_singleton|Hq]; [eauto|now apply Ho].
    + apply elem_of_union in Hq as [->%elem_of_singleton|Hq]; [rewrite lookup_insert_eq; eauto|].
      destruct (decide (q = p)) as [->|]; [now rewrite lookup_insert_eq; eauto|]. rewrite lookup_insert_ne by congruence. now apply Ho.
  - intros q. unfold kv_part. cbn [fk_files]. destruct (fk_files s !! p) as [ps|] eqn:Ep; [reflexivity|].
    destruct (decide (q = p)) as [->|]; [now rewrite lookup_insert_eq, Ep|]. now rewrite lookup_insert_ne by congruence.
Qed.

Lemma open_partition_ok q m m' : open_partition q m = (Ok tt, m') ->
  init_partition q (cached m) = (Ok tt, cached m') /\ disk m' = disk m.
Proof.
  unfold open_partition. unfold getM at 1. cbn [bindM]. intros H. apply bindM_ok in H as ([] & m1 & H1 & H).
  apply zoomM_ok in H1 as (s & H1 & ->). case_decide; [now injection H as <-|]. now injection H as <-.
Qed.

Lemma open_partition_keeps t p i o v W q m m' : mkeeps t p i o v W m -> open_partition q m = (Ok tt, m') -> mkeeps t p i o v W m'.
Proof.
  intros [Ho Hc Hd] H. destruct (open_partition_ok q m m' H) as [H1 E]. destruct (init_partition_ok q _ _ Ho H1) as [Ho' Hp].
  split; [exact Ho'|now rewrite Hp|]. unfold disk_part. now rewrite E.
Qed.

Lemma at_partition_keeps {A} t p i o v W q (c : M FileMapKV A) r m m' : kv_keeper t p i o v c -> mkeeps t p i o v W m ->
  at_partition q c m = (Ok r, m') -> mkeeps t p i o v W m'.
Proof.
  intros Hc Hk H. unfold at_partition in H. apply bindM_ok in H as ([] & m1 & H1 & H). apply zoomM_ok in H as (s & H & ->).
  apply (open_partition_keeps t p i o v W q m) in H1; [|exact Hk]. destruct H1 as [Ho H1 Hd]. destruct (Hc _ _ _ Ho H1 H) as [Ho' H'].
  now split.
Qed.

(** ** Every step keeps a safe value *)

Lemma op_keeps t key i o v W m m' : rid_index key = i -> mkeeps t (rid_partition key) i o v W m -> mop t key m m' ->
  mkeeps t (rid_partition key) i o v W m'.
Proof.
  intros Hi Hk H. destruct H as [t' w q rid m m' Hw Hs H|t' key' w m m' H|t' key' w rid m m' Hne Hw Hs H|m m' H|addr r m m' H|m m' H].
  - exact (at_partition_keeps _ _ _ _ _ _ _ _ _ _ _ (gput_keeper _ _ _ _ _ _ _ _ Hs) Hk H).
  - exact (at_partition_keeps _ _ _ _ _ _ _ _ _ _ _ (gget_keeper _ _ _ _ _ _ _) Hk H).
  - refine (at_partition_keeps _ _ _ _ _ _ _ _ _ _ _ (greplace_keeper _ _ _ _ _ _ _ _ Hs _) Hk H).
    intros (E1 & E2 & E3). apply Hne. split; [exact E1|]. split; [exact E2|congruence].
  - rewrite flush_run in H. injection H as <-. destruct Hk. now split.
  - unfold flush_async in H. unfold getM at 1 in H. cbn [bindM] in H. now injection H as _ <-.
  - injection H as <-. destruct Hk as [Ho Hc Hd]. split; [|exact Hc|exact Hd]. intros q Hq. cbn in Hq. set_solver.
Qed.

(** A write-back adds to the cells that are safe on the disk. *)
Lemma write_keeps t p i o v W W' m m' : mkeeps t p i o v W m -> written_back W' m m' ->
  mkeeps t p i o v (fun x => W x \/ W' t p x) m'.
Proof.
  intros [Ho Hc Hd] (Ec & _ & H). split; [now rewrite Ec..|]. intros x Hx. destruct (H t p x) as [Hmix HW'].
  pose proof (pkeeps_safe _ _ _ _ _ Hc x) as Hs.
  destruct Hx as [Hx|Hx]; [|now rewrite HW']. destruct Hmix as [-> | ->]; [now apply Hd|exact Hs].
Qed.

Lemma syncing_keeps t key o v W m m' : mkeeps t (rid_partition key) (rid_index key) o v (fun _ => False) m -> syncing t key m W m' ->
  mkeeps t (rid_partition key) (rid_index key) o v (W t (rid_partition key)) m'.
Proof.
  intros Hk H. induction H as [|W m1 m2 _ IH Hop|W W' m1 m2 _ IH Hw]; [exact Hk|exact (op_keeps _ _ _ _ _ _ _ _ eq_refl IH Hop)|].
  exact (write_keeps _ _ _ _ _ _ _ _ _ IH Hw).
Qed.

(** When all its cells are on the disk, a value survives everything. *)
Lemma step_keeps t key o v m m' : mkeeps t (rid_partition key) (rid_index key) o v (fun _ => True) m -> mstep t key m m' ->
  mkeeps t (rid_partition key) (rid_index key) o v (fun _ => True) m'.
Proof.
  intros Hk H. destruct H as [m0 m1 Hop|W m0 m1 Hw|m0]; [exact (op_keeps _ _ _ _ _ _ _ _ eq_refl Hk Hop)| |].
  - destruct (write_keeps _ _ _ _ _ _ _ _ _ Hk Hw) as [Ho Hc Hd]. split; auto.
  - destruct Hk as [_ Hc Hd]. assert (Hp : pkeeps t (rid_index key) o (disk_part m0 (rid_partition key)) v)
      by (apply (safe_pkeeps _ _ _ _ _ _ Hc); auto).
    split; [intros q Hq; cbn in Hq; set_solver|exact Hp|exact Hd].
Qed.

Lemma open_partition_run p m : p <> RID_LOCAL_PARTITION -> exists m', open_partition p m = (Ok tt, m').
Proof.
  intros Hp. unfold open_partition. unfold getM at 1. cbn [bindM].
  assert (Hi : exists s, init_partition p (cached m) = (Ok tt, s)).
  { unfold init_partition, bindM, checkM. rewrite (proj2 (Z.eqb_neq _ _) Hp). unfold getM, putM, retM. cbn. case_decide; eauto. }
  destruct Hi as (s & Hi). unfold zoomM. unfold bindM at 1. rewrite Hi. case_decide; eexists; reflexivity.
Qed.

Lemma keeps_get t key o v W m : islocal key = false -> mkeeps t (rid_partition key) (rid_index key) o v W m -> exists m', m_get t key m = (Ok v, m').
Proof.
  intros Hl%Z.eqb_neq Hk. destruct (open_partition_run (rid_partition key) m Hl) as (m1 & H1).
  destruct (open_partition_keeps _ _ _ _ _ _ _ _ _ Hk H1) as [Ho Hc _]. unfold m_get, at_partition. rewrite (bindM_run _ _ _ _ _ H1). unfold zoomM.
  assert (Hg : exists s, gget t key (cached m1) = (Ok v, s)); [|destruct Hg as (s & ->); eauto].
  destruct t; cbn [gget pkeeps] in *; unfold kv_getInt, kv_getFloat, kv_getTimestamp, kv_get, kv_getString;
    rewrite (on_partition_open_run _ _ _ Ho Hl); unfold zoomM.
  - cbn [p_get fsizeof]. rewrite (fkeeps_get _ _ _ _ Hc). eauto.
  - cbn [p_get fsizeof]. rewrite (fkeeps_get _ _ _ _ Hc). eauto.
  - cbn [p_get fsizeof]. rewrite (fkeeps_get _ _ _ _ Hc). eauto.
  - rewrite (tkeeps_get _ _ _ _ Hc). eauto.
Qed.

(** The counters of a partition are within its files. *)
Definition within_files (ps : pstores) : Prop :=
  (forall t, pnext ps t <= pcap t) /\ ts_end (p_text ps) <= STORE_SIZE.

Lemma stored_keeps s t key (v : vty t) : kv_ok s -> within_files (kv_part s (rid_partition key)) -> 0 <= rid_index key ->
  rid_index key < pnext (kv_part s (rid_partition key)) t -> gview s t key = Some v ->
  exists o, pkeeps t (rid_index key) o (kv_part s (rid_partition key)) v.
Proof.
  intros Hok [Hn He] Hi Hlt Hv. unfold gview in Hv. specialize (Hn t). destruct t; cbn [pview pnext pcap] in *.
  1-3: exists 0; unfold fview in Hv; destruct (rid_index key <? _); [|discriminate]; unfold pkeeps, fkeeps, fs_read; rewrite Hv; cbn [default]; easy.
  unfold tview, ts_view in Hv. destruct (rid_index key <? _); [|discriminate]. destruct (proj2 Hok (rid_partition key) FInt) as [_ (H0 & H1 & Hstr)].
  destruct (ts_offsets _ !! _) as [o|] eqn:Eo; [|discriminate]. exists o. destruct (Hstr _ _ Eo) as (l & Hl & Hlen).
  rewrite (cstr_at_holds _ _ _ Hl) in Hv. injection Hv as ->. unfold pkeeps, tkeeps, ts_offset. rewrite Eo. cbn [default]. easy.
Qed.

(** C7: a flush asks for the write-back of every file the process has mapped; once the write-backs it
    asked for have completed, a value that was in the store at the flush and is not replaced is
    read back for ever: after any puts, gets and replacements of other values, flushes, ends of
    processes, and losses of power, whatever part of the later changes reached the disk. *)
Theorem flushed_values_survive t key (v : vty t) m m1 asked W m2 m3 :
  kv_ok (cached m) -> within_files (kv_part (cached m) (rid_partition key)) -> in_u64 key -> islocal key = false ->
  rid_partition key ∈ fk_open (cached m) -> rid_index key < pnext (kv_part (cached m) (rid_partition key)) t ->
  gview (cached m) t key = Some v -> flush m = (Ok tt, m1) -> requested m1 = requested m ++ asked ->
  syncing t key m1 W m2 -> Forall (completed W) asked -> rtc (mstep t key) m2 m3 ->
  exists m4, m_get t key m3 = (Ok v, m4).
Proof.
  intros Hok Hw Hkey Hl Hopen Hlt Hv Hf Hasked Hsync Hdone Hsteps. rewrite flush_run in Hf. injection Hf as <-. cbn [requested] in Hasked.
  destruct (stored_keeps _ t key v Hok Hw ltac:(rewrite rid_index_eq; apply Z.mod_pos_bound; lia) Hlt Hv) as (o & Hk).
  apply app_inv_head in Hasked as <-.
  assert (Hall : forall x, W t (rid_partition key) x).
  { apply list.Forall_forall with (x := (t, rid_partition key)) in Hdone; [exact Hdone|].
    assert (Hin : (t, rid_partition key) ∈ map (pair t) (elements (fk_open (cached m))))
      by (apply list_elem_of_fmap; eexists; split; [reflexivity|now apply elem_of_elements]).
    cbn [map concat]. rewrite !elem_of_app. destruct t; tauto. }
  apply (syncing_keeps t key o v) in Hsync as [Ho Hc Hd]; [|split; [exact (proj1 Hok)|exact Hk|easy]].
  assert (H2 : mkeeps t (rid_partition key) (rid_index key) o v (fun _ => True) m2) by (split; auto).
  apply (keeps_get t key o v (fun _ => True) m3 Hl). clear - Hsteps H2.
  induction Hsteps as [|m2 m' m3 Hstep _ IH]; [exact H2|]. apply IH. exact (step_keeps t key o v m2 m' H2 Hstep).
Qed.

(** A text of partition 7 is flushed and written back, another one stored, the power lost and a
    third one stored, which gets the RID of the second. *)
Definition demo_machine : machine := mkMach sample_kv ∅ [].
Definition demo_flushed : machine := snd (flush demo_machine).
Definition write_all (m : machine) : machine := mkMach (cached m) (fk_files (cached m)) (requested m).
Definition demo_synced : machine := write_all demo_flushed.
Definition demo_restarted : machine := power_loss (snd (m_put TText [98; 121; 101] 7 demo_synced)).
Definition demo_later : machine := snd (m_put TText [111; 107] 7 demo_restarted).

Lemma write_all_written m : written_back (fun _ _ _ => True) m (write_all m).
Proof. split; [reflexivity|]. split; [reflexivity|]. intros t p x. split; [now right|now intros _]. Qed.

Lemma flushed_values_survive_witness : exists m4, m_get TText (make_partitioned_rid 7 0) demo_later = (Ok [104; 105], m4).
Proof.
  apply (flushed_values_survive TText (make_partitioned_rid 7 0) [104; 105] demo_machine demo_flushed (requested demo_flushed)
    (fun _ _ _ => False \/ True) demo_synced demo_later).
  - exact sample_kv_ok.
  - split; [intros []|]; vm_compute; discriminate.
  - split; vm_compute; [discriminate|reflexivity].
  - reflexivity.
  - vm_compute. reflexivity.
  - reflexivity.
  - reflexivity.
  - vm_compute. reflexivity.
  - reflexivity.
  - apply (sync_write _ _ _ (fun _ _ _ => False) (fun _ _ _ => True) demo_flushed demo_synced); [apply sync_start|apply write_all_written].
  - apply list.Forall_forall. intros f _ x. now right.
  - assert (Hput : forall rid w m m', cstr w -> Z.of_nat (length w) < 2 ^ 32 -> m_put TText w 7 m = (Ok rid, m') ->
      mstep TText (make_partitioned_rid 7 0) m m').
    { intros rid w m m' Hw Hs H. apply MOp, (MPut _ _ TText w 7 rid m m' Hw); [cbn; lia|exact H]. }
    apply (rtc_l _ _ (snd (m_put TText [98; 121; 101] 7 demo_synced)));
      [apply (Hput (make_partitioned_rid 7 1) [98; 121; 101]); [repeat constructor; lia|cbn; lia|vm_compute; reflexivity]|].
    apply (rtc_l _ _ demo_restarted); [apply MPowerLoss|]. apply rtc_once.
    apply (Hput (make_partitioned_rid 7 1) [111; 107]); [repeat constructor; lia|cbn; lia|vm_compute; reflexivity].
Defined.

(** The return of [flush] says nothing yet: when the power is lost right after it, the text is
    gone: its RID reads as the empty text. *)
Theorem flush_alone_is_not_durable :
  gview (cached demo_machine) TText (make_partitioned_rid 7 0) = Some [104; 105] /\
  flush demo_machine = (Ok tt, demo_flushed) /\
  exists m, m_get TText (make_partitioned_rid 7 0) (power_loss demo_flushed) = (Ok [], m).
Proof. split; [vm_compute; reflexivity|]. split; [vm_compute; reflexivity|]. eexists. vm_compute. reflexivity. Qed.

(** ** What recovery does not restore *)

(** The log holds the values of RIDs, not the counters. An integer is stored and logged, the
    power is lost before the changed pages reach the disk, and the log is replayed: the integer
    is back. But the counter is as old as the disk: the next put gets the same RID and
    overwrites it. *)
Theorem recovery_reissues_rids :
  let rid := make_partitioned_rid 7 1 in
  exists m1 payload k m2 m3 m4 m5,
    m_put TInt 77 7 demo_synced = (Ok rid, m1) /\
    materialize_payload [mkItem 0 rid] (cached m1) = (Ok payload, k) /\
    at_partition 7 (replay_payload payload) (power_loss m1) = (Ok tt, m2) /\
    m_get TInt rid m2 = (Ok 77, m3) /\
    m_put TInt 88 7 m3 = (Ok rid, m4) /\
    m_get TInt rid m4 = (Ok 88, m5).
Proof. do 7 eexists. repeat (split; [vm_compute; reflexivity|]). vm_compute. reflexivity. Qed.

(** ** The operator without partitions *)

(** The four files, if they exist, and whether this process has mapped them. *)
Record flat : Type := mkFlat { fl_files : option pstores; fl_open : bool }.
Definition flat_init : M flat unit :=
  let* s := getM in
  if fl_open s then retM tt else putM (mkFlat (Some (default p_new (fl_files s))) true).
(** A store pointer that was not set is not to be followed. *)
Definition on_flat {A} (c : M pstores A) : M flat A :=
  fun s => match fl_open s, fl_files s with
           | true, Some ps => let '(r, ps') := c ps in (r, mkFlat (Some ps') true)
           | _, _ => (Err Undefined, s)
           end.
Definition flat_put (t : vtype) (v : vty t) (partition : RID) : M flat RID :=
  on_flat (match t return vty t -> M pstores RID with
           | TInt => fun v => zoomM (p_get FInt) (p_set FInt) (fs_put 4 v)
           | TFloat => fun v => zoomM (p_get FFloat) (p_set FFloat) (fs_put 4 v)
           | TTimestamp => fun v => zoomM (p_get FTimestamp) (p_set FTimestamp) (fs_put 8 v)
           | TText => fun v => zoomM p_text p_set_text (ts_put v)
           end v).
Definition flat_get (t : vtype) (key : RID) : M flat (vty t) :=
  on_flat (match t return M pstores (vty t) with
           | TInt => zoomM (p_get FInt) (p_set FInt) (fs_get 4 key)
           | TFloat => zoomM (p_get FFloat) (p_set FFloat) (fs_get 4 key)
           | TTimestamp => zoomM (p_get FTimestamp) (p_set FTimestamp) (fs_get 8 key)
           | TText => zoomM p_text p_set_text (ts_get key)
           end).
Definition flat_replace (t : vtype) (key : RID) (v : vty t) : M flat RID :=
  do* on_flat (match t return vty t -> M pstores unit with
               | TInt => fun v => zoomM (p_get FInt) (p_set FInt) (fs_replace 4 key v)
               | TFloat => fun v => zoomM (p_get FFloat) (p_set FFloat) (fs_replace 4 key v)
               | TTimestamp => fun v => zoomM (p_get FTimestamp) (p_set FTimestamp) (fs_replace 8 key v)
               | TText => fun v => zoomM p_text p_set_text (ts_replace key v)
               end v) in
  retM key.

(** The flat files are the files of the default partition. *)
Definition unsigned (ps : pstores) : Prop := forall t, 0 <= pnext ps t.
Definition same_stores (s : flat) (k : FileMapKV) : Prop :=
  files_open k /\ default p_new (fl_files s) = kv_part k RID_DEFAULT_PARTITION /\ (fl_open s = true -> is_Some (fl_files s)) /\
  unsigned (kv_part k RID_DEFAULT_PARTITION).

(** The same result, and related states. *)
Definition same_run {A} (f : M flat A) (c : M FileMapKV A) : Prop :=
  forall s k, same_stores s k -> fst ((do* flat_init in f) s) = fst (c k) /\ same_stores (snd ((do* flat_init in f) s)) (snd (c k)).

Lemma on_flat_run {A} (c : M pstores A) s : (fl_open s = true -> is_Some (fl_files s)) ->
  (do* flat_init in on_flat c) s = (fst (c (default p_new (fl_files s))), mkFlat (Some (snd (c (default p_new (fl_files s))))) true).
Proof.
  intros Ho. unfold flat_init, bindM, getM, putM, retM, on_flat. destruct (fl_open s) eqn:E.
  - destruct (Ho eq_refl) as [ps Hps]. rewrite E, Hps. cbn. now destruct (c ps).
  - cbn. now destruct (c (default p_new (fl_files s))).
Qed.

Lemma same_on {A} (c : M pstores A) : (forall ps, unsigned ps -> unsigned (snd (c ps))) -> same_run (on_flat c) (on_partition RID_DEFAULT_PARTITION c).
Proof.
  intros Hc s k (Ho & E & Hf & Hu). rewrite (on_flat_run c s Hf), (on_partition_open_run k _ c Ho) by (vm_compute; discriminate). rewrite E. cbn [fst snd].
  split; [reflexivity|]. split; [now apply files_open_with|]. rewrite kv_part_with, decide_True by reflexivity. split; [reflexivity|].
  split; [eauto|now apply Hc].
Qed.

(** The counters stay unsigned. *)
Lemma u64_nonneg x : 0 <= u64 x.
Proof. apply Z.mod_pos_bound. reflexivity. Qed.
Lemma unsigned_fixed {A} t (c : M fstore A) : (forall x, 0 <= fs_cur x -> 0 <= fs_cur (snd (c x))) ->
  forall ps, unsigned ps -> unsigned (snd (zoomM (p_get t) (p_set t) c ps)).
Proof.
  intros Hc ps Hu u. unfold zoomM. destruct (c (p_get t ps)) as [r x] eqn:E. cbn [snd]. pose proof (Hc (p_get t ps)) as H. rewrite E in H. cbn [snd] in H.
  assert (H' : 0 <= fs_cur (p_get t ps)) by (destruct t; [exact (Hu TInt)|exact (Hu TFloat)|exact (Hu TTimestamp)]). specialize (H H').
  pose proof (Hu u). destruct t, u; cbn in *; assumption.
Qed.
Lemma unsigned_text {A} (c : M tstore A) : (forall x, 0 <= ts_cur x -> 0 <= ts_cur (snd (c x))) ->
  forall ps, unsigned ps -> unsigned (snd (zoomM p_text p_set_text c ps)).
Proof.
  intros Hc ps Hu u. unfold zoomM. destruct (c (p_text ps)) as [r x] eqn:E. cbn [snd]. pose proof (Hc (p_text ps) (Hu TText)) as H. rewrite E in H.
  cbn [snd] in H. pose proof (Hu u). destruct u; cbn in *; assumption.
Qed.
Lemma fs_put_unsigned size v x : 0 <= fs_cur x -> 0 <= fs_cur (snd (fs_put size v x)).
Proof. intros H. unfold fs_put, bindM, getM, putM, checkM, modifyM, retM. destruct (fs_cur x <? _); apply u64_nonneg. Qed.
Lemma fs_get_unsigned size k x : 0 <= fs_cur x -> 0 <= fs_cur (snd (fs_get size k x)).
Proof. intros H. unfold fs_get, bindM, getM, checkM, retM. now destruct (k <? _). Qed.
Lemma fs_replace_unsigned size k v x : 0 <= fs_cur x -> 0 <= fs_cur (snd (fs_replace size k v x)).
Proof. intros H. unfold fs_replace, bindM, modifyM, checkM, retM. now destruct (k <? _). Qed.
Lemma ts_write_cur k v x : ts_cur (snd (ts_write k v x)) = ts_cur x.
Proof. unfold ts_write, bindM, getM, putM, modifyM, checkM, retM. now destruct (_ <=? _). Qed.
Lemma ts_put_unsigned v x : 0 <= ts_cur x -> 0 <= ts_cur (snd (ts_put v x)).
Proof.
  intros H. unfold ts_put. unfold getM at 1. cbn [bindM]. unfold putM at 1. cbn [bindM]. unfold bindM at 1, checkM.
  destruct (_ <? _); [|apply u64_nonneg]. set (x1 := mkTstore _ _ _ _). unfold bindM, retM. pose proof (ts_write_cur (ts_cur x) v x1) as E.
  destruct (ts_write (ts_cur x) v x1) as [[] x2]; cbn [snd] in *; rewrite E; apply u64_nonneg.
Qed.
Lemma ts_get_unsigned k x : 0 <= ts_cur x -> 0 <= ts_cur (snd (ts_get k x)).
Proof. intros H. unfold ts_get, bindM, getM, checkM, retM. destruct (k <? _); [|exact H]. now destruct (cstr_at _ _). Qed.
Lemma ts_replace_unsigned k v x : 0 <= ts_cur x -> 0 <= ts_cur (snd (ts_replace k v x)).
Proof. intros H. unfold ts_replace, bindM, checkM, retM. destruct (k <? _); [now rewrite ts_write_cur|exact H]. Qed.
Create HintDb unsigned.
#[export] Hint Resolve same_on unsigned_fixed unsigned_text fs_put_unsigned fs_get_unsigned fs_replace_unsigned ts_put_unsigned ts_get_unsigned
  ts_replace_unsigned : unsigned.

Lemma same_bind {A B} (f : M flat A) (c : M FileMapKV A) (g : A -> M flat B) (h : A -> M FileMapKV B) : same_run f c ->
  (forall a s k, fst (c k) = Ok a -> same_stores s (snd (c k)) -> fst (g a s) = fst (h a (snd (c k))) /\ same_stores (snd (g a s)) (snd (h a (snd (c k))))) ->
  same_run (bindM f g) (bindM c h).
Proof.
  intros Hf Hg s k Hs. destruct (Hf s k Hs) as [E1 E2]. rewrite <- bindM_assoc.
  destruct ((do* flat_init in f) s) as [r s1] eqn:Er, (c k) as [r' k1] eqn:Ec. cbn [fst snd] in E1, E2. subst r'. destruct r as [a|e].
  - rewrite (bindM_run _ _ _ _ _ Er), (bindM_run _ _ _ _ _ Ec). specialize (Hg a s1 k). rewrite Ec in Hg. now apply Hg.
  - now rewrite (bindM_fail _ _ _ _ _ Er), (bindM_fail _ _ _ _ _ Ec).
Qed.

(** A key that a put gives out is its RID in the default partition. *)
Lemma same_put (c : M pstores RID) : (forall ps, unsigned ps -> unsigned (snd (c ps))) ->
  (forall ps k, unsigned ps -> fst (c ps) = Ok k -> 0 <= k < 2 ^ 48 - 1) ->
  same_run (on_flat c) (let* key := on_partition RID_DEFAULT_PARTITION c in do* checkM (key <=? RID_MASK) in retM (make_partitioned_rid RID_DEFAULT_PARTITION key)).
Proof.
  intros Hu Hk s k Hs. destruct (same_on c Hu s k Hs) as [E1 E2]. destruct Hs as (Ho & _ & _ & Hun).
  assert (Hrun : on_partition RID_DEFAULT_PARTITION c k = (fst (c (kv_part k RID_DEFAULT_PARTITION)), kv_with k RID_DEFAULT_PARTITION (snd (c (kv_part k RID_DEFAULT_PARTITION)))))
    by (apply on_partition_open_run; [exact Ho|vm_compute; discriminate]).
  pose proof (Hk (kv_part k RID_DEFAULT_PARTITION)) as Hk'.
  rewrite Hrun in E1, E2. cbn [fst snd] in E1, E2. destruct (fst (c (kv_part k RID_DEFAULT_PARTITION))) as [key|e] eqn:Ec.
  - rewrite (bindM_run _ _ _ _ _ Hrun). specialize (Hk' key Hun eq_refl). change RID_MASK with (2 ^ 48 - 1).
    rewrite (bindM_run (checkM (key <=? 2 ^ 48 - 1)) _ _ _ tt) by (apply checkM_true, Z.leb_le; lia).
    rewrite make_partitioned_rid_eq by (split; vm_compute; [discriminate|reflexivity]). rewrite Z.mod_small by lia. now rewrite E1.
  - rewrite (bindM_fail _ _ _ _ _ Hrun). now rewrite E1.
Qed.

Lemma zoomM_fst {S T A} (g : S -> T) (u : T -> S -> S) (c : M T A) s : fst (zoomM g u c s) = fst (c (g s)).
Proof. unfold zoomM. now destruct (c (g s)). Qed.

Lemma fs_put_key size v x k : 0 <= fs_cur x -> MAX_ARRAY_ELE_NUM size <= 2 ^ 48 - 1 -> fst (fs_put size v x) = Ok k -> 0 <= k < 2 ^ 48 - 1.
Proof.
  intros H Hm. unfold fs_put, bindM, getM, putM, checkM, modifyM, retM. destruct (Z.ltb_spec (fs_cur x) (MAX_ARRAY_ELE_NUM size)); [|discriminate].
  intros [= <-]. lia.
Qed.
Lemma ts_put_key v x k : 0 <= ts_cur x -> fst (ts_put v x) = Ok k -> 0 <= k < 2 ^ 48 - 1.
Proof.
  intros H. assert (TEXT_MAX_ARRAY_ELE_NUM < 2 ^ 48 - 1) by reflexivity. unfold ts_put. unfold getM at 1. cbn [bindM]. unfold putM at 1. cbn [bindM].
  unfold bindM at 1, checkM. destruct (Z.ltb_spec (ts_cur x) TEXT_MAX_ARRAY_ELE_NUM); [|discriminate]. unfold bindM, retM.
  destruct (ts_write _ _ _) as [[] x2]; [|discriminate]. intros [= <-]. lia.
Qed.

(** C40: after [init] the operator without partitions gives the same results as the partitioned one on
    the default partition, errors included, and leaves the same stores: for RIDs of that partition
    the two builds are the same store. *)
Theorem flat_operator_is_default_partition t (v : vty t) key p :
  0 <= key < 2 ^ 48 ->
  same_run (flat_put t v p) (gput t v RID_DEFAULT_PARTITION) /\
  same_run (flat_get t key) (gget t key) /\
  same_run (flat_replace t key v) (greplace t key v).
Proof.
  intros Hkey.
  assert (Ep : rid_partition key = RID_DEFAULT_PARTITION) by (rewrite rid_partition_eq; apply Z.div_small; lia).
  assert (Ei : rid_index key = key) by (rewrite rid_index_eq; apply Z.mod_small; lia).
  assert (Hm : forall u, MAX_ARRAY_ELE_NUM (fsizeof u) <= 2 ^ 48 - 1) by (intros u; apply max_ele_bound).
  split; [|split].
  - unfold flat_put. destruct t; cbn [gput]; (apply same_put; [eauto with unsigned|intros ps k Hu; rewrite zoomM_fst]).
    + apply fs_put_key; [exact (Hu TInt)|exact (Hm FInt)].
    + apply fs_put_key; [exact (Hu TFloat)|exact (Hm FFloat)].
    + apply fs_put_key; [exact (Hu TTimestamp)|exact (Hm FTimestamp)].
    + apply ts_put_key. exact (Hu TText).
  - destruct t; cbn [gget]; unfold flat_get, kv_getInt, kv_getFloat, kv_getTimestamp, kv_get, kv_getString; rewrite Ep, Ei; eauto with unsigned.
  - destruct t; cbn [greplace]; unfold flat_replace, kv_replaceInt, kv_replaceFloat, kv_replaceTimestamp, kv_replace, kv_replaceString; rewrite Ep, Ei;
      (apply same_bind; [eauto with unsigned|now intros]).
Qed.

Lemma flat_operator_is_default_partition_witness :
  fst ((do* flat_init in flat_put TText [104; 105] 5) (mkFlat None false)) = Ok 0 /\
  same_run (flat_get TText 0) (gget TText 0).
Proof.
  destruct (flat_operator_is_default_partition TText [104; 105] 0 5 ltac:(lia)) as (Hp & Hg & _).
  split; [|exact Hg]. refine (proj1 (Hp (mkFlat None false) kv_empty _)).
  split; [intros p Hp'; cbn in Hp'; set_solver|]. split; [reflexivity|]. split; [discriminate|]. intros []; vm_compute; discriminate.
Defined.
