(* ===== verification/Handler.v ===== *)
(** The request dispatcher of a worker: src/privacy_zone/handler.cpp, with the request types of
    src/include/request_types.h and the command codes of src/include/defs.h. *)
From Stdlib Require Import SpecFloat.
From S2P Require Import Prelude Rid Shm LocalStore FileMap KV Tee Crypto Wal.

(** ** Command codes *)
Definition CMD_INT_PUT : Z := 1.
Definition CMD_INT_GET : Z := 2.
Definition CMD_FLOAT_PUT : Z := 3.
Definition CMD_FLOAT_GET : Z := 4.
Definition CMD_TEXT_PUT : Z := 5.
Definition CMD_TEXT_GET : Z := 6.
Definition CMD_TIMESTAMP_PUT : Z := 7.
Definition CMD_TIMESTAMP_GET : Z := 8.
Definition CMD_BATCH_PUT : Z := 9.
Definition CMD_BATCH_GET : Z := 10.
Definition CMD_INT_ENC : Z := 11.
Definition CMD_INT_DEC : Z := 12.
Definition CMD_FLOAT_ENC : Z := 13.
Definition CMD_FLOAT_DEC : Z := 14.
Definition CMD_STRING_ENC : Z := 15.
Definition CMD_STRING_DEC : Z := 16.
Definition CMD_TIMESTAMP_ENC : Z := 17.
Definition CMD_TIMESTAMP_DEC : Z := 18.
Definition CMD_INT_PUT_ENC : Z := 19.
Definition CMD_INT_GET_ENC : Z := 20.
Definition CMD_FLOAT_PUT_ENC : Z := 21.
Definition CMD_FLOAT_GET_ENC : Z := 22.
Definition CMD_STRING_PUT_ENC : Z := 23.
Definition CMD_STRING_GET_ENC : Z := 24.
Definition CMD_TIMESTAMP_PUT_ENC : Z := 25.
Definition CMD_TIMESTAMP_GET_ENC : Z := 26.
Definition CMD_INT_PLUS : Z := 27.
Definition CMD_INT_MINUS : Z := 28.
Definition CMD_INT_MULT : Z := 29.
Definition CMD_INT_DIV : Z := 30.
Definition CMD_INT_MOD : Z := 31.
Definition CMD_INT_POW : Z := 32.
Definition CMD_INT_CMP : Z := 33.
Definition CMD_INT_SUM_BULK : Z := 34.
Definition CMD_FLOAT_PLUS : Z := 35.
Definition CMD_FLOAT_MINUS : Z := 36.
Definition CMD_FLOAT_MULT : Z := 37.
Definition CMD_FLOAT_DIV : Z := 38.
Definition CMD_FLOAT_MOD : Z := 39.
Definition CMD_FLOAT_POW : Z := 40.
Definition CMD_FLOAT_CMP : Z := 41.
Definition CMD_FLOAT_SUM_BULK : Z := 42.
Definition CMD_TEXT_CMP : Z := 43.
Definition CMD_TEXT_SUBSTRING : Z := 44.
Definition CMD_TEXT_CONCAT : Z := 45.
Definition CMD_TEXT_LIKE : Z := 46.
Definition CMD_TIMESTAMP_CMP : Z := 47.
Definition CMD_TIMESTAMP_EXTRACT_YEAR : Z := 48.
Definition CMD_PROMOTE_INT : Z := 49.
Definition CMD_PROMOTE_FLOAT : Z := 50.
Definition CMD_PROMOTE_TEXT : Z := 51.
Definition CMD_PROMOTE_TIMESTAMP : Z := 52.
Definition CMD_LOCAL_CLEAR : Z := 53.
Definition CMD_FLUSH : Z := 54.
Definition CMD_TRUNCATE : Z := 55.
Definition CMD_REPLAY : Z := 56.
Definition CMD_WAL_APPEND_BATCH : Z := 57.
Definition CMD_WAL_MATERIALIZE_BATCH : Z := 58.
Definition CMD_WAL_REPLAY_PAYLOAD : Z := 59.
Definition CMD_CKPT : Z := 60.

Definition BULK_SIZE : Z := 256.

(** ** Requests *)

(** The parameters and results behind the common header of a request, one constructor per
    struct; the result field is part of the struct. *)
Inductive req_data : Type :=
| CalcData (left right res : RID)
| CmpData (left right : RID) (cmp : Z)
| BulkData (bulk_size : Z) (keys : list RID) (res : RID)
| TimestampExtractYearData (input res : RID)
| SubstringData (str start length res : RID)
| PutEncData (res : RID) (enc : bytes)
| GetEncData (res : bytes) (dec : RID)
| KVData (size : Z) (key : RID) (value : bytes)
| BatchData (nreqs : Z) (reqs : list (Z * req_data))
| EncData (plaintext ciphertext : bytes)
| DecData (ciphertext plaintext : bytes)
| PromoteData (local target partition global : RID)
| WalAppendBatchData (nitems : Z) (items : list WalRidItem)
| WalMaterializeData (nitems : Z) (items : list WalRidItem) (payload : bytes)
| WalReplayData (payload : bytes)
| SingleArgData.

(** [BaseRequest] and what follows it. *)
Record request : Type := mkReq {
  rq_type : Z;
  rq_resp : Z;
  rq_data : req_data;
}.

(** ** A worker *)

(** What a worker process has: its own local store and nonce; the persistent stores and the
    log it shares with the other workers. *)
Record worker : Type := mkWorker {
  wk_id : Z;
  wk_local : LocalKVStoreOperator;
  wk_iv : bytes;
  wk_wal : wal_state;
}.

Definition set_kv (kv : FileMapKV) (s : wal_state) : wal_state :=
  mkWal (w_magic s) (w_write_pos s) (w_data s) (w_pending s) kv (w_headers s).

(** The two stores as [kv.hpp] sees them. *)
Definition wk_store (w : worker) : store := mkStore (wk_local w) (w_kv (wk_wal w)).

Definition on_store {A : Type} (c : M store A) : M worker A :=
  zoomM wk_store
    (fun s w => mkWorker (wk_id w) (st_local s) (wk_iv w) (set_kv (st_kv s) (wk_wal w))) c.
Definition on_iv {A : Type} (c : M bytes A) : M worker A :=
  zoomM wk_iv (fun iv w => mkWorker (wk_id w) (wk_local w) iv (wk_wal w)) c.
Definition on_wal {A : Type} (c : M wal_state A) : M worker A :=
  zoomM wk_wal (fun s w => mkWorker (wk_id w) (wk_local w) (wk_iv w) s) c.
Definition on_kv {A : Type} (c : M FileMapKV A) : M worker A := on_wal (w_on_kv c).

(** The object representation of a value in a request. *)
Definition to_bytes {t : vtype} : vty t -> bytes :=
  match t with
  | TInt => fun v => le_bytes 4 (u32 v)
  | TFloat => fun v => le_bytes 4 v
  | TTimestamp => fun v => le_bytes 8 (u64 v)
  | TText => fun v => v
  end.
Definition of_bytes {t : vtype} : bytes -> vty t :=
  match t with
  | TInt => fun b => s32 (le_val b)
  | TFloat => fun b => le_val b
  | TTimestamp => fun b => s64 (le_val b)
  | TText => until_zero
  end.
Definition plain_size (t : vtype) : Z :=
  match t with
  | TInt | TFloat => 4
  | TTimestamp => 8
  | TText => STRING_LENGTH
  end.

Section Dispatch.
Context (crypt_and_tag : bytes -> bytes -> bytes -> Z * (bytes * bytes)).
Context (auth_decrypt : bytes -> bytes -> bytes -> bytes -> Z * bytes).
Context (pow : spec_float -> spec_float -> spec_float).
Context (powf fmodf : Z -> Z -> Z).

Definition calc_handler (rt : Z) : option (RID -> RID -> M store RID) :=
  if rt =? CMD_INT_PLUS then Some kv_int_add
  else if rt =? CMD_INT_MINUS then Some kv_int_sub
  else if rt =? CMD_INT_MULT then Some kv_int_mult
  else if rt =? CMD_INT_DIV then Some kv_int_div
  else if rt =? CMD_INT_POW then Some (kv_int_pow pow)
  else if rt =? CMD_INT_MOD then Some kv_int_mod
  else if rt =? CMD_FLOAT_PLUS then Some kv_float_add
  else if rt =? CMD_FLOAT_MINUS then Some kv_float_sub
  else if rt =? CMD_FLOAT_MULT then Some kv_float_mult
  else if rt =? CMD_FLOAT_DIV then Some kv_float_div
  else if rt =? CMD_FLOAT_POW then Some (kv_float_pow powf)
  else if rt =? CMD_FLOAT_MOD then Some (kv_float_mod fmodf)
  else if rt =? CMD_TEXT_CONCAT then Some kv_text_concat
  else None.

Definition cmp_handler (rt : Z) : option (RID -> RID -> M store Z) :=
  if rt =? CMD_INT_CMP then Some kv_int_cmp
  else if rt =? CMD_FLOAT_CMP then Some kv_float_cmp
  else if rt =? CMD_TIMESTAMP_CMP then Some kv_timestamp_cmp
  else if rt =? CMD_TEXT_LIKE then Some kv_text_like
  else if rt =? CMD_TEXT_CMP then Some kv_text_cmp
  else None.

Definition bulk_handler (rt : Z) : option (list RID -> M store RID) :=
  if rt =? CMD_INT_SUM_BULK then Some kv_int_sum_bulk
  else if rt =? CMD_FLOAT_SUM_BULK then Some kv_float_sum_bulk
  else None.

(** The value type a family of commands is about. *)
Definition put_enc_type (rt : Z) : option vtype :=
  if rt =? CMD_INT_PUT_ENC then Some TInt
  else if rt =? CMD_FLOAT_PUT_ENC then Some TFloat
  else if rt =? CMD_TIMESTAMP_PUT_ENC then Some TTimestamp
  else if rt =? CMD_STRING_PUT_ENC then Some TText
  else None.
Definition get_enc_type (rt : Z) : option vtype :=
  if rt =? CMD_INT_GET_ENC then Some TInt
  else if rt =? CMD_FLOAT_GET_ENC then Some TFloat
  else if rt =? CMD_TIMESTAMP_GET_ENC then Some TTimestamp
  else if rt =? CMD_STRING_GET_ENC then Some TText
  else None.
Definition put_type (rt : Z) : option vtype :=
  if rt =? CMD_INT_PUT then Some TInt
  else if rt =? CMD_FLOAT_PUT then Some TFloat
  else if rt =? CMD_TIMESTAMP_PUT then Some TTimestamp
  else if rt =? CMD_TEXT_PUT then Some TText
  else None.
Definition get_type (rt : Z) : option vtype :=
  if rt =? CMD_INT_GET then Some TInt
  else if rt =? CMD_FLOAT_GET then Some TFloat
  else if rt =? CMD_TIMESTAMP_GET then Some TTimestamp
  else if rt =? CMD_TEXT_GET then Some TText
  else None.
Definition enc_type (rt : Z) : option vtype :=
  if rt =? CMD_INT_ENC then Some TInt
  else if rt =? CMD_FLOAT_ENC then Some TFloat
  else if rt =? CMD_TIMESTAMP_ENC then Some TTimestamp
  else if rt =? CMD_STRING_ENC then Some TText
  else None.
Definition dec_type (rt : Z) : option vtype :=
  if rt =? CMD_INT_DEC then Some TInt
  else if rt =? CMD_FLOAT_DEC then Some TFloat
  else if rt =? CMD_TIMESTAMP_DEC then Some TTimestamp
  else if rt =? CMD_STRING_DEC then Some TText
  else None.
Definition promote_type (rt : Z) : option vtype :=
  if rt =? CMD_PROMOTE_INT then Some TInt
  else if rt =? CMD_PROMOTE_FLOAT then Some TFloat
  else if rt =? CMD_PROMOTE_TEXT then Some TText
  else if rt =? CMD_PROMOTE_TIMESTAMP then Some TTimestamp
  else None.

(** [CMD_*_PUT_ENC]: decrypt and keep the value in the local store. The plaintext of a string is
    written to a buffer of [STRING_LENGTH] bytes; a ciphertext too short for its nonce and tag
    is refused before. *)
Definition handle_put_enc (t : vtype) (enc : bytes) : M worker RID :=
  let len := match t with
             | TText => Z.of_nat (length enc) - IV_SIZE - TAG_SIZE
             | _ => plain_size t
             end in
  do* definedM (len <=? plain_size t - (match t with TText => 1 | _ => 0 end)) in
  let* '(_, plain) := on_iv (decrypt_bytes auth_decrypt enc len) in
  on_store (put t INVALID_RID (of_bytes plain) true RID_DEFAULT_PARTITION).

(** [CMD_*_GET_ENC]: read and encrypt. A string is first copied with its terminator into a
    buffer of [STRING_LENGTH] bytes. *)
Definition handle_get_enc (t : vtype) (key : RID) : M worker bytes :=
  let* v := on_store (get t key) in
  let plain := to_bytes v in
  do* definedM (Z.of_nat (length plain) <=? plain_size t - (match t with TText => 1 | _ => 0 end)) in
  let* '(_, c) := on_iv (encrypt_bytes crypt_and_tag plain (Z.of_nat (length plain) + IV_SIZE + TAG_SIZE)) in
  retM c.

(** [CMD_TEXT_GET] copies [STRING_LENGTH] bytes from the start of the string. In the mapped
    file other strings follow; a local string is a [std::string] with nothing behind its
    terminator. *)
Definition handle_text_get (key : RID) : M worker bytes :=
  if islocal key then
    let* v := on_store (getText key) in
    do* definedM (STRING_LENGTH <=? Z.of_nat (length v) + 1) in
    retM (take 540 (v ++ [0]))
  else on_kv (kv_getString_raw key).

(** [CMD_*_ENC] and [CMD_*_DEC]. *)
Definition handle_enc (t : vtype) (plain : bytes) : M worker bytes :=
  do* (match t with
       | TText => checkM (Z.of_nat (length plain) <? STRING_LENGTH)
       | _ => retM tt
       end) in
  let* '(_, c) := on_iv (encrypt_bytes crypt_and_tag plain (Z.of_nat (length plain) + IV_SIZE + TAG_SIZE)) in
  retM c.
Definition handle_dec (t : vtype) (cipher : bytes) : M worker bytes :=
  let len := Z.of_nat (length cipher) in
  do* (match t with
       | TText => checkM ((IV_SIZE + TAG_SIZE <=? len) && (len <? STRING_LENGTH + IV_SIZE + TAG_SIZE))
       | _ => retM tt
       end) in
  let* '(_, p) := on_iv (decrypt_bytes auth_decrypt cipher
                    (match t with TText => len - IV_SIZE - TAG_SIZE | _ => plain_size t end)) in
  retM p.

(** [CMD_PROMOTE_*]: copy to the persistent store, then drop the local value. *)
Definition handle_promote (t : vtype) (local target partition : RID) : M worker RID :=
  let* v := on_store (get t local) in
  let* global := on_store (put t target v false partition) in
  do* on_store (freeLocal t local) in
  retM global.

(** The log commands. *)
Definition payload_capacity : Z := REQ_REGION_SIZE - (12 + 4 + 8 + 16 * WAL_MATERIALIZE_RID_BATCH_SIZE).
Definition replay_capacity : Z := REQ_REGION_SIZE - 24.

Definition materializeBatch (items : list WalRidItem) : M worker bytes :=
  match items with
  | [] => retM []
  | _ =>
      do* checkM (Z.of_nat (length items) <=? WAL_MATERIALIZE_RID_BATCH_SIZE) in
      do* checkM (forallb valid_item items) in
      let* plaintext := on_kv (materialize_payload items) in
      do* checkM (Z.of_nat (length plaintext) + IV_SIZE + TAG_SIZE <=? payload_capacity) in
      let* '(r, c, _) := on_iv (gcm_encrypt crypt_and_tag plaintext) in
      do* checkM (r =? 0) in
      retM c
  end.

Definition replayPayload (payload : bytes) : M worker unit :=
  match payload with
  | [] => retM tt
  | _ =>
      do* checkM (IV_SIZE + TAG_SIZE <=? Z.of_nat (length payload)) in
      let '(r, plaintext, decrypt_len) := gcm_decrypt auth_decrypt payload in
      do* checkM (r =? 0) in
      do* checkM (decrypt_len =? Z.of_nat (length payload) - IV_SIZE - TAG_SIZE) in
      on_kv (replay_payload plaintext)
  end.

(** The switch of [handle_ops] on everything but batches; the struct comes back with its
    result field set. A command whose struct is not the one the request carries reads other
    fields of the region, which is outside the model. *)
Definition handle_one (rt : Z) (d : req_data) : M worker req_data :=
  match d with
  | CalcData l r _ =>
      match calc_handler rt with
      | Some f => let* x := on_store (f l r) in retM (CalcData l r x)
      | None => failM Undefined
      end
  | CmpData l r _ =>
      match cmp_handler rt with
      | Some f => let* x := on_store (f l r) in retM (CmpData l r x)
      | None => failM Undefined
      end
  | BulkData n keys _ =>
      match bulk_handler rt with
      | Some f =>
          do* definedM ((0 <=? n) && (n <=? BULK_SIZE) && (n <=? Z.of_nat (length keys))) in
          let* x := on_store (f (take (Z.to_nat n) keys)) in retM (BulkData n keys x)
      | None => failM Undefined
      end
  | TimestampExtractYearData i _ =>
      do* definedM (rt =? CMD_TIMESTAMP_EXTRACT_YEAR) in
      let* x := on_store (kv_timestamp_extract_year i) in retM (TimestampExtractYearData i x)
  | SubstringData str start len _ =>
      do* definedM (rt =? CMD_TEXT_SUBSTRING) in
      let* x := on_store (kv_text_substr str start len) in retM (SubstringData str start len x)
  | PutEncData _ enc =>
      match put_enc_type rt with
      | Some t => let* x := handle_put_enc t enc in retM (PutEncData x enc)
      | None => failM Undefined
      end
  | GetEncData _ key =>
      match get_enc_type rt with
      | Some t => let* x := handle_get_enc t key in retM (GetEncData x key)
      | None => failM Undefined
      end
  | KVData size key value =>
      match put_type rt, get_type rt with
      | Some t, _ =>
          let* x := on_store (put t INVALID_RID (of_bytes value) false RID_DEFAULT_PARTITION) in
          retM (KVData size x value)
      | _, Some TText => let* x := handle_text_get key in retM (KVData size key x)
      | _, Some t => let* x := on_store (get t key) in retM (KVData size key (to_bytes x))
      | None, None => failM Undefined
      end
  | EncData plain _ =>
      match enc_type rt with
      | Some t => let* x := handle_enc t plain in retM (EncData plain x)
      | None => failM Undefined
      end
  | DecData cipher _ =>
      match dec_type rt with
      | Some t => let* x := handle_dec t cipher in retM (DecData cipher x)
      | None => failM Undefined
      end
  | PromoteData local target partition _ =>
      match promote_type rt with
      | Some t => let* x := handle_promote t local target partition in
                  retM (PromoteData local target partition x)
      | None => failM Undefined
      end
  | WalAppendBatchData n items =>
      do* definedM (rt =? CMD_WAL_APPEND_BATCH) in
      do* checkM ((0 <=? n) && (n <=? WAL_RID_BATCH_SIZE)) in
      let* w := getM in
      do* on_wal (appendBatch (wk_id w) (take (Z.to_nat n) items)) in retM d
  | WalMaterializeData n items _ =>
      do* definedM (rt =? CMD_WAL_MATERIALIZE_BATCH) in
      do* checkM ((0 <=? n) && (n <=? WAL_MATERIALIZE_RID_BATCH_SIZE)) in
      let* x := materializeBatch (take (Z.to_nat n) items) in retM (WalMaterializeData n items x)
  | WalReplayData payload =>
      do* definedM (rt =? CMD_WAL_REPLAY_PAYLOAD) in
      do* checkM (Z.of_nat (length payload) <=? replay_capacity) in
      do* replayPayload payload in retM d
  | SingleArgData =>
      let* w := getM in
      if rt =? CMD_LOCAL_CLEAR then do* on_store (localkv_ops local_clear) in retM d
      else if rt =? CMD_TRUNCATE then do* on_wal (truncate (wk_id w)) in retM d
      else if rt =? CMD_REPLAY then do* on_wal (replay_log (wk_id w)) in retM d
      else if rt =? CMD_FLUSH then do* on_wal (flush_log (wk_id w)) in retM d
      else if rt =? CMD_CKPT then retM d
      else failM Undefined
  | BatchData _ _ => failM Undefined
  end.

(** A code that is no command falls through the switch. *)
Definition known_command (rt : Z) : bool := (CMD_INT_PUT <=? rt) && (rt <=? CMD_CKPT).

(** [handle_ops]: a batch is handled element by element; an element of size zero is a fatal
    error. *)
Fixpoint handle_data (rt : Z) (d : req_data) {struct d} : M worker req_data :=
  match d with
  | BatchData nreqs reqs =>
      do* definedM ((rt =? CMD_BATCH_GET) || (rt =? CMD_BATCH_PUT)) in
      let* reqs' :=
        (fix handle_batch (n : nat) (l : list (Z * req_data)) {struct l} : M worker (list (Z * req_data)) :=
           match n, l with
           | O, _ => retM l
           | S _, [] => failM Undefined
           | S n', (rt', d') :: l' =>
               match d' with
               | KVData size _ _ =>
                   do* checkM (negb (size =? 0)) in
                   let* x := handle_data rt' d' in
                   let* xs := handle_batch n' l' in
                   retM ((rt', x) :: xs)
               | _ => failM Undefined
               end
           end) (Z.to_nat nreqs) reqs in
      retM (BatchData nreqs reqs')
  | _ => handle_one rt d
  end.

Definition handle_ops (r : request) : M worker request :=
  let* d := (if known_command (rq_type r) then handle_data (rq_type r) (rq_data r)
             else retM (rq_data r)) in
  retM (mkReq (rq_type r) 0 d).


End Dispatch.

(** ** The dispatcher on a worker's stores *)

(** The worker with other stores. *)
Definition with_store (w : worker) (s : store) : worker :=
  mkWorker (wk_id w) (st_local s) (wk_iv w) (set_kv (st_kv s) (wk_wal w)).

Lemma wk_store_with w s : wk_store (with_store w s) = s.
Proof. now destruct s. Qed.

Lemma with_store_iv w s : wk_iv (with_store w s) = wk_iv w.
Proof. reflexivity. Qed.

Lemma on_store_run {A} (c : M store A) w r s' :
  c (wk_store w) = (r, s') -> on_store c w = (r, with_store w s').
Proof. intros H. unfold on_store, zoomM. now rewrite H. Qed.

(** What promoting [rid0] to partition [p] leaves behind. *)
Record promoted (w w' : worker) (t : vtype) (v : vty t) (rid0 p rid : RID) : Prop := {
  pm_ok : store_ok (wk_store w');
  pm_u64 : in_u64 rid;
  pm_global : islocal rid = false;
  pm_part : rid_partition rid = p;
  pm_fresh : view (wk_store w) t rid = None;
  pm_view : view (wk_store w') t rid = Some v;
  pm_freed : islocal rid0 = true -> view (wk_store w') t rid0 = None;
  pm_frame : forall t' k, in_u64 k -> (t', k) <> (t, rid) -> ~ (islocal rid0 = true /\ (t', k) = (t, rid0)) ->
    view (wk_store w') t' k = view (wk_store w) t' k;
  pm_next : forall q t', pnext (kv_part (st_kv (wk_store w')) q) t' <=
                         pnext (kv_part (st_kv (wk_store w)) q) t' + 1;
  pm_end : forall q, ts_end (p_text (kv_part (st_kv (wk_store w')) q)) <=
                     ts_end (p_text (kv_part (st_kv (wk_store w)) q)) + text_size v;
}.

Lemma handle_promote_spec w t v rid0 p :
  store_ok (wk_store w) -> in_u64 rid0 -> view (wk_store w) t rid0 = Some v ->
  room (wk_store w) t v false p ->
  exists rid w', handle_promote t rid0 INVALID_RID p w = (Ok rid, w') /\ promoted w w' t v rid0 p rid.
Proof.
  intros Hok Hu Hv Hroom. set (s := wk_store w) in *.
  destruct (get_spec s t rid0 v Hok Hv) as (s1 & H1 & Hok1 & He1).
  assert (Hroom1 : room s1 t v false p).
  { destruct Hroom as [Hp Hr]. split; [exact Hp|]. now rewrite (proj2 He1). }
  destruct (put_global_spec s1 t v p Hok1 Hroom1) as (rid & s2 & H2 & Hg & Hpart & Hst & _ & Hnext & Hend).
  apply (stored_equiv s) in Hst; [|exact He1]. destruct Hst as [Hok2 Hru _ Hfresh Hval Hframe].
  destruct (free_spec s2 t rid0 Hok2 Hu) as (s3 & H3 & Hok3 & Hkv3 & Hn3 & Hf3 & _).
  exists rid, (with_store (with_store (with_store w s1) s2) s3). split.
  { unfold handle_promote. rewrite (bindM_run _ _ _ _ _ (on_store_run _ w _ s1 H1)).
    rewrite (bindM_run _ _ _ _ _ (on_store_run _ (with_store w s1) _ s2 ltac:(rewrite wk_store_with; exact H2))).
    rewrite (bindM_run _ _ _ _ _ (on_store_run _ (with_store (with_store w s1) s2) _ s3
                                     ltac:(rewrite wk_store_with; exact H3))). reflexivity. }
  assert (Hrid : rid0 <> rid) by (intros ->; fold s in Hv; congruence).
  assert (Hkeep : forall t' k, in_u64 k -> ~ (islocal rid0 = true /\ (t', k) = (t, rid0)) ->
                    view s3 t' k = view s2 t' k).
  { intros t' k Hk Hn. destruct (islocal rid0) eqn:E; [apply Hf3; [exact Hk|intros Ek; apply Hn; auto]|].
    rewrite freeLocal_eq, E in H3. unfold retM in H3. now injection H3 as <-. }
  split; rewrite ?wk_store_with; fold s; try assumption.
  - rewrite Hkeep; [exact Hval|exact Hru|]. intros [_ [= E]]. congruence.
  - intros t' k Hk Hne Hn. rewrite Hkeep by assumption. now apply Hframe.
  - intros q t'. rewrite Hkv3. specialize (Hnext q t'). now rewrite (proj2 He1) in Hnext.
  - intros q. rewrite Hkv3. specialize (Hend q). now rewrite (proj2 He1) in Hend.
Qed.

(** C29: promoting an intermediate result makes it persistent: the returned RID is a global one
    of the relation's partition and holds the value, the local RID is freed, and every other
    RID, local or persistent, keeps its value. *)
Theorem handle_promote_correct (w : worker) (t : vtype) (v : vty t) (local p : RID) :
  store_ok (wk_store w) -> in_u64 local -> islocal local = true ->
  view (wk_store w) t local = Some v -> room (wk_store w) t v false p ->
  exists rid w', handle_promote t local INVALID_RID p w = (Ok rid, w') /\
    store_ok (wk_store w') /\ islocal rid = false /\ rid_partition rid = p /\
    view (wk_store w) t rid = None /\ view (wk_store w') t rid = Some v /\
    view (wk_store w') t local = None /\
    (forall t' k, in_u64 k -> (t', k) <> (t, rid) -> (t', k) <> (t, local) ->
       view (wk_store w') t' k = view (wk_store w) t' k).
Proof.
  intros Hok Hu Hloc Hv Hroom.
  destruct (handle_promote_spec w t v local p Hok Hu Hv Hroom) as (rid & w' & Hr & Hp).
  exists rid, w'. split; [exact Hr|]. destruct Hp as [H1 H2 H3 H4 H5 H6 H7 H8 _ _].
  repeat (split; [auto|]). intros t' k Hk Hne1 Hne2. apply H8; [assumption..|]. tauto.
Qed.

(** What [of_bytes] undoes. *)
Lemma of_to_bytes t (v : vty t) : wf_value v -> of_bytes (to_bytes v) = v.
Proof.
  destruct t; cbn [of_bytes to_bytes wf_value]; intros H; rewrite ?le_val_le_bytes.
  - now apply s32_u32.
  - apply Z.mod_small. exact H.
  - now apply s64_u64.
  - now apply until_zero_id.
Qed.

Lemma length_to_bytes t (v : vty t) :
  Z.of_nat (length (to_bytes v)) = match t with TText => Z.of_nat (length (to_bytes v)) | _ => plain_size t end.
Proof. destruct t; cbn; rewrite ?length_le_bytes; reflexivity. Qed.

Section RoundTrip.
Context (crypt_and_tag : bytes -> bytes -> bytes -> Z * (bytes * bytes)).
Context (auth_decrypt : bytes -> bytes -> bytes -> bytes -> Z * bytes).

(** The client's round trip: encrypt, store the ciphertext, fetch a ciphertext, decrypt. *)
Definition client_roundtrip (t : vtype) (v : vty t) : M worker (RID * bytes) :=
  let* c := handle_enc crypt_and_tag t (to_bytes v) in
  let* rid := handle_put_enc auth_decrypt t c in
  let* c' := handle_get_enc crypt_and_tag t rid in
  let* p := handle_dec auth_decrypt t c' in
  retM (rid, p).

(** Whether the library encrypts [m] with the nonce that follows [iv]; a worker whose encryption
    fails ends. *)
Definition encrypts (iv m : bytes) : bool := fst (crypt_and_tag enc_key (increment iv) m) =? 0.

(** A value short enough for the request structures. *)
Definition fits_request {t : vtype} : vty t -> Prop :=
  match t with
  | TText => fun v => Z.of_nat (length v) < STRING_LENGTH
  | _ => fun _ => True
  end.

Lemma fits_request_size t (v : vty t) :
  fits_request v ->
  Z.of_nat (length (to_bytes v)) <= plain_size t - (match t with TText => 1 | _ => 0 end) /\
  Z.of_nat (length (to_bytes v)) < 2 ^ 32 - 28.
Proof.
  destruct t; cbn [to_bytes plain_size fits_request]; rewrite ?length_le_bytes; unfold STRING_LENGTH; cbn; lia.
Qed.

Definition with_iv (w : worker) (iv : bytes) : worker := mkWorker (wk_id w) (wk_local w) iv (wk_wal w).

Lemma on_iv_run {A} (c : M bytes A) w r iv' : c (wk_iv w) = (r, iv') -> on_iv c w = (r, with_iv w iv').
Proof. intros H. unfold on_iv, zoomM. now rewrite H. Qed.

Lemma add_28 x : x + IV_SIZE + TAG_SIZE = x + 28.
Proof. unfold IV_SIZE, TAG_SIZE. lia. Qed.

(** A good nonce. *)
Definition nonce_ok (iv : bytes) : Prop := wf_bytes iv /\ length iv = 12%nat.

Lemma nonce_ok_increment iv : nonce_ok iv -> nonce_ok (increment iv).
Proof. intros [Hw Hl]. destruct (increment_spec iv Hw) as (H1 & H2 & _). split; [exact H1|congruence]. Qed.

(** Encrypting the bytes of a value yields a ciphertext that decrypts to them. *)
Lemma encrypt_value t (v : vty t) (w : worker) :
  gcm_documented crypt_and_tag auth_decrypt -> encrypts (wk_iv w) (to_bytes v) = true -> nonce_ok (wk_iv w) -> fits_request v ->
  exists c, on_iv (encrypt_bytes crypt_and_tag (to_bytes v)
                     (Z.of_nat (length (to_bytes v)) + IV_SIZE + TAG_SIZE)) w =
      (Ok (0, c), with_iv w (increment (wk_iv w))) /\
    length c = (length (to_bytes v) + 28)%nat /\
    forall st, decrypt_bytes auth_decrypt c (Z.of_nat (length (to_bytes v))) st = (Ok (0, to_bytes v), st).
Proof.
  intros [Hsizes Hinv] Henc [Hw Hl] Hfit. destruct (fits_request_size t v Hfit) as [_ Hlen]. unfold encrypts in Henc.
  destruct (crypt_and_tag enc_key (increment (wk_iv w)) (to_bytes v)) as [r [d tg]] eqn:Hc. apply Z.eqb_eq in Henc. cbn in Henc. subst r.
  destruct (Hsizes _ _ _ _ _ Hc) as [Hd Ht]. destruct (increment_spec (wk_iv w) Hw) as (_ & Hl1 & _).
  exists (increment (wk_iv w) ++ tg ++ d). rewrite add_28. split; [|split].
  - apply on_iv_run. now rewrite (encrypt_run crypt_and_tag (to_bytes v) (wk_iv w) 0 d tg ltac:(lia) Hc).
  - rewrite !length_app. lia.
  - intros st. rewrite <- Hd. apply decrypt_framed; [lia|exact Ht|lia|]. now apply Hinv.
Qed.

Lemma encrypt_value_fails t (v : vty t) (w : worker) :
  encrypts (wk_iv w) (to_bytes v) = false -> fits_request v ->
  on_iv (encrypt_bytes crypt_and_tag (to_bytes v) (Z.of_nat (length (to_bytes v)) + IV_SIZE + TAG_SIZE)) w =
    (Err Fatal, with_iv w (increment (wk_iv w))).
Proof.
  intros Henc Hfit. destruct (fits_request_size t v Hfit) as [_ Hlen]. unfold encrypts in Henc.
  destruct (crypt_and_tag enc_key (increment (wk_iv w)) (to_bytes v)) as [r [d tg]] eqn:Hc. rewrite add_28.
  apply on_iv_run. rewrite (encrypt_run crypt_and_tag (to_bytes v) (wk_iv w) r d tg ltac:(lia) Hc). cbn in Henc. now rewrite Henc.
Qed.

Lemma put_enc_spec t (v : vty t) c w :
  store_ok (wk_store w) -> local_room (wk_store w) t -> wf_value v -> fits_request v ->
  length c = (length (to_bytes v) + 28)%nat ->
  (forall st, decrypt_bytes auth_decrypt c (Z.of_nat (length (to_bytes v))) st = (Ok (0, to_bytes v), st)) ->
  exists rid s', handle_put_enc auth_decrypt t c w = (Ok rid, with_store w s') /\ islocal rid = true /\
    stored (wk_store w) s' t v rid.
Proof.
  intros Hok Hroom Hwf Hfit Hlen Hdec. destruct (fits_request_size t v Hfit) as [Hsz _].
  destruct (put_local_spec (wk_store w) t v RID_DEFAULT_PARTITION Hok Hroom) as (rid & s' & Hr & Hl & Hst & _).
  exists rid, s'. split; [|now split]. unfold handle_put_enc.
  assert (El : match t with
               | TText => Z.of_nat (length c) - IV_SIZE - TAG_SIZE
               | _ => plain_size t
               end = Z.of_nat (length (to_bytes v))).
  { pose proof (length_to_bytes t v). destruct t; rewrite ?Hlen; unfold IV_SIZE, TAG_SIZE; lia. }
  rewrite El. rewrite (bindM_run _ _ w w tt) by (apply definedM_true, Z.leb_le; lia).
  rewrite (bindM_run _ _ _ _ _ (on_iv_run _ w _ _ (Hdec (wk_iv w)))).
  rewrite of_to_bytes by exact Hwf. apply (on_store_run _ (with_iv w (wk_iv w))). exact Hr.
Qed.

(** A ciphertext of a value. *)
Definition ciphers {t : vtype} (v : vty t) (c : bytes) : Prop :=
  length c = (length (to_bytes v) + 28)%nat /\
  forall st, decrypt_bytes auth_decrypt c (Z.of_nat (length (to_bytes v))) st = (Ok (0, to_bytes v), st).

Lemma handle_enc_run t (v : vty t) w :
  gcm_documented crypt_and_tag auth_decrypt -> encrypts (wk_iv w) (to_bytes v) = true -> nonce_ok (wk_iv w) -> fits_request v ->
  exists c, handle_enc crypt_and_tag t (to_bytes v) w = (Ok c, with_iv w (increment (wk_iv w))) /\ ciphers v c.
Proof.
  intros Hdoc Htot Hiv Hfit. destruct (encrypt_value t v w Hdoc Htot Hiv Hfit) as (c & He & Hlc & Hdec).
  exists c. split; [|now split]. unfold handle_enc.
  rewrite (bindM_run _ _ w w tt), (bindM_run _ _ _ _ _ He); [reflexivity|].
  destruct t; try reflexivity. apply checkM_true, Z.ltb_lt. exact Hfit.
Qed.

Lemma handle_enc_fails t (v : vty t) w : encrypts (wk_iv w) (to_bytes v) = false -> fits_request v ->
  handle_enc crypt_and_tag t (to_bytes v) w = (Err Fatal, with_iv w (increment (wk_iv w))).
Proof.
  intros Henc Hfit. unfold handle_enc. rewrite (bindM_run _ _ w w tt).
  - now rewrite (bindM_fail _ _ _ _ _ (encrypt_value_fails t v w Henc Hfit)).
  - destruct t; try reflexivity. apply checkM_true, Z.ltb_lt. exact Hfit.
Qed.

Lemma handle_get_enc_run t (v : vty t) rid w :
  gcm_documented crypt_and_tag auth_decrypt -> encrypts (wk_iv w) (to_bytes v) = true -> nonce_ok (wk_iv w) -> fits_request v ->
  store_ok (wk_store w) -> view (wk_store w) t rid = Some v ->
  exists c s', handle_get_enc crypt_and_tag t rid w = (Ok c, with_iv (with_store w s') (increment (wk_iv w))) /\
    ciphers v c /\ store_ok s' /\ st_equiv (wk_store w) s'.
Proof.
  intros Hdoc Htot Hiv Hfit Hok Hv. destruct (fits_request_size t v Hfit) as [Hsz _].
  destruct (get_spec _ t rid v Hok Hv) as (s' & Hg & Hok' & He').
  destruct (encrypt_value t v (with_store w s') Hdoc Htot Hiv Hfit) as (c & He & Hlc & Hdec).
  exists c, s'. split; [|now split_and!]. unfold handle_get_enc.
  rewrite (bindM_run _ _ _ _ _ (on_store_run _ w _ s' Hg)). unfold definedM.
  rewrite (proj2 (Z.leb_le _ _)) by lia. unfold bindM at 1, retM at 1. now rewrite (bindM_run _ _ _ _ _ He).
Qed.

Lemma handle_get_enc_fails t (v : vty t) rid w :
  encrypts (wk_iv w) (to_bytes v) = false -> fits_request v -> store_ok (wk_store w) -> view (wk_store w) t rid = Some v ->
  exists w', handle_get_enc crypt_and_tag t rid w = (Err Fatal, w').
Proof.
  intros Henc Hfit Hok Hv. destruct (fits_request_size t v Hfit) as [Hsz _].
  destruct (get_spec _ t rid v Hok Hv) as (s' & Hg & _ & _).
  eexists. unfold handle_get_enc. rewrite (bindM_run _ _ _ _ _ (on_store_run _ w _ s' Hg)).
  rewrite (bindM_run _ _ (with_store w s') (with_store w s') tt) by (apply definedM_true, Z.leb_le; lia).
  exact (bindM_fail _ _ _ _ _ (encrypt_value_fails t v (with_store w s') Henc Hfit)).
Qed.

Lemma handle_dec_run t (v : vty t) c w : ciphers v c -> fits_request v ->
  handle_dec auth_decrypt t c w = (Ok (to_bytes v), with_iv w (wk_iv w)).
Proof.
  intros [Hlc Hdec] Hfit. unfold handle_dec.
  assert (El : match t with
               | TText => Z.of_nat (length c) - IV_SIZE - TAG_SIZE
               | _ => plain_size t
               end = Z.of_nat (length (to_bytes v))).
  { pose proof (length_to_bytes t v). destruct t; rewrite ?Hlc; unfold IV_SIZE, TAG_SIZE; lia. }
  rewrite El, (bindM_run _ _ w w tt).
  - now rewrite (bindM_run _ _ _ _ _ (on_iv_run _ w _ _ (Hdec (wk_iv w)))).
  - destruct t; try reflexivity. apply checkM_true. rewrite Hlc. cbn [fits_request to_bytes] in *.
    unfold IV_SIZE, TAG_SIZE in *. apply andb_true_iff. split; [apply Z.leb_le|apply Z.ltb_lt]; lia.
Qed.

(** C17: a value a client encrypts survives the round trip through the privacy zone, for every
    type and texts below [STRING_LENGTH]: storing the ciphertext yields a local RID that held
    nothing, fetching that RID yields a ciphertext, and decrypting it gives the bytes of the
    value. The library is called twice to encrypt, with the two next nonces; when one of the
    calls reports an error, the round trip ends in a fatal error. *)
Theorem client_roundtrip_correct (t : vtype) (v : vty t) (w : worker) :
  gcm_documented crypt_and_tag auth_decrypt -> nonce_ok (wk_iv w) ->
  store_ok (wk_store w) -> local_room (wk_store w) t -> wf_value v -> fits_request v ->
  if encrypts (wk_iv w) (to_bytes v) && encrypts (increment (wk_iv w)) (to_bytes v)
  then exists rid w', client_roundtrip t v w = (Ok (rid, to_bytes v), w') /\ islocal rid = true /\
    view (wk_store w) t rid = None
  else exists w', client_roundtrip t v w = (Err Fatal, w').
Proof.
  intros Hdoc Hiv Hok Hroom Hwf Hfit. unfold client_roundtrip. destruct (encrypts (wk_iv w) (to_bytes v)) eqn:E1; cbn [andb].
  2: { eexists. exact (bindM_fail _ _ _ _ _ (handle_enc_fails t v w E1 Hfit)). }
  destruct (handle_enc_run t v w Hdoc E1 Hiv Hfit) as (c & H1 & Hlc & Hdec). rewrite (bindM_run _ _ _ _ _ H1).
  destruct (put_enc_spec t v c (with_iv w (increment (wk_iv w))) Hok Hroom Hwf Hfit Hlc Hdec)
    as (rid & s' & H2 & Hl & Hst). rewrite (bindM_run _ _ _ _ _ H2).
  set (w2 := with_store (with_iv w (increment (wk_iv w))) s') in *.
  assert (Hs2 : wk_store w2 = s') by apply wk_store_with.
  assert (Hv2 : store_ok (wk_store w2) /\ view (wk_store w2) t rid = Some v) by (rewrite Hs2; split; apply Hst).
  destruct (encrypts (increment (wk_iv w)) (to_bytes v)) eqn:E2.
  - destruct (handle_get_enc_run t v rid w2 Hdoc E2 ltac:(now apply nonce_ok_increment) Hfit (proj1 Hv2) (proj2 Hv2))
      as (c' & s3 & H3 & Hc' & _).
    eexists rid, _. split; [|split; [exact Hl|apply (stored_fresh _ _ _ _ _ Hst)]]. rewrite (bindM_run _ _ _ _ _ H3).
    now rewrite (bindM_run _ _ _ _ _ (handle_dec_run t v c' _ Hc' Hfit)).
  - destruct (handle_get_enc_fails t v rid w2 E2 Hfit (proj1 Hv2) (proj2 Hv2)) as (w' & H3). exists w'. exact (bindM_fail _ _ _ _ _ H3).
Qed.

End RoundTrip.

(** A worker with nothing stored. *)
Definition fresh_worker : worker :=
  mkWorker 0 local_empty (replicate 12 0) (mkWal WAL_MAGIC WAL_DATA_OFFSET ∅ [] kv_empty ∅).

Lemma fresh_nonce : nonce_ok (replicate 12 0).
Proof. split; [apply wf_replicate; unfold in_u8; lia|reflexivity]. Qed.

Lemma client_roundtrip_correct_witness :
  exists rid w', client_roundtrip null_crypt null_decrypt TInt (-5) fresh_worker =
      (Ok (rid, [251; 255; 255; 255]), w') /\ islocal rid = true /\
    view (wk_store fresh_worker) TInt rid = None.
Proof.
  apply (client_roundtrip_correct null_crypt null_decrypt TInt (-5) fresh_worker null_documented fresh_nonce).
  - apply st_empty_ok.
  - reflexivity.
  - cbn. unfold in_s32. lia.
  - exact I.
Defined.

(** A worker that holds the local integer 7. *)
Definition worker_7 : worker :=
  mkWorker 0 (mkLocalKV (mkRstore [7] [true] []) rempty rempty rempty) (replicate 12 0)
           (mkWal WAL_MAGIC WAL_DATA_OFFSET ∅ [] kv_empty ∅).

Lemma worker_7_ok : store_ok (wk_store worker_7).
Proof.
  split; [|apply st_empty_ok]. split; [apply (rs_ok_all_live [7])|]. repeat split; apply rs_ok_empty.
Qed.

Lemma handle_promote_correct_witness :
  exists rid w', handle_promote TInt (idx2local 0) INVALID_RID 5 worker_7 = (Ok rid, w') /\
    store_ok (wk_store w') /\ islocal rid = false /\ rid_partition rid = 5 /\
    view (wk_store worker_7) TInt rid = None /\ view (wk_store w') TInt rid = Some 7 /\
    view (wk_store w') TInt (idx2local 0) = None /\
    (forall t' k, in_u64 k -> (t', k) <> (TInt, rid) -> (t', k) <> (TInt, idx2local 0) ->
       view (wk_store w') t' k = view (wk_store worker_7) t' k).
Proof.
  apply (handle_promote_correct worker_7 TInt 7 (idx2local 0) 5 worker_7_ok).
  - split; vm_compute; congruence.
  - reflexivity.
  - reflexivity.
  - split; [split; [split; reflexivity || easy|vm_compute; congruence]|reflexivity].
Defined.
