(* ===== verification/Layout.v ===== *)
(** Memory of a request region and the layout of the structures in it: the object model of the
    C++ ABI of the supported targets (x86-64 and aarch64, both little-endian with natural
    alignment), and the structures of src/include/enc_types.h and
    src/include/request_types.h. *)
From S2P Require Import Prelude LocalStore KV Crypto Handler Wal.

(** ** Memory *)

(** The number of bytes of a buffer. *)
Definition blen (m : bytes) : Z := Z.of_nat (length m).

Definition slice (off n : Z) (m : bytes) : bytes := take (Z.to_nat n) (drop (Z.to_nat off) m).
Definition splice (off : Z) (bs m : bytes) : bytes :=
  take (Z.to_nat off) m ++ bs ++ drop (Z.to_nat off + length bs) m.
Definition in_range (off n : Z) (m : bytes) : bool := (0 <=? off) && (0 <=? n) && (off + n <=? blen m).

(** Reads and writes; outside the buffer the behaviour is undefined. *)
Definition loadM (off n : Z) : M bytes bytes :=
  fun m => if in_range off n m then (Ok (slice off n m), m) else (Err Undefined, m).
Definition storeM (off : Z) (bs : bytes) : M bytes unit :=
  fun m => if in_range off (blen bs) m then (Ok tt, splice off bs m) else (Err Undefined, m).

Definition load32 (off : Z) : M bytes Z := let* b := loadM off 4 in retM (le_val b).
Definition load_int (off : Z) : M bytes Z := let* b := loadM off 4 in retM (s32 (le_val b)).
Definition load64 (off : Z) : M bytes Z := let* b := loadM off 8 in retM (le_val b).
Definition store32 (off v : Z) : M bytes unit := storeM off (le_bytes 4 (u32 v)).
Definition store64 (off v : Z) : M bytes unit := storeM off (le_bytes 8 (u64 v)).

Lemma blen_nonneg m : 0 <= blen m.
Proof. unfold blen. lia. Qed.

Lemma blen_app l r : blen (l ++ r) = blen l + blen r.
Proof. unfold blen. rewrite length_app. lia. Qed.

Lemma blen_le_bytes n v : blen (le_bytes n v) = Z.of_nat n.
Proof. unfold blen. now rewrite length_le_bytes. Qed.

Lemma in_range_true off n m : 0 <= off -> 0 <= n -> off + n <= blen m -> in_range off n m = true.
Proof. intros. unfold in_range. rewrite !andb_true_iff, !Z.leb_le. lia. Qed.

Lemma in_range_inv off n m : in_range off n m = true -> 0 <= off /\ 0 <= n /\ off + n <= blen m.
Proof. unfold in_range. rewrite !andb_true_iff, !Z.leb_le. lia. Qed.

Lemma blen_splice off bs m : 0 <= off -> off + blen bs <= blen m -> blen (splice off bs m) = blen m.
Proof.
  unfold splice, blen. intros H0 H1. rewrite !length_app, length_take, length_drop. lia.
Qed.

Lemma slice_splice_eq off bs m n :
  0 <= off -> off + blen bs <= blen m -> n = blen bs -> slice off n (splice off bs m) = bs.
Proof.
  unfold slice, splice, blen. intros H0 H1 ->.
  rewrite drop_app_le by (rewrite length_take; lia). rewrite drop_ge by (rewrite length_take; lia).
  cbn [app]. rewrite Nat2Z.id. apply take_app_length.
Qed.

Lemma slice_splice_ne off bs m off' n :
  0 <= off -> 0 <= off' -> 0 <= n -> off + blen bs <= blen m -> off' + n <= off \/ off + blen bs <= off' ->
  slice off' n (splice off bs m) = slice off' n m.
Proof.
  unfold slice, splice, blen. intros H0 H0' Hn H1 [Hd|Hd].
  - rewrite drop_app_le by (rewrite length_take; lia).
    rewrite take_app_le by (rewrite length_drop, length_take; lia).
    rewrite skipn_firstn_comm, take_take. f_equal. lia.
  - rewrite drop_app_ge by (rewrite length_take; lia).
    rewrite drop_app_ge by (rewrite length_take; lia).
    rewrite drop_drop. do 2 f_equal. rewrite length_take. lia.
Qed.

Lemma blen_slice off n m : 0 <= off -> 0 <= n -> off + n <= blen m -> blen (slice off n m) = n.
Proof. unfold blen, slice. intros. rewrite length_take, length_drop. lia. Qed.

(** A read inside a longer slice. *)
Lemma slice_app_l off n l r : 0 <= off -> 0 <= n -> off + n <= blen l -> slice off n (l ++ r) = slice off n l.
Proof.
  unfold slice, blen. intros. rewrite drop_app_le by lia. rewrite take_app_le by (rewrite length_drop; lia). reflexivity.
Qed.

Lemma loadM_run off n m : 0 <= off -> 0 <= n -> off + n <= blen m -> loadM off n m = (Ok (slice off n m), m).
Proof. intros. unfold loadM. now rewrite in_range_true. Qed.

Lemma storeM_run off bs m : 0 <= off -> off + blen bs <= blen m -> storeM off bs m = (Ok tt, splice off bs m).
Proof. intros. unfold storeM. rewrite in_range_true; [reflexivity|lia|apply blen_nonneg|lia]. Qed.

Lemma storeM_ok off bs m m' : storeM off bs m = (Ok tt, m') ->
  0 <= off /\ off + blen bs <= blen m /\ m' = splice off bs m.
Proof.
  unfold storeM. destruct (in_range off (blen bs) m) eqn:E; [|discriminate]. apply in_range_inv in E.
  intros [= <-]. now split_and!.
Qed.

(** ** C types *)

Record ctype : Type := mkC {
  c_size : Z;
  c_align : Z;
}.

Definition c_uint8 : ctype := mkC 1 1.
Definition c_int : ctype := mkC 4 4.
Definition c_uint64 : ctype := mkC 8 8.
Definition c_array (t : ctype) (n : Z) : ctype := mkC (c_size t * n) (c_align t).

Definition align_up (off a : Z) : Z := (off + a - 1) / a * a.

(** The offsets of the members of a structure, and the first offset behind them. *)
Fixpoint place (off : Z) (fields : list ctype) : list Z * Z :=
  match fields with
  | [] => ([], off)
  | f :: rest =>
      let o := align_up off (c_align f) in
      let '(os, e) := place (o + c_size f) rest in (o :: os, e)
  end.
Definition struct (fields : list ctype) : ctype :=
  let a := fold_right (fun f acc => Z.max (c_align f) acc) 1 fields in
  mkC (align_up (snd (place 0 fields)) a) a.
Definition offsetof (fields : list ctype) (i : nat) : Z := nth i (fst (place 0 fields)) 0.
Definition sizeof (fields : list ctype) : Z := c_size (struct fields).

(** ** The structures *)

(** [ReqStatus] values. *)
Definition ST_NONE : Z := 0.
Definition ST_SENT : Z := 1.
Definition ST_DONE : Z := 2.

Definition BaseRequest : list ctype := [c_int; c_int; c_int].
Definition BASE_status : Z := offsetof BaseRequest 0.
Definition BASE_reqType : Z := offsetof BaseRequest 1.
Definition BASE_resp : Z := offsetof BaseRequest 2.

(** [DEFINE_ENCTYPE], and the plain types. *)
Definition EncType (data_size : Z) : list ctype :=
  [c_array c_uint8 IV_SIZE; c_array c_uint8 TAG_SIZE; c_array c_uint8 data_size].
Definition EncStr_struct : list ctype := [c_int; struct (EncType STRING_LENGTH)].
Definition Str_struct : list ctype := [c_int; c_array c_uint8 STRING_LENGTH].
Definition enc_ctype (t : vtype) : ctype :=
  match t with
  | TInt | TFloat => struct (EncType 4)
  | TTimestamp => struct (EncType 8)
  | TText => struct EncStr_struct
  end.
Definition plain_ctype (t : vtype) : ctype :=
  match t with
  | TInt | TFloat => c_int
  | TTimestamp => c_uint64
  | TText => struct Str_struct
  end.

Definition c_base : ctype := struct BaseRequest.
Definition EncRequestData (t : vtype) : list ctype := [c_base; plain_ctype t; enc_ctype t].
Definition DecRequestData (t : vtype) : list ctype := [c_base; enc_ctype t; plain_ctype t].
Definition PutEncIntoKVRequestData (t : vtype) : list ctype := [c_base; c_uint64; enc_ctype t].
Definition GetEncFromKVRequestData (t : vtype) : list ctype := [c_base; enc_ctype t; c_uint64].
Definition PromoteRequestData : list ctype := [c_base; c_uint64; c_uint64; c_uint64; c_uint64].
Definition BatchRequestData : list ctype := [c_base; c_uint64; c_int; c_array c_uint8 0].
Definition KVRequestData : list ctype := [c_base; c_uint64; c_uint64; c_array c_uint8 0].
Definition WalRidItem_struct : list ctype := [c_int; c_uint64].
Definition WalAppendBatchRequestData : list ctype :=
  [c_base; c_int; c_array (struct WalRidItem_struct) WAL_RID_BATCH_SIZE].
Definition WalMaterializeBatchRequestData : list ctype :=
  [c_base; c_int; c_uint64; c_array (struct WalRidItem_struct) WAL_MATERIALIZE_RID_BATCH_SIZE;
   c_array c_uint8 0].
Definition WalReplayPayloadRequestData : list ctype := [c_base; c_uint64; c_array c_uint8 0].
Definition CmpRequestData : list ctype := [c_base; c_uint64; c_uint64; c_int].
Definition CalcRequestData : list ctype := [c_base; c_uint64; c_uint64; c_uint64].
Definition BulkRequestData : list ctype := [c_base; c_int; c_array c_uint64 BULK_SIZE; c_uint64].
Definition TimestampExtractYearRequestData : list ctype := [c_base; c_uint64; c_uint64].
Definition SubstringRequestData : list ctype := [c_base; c_uint64; c_uint64; c_uint64; c_uint64].
Definition SingleArgRequestData : list ctype := [c_base].

(** Replace offsets and sizes by their values. *)
Ltac eval_layout :=
  repeat match goal with
  | |- context [offsetof ?s ?i] =>
      let v := eval vm_compute in (offsetof s i) in change (offsetof s i) with v
  | |- context [sizeof ?s] => let v := eval vm_compute in (sizeof s) in change (sizeof s) with v
  | H : context [offsetof ?s ?i] |- _ =>
      let v := eval vm_compute in (offsetof s i) in change (offsetof s i) with v in H
  | H : context [sizeof ?s] |- _ => let v := eval vm_compute in (sizeof s) in change (sizeof s) with v in H
  end;
  change BASE_status with 0; change BASE_reqType with 4; change BASE_resp with 8.

Example bulk_layout : offsetof BulkRequestData 2 = 16 /\ offsetof BulkRequestData 3 = 2064 /\ sizeof BulkRequestData = 2072.
Proof. now vm_compute. Qed.
Example batch_layout : offsetof BatchRequestData 3 = 28 /\ sizeof BatchRequestData = 32.
Proof. now vm_compute. Qed.

(** The capacities the handler computes with [offsetof] leave room for the items. *)
Lemma payload_capacities :
  payload_capacity = Shm.REQ_REGION_SIZE - offsetof WalMaterializeBatchRequestData 4 /\
  replay_capacity = Shm.REQ_REGION_SIZE - offsetof WalReplayPayloadRequestData 2.
Proof. now vm_compute. Qed.

(** ** Sets of fields *)

(** A field is an offset from the start of its structure and the bytes there. *)
Definition field : Type := Z * bytes.

Definition store_all (base : Z) (fs : list field) : M bytes unit :=
  iterM fs (fun f => storeM (base + fst f) (snd f)).

(** The memory holds the fields of a structure at [base]. *)
Definition holds (base : Z) (m : bytes) (fs : list field) : Prop :=
  Forall (fun f => slice (base + fst f) (blen (snd f)) m = snd f) fs.

Definition apart (f g : field) : Prop := fst f + blen (snd f) <= fst g \/ fst g + blen (snd g) <= fst f.
Definition within (size : Z) (f : field) : Prop := 0 <= fst f /\ fst f + blen (snd f) <= size.

Lemma holds_splice base m fs off bs :
  0 <= base -> 0 <= off -> off + blen bs <= blen m -> holds base m fs ->
  Forall (fun f => 0 <= fst f /\ (base + fst f + blen (snd f) <= off \/ off + blen bs <= base + fst f)) fs ->
  holds base (splice off bs m) fs.
Proof.
  intros Hb H0 H1 Hh Hd. unfold holds in *. rewrite Forall_forall in *. intros f Hf.
  specialize (Hh f Hf). destruct (Hd f Hf) as [Hp Hd'].
  rewrite slice_splice_ne by (pose proof (blen_nonneg (snd f)); lia). exact Hh.
Qed.

(** Storing fields that do not overlap: all of them are there, and nothing else changed. *)
Lemma store_all_spec base size fs : forall m,
  0 <= base -> base + size <= blen m -> Forall (within size) fs -> ForallOrdPairs apart fs ->
  exists m', store_all base fs m = (Ok tt, m') /\ blen m' = blen m /\ holds base m' fs /\
    forall off n, 0 <= off -> 0 <= n ->
      Forall (fun f => off + n <= base + fst f \/ base + fst f + blen (snd f) <= off) fs ->
      slice off n m' = slice off n m.
Proof.
  induction fs as [|[o b] fs IH]; intros m Hb Hs Hw Hap.
  - exists m. split; [reflexivity|]. split; [reflexivity|]. split; [constructor|auto].
  - inversion Hw as [|? ? [Ho Hob] Hw']; subst. inversion Hap as [|? ? Hap1 Hap2]; subst. cbn [fst snd] in *.
    assert (Hl : blen (splice (base + o) b m) = blen m) by (apply blen_splice; lia).
    destruct (IH (splice (base + o) b m) Hb ltac:(lia) Hw' Hap2) as (m' & Hr & Hlen & Hh & Hframe).
    exists m'. split; [|split; [lia|split]].
    + unfold store_all. cbn [iterM fst snd]. rewrite (bindM_run _ _ m (splice (base + o) b m) tt); [exact Hr|].
      apply storeM_run; lia.
    + constructor; [|exact Hh]. cbn [fst snd]. rewrite Hframe; [|lia|apply blen_nonneg|].
      * apply slice_splice_eq; lia.
      * rewrite Forall_forall in *. intros g Hg. specialize (Hap1 g Hg). unfold apart in Hap1. cbn in Hap1. lia.
    + intros off n Hoff Hn Hd. inversion Hd as [|? ? Hd1 Hd2]; subst. cbn [fst snd] in Hd1.
      rewrite Hframe by assumption. apply slice_splice_ne; lia.
Qed.

Lemma le_val_64 v : in_u64 v -> le_val (le_bytes 8 (u64 v)) = v.
Proof. intros H. rewrite le_val_le_bytes, (u64_small v H). apply Z.mod_small. exact H. Qed.

Lemma le_val_32 v : in_s32 v -> s32 (le_val (le_bytes 4 (u32 v))) = v.
Proof.
  intros H. rewrite le_val_le_bytes. change (256 ^ Z.of_nat 4) with (2 ^ 32).
  rewrite (Z.mod_small (u32 v)) by apply u32_range. unfold s32, u32, in_s32 in *. dlia.
Qed.

Lemma le_val_u32 v : in_u32 v -> le_val (le_bytes 4 (u32 v)) = v.
Proof. intros H. rewrite le_val_le_bytes, (u32_small v H). apply Z.mod_small. exact H. Qed.

(** Loads of a field the memory holds. *)
Lemma load64_field off v m :
  slice off 8 m = le_bytes 8 (u64 v) -> 0 <= off -> off + 8 <= blen m -> in_u64 v -> load64 off m = (Ok v, m).
Proof.
  intros Hs H0 H1 Hv. unfold load64. rewrite (bindM_run _ _ _ _ _ (loadM_run off 8 m H0 ltac:(lia) H1)).
  now rewrite Hs, le_val_64.
Qed.

Lemma load_int_field off v m :
  slice off 4 m = le_bytes 4 (u32 v) -> 0 <= off -> off + 4 <= blen m -> in_s32 v -> load_int off m = (Ok v, m).
Proof.
  intros Hs H0 H1 Hv. unfold load_int. rewrite (bindM_run _ _ _ _ _ (loadM_run off 4 m H0 ltac:(lia) H1)).
  now rewrite Hs, le_val_32.
Qed.

Lemma load32_field off v m :
  slice off 4 m = le_bytes 4 (u32 v) -> 0 <= off -> off + 4 <= blen m -> in_u32 v -> load32 off m = (Ok v, m).
Proof.
  intros Hs H0 H1 Hv. unfold load32. rewrite (bindM_run _ _ _ _ _ (loadM_run off 4 m H0 ltac:(lia) H1)).
  now rewrite Hs, le_val_u32.
Qed.

Lemma loadM_field off n b m :
  slice off (blen b) m = b -> n = blen b -> 0 <= off -> off + n <= blen m -> loadM off n m = (Ok b, m).
Proof. intros Hs -> H0 H1. rewrite loadM_run by (pose proof (blen_nonneg b); lia). now rewrite Hs. Qed.
