(* ===== verification/FileIO.v ===== *)
(** The loops around the system calls of src/privacy_zone/include/wal.hpp: [read_full],
    [write_full], [pwrite_full], [load_header] and the lock of the log file. A call may be
    interrupted and may transfer fewer bytes than it was asked for; what the kernel answers is
    a list, one answer per call. *)
From S2P Require Import Prelude Layout.

(** [Moved n] transfers [n] bytes, or as many as are wanted and there, and at least one if
    there is one. *)
Inductive io_answer : Type :=
| Moved (n : Z)
| Interrupted
| IoError.

Definition transferred (n wanted there : Z) : Z := Z.min (Z.max 1 n) (Z.min wanted there).

(** [None]: the loop still runs when the answers are used up. *)
Fixpoint read_full (answers : list io_answer) (file : bytes) (size offset : Z) (buf : bytes) : option (res bytes) :=
  if size <=? 0 then Some (Ok buf)
  else match answers with
  | [] => None
  | IoError :: _ => Some (Err Fatal)
  | Interrupted :: rest => read_full rest file size offset buf
  | Moved k :: rest =>
      let n := transferred k size (blen file - offset) in
      if n <=? 0 then Some (Err Fatal)
      else read_full rest file (size - n) (offset + n) (buf ++ slice offset n file)
  end.

(** Writing at [offset] extends a shorter file with zeroes. *)
Definition write_at (file bs : bytes) (offset : Z) : bytes :=
  splice offset bs (file ++ replicate (Z.to_nat (offset + blen bs - blen file)) 0).
Fixpoint pwrite_full (answers : list io_answer) (file ptr : bytes) (offset : Z) : option (res bytes) :=
  match ptr with
  | [] => Some (Ok file)
  | _ =>
      match answers with
      | [] => None
      | IoError :: _ => Some (Err Fatal)
      | Interrupted :: rest => pwrite_full rest file ptr offset
      | Moved k :: rest =>
          let n := transferred k (blen ptr) (blen ptr) in
          pwrite_full rest (write_at file (take (Z.to_nat n) ptr) offset) (drop (Z.to_nat n) ptr) (offset + n)
      end
  end.
(** [write] appends at the file position, here the end. *)
Definition write_full (answers : list io_answer) (file ptr : bytes) : option (res bytes) :=
  pwrite_full answers file ptr (blen file).

(** [load_header] reads once: the header, or nothing of an empty file. *)
Definition load_header (answer : io_answer) (file header : bytes) : res bytes :=
  match answer with
  | Moved k =>
      let n := transferred k (blen header) (blen file) in
      if (n =? blen header) || (n =? 0) then Ok (slice 0 n file ++ drop (Z.to_nat n) header) else Err Fatal
  | _ => Err Fatal
  end.

(** [lock_fd] and [unlock_fd]. *)
Fixpoint lock_fd (answers : list io_answer) : option (res unit) :=
  match answers with
  | [] => None
  | Interrupted :: rest => lock_fd rest
  | IoError :: _ => Some (Err Fatal)
  | Moved _ :: _ => Some (Ok tt)
  end.
Definition unlock_fd (answer : io_answer) : res unit :=
  match answer with
  | Moved _ => Ok tt
  | _ => Err Fatal
  end.

(** ** The loops transfer everything *)

Definition is_moved (a : io_answer) : bool := match a with Moved _ => true | _ => false end.
(** A kernel that does not report errors and answers [n] calls without interrupting them. *)
Definition serves (n : nat) (answers : list io_answer) : Prop :=
  ~ In IoError answers /\ (n <= length (List.filter is_moved answers))%nat.

Lemma serves_interrupted n rest : serves n (Interrupted :: rest) -> serves n rest.
Proof. intros [Hn Hl]. split; [|exact Hl]. intros H. apply Hn. now right. Qed.
Lemma serves_moved n k rest : serves (S n) (Moved k :: rest) -> serves n rest.
Proof. intros [Hn Hl]. split; [intros H; apply Hn; now right|]. cbn in Hl. lia. Qed.
Lemma serves_le n m answers : serves n answers -> (m <= n)%nat -> serves m answers.
Proof. intros [Hn Hl] Hm. split; [exact Hn|lia]. Qed.

Lemma slice_app_slice off n m l : 0 <= off -> 0 <= n -> 0 <= m -> slice off n l ++ slice (off + n) m l = slice off (n + m) l.
Proof.
  intros H0 Hn Hm. unfold slice. rewrite !Z2Nat.inj_add by lia. rewrite <- drop_drop.
  symmetry.
  rewrite <- (take_drop (Z.to_nat n) (drop (Z.to_nat off) l)) at 1.
  destruct (decide (Z.to_nat n <= length (drop (Z.to_nat off) l))%nat) as [Hl|Hl].
  - rewrite take_app_ge by (rewrite length_take; lia). rewrite length_take, Nat.min_l by exact Hl.
    do 2 f_equal. lia.
  - rewrite (take_ge (drop (Z.to_nat off) l)) by lia. rewrite (drop_ge (drop (Z.to_nat off) l)) by lia.
    rewrite app_nil_r, take_nil, app_nil_r. rewrite take_ge by lia. reflexivity.
Qed.

Lemma transferred_range k wanted there : 0 < wanted <= there -> 1 <= transferred k wanted there <= wanted.
Proof. unfold transferred. lia. Qed.

Lemma read_full_run answers file : forall size offset buf,
  0 <= offset -> 0 <= size -> offset + size <= blen file -> serves (Z.to_nat size) answers ->
  read_full answers file size offset buf = Some (Ok (buf ++ slice offset size file)).
Proof.
  induction answers as [|a rest IH]; intros size offset buf H0 Hs Hf Hsv; cbn [read_full];
    (destruct (Z.leb_spec size 0); [replace size with 0 by lia; unfold slice; cbn [Z.to_nat take]; now rewrite app_nil_r|]).
  - destruct Hsv as [_ Hl]. cbn in Hl. lia.
  - destruct a as [k| |].
    + pose proof (transferred_range k size (blen file - offset) ltac:(lia)) as Hn.
      set (n := transferred k size (blen file - offset)) in *. rewrite (proj2 (Z.leb_gt n 0)) by lia.
      rewrite IH; [|lia|lia|lia|].
      * rewrite <- app_assoc, slice_app_slice by lia. do 4 f_equal. lia.
      * replace (Z.to_nat size) with (S (Z.to_nat size - 1)) in Hsv by lia.
        apply (serves_le _ _ _ (serves_moved _ _ _ Hsv)). lia.
    + apply IH; [lia|lia|lia|exact (serves_interrupted _ _ Hsv)].
    + destruct Hsv as [Hn _]. exfalso. apply Hn. now left.
Qed.

Lemma write_at_eq file bs offset : 0 <= offset <= blen file ->
  write_at file bs offset = take (Z.to_nat offset) file ++ bs ++ drop (Z.to_nat offset + length bs) file.
Proof.
  unfold write_at, splice, blen. intros H. rewrite take_app_le by lia. do 2 f_equal.
  destruct (decide (Z.to_nat offset + length bs <= length file)%nat) as [Hl|Hl].
  - replace (Z.to_nat (offset + Z.of_nat (length bs) - Z.of_nat (length file))) with 0%nat by lia.
    cbn [replicate]. now rewrite app_nil_r.
  - rewrite !drop_ge; [reflexivity|lia|]. rewrite length_app, length_replicate. lia.
Qed.

Lemma write_at_split file a b offset : 0 <= offset <= blen file ->
  write_at (write_at file a offset) b (offset + blen a) = write_at file (a ++ b) offset /\
  offset + blen a <= blen (write_at file a offset).
Proof.
  intros H. assert (Hl : offset + blen a <= blen (write_at file a offset)).
  { rewrite write_at_eq by exact H. unfold blen in *. rewrite !length_app, length_take. lia. }
  split; [|exact Hl]. rewrite (write_at_eq (write_at file a offset)) by (unfold blen in *; lia).
  rewrite !write_at_eq by exact H. unfold blen in *.
  assert (Ht : Z.to_nat (offset + Z.of_nat (length a)) = (length (take (Z.to_nat offset) file) + length a)%nat)
    by (rewrite length_take; lia).
  rewrite Ht, !app_assoc. rewrite <- length_app, take_app_length. rewrite <- !app_assoc. do 3 f_equal.
  rewrite app_assoc, <- drop_drop, drop_app_length, drop_drop. f_equal. rewrite length_app. lia.
Qed.

Lemma write_at_nil file offset : 0 <= offset <= blen file -> write_at file [] offset = file.
Proof. intros Ho. rewrite write_at_eq by exact Ho. cbn [length app]. now rewrite Nat.add_0_r, take_drop. Qed.

(** A pass over what is left. *)
Lemma pwrite_full_cons a rest file ptr offset : ptr <> [] ->
  pwrite_full (a :: rest) file ptr offset =
    match a with
    | IoError => Some (Err Fatal)
    | Interrupted => pwrite_full rest file ptr offset
    | Moved k => let n := transferred k (blen ptr) (blen ptr) in
        pwrite_full rest (write_at file (take (Z.to_nat n) ptr) offset) (drop (Z.to_nat n) ptr) (offset + n)
    end.
Proof. now destruct ptr, a. Qed.

Lemma pwrite_full_run answers : forall file ptr offset, 0 <= offset <= blen file -> serves (length ptr) answers ->
  pwrite_full answers file ptr offset = Some (Ok (write_at file ptr offset)).
Proof.
  induction answers as [|a rest IH]; intros file ptr offset Ho Hsv.
  - destruct ptr; [cbn; now rewrite write_at_nil|]. destruct Hsv as [_ Hl]. cbn in Hl. lia.
  - destruct (decide (ptr = [])) as [->|Hne]; [cbn; now rewrite write_at_nil|].
    assert (Hlen : 0 < blen ptr) by (unfold blen; destruct ptr; [easy|cbn; lia]).
    rewrite pwrite_full_cons by exact Hne. destruct a as [k| |].
    + cbv zeta. pose proof (transferred_range k (blen ptr) (blen ptr) ltac:(lia)) as Hn.
      set (n := transferred k (blen ptr) (blen ptr)) in *.
      assert (Hb : blen (take (Z.to_nat n) ptr) = n) by (unfold blen in *; rewrite length_take; lia).
      destruct (write_at_split file (take (Z.to_nat n) ptr) (drop (Z.to_nat n) ptr) offset Ho) as [Hw Hl].
      rewrite Hb, take_drop in *. rewrite IH; [now rewrite Hw|lia|].
      replace (length ptr) with (S (length ptr - 1)) in Hsv by (unfold blen in Hlen; lia).
      apply (serves_le _ _ _ (serves_moved _ _ _ Hsv)). rewrite length_drop. lia.
    + apply IH; [exact Ho|exact (serves_interrupted _ _ Hsv)].
    + destruct Hsv as [Hno _]. exfalso. apply Hno. now left.
Qed.

(** However the kernel interrupts and splits the transfers, the loops end, with all bytes
    written where they belong and nothing else changed, and reading them back gives what was
    written; one answered call per byte is always enough. *)
Theorem file_io_complete (wanswers ranswers : list io_answer) (file ptr : bytes) (offset : Z) :
  0 <= offset <= blen file -> serves (length ptr) wanswers -> serves (length ptr) ranswers ->
  exists file', pwrite_full wanswers file ptr offset = Some (Ok file') /\
    read_full ranswers file' (blen ptr) offset [] = Some (Ok ptr) /\
    slice 0 offset file' = slice 0 offset file /\
    forall o n, offset + blen ptr <= o -> 0 <= n -> slice o n file' = slice o n file.
Proof.
  intros Ho Hw Hr. exists (write_at file ptr offset). split; [now apply pwrite_full_run|].
  rewrite write_at_eq by exact Ho. unfold blen in *.
  assert (Hlt : length (take (Z.to_nat offset) file) = Z.to_nat offset) by (rewrite length_take; lia).
  split_and!.
  - rewrite read_full_run; [|lia|lia|unfold blen; rewrite !length_app; lia|now rewrite Nat2Z.id].
    cbn [app]. do 2 f_equal. unfold slice. rewrite drop_app_ge by lia. rewrite Hlt, Nat.sub_diag, Nat2Z.id.
    cbn [drop]. apply take_app_length.
  - unfold slice. change (Z.to_nat 0) with 0%nat. rewrite !drop_0, take_app_le by lia. now rewrite take_take, Nat.min_id.
  - intros o n Hoo Hn. unfold slice. rewrite drop_app_ge by lia. rewrite drop_app_ge by lia. rewrite drop_drop. do 2 f_equal. lia.
Qed.
Lemma file_io_complete_witness :
  exists file', pwrite_full [Interrupted; Moved 2; Moved 5; Moved 1] [7; 7; 7; 7; 7] [1; 2; 3] 1 = Some (Ok file') /\
    read_full [Moved 1; Interrupted; Moved 1; Moved 1] file' 3 1 [] = Some (Ok [1; 2; 3]) /\
    slice 0 1 file' = [7] /\ forall o n, 4 <= o -> 0 <= n -> slice o n file' = slice o n [7; 7; 7; 7; 7].
Proof.
  apply (file_io_complete [Interrupted; Moved 2; Moved 5; Moved 1] [Moved 1; Interrupted; Moved 1; Moved 1] [7; 7; 7; 7; 7] [1; 2; 3] 1).
  - split; [lia|vm_compute; congruence].
  - split; [intros H; repeat destruct H as [H|H]; try discriminate; exact H|cbn; lia].
  - split; [intros H; repeat destruct H as [H|H]; try discriminate; exact H|cbn; lia].
Defined.

(** A header that is read in part is refused. *)
Example short_header_is_fatal : load_header (Moved 16) (replicate 8 1) (replicate 16 0) = Err Fatal.
Proof. reflexivity. Qed.
