(* ===== verification/Request.v ===== *)
(** The request objects of src/integrity_zone/include/request.hpp: how each writes itself into
    the request region, how it reads its result back, and how much room it takes in a batch. *)
From S2P Require Import Prelude Rid LocalStore KV Crypto Handler Layout.

(** What a result pointer points to. [cur_len] is the [len] member a string target holds
    before the call, which [TYPESIZE] reads; [None] is the null pointer. *)
Record cell : Type := mkCell {
  addr : nat;
  cur_len : Z;
}.
Abbreviation ptr := (option cell).

Inductive result : Type :=
| RRid (rid : RID)
| RInt (n : Z)
| RBytes (b : bytes).

(** One constructor per class; a template parameter that is one of the four value types is the
    first argument, and the object a source pointer designates is given by its bytes (of a
    [Str] or [EncStr] the [len] bytes in use). *)
Inductive Request : Type :=
| CmpRequest (reqType : Z) (left right : RID) (cmp : ptr)
| CalcRequest (reqType : Z) (left right : RID) (res : ptr)
| BulkRequest (bulkType bulkSize : Z) (keys : list RID) (res : ptr)
| EncRequest (t : vtype) (reqType : Z) (plaintext : bytes) (res : ptr)
| DecRequest (t : vtype) (reqType : Z) (ciphertext : bytes) (res : ptr)
| PutEncIntoKVRequest (t : vtype) (reqType : Z) (enc : bytes) (res : ptr)
| GetEncFromKVRequest (t : vtype) (reqType : Z) (dec : RID) (res : ptr)
| PromoteRequest (reqType : Z) (local target partition : RID) (global : ptr)
| PutPlainIntoKVRequest (t : vtype) (reqType : Z) (value : bytes) (key : ptr)
| GetPlainFromKVRequest (t : vtype) (reqType : Z) (key : RID) (value : ptr)
| KVBatchRequest (reqType nreqs : Z) (reqs : list Request) (reqs_size : Z)
| TimestampExtractYearRequest (input : RID) (res : ptr)
| SubstringRequest (str start length : RID) (res : ptr)
| SingleArgRequest (reqType : Z).

(** [COPY] into the region: a [Str] or [EncStr] is its length and that many bytes, another
    object is assigned. *)
Definition copy_plain_to (t : vtype) (off : Z) (bs : bytes) : M bytes unit :=
  match t with
  | TText => do* store32 off (blen bs) in storeM (off + offsetof Str_struct 1) bs
  | _ => storeM off bs
  end.
Definition copy_enc_to (t : vtype) (off : Z) (bs : bytes) : M bytes unit :=
  match t with
  | TText => do* store32 off (blen bs) in storeM (off + offsetof EncStr_struct 1) bs
  | _ => storeM off bs
  end.
(** [COPY] out of the region; the target has room for the largest string. *)
Definition copy_plain_from (t : vtype) (off : Z) : M bytes bytes :=
  match t with
  | TText => let* len := load32 off in
             do* definedM (len <=? STRING_LENGTH) in
             loadM (off + offsetof Str_struct 1) len
  | _ => loadM off (c_size (plain_ctype t))
  end.
Definition copy_enc_from (t : vtype) (off : Z) : M bytes bytes :=
  match t with
  | TText => let* len := load32 off in
             do* definedM (len <=? sizeof (EncType STRING_LENGTH)) in
             loadM (off + offsetof EncStr_struct 1) len
  | _ => loadM off (c_size (enc_ctype t))
  end.

(** [TYPESIZE] of an object whose [len] member is [len]. *)
Definition plain_typesize (t : vtype) (len : Z) : Z :=
  match t with
  | TText => 4 + len
  | _ => c_size (plain_ctype t)
  end.
Definition enc_typesize (t : vtype) (len : Z) : Z :=
  match t with
  | TText => 4 + len
  | _ => c_size (enc_ctype t)
  end.
Definition res_len (p : ptr) : Z :=
  match p with
  | Some c => cur_len c
  | None => 0
  end.

(** The [FakeData] of the plain requests: the value type in place of the flexible array. A
    text is a [char[STRING_LENGTH]]. *)
Definition value_ctype (t : vtype) : ctype :=
  match t with
  | TText => c_array c_uint8 STRING_LENGTH
  | _ => plain_ctype t
  end.
Definition KVFakeData (t : vtype) : list ctype := [c_base; c_uint64; c_uint64; value_ctype t].

(** [getSize] of each class; those without a variable part give the size of the largest
    structure. *)
Definition Enc_getSize (t : vtype) (plaintext : bytes) (res : ptr) : Z :=
  c_size c_base + plain_typesize t (blen plaintext) + enc_typesize t (res_len res).
Definition Dec_getSize (t : vtype) (ciphertext : bytes) (res : ptr) : Z :=
  c_size c_base + enc_typesize t (blen ciphertext) + plain_typesize t (res_len res).
Definition PutEnc_getSize (t : vtype) (enc : bytes) : Z := c_size c_base + enc_typesize t (blen enc) + 8.
Definition GetEnc_getSize (t : vtype) (res : ptr) : Z := c_size c_base + enc_typesize t (res_len res) + 8.
Definition Promote_getSize : Z := sizeof [c_base; c_uint64; c_uint64; c_uint64; c_uint64].
Definition PutPlain_getSize (t : vtype) : Z := sizeof (KVFakeData t).
Definition GetPlain_getSize (t : vtype) : Z := sizeof (KVFakeData t).
(** The specialisations for arrays, which texts use. *)
Definition PutPlainArray_getSize : Z := sizeof [c_base; c_uint64; c_uint64; c_array c_uint8 STRING_LENGTH].
Definition GetPlainArray_getSize : Z := sizeof [c_base; c_uint64; c_uint64; c_array c_uint8 STRING_LENGTH].
Definition KVBatch_getSize (reqs_size : Z) : Z := s32 (sizeof BatchRequestData + reqs_size).

Definition getSize (r : Request) : Z :=
  match r with
  | EncRequest t _ plaintext res => Enc_getSize t plaintext res
  | DecRequest t _ ciphertext res => Dec_getSize t ciphertext res
  | PutEncIntoKVRequest t _ enc _ => PutEnc_getSize t enc
  | GetEncFromKVRequest t _ _ res => GetEnc_getSize t res
  | PromoteRequest _ _ _ _ _ => Promote_getSize
  | PutPlainIntoKVRequest TText _ _ _ => PutPlainArray_getSize
  | GetPlainFromKVRequest TText _ _ _ => GetPlainArray_getSize
  | PutPlainIntoKVRequest t _ _ _ => PutPlain_getSize t
  | GetPlainFromKVRequest t _ _ _ => GetPlain_getSize t
  | KVBatchRequest _ _ _ reqs_size => KVBatch_getSize reqs_size
  | _ => sizeof BulkRequestData
  end.

(** The three methods of each class. [serializeTo] of a batch is the only one that changes
    its object. *)

Definition Cmp_serializeTo (base reqType : Z) (i1 i2 : RID) : M bytes unit :=
  do* store32 (base + BASE_reqType) reqType in
  do* store64 (base + offsetof CmpRequestData 1) i1 in
  store64 (base + offsetof CmpRequestData 2) i2.
Definition Calc_serializeTo (base reqType : Z) (i1 i2 : RID) : M bytes unit :=
  do* store32 (base + BASE_reqType) reqType in
  do* store64 (base + offsetof CalcRequestData 1) i1 in
  store64 (base + offsetof CalcRequestData 2) i2.
Definition Bulk_serializeTo (base bulkType bulkSize : Z) (keys : list RID) : M bytes unit :=
  do* store32 (base + BASE_reqType) bulkType in
  do* store32 (base + offsetof BulkRequestData 1) bulkSize in
  do* definedM ((0 <=? bulkSize) && (bulkSize <=? Z.of_nat (length keys))) in
  storeM (base + offsetof BulkRequestData 2)
    (flat_map (fun k => le_bytes 8 (u64 k)) (take (Z.to_nat bulkSize) keys)).
Definition Enc_serializeTo (t : vtype) (base reqType : Z) (plaintext : bytes) : M bytes unit :=
  do* store32 (base + BASE_reqType) reqType in
  copy_plain_to t (base + offsetof (EncRequestData t) 1) plaintext.
Definition Dec_serializeTo (t : vtype) (base reqType : Z) (ciphertext : bytes) : M bytes unit :=
  do* store32 (base + BASE_reqType) reqType in
  copy_enc_to t (base + offsetof (DecRequestData t) 1) ciphertext.
Definition PutEnc_serializeTo (t : vtype) (base reqType : Z) (enc : bytes) : M bytes unit :=
  do* store32 (base + BASE_reqType) reqType in
  copy_enc_to t (base + offsetof (PutEncIntoKVRequestData t) 2) enc.
Definition GetEnc_serializeTo (t : vtype) (base reqType : Z) (dec : RID) : M bytes unit :=
  do* store32 (base + BASE_reqType) reqType in
  store64 (base + offsetof (GetEncFromKVRequestData t) 2) dec.
Definition Promote_serializeTo (base reqType : Z) (local target partition : RID) : M bytes unit :=
  do* store32 (base + BASE_reqType) reqType in
  do* store64 (base + offsetof PromoteRequestData 1) local in
  do* store64 (base + offsetof PromoteRequestData 2) target in
  store64 (base + offsetof PromoteRequestData 3) partition.
(** [size] is the class's [getSize]. *)
Definition PutPlain_serializeTo (base reqType size : Z) (value : bytes) : M bytes unit :=
  do* store32 (base + BASE_reqType) reqType in
  do* store64 (base + offsetof KVRequestData 1) size in
  storeM (base + offsetof KVRequestData 3) value.
Definition GetPlain_serializeTo (base reqType size : Z) (key : RID) : M bytes unit :=
  do* store32 (base + BASE_reqType) reqType in
  do* store64 (base + offsetof KVRequestData 2) key in
  store64 (base + offsetof KVRequestData 1) size.
(** An array copies [sizeof(T[N])] bytes. *)
Definition PutPlainArray_serializeTo (base reqType size : Z) (value : bytes) : M bytes unit :=
  do* store32 (base + BASE_reqType) reqType in
  do* store64 (base + offsetof KVRequestData 1) size in
  storeM (base + offsetof KVRequestData 3) value.
Definition GetPlainArray_serializeTo (base reqType size : Z) (key : RID) : M bytes unit :=
  do* store32 (base + BASE_reqType) reqType in
  do* store64 (base + offsetof KVRequestData 2) key in
  store64 (base + offsetof KVRequestData 1) size.
Definition TimestampExtractYear_serializeTo (base : Z) (input : RID) : M bytes unit :=
  do* store32 (base + BASE_reqType) CMD_TIMESTAMP_EXTRACT_YEAR in
  store64 (base + offsetof TimestampExtractYearRequestData 1) input.
Definition Substring_serializeTo (base : Z) (str start length : RID) : M bytes unit :=
  do* store32 (base + BASE_reqType) CMD_TEXT_SUBSTRING in
  do* store64 (base + offsetof SubstringRequestData 1) str in
  do* store64 (base + offsetof SubstringRequestData 2) start in
  store64 (base + offsetof SubstringRequestData 3) length.
Definition SingleArg_serializeTo (base reqType : Z) : M bytes unit :=
  store32 (base + BASE_reqType) reqType.

Section Batch.
Context (serialize : Z -> Request -> M bytes Request).

(** The elements of a batch one behind the other, with the bytes they take. *)
Fixpoint serialize_batch (l : list Request) (n : nat) (buf_p size : Z) {struct l} : M bytes (list Request * Z) :=
  match n, l with
  | O, _ => retM (l, size)
  | S _, [] => failM Undefined
  | S n', x :: l' =>
      let* x' := serialize buf_p x in
      let req_sz := getSize x' in
      do* checkM (0 <? req_sz) in
      let* '(l'', size') := serialize_batch l' n' (buf_p + req_sz) (u64 (size + req_sz)) in
      retM (x' :: l'', size')
  end.
Definition KVBatch_serializeTo (base reqType nreqs : Z) (reqs : list Request) (reqs_size : Z) : M bytes Request :=
  do* store32 (base + BASE_reqType) reqType in
  do* store32 (base + offsetof BatchRequestData 2) nreqs in
  let* '(reqs', size') := serialize_batch reqs (Z.to_nat nreqs) (base + offsetof BatchRequestData 3) reqs_size in
  let r' := KVBatchRequest reqType nreqs reqs' size' in
  do* store64 (base + offsetof BatchRequestData 1) (getSize r') in retM r'.
End Batch.

(** [Request::serializeTo]. *)
Fixpoint serializeTo (base : Z) (r : Request) {struct r} : M bytes Request :=
  match r with
  | CmpRequest reqType i1 i2 _ => do* Cmp_serializeTo base reqType i1 i2 in retM r
  | CalcRequest reqType i1 i2 _ => do* Calc_serializeTo base reqType i1 i2 in retM r
  | BulkRequest bulkType bulkSize keys _ => do* Bulk_serializeTo base bulkType bulkSize keys in retM r
  | EncRequest t reqType plaintext _ => do* Enc_serializeTo t base reqType plaintext in retM r
  | DecRequest t reqType ciphertext _ => do* Dec_serializeTo t base reqType ciphertext in retM r
  | PutEncIntoKVRequest t reqType enc _ => do* PutEnc_serializeTo t base reqType enc in retM r
  | GetEncFromKVRequest t reqType dec _ => do* GetEnc_serializeTo t base reqType dec in retM r
  | PromoteRequest reqType local target partition _ =>
      do* Promote_serializeTo base reqType local target partition in retM r
  | PutPlainIntoKVRequest TText reqType value _ => do* PutPlainArray_serializeTo base reqType (getSize r) value in retM r
  | GetPlainFromKVRequest TText reqType key _ => do* GetPlainArray_serializeTo base reqType (getSize r) key in retM r
  | PutPlainIntoKVRequest t reqType value _ => do* PutPlain_serializeTo base reqType (getSize r) value in retM r
  | GetPlainFromKVRequest t reqType key _ => do* GetPlain_serializeTo base reqType (getSize r) key in retM r
  | KVBatchRequest reqType nreqs reqs reqs_size =>
      KVBatch_serializeTo (fun b x => serializeTo b x) base reqType nreqs reqs reqs_size
  | TimestampExtractYearRequest input _ => do* TimestampExtractYear_serializeTo base input in retM r
  | SubstringRequest str start length _ => do* Substring_serializeTo base str start length in retM r
  | SingleArgRequest reqType => do* SingleArg_serializeTo base reqType in retM r
  end.

(** The assignments a request makes through its result pointers, in order. A null pointer is
    a failed check in some classes and undefined in the others. *)
Definition assign (p : ptr) (v : result) : M bytes (list (nat * result)) :=
  match p with
  | Some c => retM [(addr c, v)]
  | None => failM Fatal
  end.
Definition assign_unchecked (p : ptr) (v : result) : M bytes (list (nat * result)) :=
  match p with
  | Some c => retM [(addr c, v)]
  | None => failM Undefined
  end.

Definition Cmp_copyResultFrom (base : Z) (cmp : ptr) : M bytes (list (nat * result)) :=
  let* v := load_int (base + offsetof CmpRequestData 3) in assign cmp (RInt v).
Definition Calc_copyResultFrom (base : Z) (res : ptr) : M bytes (list (nat * result)) :=
  let* v := load64 (base + offsetof CalcRequestData 3) in assign res (RRid v).
Definition Bulk_copyResultFrom (base : Z) (res : ptr) : M bytes (list (nat * result)) :=
  let* v := load64 (base + offsetof BulkRequestData 3) in assign res (RRid v).
Definition Enc_copyResultFrom (t : vtype) (base : Z) (res : ptr) : M bytes (list (nat * result)) :=
  let* v := copy_enc_from t (base + offsetof (EncRequestData t) 2) in assign_unchecked res (RBytes v).
Definition Dec_copyResultFrom (t : vtype) (base : Z) (res : ptr) : M bytes (list (nat * result)) :=
  let* v := copy_plain_from t (base + offsetof (DecRequestData t) 2) in assign_unchecked res (RBytes v).
Definition PutEnc_copyResultFrom (t : vtype) (base : Z) (res : ptr) : M bytes (list (nat * result)) :=
  let* v := load64 (base + offsetof (PutEncIntoKVRequestData t) 1) in assign_unchecked res (RRid v).
Definition GetEnc_copyResultFrom (t : vtype) (base : Z) (res : ptr) : M bytes (list (nat * result)) :=
  let* v := copy_enc_from t (base + offsetof (GetEncFromKVRequestData t) 1) in assign_unchecked res (RBytes v).
Definition Promote_copyResultFrom (base : Z) (global : ptr) : M bytes (list (nat * result)) :=
  let* v := load64 (base + offsetof PromoteRequestData 4) in assign global (RRid v).
Definition PutPlain_copyResultFrom (base : Z) (key : ptr) : M bytes (list (nat * result)) :=
  let* v := load64 (base + offsetof KVRequestData 2) in assign key (RRid v).
Definition GetPlain_copyResultFrom (t : vtype) (base : Z) (value : ptr) : M bytes (list (nat * result)) :=
  let* v := loadM (base + offsetof KVRequestData 3) (c_size (value_ctype t)) in assign value (RBytes v).
Definition PutPlainArray_copyResultFrom (base : Z) (key : ptr) : M bytes (list (nat * result)) :=
  let* v := load64 (base + offsetof KVRequestData 2) in assign key (RRid v).
Definition GetPlainArray_copyResultFrom (base : Z) (value : ptr) : M bytes (list (nat * result)) :=
  let* v := loadM (base + offsetof KVRequestData 3) STRING_LENGTH in assign value (RBytes v).
Definition TimestampExtractYear_copyResultFrom (base : Z) (res : ptr) : M bytes (list (nat * result)) :=
  let* v := load64 (base + offsetof TimestampExtractYearRequestData 2) in assign res (RRid v).
Definition Substring_copyResultFrom (base : Z) (res : ptr) : M bytes (list (nat * result)) :=
  let* v := load64 (base + offsetof SubstringRequestData 4) in assign res (RRid v).

Section BatchResults.
Context (copy : Z -> Request -> M bytes (list (nat * result))).

Fixpoint copy_batch (l : list Request) (k : nat) (buf_p : Z) {struct l} : M bytes (list (nat * result)) :=
  match k, l with
  | O, _ => retM []
  | S _, [] => failM Undefined
  | S k', x :: l' =>
      let* vs := copy buf_p x in
      let* ws := copy_batch l' k' (buf_p + getSize x) in
      retM (vs ++ ws)
  end.
Definition KVBatch_copyResultFrom (base reqType nreqs : Z) (reqs : list Request) (size_now : Z) :
    M bytes (list (nat * result)) :=
  let* rt := load_int (base + BASE_reqType) in
  do* checkM (rt =? reqType) in
  let* n := load_int (base + offsetof BatchRequestData 2) in
  do* checkM (n =? nreqs) in
  let* size := load64 (base + offsetof BatchRequestData 1) in
  do* checkM (size =? u64 size_now) in
  copy_batch reqs (Z.to_nat n) (base + offsetof BatchRequestData 3).
End BatchResults.

(** [Request::copyResultFrom]. *)
Fixpoint copyResultFrom (base : Z) (r : Request) {struct r} : M bytes (list (nat * result)) :=
  match r with
  | CmpRequest _ _ _ cmp => Cmp_copyResultFrom base cmp
  | CalcRequest _ _ _ res => Calc_copyResultFrom base res
  | BulkRequest _ _ _ res => Bulk_copyResultFrom base res
  | EncRequest t _ _ res => Enc_copyResultFrom t base res
  | DecRequest t _ _ res => Dec_copyResultFrom t base res
  | PutEncIntoKVRequest t _ _ res => PutEnc_copyResultFrom t base res
  | GetEncFromKVRequest t _ _ res => GetEnc_copyResultFrom t base res
  | PromoteRequest _ _ _ _ global => Promote_copyResultFrom base global
  | PutPlainIntoKVRequest TText _ _ key => PutPlainArray_copyResultFrom base key
  | GetPlainFromKVRequest TText _ _ value => GetPlainArray_copyResultFrom base value
  | PutPlainIntoKVRequest _ _ _ key => PutPlain_copyResultFrom base key
  | GetPlainFromKVRequest t _ _ value => GetPlain_copyResultFrom t base value
  | KVBatchRequest reqType nreqs reqs _ =>
      KVBatch_copyResultFrom (fun b x => copyResultFrom b x) base reqType nreqs reqs (getSize r)
  | TimestampExtractYearRequest _ res => TimestampExtractYear_copyResultFrom base res
  | SubstringRequest _ _ _ res => Substring_copyResultFrom base res
  | SingleArgRequest _ => retM []
  end.

(** ** The handler's view of the region *)

(** The structure the switch of [handle_ops] reads for a command. *)
Inductive shape : Type :=
| SCalc
| SCmp
| SBulk
| SYear
| SSubstring
| SPutEnc (t : vtype)
| SGetEnc (t : vtype)
| SPut (t : vtype)
| SGet (t : vtype)
| SBatch
| SEnc (t : vtype)
| SDec (t : vtype)
| SPromote
| SWalAppend
| SWalMaterialize
| SWalReplay
| SSingle
| SNone.

Definition is_calc (rt : Z) : bool :=
  (CMD_INT_PLUS <=? rt) && (rt <=? CMD_INT_POW) || (CMD_FLOAT_PLUS <=? rt) && (rt <=? CMD_FLOAT_POW) ||
  (rt =? CMD_TEXT_CONCAT).
Definition is_cmp (rt : Z) : bool :=
  (rt =? CMD_INT_CMP) || (rt =? CMD_FLOAT_CMP) || (rt =? CMD_TIMESTAMP_CMP) || (rt =? CMD_TEXT_LIKE) ||
  (rt =? CMD_TEXT_CMP).
Definition is_single (rt : Z) : bool :=
  (rt =? CMD_LOCAL_CLEAR) || (rt =? CMD_FLUSH) || (rt =? CMD_TRUNCATE) || (rt =? CMD_REPLAY) || (rt =? CMD_CKPT).

Definition command_shape (rt : Z) : shape :=
  if is_calc rt then SCalc
  else if is_cmp rt then SCmp
  else if (rt =? CMD_INT_SUM_BULK) || (rt =? CMD_FLOAT_SUM_BULK) then SBulk
  else if rt =? CMD_TIMESTAMP_EXTRACT_YEAR then SYear
  else if rt =? CMD_TEXT_SUBSTRING then SSubstring
  else match put_enc_type rt, get_enc_type rt, put_type rt, get_type rt, enc_type rt, dec_type rt, promote_type rt with
  | Some t, _, _, _, _, _, _ => SPutEnc t
  | _, Some t, _, _, _, _, _ => SGetEnc t
  | _, _, Some t, _, _, _, _ => SPut t
  | _, _, _, Some t, _, _, _ => SGet t
  | _, _, _, _, Some t, _, _ => SEnc t
  | _, _, _, _, _, Some t, _ => SDec t
  | _, _, _, _, _, _, Some _ => SPromote
  | _, _, _, _, _, _, _ =>
      if (rt =? CMD_BATCH_GET) || (rt =? CMD_BATCH_PUT) then SBatch
      else if rt =? CMD_WAL_APPEND_BATCH then SWalAppend
      else if rt =? CMD_WAL_MATERIALIZE_BATCH then SWalMaterialize
      else if rt =? CMD_WAL_REPLAY_PAYLOAD then SWalReplay
      else if is_single rt then SSingle
      else SNone
  end.
