(* ===== verification/Region.v ===== *)
(** Requests as bytes: [handle_ops] of src/privacy_zone/handler.cpp and [handle_request] of
    src/privacy_zone/server.cpp on the contents of a request region, and
    [TEEInvoker::sendRequest] of src/integrity_zone/client.cpp around them. [Handler] is the
    same handler on typed requests; the theorem of this file is that a request object sent
    through the bytes of the region is answered as its typed form. *)
From Stdlib Require Import SpecFloat.
From S2P Require Import Prelude Rid Shm LocalStore KV Crypto Wal Handler Layout Request.

(** The worker that polls a region, and the region. *)
Record machine : Type := mkMachine {
  mc_worker : worker;
  mc_region : bytes;
}.
Definition on_worker {A : Type} (c : M worker A) : M machine A :=
  zoomM mc_worker (fun w s => mkMachine w (mc_region s)) c.
Definition on_region {A : Type} (c : M bytes A) : M machine A :=
  zoomM mc_region (fun m s => mkMachine (mc_worker s) m) c.

(** ** Reading and writing the structures *)

(** [n] RIDs at the start of a byte string. *)
Fixpoint rids_of (n : nat) (b : bytes) : list RID :=
  match n with
  | O => []
  | S n' => le_val (take 8 b) :: rids_of n' (drop 8 b)
  end.

Fixpoint load_items (n : nat) (off : Z) : M bytes (list WalRidItem) :=
  match n with
  | O => retM []
  | S n' =>
      let* ty := load_int (off + offsetof WalRidItem_struct 0) in
      let* rid := load64 (off + offsetof WalRidItem_struct 1) in
      let* rest := load_items n' (off + sizeof WalRidItem_struct) in
      retM (mkItem ty rid :: rest)
  end.

(** A C string at [off]. *)
Definition load_cstring (off : Z) : M bytes bytes :=
  let* m := getM in
  let rest := drop (Z.to_nat off) m in
  do* definedM ((0 <=? off) && existsb (Z.eqb 0) rest) in retM (until_zero rest).

(** The parameters of the structure at [base]; result members are not read. *)
Definition load_struct (sh : shape) (base : Z) : M bytes req_data :=
  match sh with
  | SCalc =>
      let* i1 := load64 (base + offsetof CalcRequestData 1) in
      let* i2 := load64 (base + offsetof CalcRequestData 2) in retM (CalcData i1 i2 0)
  | SCmp =>
      let* i1 := load64 (base + offsetof CmpRequestData 1) in
      let* i2 := load64 (base + offsetof CmpRequestData 2) in retM (CmpData i1 i2 0)
  | SBulk =>
      let* n := load_int (base + offsetof BulkRequestData 1) in
      let* b := loadM (base + offsetof BulkRequestData 2)
                  (if (0 <=? n) && (n <=? BULK_SIZE) then 8 * n else 0) in
      retM (BulkData n (rids_of (length b / 8) b) 0)
  | SYear =>
      let* i := load64 (base + offsetof TimestampExtractYearRequestData 1) in
      retM (TimestampExtractYearData i 0)
  | SSubstring =>
      let* str := load64 (base + offsetof SubstringRequestData 1) in
      let* start := load64 (base + offsetof SubstringRequestData 2) in
      let* len := load64 (base + offsetof SubstringRequestData 3) in
      retM (SubstringData str start len 0)
  | SPutEnc TText =>
      let enc := base + offsetof (PutEncIntoKVRequestData TText) 2 in
      let* len := load32 enc in
      do* checkM (IV_SIZE + TAG_SIZE <=? len) in
      let* b := loadM (enc + offsetof EncStr_struct 1) len in retM (PutEncData 0 b)
  | SPutEnc t =>
      let* b := loadM (base + offsetof (PutEncIntoKVRequestData t) 2) (c_size (enc_ctype t)) in
      retM (PutEncData 0 b)
  | SGetEnc t =>
      let* key := load64 (base + offsetof (GetEncFromKVRequestData t) 2) in retM (GetEncData [] key)
  | SPut TText =>
      let* size := load64 (base + offsetof KVRequestData 1) in
      let* v := load_cstring (base + offsetof KVRequestData 3) in retM (KVData size 0 v)
  | SPut t =>
      let* size := load64 (base + offsetof KVRequestData 1) in
      let* v := loadM (base + offsetof KVRequestData 3) (plain_size t) in retM (KVData size 0 v)
  | SGet _ =>
      let* size := load64 (base + offsetof KVRequestData 1) in
      let* key := load64 (base + offsetof KVRequestData 2) in retM (KVData size key [])
  | SEnc TText =>
      let str := base + offsetof (EncRequestData TText) 1 in
      let* len := load32 str in
      do* checkM (len <? STRING_LENGTH) in
      let* b := loadM (str + offsetof Str_struct 1) len in retM (EncData b [])
  | SEnc t =>
      let* b := loadM (base + offsetof (EncRequestData t) 1) (c_size (plain_ctype t)) in retM (EncData b [])
  | SDec TText =>
      let enc := base + offsetof (DecRequestData TText) 1 in
      let* len := load32 enc in
      do* checkM ((IV_SIZE + TAG_SIZE <=? len) && (len <? STRING_LENGTH + IV_SIZE + TAG_SIZE)) in
      let* b := loadM (enc + offsetof EncStr_struct 1) len in retM (DecData b [])
  | SDec t =>
      let* b := loadM (base + offsetof (DecRequestData t) 1) (c_size (enc_ctype t)) in retM (DecData b [])
  | SPromote =>
      let* local := load64 (base + offsetof PromoteRequestData 1) in
      let* target := load64 (base + offsetof PromoteRequestData 2) in
      let* partition := load64 (base + offsetof PromoteRequestData 3) in
      retM (PromoteData local target partition 0)
  | SWalAppend =>
      let* n := load_int (base + offsetof WalAppendBatchRequestData 1) in
      do* checkM ((0 <=? n) && (n <=? WAL_RID_BATCH_SIZE)) in
      let* items := load_items (Z.to_nat n) (base + offsetof WalAppendBatchRequestData 2) in
      retM (WalAppendBatchData n items)
  | SWalMaterialize =>
      let* n := load_int (base + offsetof WalMaterializeBatchRequestData 1) in
      do* checkM ((0 <=? n) && (n <=? WAL_MATERIALIZE_RID_BATCH_SIZE)) in
      let* items := load_items (Z.to_nat n) (base + offsetof WalMaterializeBatchRequestData 3) in
      retM (WalMaterializeData n items [])
  | SWalReplay =>
      let* len := load64 (base + offsetof WalReplayPayloadRequestData 1) in
      do* checkM (len <=? replay_capacity) in
      let* b := loadM (base + offsetof WalReplayPayloadRequestData 2) len in retM (WalReplayData b)
  | SSingle => retM SingleArgData
  | SBatch | SNone => failM Undefined
  end.

(** The result members of the structure. *)
Definition store_result (sh : shape) (base : Z) (d : req_data) : M bytes unit :=
  match sh, d with
  | SCalc, CalcData _ _ x => store64 (base + offsetof CalcRequestData 3) x
  | SCmp, CmpData _ _ x => store32 (base + offsetof CmpRequestData 3) x
  | SBulk, BulkData _ _ x => store64 (base + offsetof BulkRequestData 3) x
  | SYear, TimestampExtractYearData _ x => store64 (base + offsetof TimestampExtractYearRequestData 2) x
  | SSubstring, SubstringData _ _ _ x => store64 (base + offsetof SubstringRequestData 4) x
  | SPutEnc t, PutEncData x _ => store64 (base + offsetof (PutEncIntoKVRequestData t) 1) x
  | SGetEnc t, GetEncData c _ => copy_enc_to t (base + offsetof (GetEncFromKVRequestData t) 1) c
  | SPut _, KVData _ key _ => store64 (base + offsetof KVRequestData 2) key
  | SGet _, KVData _ _ v => storeM (base + offsetof KVRequestData 3) v
  | SEnc t, EncData _ c => copy_enc_to t (base + offsetof (EncRequestData t) 2) c
  | SDec TText, DecData _ p =>
      let str := base + offsetof (DecRequestData TText) 2 in
      do* copy_plain_to TText str p in
      storeM (str + offsetof Str_struct 1 + blen p) [0]
  | SDec t, DecData _ p => copy_plain_to t (base + offsetof (DecRequestData t) 2) p
  | SPromote, PromoteData _ _ _ x => store64 (base + offsetof PromoteRequestData 4) x
  | SWalMaterialize, WalMaterializeData _ _ p =>
      do* storeM (base + offsetof WalMaterializeBatchRequestData 4) p in
      store64 (base + offsetof WalMaterializeBatchRequestData 2) (blen p)
  | _, _ => retM tt
  end.

Section Bytes.
Context (crypt_and_tag : bytes -> bytes -> bytes -> Z * (bytes * bytes)).
Context (auth_decrypt : bytes -> bytes -> bytes -> bytes -> Z * bytes).
Context (pow : spec_float -> spec_float -> spec_float).
Context (powf fmodf : Z -> Z -> Z).

Abbreviation handle_one := (Handler.handle_one crypt_and_tag auth_decrypt pow powf fmodf).
Abbreviation handle_data := (Handler.handle_data crypt_and_tag auth_decrypt pow powf fmodf).

(** [handle_ops] on the structure at [base]. A batch calls it on each of its elements, which
    lie one behind the other at distances given by their own [size] members; [depth] bounds
    the recursion. *)
Fixpoint handle_ops_at (depth : nat) (base : Z) : M machine unit :=
  let* rt := on_region (load_int (base + BASE_reqType)) in
  do* match command_shape rt with
      | SBatch =>
          match depth with
          | O => failM Undefined
          | S depth' =>
              let* nreqs := on_region (load_int (base + offsetof BatchRequestData 2)) in
              (fix loop (n : nat) (buf_p : Z) : M machine unit :=
                 match n with
                 | O => retM tt
                 | S n' =>
                     let* size := on_region (load64 (buf_p + offsetof KVRequestData 1)) in
                     do* checkM (negb (size =? 0)) in
                     do* handle_ops_at depth' buf_p in
                     let* size := on_region (load64 (buf_p + offsetof KVRequestData 1)) in
                     loop n' (buf_p + size)
                 end) (Z.to_nat nreqs) (base + offsetof BatchRequestData 3)
          end
      | SNone => retM tt
      | sh =>
          let* d := on_region (load_struct sh base) in
          let* d' := on_worker (handle_one rt d) in
          on_region (store_result sh base d')
      end in
  on_region (store32 (base + BASE_resp) 0).

(** [handle_request]. *)
Definition handle_request (depth : nat) : M machine unit :=
  let* rt := on_region (load_int BASE_reqType) in
  do* (if 0 <? rt then
         do* handle_ops_at depth 0 in
         let* resp := on_region (load_int BASE_resp) in checkM (resp =? 0)
       else retM tt) in
  on_region (store32 BASE_status ST_DONE).

(** A process goes on when the status is [st]; otherwise it polls for ever, and the model has no
    result. *)
Definition await (st : Z) : M machine unit :=
  let* x := on_region (load_int BASE_status) in definedM (x =? st).

(** [sendRequest]: the worker that polls the region sees [SENT], and the backend waits until it
    sees [DONE]. *)
Definition sendRequest (depth : nat) (req : Request) : M machine (Z * list (nat * result)) :=
  let* req := on_region (serializeTo 0 req) in
  do* on_region (store32 BASE_status ST_SENT) in
  do* await ST_SENT in
  do* handle_request depth in
  do* await ST_DONE in
  let* vs := on_region (copyResultFrom 0 req) in
  let* resp := on_region (load_int BASE_resp) in
  do* on_region (store32 BASE_status ST_NONE) in
  retM (resp, vs).
End Bytes.

(** ** What a request writes and what it reads *)

Definition w32 (v : Z) : bytes := le_bytes 4 (u32 v).
Definition w64 (v : Z) : bytes := le_bytes 8 (u64 v).

(** The requests that are not batches. *)
Definition request_type (r : Request) : Z :=
  match r with
  | CmpRequest rt _ _ _ | CalcRequest rt _ _ _ | BulkRequest rt _ _ _ => rt
  | EncRequest _ rt _ _ | DecRequest _ rt _ _ | PutEncIntoKVRequest _ rt _ _ | GetEncFromKVRequest _ rt _ _ => rt
  | PromoteRequest rt _ _ _ _ | PutPlainIntoKVRequest _ rt _ _ | GetPlainFromKVRequest _ rt _ _ => rt
  | KVBatchRequest rt _ _ _ => rt
  | TimestampExtractYearRequest _ _ => CMD_TIMESTAMP_EXTRACT_YEAR
  | SubstringRequest _ _ _ _ => CMD_TEXT_SUBSTRING
  | SingleArgRequest rt => rt
  end.

Definition request_shape (r : Request) : shape :=
  match r with
  | CmpRequest _ _ _ _ => SCmp
  | CalcRequest _ _ _ _ => SCalc
  | BulkRequest _ _ _ _ => SBulk
  | EncRequest t _ _ _ => SEnc t
  | DecRequest t _ _ _ => SDec t
  | PutEncIntoKVRequest t _ _ _ => SPutEnc t
  | GetEncFromKVRequest t _ _ _ => SGetEnc t
  | PromoteRequest _ _ _ _ _ => SPromote
  | PutPlainIntoKVRequest t _ _ _ => SPut t
  | GetPlainFromKVRequest t _ _ _ => SGet t
  | KVBatchRequest _ _ _ _ => SBatch
  | TimestampExtractYearRequest _ _ => SYear
  | SubstringRequest _ _ _ _ => SSubstring
  | SingleArgRequest _ => SSingle
  end.

(** The typed request. *)
Definition request_data (r : Request) : req_data :=
  match r with
  | CmpRequest _ i1 i2 _ => CmpData i1 i2 0
  | CalcRequest _ i1 i2 _ => CalcData i1 i2 0
  | BulkRequest _ n keys _ => BulkData n (take (Z.to_nat n) keys) 0
  | EncRequest _ _ p _ => EncData p []
  | DecRequest _ _ c _ => DecData c []
  | PutEncIntoKVRequest _ _ c _ => PutEncData 0 c
  | GetEncFromKVRequest _ _ key _ => GetEncData [] key
  | PromoteRequest _ local target partition _ => PromoteData local target partition 0
  | PutPlainIntoKVRequest t _ v _ =>
      KVData (sizeof (KVFakeData t)) 0 (match t with TText => until_zero v | _ => v end)
  | GetPlainFromKVRequest t _ key _ => KVData (sizeof (KVFakeData t)) key []
  | KVBatchRequest _ n _ _ => BatchData n []
  | TimestampExtractYearRequest i _ => TimestampExtractYearData i 0
  | SubstringRequest str start len _ => SubstringData str start len 0
  | SingleArgRequest _ => SingleArgData
  end.

Definition copy_fields (t : vtype) (off : Z) (b : bytes) : list field :=
  match t with
  | TText => [(off, w32 (blen b)); (off + 4, b)]
  | _ => [(off, b)]
  end.

Definition args_fields (r : Request) : list field :=
  match r with
  | CmpRequest _ i1 i2 _ =>
      [(offsetof CmpRequestData 1, w64 i1); (offsetof CmpRequestData 2, w64 i2)]
  | CalcRequest _ i1 i2 _ =>
      [(offsetof CalcRequestData 1, w64 i1); (offsetof CalcRequestData 2, w64 i2)]
  | BulkRequest _ n keys _ =>
      [(offsetof BulkRequestData 1, w32 n);
       (offsetof BulkRequestData 2, flat_map (fun k => le_bytes 8 (u64 k)) (take (Z.to_nat n) keys))]
  | EncRequest t _ p _ => copy_fields t (offsetof (EncRequestData t) 1) p
  | DecRequest t _ c _ => copy_fields t (offsetof (DecRequestData t) 1) c
  | PutEncIntoKVRequest t _ c _ => copy_fields t (offsetof (PutEncIntoKVRequestData t) 2) c
  | GetEncFromKVRequest t _ key _ => [(offsetof (GetEncFromKVRequestData t) 2, w64 key)]
  | PromoteRequest _ local target partition _ =>
      [(offsetof PromoteRequestData 1, w64 local); (offsetof PromoteRequestData 2, w64 target);
       (offsetof PromoteRequestData 3, w64 partition)]
  | PutPlainIntoKVRequest t _ v _ =>
      [(offsetof KVRequestData 1, w64 (sizeof (KVFakeData t))); (offsetof KVRequestData 3, v)]
  | GetPlainFromKVRequest t _ key _ =>
      [(offsetof KVRequestData 2, w64 key); (offsetof KVRequestData 1, w64 (sizeof (KVFakeData t)))]
  | TimestampExtractYearRequest i _ => [(offsetof TimestampExtractYearRequestData 1, w64 i)]
  | SubstringRequest str start len _ =>
      [(offsetof SubstringRequestData 1, w64 str); (offsetof SubstringRequestData 2, w64 start);
       (offsetof SubstringRequestData 3, w64 len)]
  | KVBatchRequest _ _ _ _ | SingleArgRequest _ => []
  end.
Definition fields (r : Request) : list field := (BASE_reqType, w32 (request_type r)) :: args_fields r.

Definition result_fields (sh : shape) (d : req_data) : list field :=
  match sh, d with
  | SCalc, CalcData _ _ x => [(offsetof CalcRequestData 3, w64 x)]
  | SCmp, CmpData _ _ x => [(offsetof CmpRequestData 3, w32 x)]
  | SBulk, BulkData _ _ x => [(offsetof BulkRequestData 3, w64 x)]
  | SYear, TimestampExtractYearData _ x => [(offsetof TimestampExtractYearRequestData 2, w64 x)]
  | SSubstring, SubstringData _ _ _ x => [(offsetof SubstringRequestData 4, w64 x)]
  | SPutEnc t, PutEncData x _ => [(offsetof (PutEncIntoKVRequestData t) 1, w64 x)]
  | SGetEnc t, GetEncData c _ => copy_fields t (offsetof (GetEncFromKVRequestData t) 1) c
  | SPut _, KVData _ key _ => [(offsetof KVRequestData 2, w64 key)]
  | SGet _, KVData _ _ v => [(offsetof KVRequestData 3, v)]
  | SEnc t, EncData _ c => copy_fields t (offsetof (EncRequestData t) 2) c
  | SDec TText, DecData _ p =>
      copy_fields TText (offsetof (DecRequestData TText) 2) p ++
      [(offsetof (DecRequestData TText) 2 + 4 + blen p, [0])]
  | SDec t, DecData _ p => copy_fields t (offsetof (DecRequestData t) 2) p
  | SPromote, PromoteData _ _ _ x => [(offsetof PromoteRequestData 4, w64 x)]
  | _, _ => []
  end.

Definition plain_fits (t : vtype) (b : bytes) : Prop :=
  match t with
  | TText => blen b < STRING_LENGTH
  | _ => blen b = c_size (plain_ctype t)
  end.
Definition enc_fits (t : vtype) (b : bytes) : Prop :=
  match t with
  | TText => IV_SIZE + TAG_SIZE <= blen b < STRING_LENGTH + IV_SIZE + TAG_SIZE
  | _ => blen b = c_size (enc_ctype t)
  end.

(** A request built by the SQL functions: its command belongs to its class and its parameters
    fit the structure. *)
Definition args_ok (r : Request) : Prop :=
  match r with
  | CmpRequest _ i1 i2 _ | CalcRequest _ i1 i2 _ => in_u64 i1 /\ in_u64 i2
  | BulkRequest _ n keys _ => 0 <= n <= BULK_SIZE /\ n <= Z.of_nat (length keys) /\ Forall in_u64 keys
  | EncRequest t _ p _ => plain_fits t p
  | DecRequest t _ c _ => enc_fits t c
  | PutEncIntoKVRequest t _ c _ => enc_fits t c
  | GetEncFromKVRequest _ _ key _ => in_u64 key
  | PromoteRequest _ a b c _ => in_u64 a /\ in_u64 b /\ in_u64 c
  | PutPlainIntoKVRequest t _ v _ =>
      blen v = c_size (value_ctype t) /\ match t with TText => existsb (Z.eqb 0) v = true | _ => True end
  | GetPlainFromKVRequest _ _ key _ => in_u64 key
  | TimestampExtractYearRequest i _ => in_u64 i
  | SubstringRequest a b c _ => in_u64 a /\ in_u64 b /\ in_u64 c
  | SingleArgRequest _ => True
  | KVBatchRequest _ _ _ _ => False
  end.
Definition wf_request (r : Request) : Prop := command_shape (request_type r) = request_shape r /\ args_ok r.

(** The result of a call fits its structure, and the value it hands back. *)
Definition request_result (r : Request) (d : req_data) : option result :=
  match r, d with
  | CmpRequest _ _ _ _, CmpData _ _ x => Some (RInt x)
  | CalcRequest _ _ _ _, CalcData _ _ x => Some (RRid x)
  | BulkRequest _ _ _ _, BulkData _ _ x => Some (RRid x)
  | EncRequest _ _ _ _, EncData _ c => Some (RBytes c)
  | DecRequest _ _ _ _, DecData _ p => Some (RBytes p)
  | PutEncIntoKVRequest _ _ _ _, PutEncData x _ => Some (RRid x)
  | GetEncFromKVRequest _ _ _ _, GetEncData c _ => Some (RBytes c)
  | PromoteRequest _ _ _ _ _, PromoteData _ _ _ x => Some (RRid x)
  | PutPlainIntoKVRequest _ _ _ _, KVData _ x _ => Some (RRid x)
  | GetPlainFromKVRequest _ _ _ _, KVData _ _ v => Some (RBytes v)
  | TimestampExtractYearRequest _ _, TimestampExtractYearData _ x => Some (RRid x)
  | SubstringRequest _ _ _ _, SubstringData _ _ _ x => Some (RRid x)
  | _, _ => None
  end.
Definition result_fits (r : Request) (v : result) : Prop :=
  match r, v with
  | (EncRequest t _ _ _ | GetEncFromKVRequest t _ _ _), RBytes c => enc_fits t c
  | DecRequest t _ _ _, RBytes p => plain_fits t p
  | GetPlainFromKVRequest t _ _ _, RBytes b => blen b = c_size (value_ctype t)
  | CmpRequest _ _ _ _, RInt n => in_s32 n
  | _, RRid rid => in_u64 rid
  | _, _ => False
  end.
Definition request_dest (r : Request) : ptr :=
  match r with
  | CmpRequest _ _ _ p | CalcRequest _ _ _ p | BulkRequest _ _ _ p => p
  | EncRequest _ _ _ p | DecRequest _ _ _ p | PutEncIntoKVRequest _ _ _ p | GetEncFromKVRequest _ _ _ p => p
  | PromoteRequest _ _ _ _ p | PutPlainIntoKVRequest _ _ _ p | GetPlainFromKVRequest _ _ _ p => p
  | TimestampExtractYearRequest _ p | SubstringRequest _ _ _ p => p
  | KVBatchRequest _ _ _ _ | SingleArgRequest _ => None
  end.

(** ** Serialisation *)

Definition WINDOW : Z := sizeof BulkRequestData.

Lemma blen_w32 v : blen (w32 v) = 4.
Proof. reflexivity. Qed.
Lemma blen_w64 v : blen (w64 v) = 8.
Proof. reflexivity. Qed.

Lemma blen_keys keys : blen (flat_map (fun k => le_bytes 8 (u64 k)) keys) = 8 * Z.of_nat (length keys).
Proof.
  induction keys as [|k keys IH]; [reflexivity|]. cbn [flat_map length]. rewrite blen_app, IH, blen_le_bytes. lia.
Qed.

Lemma rids_of_keys keys : Forall in_u64 keys ->
  rids_of (length keys) (flat_map (fun k => le_bytes 8 (u64 k)) keys) = keys.
Proof.
  induction 1 as [|k keys Hk _ IH]; [reflexivity|]. cbn [flat_map length rids_of].
  rewrite take_app_length', drop_app_length' by (now rewrite length_le_bytes).
  now rewrite IH, le_val_64.
Qed.

(** Evaluate the layout, and solve what is left about offsets and lengths. *)
Ltac sizes :=
  unfold WINDOW, IV_SIZE, TAG_SIZE, STRING_LENGTH, BULK_SIZE, within, apart in *;
  cbn [fst snd c_size c_align] in *; eval_layout;
  repeat match goal with
  | H : context [c_size ?t] |- _ => let v := eval vm_compute in (c_size t) in change (c_size t) with v in H
  | |- context [c_size ?t] => let v := eval vm_compute in (c_size t) in change (c_size t) with v
  end;
  rewrite ?blen_w32, ?blen_w64, ?blen_keys, ?length_take in *; lia.

(** One goal per field, or pair of fields, of a concrete list. *)
Ltac each_field :=
  repeat match goal with
  | |- Forall _ [] => apply Forall_nil_2
  | |- Forall _ (_ :: _) => apply Forall_cons_2
  | |- ForallOrdPairs _ [] => apply FOP_nil
  | |- ForallOrdPairs _ (_ :: _) => apply FOP_cons
  end.

Lemma args_fields_ok r : args_ok r ->
  Forall (fun f => 12 <= fst f /\ fst f + blen (snd f) <= WINDOW) (args_fields r) /\
  ForallOrdPairs apart (args_fields r).
Proof.
  intros H.
  destruct r as [| | |t ? ? ?|t ? ? ?|t ? ? ?|t ? ? ?| |t ? ? ?|t ? ? ?| | | |]; try contradiction;
    try destruct t; cbn [args_fields args_ok copy_fields plain_fits enc_fits] in *; destruct_and?;
    split; each_field; sizes.
Qed.

Lemma fields_ok r : args_ok r -> Forall (within WINDOW) (fields r) /\ ForallOrdPairs apart (fields r).
Proof.
  intros H. destruct (args_fields_ok r H) as [Hw Hap]. unfold fields. split.
  - constructor; [sizes|]. revert Hw. apply List.Forall_impl. intros f Hf. sizes.
  - constructor; [|exact Hap]. revert Hw. apply List.Forall_impl. intros f Hf. sizes.
Qed.

(** Run the stores of both sides in step. *)
Ltac same_stores :=
  unfold store_all; cbn [iterM fst snd]; rewrite ?Z.add_assoc; unfold store32, store64, w32, w64, bindM, definedM, retM, failM;
  cbv beta iota; repeat match goal with
  | |- context [storeM ?o ?b ?m] => destruct (storeM o b m) as [[[]|] ?]; cbv beta iota
  end; try reflexivity.

Lemma serializeTo_fields base r m : args_ok r ->
  serializeTo base r m = (do* store_all base (fields r) in retM r) m.
Proof.
  intros H.
  destruct r as [| |bt n keys p|t ? ? ?|t ? ? ?|t ? ? ?|t ? ? ?| |t ? ? ?|t ? ? ?| | | |]; try contradiction;
    try destruct t; unfold fields;
    cbn [serializeTo args_fields copy_fields copy_plain_to copy_enc_to request_type getSize];
    unfold Cmp_serializeTo, Calc_serializeTo, Bulk_serializeTo, Enc_serializeTo, Dec_serializeTo,
      PutEnc_serializeTo, GetEnc_serializeTo, Promote_serializeTo, PutPlain_serializeTo, GetPlain_serializeTo, PutPlainArray_serializeTo, GetPlainArray_serializeTo,
      TimestampExtractYear_serializeTo, Substring_serializeTo, SingleArg_serializeTo;
    unfold PutPlain_getSize, GetPlain_getSize, PutPlainArray_getSize, GetPlainArray_getSize, KVFakeData; cbn [copy_plain_to copy_enc_to value_ctype];
    change (offsetof Str_struct 1) with 4; change (offsetof EncStr_struct 1) with 4.
  3: { destruct H as [Hn [Hk _]].
       assert (E : (0 <=? n) && (n <=? Z.of_nat (length keys)) = true)
         by (rewrite andb_true_iff, !Z.leb_le; lia).
       unfold definedM; rewrite E; same_stores. }
  all: same_stores.
Qed.

Lemma serializeTo_spec base r m : args_ok r -> 0 <= base -> base + WINDOW <= blen m ->
  exists m', serializeTo base r m = (Ok r, m') /\ blen m' = blen m /\ holds base m' (fields r).
Proof.
  intros H Hb Hs. destruct (fields_ok r H) as [Hw Hap].
  destruct (store_all_spec base WINDOW (fields r) m Hb Hs Hw Hap) as (m' & Hr & Hl & Hh & _).
  exists m'. split; [|now split]. rewrite serializeTo_fields by exact H. now rewrite (bindM_run _ _ _ _ _ Hr).
Qed.

(** ** The handler reads what the request wrote *)

Lemma holds_cons base m f fs :
  holds base m (f :: fs) -> slice (base + fst f) (blen (snd f)) m = snd f /\ holds base m fs.
Proof. intros H. inversion H; subst. now split. Qed.

(** Take a [holds] hypothesis apart. *)
Ltac open_holds :=
  repeat match goal with
  | H : holds _ _ (_ :: _) |- _ => apply holds_cons in H as [? H]
  | H : holds _ _ [] |- _ => clear H
  end; cbn [fst snd] in *; rewrite ?blen_w32, ?blen_w64 in *.

Lemma in_u32_blen b : blen b <= 4096 -> in_u32 (blen b).
Proof. pose proof (blen_nonneg b). unfold in_u32. lia. Qed.

Ltac in_width :=
  first [assumption | apply in_u32_blen; sizes | unfold in_s32, in_u32, in_u64; sizes].

(** Run a load of a field the memory holds. *)
Ltac run_load :=
  match goal with
  | H : slice ?o 8 ?m = w64 ?v |- context [bindM (load64 ?o) ?k ?m] =>
      rewrite (bindM_run (load64 o) k m m v) by (apply load64_field; [exact H|sizes|sizes|in_width])
  | H : slice ?o 4 ?m = w32 ?v |- context [bindM (load_int ?o) ?k ?m] =>
      rewrite (bindM_run (load_int o) k m m v) by (apply load_int_field; [exact H|sizes|sizes|in_width])
  | H : slice ?o 4 ?m = w32 ?v |- context [bindM (load32 ?o) ?k ?m] =>
      rewrite (bindM_run (load32 o) k m m v) by (apply load32_field; [exact H|sizes|sizes|in_width])
  | H : slice ?o (blen ?b) ?m = ?b |- context [bindM (loadM ?o ?n) ?k ?m] =>
      rewrite (bindM_run (loadM o n) k m m b) by (apply loadM_field; [exact H|sizes|sizes|sizes])
  end.

Lemma rids_of_all keys : Forall in_u64 keys ->
  let b := flat_map (fun k => le_bytes 8 (u64 k)) keys in rids_of (length b / 8) b = keys.
Proof.
  intros H b. replace (length b / 8)%nat with (length keys); [now apply rids_of_keys|].
  pose proof (blen_keys keys) as Hb. fold b in Hb. unfold blen in Hb.
  replace (length b) with (length keys * 8)%nat by lia. now rewrite Nat.div_mul.
Qed.

Lemma existsb_zero_until v rest : existsb (Z.eqb 0) v = true -> until_zero (v ++ rest) = until_zero v.
Proof.
  induction v as [|b v IH]; [discriminate|]. cbn [existsb app until_zero]. rewrite orb_true_iff, Z.eqb_eq.
  intros [<-|H]; [reflexivity|]. destruct (b =? 0); [reflexivity|]. now rewrite IH.
Qed.

Lemma load_cstring_field off v m :
  slice off (blen v) m = v -> existsb (Z.eqb 0) v = true -> 0 <= off -> load_cstring off m = (Ok (until_zero v), m).
Proof.
  intros Hs Hz H0. unfold load_cstring, slice, blen in *. rewrite Nat2Z.id in Hs.
  unfold getM, bindM. rewrite <- (take_drop (length v) (drop (Z.to_nat off) m)), Hs, existsb_app, Hz.
  rewrite (proj2 (Z.leb_le 0 off) H0). cbn [orb andb]. unfold definedM, retM. now rewrite existsb_zero_until.
Qed.

(** Run a check that holds. *)
Ltac run_guard :=
  match goal with
  | |- context [bindM (checkM ?b) ?k ?m] =>
      rewrite (bindM_run (checkM b) k m m tt)
        by (apply checkM_true; rewrite ?andb_true_iff, ?Z.leb_le, ?Z.ltb_lt; sizes)
  | |- context [bindM (definedM ?b) ?k ?m] =>
      rewrite (bindM_run (definedM b) k m m tt)
        by (apply definedM_true; rewrite ?andb_true_iff, ?Z.leb_le, ?Z.ltb_lt; sizes)
  end.

Lemma load_struct_spec base r m : args_ok r -> 0 <= base -> base + WINDOW <= blen m ->
  holds base m (args_fields r) -> load_struct (request_shape r) base m = (Ok (request_data r), m).
Proof.
  intros H Hb Hs Hh.
  destruct r as [| |bt n keys p|t ? ? ?|t ? ? ?|t ? ? ?|t ? ? ?| |t ? v ?|t ? ? ?| | | |]; try contradiction;
    try destruct t;
    cbn [args_fields args_ok copy_fields plain_fits enc_fits load_struct request_shape request_data plain_size] in *;
    destruct_and?; open_holds; change (offsetof Str_struct 1) with 4; change (offsetof EncStr_struct 1) with 4;
    rewrite ?Z.add_assoc in *; try (repeat run_load; reflexivity).
  - (* BulkRequest *) run_load.
    assert (E : (0 <=? n) && (n <=? BULK_SIZE) = true) by (rewrite andb_true_iff, !Z.leb_le; lia). rewrite E.
    run_load. rewrite rids_of_all by now apply Forall_take. reflexivity.
  - (* EncRequest of a text *) run_load. run_guard. run_load. reflexivity.
  - (* DecRequest of a text *) run_load. run_guard. run_load. reflexivity.
  - (* PutEncIntoKVRequest of a text *) run_load. run_guard. run_load. reflexivity.
  - (* PutPlainIntoKVRequest of a text *)
    run_load. rewrite (bindM_run _ _ m m (until_zero v)); [reflexivity|].
    apply load_cstring_field; [assumption|assumption|sizes].
Qed.

(** ** The request reads what the handler wrote *)

Lemma result_fields_ok r d v : request_result r d = Some v -> result_fits r v ->
  Forall (fun f => 12 <= fst f /\ fst f + blen (snd f) <= WINDOW) (result_fields (request_shape r) d) /\
  ForallOrdPairs apart (result_fields (request_shape r) d).
Proof.
  intros Hv Hf.
  destruct r as [| | |t ? ? ?|t ? ? ?|t ? ? ?|t ? ? ?| |t ? ? ?|t ? ? ?| | | |]; destruct d; try discriminate;
    injection Hv as <-; try destruct t;
    cbn [result_fields request_shape result_fits copy_fields plain_fits enc_fits app] in *; destruct_and?;
    split; each_field; cbn [fst snd]; change (blen [0]) with 1 in *; try sizes.
  all: pose proof (blen_nonneg plaintext); sizes.
Qed.

Lemma store_result_fields base r d v m : request_result r d = Some v ->
  store_result (request_shape r) base d m = store_all base (result_fields (request_shape r) d) m.
Proof.
  intros Hv.
  destruct r as [| | |t ? ? ?|t ? ? ?|t ? ? ?|t ? ? ?| |t ? ? ?|t ? ? ?| | | |]; destruct d; try discriminate;
    try destruct t; cbn [store_result result_fields request_shape copy_enc_to copy_plain_to copy_fields app];
    change (offsetof Str_struct 1) with 4; change (offsetof EncStr_struct 1) with 4; same_stores.
Qed.

Lemma store_result_spec base r d v m : request_result r d = Some v -> result_fits r v ->
  0 <= base -> base + WINDOW <= blen m ->
  exists m', store_result (request_shape r) base d m = (Ok tt, m') /\ blen m' = blen m /\
    holds base m' (result_fields (request_shape r) d).
Proof.
  intros Hv Hf Hb Hs. destruct (result_fields_ok r d v Hv Hf) as [Hw Hap].
  assert (Hw' : Forall (within WINDOW) (result_fields (request_shape r) d)).
  { revert Hw. apply List.Forall_impl. intros f Hff. unfold within. lia. }
  destruct (store_all_spec base WINDOW _ m Hb Hs Hw' Hap) as (m' & Hr & Hl & Hh & _).
  exists m'. split; [|now split]. now rewrite (store_result_fields base r d v).
Qed.

Lemma copyResultFrom_spec base r d v c m : request_result r d = Some v -> result_fits r v ->
  request_dest r = Some c -> 0 <= base -> base + WINDOW <= blen m ->
  holds base m (result_fields (request_shape r) d) ->
  copyResultFrom base r m = (Ok [(addr c, v)], m).
Proof.
  intros Hv Hf Hd Hb Hs Hh.
  destruct r as [| | |t ? ? ?|t ? ? ?|t ? ? ?|t ? ? ?| |t ? ? ?|t ? ? ?| | | |]; destruct d; try discriminate;
    injection Hv as <-; cbn [request_dest] in Hd; subst; try destruct t;
    cbn [result_fields request_shape result_fits copy_fields plain_fits enc_fits copyResultFrom app] in *;
    unfold Cmp_copyResultFrom, Calc_copyResultFrom, Bulk_copyResultFrom, Enc_copyResultFrom, Dec_copyResultFrom,
      PutEnc_copyResultFrom, GetEnc_copyResultFrom, Promote_copyResultFrom, PutPlain_copyResultFrom,
      GetPlain_copyResultFrom, PutPlainArray_copyResultFrom, GetPlainArray_copyResultFrom, TimestampExtractYear_copyResultFrom, Substring_copyResultFrom;
    cbn [copy_enc_from copy_plain_from value_ctype] in *;
    destruct_and?; open_holds; change (offsetof Str_struct 1) with 4; change (offsetof EncStr_struct 1) with 4;
    rewrite ?Z.add_assoc in *; try (run_load; reflexivity);
    rewrite bindM_assoc; run_load; rewrite bindM_assoc; run_guard; run_load; reflexivity.
Qed.

(** ** A call through the region *)

Lemma command_positive rt : command_shape rt <> SNone -> 0 < rt.
Proof.
  intros H. destruct (Z.ltb_spec 0 rt) as [|Hle]; [assumption|]. exfalso. apply H.
  assert (Hr : forall k, 0 < k -> rt =? k = false) by (intros; apply Z.eqb_neq; lia).
  assert (Hl : forall k, 0 < k -> k <=? rt = false) by (intros; apply Z.leb_gt; lia).
  unfold command_shape, is_calc, is_cmp, is_single, put_enc_type, get_enc_type, put_type, get_type, enc_type,
    dec_type, promote_type.
  repeat rewrite Hr by reflexivity. repeat rewrite Hl by reflexivity. reflexivity.
Qed.

Lemma command_bound rt : command_shape rt <> SNone -> rt <= 60.
Proof.
  intros H. destruct (Z.leb_spec rt 60) as [|Hle]; [assumption|]. exfalso. apply H.
  assert (Hr : forall k, k <= 60 -> rt =? k = false) by (intros; apply Z.eqb_neq; lia).
  assert (Hl : forall k, k <= 60 -> rt <=? k = false) by (intros; apply Z.leb_gt; lia).
  unfold command_shape, is_calc, is_cmp, is_single, put_enc_type, get_enc_type, put_type, get_type, enc_type,
    dec_type, promote_type.
  repeat rewrite Hr by (vm_compute; congruence). repeat rewrite Hl by (vm_compute; congruence).
  now rewrite !andb_false_r.
Qed.

Lemma request_shape_simple r : args_ok r -> request_shape r <> SBatch /\ request_shape r <> SNone.
Proof. destruct r; cbn; try easy; intros _; now split. Qed.

Lemma on_region_run {A} (c : M bytes A) w m x m' : c m = (x, m') -> on_region c (mkMachine w m) = (x, mkMachine w m').
Proof. intros H. unfold on_region, zoomM. cbn [mc_region]. now rewrite H. Qed.

Lemma on_worker_run {A} (c : M worker A) w m x w' : c w = (x, w') -> on_worker c (mkMachine w m) = (x, mkMachine w' m).
Proof. intros H. unfold on_worker, zoomM. cbn [mc_worker]. now rewrite H. Qed.

(** Stores to the status or response word keep the other members. *)
Lemma holds_header m fs off v :
  0 <= off -> off + 4 <= 12 -> off + 4 <= blen m -> holds 0 m fs ->
  Forall (fun f => 12 <= fst f \/ (4 <= fst f /\ off = 0)) fs ->
  holds 0 (splice off (w32 v) m) fs.
Proof.
  intros H0 H1 Hl Hh Hf. apply holds_splice; try (rewrite ?blen_w32; lia); [assumption|].
  revert Hf. apply List.Forall_impl. intros f Hff. rewrite blen_w32. lia.
Qed.

Lemma store32_run off v m : 0 <= off -> off + 4 <= blen m -> store32 off v m = (Ok tt, splice off (w32 v) m).
Proof. intros. apply storeM_run; [assumption|]. now change (blen (le_bytes 4 (u32 v))) with 4. Qed.

Lemma blen_store32 off v m : 0 <= off -> off + 4 <= blen m -> blen (splice off (w32 v) m) = blen m.
Proof. intros. apply blen_splice; [assumption|]. now rewrite blen_w32. Qed.

Lemma status_stored st m : 12 <= blen m -> in_s32 st ->
  load_int BASE_status (splice BASE_status (w32 st) m) = (Ok st, splice BASE_status (w32 st) m).
Proof.
  intros Hl Hst. assert (0 <= BASE_status /\ BASE_status + 4 <= 12) as [H0 H1] by (split; vm_compute; congruence).
  apply load_int_field; [|lia| |exact Hst].
  - change (le_bytes 4 (u32 st)) with (w32 st). apply slice_splice_eq; rewrite ?blen_w32; lia.
  - rewrite blen_store32; lia.
Qed.

(** A region as the server sets it up. *)
Definition region_ok (m : bytes) : Prop := blen m = REQ_REGION_SIZE.

(** What a call hands back to the backend. *)
Definition answers (r : Request) (d : req_data) (vs : list (nat * result)) : Prop :=
  match r with
  | SingleArgRequest _ => d = SingleArgData /\ vs = []
  | _ => exists c v, request_dest r = Some c /\ request_result r d = Some v /\ result_fits r v /\
           vs = [(addr c, v)]
  end.

Lemma await_run st w m : load_int BASE_status m = (Ok st, m) -> await st (mkMachine w m) = (Ok tt, mkMachine w m).
Proof.
  intros H. unfold await. rewrite (bindM_run _ _ _ _ _ (on_region_run _ w m _ _ H)). apply definedM_true, Z.eqb_refl.
Qed.

Section Calls.
Context (crypt_and_tag : bytes -> bytes -> bytes -> Z * (bytes * bytes)).
Context (auth_decrypt : bytes -> bytes -> bytes -> bytes -> Z * bytes).
Context (pow : spec_float -> spec_float -> spec_float).
Context (powf fmodf : Z -> Z -> Z).

Abbreviation handle_one := (Handler.handle_one crypt_and_tag auth_decrypt pow powf fmodf).
Abbreviation handle_ops_at := (handle_ops_at crypt_and_tag auth_decrypt pow powf fmodf).
Abbreviation handle_request := (handle_request crypt_and_tag auth_decrypt pow powf fmodf).
Abbreviation sendRequest := (sendRequest crypt_and_tag auth_decrypt pow powf fmodf).

Lemma handle_ops_at_simple depth base rt sh d w m :
  load_int (base + BASE_reqType) m = (Ok rt, m) -> command_shape rt = sh -> sh <> SBatch -> sh <> SNone ->
  load_struct sh base m = (Ok d, m) ->
  handle_ops_at depth base (mkMachine w m) =
    (do* (let* d' := on_worker (handle_one rt d) in on_region (store_result sh base d')) in
     on_region (store32 (base + BASE_resp) 0)) (mkMachine w m).
Proof.
  intros Hrt Hsh Hb Hn Hd.
  assert (E : handle_ops_at depth base (mkMachine w m) =
    (do* (let* d := on_region (load_struct sh base) in let* d' := on_worker (handle_one rt d) in
          on_region (store_result sh base d')) in
     on_region (store32 (base + BASE_resp) 0)) (mkMachine w m)).
  { destruct depth; cbn [Region.handle_ops_at]; rewrite (bindM_run _ _ _ _ _ (on_region_run _ w m _ _ Hrt));
      rewrite Hsh; destruct sh; try reflexivity; congruence. }
  rewrite E, !bindM_assoc. now rewrite (bindM_run _ _ _ _ _ (on_region_run _ w m _ _ Hd)), bindM_assoc.
Qed.

Lemma handle_data_simple r : args_ok r ->
  Handler.handle_data crypt_and_tag auth_decrypt pow powf fmodf (request_type r) (request_data r) =
  handle_one (request_type r) (request_data r).
Proof. now destruct r. Qed.

(** What the worker decodes from a region that holds a request. *)
Lemma request_decoded r m : region_ok m -> wf_request r -> holds 0 m (fields r) ->
  WINDOW <= blen m /\ 4096 <= blen m /\ 0 < request_type r /\
  load_int BASE_reqType m = (Ok (request_type r), m) /\
  load_struct (request_shape r) 0 m = (Ok (request_data r), m).
Proof.
  intros Hm [Hsh Hargs] Hh. destruct (request_shape_simple r Hargs) as [Hnb Hnn].
  assert (Hpos : 0 < request_type r <= 60).
  { split; [apply command_positive|apply command_bound]; congruence. }
  apply holds_cons in Hh as [Hrt Hh]. cbn [fst snd] in Hrt. rewrite blen_w32 in Hrt.
  assert (Hlen : WINDOW <= blen m /\ 4096 <= blen m) by (rewrite Hm; split; vm_compute; congruence).
  split; [lia|]. split; [lia|]. split; [lia|]. split.
  - apply load_int_field; [exact Hrt|sizes|sizes|unfold in_s32; lia].
  - exact (load_struct_spec 0 r m Hargs ltac:(lia) ltac:(lia) Hh).
Qed.

(** The result members lie behind the header. *)
Lemma store_answer r d vs m : WINDOW <= blen m -> 4096 <= blen m -> answers r d vs ->
  exists m', store_result (request_shape r) 0 d m = (Ok tt, m') /\ blen m' = blen m /\
    holds 0 m' (result_fields (request_shape r) d) /\
    Forall (fun f => 12 <= fst f) (result_fields (request_shape r) d).
Proof.
  intros Hw1 Hw2 Hans.
  destruct r; try (destruct Hans as (c & v & Hdest & Hres & Hfit & ->);
    destruct (result_fields_ok _ _ _ Hres Hfit) as [Hw _];
    destruct (store_result_spec 0 _ _ _ m Hres Hfit ltac:(lia) ltac:(lia)) as (m3 & H1 & H2 & H3);
    exists m3; split; [exact H1|]; split; [exact H2|]; split; [exact H3|];
    revert Hw; apply List.Forall_impl; intros f Hf; lia).
  destruct Hans as [-> ->]. exists m. repeat split; constructor.
Qed.

(** The worker's part of a call: from the [SENT] region to the [DONE] region. *)
Lemma handle_request_ok depth r w m d w' vs :
  region_ok m -> wf_request r -> holds 0 m (fields r) ->
  handle_one (request_type r) (request_data r) w = (Ok d, w') -> answers r d vs ->
  exists m', handle_request depth (mkMachine w m) = (Ok tt, mkMachine w' m') /\ region_ok m' /\
    load_int BASE_resp m' = (Ok 0, m') /\ load_int BASE_status m' = (Ok ST_DONE, m') /\
    holds 0 m' (result_fields (request_shape r) d).
Proof.
  intros Hm Hwf Hh Hone Hans. destruct (request_decoded r m Hm Hwf Hh) as (Hl1 & Hl2 & Hpos & Hload & Hd).
  destruct Hwf as [Hsh Hargs]. destruct (request_shape_simple r Hargs) as [Hnb Hnn].
  destruct (store_answer r d vs m Hl1 Hl2 Hans) as (m3 & Hst & Hl3 & Hh3 & Hf).
  set (m4 := splice BASE_resp (w32 0) m3). set (m5 := splice BASE_status (w32 ST_DONE) m4).
  assert (Hl4 : blen m4 = blen m) by (unfold m4; rewrite blen_store32; [lia|sizes|sizes]).
  assert (Hl5 : blen m5 = blen m) by (unfold m5; rewrite blen_store32; [lia|sizes|sizes]).
  assert (Hresp : slice BASE_resp 4 m4 = w32 0) by (apply slice_splice_eq; sizes).
  assert (Hload0 : forall m', slice BASE_resp 4 m' = w32 0 -> blen m' = blen m -> load_int BASE_resp m' = (Ok 0, m')).
  { intros m' Hs' Hl'. apply load_int_field; [exact Hs'|sizes|sizes|unfold in_s32; lia]. }
  exists m5. split; [|split; [|split; [|split]]].
  - unfold Region.handle_request. rewrite (bindM_run _ _ _ _ _ (on_region_run _ w m _ _ Hload)).
    rewrite (proj2 (Z.ltb_lt 0 _)) by lia. rewrite bindM_assoc.
    rewrite (bindM_run _ _ _ (mkMachine w' m4) tt).
    + rewrite (bindM_run _ _ _ (mkMachine w' m4) tt).
      * apply on_region_run. apply store32_run; sizes.
      * rewrite (bindM_run _ _ _ _ _ (on_region_run _ w' m4 _ _ (Hload0 m4 Hresp Hl4))). now apply checkM_true.
    + rewrite (handle_ops_at_simple depth 0 (request_type r) (request_shape r) (request_data r) w m);
        [|exact Hload|exact Hsh|assumption|assumption|exact Hd].
      rewrite bindM_assoc, (bindM_run _ _ _ _ _ (on_worker_run _ w m _ _ Hone)).
      rewrite (bindM_run _ _ _ _ _ (on_region_run _ w' m _ _ Hst)).
      apply on_region_run. apply store32_run; sizes.
  - unfold region_ok in *. lia.
  - apply Hload0; [|exact Hl5]. unfold m5. rewrite slice_splice_ne; [exact Hresp|sizes..].
  - apply status_stored; [lia|easy].
  - apply holds_header; [sizes|sizes|sizes| |revert Hf; apply List.Forall_impl; lia].
    apply holds_header; [sizes|sizes|sizes|exact Hh3|revert Hf; apply List.Forall_impl; lia].
Qed.

(** ... and when the handler fails. *)
Lemma handle_request_err depth r w m f w' :
  region_ok m -> wf_request r -> holds 0 m (fields r) ->
  handle_one (request_type r) (request_data r) w = (Err f, w') ->
  handle_request depth (mkMachine w m) = (Err f, mkMachine w' m).
Proof.
  intros Hm Hwf Hh Hone. destruct (request_decoded r m Hm Hwf Hh) as (_ & _ & Hpos & Hload & Hd).
  destruct Hwf as [Hsh Hargs]. destruct (request_shape_simple r Hargs) as [Hnb Hnn].
  unfold Region.handle_request. rewrite (bindM_run _ _ _ _ _ (on_region_run _ w m _ _ Hload)).
  rewrite (proj2 (Z.ltb_lt 0 _)) by lia. rewrite bindM_assoc. apply bindM_fail.
  rewrite (handle_ops_at_simple depth 0 (request_type r) (request_shape r) (request_data r) w m);
    [|exact Hload|exact Hsh|assumption|assumption|exact Hd].
  rewrite bindM_assoc. apply bindM_fail. now apply on_worker_run.
Qed.

(** A call through the bytes of the region is a call of the typed handler. *)
Lemma sendRequest_call depth r w m :
  region_ok m -> wf_request r ->
  (forall d w' vs, handle_one (request_type r) (request_data r) w = (Ok d, w') -> answers r d vs ->
     exists m', sendRequest depth r (mkMachine w m) = (Ok (0, vs), mkMachine w' m') /\ region_ok m' /\
       load_int BASE_status m' = (Ok ST_NONE, m')) /\
  (forall f w', handle_one (request_type r) (request_data r) w = (Err f, w') ->
     exists m', sendRequest depth r (mkMachine w m) = (Err f, mkMachine w' m')).
Proof.
  intros Hm Hwf. pose proof Hwf as [_ Hargs].
  assert (Hlen : WINDOW <= blen m /\ 4096 <= blen m) by (rewrite Hm; split; vm_compute; congruence).
  destruct (serializeTo_spec 0 r m Hargs ltac:(lia) ltac:(lia)) as (m1 & Hs & Hl1 & Hh1).
  set (m2 := splice BASE_status (w32 ST_SENT) m1).
  assert (Hm2 : region_ok m2) by (unfold region_ok, m2 in *; rewrite blen_store32; [lia|sizes|sizes]).
  assert (Hh2 : holds 0 m2 (fields r)).
  { apply holds_header; [sizes|sizes|sizes|exact Hh1|]. destruct (args_fields_ok r Hargs) as [Hw _].
    constructor; [right; now split|]. revert Hw. apply List.Forall_impl. intros g Hg. lia. }
  assert (Hpre : sendRequest depth r (mkMachine w m) =
    (do* handle_request depth in do* await ST_DONE in let* vs := on_region (copyResultFrom 0 r) in
     let* resp := on_region (load_int BASE_resp) in do* on_region (store32 BASE_status ST_NONE) in
     retM (resp, vs)) (mkMachine w m2)).
  { unfold Region.sendRequest. rewrite (bindM_run _ _ _ _ _ (on_region_run _ w m _ _ Hs)).
    rewrite (bindM_run _ _ _ (mkMachine w m2) tt) by (apply on_region_run, store32_run; sizes).
    rewrite (bindM_run _ _ _ (mkMachine w m2) tt); [reflexivity|].
    apply await_run. apply status_stored; [lia|easy]. }
  split.
  - intros d w' vs Hone Hans.
    destruct (handle_request_ok depth r w m2 d w' vs Hm2 Hwf Hh2 Hone Hans) as (m5 & Hr & Hm5 & Hresp & Hdone & Hh5).
    assert (Hcopy : copyResultFrom 0 r m5 = (Ok vs, m5)).
    { destruct r; try (destruct Hans as (c & v & Hdest & Hres & Hfit & ->);
        eapply copyResultFrom_spec; [exact Hres|exact Hfit|exact Hdest|lia|rewrite Hm5, <- Hm; lia|exact Hh5]).
      now destruct Hans as [_ ->]. }
    exists (splice BASE_status (w32 ST_NONE) m5). split.
    + rewrite Hpre, (bindM_run _ _ _ _ _ Hr), (bindM_run _ _ _ _ _ (await_run _ w' m5 Hdone)), (bindM_run _ _ _ _ _ (on_region_run _ w' m5 _ _ Hcopy)).
      rewrite (bindM_run _ _ _ _ _ (on_region_run _ w' m5 _ _ Hresp)).
      rewrite (bindM_run _ _ _ (mkMachine w' (splice BASE_status (w32 ST_NONE) m5)) tt); [reflexivity|].
      apply on_region_run, store32_run; [sizes|]. rewrite Hm5, <- Hm. sizes.
    + assert (Hl5 : 12 <= blen m5) by (rewrite Hm5, <- Hm; sizes). split; [|apply status_stored; [lia|easy]].
      unfold region_ok in *. rewrite blen_store32; [assumption|sizes|sizes].
  - intros f w' Hone. exists m2. rewrite Hpre. apply bindM_fail. now apply (handle_request_err depth r).
Qed.

(** C1: a call through shared memory refines the typed dispatcher. Whatever the region holds, a
    request object of any class but the batch that is serialised into it, handled in place by
    the worker and read back gives the response and the result of [handle_ops] on the typed
    request, leaves the worker in the same state, and leaves the region of its size with the
    status [NONE]; when the dispatcher fails, the call fails in the same way. *)
Theorem sendRequest_refines_handler depth r w m :
  region_ok m -> wf_request r ->
  match Handler.handle_ops crypt_and_tag auth_decrypt pow powf fmodf (mkReq (request_type r) 0 (request_data r)) w with
  | (Ok q, w') => forall vs, answers r (rq_data q) vs ->
      exists m', sendRequest depth r (mkMachine w m) = (Ok (rq_resp q, vs), mkMachine w' m') /\ region_ok m' /\
        load_int BASE_status m' = (Ok ST_NONE, m')
  | (Err f, w') => exists m', sendRequest depth r (mkMachine w m) = (Err f, mkMachine w' m')
  end.
Proof.
  intros Hm Hwf. pose proof Hwf as [Hsh Hargs]. destruct (request_shape_simple r Hargs) as [_ Hnn].
  destruct (sendRequest_call depth r w m Hm Hwf) as [Hok Herr]. unfold Handler.handle_ops. cbn [rq_type rq_data].
  replace (known_command (request_type r)) with true.
  - rewrite handle_data_simple by exact Hargs.
    destruct (handle_one (request_type r) (request_data r) w) as [[d|f] w'] eqn:E.
    + rewrite (bindM_run _ _ _ _ _ E). intros vs Hans. cbn [rq_data rq_resp] in *. now apply (Hok d).
    + rewrite (bindM_fail _ _ _ _ _ E). now apply Herr.
  - symmetry. unfold known_command, CMD_INT_PUT, CMD_CKPT. apply andb_true_iff. rewrite !Z.leb_le.
    pose proof (command_positive (request_type r)). pose proof (command_bound (request_type r)).
    split; [assert (0 < request_type r) by (apply command_positive; congruence); lia|apply command_bound; congruence].
Qed.
End Calls.
