(* ===== verification/Invoker.v ===== *)
(** The interface between the SQL functions and the privacy zone: the class [TEEInvoker] of
    src/integrity_zone/include/interface.hpp, what its [sendRequest] promises, the region of
    [Region] as an implementation, and the calls the SQL functions make through it. *)
From Stdlib Require Import SpecFloat.
From S2P Require Import Prelude Rid Shm LocalStore FileMap KV Tee Crypto Wal Handler Layout Request Region.

(** The libraries the privacy zone is linked with. *)
Class Libraries : Type := {
  lib_crypt : bytes -> bytes -> bytes -> Z * (bytes * bytes);
  lib_decrypt : bytes -> bytes -> bytes -> bytes -> Z * bytes;
  lib_pow : spec_float -> spec_float -> spec_float;
  lib_powf : Z -> Z -> Z;
  lib_fmodf : Z -> Z -> Z;
}.
Definition tee_handler `{Libraries} : Z -> req_data -> M worker req_data :=
  Handler.handle_one lib_crypt lib_decrypt lib_pow lib_powf lib_fmodf.

(** [TEEInvoker]: a connection to the privacy zone. *)
Class TEEInvoker (S : Type) : Type := {
  sendRequest : Request -> M S (Z * list (nat * result));
  tee : S -> worker;
  connected : S -> Prop;
}.
(** Its contract: a request is answered as the handler answers it, with response zero, and
    the connection stays usable. *)
Class TEEInvokerLaws `{Libraries} (S : Type) `{TEEInvoker S} : Prop := {
  send_ok : forall r s d w' vs, connected s -> wf_request r ->
    tee_handler (request_type r) (request_data r) (tee s) = (Ok d, w') -> answers r d vs ->
    exists s', sendRequest r s = (Ok (0, vs), s') /\ tee s' = w' /\ connected s';
  send_err : forall r s f w', connected s -> wf_request r ->
    tee_handler (request_type r) (request_data r) (tee s) = (Err f, w') ->
    exists s', sendRequest r s = (Err f, s') /\ tee s' = w';
}.

(** The shared-memory region implements it. No batch is nested in another, so one level of
    recursion of the handler is enough. *)
#[export] Instance region_invoker `{Libraries} : TEEInvoker machine := {
  sendRequest := Region.sendRequest lib_crypt lib_decrypt lib_pow lib_powf lib_fmodf 1;
  tee := mc_worker;
  connected c := region_ok (mc_region c);
}.
#[export] Instance region_invoker_laws `{Libraries} : TEEInvokerLaws machine.
Proof.
  split; intros r [w m]; cbn [connected tee region_invoker mc_region mc_worker sendRequest].
  - intros d w' vs Hm Hwf Hone Hans.
    destruct (sendRequest_call lib_crypt lib_decrypt lib_pow lib_powf lib_fmodf 1 r w m Hm Hwf) as [Hok _].
    destruct (Hok d w' vs Hone Hans) as (m' & Hr & Hm' & _). now exists (mkMachine w' m').
  - intros f w' Hm Hwf Hone.
    destruct (sendRequest_call lib_crypt lib_decrypt lib_pow lib_powf lib_fmodf 1 r w m Hm Hwf) as [_ Herr].
    destruct (Herr f w' Hone) as (m' & Hr). now exists (mkMachine w' m').
Qed.

(** ** Calls *)

Section Call.
Context {S : Type} `{TEEInvoker S}.

(** The local variable of a wrapper that the request's result pointer designates; a string
    buffer starts with length [len]. *)
Definition res_var (len : Z) : ptr := Some (mkCell 0 len).
Definition read_var (vs : list (nat * result)) : M S result :=
  match vs with
  | (O, v) :: _ => retM v
  | _ => failM Undefined
  end.

(** The body the wrappers share: send, [print_error] on a non-zero response, return the
    result variable. *)
Definition call (r : Request) : M S result :=
  let* '(error, vs) := sendRequest r in
  do* (if error =? 0 then retM tt else failM Raised) in
  read_var vs.
(** The same with the response handed to the caller. *)
Definition call_resp (r : Request) : M S (Z * result) :=
  let* '(resp, vs) := sendRequest r in
  let* v := read_var vs in retM (resp, v).

Definition as_rid (v : result) : M S RID :=
  match v with
  | RRid rid => retM rid
  | _ => failM Undefined
  end.
Definition as_int (v : result) : M S Z :=
  match v with
  | RInt n => retM n
  | _ => failM Undefined
  end.
Definition as_bytes (v : result) : M S bytes :=
  match v with
  | RBytes b => retM b
  | _ => failM Undefined
  end.
Definition call_rid (r : Request) : M S RID := let* v := call r in as_rid v.
Definition call_int (r : Request) : M S Z := let* v := call r in as_int v.
Definition call_bytes (r : Request) : M S bytes := let* v := call r in as_bytes v.

(** [print_error("%s %d", __func__, error)] unless [error] is zero. *)
Definition raise_unless_ok (error : Z) : M S unit := if error =? 0 then retM tt else failM Raised.

(** [send_local_clear_req] of extension.cpp, for the end of a query. *)
Definition send_local_clear_req : M S unit :=
  let* '(error, _) := sendRequest (SingleArgRequest CMD_LOCAL_CLEAR) in raise_unless_ok error.
End Call.

Section CallSpecs.
Context `{Libraries} {S : Type} `{!TEEInvoker S} `{!TEEInvokerLaws S}.

(** [s'] is [s] after the worker's state became [w']. *)
Definition served (s s' : S) (w' : worker) : Prop := connected s' /\ tee s' = w'.

(** A request with the wrapper's result variable. *)
Definition answered (r : Request) (d : req_data) (v : result) : Prop :=
  request_dest r = Some (mkCell 0 (res_len (request_dest r))) /\ request_result r d = Some v /\ result_fits r v.

Lemma answered_answers r d v : answered r d v -> answers r d [(O, v)].
Proof.
  intros (Hd & Hr & Hf). destruct r; cbn in Hr |- *; try discriminate;
    (eexists _, _; split; [exact Hd|]; split; [exact Hr|]; split; [exact Hf|reflexivity]).
Qed.

Lemma call_run r d v s w' : connected s -> wf_request r ->
  tee_handler (request_type r) (request_data r) (tee s) = (Ok d, w') -> answered r d v ->
  exists s', call r s = (Ok v, s') /\ served s s' w'.
Proof.
  intros Hc Hwf Hh Ha. destruct (send_ok r s d w' _ Hc Hwf Hh (answered_answers _ _ _ Ha)) as (s' & Hs & Ht & Hc').
  exists s'. split; [|now split]. unfold call. now rewrite (bindM_run _ _ _ _ _ Hs).
Qed.

Lemma call_resp_run r d v s w' : connected s -> wf_request r ->
  tee_handler (request_type r) (request_data r) (tee s) = (Ok d, w') -> answered r d v ->
  exists s', call_resp r s = (Ok (0, v), s') /\ served s s' w'.
Proof.
  intros Hc Hwf Hh Ha. destruct (send_ok r s d w' _ Hc Hwf Hh (answered_answers _ _ _ Ha)) as (s' & Hs & Ht & Hc').
  exists s'. split; [|now split]. unfold call_resp. now rewrite (bindM_run _ _ _ _ _ Hs).
Qed.

Lemma call_fail r s f w' : connected s -> wf_request r ->
  tee_handler (request_type r) (request_data r) (tee s) = (Err f, w') ->
  exists s', call r s = (Err f, s') /\ tee s' = w'.
Proof.
  intros Hc Hwf Hh. destruct (send_err r s f w' Hc Hwf Hh) as (s' & Hs & Ht).
  exists s'. split; [|exact Ht]. unfold call. now apply bindM_fail.
Qed.

(** After it no local RID stands for a value, and the persistent values are as before. *)
Lemma send_local_clear_run s : connected s -> exists s', send_local_clear_req s = (Ok tt, s') /\ connected s' /\
  forall t key, view (wk_store (tee s')) t key = if islocal key then None else view (wk_store (tee s)) t key.
Proof.
  intros Hc. destruct (send_ok (SingleArgRequest CMD_LOCAL_CLEAR) s SingleArgData
    (snd (on_store (localkv_ops local_clear) (tee s))) [] Hc ltac:(now split) eq_refl ltac:(now split)) as (s' & Hs & Ht & Hc').
  exists s'. split; [unfold send_local_clear_req; now rewrite (bindM_run _ _ _ _ _ Hs)|]. split; [exact Hc'|]. intros t key. rewrite Ht.
  unfold view. destruct (islocal key); [|reflexivity]. assert (0 <= local2idx key) as H0 by apply wf_index_of.
  assert (forall A (k : Z), vlookup (@nil A) k = None) as Hn by (intros A k; unfold vlookup; now destruct (0 <=? k)).
  destruct t; cbn; unfold rs_view; cbn [rs_live rempty]; now rewrite Hn.
Qed.

(** Running an operation of the privacy zone on the worker's stores. *)
Definition tee_store (s : S) : store := wk_store (tee s).
Definition stepped (s s' : S) (st' : store) : Prop := served s s' (with_store (tee s) st').

Lemma stepped_store s s' st' : stepped s s' st' -> tee_store s' = st'.
Proof. intros [_ Ht]. unfold tee_store. now rewrite Ht, wk_store_with. Qed.

Lemma calc_call cmd f i1 i2 rid s st' :
  connected s -> in_u64 i1 -> in_u64 i2 -> command_shape cmd = SCalc ->
  calc_handler lib_pow lib_powf lib_fmodf cmd = Some f -> f i1 i2 (tee_store s) = (Ok rid, st') -> in_u64 rid ->
  exists s', call_rid (CalcRequest cmd i1 i2 (res_var 0)) s = (Ok rid, s') /\ stepped s s' st'.
Proof.
  intros Hc H1 H2 Hsh Hf Hrun Hr.
  destruct (call_run (CalcRequest cmd i1 i2 (res_var 0)) (CalcData i1 i2 rid) (RRid rid) s (with_store (tee s) st'))
    as (s' & Hs & Hst); [exact Hc|now split| |now split_and!|].
  - unfold tee_handler. cbn [request_type request_data Handler.handle_one]. rewrite Hf.
    now rewrite (bindM_run _ _ _ _ _ (on_store_run _ (tee s) _ _ Hrun)).
  - exists s'. split; [|exact Hst]. unfold call_rid. now rewrite (bindM_run _ _ _ _ _ Hs).
Qed.

Lemma calc_call_err cmd f i1 i2 e s st' :
  connected s -> in_u64 i1 -> in_u64 i2 -> command_shape cmd = SCalc ->
  calc_handler lib_pow lib_powf lib_fmodf cmd = Some f -> f i1 i2 (tee_store s) = (Err e, st') ->
  exists s', call_rid (CalcRequest cmd i1 i2 (res_var 0)) s = (Err e, s') /\ tee_store s' = st'.
Proof.
  intros Hc H1 H2 Hsh Hf Hrun.
  destruct (call_fail (CalcRequest cmd i1 i2 (res_var 0)) s e (with_store (tee s) st')) as (s' & Hs & Hst);
    [exact Hc|now split| |].
  - unfold tee_handler. cbn [request_type request_data Handler.handle_one]. rewrite Hf.
    now rewrite (bindM_fail _ _ _ _ _ (on_store_run _ (tee s) _ _ Hrun)).
  - exists s'. split; [unfold call_rid; now apply bindM_fail|]. unfold tee_store. now rewrite Hst, wk_store_with.
Qed.

(** A request whose handler runs an operation on the stores and answers with its RID. *)
Lemma store_call r (f : M store RID) (d : RID -> req_data) rid s st' :
  connected s -> wf_request r ->
  tee_handler (request_type r) (request_data r) (tee s) = (let* x := on_store f in retM (d x)) (tee s) ->
  f (tee_store s) = (Ok rid, st') -> answered r (d rid) (RRid rid) ->
  exists s', call_rid r s = (Ok rid, s') /\ stepped s s' st'.
Proof.
  intros Hc Hwf Hh Hrun Ha. rewrite (bindM_run _ _ _ _ _ (on_store_run _ (tee s) _ _ Hrun)) in Hh.
  destruct (call_run r (d rid) (RRid rid) s (with_store (tee s) st') Hc Hwf Hh Ha) as (s' & Hs & Hst).
  exists s'. split; [|exact Hst]. unfold call_rid. now rewrite (bindM_run _ _ _ _ _ Hs).
Qed.
Lemma store_call_err r (f : M store RID) (d : RID -> req_data) e s st' :
  connected s -> wf_request r ->
  tee_handler (request_type r) (request_data r) (tee s) = (let* x := on_store f in retM (d x)) (tee s) ->
  f (tee_store s) = (Err e, st') -> exists s', call_rid r s = (Err e, s') /\ tee_store s' = st'.
Proof.
  intros Hc Hwf Hh Hrun. rewrite (bindM_fail _ _ _ _ _ (on_store_run _ (tee s) _ _ Hrun)) in Hh.
  destruct (call_fail r s e (with_store (tee s) st') Hc Hwf Hh) as (s' & Hs & Hst).
  exists s'. split; [unfold call_rid; now apply bindM_fail|]. unfold tee_store. now rewrite Hst, wk_store_with.
Qed.

Lemma cmp_call cmd f i1 i2 n s st' :
  connected s -> in_u64 i1 -> in_u64 i2 -> command_shape cmd = SCmp -> cmp_handler cmd = Some f ->
  f i1 i2 (tee_store s) = (Ok n, st') -> in_s32 n ->
  exists s', call_int (CmpRequest cmd i1 i2 (res_var 0)) s = (Ok n, s') /\ stepped s s' st'.
Proof.
  intros Hc H1 H2 Hsh Hf Hrun Hn.
  destruct (call_run (CmpRequest cmd i1 i2 (res_var 0)) (CmpData i1 i2 n) (RInt n) s (with_store (tee s) st'))
    as (s' & Hs & Hst); [exact Hc|now split| |now split_and!|].
  - unfold tee_handler. cbn [request_type request_data Handler.handle_one]. rewrite Hf.
    now rewrite (bindM_run _ _ _ _ _ (on_store_run _ (tee s) _ _ Hrun)).
  - exists s'. split; [|exact Hst]. unfold call_int. now rewrite (bindM_run _ _ _ _ _ Hs).
Qed.

Lemma bulk_call cmd f n keys rid s st' :
  connected s -> 0 <= n <= BULK_SIZE -> n <= Z.of_nat (length keys) -> Forall in_u64 keys ->
  command_shape cmd = SBulk -> bulk_handler cmd = Some f ->
  f (take (Z.to_nat n) keys) (tee_store s) = (Ok rid, st') -> in_u64 rid ->
  exists s', call_rid (BulkRequest cmd n keys (res_var 0)) s = (Ok rid, s') /\ stepped s s' st'.
Proof.
  intros Hc Hn Hk Hu Hsh Hf Hrun Hr.
  destruct (call_run (BulkRequest cmd n keys (res_var 0)) (BulkData n (take (Z.to_nat n) keys) rid) (RRid rid) s
              (with_store (tee s) st')) as (s' & Hs & Hst); [exact Hc|now split| |now split_and!|].
  - unfold tee_handler. cbn [request_type request_data Handler.handle_one]. rewrite Hf.
    rewrite (bindM_run _ _ (tee s) (tee s) tt).
    + rewrite take_take, Nat.min_id.
      now rewrite (bindM_run _ _ _ _ _ (on_store_run _ (tee s) _ _ Hrun)).
    + apply definedM_true. rewrite !andb_true_iff, !Z.leb_le, length_take. lia.
  - exists s'. split; [|exact Hst]. unfold call_rid. now rewrite (bindM_run _ _ _ _ _ Hs).
Qed.
End CallSpecs.

(** ** Values in and out *)

(** What the encryption library documents. *)
Class CryptoLaws `{Libraries} : Prop := {
  crypto_documented : gcm_documented lib_crypt lib_decrypt;
}.

(** The bodies the input and output functions share, per value type: encrypt in the privacy
    zone, raise on an error, store the ciphertext; fetch a ciphertext, decrypt it. *)
Definition put_enc_cmd (t : vtype) : Z :=
  match t with
  | TInt => CMD_INT_PUT_ENC
  | TFloat => CMD_FLOAT_PUT_ENC
  | TTimestamp => CMD_TIMESTAMP_PUT_ENC
  | TText => CMD_STRING_PUT_ENC
  end.
Definition get_enc_cmd (t : vtype) : Z :=
  match t with
  | TInt => CMD_INT_GET_ENC
  | TFloat => CMD_FLOAT_GET_ENC
  | TTimestamp => CMD_TIMESTAMP_GET_ENC
  | TText => CMD_STRING_GET_ENC
  end.
Definition enc_cmd (t : vtype) : Z :=
  match t with
  | TInt => CMD_INT_ENC
  | TFloat => CMD_FLOAT_ENC
  | TTimestamp => CMD_TIMESTAMP_ENC
  | TText => CMD_STRING_ENC
  end.
Definition dec_cmd (t : vtype) : Z :=
  match t with
  | TInt => CMD_INT_DEC
  | TFloat => CMD_FLOAT_DEC
  | TTimestamp => CMD_TIMESTAMP_DEC
  | TText => CMD_STRING_DEC
  end.

Section Values.
Context `{CryptoLaws} {S : Type} `{!TEEInvoker S} `{!TEEInvokerLaws S}.

Definition encrypt_value_call (t : vtype) (plain : bytes) : M S (Z * bytes) :=
  let* '(resp, v) := call_resp (EncRequest t (enc_cmd t) plain (res_var 0)) in
  let* c := as_bytes v in retM (resp, c).
Definition decrypt_value_call (t : vtype) (cipher : bytes) : M S (Z * bytes) :=
  let* '(resp, v) := call_resp (DecRequest t (dec_cmd t) cipher (res_var 0)) in
  let* p := as_bytes v in retM (resp, p).
Definition put_enc_call (t : vtype) (cipher : bytes) : M S RID :=
  call_rid (PutEncIntoKVRequest t (put_enc_cmd t) cipher (res_var 0)).
Definition get_enc_call (t : vtype) (rid : RID) : M S bytes :=
  call_bytes (GetEncFromKVRequest t (get_enc_cmd t) rid (res_var 0)).

(** A connection in working order. *)
Record healthy (s : S) : Prop := {
  h_connected : connected s;
  h_nonce : nonce_ok (wk_iv (tee s));
  h_store : store_ok (tee_store s);
}.

(** Whether the library encrypts the value with the worker's next nonce. *)
Definition can_encrypt (s : S) {t : vtype} (v : vty t) : bool := encrypts lib_crypt (wk_iv (tee s)) (to_bytes v).

Lemma ciphers_fits t (v : vty t) c : ciphers lib_decrypt v c -> fits_request v -> enc_fits t c.
Proof.
  intros [Hl _] Hf. unfold enc_fits, blen. rewrite Hl.
  destruct t; cbn [to_bytes fits_request] in *; rewrite ?length_le_bytes; try reflexivity.
  unfold IV_SIZE, TAG_SIZE in *. lia.
Qed.

Lemma value_fits t (v : vty t) : fits_request v -> plain_fits t (to_bytes v).
Proof. destruct t; cbn [to_bytes fits_request plain_fits]; intros Hf; try reflexivity. exact Hf. Qed.

Lemma encrypt_spec t (v : vty t) s : healthy s -> can_encrypt s v = true -> fits_request v ->
  exists c s', encrypt_value_call t (to_bytes v) s = (Ok (0, c), s') /\ ciphers lib_decrypt v c /\ healthy s' /\
    tee_store s' = tee_store s.
Proof.
  intros [Hc Hn Hs] Henc Hf.
  destruct (handle_enc_run lib_crypt lib_decrypt t v (tee s) crypto_documented Henc Hn Hf) as (c & He & Hci).
  destruct (call_resp_run (EncRequest t (enc_cmd t) (to_bytes v) (res_var 0)) (EncData (to_bytes v) c) (RBytes c) s
              (with_iv (tee s) (increment (wk_iv (tee s))))) as (s' & Hr & Hst); [exact Hc| | | |].
  - split; [now destruct t|now apply value_fits].
  - unfold tee_handler. cbn [request_type request_data Handler.handle_one].
    replace (enc_type (enc_cmd t)) with (Some t) by now destruct t. now rewrite (bindM_run _ _ _ _ _ He).
  - split_and!; [reflexivity|reflexivity|now apply (ciphers_fits t v)].
  - destruct Hst as [Hc' Ht]. exists c, s'. split; [|split; [exact Hci|split]].
    + unfold encrypt_value_call. now rewrite (bindM_run _ _ _ _ _ Hr).
    + split; [exact Hc'| |]; [rewrite Ht; now apply nonce_ok_increment|].
      unfold tee_store in *. now rewrite Ht.
    + unfold tee_store. now rewrite Ht.
Qed.

Lemma encrypt_fails t (v : vty t) s : healthy s -> can_encrypt s v = false -> fits_request v ->
  exists s', encrypt_value_call t (to_bytes v) s = (Err Fatal, s').
Proof.
  intros [Hc Hn Hs] Henc Hf.
  assert (Hwf : wf_request (EncRequest t (enc_cmd t) (to_bytes v) (res_var 0))) by (split; [now destruct t|now apply value_fits]).
  destruct (send_err (EncRequest t (enc_cmd t) (to_bytes v) (res_var 0)) s Fatal (with_iv (tee s) (increment (wk_iv (tee s)))) Hc Hwf)
    as (s' & Hr & _).
  - unfold tee_handler. cbn [request_type request_data Handler.handle_one].
    replace (enc_type (enc_cmd t)) with (Some t) by now destruct t.
    exact (bindM_fail _ _ _ _ _ (handle_enc_fails lib_crypt t v (tee s) Henc Hf)).
  - exists s'. unfold encrypt_value_call, call_resp. exact (bindM_fail _ _ _ _ _ (bindM_fail _ _ _ _ _ Hr)).
Qed.

Lemma put_enc_call_spec t (v : vty t) c s : healthy s -> local_room (tee_store s) t -> wf_value v -> fits_request v ->
  ciphers lib_decrypt v c ->
  exists rid s', put_enc_call t c s = (Ok rid, s') /\ healthy s' /\ islocal rid = true /\
    stored (tee_store s) (tee_store s') t v rid.
Proof.
  intros [Hc Hn Hs] Hroom Hwf Hf Hci.
  destruct (put_enc_spec lib_decrypt t v c (tee s) Hs Hroom Hwf Hf (proj1 Hci) (proj2 Hci)) as (rid & st' & He & Hl & Hst).
  destruct (call_run (PutEncIntoKVRequest t (put_enc_cmd t) c (res_var 0)) (PutEncData rid c) (RRid rid) s
              (with_store (tee s) st')) as (s' & Hr & Hc' & Ht); [exact Hc| | | |].
  - split; [now destruct t|now apply (ciphers_fits t v)].
  - unfold tee_handler. cbn [request_type request_data Handler.handle_one].
    replace (put_enc_type (put_enc_cmd t)) with (Some t) by now destruct t. now rewrite (bindM_run _ _ _ _ _ He).
  - split_and!; [reflexivity|reflexivity|apply (stored_u64 _ _ _ _ _ Hst)].
  - assert (Hts : tee_store s' = st') by (unfold tee_store; now rewrite Ht, wk_store_with).
    exists rid, s'. split; [|split; [|split; [exact Hl|now rewrite Hts]]].
    + unfold put_enc_call, call_rid. now rewrite (bindM_run _ _ _ _ _ Hr).
    + split; [exact Hc'|now rewrite Ht|rewrite Hts; apply (stored_ok _ _ _ _ _ Hst)].
Qed.

Lemma get_enc_call_spec t (v : vty t) rid s : healthy s -> can_encrypt s v = true -> in_u64 rid -> view (tee_store s) t rid = Some v ->
  fits_request v ->
  exists c s', get_enc_call t rid s = (Ok c, s') /\ ciphers lib_decrypt v c /\ healthy s' /\
    st_equiv (tee_store s) (tee_store s').
Proof.
  intros [Hc Hn Hs] Henc Hu Hv Hf.
  destruct (handle_get_enc_run lib_crypt lib_decrypt t v rid (tee s) crypto_documented Henc Hn Hf Hs Hv)
    as (c & st' & He & Hci & Hok' & Heq).
  set (w' := with_iv (with_store (tee s) st') (increment (wk_iv (tee s)))) in *.
  destruct (call_run (GetEncFromKVRequest t (get_enc_cmd t) rid (res_var 0)) (GetEncData c rid) (RBytes c) s w')
    as (s' & Hr & Hc' & Ht); [exact Hc| | | |].
  - split; [now destruct t|exact Hu].
  - unfold tee_handler. cbn [request_type request_data Handler.handle_one].
    replace (get_enc_type (get_enc_cmd t)) with (Some t) by now destruct t. now rewrite (bindM_run _ _ _ _ _ He).
  - split_and!; [reflexivity|reflexivity|now apply (ciphers_fits t v)].
  - assert (Hts : tee_store s' = st') by (unfold tee_store; rewrite Ht; apply (wk_store_with (tee s) st')).
    exists c, s'. split; [|split; [exact Hci|split; [|now rewrite Hts]]].
    + unfold get_enc_call, call_bytes. now rewrite (bindM_run _ _ _ _ _ Hr).
    + split; [exact Hc'|rewrite Ht; now apply nonce_ok_increment|now rewrite Hts].
Qed.

Lemma get_enc_fails t (v : vty t) rid s : healthy s -> can_encrypt s v = false -> in_u64 rid -> view (tee_store s) t rid = Some v ->
  fits_request v -> exists s', get_enc_call t rid s = (Err Fatal, s').
Proof.
  intros [Hc Hn Hs] Henc Hu Hv Hf.
  destruct (handle_get_enc_fails lib_crypt t v rid (tee s) Henc Hf Hs Hv) as (w' & Hw).
  assert (Hwf : wf_request (GetEncFromKVRequest t (get_enc_cmd t) rid (res_var 0))) by (split; [now destruct t|exact Hu]).
  destruct (call_fail (GetEncFromKVRequest t (get_enc_cmd t) rid (res_var 0)) s Fatal w' Hc Hwf)
    as (s' & Hr & _).
  - unfold tee_handler. cbn [request_type request_data Handler.handle_one].
    replace (get_enc_type (get_enc_cmd t)) with (Some t) by now destruct t. exact (bindM_fail _ _ _ _ _ Hw).
  - exists s'. unfold get_enc_call, call_bytes. exact (bindM_fail _ _ _ _ _ Hr).
Qed.

Lemma decrypt_spec t (v : vty t) c s : healthy s -> fits_request v -> ciphers lib_decrypt v c ->
  exists s', decrypt_value_call t c s = (Ok (0, to_bytes v), s') /\ healthy s' /\ tee_store s' = tee_store s.
Proof.
  intros [Hc Hn Hs] Hf Hci.
  destruct (call_resp_run (DecRequest t (dec_cmd t) c (res_var 0)) (DecData c (to_bytes v)) (RBytes (to_bytes v)) s
              (with_iv (tee s) (wk_iv (tee s)))) as (s' & Hr & Hc' & Ht); [exact Hc| | | |].
  - split; [now destruct t|now apply (ciphers_fits t v)].
  - unfold tee_handler. cbn [request_type request_data Handler.handle_one].
    replace (dec_type (dec_cmd t)) with (Some t) by now destruct t.
    now rewrite (bindM_run _ _ _ _ _ (handle_dec_run lib_decrypt t v c (tee s) Hci Hf)).
  - split_and!; [reflexivity|reflexivity|now apply value_fits].
  - assert (Hts : tee_store s' = tee_store s) by (unfold tee_store; now rewrite Ht).
    exists s'. split; [|split; [|exact Hts]].
    + unfold decrypt_value_call. now rewrite (bindM_run _ _ _ _ _ Hr).
    + split; [exact Hc'|now rewrite Ht|now rewrite Hts].
Qed.

(** Encrypt and store. *)
Lemma insert_spec t (v : vty t) s : healthy s -> can_encrypt s v = true -> local_room (tee_store s) t -> wf_value v -> fits_request v ->
  exists rid s', (let* '(error, c) := encrypt_value_call t (to_bytes v) in
                  do* raise_unless_ok error in put_enc_call t c) s = (Ok rid, s') /\
    healthy s' /\ islocal rid = true /\ stored (tee_store s) (tee_store s') t v rid.
Proof.
  intros Hh Henc Hroom Hwf Hf. destruct (encrypt_spec t v s Hh Henc Hf) as (c & s1 & H1 & Hci & Hh1 & Hs1).
  destruct (put_enc_call_spec t v c s1 Hh1 ltac:(now rewrite Hs1) Hwf Hf Hci) as (rid & s' & H2 & Hh' & Hl & Hst).
  exists rid, s'. split; [|rewrite <- Hs1; now split_and!]. rewrite (bindM_run _ _ _ _ _ H1). exact H2.
Qed.

(** The same when the response of the encryption is not looked at. *)
Lemma insert_unchecked_spec t (v : vty t) s :
  healthy s -> can_encrypt s v = true -> local_room (tee_store s) t -> wf_value v -> fits_request v ->
  exists rid s', (let* '(_, c) := encrypt_value_call t (to_bytes v) in put_enc_call t c) s = (Ok rid, s') /\
    healthy s' /\ islocal rid = true /\ stored (tee_store s) (tee_store s') t v rid.
Proof.
  intros Hh Henc Hroom Hwf Hf. destruct (encrypt_spec t v s Hh Henc Hf) as (c & s1 & H1 & Hci & Hh1 & Hs1).
  destruct (put_enc_call_spec t v c s1 Hh1 ltac:(now rewrite Hs1) Hwf Hf Hci) as (rid & s' & H2 & Hh' & Hl & Hst).
  exists rid, s'. split; [|rewrite <- Hs1; now split_and!]. rewrite (bindM_run _ _ _ _ _ H1). exact H2.
Qed.

(** Fetch and decrypt. *)
Lemma fetch_spec t (v : vty t) rid s : healthy s -> can_encrypt s v = true -> in_u64 rid -> view (tee_store s) t rid = Some v -> fits_request v ->
  exists s', (let* c := get_enc_call t rid in let* '(error, p) := decrypt_value_call t c in
              do* raise_unless_ok error in retM p) s = (Ok (to_bytes v), s') /\
    healthy s' /\ st_equiv (tee_store s) (tee_store s').
Proof.
  intros Hh Henc Hu Hv Hf. destruct (get_enc_call_spec t v rid s Hh Henc Hu Hv Hf) as (c & s1 & H1 & Hci & Hh1 & Hs1).
  destruct (decrypt_spec t v c s1 Hh1 Hf Hci) as (s' & H2 & Hh' & Hs').
  exists s'. split; [|split; [exact Hh'|now rewrite Hs']].
  now rewrite (bindM_run _ _ _ _ _ H1), (bindM_run _ _ _ _ _ H2).
Qed.

(** Fetch, decrypt and read the bytes as a value. *)
Lemma fetch_typed_spec t (v : vty t) rid s :
  healthy s -> can_encrypt s v = true -> in_u64 rid -> view (tee_store s) t rid = Some v -> fits_request v -> wf_value v ->
  exists s', (let* c := get_enc_call t rid in
              let* '(error, x) := (let* '(resp, x) := call_resp (DecRequest t (dec_cmd t) c (res_var 0)) in
                                   let* p := as_bytes x in retM (resp, of_bytes (t := t) p)) in
              do* raise_unless_ok error in retM x) s = (Ok v, s') /\
    healthy s' /\ st_equiv (tee_store s) (tee_store s').
Proof.
  intros Hh Henc Hu Hv Hf Hwf. destruct (get_enc_call_spec t v rid s Hh Henc Hu Hv Hf) as (c & s1 & Hg & Hci & Hh1 & Hs1).
  destruct (decrypt_spec t v c s1 Hh1 Hf Hci) as (s' & Hd & Hh' & Hs').
  exists s'. split; [|split; [exact Hh'|now rewrite Hs']]. rewrite (bindM_run _ _ _ _ _ Hg).
  unfold decrypt_value_call in Hd. apply bindM_ok in Hd as ([resp x] & s2 & Hc & Hk).
  rewrite bindM_assoc, (bindM_run _ _ _ _ _ Hc). apply bindM_ok in Hk as (p & s3 & Hb & Hk).
  rewrite bindM_assoc, (bindM_run _ _ _ _ _ Hb). unfold retM in Hk. injection Hk as -> -> ->.
  unfold bindM, retM, raise_unless_ok. now rewrite of_to_bytes.
Qed.
End Values.

(** ** Requests on stored values *)

Section StoreRequests.
Context `{Libraries} {S : Type} `{!TEEInvoker S} `{!TEEInvokerLaws S}.

Lemma healthy_stepped (s s' : S) st' : healthy s -> stepped s s' st' -> store_ok st' -> healthy s'.
Proof.
  intros [_ Hn _] Hst Hok. split; [apply Hst| |].
  - rewrite (proj2 Hst). exact Hn.
  - now rewrite (stepped_store _ _ _ Hst).
Qed.

(** A request that computes with two stored values. *)
Lemma calc2_spec {ta tb tc} cmd (f : vty ta -> vty tb -> res (vty tc)) id1 id2 (s : S) a b :
  healthy s -> in_u64 id1 -> in_u64 id2 -> view (tee_store s) ta id1 = Some a -> view (tee_store s) tb id2 = Some b ->
  local_room (tee_store s) tc -> command_shape cmd = SCalc ->
  calc_handler lib_pow lib_powf lib_fmodf cmd = Some (compute2 tc f) ->
  match f a b with
  | Ok v => exists rid s', call_rid (CalcRequest cmd id1 id2 (res_var 0)) s = (Ok rid, s') /\ healthy s' /\
              islocal rid = true /\ stored (tee_store s) (tee_store s') tc v rid
  | Err e => exists s', call_rid (CalcRequest cmd id1 id2 (res_var 0)) s = (Err e, s') /\
               st_equiv (tee_store s) (tee_store s')
  end.
Proof.
  intros Hh Hu1 Hu2 Ha Hb Hroom Hsh Hcalc.
  pose proof (compute2_spec f id1 id2 _ a b (h_store _ Hh) Ha Hb Hroom) as Hc. destruct (f a b) as [v|e].
  - destruct Hc as (rid & st' & Hrun & Hl & Hst).
    destruct (calc_call cmd _ id1 id2 rid s st' (h_connected _ Hh) Hu1 Hu2 Hsh Hcalc Hrun (stored_u64 _ _ _ _ _ Hst))
      as (s' & Hr & Hs').
    exists rid, s'. split; [exact Hr|]. split; [exact (healthy_stepped _ _ _ Hh Hs' (stored_ok _ _ _ _ _ Hst))|].
    split; [exact Hl|]. now rewrite (stepped_store _ _ _ Hs').
  - destruct Hc as (st' & Hrun & He).
    destruct (calc_call_err cmd _ id1 id2 e s st' (h_connected _ Hh) Hu1 Hu2 Hsh Hcalc Hrun) as (s' & Hr & Hs').
    exists s'. split; [exact Hr|]. now rewrite Hs'.
Qed.

(** A request that compares two stored values. *)
Lemma cmp2_spec t cmd (f : vty t -> vty t -> Z) k1 k2 v1 v2 (s : S) :
  healthy s -> in_u64 k1 -> in_u64 k2 -> view (tee_store s) t k1 = Some v1 -> view (tee_store s) t k2 = Some v2 ->
  command_shape cmd = SCmp ->
  cmp_handler cmd = Some (fun l r => let* a := get t l in let* b := get t r in retM (f a b)) -> in_s32 (f v1 v2) ->
  exists s', call_int (CmpRequest cmd k1 k2 (res_var 0)) s = (Ok (f v1 v2), s') /\ healthy s' /\
    st_equiv (tee_store s) (tee_store s').
Proof.
  intros Hh Hu1 Hu2 Hv1 Hv2 Hsh Hcmp Hr.
  destruct (get_spec _ t k1 v1 (h_store _ Hh) Hv1) as (s1 & Hg1 & Hok1 & He1).
  destruct (get_spec s1 t k2 v2 Hok1) as (s2 & Hg2 & Hok2 & He2); [now rewrite (view_equiv _ _ _ _ He1)|].
  destruct (cmp_call cmd _ k1 k2 (f v1 v2) s s2 (h_connected _ Hh) Hu1 Hu2 Hsh Hcmp) as (s' & Hrun & Hs').
  - now rewrite (bindM_run _ _ _ _ _ Hg1), (bindM_run _ _ _ _ _ Hg2).
  - exact Hr.
  - exists s'. split; [exact Hrun|]. split; [exact (healthy_stepped _ _ _ Hh Hs' Hok2)|].
    rewrite (stepped_store _ _ _ Hs'). etransitivity; eassumption.
Qed.

(** A bulk request. *)
Lemma bulk_request_call t cmd f (keys : list RID) (v : vty t) (s : S) :
  healthy s -> Forall in_u64 keys -> (length keys <= 256)%nat -> command_shape cmd = SBulk -> bulk_handler cmd = Some f ->
  (exists rid st', f keys (tee_store s) = (Ok rid, st') /\ summed t (tee_store s) st' keys rid v) ->
  exists rid s', call_rid (BulkRequest cmd (s32 (Z.of_nat (length keys))) keys (res_var 0)) s = (Ok rid, s') /\
    healthy s' /\ summed t (tee_store s) (tee_store s') keys rid v.
Proof.
  intros Hh Hu Hlen Hsh Hf (rid & st' & Hrun & Hsum). rewrite s32_small by (unfold in_s32; lia).
  destruct (bulk_call cmd f (Z.of_nat (length keys)) keys rid s st' (h_connected _ Hh)) as (s' & Hr & Hs');
    try assumption; try (unfold BULK_SIZE; lia).
  - rewrite Nat2Z.id, firstn_all. exact Hrun.
  - apply (sum_u64 _ _ _ _ _ _ Hsum).
  - exists rid, s'. split; [exact Hr|]. split; [exact (healthy_stepped _ _ _ Hh Hs' (sum_ok _ _ _ _ _ _ Hsum))|].
    now rewrite (stepped_store _ _ _ Hs').
Qed.

(** A plain value for the persistent store. *)
Definition put_cmd (t : vtype) : Z :=
  match t with
  | TInt => CMD_INT_PUT
  | TFloat => CMD_FLOAT_PUT
  | TTimestamp => CMD_TIMESTAMP_PUT
  | TText => CMD_TEXT_PUT
  end.
Lemma plain_put_spec t (v : vty t) (s : S) :
  healthy s -> t <> TText -> wf_value v -> room (tee_store s) t v false RID_DEFAULT_PARTITION ->
  exists rid s', call_rid (PutPlainIntoKVRequest t (put_cmd t) (to_bytes v) (res_var 0)) s = (Ok rid, s') /\
    healthy s' /\ islocal rid = false /\ stored (tee_store s) (tee_store s') t v rid /\
    st_local (tee_store s') = st_local (tee_store s).
Proof.
  intros Hh Ht Hwf Hroom.
  destruct (put_global_spec _ t v RID_DEFAULT_PARTITION (h_store _ Hh) Hroom) as (rid & st' & Hrun & Hg & _ & Hst & Hloc & _).
  destruct (call_run (PutPlainIntoKVRequest t (put_cmd t) (to_bytes v) (res_var 0))
              (KVData (sizeof (KVFakeData t)) rid (to_bytes v)) (RRid rid) s (with_store (tee s) st'))
    as (s' & Hr & Hs'); [apply Hh| | | |].
  - split; [now destruct t|]. destruct t; try contradiction; now split.
  - unfold tee_handler. cbn [request_type request_data Handler.handle_one].
    replace (put_type (put_cmd t)) with (Some t) by now destruct t.
    replace (match t with TText => until_zero (to_bytes v) | _ => to_bytes v end) with (to_bytes v)
      by now destruct t.
    rewrite of_to_bytes by exact Hwf. now rewrite (bindM_run _ _ _ _ _ (on_store_run _ (tee s) _ _ Hrun)).
  - split_and!; [reflexivity|reflexivity|apply (stored_u64 _ _ _ _ _ Hst)].
  - exists rid, s'. split; [unfold call_rid; now rewrite (bindM_run _ _ _ _ _ Hr)|].
    split; [exact (healthy_stepped _ _ _ Hh Hs' (stored_ok _ _ _ _ _ Hst))|]. split; [exact Hg|].
    rewrite (stepped_store _ _ _ Hs'). now split.
Qed.
End StoreRequests.

Lemma three_way_range a b : in_s32 (three_way a b).
Proof. unfold three_way, in_s32. destruct (b <? a), (a <? b); lia. Qed.

(** ** A connection to run the functions on *)

(** The identity cipher of [Crypto] and constant numeric functions. *)
#[export] Instance demo_libraries : Libraries := {
  lib_crypt := null_crypt;
  lib_decrypt := null_decrypt;
  lib_pow x _ := x;
  lib_powf x _ := x;
  lib_fmodf x _ := x;
}.
#[export] Instance demo_crypto : CryptoLaws := {
  crypto_documented := null_documented;
}.
Definition idle_region : bytes := replicate (Z.to_nat Shm.REQ_REGION_SIZE) 0.
Lemma idle_region_ok : region_ok idle_region.
Proof. unfold region_ok, idle_region, blen. rewrite length_replicate. apply Z2Nat.id. vm_compute. congruence. Qed.

Lemma machine_healthy w : nonce_ok (wk_iv w) -> store_ok (wk_store w) -> healthy (mkMachine w idle_region).
Proof. intros Hn Hs. split; [exact idle_region_ok|exact Hn|exact Hs]. Qed.

Definition machine_0 : machine := mkMachine fresh_worker idle_region.
Lemma machine_0_healthy : healthy machine_0.
Proof. apply machine_healthy; [exact fresh_nonce|apply st_empty_ok]. Qed.


(** A worker that holds two local values of each type: 7 and 3, 1.0 and 3.0, 0 and 100,
    "ab" and "b". *)
Definition pairs : store :=
  mkStore (mkLocalKV (rpair 7 3) (rpair 1065353216 1077936128) (rpair 0 100) (rpair [97; 98] [98])) kv_empty.
Definition machine_pairs : machine := mkMachine (with_store fresh_worker pairs) idle_region.
Lemma machine_pairs_healthy : healthy machine_pairs.
Proof.
  apply machine_healthy; [exact fresh_nonce|]. rewrite wk_store_with. split; [|apply st_empty_ok].
  repeat split; apply rpair_ok.
Qed.

(** A comparison of the two integers through a region filled with ones. *)
Lemma sendRequest_refines_handler_witness :
  let r := CmpRequest CMD_INT_CMP (idx2local 0) (idx2local 1) (res_var 0) in
  let m := replicate (Z.to_nat Shm.REQ_REGION_SIZE) 1 in
  exists m' w', Region.sendRequest lib_crypt lib_decrypt lib_pow lib_powf lib_fmodf 1 r
      (mkMachine (with_store fresh_worker pairs) m) = (Ok (0, [(O, RInt 1)]), mkMachine w' m') /\ region_ok m' /\
    load_int BASE_status m' = (Ok ST_NONE, m').
Proof.
  intros r m.
  assert (Hm : region_ok m) by (unfold region_ok, m, blen; rewrite length_replicate; apply Z2Nat.id; vm_compute; congruence).
  assert (Hwf : wf_request r) by (split; [reflexivity|]; split; vm_compute; split; congruence).
  pose proof (sendRequest_refines_handler lib_crypt lib_decrypt lib_pow lib_powf lib_fmodf 1 r
    (with_store fresh_worker pairs) m Hm Hwf) as Ht.
  clearbody m. destruct (Handler.handle_ops _ _ _ _ _ _ _) as [[q|f] w'] eqn:E in Ht; vm_compute in E; [|discriminate].
  injection E as <- <-. destruct (Ht [(O, RInt 1)]) as (m' & Hr & Hm').
  - eexists _, _. split; [reflexivity|]. split; [reflexivity|]. split; [vm_compute; split; congruence|reflexivity].
  - eexists m', _. split; [exact Hr|exact Hm'].
Defined.
