(* ===== verification/Fmt.v ===== *)
(** Character strings and the [printf] conversions the data generator uses: [%s], [%c], [%d]
    and its wider forms, and zero padding. *)
From Stdlib Require Import String Ascii.
From S2P Require Import Prelude.

(** The bytes of a literal. *)
Fixpoint str (s : string) : bytes :=
  match s with
  | EmptyString => []
  | String c s' => Z.of_N (N_of_ascii c) :: str s'
  end.

Definition digit (d : Z) : Z := 48 + d.

(** The decimal digits of [n >= 0], before [acc]. *)
Fixpoint digits_acc (fuel : nat) (n : Z) (acc : bytes) : bytes :=
  match fuel with
  | O => acc
  | S f => if n <? 10 then digit n :: acc else digits_acc f (n / 10) (digit (n mod 10) :: acc)
  end.
(** Twenty digits are enough for 64 bits. *)
Definition digits (n : Z) : bytes := digits_acc 20 n [].

Definition pad0 (w : nat) (l : bytes) : bytes := replicate (w - length l) 48 ++ l.

(** [%0<w>d] *)
Definition fmt_dec (w : nat) (n : Z) : bytes :=
  if n <? 0 then 45 :: pad0 (w - 1) (digits (- n)) else pad0 w (digits n).
(** [%d] *)
Definition fmt_int : Z -> bytes := fmt_dec 0.

(** [strlen] of a list without terminator. *)
Definition strlen (l : bytes) : Z := Z.of_nat (length l).

(** ** Reading numbers back *)

Definition is_digit (c : Z) : bool := (48 <=? c) && (c <=? 57).
Definition dec_step (acc c : Z) : Z := 10 * acc + (c - 48).
Definition dec_value (l : bytes) : Z := fold_left dec_step l 0.
(** The number a sign and digits stand for. *)
Definition parse_int (l : bytes) : option Z :=
  match l with
  | [] => None
  | c :: l' =>
      if c =? 45 then match l' with [] => None | _ => if forallb is_digit l' then Some (- dec_value l') else None end
      else if forallb is_digit l then Some (dec_value l) else None
  end.

Lemma digit_is_digit d : 0 <= d < 10 -> is_digit (digit d) = true.
Proof. intros. unfold is_digit, digit. apply andb_true_iff. lia. Qed.

Lemma digits_acc_digits fuel : forall n acc, 0 <= n -> forallb is_digit acc = true ->
  forallb is_digit (digits_acc fuel n acc) = true.
Proof.
  induction fuel as [|f IH]; intros n acc Hn Hacc; cbn [digits_acc]; [exact Hacc|].
  destruct (Z.ltb_spec n 10).
  - cbn [forallb]. rewrite digit_is_digit by lia. exact Hacc.
  - apply IH; [apply Z.div_pos; lia|]. cbn [forallb].
    rewrite digit_is_digit by (apply Z.mod_pos_bound; lia). exact Hacc.
Qed.

Lemma digits_digits n : 0 <= n -> forallb is_digit (digits n) = true.
Proof. intros Hn. now apply digits_acc_digits. Qed.

Lemma digits_acc_value fuel : forall n acc, 0 <= n < 10 ^ Z.of_nat fuel ->
  dec_value (digits_acc fuel n acc) = fold_left dec_step acc n.
Proof.
  induction fuel as [|f IH]; intros n acc Hn; cbn [digits_acc].
  - change (10 ^ Z.of_nat 0) with 1 in Hn. now replace n with 0 by lia.
  - destruct (Z.ltb_spec n 10) as [Hlt|Hge].
    + unfold dec_value, digit. cbn [fold_left]. f_equal. unfold dec_step. lia.
    + rewrite IH.
      * cbn [fold_left]. f_equal. unfold dec_step, digit. pose proof (Z.div_mod n 10). lia.
      * rewrite Nat2Z.inj_succ, Z.pow_succ_r in Hn by lia.
        split; [apply Z.div_pos; lia|apply Z.div_lt_upper_bound; lia].
Qed.

Lemma dec_value_digits n : 0 <= n < 10 ^ 20 -> dec_value (digits n) = n.
Proof. intros Hn. unfold digits. now rewrite digits_acc_value. Qed.

Lemma digits_acc_nonempty f n acc : digits_acc (S f) n acc <> [].
Proof.
  revert n acc. induction f as [|f IH]; intros n acc; cbn [digits_acc]; destruct (n <? 10); try discriminate.
  apply IH.
Qed.

Lemma digits_nonempty n : digits n <> [].
Proof. apply digits_acc_nonempty. Qed.

Lemma dec_value_app l1 l2 : dec_value (l1 ++ l2) = fold_left dec_step l2 (dec_value l1).
Proof. apply fold_left_app. Qed.

Lemma dec_value_zeros k l : dec_value (replicate k 48 ++ l) = dec_value l.
Proof. induction k as [|k IH]; [reflexivity|]. exact IH. Qed.

Lemma pad0_digits w n : 0 <= n < 10 ^ 20 ->
  forallb is_digit (pad0 w (digits n)) = true /\ dec_value (pad0 w (digits n)) = n.
Proof.
  intros Hn. unfold pad0. split.
  - rewrite forallb_app, digits_digits, andb_true_r by lia. now induction (w - _)%nat.
  - now rewrite dec_value_zeros, dec_value_digits.
Qed.

(** Numbers read back, padded or not. *)
Lemma parse_fmt_dec w n : - 10 ^ 20 < n < 10 ^ 20 -> parse_int (fmt_dec w n) = Some n.
Proof.
  intros Hn. unfold fmt_dec. destruct (Z.ltb_spec n 0).
  - destruct (pad0_digits (w - 1) (- n) ltac:(lia)) as [Hd Hv]. unfold parse_int.
    change (45 =? 45) with true. cbv iota.
    destruct (pad0 (w - 1) (digits (- n))) as [|c l] eqn:E.
    + exfalso. apply (digits_nonempty (- n)). unfold pad0 in E. now apply app_eq_nil in E.
    + rewrite Hd, Hv. f_equal. lia.
  - destruct (pad0_digits w n ltac:(lia)) as [Hd Hv]. unfold parse_int.
    destruct (pad0 w (digits n)) as [|c l] eqn:E.
    + exfalso. apply (digits_nonempty n). unfold pad0 in E. now apply app_eq_nil in E.
    + assert (Hc : c =? 45 = false).
      { cbn [forallb] in Hd. apply andb_true_iff in Hd as [Hd _]. unfold is_digit in Hd. apply Z.eqb_neq.
        apply andb_true_iff in Hd. lia. }
      now rewrite Hc, Hd, Hv.
Qed.

(** Numbers contain digits and a sign only. *)
Lemma fmt_dec_chars w n c : in_s64 n -> c ∈ fmt_dec w n -> c = 45 \/ 48 <= c <= 57.
Proof.
  unfold in_s64. intros Hn Hc.
  assert (Hdig : forall l, forallb is_digit l = true -> c ∈ l -> 48 <= c <= 57).
  { intros l Hl Hin. rewrite forallb_forall in Hl. apply list_elem_of_In in Hin. specialize (Hl c Hin).
    unfold is_digit in Hl. apply andb_true_iff in Hl. lia. }
  unfold fmt_dec in Hc. destruct (Z.ltb_spec n 0).
  - apply elem_of_cons in Hc as [->|Hc]; [auto|right]. apply (Hdig _ (proj1 (pad0_digits (w - 1) (- n) ltac:(lia))) Hc).
  - right. apply (Hdig _ (proj1 (pad0_digits w n ltac:(lia))) Hc).
Qed.

Lemma fmt_dec_nonneg w n : 0 <= n < 10 ^ 20 -> exists x l, fmt_dec w n = x :: l /\ x <> 45.
Proof.
  intros Hn. unfold fmt_dec. rewrite (proj2 (Z.ltb_ge n 0)) by lia.
  destruct (pad0 w (digits n)) as [|x l] eqn:E.
  - exfalso. apply (digits_nonempty n). unfold pad0 in E. now apply app_eq_nil in E.
  - exists x, l. split; [reflexivity|]. destruct (pad0_digits w n Hn) as [Hd _]. rewrite E in Hd.
    cbn in Hd. apply andb_true_iff in Hd as [Hd _]. unfold is_digit in Hd. apply andb_true_iff in Hd. lia.
Qed.

Lemma length_digits_acc fuel : forall n acc w, 0 <= n < 10 ^ Z.of_nat (S w) ->
  (length (digits_acc fuel n acc) <= S w + length acc)%nat.
Proof.
  induction fuel as [|f IH]; intros n acc w Hn; cbn [digits_acc]; [lia|].
  destruct (Z.ltb_spec n 10) as [Hlt|Hge]; [cbn [length]; lia|].
  destruct w as [|w]; [change (10 ^ Z.of_nat 1) with 10 in Hn; lia|].
  specialize (IH (n / 10) (digit (n mod 10) :: acc) w). cbn [length] in IH.
  rewrite Nat2Z.inj_succ, Z.pow_succ_r in Hn by lia.
  assert (0 <= n / 10 < 10 ^ Z.of_nat (S w)) by (split; [apply Z.div_pos; lia|apply Z.div_lt_upper_bound; lia]).
  lia.
Qed.

(** A 64-bit number takes at most twenty characters. *)
Lemma fmt_int_short n : in_s64 n -> (length (fmt_int n) <= 20)%nat.
Proof.
  intros Hn. unfold in_s64 in Hn.
  assert (Hd : forall m, 0 <= m <= 2 ^ 63 -> (length (digits m) <= 19)%nat).
  { intros m Hm. pose proof (length_digits_acc 20 m [] 18 ltac:(change (10 ^ Z.of_nat 19) with (10 ^ 19); lia)) as Hl.
    cbn [length] in Hl. unfold digits. lia. }
  unfold fmt_int, fmt_dec, pad0. destruct (Z.ltb_spec n 0); cbn [length]; rewrite length_app, length_replicate.
  - specialize (Hd (- n)). lia.
  - specialize (Hd n). lia.
Qed.
