(* ===== verification/Clib.v ===== *)
(** What the integrity zone uses of the C library: [isspace], [atoi], [strtod], [sprintf] with
    [%d] and [%f]; and the interface of PostgreSQL's message format. Strings are the bytes
    before the terminator. *)
From Stdlib Require Import SpecFloat.
From S2P Require Import Prelude Fmt Tee F32 Crypto Wal.

(** ** Characters *)

Definition isspace (c : Z) : bool := (c =? 32) || ((9 <=? c) && (c <=? 13)).
Fixpoint skip_spaces (l : bytes) : bytes :=
  match l with
  | c :: l' => if isspace c then skip_spaces l' else l
  | [] => []
  end.
Definition tolower (c : Z) : Z := if (65 <=? c) && (c <=? 90) then c + 32 else c.

(** The longest prefix of digits, and what follows it. *)
Fixpoint span_digits (l : bytes) : bytes * bytes :=
  match l with
  | c :: l' => if is_digit c then let '(ds, rest) := span_digits l' in (c :: ds, rest) else ([], l)
  | [] => ([], [])
  end.

(** An optional sign: is it a minus, and the rest. *)
Definition take_sign (l : bytes) : bool * bytes :=
  match l with
  | c :: l' => if c =? 45 then (true, l') else if c =? 43 then (false, l') else (false, l)
  | [] => (false, [])
  end.

(** ** [atoi]: without digits zero, out of range undefined *)
Definition atoi (l : bytes) : res Z :=
  let '(neg, l1) := take_sign (skip_spaces l) in
  let n := dec_value (fst (span_digits l1)) in
  let v := if neg then - n else n in
  if fits_s32 v then Ok v else Err Undefined.

(** ** [strtod] *)

(** [prefix_nocase p l]: [l] starts with [p] up to case; [p] is in lower case. *)
Fixpoint prefix_nocase (p l : bytes) : option bytes :=
  match p, l with
  | [], _ => Some l
  | a :: p', b :: l' => if a =? tolower b then prefix_nocase p' l' else None
  | _ :: _, [] => None
  end.

(** The [double] nearest to [n / d], [d > 0]. *)
Definition nearest_quotient (neg : bool) (n d : positive) : spec_float :=
  let '(q, e, loc) := SFdiv_core_binary 53 1024 (Zpos n) 0 (Zpos d) 0 in
  binary_round_aux 53 1024 neg q e loc.
(** The [double] nearest to [+- m * 10^e10], [m >= 0]. *)
Definition decimal_to_double (neg : bool) (m e10 : Z) : spec_float :=
  match m with
  | Zpos p =>
      if 0 <=? e10 then binary_normalize 53 1024 (cond_Zopp neg (m * 10 ^ e10)) 0 neg
      else nearest_quotient neg p (Z.to_pos (10 ^ (- e10)))
  | _ => S754_zero neg
  end.

(** An exponent [e], sign, digits; without digits there is no exponent. *)
Definition scan_exponent (l : bytes) : Z * bytes :=
  match l with
  | c :: l1 =>
      if tolower c =? 101 then
        let '(neg, l2) := take_sign l1 in
        match span_digits l2 with
        | ([], _) => (0, l)
        | (ds, rest) => (if neg then - dec_value ds else dec_value ds, rest)
        end
      else (0, l)
  | [] => (0, [])
  end.

(** Digits with an optional fraction and exponent: mantissa, decimal exponent, rest; [None]
    without a digit. *)
Definition scan_decimal (l : bytes) : option (Z * Z * bytes) :=
  let '(ip, l1) := span_digits l in
  let '(fp, l2) := match l1 with
                   | 46 :: l' => span_digits l'
                   | _ => ([], l1)
                   end in
  match ip ++ fp with
  | [] => None
  | ds => let '(e, rest) := scan_exponent l2 in Some (dec_value ds, e - Z.of_nat (length fp), rest)
  end.

(** Is the result outside the range: an overflow to infinity, or a non-zero number whose
    nearest [double] is zero or not normal (some libraries do not report a subnormal number
    that is exact). *)
Definition out_of_range (m : Z) (x : spec_float) : bool :=
  match x with
  | S754_infinity _ => true
  | S754_zero _ => negb (m =? 0)
  | S754_finite _ p _ => Zpos p <? 2 ^ 52
  | S754_nan => false
  end.

(** Hexadecimal digits, and [0x] followed by them: mantissa, binary exponent, rest. *)
Definition hex_digit (c : Z) : option Z :=
  if is_digit c then Some (c - 48)
  else let c' := tolower c in if (97 <=? c') && (c' <=? 102) then Some (c' - 87) else None.
Fixpoint span_hex (l : bytes) : list Z * bytes :=
  match l with
  | c :: l' => match hex_digit c with
               | Some d => let '(ds, rest) := span_hex l' in (d :: ds, rest)
               | None => ([], l)
               end
  | [] => ([], [])
  end.
Definition scan_pexponent (l : bytes) : Z * bytes :=
  match l with
  | c :: l1 =>
      if tolower c =? 112 then
        let '(neg, l2) := take_sign l1 in
        match span_digits l2 with
        | ([], _) => (0, l)
        | (ds, rest) => (if neg then - dec_value ds else dec_value ds, rest)
        end
      else (0, l)
  | [] => (0, [])
  end.
Definition scan_hex (l : bytes) : option (Z * Z * bytes) :=
  match prefix_nocase [48; 120] l with
  | None => None
  | Some l0 =>
      let '(ip, l1) := span_hex l0 in
      let '(fp, l2) := match l1 with
                       | 46 :: l' => span_hex l'
                       | _ => ([], l1)
                       end in
      match ip ++ fp with
      | [] => None
      | ds => let '(e, rest) := scan_pexponent l2 in
              Some (fold_left (fun acc d => 16 * acc + d) ds 0, e - 4 * Z.of_nat (length fp), rest)
      end
  end.

(** The characters between parentheses that may follow [nan]. *)
Definition is_nchar (c : Z) : bool :=
  is_digit c || ((97 <=? tolower c) && (tolower c <=? 122)) || (c =? 95).
Fixpoint nan_chars (l : bytes) : option bytes :=
  match l with
  | c :: l' => if c =? 41 then Some l' else if is_nchar c then nan_chars l' else None
  | [] => None
  end.
Definition after_nan (l : bytes) : bytes :=
  match l with
  | 40 :: l' => default l (nan_chars l')
  | _ => l
  end.

(** [strtod]: the value, the rest of the string ([None]: nothing was recognised) and whether
    [errno] became [ERANGE]. *)
Definition strtod (l : bytes) : spec_float * option bytes * bool :=
  let '(neg, l1) := take_sign (skip_spaces l) in
  match prefix_nocase [105; 110; 102; 105; 110; 105; 116; 121] l1 with
  | Some rest => (S754_infinity neg, Some rest, false)
  | None =>
      match prefix_nocase [105; 110; 102] l1 with
      | Some rest => (S754_infinity neg, Some rest, false)
      | None =>
          match prefix_nocase [110; 97; 110] l1 with
          | Some rest => (S754_nan, Some (after_nan rest), false)
          | None =>
              match scan_hex l1 with
              | Some (m, e2, rest) =>
                  let x := binary_normalize 53 1024 (cond_Zopp neg m) e2 neg in (x, Some rest, out_of_range m x)
              | None =>
              match scan_decimal l1 with
              | Some (m, e10, rest) =>
                  let x := decimal_to_double neg m e10 in (x, Some rest, out_of_range m x)
              | None => (S754_zero false, None, false)
              end
              end
          end
      end
  end.

(** ** [%f] *)

(** [n / d] to the nearest integer, ties to even. *)
Definition div_nearest (n d : Z) : Z :=
  let q := n / d in
  let r := n mod d in
  if (2 * r <? d) || ((2 * r =? d) && Z.even q) then q else q + 1.


(** The digits before and after the point of [x * 10^6], for the numbers a [float] has. *)
Definition fmt_fixed6 (n : Z) : bytes :=
  digits_acc 60 (n / 10 ^ 6) [] ++ 46 :: pad0 6 (digits (n mod 10 ^ 6)).
Definition fmt_f (x : spec_float) : bytes :=
  match x with
  | S754_nan => [110; 97; 110]
  | S754_infinity s => (if s then [45] else []) ++ [105; 110; 102]
  | S754_zero s => (if s then [45] else []) ++ fmt_fixed6 0
  | S754_finite s m e =>
      (if s then [45] else []) ++
      fmt_fixed6 (if 0 <=? e then Zpos m * 2 ^ e * 10 ^ 6 else div_nearest (Zpos m * 10 ^ 6) (2 ^ (- e)))
  end.

Example strtod_half : strtod ([32; 45; 49; 46; 53; 101; 50; 120]) = (S754_finite true 5277655813324800 (-45), Some [120], false).
Proof. vm_compute. reflexivity. Qed.
Example fmt_f_third : fmt_f (f32_of_bits 1051372203) = [48; 46; 51; 51; 51; 51; 51; 51].
Proof. reflexivity. Qed.
Example strtod_hex : strtod ([48; 120; 49; 46; 56; 112; 49]) = (S754_finite false 6755399441055744 (-51), Some [], false).
Proof. vm_compute. reflexivity. Qed.
Example strtod_tenth : fst (fst (strtod ([48; 46; 49]))) = S754_finite false 7205759403792794 (-56).
Proof. vm_compute. reflexivity. Qed.
Example strtod_huge : strtod ([49; 101; 52; 48; 48]) = (S754_infinity false, Some [], true).
Proof. vm_compute. reflexivity. Qed.

(** ** PostgreSQL's messages *)

(** What the functions use of PostgreSQL's message format (libpq/pqformat.h). *)
Class PgFormat : Type := {
  pq_getmsgint : bytes -> Z;
  pq_getmsgstring : bytes -> bytes;
  pq_sendstring : bytes -> bytes;
}.

(** Messages of a null-terminated string, and a big-endian integer. *)
#[export] Instance demo_format : PgFormat := {
  pq_getmsgint b := be_val (take 4 b);
  pq_getmsgstring := until_zero;
  pq_sendstring l := l ++ [0];
}.

(** ** Numbers that are written read back *)

Lemma is_digit_spec c : is_digit c = true <-> 48 <= c <= 57.
Proof. unfold is_digit. rewrite andb_true_iff. lia. Qed.

Lemma span_digits_all l rest : forallb is_digit l = true -> (forall c r, rest = c :: r -> is_digit c = false) ->
  span_digits (l ++ rest) = (l, rest).
Proof.
  intros Hl Hr. induction l as [|c l IH]; cbn [app span_digits].
  - destruct rest as [|c r]; [reflexivity|]. cbn [span_digits]. now rewrite (Hr c r eq_refl).
  - cbn [forallb] in Hl. apply andb_true_iff in Hl as [Hc Hl]. now rewrite Hc, (IH Hl).
Qed.

Lemma fmt_int_shape n : in_s32 n ->
  exists ds, fmt_int n = (if n <? 0 then 45 :: ds else ds) /\ forallb is_digit ds = true /\ ds <> [] /\
    dec_value ds = Z.abs n.
Proof.
  unfold in_s32. intros Hn. unfold fmt_int, fmt_dec. destruct (Z.ltb_spec n 0).
  - exists (digits (- n)). split; [reflexivity|]. split; [apply digits_digits; lia|].
    split; [apply digits_nonempty|]. rewrite dec_value_digits; lia.
  - exists (digits n). split; [reflexivity|]. split; [apply digits_digits; lia|].
    split; [apply digits_nonempty|]. rewrite dec_value_digits; lia.
Qed.

Lemma skip_spaces_digit c l : 33 <= c -> skip_spaces (c :: l) = c :: l.
Proof.
  intros Hc. cbn [skip_spaces]. unfold isspace.
  replace (c =? 32) with false by (symmetry; apply Z.eqb_neq; lia).
  replace (c <=? 13) with false by (symmetry; apply Z.leb_gt; lia). now rewrite andb_false_r.
Qed.

(** [atoi] reads what [%d] writes. *)
Lemma atoi_fmt_int n : in_s32 n -> atoi (fmt_int n) = Ok n.
Proof.
  intros Hn. destruct (fmt_int_shape n Hn) as (ds & -> & Hd & Hne & Hv). unfold atoi.
  destruct ds as [|c ds]; [easy|]. pose proof Hd as Hc. cbn [forallb] in Hc. apply andb_true_iff in Hc as [Hc _].
  apply is_digit_spec in Hc. pose proof (span_digits_all (c :: ds) [] Hd ltac:(discriminate)) as Hsp.
  rewrite app_nil_r in Hsp. destruct (Z.ltb_spec n 0).
  - rewrite skip_spaces_digit by lia. cbn [take_sign]. change (45 =? 45) with true. cbv iota beta.
    rewrite Hsp. cbn [fst]. rewrite Hv, Z.abs_neq, Z.opp_involutive by lia. now rewrite (proj2 (fits_s32_spec n) Hn).
  - rewrite skip_spaces_digit by lia. cbn [take_sign].
    replace (c =? 45) with false by (symmetry; apply Z.eqb_neq; lia).
    replace (c =? 43) with false by (symmetry; apply Z.eqb_neq; lia). cbv iota beta.
    rewrite Hsp. cbn [fst]. rewrite Hv, Z.abs_eq by lia. now rewrite (proj2 (fits_s32_spec n) Hn).
Qed.

(** How many characters [%d] writes. *)
Lemma dec_value_bound l : forallb is_digit l = true -> 0 <= dec_value l < 10 ^ Z.of_nat (length l).
Proof.
  unfold dec_value. induction l as [|c l IH] using rev_ind; intros Hl; [cbn; lia|].
  rewrite forallb_app in Hl. apply andb_true_iff in Hl as [Hl Hc]. cbn in Hc. rewrite andb_true_r in Hc.
  apply is_digit_spec in Hc. specialize (IH Hl). rewrite fold_left_app, length_app. cbn [fold_left length].
  unfold dec_step at 1 3. rewrite Nat.add_1_r, Nat2Z.inj_succ, Z.pow_succ_r by lia. lia.
Qed.

Lemma length_digits_acc_iff fuel n k : 0 <= n < 10 ^ Z.of_nat (S fuel) ->
  (length (digits_acc (S fuel) n []) <= S k)%nat <-> n < 10 ^ Z.of_nat (S k).
Proof.
  intros Hn. split.
  - intros Hl. pose proof (dec_value_bound _ (digits_acc_digits (S fuel) n [] ltac:(lia) eq_refl)) as Hb.
    rewrite digits_acc_value in Hb by exact Hn. cbn [fold_left] in Hb.
    eapply Z.lt_le_trans; [apply Hb|]. apply Z.pow_le_mono_r; lia.
  - intros Hk. pose proof (length_digits_acc (S fuel) n [] k ltac:(lia)) as Hl. cbn [length] in Hl. lia.
Qed.
Lemma length_digits_iff n k : 0 <= n < 10 ^ 20 -> (length (digits n) <= S k)%nat <-> n < 10 ^ Z.of_nat (S k).
Proof. exact (length_digits_acc_iff 19 n k). Qed.

(** How many characters [%f] writes. *)
Lemma length_fmt_fixed6 n k : 0 <= n < 10 ^ 60 -> (length (fmt_fixed6 n) <= k + 8)%nat <-> n < 10 ^ Z.of_nat (k + 7).
Proof.
  intros Hn. unfold fmt_fixed6. rewrite length_app. cbn [length]. unfold pad0. rewrite length_app, length_replicate.
  assert (Hm : 0 <= n mod 10 ^ 6 < 10 ^ 6) by (apply Z.mod_pos_bound; lia).
  pose proof (proj2 (length_digits_iff (n mod 10 ^ 6) 5 ltac:(lia)) ltac:(exact (proj2 Hm))) as Hl.
  assert (Hq : 0 <= n / 10 ^ 6 < 10 ^ Z.of_nat 60).
  { split; [apply Z.div_pos; lia|]. eapply Z.le_lt_trans; [apply Z.div_le_upper_bound with (q := n); lia|exact (proj2 Hn)]. }
  pose proof (length_digits_acc_iff 59 (n / 10 ^ 6) k Hq) as Hi.
  replace (Z.of_nat (k + 7)) with (6 + Z.of_nat (S k)) by lia. rewrite Z.pow_add_r by lia.
  assert (Hd : n / 10 ^ 6 < 10 ^ Z.of_nat (S k) <-> n < 10 ^ 6 * 10 ^ Z.of_nat (S k)).
  { split; intros Hx; [|now apply Z.div_lt_upper_bound].
    pose proof (Z.div_mod n (10 ^ 6) ltac:(lia)) as Hdm. nia. }
  rewrite <- Hd, <- Hi. lia.
Qed.

(** ** Integers are exact in a [double] *)

(** Rounding a mantissa of 53 bits does nothing. *)
Lemma round_normal sx m e : Zpos (digits2_pos m) = 53 -> -1074 <= e <= 971 ->
  binary_round_aux 53 1024 sx (Zpos m) e loc_Exact = S754_finite sx m e.
Proof.
  intros Hd He. assert (Hsh : shr_fexp 53 1024 (Zpos m) e loc_Exact = (Build_shr_record (Zpos m) false false, e)).
  { unfold shr_fexp, fexp, emin. cbn [Zdigits2]. rewrite Hd.
    replace (Z.max (53 + e - 53) (3 - 1024 - 53) - e) with 0 by lia. reflexivity. }
  unfold binary_round_aux. rewrite Hsh. cbn [shr_m loc_of_shr_record round_nearest_even]. rewrite Hsh.
  cbn [shr_m]. now rewrite (proj2 (Z.leb_le _ _)) by lia.
Qed.

Lemma binary_round_exact sx p : Zpos (digits2_pos p) <= 53 ->
  exists m, binary_round 53 1024 sx p 0 = S754_finite sx m (Zpos (digits2_pos p) - 53) /\ 2 ^ 52 <= Zpos m.
Proof.
  intros Hd. unfold binary_round, fexp, emin. rewrite Z.add_0_r, Z.max_l by lia. unfold shl_align. rewrite Z.sub_0_r.
  assert (Hm : forall m, Zpos (digits2_pos m) = 53 -> 2 ^ 52 <= Zpos m).
  { intros m Hm. pose proof (digits2_bounds m) as Hb. rewrite Hm in Hb. apply Hb. }
  destruct (Zpos (digits2_pos p) - 53) as [|k|k] eqn:Ek; [|lia|].
  - exists p. split; [|apply Hm; lia]. apply round_normal; lia.
  - assert (Hd' : Zpos (digits2_pos (Pos.iter xO p k)) = 53) by (rewrite digits2_iter; lia).
    exists (Pos.iter xO p k). split; [|now apply Hm]. apply round_normal; lia.
Qed.

(** [strtod] on the decimal notation of an integer. *)
Lemma prefix_digit c p x l : 97 <= c -> 48 <= x <= 57 -> prefix_nocase (c :: p) (x :: l) = None.
Proof.
  intros Hc Hx. cbn [prefix_nocase]. unfold tolower. rewrite (proj2 (Z.leb_gt 65 x)) by lia. cbn [andb].
  now rewrite (proj2 (Z.eqb_neq c x)) by lia.
Qed.

Lemma scan_hex_digits x l : forallb is_digit (x :: l) = true -> scan_hex (x :: l) = None.
Proof.
  intros Hl. unfold scan_hex. cbn [prefix_nocase]. destruct (48 =? tolower x); [|reflexivity].
  destruct l as [|y l]; [reflexivity|]. cbn [forallb] in Hl. apply andb_true_iff in Hl as [_ Hl].
  apply andb_true_iff in Hl as [Hy _]. apply is_digit_spec in Hy. cbn [prefix_nocase]. unfold tolower.
  rewrite (proj2 (Z.leb_gt 65 y)) by lia. cbn [andb]. now rewrite (proj2 (Z.eqb_neq 120 y)) by lia.
Qed.

Lemma strtod_digits (neg : bool) ds : forallb is_digit ds = true -> ds <> [] -> dec_value ds < 2 ^ 53 ->
  strtod ((if neg then [45] else []) ++ ds) =
    (binary_normalize 53 1024 (cond_Zopp neg (dec_value ds)) 0 neg, Some [], false).
Proof.
  intros Hd Hne Hv. destruct ds as [|x ds]; [easy|]. pose proof Hd as Hx. cbn [forallb] in Hx.
  apply andb_true_iff in Hx as [Hx _]. apply is_digit_spec in Hx.
  assert (Hsign : take_sign (skip_spaces ((if neg then [45] else []) ++ x :: ds)) = (neg, x :: ds)).
  { destruct neg; cbn [app]; rewrite skip_spaces_digit by lia; cbn [take_sign]; [reflexivity|].
    rewrite (proj2 (Z.eqb_neq x 45)), (proj2 (Z.eqb_neq x 43)) by lia. reflexivity. }
  unfold strtod. rewrite Hsign, !prefix_digit, scan_hex_digits by (lia || assumption).
  pose proof (span_digits_all (x :: ds) [] Hd ltac:(discriminate)) as Hsp. rewrite app_nil_r in Hsp.
  unfold scan_decimal. rewrite Hsp. cbn [app]. rewrite app_nil_r. cbn [scan_exponent length].
  set (v := dec_value (x :: ds)) in *. change (0 - Z.of_nat 0) with 0. unfold decimal_to_double.
  pose proof (dec_value_bound (x :: ds) Hd) as [Hpos _]. fold v in Hpos. clearbody v.
  destruct v as [|p|p]; [now destruct neg| |lia]. cbn [Z.leb Z.compare]. rewrite Z.mul_1_r.
  destruct (binary_round_exact neg p (digits2_small p 53 ltac:(lia) Hv)) as (m & Hr & Hm).
  assert (Hn : binary_normalize 53 1024 (cond_Zopp neg (Zpos p)) 0 neg = S754_finite neg m (Zpos (digits2_pos p) - 53))
    by (destruct neg; exact Hr).
  rewrite Hn. unfold out_of_range. now rewrite (proj2 (Z.ltb_ge _ _)) by lia.
Qed.
