(* ===== verification/Aggregate.v ===== *)
(** The loops of the aggregates in src/integrity_zone/int.cpp and float.cpp, which differ only
    in the requests they send: sums in chunks of [BULK_SIZE], and maximum and minimum by
    comparing one element after the other. *)
From S2P Require Import Prelude Rid LocalStore FileMap KV Tee Handler Layout Request Region Invoker.

Section Loops.
Context {S : Type}.

(** [bulk_array] holds [count] RIDs; when it is full its sum takes its place. *)
Fixpoint bulk_loop (sum_bulk : Z -> list RID -> M S RID) (bulk_array : list RID) (values : list RID) : M S RID :=
  match values with
  | [] => sum_bulk (Z.of_nat (length bulk_array)) bulk_array
  | value :: rest =>
      if Z.of_nat (length bulk_array) =? BULK_SIZE then
        let* tmp := sum_bulk BULK_SIZE bulk_array in
        bulk_loop sum_bulk [tmp; value] rest
      else bulk_loop sum_bulk (bulk_array ++ [value]) rest
  end.

(** The best element so far is replaced when it compares as [want] to the next one. *)
Fixpoint extremum_loop (cmp : RID -> RID -> M S Z) (want : Z) (best : RID) (values : list RID) : M S RID :=
  match values with
  | [] => retM best
  | tmp :: rest =>
      let* c := cmp best tmp in extremum_loop cmp want (if want =? c then tmp else best) rest
  end.
End Loops.

Lemma views_app s t ks1 ks2 vs1 vs2 :
  views s t ks1 vs1 -> views s t ks2 vs2 -> views s t (ks1 ++ ks2) (vs1 ++ vs2).
Proof. apply Forall2_app. Qed.

Lemma views_cons s t k ks v vs : view s t k = Some v -> views s t ks vs -> views s t (k :: ks) (v :: vs).
Proof. intros Hk Hks. now constructor. Qed.

Lemma views_in s t ks vs k : views s t ks vs -> k ∈ ks -> is_Some (view s t k).
Proof.
  intros Hv Hin. apply list_elem_of_lookup in Hin as [i Hi].
  destruct (Forall2_lookup_l _ _ _ _ _ Hv Hi) as (x & _ & Hx). eauto.
Qed.

(** After summing a chunk its RIDs are gone and the others still hold their values. *)
Lemma views_after_sum t s s' ks rid v rest vs :
  summed t s s' ks rid v -> views s t rest vs -> Forall in_u64 rest ->
  (forall k, k ∈ rest -> k ∉ ks) -> views s' t rest vs.
Proof.
  intros Hsum Hv Hu Hdisj. unfold views in *. rewrite Forall2_lookup in *. intros i. specialize (Hv i).
  destruct (rest !! i) as [k|] eqn:Ek, (vs !! i) as [y|]; inversion Hv as [x y' Hxy|]; subst; [|constructor].
  constructor.
  assert (Hin : k ∈ rest) by now apply list_elem_of_lookup_2 in Ek.
  rewrite (sum_frame _ _ _ _ _ _ Hsum).
  - exact Hxy.
  - rewrite Forall_forall in Hu. apply Hu. now apply list_elem_of_In.
  - intros [= ->]. rewrite (sum_fresh _ _ _ _ _ _ Hsum) in Hxy. discriminate Hxy.
  - intros [_ Hk]. exact (Hdisj k Hin Hk).
Qed.

Section Chunks.
Context {A : Type} (f : list A -> A) (defined : list A -> bool).

(** The value the chunked loop computes, and where it is defined. *)
Fixpoint chunked (bulk vs : list A) : A :=
  match vs with
  | [] => f bulk
  | v :: rest =>
      if Z.of_nat (length bulk) =? BULK_SIZE then chunked [f bulk; v] rest else chunked (bulk ++ [v]) rest
  end.
Fixpoint chunks_defined (bulk vs : list A) : bool :=
  match vs with
  | [] => defined bulk
  | v :: rest =>
      if Z.of_nat (length bulk) =? BULK_SIZE then defined bulk && chunks_defined [f bulk; v] rest
      else chunks_defined (bulk ++ [v]) rest
  end.
End Chunks.

Section BulkSpec.
Context {S : Type} `{TEEInvoker S} (t : vtype) (f : list (vty t) -> vty t) (defined : list (vty t) -> bool).
Context (sum_bulk : Z -> list RID -> M S RID).

(** What one bulk request does. *)
Definition bulk_request_spec : Prop := forall keys vs s,
  healthy s -> views (tee_store s) t keys vs -> Forall in_u64 keys -> (length keys <= 256)%nat ->
  defined vs = true -> local_room (tee_store s) t ->
  exists rid s', sum_bulk (Z.of_nat (length keys)) keys s = (Ok rid, s') /\ healthy s' /\
    summed t (tee_store s) (tee_store s') keys rid (f vs).
Hypothesis Hbulk : bulk_request_spec.

Lemma bulk_loop_spec values : forall vvs bulk bvs s,
  healthy s -> views (tee_store s) t bulk bvs -> views (tee_store s) t values vvs ->
  (length bulk <= 256)%nat -> Forall in_u64 (bulk ++ values) -> NoDup (bulk ++ values) ->
  chunks_defined f defined bvs vvs = true ->
  lsize (st_local (tee_store s)) t + Z.of_nat (length values) < 2 ^ 48 - 1 ->
  exists rid s', bulk_loop sum_bulk bulk values s = (Ok rid, s') /\ healthy s' /\ islocal rid = true /\
    in_u64 rid /\ view (tee_store s') t rid = Some (chunked f bvs vvs) /\
    lsize (st_local (tee_store s')) t <= lsize (st_local (tee_store s)) t + 1 + Z.of_nat (length values) /\
    (forall p, kv_part (st_kv (tee_store s')) p = kv_part (st_kv (tee_store s)) p).
Proof.
  induction values as [|value values IH]; intros vvs bulk bvs s Hh Hb Hv Hlen Hu Hnd Hfit Hroom.
  - inversion Hv; subst. rewrite !app_nil_r in *. cbn [length Z.of_nat] in Hroom.
    destruct (Hbulk bulk bvs s Hh Hb Hu Hlen Hfit) as (rid & s' & Hr & Hh' & Hs); [unfold local_room; lia|].
    exists rid, s'. split; [exact Hr|]. split; [exact Hh'|]. destruct Hs. split_and!; auto; lia.
  - inversion Hv as [|? v ? vvs' Hk Hrest]; subst. cbn [bulk_loop chunked chunks_defined] in *.
    apply Forall_app in Hu as [Hub Huv]. inversion Huv as [|? ? Huk Hur]; subst.
    apply list.NoDup_app in Hnd as (Hnd1 & Hdisj & Hnd2). cbn [length] in Hroom.
    assert (Hlb : length bulk = length bvs) by exact (Forall2_length Hb). rewrite <- Hlb in *.
    destruct (Z.eqb_spec (Z.of_nat (length bulk)) BULK_SIZE) as [E|E].
    + apply andb_true_iff in Hfit as [Hf1 Hf2].
      destruct (Hbulk bulk bvs s Hh Hb Hub Hlen Hf1) as (tmp & s1 & Hr & Hh1 & Hs); [unfold local_room; lia|].
      rewrite E in Hr. rewrite (bindM_run _ _ _ _ _ Hr).
      assert (Hv1 : views (tee_store s1) t (value :: values) (v :: vvs')).
      { apply (views_after_sum t (tee_store s) _ bulk tmp (f bvs)); auto. intros k Hin Hkb. exact (Hdisj k Hkb Hin). }
      inversion Hv1 as [|? ? ? ? Hk1 Hrest1]; subst.
      assert (Htmp : tmp ∉ value :: values).
      { intros Hin. destruct (views_in _ t _ _ tmp Hv Hin) as [x Hx].
        rewrite (sum_fresh _ _ _ _ _ _ Hs) in Hx. discriminate Hx. }
      destruct (IH vvs' [tmp; value] [f bvs; v] s1 Hh1) as (rid & s' & Hrun & Hh' & Hl & Hu' & Hval & Hsz & Hkv).
      * apply views_cons; [apply Hs|]. apply views_cons; [exact Hk1|constructor].
      * exact Hrest1.
      * cbn. lia.
      * constructor; [apply Hs|]. now constructor.
      * constructor; [exact Htmp|exact Hnd2].
      * exact Hf2.
      * pose proof (sum_size _ _ _ _ _ _ Hs). lia.
      * exists rid, s'. pose proof (sum_size _ _ _ _ _ _ Hs). cbn [length]. split_and!; auto; [lia|].
        intros p. now rewrite Hkv, (sum_kv _ _ _ _ _ _ Hs).
    + destruct (IH vvs' (bulk ++ [value]) (bvs ++ [v]) s Hh) as (rid & s' & Hrun & Hh' & Hl & Hu' & Hval & Hsz & Hkv).
      * apply views_app; [exact Hb|]. apply views_cons; [exact Hk|constructor].
      * exact Hrest.
      * rewrite length_app. cbn [length]. unfold BULK_SIZE in E. lia.
      * rewrite <- app_assoc. now apply Forall_app.
      * rewrite <- app_assoc. apply list.NoDup_app. now split.
      * exact Hfit.
      * lia.
      * exists rid, s'. cbn [length]. split_and!; auto; lia.
Qed.
End BulkSpec.

(** ** Maximum and minimum *)

Section ExtremumSpec.
Context {S : Type} `{TEEInvoker S} (t : vtype) (key : vty t -> Z) (comparable : vty t -> Prop).
Context (cmp : RID -> RID -> M S Z).

(** What one comparison does. *)
Definition cmp_request_spec : Prop := forall k1 k2 v1 v2 s,
  healthy s -> in_u64 k1 -> in_u64 k2 -> view (tee_store s) t k1 = Some v1 -> view (tee_store s) t k2 = Some v2 ->
  comparable v1 -> comparable v2 ->
  exists s', cmp k1 k2 s = (Ok (three_way (key v1) (key v2)), s') /\ healthy s' /\
    st_equiv (tee_store s) (tee_store s').
Hypothesis Hcmp : cmp_request_spec.

Lemma three_way_want (sg a b : Z) : sg = 1 \/ sg = -1 -> (- sg =? three_way a b) = (sg * a <? sg * b).
Proof.
  intros Hs. unfold three_way. destruct (Z.ltb_spec b a), (Z.ltb_spec a b), (Z.ltb_spec (sg * a) (sg * b)); try lia;
    destruct Hs as [-> | ->]; try reflexivity; lia.
Qed.

(** [sg] is one for the maximum and minus one for the minimum. *)
Lemma extremum_loop_spec sg values : sg = 1 \/ sg = -1 -> forall vvs best b s,
  healthy s -> in_u64 best -> Forall in_u64 values ->
  view (tee_store s) t best = Some b -> views (tee_store s) t values vvs ->
  comparable b -> Forall comparable vvs ->
  exists rid v s', extremum_loop cmp (- sg) best values s = (Ok rid, s') /\ healthy s' /\
    st_equiv (tee_store s) (tee_store s') /\ rid ∈ best :: values /\
    view (tee_store s') t rid = Some v /\ v ∈ b :: vvs /\ Forall (fun x => sg * key x <= sg * key v) (b :: vvs).
Proof.
  intros Hsg. induction values as [|tmp values IH]; intros vvs best b s Hh Hub Huv Hb Hv Hcb Hcv.
  - inversion Hv; subst. exists best, b, s. split; [reflexivity|]. split; [exact Hh|]. split; [reflexivity|].
    split; [left|]. split; [exact Hb|]. split; [left|]. constructor; [lia|constructor].
  - inversion Hv as [|? x ? vvs' Hx Hrest]; subst. inversion Huv as [|? ? Hut Hur]; subst.
    inversion Hcv as [|? ? Hcx Hcr]; subst. cbn [extremum_loop].
    destruct (Hcmp best tmp b x s Hh Hub Hut Hb Hx Hcb Hcx) as (s1 & Hr & Hh1 & He1).
    rewrite (bindM_run _ _ _ _ _ Hr), (three_way_want sg) by exact Hsg.
    rewrite <- (view_equiv _ _ t best He1) in Hb. rewrite <- (view_equiv _ _ t tmp He1) in Hx.
    apply (views_equiv _ _ _ _ _ He1) in Hrest.
    destruct (Z.ltb_spec (sg * key b) (sg * key x)) as [Hlt|Hge].
    + destruct (IH vvs' tmp x s1 Hh1 Hut Hur Hx Hrest Hcx Hcr) as (rid & v & s' & Hrun & Hh' & He' & Hin & Hvw & Hiv & Hall).
      exists rid, v, s'. split; [exact Hrun|]. split; [exact Hh'|]. split; [etransitivity; eassumption|].
      split; [now right|]. split; [exact Hvw|]. split; [now right|].
      apply Forall_cons_1 in Hall as [H1 H2]. constructor; [lia|]. now constructor.
    + destruct (IH vvs' best b s1 Hh1 Hub Hur Hb Hrest Hcb Hcr) as (rid & v & s' & Hrun & Hh' & He' & Hin & Hvw & Hiv & Hall).
      exists rid, v, s'. split; [exact Hrun|]. split; [exact Hh'|]. split; [etransitivity; eassumption|].
      split; [set_solver|]. split; [exact Hvw|]. split; [set_solver|].
      apply Forall_cons_1 in Hall as [H1 H2]. constructor; [exact H1|]. constructor; [lia|exact H2].
Qed.
End ExtremumSpec.
