(* ===== verification/SqlInt.v ===== *)
(** The SQL functions of type kv_int4: src/integrity_zone/int.cpp. Each function sends its
    requests through the connection of [Invoker]; a [Datum] of the type is a RID. *)
From S2P Require Import Prelude Rid LocalStore FileMap KV Tee Crypto Wal Handler Layout Request Region Invoker Fmt Clib Aggregate.

Section Functions.
Context {S : Type} `{TEEInvoker S} `{PgFormat}.

(** ** Requests *)

Definition kv_int_put (value : Z) : M S RID :=
  call_rid (PutPlainIntoKVRequest TInt CMD_INT_PUT (to_bytes (t := TInt) value) (res_var 0)).
Definition kv_int_get (key : RID) : M S Z :=
  let* b := call_bytes (GetPlainFromKVRequest TInt CMD_INT_GET key (res_var 0)) in
  retM (of_bytes (t := TInt) b).
Definition kv_int_put_enc (value : bytes) : M S RID :=
  call_rid (PutEncIntoKVRequest TInt CMD_INT_PUT_ENC value (res_var 0)).
Definition kv_int_get_enc (key : RID) : M S bytes :=
  call_bytes (GetEncFromKVRequest TInt CMD_INT_GET_ENC key (res_var 0)).
Definition kv_int_calc (cmd : Z) (i1 i2 : RID) : M S RID := call_rid (CalcRequest cmd i1 i2 (res_var 0)).
Definition kv_int_add (i1 i2 : RID) : M S RID := kv_int_calc CMD_INT_PLUS i1 i2.
Definition kv_int_sub (i1 i2 : RID) : M S RID := kv_int_calc CMD_INT_MINUS i1 i2.
Definition kv_int_mult (i1 i2 : RID) : M S RID := kv_int_calc CMD_INT_MULT i1 i2.
Definition kv_int_div (i1 i2 : RID) : M S RID := kv_int_calc CMD_INT_DIV i1 i2.
Definition kv_int_pow (i1 i2 : RID) : M S RID := kv_int_calc CMD_INT_POW i1 i2.
Definition kv_int_mod (i1 i2 : RID) : M S RID := kv_int_calc CMD_INT_MOD i1 i2.
Definition kv_int_cmp (i1 i2 : RID) : M S Z := call_int (CmpRequest CMD_INT_CMP i1 i2 (res_var 0)).
Definition kv_int_sum_bulk (bulk_size : Z) (keys : list RID) : M S RID :=
  call_rid (BulkRequest CMD_INT_SUM_BULK (s32 bulk_size) keys (res_var 0)).

Definition enc_int_encrypt (pSrc : Z) : M S (Z * bytes) :=
  let* '(resp, v) := call_resp (EncRequest TInt CMD_INT_ENC (to_bytes (t := TInt) pSrc) (res_var 0)) in
  let* pDst := as_bytes v in retM (resp, pDst).
Definition enc_int_decrypt (pSrc : bytes) : M S (Z * Z) :=
  let* '(resp, v) := call_resp (DecRequest TInt CMD_INT_DEC pSrc (res_var 0)) in
  let* p := as_bytes v in retM (resp, of_bytes (t := TInt) p).

(** ** Input and output *)

(** From a C [int] to a RID: the end of [int4_to_kv_int4] and its siblings. *)
Definition int_to_rid (v : Z) : M S RID :=
  let* '(error, result) := enc_int_encrypt v in
  do* raise_unless_ok error in
  kv_int_put_enc result.

Definition int4_to_kv_int4 (arg : Z) : M S RID := int_to_rid (s32 arg).
(** [int in = PG_GETARG_INT64(0)]. *)
Definition int8_to_kv_int4 (arg : Z) : M S RID := int_to_rid (s32 (s64 arg)).
Definition kv_int4_in (pIn : bytes) : M S RID :=
  let* v := ofRes (atoi pIn) in int_to_rid v.

(** From a RID to a C [int]: the start of [kv_int4_out] and [kv_int4_send]. *)
Definition rid_to_int (id : RID) : M S Z :=
  let* result := kv_int_get_enc id in
  let* '(error, v) := enc_int_decrypt result in
  do* raise_unless_ok error in
  retM v.

(** [sprintf(pOut, "%d", in)] into a buffer of [size] bytes. *)
Definition sprintf_d (size v : Z) : M S bytes :=
  let text := fmt_int v in
  do* definedM (strlen text + 1 <=? size) in
  retM text.

(** The buffer of [kv_int4_out] has [sizeof(int)] bytes. *)
Definition kv_int4_out (id : RID) : M S bytes :=
  let* v := rid_to_int id in sprintf_d 4 v.
Definition kv_int4_recv (buf : bytes) : M S RID := int_to_rid (s32 (pq_getmsgint buf)).
Definition kv_int4_send (id : RID) : M S bytes :=
  let* v := rid_to_int id in
  let* pOut := sprintf_d 32 v in
  retM (pq_sendstring pOut).

(** ** Operators *)

Definition kv_int4_add (id1 id2 : RID) : M S RID := kv_int_add id1 id2.
Definition kv_int4_sub (id1 id2 : RID) : M S RID := kv_int_sub id1 id2.
Definition kv_int4_mult (id1 id2 : RID) : M S RID := kv_int_mult id1 id2.
Definition kv_int4_div (id1 id2 : RID) : M S RID := kv_int_div id1 id2.
Definition kv_int4_pow (id1 id2 : RID) : M S RID := kv_int_pow id1 id2.
Definition kv_int4_mod (id1 id2 : RID) : M S RID := kv_int_mod id1 id2.

Definition kv_int4_cmp (id1 id2 : RID) : M S Z := kv_int_cmp id1 id2.
Definition kv_int4_eq (id1 id2 : RID) : M S bool := let* cmp := kv_int_cmp id1 id2 in retM (cmp =? 0).
Definition kv_int4_ne (id1 id2 : RID) : M S bool := let* cmp := kv_int_cmp id1 id2 in retM (negb (cmp =? 0)).
Definition kv_int4_lt (id1 id2 : RID) : M S bool := let* cmp := kv_int_cmp id1 id2 in retM (cmp <? 0).
Definition kv_int4_le (id1 id2 : RID) : M S bool := let* cmp := kv_int_cmp id1 id2 in retM (cmp <=? 0).
Definition kv_int4_gt (id1 id2 : RID) : M S bool := let* cmp := kv_int_cmp id1 id2 in retM (0 <? cmp).
Definition kv_int4_ge (id1 id2 : RID) : M S bool := let* cmp := kv_int_cmp id1 id2 in retM (0 <=? cmp).

(** ** Aggregates *)

(** An array is its elements; the first one is taken without looking whether there is one. *)
Definition kv_int4_sum_bulk (array : list RID) : M S RID :=
  match array with
  | [] => failM Undefined
  | value :: rest => bulk_loop kv_int_sum_bulk [value] rest
  end.
(** The divisor goes to the persistent store. *)
Definition kv_int4_avg_bulk (array : list RID) : M S RID :=
  match array with
  | [] => failM Undefined
  | value :: rest =>
      let* sum := bulk_loop kv_int_sum_bulk [value] rest in
      let* div := kv_int_put (Z.of_nat (length array)) in
      kv_int_div sum div
  end.
Definition kv_int4_max_bulk (array : list RID) : M S RID :=
  match array with
  | [] => failM Undefined
  | value :: rest => extremum_loop kv_int_cmp (-1) value rest
  end.
Definition kv_int4_min_bulk (array : list RID) : M S RID :=
  match array with
  | [] => failM Undefined
  | value :: rest => extremum_loop kv_int_cmp 1 value rest
  end.
End Functions.

Section Specs.
Context `{CryptoLaws} {S : Type} `{!TEEInvoker S} `{!TEEInvokerLaws S} `{PgFormat}.

(** ** Operators *)

Definition kv_int4_op (op : int_op) : RID -> RID -> M S RID :=
  match op with
  | IAdd => kv_int4_add
  | ISub => kv_int4_sub
  | IMult => kv_int4_mult
  | IDiv => kv_int4_div
  | IMod => kv_int4_mod
  end.
Definition int_op_cmd (op : int_op) : Z :=
  match op with
  | IAdd => CMD_INT_PLUS
  | ISub => CMD_INT_MINUS
  | IMult => CMD_INT_MULT
  | IDiv => CMD_INT_DIV
  | IMod => CMD_INT_MOD
  end.

Lemma kv_int4_op_eq op id1 id2 : kv_int4_op op id1 id2 = call_rid (CalcRequest (int_op_cmd op) id1 id2 (res_var 0)).
Proof. now destruct op. Qed.

Lemma kv_int4_op_spec op id1 id2 (s : S) a b :
  healthy s -> in_u64 id1 -> in_u64 id2 -> view (tee_store s) TInt id1 = Some a -> view (tee_store s) TInt id2 = Some b ->
  local_room (tee_store s) TInt ->
  match int_op_spec op a b with
  | Some v => exists rid s', kv_int4_op op id1 id2 s = (Ok rid, s') /\ healthy s' /\ islocal rid = true /\
                stored (tee_store s) (tee_store s') TInt v rid
  | None => exists s', kv_int4_op op id1 id2 s = (Err Undefined, s') /\ st_equiv (tee_store s) (tee_store s')
  end.
Proof.
  intros Hh Hu1 Hu2 Ha Hb Hroom. rewrite kv_int4_op_eq.
  pose proof (calc2_spec (ta := TInt) (tb := TInt) (tc := TInt) (int_op_cmd op) (int_op_res op) id1 id2 s a b) as Hc.
  rewrite int_op_res_spec in Hc.
  destruct (int_op_spec op a b) as [v|]; (apply Hc; try assumption; [now destruct op|]);
    rewrite <- kv_int_op_compute2; now destruct op.
Qed.

(** ** Comparison *)

Lemma kv_int_cmp_spec : cmp_request_spec (S := S) TInt (fun v => v) (fun _ => True) kv_int_cmp.
Proof.
  intros k1 k2 v1 v2 s Hh Hu1 Hu2 Hv1 Hv2 _ _.
  apply (cmp2_spec TInt CMD_INT_CMP three_way k1 k2 v1 v2 s); try assumption; try reflexivity. apply three_way_range.
Qed.

(** ** Input and output *)

Lemma int_to_rid_spec v (s : S) : healthy s -> can_encrypt s (t := TInt) v = true -> local_room (tee_store s) TInt -> in_s32 v ->
  exists rid s', int_to_rid v s = (Ok rid, s') /\ healthy s' /\ islocal rid = true /\
    stored (tee_store s) (tee_store s') TInt v rid.
Proof. intros Hh Henc Hroom Hv. exact (insert_spec TInt v s Hh Henc Hroom Hv I). Qed.

Lemma rid_to_int_spec v id (s : S) : healthy s -> can_encrypt s (t := TInt) v = true -> in_u64 id -> view (tee_store s) TInt id = Some v -> in_s32 v ->
  exists s', rid_to_int id s = (Ok v, s') /\ healthy s' /\ st_equiv (tee_store s) (tee_store s').
Proof.
  intros Hh Henc Hu Hv Hr. exact (fetch_typed_spec TInt v id s Hh Henc Hu Hv I Hr).
Qed.

Lemma fmt_int_length v : in_s32 v ->
  (strlen (fmt_int v) + 1 <=? 4) = (-99 <=? v) && (v <=? 999) /\ strlen (fmt_int v) + 1 <= 32.
Proof.
  intros Hv. unfold strlen, fmt_int, fmt_dec, in_s32 in *. destruct (Z.ltb_spec v 0).
  - unfold pad0. cbn [length]. rewrite length_app, length_replicate.
    pose proof (length_digits_iff (- v) 1 ltac:(lia)) as Hk.
    pose proof (length_digits_iff (- v) 9 ltac:(lia)) as Hm.
    change (10 ^ Z.of_nat 2) with 100 in Hk. change (10 ^ Z.of_nat 10) with (10 ^ 10) in Hm.
    split; [|lia]. apply eq_true_iff_eq. rewrite andb_true_iff, !Z.leb_le. lia.
  - unfold pad0. rewrite length_app, length_replicate.
    pose proof (length_digits_iff v 2 ltac:(lia)) as Hk. pose proof (length_digits_iff v 9 ltac:(lia)) as Hm.
    change (10 ^ Z.of_nat 3) with 1000 in Hk. change (10 ^ Z.of_nat 10) with (10 ^ 10) in Hm.
    split; [|lia]. apply eq_true_iff_eq. rewrite andb_true_iff, !Z.leb_le. lia.
Qed.

(** The text of a number, read in, comes back when the library encrypts: always from the binary
    output function; the text output function's buffer has room for three characters, and for
    every number with more its behaviour is undefined. *)
Theorem kv_int4_text_roundtrip (v : Z) (s : S) :
  healthy s -> can_encrypt s (t := TInt) v = true -> local_room (tee_store s) TInt -> in_s32 v ->
  exists rid s1, kv_int4_in (fmt_int v) s = (Ok rid, s1) /\ healthy s1 /\ islocal rid = true /\
    view (tee_store s1) TInt rid = Some v /\ (can_encrypt s1 (t := TInt) v = true ->
    (exists s2, kv_int4_send rid s1 = (Ok (pq_sendstring (fmt_int v)), s2) /\ healthy s2) /\
    (exists s2, kv_int4_out rid s1 =
       (if (-99 <=? v) && (v <=? 999) then Ok (fmt_int v) else Err Undefined, s2) /\ healthy s2)).
Proof.
  intros Hh Henc Hroom Hv. destruct (int_to_rid_spec v s Hh Henc Hroom Hv) as (rid & s1 & Hin & Hh1 & Hl & Hst).
  destruct (fmt_int_length v Hv) as [Hl4 Hl32].
  exists rid, s1. split; [|split; [exact Hh1|split; [exact Hl|split; [apply Hst|intros Henc1]]]].
  { unfold kv_int4_in. rewrite atoi_fmt_int by exact Hv. exact Hin. }
  destruct (rid_to_int_spec v rid s1 Hh1 Henc1) as (s2 & Hout & Hh2 & _); [apply Hst|apply Hst|exact Hv|]. split.
  - exists s2. split; [|exact Hh2]. unfold kv_int4_send. rewrite (bindM_run _ _ _ _ _ Hout).
    unfold sprintf_d. rewrite (proj2 (Z.leb_le _ _) Hl32). reflexivity.
  - exists s2. split; [|exact Hh2]. unfold kv_int4_out. rewrite (bindM_run _ _ _ _ _ Hout).
    unfold sprintf_d. rewrite Hl4. now destruct ((-99 <=? v) && (v <=? 999)).
Qed.

(** ** Aggregates *)

Lemma kv_int_sum_bulk_request :
  bulk_request_spec (S := S) TInt sum_list (fun vs => sums_fit 0 vs) kv_int_sum_bulk.
Proof.
  intros keys vs s Hh Hv Hu Hlen Hfit Hroom.
  apply (bulk_request_call TInt CMD_INT_SUM_BULK Tee.kv_int_sum_bulk); try assumption; try reflexivity.
  exact (Tee.kv_int_sum_bulk_spec keys vs _ (h_store _ Hh) Hv Hu Hfit Hroom).
Qed.

(** Summing in chunks is summing. *)
Lemma chunked_sum vs : forall bulk, chunked sum_list bulk vs = sum_list (bulk ++ vs).
Proof.
  induction vs as [|v vs IH]; intros bulk; cbn [chunked]; [now rewrite app_nil_r|].
  destruct (_ =? _); rewrite IH.
  - unfold sum_list. now rewrite (fold_left_app Z.add bulk).
  - now rewrite <- app_assoc.
Qed.

Lemma sums_fit_app acc vs1 vs2 :
  sums_fit acc (vs1 ++ vs2) = sums_fit acc vs1 && sums_fit (fold_left Z.add vs1 acc) vs2.
Proof.
  revert acc. induction vs1 as [|v vs1 IH]; intros acc; simpl; [reflexivity|]. now rewrite IH, andb_assoc.
Qed.

Lemma sums_fit_total vs : sums_fit 0 vs = true -> fits_s32 (sum_list vs) = true.
Proof.
  destruct vs as [|v vs _] using rev_ind; [reflexivity|]. rewrite sums_fit_app, andb_true_iff.
  intros [_ Hf]. cbn [sums_fit] in Hf. rewrite andb_true_r in Hf. unfold sum_list. now rewrite fold_left_app.
Qed.

Lemma chunks_fit vs : forall bulk, sums_fit 0 (bulk ++ vs) = true ->
  chunks_defined sum_list (fun l => sums_fit 0 l) bulk vs = true.
Proof.
  induction vs as [|v vs IH]; intros bulk Hf; cbn [chunks_defined]; [now rewrite app_nil_r in Hf|].
  destruct (_ =? _).
  - rewrite sums_fit_app in Hf. apply andb_true_iff in Hf as [Hb Hf]. rewrite Hb. apply IH.
    cbn [app sums_fit] in *. rewrite Z.add_0_l, (sums_fit_total bulk Hb). exact Hf.
  - apply IH. now rewrite <- app_assoc.
Qed.

Lemma sum_spec value rest v vs (s : S) :
  let array := value :: rest in
  healthy s -> views (tee_store s) TInt array (v :: vs) -> Forall in_u64 array -> NoDup array ->
  sums_fit 0 (v :: vs) = true -> lsize (st_local (tee_store s)) TInt + Z.of_nat (length array) < 2 ^ 48 - 1 ->
  exists rid s', bulk_loop kv_int_sum_bulk [value] rest s = (Ok rid, s') /\ healthy s' /\ islocal rid = true /\
    in_u64 rid /\ view (tee_store s') TInt rid = Some (sum_list (v :: vs)) /\
    lsize (st_local (tee_store s')) TInt <= lsize (st_local (tee_store s)) TInt + Z.of_nat (length array) /\
    (forall p, kv_part (st_kv (tee_store s')) p = kv_part (st_kv (tee_store s)) p).
Proof.
  intros array Hh Hv Hu Hnd Hfit Hroom. subst array. cbn [length] in *.
  inversion Hv as [|? ? ? ? Hk Hrest]; subst.
  destruct (bulk_loop_spec TInt sum_list (fun l => sums_fit 0 l) kv_int_sum_bulk kv_int_sum_bulk_request rest vs [value] [v] s)
    as (rid & s' & Hr & Hh' & Hl & Hu' & Hval & Hsz & Hkv); try assumption.
  - apply views_cons; [exact Hk|constructor].
  - cbn. lia.
  - now apply chunks_fit.
  - lia.
  - rewrite chunked_sum in Hval. exists rid, s'. split_and!; auto; lia.
Qed.

(** C34: the SQL aggregate over an array of stored integers, whatever its length: if the RIDs
    are pairwise different and every partial sum is an [int], summing in chunks of
    [BULK_SIZE] with the running sum carried over gives a local RID that holds the sum of
    all the values. *)
Theorem kv_int4_sum_bulk_total (array : list RID) (vs : list Z) (s : S) :
  healthy s -> views (tee_store s) TInt array vs -> Forall in_u64 array -> NoDup array -> array <> [] ->
  sums_fit 0 vs = true -> lsize (st_local (tee_store s)) TInt + Z.of_nat (length array) < 2 ^ 48 - 1 ->
  exists rid s', kv_int4_sum_bulk array s = (Ok rid, s') /\ healthy s' /\ islocal rid = true /\
    view (tee_store s') TInt rid = Some (sum_list vs).
Proof.
  intros Hh Hv Hu Hnd Hne Hfit Hroom. destruct array as [|value rest]; [easy|].
  inversion Hv as [|? v ? vs' Hk Hrest]; subst.
  destruct (sum_spec value rest v vs' s Hh Hv Hu Hnd Hfit Hroom) as (rid & s' & Hr & Hh' & Hl & _ & Hval & _).
  now exists rid, s'.
Qed.

(** The average is the sum divided by the number of elements, rounded toward zero; the
    divisor takes a place in the default partition of the persistent store. *)
Theorem kv_int4_avg_bulk_total (array : list RID) (vs : list Z) (s : S) :
  healthy s -> views (tee_store s) TInt array vs -> Forall in_u64 array -> NoDup array -> array <> [] ->
  sums_fit 0 vs = true -> lsize (st_local (tee_store s)) TInt + Z.of_nat (length array) < 2 ^ 48 - 1 ->
  Z.of_nat (length array) < 2 ^ 31 -> room (tee_store s) TInt (Z.of_nat (length array)) false RID_DEFAULT_PARTITION ->
  exists rid s', kv_int4_avg_bulk array s = (Ok rid, s') /\ healthy s' /\ islocal rid = true /\
    view (tee_store s') TInt rid = Some (Z.quot (sum_list vs) (Z.of_nat (length array))).
Proof.
  intros Hh Hv Hu Hnd Hne Hfit Hroom Hsz [Hgp Hpr]. destruct array as [|value rest]; [easy|].
  inversion Hv as [|? v ? vs' Hk Hrest]; subst.
  set (n := Z.of_nat (length (value :: rest))) in *. assert (Hn : 1 <= n) by (unfold n; cbn [length]; lia).
  destruct (sum_spec value rest v vs' s Hh Hv Hu Hnd Hfit Hroom)
    as (sum & s1 & Hr1 & Hh1 & Hl1 & Hu1 & Hval1 & Hsz1 & Hkv1).
  destruct (plain_put_spec TInt n s1 Hh1 ltac:(discriminate) ltac:(cbn; unfold in_s32; lia))
    as (div & s2 & Hr2 & Hh2 & Hg2 & Hst2 & Hloc2); [split; [exact Hgp|now rewrite Hkv1]|].
  assert (Hval2 : view (tee_store s2) TInt sum = Some (sum_list (v :: vs'))).
  { rewrite (stored_frame _ _ _ _ _ Hst2); [exact Hval1|exact Hu1|]. intros [= E]. congruence. }
  pose proof (kv_int4_op_spec IDiv sum div s2 (sum_list (v :: vs')) n Hh2 Hu1 (stored_u64 _ _ _ _ _ Hst2) Hval2
                (stored_view _ _ _ _ _ Hst2)) as Hd.
  cbn [int_op_spec] in Hd. rewrite (proj2 (Z.eqb_neq n 0)) in Hd by lia. cbn [negb andb] in Hd.
  assert (Hq : fits_s32 (Z.quot (sum_list (v :: vs')) n) = true).
  { apply sums_fit_total, fits_s32_spec in Hfit. apply fits_s32_spec. unfold in_s32 in *.
    set (x := sum_list (v :: vs')) in *. clearbody x. clear - Hfit Hn. Z.to_euclidean_division_equations. nia. }
  rewrite Hq in Hd. destruct Hd as (rid & s' & Hr3 & Hh3 & Hl3 & Hst3).
  { unfold local_room. rewrite Hloc2. fold n in Hroom, Hsz1. lia. }
  exists rid, s'. split; [|split; [exact Hh3|split; [exact Hl3|apply Hst3]]].
  unfold kv_int4_avg_bulk. rewrite (bindM_run _ _ _ _ _ Hr1). fold n.
  now rewrite (bindM_run _ _ _ _ _ Hr2).
Qed.

(** The maximum and the minimum of an array of stored integers: the RID of an element whose
    value is an upper, or a lower, bound of all the values; nothing is stored or freed. *)
Theorem kv_int4_max_min_total (array : list RID) (vs : list Z) (s : S) :
  healthy s -> views (tee_store s) TInt array vs -> Forall in_u64 array -> array <> [] ->
  (exists rid v s', kv_int4_max_bulk array s = (Ok rid, s') /\ healthy s' /\ st_equiv (tee_store s) (tee_store s') /\
     rid ∈ array /\ view (tee_store s') TInt rid = Some v /\ v ∈ vs /\ Forall (fun x => x <= v) vs) /\
  (exists rid v s', kv_int4_min_bulk array s = (Ok rid, s') /\ healthy s' /\ st_equiv (tee_store s) (tee_store s') /\
     rid ∈ array /\ view (tee_store s') TInt rid = Some v /\ v ∈ vs /\ Forall (fun x => v <= x) vs).
Proof.
  intros Hh Hv Hu Hne. destruct array as [|value rest]; [easy|].
  inversion Hv as [|? b ? vs' Hk Hrest]; subst. inversion Hu as [|? ? Hu1 Hur]; subst.
  assert (Hc : Forall (fun _ : Z => True) vs') by (clear; induction vs'; constructor; auto).
  split.
  - destruct (extremum_loop_spec TInt (fun v => v) (fun _ => True) kv_int_cmp kv_int_cmp_spec 1 rest ltac:(lia)
                vs' value b s Hh Hu1 Hur Hk Hrest I Hc) as (rid & v & s' & Hr & Hh' & He & Hin & Hvw & Hiv & Hall).
    exists rid, v, s'. split_and!; try assumption. revert Hall. apply List.Forall_impl. intros x. lia.
  - destruct (extremum_loop_spec TInt (fun v => v) (fun _ => True) kv_int_cmp kv_int_cmp_spec (-1) rest ltac:(lia)
                vs' value b s Hh Hu1 Hur Hk Hrest I Hc) as (rid & v & s' & Hr & Hh' & He & Hin & Hvw & Hiv & Hall).
    exists rid, v, s'. split_and!; try assumption. revert Hall. apply List.Forall_impl. intros x. lia.
Qed.
End Specs.

(** ** The functions on a connection *)

(** A worker that holds the local integers 7 and 3. *)
Definition machine_73 : machine := mkMachine (with_store fresh_worker two_ints) idle_region.
Lemma machine_73_healthy : healthy machine_73.
Proof. apply machine_healthy; [exact fresh_nonce|]. rewrite wk_store_with. exact two_ints_ok. Qed.

Lemma kv_int4_text_roundtrip_witness :
  exists rid s1, kv_int4_in (fmt_int 1000) machine_0 = (Ok rid, s1) /\ healthy s1 /\ islocal rid = true /\
    view (tee_store s1) TInt rid = Some 1000 /\ (can_encrypt s1 (t := TInt) 1000 = true ->
    (exists s2, kv_int4_send rid s1 = (Ok (pq_sendstring (fmt_int 1000)), s2) /\ healthy s2) /\
    (exists s2, kv_int4_out rid s1 = (Err Undefined, s2) /\ healthy s2)).
Proof.
  apply (kv_int4_text_roundtrip 1000 machine_0 machine_0_healthy).
  - reflexivity.
  - reflexivity.
  - unfold in_s32. lia.
Defined.

Lemma kv_int4_sum_bulk_total_witness :
  exists rid s', kv_int4_sum_bulk [idx2local 0; idx2local 1] machine_73 = (Ok rid, s') /\ healthy s' /\
    islocal rid = true /\ view (tee_store s') TInt rid = Some 10.
Proof.
  apply (kv_int4_sum_bulk_total [idx2local 0; idx2local 1] [7; 3] machine_73 machine_73_healthy).
  - repeat constructor.
  - repeat constructor; vm_compute; congruence.
  - apply (bool_decide_unpack _). vm_compute. exact I.
  - discriminate.
  - reflexivity.
  - reflexivity.
Defined.

Lemma kv_int4_avg_bulk_total_witness :
  exists rid s', kv_int4_avg_bulk [idx2local 0; idx2local 1] machine_73 = (Ok rid, s') /\ healthy s' /\
    islocal rid = true /\ view (tee_store s') TInt rid = Some 5.
Proof.
  apply (kv_int4_avg_bulk_total [idx2local 0; idx2local 1] [7; 3] machine_73 machine_73_healthy).
  - repeat constructor.
  - repeat constructor; vm_compute; congruence.
  - apply (bool_decide_unpack _). vm_compute. exact I.
  - discriminate.
  - reflexivity.
  - reflexivity.
  - reflexivity.
  - split; [split; [split; reflexivity || easy|vm_compute; congruence]|reflexivity].
Defined.

Lemma kv_int4_max_min_total_witness :
  (exists rid v s', kv_int4_max_bulk [idx2local 0; idx2local 1] machine_73 = (Ok rid, s') /\ healthy s' /\
     st_equiv (tee_store machine_73) (tee_store s') /\ rid ∈ [idx2local 0; idx2local 1] /\
     view (tee_store s') TInt rid = Some v /\ v ∈ [7; 3] /\ Forall (fun x => x <= v) [7; 3]) /\
  (exists rid v s', kv_int4_min_bulk [idx2local 0; idx2local 1] machine_73 = (Ok rid, s') /\ healthy s' /\
     st_equiv (tee_store machine_73) (tee_store s') /\ rid ∈ [idx2local 0; idx2local 1] /\
     view (tee_store s') TInt rid = Some v /\ v ∈ [7; 3] /\ Forall (fun x => v <= x) [7; 3]).
Proof.
  apply (kv_int4_max_min_total [idx2local 0; idx2local 1] [7; 3] machine_73 machine_73_healthy).
  - repeat constructor.
  - repeat constructor; vm_compute; congruence.
  - discriminate.
Defined.

(** Summing an array that repeats a local RID: the first chunk frees it, the sum of the second
    chunk is stored under the freed RID, and freeing that chunk drops the result. *)
Theorem sum_of_repeated_local_rid :
  let s := mkMachine worker_7 (replicate 4096 0) in
  view (tee_store s) TInt (idx2local 0) = Some 7 /\
  match kv_int4_sum_bulk (replicate 257 (idx2local 0)) s with
  | (Ok rid, s') => rid = idx2local 0 /\ view (tee_store s') TInt rid = None
  | _ => False
  end.
Proof. vm_compute. repeat split. Qed.

(** The binary formats do not fit together: what [kv_int4_send] produces for 5 is read by
    [kv_int4_recv] as another number. *)
Theorem binary_format_not_inverse :
  let s := mkMachine fresh_worker (replicate 4096 0) in
  match kv_int4_in [53] s with
  | (Ok rid, s1) =>
      match kv_int4_send rid s1 with
      | (Ok msg, s2) =>
          match kv_int4_recv (msg ++ [0; 0]) s2 with
          | (Ok rid', s3) => view (tee_store s3) TInt rid = Some 5 /\ view (tee_store s3) TInt rid' = Some 889192448
          | _ => False
          end
      | _ => False
      end
  | _ => False
  end.
Proof. vm_compute. repeat split. Qed.
