(* ===== verification/SqlFloat.v ===== *)
(** The SQL functions of type kv_float4: src/integrity_zone/float.cpp. A C [float] is its
    32-bit pattern. *)
From Stdlib Require Import SpecFloat String.
From S2P Require Import Prelude Rid LocalStore FileMap KV Tee F32 Crypto Wal Handler Layout Request Region Invoker Fmt Clib Aggregate.

(** The output functions of PostgreSQL that the casts call. *)
Class PgOutput : Type := {
  Numeric : Type;
  numeric_out : Numeric -> bytes;
  float8out : Z -> bytes;
  int8out : Z -> bytes;
  int4out : Z -> bytes;
}.
(** The documented text of an integer is its decimal notation. *)
Class PgOutputLaws `{PgOutput} : Prop := {
  int8out_decimal : forall n, in_s64 n -> int8out n = fmt_int n;
  int4out_decimal : forall n, in_s32 n -> int4out n = fmt_int n;
}.

(** ** Reading a number *)

Definition is_huge (x : spec_float) : bool :=
  match x with
  | S754_zero _ | S754_infinity _ => true
  | _ => false
  end.

(** The special values the code looks for itself, in its order: name and value. *)
Definition specials : list (bytes * spec_float) :=
  [([110; 97; 110], S754_nan);                                                       (* NaN *)
   ([105; 110; 102; 105; 110; 105; 116; 121], S754_infinity false);                  (* Infinity *)
   ([43; 105; 110; 102; 105; 110; 105; 116; 121], S754_infinity false);              (* +Infinity *)
   ([45; 105; 110; 102; 105; 110; 105; 116; 121], S754_infinity true);               (* -Infinity *)
   ([105; 110; 102], S754_infinity false);                                           (* inf *)
   ([43; 105; 110; 102], S754_infinity false);                                       (* +inf *)
   ([45; 105; 110; 102], S754_infinity true)].                                       (* -inf *)
Fixpoint find_special (l : list (bytes * spec_float)) (num : bytes) : option (spec_float * bytes) :=
  match l with
  | [] => None
  | (name, x) :: l' => match prefix_nocase name num with
                       | Some rest => Some (x, rest)
                       | None => find_special l' num
                       end
  end.

(** [pg_float4_in]. *)
Definition pg_float4_in (num : bytes) : res Z :=
  match skip_spaces num with
  | [] => Err Raised
  | num =>
      let '(val, endptr, erange) := strtod num in
      let parsed :=
        match endptr, erange with
        | Some rest, false => Ok (val, rest)
        | _, _ =>
            match find_special specials num, erange, endptr with
            | Some (x, rest), _, _ => Ok (x, rest)
            | None, true, Some rest => if is_huge val then Err Raised else Ok (val, rest)
            | None, _, _ => Err Raised
            end
        end in
      match parsed with
      | Ok (val, rest) =>
          match skip_spaces rest with
          | [] => Ok (bits_of_f32 (sf_convert 24 128 val))
          | _ => Err Raised
          end
      | Err e => Err e
      end
  end.

(** The conversion of an [int] to [float]. *)
Definition float_of_int (n : Z) : Z := bits_of_f32 (binary_normalize 24 128 n 0 false).

Section Functions.
Context {S : Type} `{TEEInvoker S} `{PgOutput}.

(** ** Requests *)

Definition kv_float_put (value : Z) : M S RID :=
  call_rid (PutPlainIntoKVRequest TFloat CMD_FLOAT_PUT (to_bytes (t := TFloat) value) (res_var 0)).
Definition kv_float_get (key : RID) : M S Z :=
  let* b := call_bytes (GetPlainFromKVRequest TFloat CMD_FLOAT_GET key (res_var 0)) in
  retM (of_bytes (t := TFloat) b).
Definition kv_float_put_enc (value : bytes) : M S RID :=
  call_rid (PutEncIntoKVRequest TFloat CMD_FLOAT_PUT_ENC value (res_var 0)).
Definition kv_float_get_enc (key : RID) : M S bytes :=
  call_bytes (GetEncFromKVRequest TFloat CMD_FLOAT_GET_ENC key (res_var 0)).
Definition kv_float_calc (cmd : Z) (i1 i2 : RID) : M S RID := call_rid (CalcRequest cmd i1 i2 (res_var 0)).
Definition kv_float_add (i1 i2 : RID) : M S RID := kv_float_calc CMD_FLOAT_PLUS i1 i2.
Definition kv_float_sub (i1 i2 : RID) : M S RID := kv_float_calc CMD_FLOAT_MINUS i1 i2.
Definition kv_float_mult (i1 i2 : RID) : M S RID := kv_float_calc CMD_FLOAT_MULT i1 i2.
Definition kv_float_div (i1 i2 : RID) : M S RID := kv_float_calc CMD_FLOAT_DIV i1 i2.
Definition kv_float_pow (i1 i2 : RID) : M S RID := kv_float_calc CMD_FLOAT_POW i1 i2.
Definition kv_float_mod (i1 i2 : RID) : M S RID := kv_float_calc CMD_FLOAT_MOD i1 i2.
Definition kv_float_cmp (i1 i2 : RID) : M S Z := call_int (CmpRequest CMD_FLOAT_CMP i1 i2 (res_var 0)).
Definition kv_float_sum_bulk (bulk_size : Z) (keys : list RID) : M S RID :=
  call_rid (BulkRequest CMD_FLOAT_SUM_BULK (s32 bulk_size) keys (res_var 0)).

Definition enc_float_encrypt (pSrc : Z) : M S (Z * bytes) :=
  let* '(resp, v) := call_resp (EncRequest TFloat CMD_FLOAT_ENC (to_bytes (t := TFloat) pSrc) (res_var 0)) in
  let* pDst := as_bytes v in retM (resp, pDst).
Definition enc_float_decrypt (pSrc : bytes) : M S (Z * Z) :=
  let* '(resp, v) := call_resp (DecRequest TFloat CMD_FLOAT_DEC pSrc (res_var 0)) in
  let* p := as_bytes v in retM (resp, of_bytes (t := TFloat) p).

(** ** Input and output *)

(** The casts ignore the response of the encryption. *)
Definition float4_to_kv_float4 (arg : Z) : M S RID :=
  let* '(_, result) := enc_float_encrypt arg in kv_float_put_enc result.
Definition numeric_to_kv_float4 (num : Numeric) : M S RID :=
  let* v := ofRes (pg_float4_in (numeric_out num)) in
  let* '(_, result) := enc_float_encrypt v in kv_float_put_enc result.
Definition double_to_kv_float4 (num : Z) : M S RID :=
  let* v := ofRes (pg_float4_in (float8out num)) in
  let* '(_, result) := enc_float_encrypt v in kv_float_put_enc result.
(** The variable has PostgreSQL's C type [int8], which is 8 bits wide. *)
Definition s8 (x : Z) : Z := (x + 2 ^ 7) mod 2 ^ 8 - 2 ^ 7.
Definition int8_to_kv_float4 (arg : Z) : M S RID :=
  let num := s8 (s64 arg) in
  let* v := ofRes (pg_float4_in (int8out num)) in
  let* '(_, result) := enc_float_encrypt v in kv_float_put_enc result.
Definition int4_to_kv_float4 (arg : Z) : M S RID :=
  let num := s32 arg in
  let* v := ofRes (pg_float4_in (int4out num)) in
  let* '(_, result) := enc_float_encrypt v in kv_float_put_enc result.

Definition kv_float4_in (pIn : bytes) : M S RID :=
  let* v := ofRes (pg_float4_in pIn) in
  let* '(error, result) := enc_float_encrypt v in
  do* raise_unless_ok error in
  kv_float_put_enc result.

(** The text goes into 32 bytes. *)
Definition kv_float4_out (id : RID) : M S bytes :=
  let* result := kv_float_get_enc id in
  let* '(error, v) := enc_float_decrypt result in
  do* raise_unless_ok error in
  let text := fmt_f (f32_of_bits v) in
  do* definedM (strlen text + 1 <=? 32) in
  retM text.

(** ** Operators *)

Definition kv_float4_add (id1 id2 : RID) : M S RID := kv_float_add id1 id2.
Definition kv_float4_sub (id1 id2 : RID) : M S RID := kv_float_sub id1 id2.
Definition kv_float4_mult (id1 id2 : RID) : M S RID := kv_float_mult id1 id2.
Definition kv_float4_div (id1 id2 : RID) : M S RID := kv_float_div id1 id2.
Definition kv_float4_pow (id1 id2 : RID) : M S RID := kv_float_pow id1 id2.
Definition kv_float4_mod (id1 id2 : RID) : M S RID := kv_float_mod id1 id2.

Definition kv_float4_eq (id1 id2 : RID) : M S bool := let* cmp := kv_float_cmp id1 id2 in retM (cmp =? 0).
Definition kv_float4_ne (id1 id2 : RID) : M S bool := let* cmp := kv_float_cmp id1 id2 in retM (negb (cmp =? 0)).
Definition kv_float4_lt (id1 id2 : RID) : M S bool := let* cmp := kv_float_cmp id1 id2 in retM (cmp <? 0).
Definition kv_float4_le (id1 id2 : RID) : M S bool := let* cmp := kv_float_cmp id1 id2 in retM (cmp <=? 0).
Definition kv_float4_gt (id1 id2 : RID) : M S bool := let* cmp := kv_float_cmp id1 id2 in retM (0 <? cmp).
Definition kv_float4_ge (id1 id2 : RID) : M S bool := let* cmp := kv_float_cmp id1 id2 in retM (0 <=? cmp).
Definition kv_float4_cmp (id1 id2 : RID) : M S Z := kv_float_cmp id1 id2.

(** ** Aggregates *)

Definition kv_float4_sum_bulk (array : list RID) : M S RID :=
  match array with
  | [] => failM Undefined
  | value :: rest => bulk_loop kv_float_sum_bulk [value] rest
  end.
Definition kv_float4_avg_bulk (array : list RID) : M S RID :=
  match array with
  | [] => failM Undefined
  | value :: rest =>
      let* sum := bulk_loop kv_float_sum_bulk [value] rest in
      let* div := kv_float_put (float_of_int (Z.of_nat (length array))) in
      kv_float_div sum div
  end.
Definition kv_float4_max_bulk (array : list RID) : M S RID :=
  match array with
  | [] => failM Undefined
  | value :: rest => extremum_loop kv_float_cmp (-1) value rest
  end.
Definition kv_float4_min_bulk (array : list RID) : M S RID :=
  match array with
  | [] => failM Undefined
  | value :: rest => extremum_loop kv_float_cmp 1 value rest
  end.
End Functions.

(** ** Reading integers *)

(** The text of an [int] is read as that number, rounded to [double] and then to [float]. *)
Lemma pg_float4_in_int n : in_s32 n -> pg_float4_in (fmt_int n) = Ok (bits_of_f32 (sf_convert 24 128 (double_of_int n))).
Proof.
  intros Hn. destruct (fmt_int_shape n Hn) as (ds & Hf & Hd & Hne & Hv). unfold in_s32 in Hn.
  pose proof (strtod_digits (n <? 0) ds Hd Hne ltac:(lia)) as Hs.
  replace ((if n <? 0 then [45] else []) ++ ds) with (fmt_int n) in Hs by (rewrite Hf; now destruct (n <? 0)).
  assert (Hsk : skip_spaces (fmt_int n) = fmt_int n /\ fmt_int n <> []).
  { rewrite Hf. destruct (n <? 0); [now split|]. destruct ds as [|c ds]; [easy|]. cbn [forallb] in Hd.
    apply andb_true_iff in Hd as [Hc _]. apply is_digit_spec in Hc. split; [apply skip_spaces_digit; lia|discriminate]. }
  destruct Hsk as [Hsk Hnil]. unfold pg_float4_in. rewrite Hsk.
  destruct (fmt_int n) as [|c l]; [easy|]. rewrite Hs. cbn [skip_spaces]. do 3 f_equal. rewrite Hv.
  unfold double_of_int. destruct (Z.ltb_spec n 0); cbn [cond_Zopp].
  - rewrite Z.abs_neq, Z.opp_involutive by lia. now destruct n.
  - now rewrite Z.abs_eq by lia.
Qed.

(** ** The length of the text *)

(** The numbers whose text, with its terminator, has room in the 32 bytes of
    [kv_float4_out]. *)
Definition text_fits (x : spec_float) : bool :=
  match x with
  | S754_finite s m e => (e <? 0) || (Zpos m * 2 ^ e <? 10 ^ (if s then 23 else 24))
  | _ => true
  end.

Lemma div_nearest_range n d : 0 <= n -> 0 < d -> 0 <= div_nearest n d <= n + 1.
Proof.
  intros Hn Hd. unfold div_nearest. pose proof (Z.div_pos n d Hn Hd). pose proof (Z.div_le_upper_bound n d n Hd ltac:(nia)).
  destruct (_ || _); lia.
Qed.

Lemma fmt_f_fits v : (strlen (fmt_f (f32_of_bits v)) + 1 <=? 32) = text_fits (f32_of_bits v).
Proof.
  pose proof (f32_of_bits_canonical v) as Hc. unfold strlen.
  destruct (f32_of_bits v) as [[]|[]| |sg m e]; try reflexivity. cbn [canonical] in Hc.
  change (emin 24 128) with (-149) in Hc. change (128 - 24) with 104 in Hc. cbn [fmt_f text_fits].
  set (n := if 0 <=? e then _ else _).
  assert (Hn : 0 <= n < 10 ^ 60 /\ (e < 0 -> n < 10 ^ 20) /\ (0 <= e -> n = Zpos m * 2 ^ e * 10 ^ 6)).
  { unfold n. destruct (Z.leb_spec 0 e) as [He|He].
    - pose proof (Z.pow_le_mono_r 2 e 104 ltac:(lia) ltac:(lia)). split; [|lia]. nia.
    - pose proof (div_nearest_range (Zpos m * 10 ^ 6) (2 ^ (- e)) ltac:(lia) ltac:(lia)). lia. }
  clearbody n. destruct Hn as (Hn & Hneg & Hpos). rewrite length_app. apply eq_true_iff_eq.
  rewrite Z.leb_le, orb_true_iff, !Z.ltb_lt.
  assert (Hk : forall k, (length (fmt_fixed6 n) <= k + 8)%nat <-> n < 10 ^ Z.of_nat (k + 7))
    by (intros; now apply length_fmt_fixed6).
  destruct (Z.ltb_spec e 0) as [He|He].
  - pose proof (proj2 (Hk 22%nat) ltac:(specialize (Hneg He); lia)). destruct sg; cbn [length]; lia.
  - specialize (Hpos He). destruct sg; cbn [length]; [specialize (Hk 22%nat)|specialize (Hk 23%nat)];
      cbn [Nat.add Z.of_nat Pos.of_succ_nat Pos.succ] in Hk; lia.
Qed.

Section Specs.
Context `{CryptoLaws} {S : Type} `{!TEEInvoker S} `{!TEEInvokerLaws S} `{PgOutput}.

(** ** Arithmetic *)

Definition kv_float4_op (op : float_op) : RID -> RID -> M S RID :=
  match op with
  | FAdd => kv_float4_add
  | FSub => kv_float4_sub
  | FMult => kv_float4_mult
  | FDiv => kv_float4_div
  end.

Lemma kv_float4_op_spec op id1 id2 (s : S) a b :
  healthy s -> in_u64 id1 -> in_u64 id2 -> view (tee_store s) TFloat id1 = Some a ->
  view (tee_store s) TFloat id2 = Some b -> local_room (tee_store s) TFloat ->
  exists rid s', kv_float4_op op id1 id2 s = (Ok rid, s') /\ healthy s' /\ islocal rid = true /\
    stored (tee_store s) (tee_store s') TFloat (f32_arith op a b) rid.
Proof.
  intros Hh Hu1 Hu2 Ha Hb Hroom.
  pose proof (fun cmd => calc2_spec (ta := TFloat) (tb := TFloat) (tc := TFloat) cmd
    (fun l r => Ok (f32_arith op l r)) id1 id2 s a b Hh Hu1 Hu2 Ha Hb Hroom) as Hc.
  destruct op; [apply (Hc CMD_FLOAT_PLUS)|apply (Hc CMD_FLOAT_MINUS)|apply (Hc CMD_FLOAT_MULT)|apply (Hc CMD_FLOAT_DIV)];
    reflexivity.
Qed.

(** C18: the sum, difference, product or quotient of two stored floats is a local RID that
    holds a 32-bit pattern, and the pattern is the one of the correctly rounded IEEE 754
    result; nothing else in the store changes. *)
Theorem kv_float4_arith_ieee op id1 id2 (s : S) a b :
  healthy s -> in_u64 id1 -> in_u64 id2 -> view (tee_store s) TFloat id1 = Some a ->
  view (tee_store s) TFloat id2 = Some b -> local_room (tee_store s) TFloat ->
  exists v rid s', kv_float4_op op id1 id2 s = (Ok rid, s') /\ healthy s' /\ islocal rid = true /\
    stored (tee_store s) (tee_store s') TFloat v rid /\ in_u32 v /\
    f32_of_bits v = ieee_op op (f32_of_bits a) (f32_of_bits b).
Proof.
  intros Hh Hu1 Hu2 Ha Hb Hroom. destruct (f32_arith_ieee op a b) as [Hr Hi].
  destruct (kv_float4_op_spec op id1 id2 s a b Hh Hu1 Hu2 Ha Hb Hroom) as (rid & s' & Hrun & Hh' & Hl & Hst).
  exists (f32_arith op a b), rid, s'. now split_and!.
Qed.

(** ** Comparison *)

(** A stored float that is not a NaN. *)
Definition comparable (v : Z) : Prop := in_u32 v /\ f32_ok v = true.

Lemma kv_float_cmp_spec : cmp_request_spec (S := S) TFloat f32_key comparable kv_float_cmp.
Proof.
  intros k1 k2 v1 v2 s Hh Hu1 Hu2 Hv1 Hv2 [Hr1 Ho1] [Hr2 Ho2]. rewrite <- float_three_way_key by assumption.
  apply (cmp2_spec TFloat CMD_FLOAT_CMP float_three_way k1 k2 v1 v2 s); try assumption; try reflexivity.
  unfold float_three_way, in_s32. destruct (f32_gt v1 v2), (f32_lt v1 v2); lia.
Qed.

(** ** Input and output *)

Lemma put_float_spec v (s : S) : healthy s -> can_encrypt s (t := TFloat) v = true -> local_room (tee_store s) TFloat -> in_u32 v ->
  exists rid s', (let* '(_, result) := enc_float_encrypt v in kv_float_put_enc result) s = (Ok rid, s') /\
    healthy s' /\ islocal rid = true /\ stored (tee_store s) (tee_store s') TFloat v rid.
Proof. intros Hh Henc Hroom Hv. exact (insert_unchecked_spec TFloat v s Hh Henc Hroom Hv I). Qed.

(** The output function prints the number with six digits after the point, and is undefined
    exactly for the numbers whose text is longer than its buffer: those of at least 10^24,
    or at most -10^23. *)
Theorem kv_float4_out_bounds id v (s : S) :
  healthy s -> can_encrypt s (t := TFloat) v = true -> in_u64 id -> view (tee_store s) TFloat id = Some v -> in_u32 v ->
  exists s', kv_float4_out id s =
      (if text_fits (f32_of_bits v) then Ok (fmt_f (f32_of_bits v)) else Err Undefined, s') /\
    healthy s' /\ st_equiv (tee_store s) (tee_store s').
Proof.
  intros Hh Henc Hu Hv Hr. destruct (fetch_typed_spec TFloat v id s Hh Henc Hu Hv I Hr) as (s' & Hf & Hh' & He).
  exists s'. split; [|now split]. unfold kv_float4_out.
  apply bindM_ok in Hf as (c & s1 & Hg & Hf). rewrite (bindM_run _ _ _ _ _ Hg).
  apply bindM_ok in Hf as ([error x] & s2 & Hd & Hf). rewrite (bindM_run _ _ _ _ _ Hd).
  apply bindM_ok in Hf as ([] & s3 & Hr3 & Hf). rewrite (bindM_run _ _ _ _ _ Hr3).
  unfold retM in Hf. injection Hf as -> ->. rewrite fmt_f_fits. now destruct (text_fits (f32_of_bits v)).
Qed.

(** casting an integer stores the nearest float: of the number itself for an [int4], but
    for an [int8] only of its low eight bits, because the variable that takes the argument
    has PostgreSQL's C type [int8]. *)
Theorem integer_casts n (s : S) :
  PgOutputLaws -> healthy s -> (forall v : Z, can_encrypt s (t := TFloat) v = true) -> local_room (tee_store s) TFloat -> in_s64 n ->
  (in_s32 n -> exists rid s', int4_to_kv_float4 n s = (Ok rid, s') /\ healthy s' /\
     stored (tee_store s) (tee_store s') TFloat (bits_of_f32 (sf_convert 24 128 (double_of_int n))) rid) /\
  (exists rid s', int8_to_kv_float4 n s = (Ok rid, s') /\ healthy s' /\
     stored (tee_store s) (tee_store s') TFloat (bits_of_f32 (sf_convert 24 128 (double_of_int (s8 n)))) rid).
Proof.
  intros HP Hh Henc Hroom Hn.
  assert (Hput : forall k, exists rid s', (let* '(_, result) := enc_float_encrypt
      (bits_of_f32 (sf_convert 24 128 (double_of_int k))) in kv_float_put_enc result) s = (Ok rid, s') /\ healthy s' /\
      stored (tee_store s) (tee_store s') TFloat (bits_of_f32 (sf_convert 24 128 (double_of_int k))) rid).
  { intros k. destruct (put_float_spec _ s Hh (Henc _) Hroom (proj1 (bits_of_f32_inverse _ (sf_convert_canonical (double_of_int k)))))
      as (rid & s' & Hr & Hh' & _ & Hst). now exists rid, s'. }
  split.
  - intros H32. unfold int4_to_kv_float4. rewrite s32_small, int4out_decimal, pg_float4_in_int by exact H32.
    exact (Hput n).
  - assert (H8 : in_s32 (s8 n)).
    { unfold s8, in_s32. pose proof (Z.mod_pos_bound (n + 2 ^ 7) (2 ^ 8) ltac:(lia)). lia. }
    assert (H64 : in_s64 (s8 n)) by (unfold in_s64, in_s32 in *; lia).
    unfold int8_to_kv_float4. rewrite s64_small, int8out_decimal, pg_float4_in_int by assumption. exact (Hput (s8 n)).
Qed.

(** ** Aggregates *)

Lemma kv_float_sum_bulk_request :
  bulk_request_spec (S := S) TFloat float_sum (fun _ => true) kv_float_sum_bulk.
Proof.
  intros keys vs s Hh Hv Hu Hlen _ Hroom.
  apply (bulk_request_call TFloat CMD_FLOAT_SUM_BULK Tee.kv_float_sum_bulk); try assumption; try reflexivity.
  exact (Tee.kv_float_sum_bulk_spec keys vs _ (h_store _ Hh) Hv Hu Hroom).
Qed.

Lemma always_defined {A} (f : list A -> A) vs : forall bulk, chunks_defined f (fun _ => true) bulk vs = true.
Proof. induction vs as [|v vs IH]; intros bulk; cbn [chunks_defined]; [reflexivity|]. destruct (_ =? _); apply IH. Qed.

(** The sum of an array adds its chunks of 256 in double precision and rounds the sum of
    each to a [float] that starts the next. *)
Lemma kv_float4_sum_spec value rest v vs (s : S) :
  healthy s -> views (tee_store s) TFloat (value :: rest) (v :: vs) -> Forall in_u64 (value :: rest) ->
  NoDup (value :: rest) -> lsize (st_local (tee_store s)) TFloat + Z.of_nat (length (value :: rest)) < 2 ^ 48 - 1 ->
  exists rid s', kv_float4_sum_bulk (value :: rest) s = (Ok rid, s') /\ healthy s' /\ islocal rid = true /\ in_u64 rid /\
    view (tee_store s') TFloat rid = Some (chunked float_sum [v] vs) /\
    lsize (st_local (tee_store s')) TFloat <= lsize (st_local (tee_store s)) TFloat + Z.of_nat (length (value :: rest)) /\
    (forall p, kv_part (st_kv (tee_store s')) p = kv_part (st_kv (tee_store s)) p).
Proof.
  intros Hh Hv Hu Hnd Hroom. cbn [length] in *. inversion Hv as [|? ? ? ? Hk Hrest]; subst.
  destruct (bulk_loop_spec TFloat float_sum (fun _ => true) kv_float_sum_bulk kv_float_sum_bulk_request rest vs [value] [v] s)
    as (rid & s' & Hr & Hh' & Hl & Hu' & Hval & Hsz & Hkv); try assumption.
  - apply views_cons; [exact Hk|constructor].
  - cbn. lia.
  - apply always_defined.
  - lia.
  - exists rid, s'. split_and!; auto; lia.
Qed.
(** The sum of an array and its average: the average is the IEEE 754 quotient of the sum and
    the number of elements, which takes a place in the default partition. *)
Theorem kv_float4_avg_bulk_total (array : list RID) v vs (s : S) :
  healthy s -> views (tee_store s) TFloat array (v :: vs) -> Forall in_u64 array -> NoDup array ->
  lsize (st_local (tee_store s)) TFloat + Z.of_nat (length array) < 2 ^ 48 - 1 ->
  let n := float_of_int (Z.of_nat (length array)) in
  room (tee_store s) TFloat n false RID_DEFAULT_PARTITION ->
  exists avg rid s', kv_float4_avg_bulk array s = (Ok rid, s') /\ healthy s' /\ islocal rid = true /\
    view (tee_store s') TFloat rid = Some avg /\ in_u32 avg /\
    f32_of_bits avg = SFdiv 24 128 (f32_of_bits (chunked float_sum [v] vs)) (f32_of_bits n).
Proof.
  intros Hh Hv Hu Hnd Hroom n [Hgp Hpr]. destruct array as [|value rest]; [inversion Hv|].
  destruct (kv_float4_sum_spec value rest v vs s Hh Hv Hu Hnd Hroom)
    as (sum & s1 & Hr1 & Hh1 & Hl1 & Hu1 & Hval1 & Hsz1 & Hkv1).
  assert (Hn : in_u32 n) by (apply bits_of_f32_inverse, binary_normalize_canonical; lia).
  destruct (plain_put_spec TFloat n s1 Hh1 ltac:(discriminate) Hn)
    as (div & s2 & Hr2 & Hh2 & Hg2 & Hst2 & Hloc2); [split; [exact Hgp|now rewrite Hkv1]|].
  assert (Hval2 : view (tee_store s2) TFloat sum = Some (chunked float_sum [v] vs)).
  { rewrite (stored_frame _ _ _ _ _ Hst2); [exact Hval1|exact Hu1|]. intros [= E]. congruence. }
  destruct (kv_float4_op_spec FDiv sum div s2 _ n Hh2 Hu1 (stored_u64 _ _ _ _ _ Hst2) Hval2
              (stored_view _ _ _ _ _ Hst2)) as (rid & s' & Hr3 & Hh3 & Hl3 & Hst3).
  { unfold local_room. rewrite Hloc2. lia. }
  destruct (f32_arith_ieee FDiv (chunked float_sum [v] vs) n) as [Hr Hi].
  exists (f32_arith FDiv (chunked float_sum [v] vs) n), rid, s'.
  split; [|split_and!; auto; apply Hst3]. unfold kv_float4_avg_bulk.
  cbn [kv_float4_sum_bulk] in Hr1. rewrite (bindM_run _ _ _ _ _ Hr1). fold n. now rewrite (bindM_run _ _ _ _ _ Hr2).
Qed.

(** The maximum and the minimum of an array of stored floats without NaN: the RID of an
    element whose value bounds all the values. *)
Theorem kv_float4_max_min_total (array : list RID) (vs : list Z) (s : S) :
  healthy s -> views (tee_store s) TFloat array vs -> Forall in_u64 array -> array <> [] -> Forall comparable vs ->
  (exists rid v s', kv_float4_max_bulk array s = (Ok rid, s') /\ healthy s' /\ st_equiv (tee_store s) (tee_store s') /\
     rid ∈ array /\ view (tee_store s') TFloat rid = Some v /\ v ∈ vs /\ Forall (fun x => f32_key x <= f32_key v) vs) /\
  (exists rid v s', kv_float4_min_bulk array s = (Ok rid, s') /\ healthy s' /\ st_equiv (tee_store s) (tee_store s') /\
     rid ∈ array /\ view (tee_store s') TFloat rid = Some v /\ v ∈ vs /\ Forall (fun x => f32_key v <= f32_key x) vs).
Proof.
  intros Hh Hv Hu Hne Hc. destruct array as [|value rest]; [easy|].
  inversion Hv as [|? b ? vs' Hk Hrest]; subst. inversion Hu as [|? ? Hu1 Hur]; subst. inversion Hc as [|? ? Hcb Hcr]; subst.
  split.
  - destruct (extremum_loop_spec TFloat f32_key comparable kv_float_cmp kv_float_cmp_spec 1 rest ltac:(lia)
                vs' value b s Hh Hu1 Hur Hk Hrest Hcb Hcr) as (rid & v & s' & Hr & Hh' & He & Hin & Hvw & Hiv & Hall).
    exists rid, v, s'. split_and!; try assumption. revert Hall. apply List.Forall_impl. intros x. lia.
  - destruct (extremum_loop_spec TFloat f32_key comparable kv_float_cmp kv_float_cmp_spec (-1) rest ltac:(lia)
                vs' value b s Hh Hu1 Hur Hk Hrest Hcb Hcr) as (rid & v & s' & Hr & Hh' & He & Hin & Hvw & Hiv & Hall).
    exists rid, v, s'. split_and!; try assumption. revert Hall. apply List.Forall_impl. intros x. lia.
Qed.
End Specs.

(** ** The functions on a connection *)

#[export] Instance demo_output : PgOutput := {
  Numeric := Z;
  numeric_out := fmt_int;
  float8out _ := [48];
  int8out := fmt_int;
  int4out := fmt_int;
}.
#[export] Instance demo_output_laws : PgOutputLaws.
Proof. split; reflexivity. Qed.

Lemma kv_float4_arith_ieee_witness :
  exists v rid s', kv_float4_op FDiv (idx2local 0) (idx2local 1) machine_pairs = (Ok rid, s') /\ healthy s' /\
    islocal rid = true /\ stored (tee_store machine_pairs) (tee_store s') TFloat v rid /\ in_u32 v /\
    f32_of_bits v = ieee_op FDiv (f32_of_bits 1065353216) (f32_of_bits 1077936128).
Proof.
  apply (kv_float4_arith_ieee FDiv (idx2local 0) (idx2local 1) machine_pairs _ _ machine_pairs_healthy); try reflexivity;
    vm_compute; split; congruence.
Defined.

Lemma kv_float4_out_bounds_witness :
  exists s', kv_float4_out (idx2local 1) machine_pairs = (Ok (str "3.000000"), s') /\ healthy s' /\
    st_equiv (tee_store machine_pairs) (tee_store s').
Proof.
  apply (kv_float4_out_bounds (idx2local 1) 1077936128 machine_pairs machine_pairs_healthy); try reflexivity;
    vm_compute; split; congruence.
Defined.
(** The number 10^24 is too long for the buffer. *)
Example text_too_long : text_fits (f32_of_bits 1733542428) = false /\ strlen (fmt_f (f32_of_bits 1733542428)) = 32.
Proof. vm_compute. split; reflexivity. Qed.

Lemma integer_casts_witness :
  (in_s32 300 -> exists rid s', int4_to_kv_float4 300 machine_pairs = (Ok rid, s') /\ healthy s' /\
     stored (tee_store machine_pairs) (tee_store s') TFloat (bits_of_f32 (sf_convert 24 128 (double_of_int 300))) rid) /\
  (exists rid s', int8_to_kv_float4 300 machine_pairs = (Ok rid, s') /\ healthy s' /\
     stored (tee_store machine_pairs) (tee_store s') TFloat (bits_of_f32 (sf_convert 24 128 (double_of_int 44))) rid).
Proof.
  apply (integer_casts 300 machine_pairs demo_output_laws machine_pairs_healthy); [reflexivity|reflexivity|].
  unfold in_s64. lia.
Defined.

Lemma kv_float4_avg_bulk_total_witness :
  exists avg rid s', kv_float4_avg_bulk [idx2local 0; idx2local 1] machine_pairs = (Ok rid, s') /\ healthy s' /\
    islocal rid = true /\ view (tee_store s') TFloat rid = Some avg /\ in_u32 avg /\
    f32_of_bits avg = SFdiv 24 128 (f32_of_bits 1082130432) (f32_of_bits 1073741824).
Proof.
  apply (kv_float4_avg_bulk_total [idx2local 0; idx2local 1] 1065353216 [1077936128] machine_pairs machine_pairs_healthy).
  - repeat constructor.
  - repeat constructor; vm_compute; congruence.
  - apply (bool_decide_unpack _). vm_compute. exact I.
  - reflexivity.
  - split; [split; [split; reflexivity || easy|vm_compute; congruence]|reflexivity].
Defined.

Lemma kv_float4_max_min_total_witness :
  (exists rid v s', kv_float4_max_bulk [idx2local 0; idx2local 1] machine_pairs = (Ok rid, s') /\ healthy s' /\
     st_equiv (tee_store machine_pairs) (tee_store s') /\ rid ∈ [idx2local 0; idx2local 1] /\
     view (tee_store s') TFloat rid = Some v /\ v ∈ [1065353216; 1077936128] /\
     Forall (fun x => f32_key x <= f32_key v) [1065353216; 1077936128]) /\
  (exists rid v s', kv_float4_min_bulk [idx2local 0; idx2local 1] machine_pairs = (Ok rid, s') /\ healthy s' /\
     st_equiv (tee_store machine_pairs) (tee_store s') /\ rid ∈ [idx2local 0; idx2local 1] /\
     view (tee_store s') TFloat rid = Some v /\ v ∈ [1065353216; 1077936128] /\
     Forall (fun x => f32_key v <= f32_key x) [1065353216; 1077936128]).
Proof.
  apply (kv_float4_max_min_total [idx2local 0; idx2local 1] _ machine_pairs machine_pairs_healthy).
  - repeat constructor.
  - repeat constructor; vm_compute; congruence.
  - discriminate.
  - repeat constructor; vm_compute; congruence.
Defined.

(** A NaN compares equal to every number, so equality is not transitive: 1 = NaN = 3. *)
Theorem nan_equals_everything :
  let nan := 2143289344 in
  float_three_way 1065353216 nan = 0 /\ float_three_way nan 1077936128 = 0 /\
  float_three_way 1065353216 1077936128 = -1.
Proof. vm_compute. repeat split. Qed.
