(* ===== verification/SqlText.v ===== *)
(** The SQL functions of type kv_text: src/integrity_zone/text.cpp. A C string is its bytes
    before the terminator. *)
From Stdlib Require Import String.
From S2P Require Import Prelude Rid LocalStore FileMap KV Like Tee Crypto Wal Handler Layout Request Region Invoker Fmt Clib.

Section Functions.
Context {S : Type} `{TEEInvoker S} `{PgFormat}.

(** ** Requests *)

(** The request copies [STRING_LENGTH] bytes from the pointer. *)
Definition kv_text_put (value : bytes) : M S RID :=
  do* definedM (STRING_LENGTH <=? blen value) in
  call_rid (PutPlainIntoKVRequest TText CMD_TEXT_PUT (take (Z.to_nat STRING_LENGTH) value) (res_var 0)).
Definition kv_text_get (key : RID) : M S bytes :=
  call_bytes (GetPlainFromKVRequest TText CMD_TEXT_GET key (res_var 0)).
Definition kv_text_put_enc (value : bytes) : M S RID :=
  call_rid (PutEncIntoKVRequest TText CMD_STRING_PUT_ENC value (res_var 0)).
Definition kv_text_get_enc (key : RID) : M S bytes :=
  call_bytes (GetEncFromKVRequest TText CMD_STRING_GET_ENC key (res_var 0)).
Definition kv_text_cmp (id1 id2 : RID) : M S Z := call_int (CmpRequest CMD_TEXT_CMP id1 id2 (res_var 0)).
Definition kv_text_concatenate (id1 id2 : RID) : M S RID := call_rid (CalcRequest CMD_TEXT_CONCAT id1 id2 (res_var 0)).
Definition kv_text_substring (str start length : RID) : M S RID :=
  call_rid (SubstringRequest str start length (res_var 0)).
Definition kv_text_like (str pattern : RID) : M S Z := call_int (CmpRequest CMD_TEXT_LIKE str pattern (res_var 0)).

Definition enc_text_encrypt (str : bytes) : M S (Z * bytes) :=
  let* '(resp, v) := call_resp (EncRequest TText CMD_STRING_ENC str (res_var 0)) in
  let* out := as_bytes v in retM (resp, out).
Definition enc_text_decrypt (estr : bytes) : M S (Z * bytes) :=
  let* '(resp, v) := call_resp (DecRequest TText CMD_STRING_DEC estr (res_var 0)) in
  let* out := as_bytes v in retM (resp, out).

(** ** Input and output *)

(** The result is allocated for a ciphertext of the length of [s]; the copy of the answer into
    it, a length and that many bytes, must fit. *)
Definition cstring_to_enctext_with_len (s : bytes) (len : Z) : M S bytes :=
  if STRING_LENGTH <=? len then failM Raised
  else
    do* definedM (len <=? blen s) in
    let* '(error, estr) := enc_text_encrypt (take (Z.to_nat len) s) in
    do* definedM (4 + blen estr <=? ENCSTRLEN len) in
    do* raise_unless_ok error in
    retM estr.

Definition kv_text_in (sIn : bytes) : M S RID :=
  let* estr := cstring_to_enctext_with_len sIn (u32 (strlen sIn)) in kv_text_put_enc estr.

(** The text goes into a zeroed buffer of [STRING_LENGTH] bytes, which is then used as a C
    string. *)
Definition rid_to_text (id : RID) : M S bytes :=
  let* estr := kv_text_get_enc id in
  let* '(error, str) := enc_text_decrypt estr in
  do* raise_unless_ok error in
  do* definedM (blen str <? STRING_LENGTH) in
  retM (until_zero (str ++ [0])).
Definition kv_text_out (id : RID) : M S bytes := rid_to_text id.
Definition kv_text_recv (buf : bytes) : M S RID :=
  let sIn := pq_getmsgstring buf in
  let* estr := cstring_to_enctext_with_len sIn (u32 (strlen sIn)) in kv_text_put_enc estr.
Definition kv_text_send (id : RID) : M S bytes :=
  let* pOut := rid_to_text id in retM (pq_sendstring pOut).

(** ** Operators *)

Definition kv_text_eq (id1 id2 : RID) : M S bool := let* cmp := kv_text_cmp id1 id2 in retM (0 =? cmp).
Definition kv_text_ne (id1 id2 : RID) : M S bool := let* cmp := kv_text_cmp id1 id2 in retM (negb (0 =? cmp)).
Definition kv_text_le (id1 id2 : RID) : M S bool := let* cmp := kv_text_cmp id1 id2 in retM (cmp <=? 0).
Definition kv_text_lt (id1 id2 : RID) : M S bool := let* cmp := kv_text_cmp id1 id2 in retM (cmp <? 0).
Definition kv_text_ge (id1 id2 : RID) : M S bool := let* cmp := kv_text_cmp id1 id2 in retM (0 <=? cmp).
Definition kv_text_gt (id1 id2 : RID) : M S bool := let* cmp := kv_text_cmp id1 id2 in retM (0 <? cmp).

(** The SQL functions of the same names. *)
Definition kv_text_cmp_op (id1 id2 : RID) : M S Z := kv_text_cmp id1 id2.
Definition kv_text_concatenate_op (id1 id2 : RID) : M S RID := kv_text_concatenate id1 id2.
Definition kv_text_like_op (id1 id2 : RID) : M S bool := let* res := kv_text_like id1 id2 in retM (negb (res =? 0)).
Definition kv_text_notlike (id1 id2 : RID) : M S bool := let* res := kv_text_like id1 id2 in retM (res =? 0).

(** The second and third argument are read with [PG_GETARG_INT32], and the two [int32_t]
    passed as RIDs. *)
Definition PG_GETARG_INT32 (d : RID) : Z := s32 d.
Definition substring (str a1 a2 : RID) : M S RID :=
  let from := PG_GETARG_INT32 a1 in
  let len := PG_GETARG_INT32 a2 in
  kv_text_substring str (u64 from) (u64 len).
End Functions.

Section Specs.
Context `{CryptoLaws} {S : Type} `{!TEEInvoker S} `{!TEEInvokerLaws S} `{PgFormat}.

(** ** Input and output *)

Lemma ciphers_length t (v : vty t) c : ciphers lib_decrypt v c -> blen c = IV_SIZE + TAG_SIZE + blen (to_bytes v).
Proof. intros [Hl _]. unfold blen. rewrite Hl. unfold IV_SIZE, TAG_SIZE. lia. Qed.

Lemma enctext_spec v (s : S) : healthy s -> can_encrypt s (t := TText) v = true -> strlen v < STRING_LENGTH ->
  exists c s', cstring_to_enctext_with_len v (u32 (strlen v)) s = (Ok c, s') /\ ciphers (t := TText) lib_decrypt v c /\
    healthy s' /\ tee_store s' = tee_store s.
Proof.
  intros Hh Henc Hl. destruct (encrypt_spec TText v s Hh Henc Hl) as (c & s1 & He & Hci & Hh1 & Hs1).
  exists c, s1. split; [|now split_and!]. unfold strlen in *. unfold cstring_to_enctext_with_len.
  rewrite u32_small by (unfold in_u32, STRING_LENGTH in *; lia). rewrite (proj2 (Z.leb_gt _ _) Hl), Nat2Z.id, take_ge by lia.
  rewrite (bindM_run _ _ s s tt) by (apply definedM_true; unfold blen; lia).
  change enc_text_encrypt with (encrypt_value_call TText). rewrite (bindM_run _ _ _ _ _ He).
  rewrite (bindM_run _ _ s1 s1 tt); [reflexivity|]. apply definedM_true.
  rewrite (ciphers_length _ _ _ Hci). cbn [to_bytes]. unfold ENCSTRLEN, blen. lia.
Qed.

Lemma kv_text_in_spec v (s : S) : healthy s -> can_encrypt s (t := TText) v = true -> local_room (tee_store s) TText -> cstr v -> strlen v < STRING_LENGTH ->
  exists rid s', kv_text_in v s = (Ok rid, s') /\ healthy s' /\ islocal rid = true /\
    stored (tee_store s) (tee_store s') TText v rid.
Proof.
  intros Hh Henc Hroom Hv Hl. destruct (enctext_spec v s Hh Henc Hl) as (c & s1 & He & Hci & Hh1 & Hs1).
  destruct (put_enc_call_spec TText v c s1 Hh1 ltac:(now rewrite Hs1) Hv Hl Hci) as (rid & s' & Hp & Hh' & Hloc & Hst).
  exists rid, s'. split; [|rewrite <- Hs1; now split_and!]. unfold kv_text_in. now rewrite (bindM_run _ _ _ _ _ He).
Qed.

Lemma kv_text_in_fails v (s : S) : healthy s -> can_encrypt s (t := TText) v = false -> strlen v < STRING_LENGTH ->
  exists s', kv_text_in v s = (Err Fatal, s').
Proof.
  intros Hh Henc Hl. destruct (encrypt_fails TText v s Hh Henc Hl) as (s' & He). exists s'. unfold kv_text_in. apply bindM_fail.
  unfold strlen in *. unfold cstring_to_enctext_with_len.
  rewrite u32_small by (unfold in_u32, STRING_LENGTH in *; lia). rewrite (proj2 (Z.leb_gt _ _) Hl), Nat2Z.id, take_ge by lia.
  rewrite (bindM_run _ _ s s tt) by (apply definedM_true; unfold blen; lia).
  change enc_text_encrypt with (encrypt_value_call TText). exact (bindM_fail _ _ _ _ _ He).
Qed.

Lemma rid_to_text_spec v id (s : S) : healthy s -> can_encrypt s (t := TText) v = true -> in_u64 id -> view (tee_store s) TText id = Some v -> cstr v ->
  strlen v < STRING_LENGTH ->
  exists s', rid_to_text id s = (Ok v, s') /\ healthy s' /\ st_equiv (tee_store s) (tee_store s').
Proof.
  intros Hh Henc Hu Hv Hc Hl. destruct (fetch_spec TText v id s Hh Henc Hu Hv Hl) as (s' & Hf & Hh' & He).
  exists s'. split; [|now split]. unfold rid_to_text.
  change kv_text_get_enc with (get_enc_call TText). change enc_text_decrypt with (decrypt_value_call TText).
  apply bindM_ok in Hf as (c & s1 & Hg & Hf). rewrite (bindM_run _ _ _ _ _ Hg).
  apply bindM_ok in Hf as ([error x] & s2 & Hd & Hf). rewrite (bindM_run _ _ _ _ _ Hd).
  apply bindM_ok in Hf as ([] & s3 & Hr3 & Hf). rewrite (bindM_run _ _ _ _ _ Hr3).
  unfold retM in Hf. injection Hf as -> ->. cbn [to_bytes].
  rewrite (bindM_run _ _ s' s' tt) by (apply definedM_true; unfold blen; unfold strlen in Hl; lia).
  now rewrite until_zero_cstr.
Qed.

(** C33: a text of at most 539 bytes read in is stored under a RID that held nothing, and comes
    back from the text and from the binary output function; a longer one is refused and
    changes nothing. Input and output both encrypt: where the library reports an error, the
    call ends in a fatal error. *)
Theorem kv_text_roundtrip v (s : S) :
  healthy s -> local_room (tee_store s) TText -> cstr v -> strlen v < 2 ^ 32 ->
  if strlen v <? STRING_LENGTH
  then if can_encrypt s (t := TText) v
    then exists rid s1, kv_text_in v s = (Ok rid, s1) /\ healthy s1 /\ stored (tee_store s) (tee_store s1) TText v rid /\
      if can_encrypt s1 (t := TText) v
      then (exists s2, kv_text_out rid s1 = (Ok v, s2) /\ healthy s2) /\
           (exists s2, kv_text_send rid s1 = (Ok (pq_sendstring v), s2) /\ healthy s2)
      else (exists s2, kv_text_out rid s1 = (Err Fatal, s2)) /\ (exists s2, kv_text_send rid s1 = (Err Fatal, s2))
    else exists s1, kv_text_in v s = (Err Fatal, s1)
  else kv_text_in v s = (Err Raised, s).
Proof.
  intros Hh Hroom Hv H32. destruct (Z.ltb_spec (strlen v) STRING_LENGTH) as [Hl|Hl].
  2: { unfold kv_text_in. apply bindM_fail. unfold cstring_to_enctext_with_len.
       rewrite u32_small by (unfold in_u32, strlen in *; lia). now rewrite (proj2 (Z.leb_le _ _) Hl). }
  destruct (can_encrypt s (t := TText) v) eqn:E; [|exact (kv_text_in_fails v s Hh E Hl)].
  destruct (kv_text_in_spec v s Hh E Hroom Hv Hl) as (rid & s1 & Hin & Hh1 & _ & Hst).
  exists rid, s1. split; [exact Hin|]. split; [exact Hh1|]. split; [exact Hst|]. destruct (can_encrypt s1 (t := TText) v) eqn:E1.
  - destruct (rid_to_text_spec v rid s1 Hh1 E1 (stored_u64 _ _ _ _ _ Hst) (stored_view _ _ _ _ _ Hst) Hv Hl)
      as (s2 & Hout & Hh2 & _). split; exists s2; (split; [|exact Hh2]).
    + exact Hout.
    + unfold kv_text_send. now rewrite (bindM_run _ _ _ _ _ Hout).
  - destruct (get_enc_fails TText v rid s1 Hh1 E1 (stored_u64 _ _ _ _ _ Hst) (stored_view _ _ _ _ _ Hst) Hl) as (s2 & Hg).
    assert (Hf : rid_to_text rid s1 = (Err Fatal, s2)) by exact (bindM_fail _ _ _ _ _ Hg).
    split; exists s2; [exact Hf|exact (bindM_fail _ _ _ _ _ Hf)].
Qed.

(** ** Operators *)

Lemma kv_text_cmp_spec k1 k2 v1 v2 (s : S) :
  healthy s -> in_u64 k1 -> in_u64 k2 -> view (tee_store s) TText k1 = Some v1 -> view (tee_store s) TText k2 = Some v2 ->
  exists s', kv_text_cmp k1 k2 s = (Ok (strcmp v1 v2), s') /\ healthy s' /\ st_equiv (tee_store s) (tee_store s').
Proof.
  intros Hh Hu1 Hu2 Hv1 Hv2. apply (cmp2_spec TText CMD_TEXT_CMP strcmp k1 k2 v1 v2 s); try assumption; try reflexivity.
  clear. revert v2. induction v1 as [|a v1 IH]; intros [|b v2]; cbn [strcmp]; unfold in_s32; try lia.
  destruct (a =? b); [apply IH|apply three_way_range].
Qed.

Lemma kv_text_like_spec k1 k2 t p (s : S) :
  healthy s -> in_u64 k1 -> in_u64 k2 -> view (tee_store s) TText k1 = Some t -> view (tee_store s) TText k2 = Some p ->
  exists r s', kv_text_like k1 k2 s = (Ok r, s') /\ decides (Some r) (like p t) /\ healthy s' /\
    st_equiv (tee_store s) (tee_store s').
Proof.
  intros Hh Hu1 Hu2 Hv1 Hv2. pose proof (MatchText_decides t p) as Hd.
  destruct (MatchText t p) as [r|] eqn:Er; [|destruct Hd as [[? _]|[? _]]; discriminate].
  destruct (get_spec _ TText k1 t (h_store _ Hh) Hv1) as (s1 & Hg1 & Hok1 & He1).
  destruct (get_spec s1 TText k2 p Hok1) as (s2 & Hg2 & Hok2 & He2); [now rewrite (view_equiv _ _ _ _ He1)|].
  destruct (cmp_call CMD_TEXT_LIKE Tee.kv_text_like k1 k2 r s s2 (h_connected _ Hh) Hu1 Hu2 eq_refl eq_refl) as (s' & Hrun & Hs').
  - unfold Tee.kv_text_like. change getText with (get TText). rewrite (bindM_run _ _ _ _ _ Hg1), (bindM_run _ _ _ _ _ Hg2).
    now rewrite Er.
  - destruct Hd as [[[= ->] _]|[[= ->] _]]; unfold in_s32, LIKE_TRUE, LIKE_FALSE; lia.
  - exists r, s'. split; [exact Hrun|]. split; [exact Hd|]. split; [exact (healthy_stepped _ _ _ Hh Hs' Hok2)|].
    rewrite (stepped_store _ _ _ Hs'). etransitivity; eassumption.
Qed.
(** LIKE and NOT LIKE on two stored texts decide whether the pattern matches. *)
Theorem kv_text_like_decides k1 k2 t p (s : S) :
  healthy s -> in_u64 k1 -> in_u64 k2 -> view (tee_store s) TText k1 = Some t -> view (tee_store s) TText k2 = Some p ->
  exists (b : bool) s' s'', (b = true <-> like p t) /\ kv_text_like_op k1 k2 s = (Ok b, s') /\
    kv_text_notlike k1 k2 s = (Ok (negb b), s'') /\
    st_equiv (tee_store s) (tee_store s') /\ st_equiv (tee_store s) (tee_store s'').
Proof.
  intros Hh Hu1 Hu2 Hv1 Hv2. destruct (kv_text_like_spec k1 k2 t p s Hh Hu1 Hu2 Hv1 Hv2) as (r & s' & Hr & Hd & _ & He).
  exists (negb (r =? 0)), s', s'. split_and!; try exact He.
  - destruct Hd as [[[= ->] Hl]|[[= ->] Hl]]; cbn; naive_solver.
  - unfold kv_text_like_op. now rewrite (bindM_run _ _ _ _ _ Hr).
  - unfold kv_text_notlike. rewrite (bindM_run _ _ _ _ _ Hr). unfold retM. now rewrite negb_involutive.
Qed.

Lemma kv_text_concatenate_spec k1 k2 v1 v2 (s : S) :
  healthy s -> in_u64 k1 -> in_u64 k2 -> view (tee_store s) TText k1 = Some v1 -> view (tee_store s) TText k2 = Some v2 ->
  local_room (tee_store s) TText ->
  exists rid s', kv_text_concatenate k1 k2 s = (Ok rid, s') /\ healthy s' /\ islocal rid = true /\
    stored (tee_store s) (tee_store s') TText (v1 ++ v2) rid.
Proof.
  intros Hh Hu1 Hu2 Hv1 Hv2 Hroom.
  exact (calc2_spec (ta := TText) (tb := TText) (tc := TText) CMD_TEXT_CONCAT (fun l r => Ok (l ++ r)) k1 k2 s v1 v2
           Hh Hu1 Hu2 Hv1 Hv2 Hroom eq_refl eq_refl).
Qed.

(** The privacy zone's part of [substring], on the RIDs it receives. *)
Lemma kv_text_substring_spec text start len t b l (s : S) :
  healthy s -> in_u64 text -> in_u64 start -> in_u64 len ->
  view (tee_store s) TText text = Some t -> view (tee_store s) TInt start = Some b -> view (tee_store s) TInt len = Some l ->
  in_s32 b -> l < INT_MAX -> local_room (tee_store s) TText ->
  if (1 <=? b) && (b <=? Z.of_nat (length t) + 1) && (0 <=? l)
  then exists rid s', kv_text_substring text start len s = (Ok rid, s') /\ healthy s' /\
         stored (tee_store s) (tee_store s') TText (take (Z.to_nat l) (drop (Z.to_nat (b - 1)) t)) rid
  else exists s', kv_text_substring text start len s = (Err Undefined, s').
Proof.
  intros Hh Hu1 Hu2 Hu3 Ht Hb Hl Hbr Hlm Hroom.
  pose proof (kv_text_substr_spec text start len _ t b l (h_store _ Hh) Ht Hb Hl Hbr Hlm Hroom) as Hsub.
  set (r := SubstringRequest text start len (res_var 0)).
  assert (Hwf : wf_request r) by (split; [reflexivity|now split_and!]).
  destruct ((1 <=? b) && (b <=? Z.of_nat (length t) + 1) && (0 <=? l)).
  - destruct Hsub as (rid & st' & Hrun & _ & Hst).
    destruct (store_call r _ (SubstringData text start len) rid s st' (h_connected _ Hh) Hwf eq_refl Hrun) as (s' & Hr & Hs').
    { split_and!; [reflexivity|reflexivity|apply (stored_u64 _ _ _ _ _ Hst)]. }
    exists rid, s'. split; [exact Hr|]. split; [exact (healthy_stepped _ _ _ Hh Hs' (stored_ok _ _ _ _ _ Hst))|].
    now rewrite (stepped_store _ _ _ Hs').
  - destruct Hsub as (st' & Hrun & _).
    destruct (store_call_err r _ (SubstringData text start len) _ s st' (h_connected _ Hh) Hwf eq_refl Hrun) as (s' & Hr & _).
    now exists s'.
Qed.

(** [substring] finds its start and length only when their RIDs are below 2^31, that is in
    the default partition: then it yields the characters of SQL's substring, and outside the
    text, or for a negative length, its behaviour is undefined. *)
Theorem substring_default_partition text start len t b l (s : S) :
  healthy s -> in_u64 text -> 0 <= start < 2 ^ 31 -> 0 <= len < 2 ^ 31 ->
  view (tee_store s) TText text = Some t -> view (tee_store s) TInt start = Some b -> view (tee_store s) TInt len = Some l ->
  in_s32 b -> l < INT_MAX -> local_room (tee_store s) TText ->
  if (1 <=? b) && (b <=? Z.of_nat (length t) + 1) && (0 <=? l)
  then exists rid s', substring text start len s = (Ok rid, s') /\ healthy s' /\
         stored (tee_store s) (tee_store s') TText (take (Z.to_nat l) (drop (Z.to_nat (b - 1)) t)) rid
  else exists s', substring text start len s = (Err Undefined, s').
Proof.
  intros Hh Hu Hs Hl. unfold substring, PG_GETARG_INT32.
  rewrite !s32_small, !u64_small by (unfold in_s32, in_u64; lia).
  apply kv_text_substring_spec; try assumption; unfold in_u64; lia.
Qed.
End Specs.

(** A local RID passed to [substring] loses its partition bits: the privacy zone is asked for
    a value of the default partition. *)
Theorem substring_drops_partition (k : Z) :
  0 <= k < 2 ^ 31 ->
  islocal (idx2local k) = true /\ islocal (u64 (PG_GETARG_INT32 (idx2local k))) = false /\
  u64 (PG_GETARG_INT32 (idx2local k)) = make_partitioned_rid RID_DEFAULT_PARTITION k.
Proof.
  intros Hk. split; [apply islocal_idx2local|].
  assert (He : u64 (PG_GETARG_INT32 (idx2local k)) = k).
  { unfold idx2local. rewrite make_partitioned_rid_eq by (split; vm_compute; congruence).
    unfold PG_GETARG_INT32, s32, u64, RID_LOCAL_PARTITION. cbn. dlia. }
  rewrite He. split.
  - rewrite islocal_eq. apply Z.eqb_neq. dlia.
  - rewrite make_partitioned_rid_eq by (split; vm_compute; congruence). unfold RID_DEFAULT_PARTITION. dlia.
Qed.

(** ** The functions on a connection *)

Lemma kv_text_roundtrip_witness :
  (exists rid s1, kv_text_in (str "hello") machine_pairs = (Ok rid, s1) /\ healthy s1 /\
    stored (tee_store machine_pairs) (tee_store s1) TText (str "hello") rid /\
    if can_encrypt s1 (t := TText) (str "hello")
    then (exists s2, kv_text_out rid s1 = (Ok (str "hello"), s2) /\ healthy s2) /\
         (exists s2, kv_text_send rid s1 = (Ok (pq_sendstring (str "hello")), s2) /\ healthy s2)
    else (exists s2, kv_text_out rid s1 = (Err Fatal, s2)) /\ (exists s2, kv_text_send rid s1 = (Err Fatal, s2))) /\
  kv_text_in (replicate 540 97) machine_pairs = (Err Raised, machine_pairs).
Proof.
  split.
  - assert (E : can_encrypt machine_pairs (t := TText) (str "hello") = true) by reflexivity.
    pose proof (kv_text_roundtrip (str "hello") machine_pairs machine_pairs_healthy) as P.
    change (strlen (str "hello") <? STRING_LENGTH) with true in P. cbv beta iota in P. rewrite E in P.
    apply P; [reflexivity| |reflexivity].
    repeat constructor; vm_compute; congruence.
  - apply (kv_text_roundtrip (replicate 540 97) machine_pairs machine_pairs_healthy); [reflexivity| |reflexivity].
    apply Forall_replicate. vm_compute. repeat split; congruence.
Defined.

Lemma kv_text_like_decides_witness :
  exists (b : bool) s' s'', (b = true <-> like [98] [97; 98]) /\
    kv_text_like_op (idx2local 0) (idx2local 1) machine_pairs = (Ok b, s') /\
    kv_text_notlike (idx2local 0) (idx2local 1) machine_pairs = (Ok (negb b), s'') /\
    st_equiv (tee_store machine_pairs) (tee_store s') /\ st_equiv (tee_store machine_pairs) (tee_store s'').
Proof.
  apply (kv_text_like_decides (idx2local 0) (idx2local 1) _ _ machine_pairs machine_pairs_healthy); try reflexivity;
    vm_compute; split; congruence.
Defined.
