(* ===== verification/SqlTimestamp.v ===== *)
(** The SQL functions of type kv_timestamp: src/integrity_zone/timestamp.cpp. The date and time
    routines of PostgreSQL they call (utils/datetime.h, utils/timestamp.h) are the class
    [PgDateTime]. *)
From Stdlib Require Import String.
From S2P Require Import Prelude Rid LocalStore FileMap KV Tee Crypto Wal Handler Layout Request Region Invoker Fmt.

(** A routine that reports a code other than zero on failure gives it as [inl]. *)
Class PgDateTime : Type := {
  pg_tm : Type;
  fsec_t : Type;
  dt_fields : Type;
  ParseDateTime : bytes -> Z + dt_fields;
  DecodeDateTime : dt_fields -> Z + Z * pg_tm * fsec_t;
  DTK_DATE : Z;
  DTK_EPOCH : Z;
  DTK_LATE : Z;
  DTK_EARLY : Z;
  tm2timestamp : pg_tm -> fsec_t -> option Z;
  SetEpochTimestamp : Z;
  DT_NOEND : Z;
  DT_NOBEGIN : Z;
  timestamp2tm : Z -> option (pg_tm * fsec_t);
  EncodeDateTime : pg_tm -> fsec_t -> bytes;
  MAXDATELEN : Z;
}.
(** Timestamps are 64-bit numbers, the kinds of result are told apart, and the text of a date
    fits [MAXDATELEN] characters. *)
Class PgDateTimeLaws `{PgDateTime} : Prop := {
  tm2timestamp_s64 : forall tm fsec ts, tm2timestamp tm fsec = Some ts -> in_s64 ts;
  epoch_s64 : in_s64 SetEpochTimestamp;
  noend_s64 : in_s64 DT_NOEND;
  nobegin_s64 : in_s64 DT_NOBEGIN;
  encode_length : forall tm fsec, strlen (EncodeDateTime tm fsec) <= MAXDATELEN;
}.

(** [pg_timestamp_in]. *)
Definition pg_timestamp_in `{PgDateTime} (str : bytes) : res Z :=
  match ParseDateTime str with
  | inl _ => Err Raised
  | inr fields =>
      match DecodeDateTime fields with
      | inl _ => Err Raised
      | inr (dtype, tm, fsec) =>
          if dtype =? DTK_DATE then
            match tm2timestamp tm fsec with
            | Some result => Ok result
            | None => Err Raised
            end
          else if dtype =? DTK_EPOCH then Ok SetEpochTimestamp
          else if dtype =? DTK_LATE then Ok DT_NOEND
          else if dtype =? DTK_EARLY then Ok DT_NOBEGIN
          else Err Raised
      end
  end.

Lemma pg_timestamp_in_s64 `{PgDateTimeLaws} str ts : pg_timestamp_in str = Ok ts -> in_s64 ts.
Proof.
  unfold pg_timestamp_in. destruct (ParseDateTime str) as [|fields]; [discriminate|].
  destruct (DecodeDateTime fields) as [|[[dtype tm] fsec]]; [discriminate|].
  destruct (dtype =? DTK_DATE).
  - destruct (tm2timestamp tm fsec) eqn:E; [|discriminate]. intros [= <-]. exact (tm2timestamp_s64 _ _ _ E).
  - destruct (dtype =? DTK_EPOCH); [intros [= <-]; exact epoch_s64|].
    destruct (dtype =? DTK_LATE); [intros [= <-]; exact noend_s64|].
    destruct (dtype =? DTK_EARLY); [intros [= <-]; exact nobegin_s64|discriminate].
Qed.

Section Functions.
Context {S : Type} `{TEEInvoker S} `{PgDateTime}.

(** ** Requests *)

Definition kv_timestamp_put (value : Z) : M S RID :=
  call_rid (PutPlainIntoKVRequest TTimestamp CMD_TIMESTAMP_PUT (to_bytes (t := TTimestamp) value) (res_var 0)).
Definition kv_timestamp_get (key : RID) : M S Z :=
  let* b := call_bytes (GetPlainFromKVRequest TTimestamp CMD_TIMESTAMP_GET key (res_var 0)) in
  retM (of_bytes (t := TTimestamp) b).
Definition kv_timestamp_put_enc (value : bytes) : M S RID :=
  call_rid (PutEncIntoKVRequest TTimestamp CMD_TIMESTAMP_PUT_ENC value (res_var 0)).
Definition kv_timestamp_get_enc (key : RID) : M S bytes :=
  call_bytes (GetEncFromKVRequest TTimestamp CMD_TIMESTAMP_GET_ENC key (res_var 0)).
Definition kv_timestamp_cmp (i1 i2 : RID) : M S Z := call_int (CmpRequest CMD_TIMESTAMP_CMP i1 i2 (res_var 0)).
Definition kv_timestamp_extract_year (input : RID) : M S RID :=
  call_rid (TimestampExtractYearRequest input (res_var 0)).

Definition enc_timestamp_encrypt (src : Z) : M S (Z * bytes) :=
  let* '(resp, v) := call_resp (EncRequest TTimestamp CMD_TIMESTAMP_ENC (to_bytes (t := TTimestamp) src) (res_var 0)) in
  let* dst := as_bytes v in retM (resp, dst).
Definition enc_timestamp_decrypt (src : bytes) : M S (Z * Z) :=
  let* '(resp, v) := call_resp (DecRequest TTimestamp CMD_TIMESTAMP_DEC src (res_var 0)) in
  let* p := as_bytes v in retM (resp, of_bytes (t := TTimestamp) p).

(** ** Input and output *)

Definition kv_timestamp_in (pIn : bytes) : M S RID :=
  let* v := ofRes (pg_timestamp_in pIn) in
  let* '(error, result) := enc_timestamp_encrypt v in
  do* raise_unless_ok error in
  kv_timestamp_put_enc result.

(** The buffer is returned as it was allocated when the timestamp has no calendar form. *)
Definition kv_timestamp_out (id : RID) : M S bytes :=
  let* result := kv_timestamp_get_enc id in
  let* '(error, plain) := enc_timestamp_decrypt result in
  do* raise_unless_ok error in
  match timestamp2tm plain with
  | Some (tm, fsec) =>
      let text := EncodeDateTime tm fsec in
      do* definedM (strlen text <=? MAXDATELEN) in
      retM text
  | None => failM Undefined
  end.

(** ** Operators *)

Definition kv_timestamp_eq (id1 id2 : RID) : M S bool := let* cmp := kv_timestamp_cmp id1 id2 in retM (cmp =? 0).
Definition kv_timestamp_ne (id1 id2 : RID) : M S bool := let* cmp := kv_timestamp_cmp id1 id2 in retM (negb (cmp =? 0)).
Definition kv_timestamp_lt (id1 id2 : RID) : M S bool := let* cmp := kv_timestamp_cmp id1 id2 in retM (cmp <? 0).
Definition kv_timestamp_le (id1 id2 : RID) : M S bool := let* cmp := kv_timestamp_cmp id1 id2 in retM (cmp <=? 0).
Definition kv_timestamp_gt (id1 id2 : RID) : M S bool := let* cmp := kv_timestamp_cmp id1 id2 in retM (0 <? cmp).
Definition kv_timestamp_ge (id1 id2 : RID) : M S bool := let* cmp := kv_timestamp_cmp id1 id2 in retM (0 <=? cmp).

(** The SQL function of the same name. *)
Definition kv_timestamp_cmp_op (id1 id2 : RID) : M S Z := kv_timestamp_cmp id1 id2.

Definition date_part (get : bytes) (id : RID) : M S RID :=
  do* (if Tee.strcmp get (str "year") =? 0 then retM tt else failM Raised) in
  kv_timestamp_extract_year id.
End Functions.

Section Specs.
Context `{CryptoLaws} {S : Type} `{!TEEInvoker S} `{!TEEInvokerLaws S} `{PgDateTimeLaws}.

Lemma kv_timestamp_cmp_spec k1 k2 v1 v2 (s : S) :
  healthy s -> in_u64 k1 -> in_u64 k2 ->
  view (tee_store s) TTimestamp k1 = Some v1 -> view (tee_store s) TTimestamp k2 = Some v2 ->
  exists s', kv_timestamp_cmp k1 k2 s = (Ok (three_way v1 v2), s') /\ healthy s' /\ st_equiv (tee_store s) (tee_store s').
Proof.
  intros Hh Hu1 Hu2 Hv1 Hv2. apply (cmp2_spec TTimestamp CMD_TIMESTAMP_CMP three_way k1 k2 v1 v2 s);
    try assumption; try reflexivity. apply three_way_range.
Qed.

(** A text that PostgreSQL reads as a timestamp is stored as that timestamp and printed in
    PostgreSQL's form of it; any other text is refused and changes nothing. *)
Theorem kv_timestamp_roundtrip text (s : S) : healthy s -> (forall ts : Z, can_encrypt s (t := TTimestamp) ts = true) ->
  local_room (tee_store s) TTimestamp ->
  match pg_timestamp_in text with
  | Ok ts => exists rid s1, kv_timestamp_in text s = (Ok rid, s1) /\ healthy s1 /\
      stored (tee_store s) (tee_store s1) TTimestamp ts rid /\ (can_encrypt s1 (t := TTimestamp) ts = true ->
      exists s2, healthy s2 /\ kv_timestamp_out rid s1 =
        (match timestamp2tm ts with Some (tm, fsec) => Ok (EncodeDateTime tm fsec) | None => Err Undefined end, s2))
  | Err e => kv_timestamp_in text s = (Err e, s)
  end.
Proof.
  intros Hh Henc Hroom. destruct (pg_timestamp_in text) as [ts|e] eqn:Ein.
  - pose proof (pg_timestamp_in_s64 _ _ Ein) as Hts.
    destruct (insert_spec TTimestamp ts s Hh (Henc ts) Hroom Hts I) as (rid & s1 & Hin & Hh1 & _ & Hst).
    exists rid, s1. split; [unfold kv_timestamp_in; rewrite Ein; exact Hin|]. split; [exact Hh1|]. split; [exact Hst|]. intros Henc1.
    destruct (fetch_typed_spec TTimestamp ts rid s1 Hh1 Henc1 (stored_u64 _ _ _ _ _ Hst) (stored_view _ _ _ _ _ Hst) I Hts)
      as (s2 & Hf & Hh2 & _).
    exists s2. split; [exact Hh2|]. unfold kv_timestamp_out.
    apply bindM_ok in Hf as (c & t1 & Hg & Hf). rewrite (bindM_run _ _ _ _ _ Hg).
    apply bindM_ok in Hf as ([error x] & t2 & Hd & Hf). rewrite (bindM_run _ _ _ _ _ Hd).
    apply bindM_ok in Hf as ([] & t3 & Hr3 & Hf). rewrite (bindM_run _ _ _ _ _ Hr3).
    unfold retM in Hf. injection Hf as -> ->. destruct (timestamp2tm ts) as [[tm fsec]|]; [|reflexivity].
    now rewrite (proj2 (Z.leb_le _ _) (encode_length tm fsec)).
  - unfold kv_timestamp_in. now rewrite Ein.
Qed.

Lemma year_spec id ts (s : S) :
  healthy s -> in_u64 id -> view (tee_store s) TTimestamp id = Some ts -> local_room (tee_store s) TInt ->
  exists rid s', date_part (str "year") id s = (Ok rid, s') /\ healthy s' /\ islocal rid = true /\
    stored (tee_store s) (tee_store s') TInt (timestamp_extract_year ts) rid.
Proof.
  intros Hh Hu Hv Hroom. unfold date_part.
  rewrite (proj2 (Z.eqb_eq _ 0)) by now apply strcmp_eq.
  destruct (get_spec _ TTimestamp id ts (h_store _ Hh) Hv) as (s1 & Hg & Hok1 & He1).
  destruct (put_local_spec s1 TInt (timestamp_extract_year ts) RID_DEFAULT_PARTITION Hok1)
    as (rid & st' & Hp & Hl & Hst & _); [unfold room; now rewrite (proj1 He1)|].
  apply (stored_equiv (tee_store s)) in Hst; [|exact He1].
  destruct (store_call (TimestampExtractYearRequest id (res_var 0)) (Tee.kv_timestamp_extract_year id)
              (TimestampExtractYearData id) rid s st' (h_connected _ Hh)) as (s' & Hr & Hs').
  - now split.
  - reflexivity.
  - unfold Tee.kv_timestamp_extract_year. change getTimestamp with (get TTimestamp).
    now rewrite (bindM_run _ _ _ _ _ Hg).
  - split_and!; [reflexivity|reflexivity|apply (stored_u64 _ _ _ _ _ Hst)].
  - exists rid, s'. split; [exact Hr|].
    split; [exact (healthy_stepped _ _ _ Hh Hs' (stored_ok _ _ _ _ _ Hst))|]. split; [exact Hl|].
    now rewrite (stepped_store _ _ _ Hs').
Qed.

(** C32: date_part('year', t) is a fresh local kv_int4 with the proleptic Gregorian year of the
    stored timestamp, -1 outside the calendar's range; every other field name is refused. *)
Theorem date_part_year part id ts (s : S) :
  healthy s -> in_u64 id -> view (tee_store s) TTimestamp id = Some ts -> local_room (tee_store s) TInt ->
  if decide (part = str "year")
  then exists year rid s', date_part part id s = (Ok rid, s') /\ healthy s' /\ islocal rid = true /\
    stored (tee_store s) (tee_store s') TInt year rid /\
    let day := ts / USECS_PER_DAY + POSTGRES_EPOCH_JDATE in
    (if (0 <=? day) && (day <=? INT_MAX) then year_start year <= day < year_start (year + 1) else year = -1)
  else date_part part id s = (Err Raised, s).
Proof.
  intros Hh Hu Hv Hroom. destruct (decide (part = str "year")) as [->|E].
  - destruct (year_spec id ts s Hh Hu Hv Hroom) as (rid & s' & Hr & Hh' & Hl & Hst).
    exists (timestamp_extract_year ts), rid, s'. split_and!; try assumption. apply timestamp_extract_year_gregorian.
  - unfold date_part. rewrite (proj2 (Z.eqb_neq _ 0)) by (rewrite strcmp_eq; exact E). reflexivity.
Qed.
End Specs.

(** ** The functions on a connection *)

(** The year of the second timestamp of [machine_pairs], 100 microseconds after the epoch. *)
Lemma date_part_year_witness :
  exists year rid s', date_part (str "year") (idx2local 1) machine_pairs = (Ok rid, s') /\ healthy s' /\
    islocal rid = true /\ stored (tee_store machine_pairs) (tee_store s') TInt year rid /\
    (if (0 <=? 2451545) && (2451545 <=? INT_MAX) then year_start year <= 2451545 < year_start (year + 1) else year = -1).
Proof.
  apply (date_part_year (str "year") (idx2local 1) 100 machine_pairs machine_pairs_healthy); try reflexivity;
    vm_compute; split; congruence.
Defined.
