(* ===== verification/Btree.v ===== *)
(** The operator classes of the SQL types: what a B-tree index of PostgreSQL relies on of the
    comparison function and the five operators of kv_int4, kv_timestamp and kv_text (int.cpp,
    timestamp.cpp, text.cpp). *)
From Stdlib Require Import String.
From S2P Require Import Prelude Rid LocalStore FileMap KV Tee Crypto Handler Request Region Invoker Fmt Clib Aggregate SqlInt SqlText SqlTimestamp.

(** ** Operator classes *)

(** The operators 1 to 5 of a class and its support function. *)
Record opclass (S : Type) : Type := mkOpclass {
  op_lt : RID -> RID -> M S bool;
  op_le : RID -> RID -> M S bool;
  op_eq : RID -> RID -> M S bool;
  op_ge : RID -> RID -> M S bool;
  op_gt : RID -> RID -> M S bool;
  op_cmp : RID -> RID -> M S Z;
}.
Arguments mkOpclass {S}.
Arguments op_lt {S}.
Arguments op_le {S}.
Arguments op_eq {S}.
Arguments op_ge {S}.
Arguments op_gt {S}.
Arguments op_cmp {S}.

Section Classes.
Context {S : Type} `{TEEInvoker S} `{PgDateTime} `{PgFormat}.
Definition btree_kv_int4_ops : opclass S := mkOpclass kv_int4_lt kv_int4_le kv_int4_eq kv_int4_ge kv_int4_gt kv_int4_cmp.
Definition btree_kv_timestamp_ops : opclass S :=
  mkOpclass kv_timestamp_lt kv_timestamp_le kv_timestamp_eq kv_timestamp_ge kv_timestamp_gt kv_timestamp_cmp_op.
Definition btree_kv_text_ops : opclass S := mkOpclass kv_text_lt kv_text_le kv_text_eq kv_text_ge kv_text_gt kv_text_cmp_op.
End Classes.

(** ** Orders from three-way comparisons *)

Record total_order {V : Type} (leb : V -> V -> bool) : Prop := {
  to_trans : forall a b c, leb a b = true -> leb b c = true -> leb a c = true;
  to_antisym : forall a b, leb a b = true -> leb b a = true -> a = b;
  to_total : forall a b, leb a b = true \/ leb b a = true;
}.

Definition from_cmp {V : Type} (f : V -> V -> Z) (a b : V) : bool := f a b <=? 0.

Lemma three_way_le a b : from_cmp three_way a b = (a <=? b).
Proof. unfold from_cmp, three_way. destruct (Z.ltb_spec b a), (Z.ltb_spec a b), (Z.leb_spec a b); reflexivity || lia. Qed.
Lemma three_way_order : total_order (from_cmp three_way).
Proof. split; intros *; rewrite !three_way_le, ?Z.leb_le; lia. Qed.

Lemma strcmp_trans a b c : strcmp a b <= 0 -> strcmp b c <= 0 -> strcmp a c <= 0.
Proof.
  revert b c. induction a as [|x a IH]; intros [|y b] [|z c]; cbn [strcmp]; try lia.
  destruct (Z.eqb_spec x y) as [->|Hxy], (Z.eqb_spec y z) as [->|Hyz]; rewrite ?Z.eqb_refl; try apply IH; unfold three_way;
    repeat match goal with |- context [?u =? ?w] => destruct (Z.eqb_spec u w) | |- context [?u <? ?w] => destruct (Z.ltb_spec u w) end; lia.
Qed.
Lemma strcmp_order : total_order (from_cmp strcmp).
Proof.
  unfold from_cmp. split; intros *; rewrite ?Z.leb_le.
  - apply strcmp_trans.
  - rewrite (strcmp_antisym a b). intros H1 H2. apply strcmp_eq. lia.
  - rewrite (strcmp_antisym a b). lia.
Qed.

(** ** The laws *)

Section Laws.
Context `{CryptoLaws} {S : Type} `{!TEEInvoker S} `{!TEEInvokerLaws S} `{PgDateTimeLaws} `{PgFormat}.

(** A call gives a result and leaves the values alone. *)
Definition gives {A : Type} (s : S) (c : M S A) (a : A) : Prop :=
  exists s', c s = (Ok a, s') /\ healthy s' /\ st_equiv (tee_store s) (tee_store s').

(** On RIDs that hold values of type [t] the class is a total order [leb] of the values. *)
Definition orders (t : vtype) (oc : opclass S) (leb : vty t -> vty t -> bool) : Prop :=
  total_order leb /\
  forall s k1 k2 v1 v2, healthy s -> in_u64 k1 -> in_u64 k2 -> view (tee_store s) t k1 = Some v1 -> view (tee_store s) t k2 = Some v2 ->
    gives s (op_lt oc k1 k2) (negb (leb v2 v1)) /\ gives s (op_le oc k1 k2) (leb v1 v2) /\ gives s (op_eq oc k1 k2) (leb v1 v2 && leb v2 v1) /\
    gives s (op_ge oc k1 k2) (leb v2 v1) /\ gives s (op_gt oc k1 k2) (negb (leb v1 v2)) /\
    exists c, gives s (op_cmp oc k1 k2) c /\ (c <= 0 <-> leb v1 v2 = true) /\ (0 <= c <-> leb v2 v1 = true).

(** Operators that test the result of a comparison. *)
Lemma orders_by_cmp t (f : vty t -> vty t -> Z) (cmp : RID -> RID -> M S Z) oc :
  total_order (from_cmp f) -> (forall a b, f b a = - f a b) ->
  (forall s k1 k2 v1 v2, healthy s -> in_u64 k1 -> in_u64 k2 -> view (tee_store s) t k1 = Some v1 -> view (tee_store s) t k2 = Some v2 ->
     gives s (cmp k1 k2) (f v1 v2)) ->
  (forall k1 k2, op_cmp oc k1 k2 = cmp k1 k2) ->
  (forall k1 k2 s, op_lt oc k1 k2 s = (let* c := cmp k1 k2 in retM (c <? 0)) s) ->
  (forall k1 k2 s, op_le oc k1 k2 s = (let* c := cmp k1 k2 in retM (c <=? 0)) s) ->
  (forall k1 k2 s, op_eq oc k1 k2 s = (let* c := cmp k1 k2 in retM (c =? 0)) s) ->
  (forall k1 k2 s, op_ge oc k1 k2 s = (let* c := cmp k1 k2 in retM (0 <=? c)) s) ->
  (forall k1 k2 s, op_gt oc k1 k2 s = (let* c := cmp k1 k2 in retM (0 <? c)) s) ->
  orders t oc (from_cmp f).
Proof.
  intros Ho Hsym Hspec Hc Hlt Hle Heq Hge Hgt. split; [exact Ho|]. intros s k1 k2 v1 v2 Hh Hu1 Hu2 Hv1 Hv2.
  destruct (Hspec s k1 k2 v1 v2 Hh Hu1 Hu2 Hv1 Hv2) as (s' & Hr & Hh' & He).
  assert (Hg : forall A (c : M S A) (g : Z -> A) a, (forall s, c s = (let* x := cmp k1 k2 in retM (g x)) s) -> g (f v1 v2) = a -> gives s c a).
  { intros A c g a Hrun <-. exists s'. split; [|easy]. rewrite Hrun. now rewrite (bindM_run _ _ _ _ _ Hr). }
  unfold from_cmp. rewrite (Hsym v1 v2). split_and!.
  - apply (Hg _ _ _ _ (Hlt k1 k2)). destruct (Z.ltb_spec (f v1 v2) 0), (Z.leb_spec (- f v1 v2) 0); lia || reflexivity.
  - exact (Hg _ _ _ _ (Hle k1 k2) eq_refl).
  - apply (Hg _ _ _ _ (Heq k1 k2)). destruct (Z.eqb_spec (f v1 v2) 0), (Z.leb_spec (f v1 v2) 0), (Z.leb_spec (- f v1 v2) 0); lia || reflexivity.
  - apply (Hg _ _ _ _ (Hge k1 k2)). destruct (Z.leb_spec 0 (f v1 v2)), (Z.leb_spec (- f v1 v2) 0); lia || reflexivity.
  - apply (Hg _ _ _ _ (Hgt k1 k2)). destruct (Z.ltb_spec 0 (f v1 v2)), (Z.leb_spec (f v1 v2) 0); lia || reflexivity.
  - exists (f v1 v2). split; [rewrite Hc; now exists s'|]. rewrite !Z.leb_le. lia.
Qed.

Lemma orders_ext t oc (l1 l2 : vty t -> vty t -> bool) : (forall a b, l1 a b = l2 a b) -> orders t oc l1 -> orders t oc l2.
Proof.
  intros E [[Ht Ha Hl] Hops]. split.
  - split; intros *; rewrite <- !E; [apply Ht|apply Ha|apply Hl].
  - intros s k1 k2 v1 v2 A B C D F. rewrite <- !E. now apply Hops.
Qed.

(** C22: the operator classes of kv_int4, kv_timestamp and kv_text are what a B-tree needs: on RIDs
    that hold values the comparison function is a total order of the values, the five operators
    agree with it, equality is equality of the values, and no call changes a value. *)
Theorem operator_classes_are_orders :
  orders TInt btree_kv_int4_ops Z.leb /\ orders TTimestamp btree_kv_timestamp_ops Z.leb /\ orders TText btree_kv_text_ops (from_cmp strcmp).
Proof.
  split; [|split].
  - apply (orders_ext TInt _ (from_cmp three_way) _ three_way_le).
    apply (orders_by_cmp TInt three_way kv_int_cmp); try reflexivity; [exact three_way_order|exact three_way_antisym|].
    intros s k1 k2 v1 v2 Hh Hu1 Hu2 Hv1 Hv2. exact (kv_int_cmp_spec k1 k2 v1 v2 s Hh Hu1 Hu2 Hv1 Hv2 I I).
  - apply (orders_ext TTimestamp _ (from_cmp three_way) _ three_way_le).
    apply (orders_by_cmp TTimestamp three_way kv_timestamp_cmp); try reflexivity; [exact three_way_order|exact three_way_antisym|].
    intros s k1 k2 v1 v2 Hh Hu1 Hu2 Hv1 Hv2. exact (kv_timestamp_cmp_spec k1 k2 v1 v2 s Hh Hu1 Hu2 Hv1 Hv2).
  - apply (orders_by_cmp TText strcmp kv_text_cmp); try reflexivity; [exact strcmp_order|intros a b; apply strcmp_antisym|].
    intros s k1 k2 v1 v2 Hh Hu1 Hu2 Hv1 Hv2. exact (kv_text_cmp_spec k1 k2 v1 v2 s Hh Hu1 Hu2 Hv1 Hv2).
Qed.
End Laws.

(** On the connection to a worker with two texts, [[97; 98]] and [[98]]: the first is less. *)
Lemma operator_classes_are_orders_witness :
  exists s', op_lt btree_kv_text_ops (idx2local 0) (idx2local 1) machine_pairs = (Ok true, s').
Proof.
  destruct operator_classes_are_orders as (_ & _ & _ & Htext).
  assert (Hu : forall k, k = 0 \/ k = 1 -> in_u64 (idx2local k)) by (intros k [-> | ->]; vm_compute; split; congruence).
  destruct (Htext machine_pairs (idx2local 0) (idx2local 1) [97; 98] [98] machine_pairs_healthy (Hu 0 (or_introl eq_refl)) (Hu 1 (or_intror eq_refl))
    eq_refl eq_refl) as ((s' & Hr & _) & _). exists s'. exact Hr.
Defined.
