(* ===== verification/Sql.v ===== *)
(** SQL expressions over the four kv types: the functions of [SqlInt], [SqlFloat], [SqlText]
    and [SqlTimestamp] composed the way PostgreSQL calls them, each argument's RID handed to
    the next function. Expressions are indexed by their type, and evaluating one yields a RID
    of that type that holds the expression's value. *)
From Stdlib Require Import SpecFloat String.
From S2P Require Import Prelude Rid LocalStore FileMap KV Like Tee F32 Crypto Wal Handler Layout Request Region Invoker Fmt Clib Aggregate SqlInt SqlFloat SqlText SqlTimestamp.

(** ** Comparison operators *)


Section Operators.
Context {S : Type} `{TEEInvoker S}.


End Operators.







Section CompareSpec.
Context `{CryptoLaws} {S : Type} `{!TEEInvoker S} `{!TEEInvokerLaws S}.


End CompareSpec.

(** ** Expressions *)

(** Value expressions, by the kv type of their result, and conditions. *)
Inductive expr : vtype -> Type :=
| Column (t : vtype) (rid : RID) : expr t
| IntOp (op : int_op) (a b : expr TInt) : expr TInt
| FloatOp (op : float_op) (a b : expr TFloat) : expr TFloat
| Concat (a b : expr TText) : expr TText
| Year (a : expr TTimestamp) : expr TInt.

Section Eval.
Context {S : Type} `{TEEInvoker S}.

(** Arguments are evaluated from left to right, then the function is called. *)
Fixpoint eval {t : vtype} (e : expr t) : M S RID :=
  match e with
  | Column t rid => retM rid
  | IntOp op a b => let* x := eval a in let* y := eval b in kv_int4_op op x y
  | FloatOp op a b => let* x := eval a in let* y := eval b in kv_float4_op op x y
  | Concat a b => let* x := eval a in let* y := eval b in kv_text_concatenate x y
  | Year a => let* x := eval a in date_part (Fmt.str "year") x
  end.
End Eval.

(** What an expression means in a store: [None] where an integer operation is not defined. *)
Fixpoint denote (s : store) {t : vtype} (e : expr t) : option (vty t) :=
  match e with
  | Column t rid => view s t rid
  | IntOp op a b => match denote s a, denote s b with
                    | Some x, Some y => int_op_spec op x y
                    | _, _ => None
                    end
  | FloatOp op a b => match denote s a, denote s b with
                      | Some x, Some y => Some (f32_arith op x y)
                      | _, _ => None
                      end
  | Concat a b => match denote s a, denote s b with
                  | Some x, Some y => Some (x ++ y)
                  | _, _ => None
                  end
  | Year a => match denote s a with
              | Some x => Some (timestamp_extract_year x)
              | None => None
              end
  end.
(** The columns an expression reads hold values of their declared types. *)
Fixpoint typed (s : store) {t : vtype} (e : expr t) : Prop :=
  match e with
  | Column t rid => in_u64 rid /\ is_Some (view s t rid)
  | IntOp _ a b => typed s a /\ typed s b
  | FloatOp _ a b => typed s a /\ typed s b
  | Concat a b => typed s a /\ typed s b
  | Year a => typed s a
  end.
(** The number of intermediate results. *)
Fixpoint weight {t : vtype} (e : expr t) : Z :=
  match e with
  | Column _ _ => 0
  | IntOp _ a b => weight a + weight b + 1
  | FloatOp _ a b => weight a + weight b + 1
  | Concat a b => weight a + weight b + 1
  | Year a => weight a + 1
  end.

Lemma weight_nonneg {t} (e : expr t) : 0 <= weight e.
Proof. induction e; cbn [weight]; lia. Qed.

(** [s'] has [s]'s values, and at most [n] more local slots. *)
Definition extends (n : Z) (s s' : store) : Prop :=
  (forall t k v, in_u64 k -> view s t k = Some v -> view s' t k = Some v) /\
  (forall t, lsize (st_local s') t <= lsize (st_local s) t + n).

Lemma extends_trans n m s1 s2 s3 : extends n s1 s2 -> extends m s2 s3 -> extends (n + m) s1 s3.
Proof.
  intros [Hv Hn] [Hv' Hm]. split; [auto|]. intros t. specialize (Hn t). specialize (Hm t). lia.
Qed.
Lemma stored_extends s s' t v rid : stored s s' t v rid -> extends 1 s s'.
Proof.
  intros Hst. split; [|apply Hst]. intros t' k x Hu Hx. rewrite (stored_frame _ _ _ _ _ Hst); [exact Hx|exact Hu|].
  intros [= -> ->]. rewrite (stored_fresh _ _ _ _ _ Hst) in Hx. discriminate Hx.
Qed.
Lemma equiv_extends s s' : st_equiv s s' -> extends 0 s s'.
Proof. intros He. split; [intros t k v _; now rewrite (view_equiv _ _ _ _ He)|]. intros t. rewrite (proj1 He). lia. Qed.
Lemma extends_refl s : extends 0 s s.
Proof. now apply equiv_extends. Qed.

(** Growing the store changes no typed expression. *)
Lemma typed_extends n s s' {t} (e : expr t) : extends n s s' -> typed s e -> typed s' e.
Proof.
  intros He. induction e; cbn [typed]; try tauto. intros [Hu [v Hv]]. split; [exact Hu|]. exists v. now apply He.
Qed.
Lemma denote_extends n s s' {t} (e : expr t) : extends n s s' -> typed s e -> denote s' e = denote s e.
Proof.
  intros He. induction e; cbn [typed denote]; intros Ht.
  - destruct Ht as [Hu [v Hv]]. rewrite Hv. now apply He.
  - destruct Ht. now rewrite IHe1, IHe2.
  - destruct Ht. now rewrite IHe1, IHe2.
  - destruct Ht. now rewrite IHe1, IHe2.
  - now rewrite IHe.
Qed.

(** ** Conditions *)



Section Soundness.
Context `{CryptoLaws} {S : Type} `{!TEEInvoker S} `{!TEEInvokerLaws S}.

(** What evaluating to [r] leaves behind. *)
Definition evaluates {t : vtype} (e : expr t) (s : S) : Prop :=
  match denote (tee_store s) e with
  | Some v => exists rid s', eval e s = (Ok rid, s') /\ healthy s' /\ in_u64 rid /\
      view (tee_store s') t rid = Some v /\ extends (weight e) (tee_store s) (tee_store s')
  | None => exists s', eval e s = (Err Undefined, s')
  end.

(** Evaluating two arguments and calling a function on them. *)
Lemma eval_two {ta tb A B} (a : expr ta) (b : expr tb) (f : RID -> RID -> M S A)
    (d : vty ta -> vty tb -> option B) (post : B -> A -> S -> S -> Prop) (s : S) :
  evaluates a s -> (forall s1 : S, extends (weight a) (tee_store s) (tee_store s1) -> healthy s1 -> evaluates b s1) ->
  typed (tee_store s) b ->
  (forall i j x y (s2 : S), healthy s2 -> in_u64 i -> in_u64 j ->
     extends (weight a + weight b) (tee_store s) (tee_store s2) ->
     view (tee_store s2) ta i = Some x -> view (tee_store s2) tb j = Some y ->
     match d x y with
     | Some v => exists r s', f i j s2 = (Ok r, s') /\ post v r s2 s'
     | None => exists s', f i j s2 = (Err Undefined, s')
     end) ->
  match match denote (tee_store s) a, denote (tee_store s) b with Some x, Some y => d x y | _, _ => None end with
  | Some v => exists r s2 s', (let* i := eval a in let* j := eval b in f i j) s = (Ok r, s') /\ post v r s2 s' /\
      extends (weight a + weight b) (tee_store s) (tee_store s2)
  | None => exists s', (let* i := eval a in let* j := eval b in f i j) s = (Err Undefined, s')
  end.
Proof.
  intros Ha Hb Htb Hf. unfold evaluates in Ha. destruct (denote (tee_store s) a) as [x|].
  - destruct Ha as (i & s1 & Hra & Hh1 & Hui & Hvi & Hx1). rewrite (bindM_run _ _ _ _ _ Hra).
    specialize (Hb s1 Hx1 Hh1). unfold evaluates in Hb. rewrite (denote_extends _ _ _ b Hx1 Htb) in Hb.
    destruct (denote (tee_store s) b) as [y|].
    + destruct Hb as (j & s2 & Hrb & Hh2 & Huj & Hvj & Hx2). rewrite (bindM_run _ _ _ _ _ Hrb).
      pose proof (extends_trans _ _ _ _ _ Hx1 Hx2) as Hx12.
      specialize (Hf i j x y s2 Hh2 Hui Huj Hx12 (proj1 Hx2 _ _ _ Hui Hvi) Hvj).
      destruct (d x y) as [v|]; [|exact Hf]. destruct Hf as (r & s' & Hr & Hp). now exists r, s2, s'.
    + destruct Hb as (s2 & Hrb). exists s2. now apply bindM_fail.
  - destruct Ha as (s1 & Hra). exists s1. now apply bindM_fail.
Qed.
Definition roomy (n : Z) (s : store) : Prop := forall t, lsize (st_local s) t + n < 2 ^ 48 - 1.

(** One function of two arguments on top of two expressions; it takes up to [n] slots. *)
Lemma eval_binary {ta tb A B} (a : expr ta) (b : expr tb) (f : RID -> RID -> M S A) n
    (d : vty ta -> vty tb -> option B) (post : B -> A -> S -> Prop) (s : S) :
  (forall s : S, healthy s -> typed (tee_store s) a -> roomy (weight a) (tee_store s) -> evaluates a s) ->
  (forall s : S, healthy s -> typed (tee_store s) b -> roomy (weight b) (tee_store s) -> evaluates b s) ->
  healthy s -> typed (tee_store s) a -> typed (tee_store s) b -> 0 <= n -> roomy (weight a + weight b + n) (tee_store s) ->
  (forall i j x y (s2 : S), healthy s2 -> in_u64 i -> in_u64 j ->
     view (tee_store s2) ta i = Some x -> view (tee_store s2) tb j = Some y -> roomy n (tee_store s2) ->
     match d x y with
     | Some v => exists r s', f i j s2 = (Ok r, s') /\ post v r s' /\ extends n (tee_store s2) (tee_store s')
     | None => exists s', f i j s2 = (Err Undefined, s')
     end) ->
  match match denote (tee_store s) a, denote (tee_store s) b with Some x, Some y => d x y | _, _ => None end with
  | Some v => exists r s', (let* i := eval a in let* j := eval b in f i j) s = (Ok r, s') /\ post v r s' /\
      extends (weight a + weight b + n) (tee_store s) (tee_store s')
  | None => exists s', (let* i := eval a in let* j := eval b in f i j) s = (Err Undefined, s')
  end.
Proof.
  intros IHa IHb Hh Hta Htb Hn Hroom Hf. pose proof (weight_nonneg a). pose proof (weight_nonneg b).
  pose proof (eval_two a b f d (fun v r s2 s' => post v r s' /\ extends n (tee_store s2) (tee_store s')) s) as Ht.
  lapply Ht; [clear Ht; intros Ht|apply IHa; auto; intros t; specialize (Hroom t); lia].
  lapply Ht; [clear Ht; intros Ht|].
  - specialize (Ht Htb). lapply Ht; [clear Ht; intros Ht|].
    + destruct (match denote (tee_store s) a, denote (tee_store s) b with Some x, Some y => d x y | _, _ => None end);
        [|exact Ht].
      destruct Ht as (r & s2 & s' & Hr & (Hp & Hx') & Hx). exists r, s'.
      split; [exact Hr|]. split; [exact Hp|]. exact (extends_trans _ _ _ _ _ Hx Hx').
    + intros i j x y s2 Hh2 Hi Hj [_ Hx] Hvi Hvj. apply Hf; try assumption. intros t.
      specialize (Hx t). specialize (Hroom t). lia.
  - intros s1 Hx Hh1. apply IHb; [exact Hh1|exact (typed_extends _ _ _ b Hx Htb)|]. intros t.
    destruct Hx as [_ Hx]. specialize (Hx t). specialize (Hroom t). lia.
Qed.

(** What a function that stores its result leaves behind. *)
Definition holds_value (t : vtype) (v : vty t) (rid : RID) (s : S) : Prop :=
  healthy s /\ in_u64 rid /\ view (tee_store s) t rid = Some v.
Lemma stored_result t (v : vty t) rid (s s' : S) : healthy s' -> stored (tee_store s) (tee_store s') t v rid ->
  holds_value t v rid s' /\ extends 1 (tee_store s) (tee_store s').
Proof. intros Hh Hst. split; [split; [exact Hh|]; split; apply Hst|]. now apply (stored_extends _ _ t v rid). Qed.

Lemma roomy_local s t : roomy 1 s -> local_room s t.
Proof. intros Hr. specialize (Hr t). unfold local_room. lia. Qed.

Lemma evaluates_shape {t} (o : option (vty t)) (m : M S RID) n (s : S) :
  match o with
  | Some v => exists r s', m s = (Ok r, s') /\ holds_value t v r s' /\ extends n (tee_store s) (tee_store s')
  | None => exists s', m s = (Err Undefined, s')
  end ->
  match o with
  | Some v => exists r s', m s = (Ok r, s') /\ healthy s' /\ in_u64 r /\ view (tee_store s') t r = Some v /\
      extends n (tee_store s) (tee_store s')
  | None => exists s', m s = (Err Undefined, s')
  end.
Proof. destruct o; [|auto]. intros (r & s' & Hr & (? & ? & ?) & Hx). exists r, s'. now split_and!. Qed.

Lemma eval_sound {t} (e : expr t) : forall s : S,
  healthy s -> typed (tee_store s) e -> roomy (weight e) (tee_store s) -> evaluates e s.
Proof.
  induction e as [t rid|op a IHa b IHb|op a IHa b IHb|a IHa b IHb|a IHa]; intros s Hh Ht Hroom; unfold evaluates;
    cbn [typed weight denote eval] in *.
  - destruct Ht as [Hu [v Hv]]. rewrite Hv. exists rid, s. split_and!; try assumption; [reflexivity|apply extends_refl].
  - destruct Ht as [Hta Htb].
    pose proof (eval_binary a b (kv_int4_op op) 1 (int_op_spec op) (holds_value TInt) s IHa IHb Hh Hta Htb ltac:(lia) Hroom) as Hc.
    lapply Hc; [apply (evaluates_shape (t := TInt))|]. intros i j x y s2 Hh2 Hi Hj Hvi Hvj Hr.
    pose proof (kv_int4_op_spec op i j s2 x y Hh2 Hi Hj Hvi Hvj (roomy_local _ TInt Hr)) as Hk.
    destruct (int_op_spec op x y) as [v|].
    + destruct Hk as (r & s' & Hrun & Hh' & _ & Hst). exists r, s'. split; [exact Hrun|now apply stored_result].
    + destruct Hk as (s' & Hrun & _). now exists s'.
  - destruct Ht as [Hta Htb].
    pose proof (eval_binary a b (kv_float4_op op) 1 (fun x y => Some (f32_arith op x y)) (holds_value TFloat) s IHa IHb
                  Hh Hta Htb ltac:(lia) Hroom) as Hc.
    lapply Hc; [apply (evaluates_shape (t := TFloat))|]. intros i j x y s2 Hh2 Hi Hj Hvi Hvj Hr.
    destruct (kv_float4_op_spec op i j s2 x y Hh2 Hi Hj Hvi Hvj (roomy_local _ TFloat Hr)) as (r & s' & Hrun & Hh' & _ & Hst).
    exists r, s'. split; [exact Hrun|now apply stored_result].
  - destruct Ht as [Hta Htb].
    pose proof (eval_binary a b kv_text_concatenate 1 (fun x y => Some (x ++ y)) (holds_value TText) s IHa IHb
                  Hh Hta Htb ltac:(lia) Hroom) as Hc.
    lapply Hc; [apply (evaluates_shape (t := TText))|]. intros i j x y s2 Hh2 Hi Hj Hvi Hvj Hr.
    destruct (kv_text_concatenate_spec i j x y s2 Hh2 Hi Hj Hvi Hvj (roomy_local _ TText Hr)) as (r & s' & Hrun & Hh' & _ & Hst).
    exists r, s'. split; [exact Hrun|now apply stored_result].
  - assert (Ha : evaluates a s) by (apply IHa; auto; intros t; specialize (Hroom t); lia).
    unfold evaluates in Ha. destruct (denote (tee_store s) a) as [x|].
    + destruct Ha as (i & s1 & Hra & Hh1 & Hui & Hvi & Hx1). rewrite (bindM_run _ _ _ _ _ Hra).
      destruct (year_spec i x s1 Hh1 Hui Hvi) as (rid & s' & Hr & Hh' & _ & Hst).
      { unfold local_room. destruct Hx1 as [_ Hx1]. specialize (Hx1 TInt). specialize (Hroom TInt). lia. }
      exists rid, s'. split; [exact Hr|]. destruct (stored_result TInt _ rid s1 s' Hh' Hst) as [(? & ? & ?) Hx].
      split_and!; try assumption. exact (extends_trans _ _ _ _ _ Hx1 Hx).
    + destruct Ha as (s1 & Hra). exists s1. now apply bindM_fail.
Qed.

(** C2: well-typed expressions do not go wrong: when every column of an expression holds a
    value of its declared type, evaluating the expression with the SQL functions yields a
    RID of the expression's type that holds its value, all values stored before are kept,
    and at most one local slot per function call is taken; where an integer operation
    overflows or divides by zero the call is undefined. *)
Theorem expression_sound {t} (e : expr t) (s : S) :
  healthy s -> typed (tee_store s) e -> roomy (weight e) (tee_store s) ->
  match denote (tee_store s) e with
  | Some v => exists rid s', eval e s = (Ok rid, s') /\ healthy s' /\ in_u64 rid /\
      view (tee_store s') t rid = Some v /\ extends (weight e) (tee_store s) (tee_store s')
  | None => exists s', eval e s = (Err Undefined, s')
  end.
Proof. exact (eval_sound e s). Qed.



End Soundness.

(** ** Expressions on a connection *)

(** 7 + date_part('year', t) *)
Definition sample_expr : expr TInt := IntOp IAdd (Column TInt (idx2local 0)) (Year (Column TTimestamp (idx2local 1))).
Lemma expression_sound_witness :
  exists rid s', eval sample_expr machine_pairs = (Ok rid, s') /\ healthy s' /\ in_u64 rid /\
    view (tee_store s') TInt rid = Some 2007 /\ extends 2 (tee_store machine_pairs) (tee_store s').
Proof.
  apply (expression_sound sample_expr machine_pairs machine_pairs_healthy).
  - split; (split; [vm_compute; split; congruence|eexists; reflexivity]).
  - intros []; reflexivity.
Defined.

