(* ===== verification/Server.v ===== *)
(** The request protocol between backends and workers: TEEInvoker::sendRequest of
    src/integrity_zone/client.cpp and the worker loop of src/privacy_zone/server.cpp. *)
From stdpp Require Import functions.
From S2P Require Import Prelude Rid Shm LocalStore FileMap KV Tee Crypto Wal Handler.

Definition OPS_WORKER_NUM : Z := 15.

Definition ops_worker_count : Z :=
  if OPS_WORKER_NUM <? MAX_REGION_NUM then OPS_WORKER_NUM else MAX_REGION_NUM.

(** The regions of the loop
    [for (region_id = worker_id; region_id < MAX_REGION_NUM; region_id += worker_count)]. *)
Fixpoint worker_regions_from (fuel : nat) (region_id worker_count : Z) : list Z :=
  match fuel with
  | O => []
  | S fuel' =>
      if region_id <? MAX_REGION_NUM
      then region_id :: worker_regions_from fuel' (region_id + worker_count) worker_count
      else []
  end.
Definition worker_regions (worker_id worker_count : Z) : list Z :=
  worker_regions_from (Z.to_nat MAX_REGION_NUM) worker_id worker_count.

Lemma worker_regions_from_spec fuel r0 n r :
  0 < n -> MAX_REGION_NUM <= r0 + Z.of_nat fuel ->
  r ∈ worker_regions_from fuel r0 n <-> r0 <= r < MAX_REGION_NUM /\ (r - r0) mod n = 0.
Proof.
  intros Hn. revert r0. induction fuel as [|fuel IH]; intros r0 Hf; cbn [worker_regions_from].
  - split; [intros H; inversion H|lia].
  - destruct (Z.ltb_spec r0 MAX_REGION_NUM) as [Hlt|Hge].
    + rewrite elem_of_cons, (IH (r0 + n)) by lia.
      replace (r - (r0 + n)) with (r - r0 + -1 * n) by lia. rewrite Z.mod_add by lia. split.
      * intros [->|[H1 H2]]; [rewrite Z.sub_diag, Z.mod_0_l by lia; lia|split; [lia|exact H2]].
      * intros [H1 H2]. destruct (decide (r = r0)) as [->|Hne]; [now left|right]. split; [|exact H2].
        apply Z.div_exact in H2; [|lia]. assert (0 < (r - r0) / n) by nia. nia.
    + split; [intros H; inversion H|lia].
Qed.

(** every region is polled by exactly one worker, the one whose number is the region's
    remainder modulo the number of workers, so no two workers ever handle the same request
    and every request has a worker. *)
Theorem regions_partitioned_among_workers (r : Z) :
  0 <= r < MAX_REGION_NUM ->
  forall w, 0 <= w < ops_worker_count ->
    (r ∈ worker_regions w ops_worker_count <-> w = r mod ops_worker_count).
Proof.
  intros Hr w Hw. change ops_worker_count with 15 in *. unfold worker_regions.
  rewrite worker_regions_from_spec by (change MAX_REGION_NUM with 539; lia).
  split.
  - intros [H1 H2]. dlia.
  - intros ->. split; [|dlia]. split; [|lia]. apply Z.mod_le; lia.
Qed.

Lemma regions_partitioned_among_workers_witness :
  20 ∈ worker_regions 5 ops_worker_count <-> 5 = 20 mod ops_worker_count.
Proof.
  apply (regions_partitioned_among_workers 20); split; vm_compute; congruence.
Defined.

(** ** The protocol of a worker's regions *)

(** The status word of a request region. *)
Inductive ReqStat : Type :=
| NONE
| SENT
| DONE
| EXIT.

#[export] Instance ReqStat_eq_dec : EqDecision ReqStat.
Proof. solve_decision. Defined.

Section Protocol.
(** The contents of a region beside its status word, requests and their results, the worker's
    state; the buffer after memset, [serializeTo] and [copyResultFrom] of a request object, and
    the body of [handle_request] between the barriers, [None] where a failed check or a fault
    ends the worker. *)
Context {Q R B W : Type}.
Context (zeroed : B) (serializeTo : Q -> B -> B) (copyResultFrom : Q -> B -> R).
Context (handle : B -> W -> option B * W).
(** The regions of the worker's loop, in its order. *)
Context (polled : list Z).

(** Where the backend of a region is: outside, in the constructor of the invoker, between two
    calls, in [sendRequest], in [freeBuffer]. *)
Inductive client_pc : Type :=
| Outside
| Claimed
| Cleared
| Idle
| Serialized (q : Q)
| Waiting (q : Q)
| Received (q : Q)
| Copied (q : Q) (r : R)
| Leaving.

(** Where the worker is in its loop. *)
Inductive worker_pc : Type :=
| Scan (rest : list Z)
| Test (n : Z) (rest : list Z)
| Handling (n : Z)
| Handled (n : Z)
| PassDone
| Exited
| Failed (n : Z).

(** A region with its bit of the bitmap, and the calls that returned to its backends, newest
    first. *)
Record region_state : Type := mkRegion {
  rg_bit : bool;
  rg_status : ReqStat;
  rg_buf : B;
  rg_client : client_pc;
  rg_calls : list (Q * R);
}.

(** The regions, the worker, [ops_req->status == SHM_EXIT], and the log of what the worker
    handled, newest first: the region, its buffer before and after. *)
Record protocol : Type := mkProtocol {
  pr_regions : Z -> region_state;
  pr_pc : worker_pc;
  pr_worker : W;
  pr_exit : bool;
  pr_log : list (Z * (B * option B));
}.

Definition set_region (s : protocol) (n : Z) (x : region_state) : protocol :=
  mkProtocol (<[n := x]> (pr_regions s)) (pr_pc s) (pr_worker s) (pr_exit s) (pr_log s).
Definition set_pc (s : protocol) (pc : worker_pc) : protocol :=
  mkProtocol (pr_regions s) pc (pr_worker s) (pr_exit s) (pr_log s).

(** One access of the backend of region [n]. *)
Inductive backend_step (n : Z) (s : protocol) : protocol -> Prop :=
| step_claim b st buf c calls :
    (* claim_shm_region: the bit was clear *)
    pr_regions s n = mkRegion b st buf c calls -> b = false ->
    backend_step n s (set_region s n (mkRegion true st buf Claimed calls))
| step_memset b st buf calls :
    (* memset(buffer, 0, REQ_REGION_SIZE) *)
    pr_regions s n = mkRegion b st buf Claimed calls ->
    backend_step n s (set_region s n (mkRegion b NONE zeroed Cleared calls))
| step_construct b st buf calls :
    (* req_control->status = NONE *)
    pr_regions s n = mkRegion b st buf Cleared calls ->
    backend_step n s (set_region s n (mkRegion b NONE buf Idle calls))
| step_serialize b st buf calls q :
    (* req->serializeTo(req_buffer) *)
    pr_regions s n = mkRegion b st buf Idle calls ->
    backend_step n s (set_region s n (mkRegion b st (serializeTo q buf) (Serialized q) calls))
| step_send b st buf calls q :
    (* req_control->status = SENT *)
    pr_regions s n = mkRegion b st buf (Serialized q) calls ->
    backend_step n s (set_region s n (mkRegion b SENT buf (Waiting q) calls))
| step_receive b st buf calls q :
    (* while (req_control->status != DONE) ends *)
    pr_regions s n = mkRegion b st buf (Waiting q) calls -> st = DONE ->
    backend_step n s (set_region s n (mkRegion b st buf (Received q) calls))
| step_copy b st buf calls q :
    (* req->copyResultFrom(req_buffer) *)
    pr_regions s n = mkRegion b st buf (Received q) calls ->
    backend_step n s (set_region s n (mkRegion b st buf (Copied q (copyResultFrom q buf)) calls))
| step_return b st buf calls q r :
    (* req_control->status = NONE; return *)
    pr_regions s n = mkRegion b st buf (Copied q r) calls ->
    backend_step n s (set_region s n (mkRegion b NONE buf Idle ((q, r) :: calls)))
| step_leave b st buf calls :
    (* freeBuffer: while (req->status == SENT) ends; req->status = NONE *)
    pr_regions s n = mkRegion b st buf Idle calls -> st <> SENT ->
    backend_step n s (set_region s n (mkRegion b NONE buf Leaving calls))
| step_release b st buf calls :
    (* release_shm_region *)
    pr_regions s n = mkRegion b st buf Leaving calls ->
    backend_step n s (set_region s n (mkRegion false st buf Outside calls)).

(** One access of the worker: the next test of the scan, the handler, the store of DONE, the
    test for the exit at the end of a pass. *)
Definition worker_step (s : protocol) : protocol :=
  match pr_pc s with
  | Scan [] => set_pc s PassDone
  | Scan (n :: rest) => set_pc s (if rg_bit (pr_regions s n) then Test n rest else Scan rest)
  | Test n rest => set_pc s (if decide (rg_status (pr_regions s n) = SENT) then Handling n else Scan rest)
  | Handling n =>
      let x := pr_regions s n in
      let '(o, w) := handle (rg_buf x) (pr_worker s) in
      let y := mkRegion (rg_bit x) (rg_status x) (default (rg_buf x) o) (rg_client x) (rg_calls x) in
      mkProtocol (<[n := y]> (pr_regions s)) (match o with Some _ => Handled n | None => Failed n end) w
        (pr_exit s) ((n, (rg_buf x, o)) :: pr_log s)
  | Handled n =>
      let x := pr_regions s n in
      set_pc (set_region s n (mkRegion (rg_bit x) DONE (rg_buf x) (rg_client x) (rg_calls x))) PassDone
  | PassDone => set_pc s (if pr_exit s then Exited else Scan polled)
  | Exited | Failed _ => s
  end.

Inductive pstep (s : protocol) : protocol -> Prop :=
| step_backend n s' : backend_step n s s' -> pstep s s'
| step_worker : pstep s (worker_step s)
| step_shutdown : pstep s (mkProtocol (pr_regions s) (pr_pc s) (pr_worker s) true (pr_log s)).

(** The server has cleared the shared memory and the worker starts its first pass. *)
Definition initial (w0 : W) : protocol :=
  mkProtocol (fun _ => mkRegion false NONE zeroed Outside []) (Scan polled) w0 false [].

Definition preach (w0 : W) : protocol -> Prop := rtc pstep (initial w0).

(** What the worker did with one region. *)
Definition region_log (n : Z) (log : list (Z * (B * option B))) : list (B * option B) :=
  snd <$> filter (fun e => fst e = n) log.
Arguments region_log : simpl never.

(** The worker's state after handling the buffers of a log, one after the other. *)
Fixpoint log_state (w0 : W) (log : list (Z * (B * option B))) : W :=
  match log with
  | [] => w0
  | (_, (b, _)) :: rest => snd (handle b (log_state w0 rest))
  end.

(** What the handler left is what it leaves at that point. *)
Fixpoint log_results (w0 : W) (log : list (Z * (B * option B))) : Prop :=
  match log with
  | [] => True
  | (_, (b, o)) :: rest => o = fst (handle b (log_state w0 rest)) /\ log_results w0 rest
  end.

(** A call that returned: the worker handled the request of the call, and the result was copied
    from what the handler left. *)
Definition answered (e : B * option B) (c : Q * R) : Prop :=
  exists b0 b', e = (serializeTo (fst c) b0, Some b') /\ snd c = copyResultFrom (fst c) b'.
(** The request of a call was handled, its result is not back yet. *)
Definition underway (e : B * option B) (q : Q) : Prop := exists b0, fst e = serializeTo q b0.

Definition on_region (pc : worker_pc) (n : Z) : Prop :=
  match pc with
  | Handling m | Handled m | Failed m => m = n
  | _ => False
  end.

(** The calls that returned are those the worker handled... *)
Definition settled (s : protocol) (n : Z) (x : region_state) : Prop :=
  Forall2 answered (region_log n (pr_log s)) (rg_calls x) /\ ~ on_region (pr_pc s) n.
(** ... or it handled one more, with the result in the buffer. *)
Definition holds_result (s : protocol) (n : Z) (x : region_state) (q : Q) (b' : B) : Prop :=
  exists b0 rest, region_log n (pr_log s) = (serializeTo q b0, Some b') :: rest /\ Forall2 answered rest (rg_calls x).

Definition region_inv (s : protocol) (n : Z) (x : region_state) : Prop :=
  (rg_client x <> Outside -> rg_bit x = true) /\
  match rg_client x with
  | Outside | Claimed | Cleared | Idle | Leaving => rg_status x = NONE /\ settled s n x
  | Serialized q => rg_status x = NONE /\ settled s n x /\ exists b0, rg_buf x = serializeTo q b0
  | Waiting q =>
      (rg_status x = SENT /\ Forall2 answered (region_log n (pr_log s)) (rg_calls x) /\
       (exists b0, rg_buf x = serializeTo q b0) /\ (pr_pc s = Handling n \/ ~ on_region (pr_pc s) n)) \/
      (rg_status x = SENT /\ pr_pc s = Failed n /\
       exists b0 rest, region_log n (pr_log s) = (serializeTo q b0, None) :: rest /\ Forall2 answered rest (rg_calls x)) \/
      (rg_status x = SENT /\ pr_pc s = Handled n /\ holds_result s n x q (rg_buf x)) \/
      (rg_status x = DONE /\ ~ on_region (pr_pc s) n /\ holds_result s n x q (rg_buf x))
  | Received q => rg_status x = DONE /\ ~ on_region (pr_pc s) n /\ holds_result s n x q (rg_buf x)
  | Copied q r =>
      rg_status x = DONE /\ ~ on_region (pr_pc s) n /\
      exists b', r = copyResultFrom q b' /\ holds_result s n x q b'
  end.

Arguments region_inv : simpl never.

(** The worker looks at its own regions. *)
Definition pc_ok (pc : worker_pc) : Prop :=
  match pc with
  | Scan rest => rest ⊆ polled
  | Test n rest => n ∈ polled /\ rest ⊆ polled
  | Handling n | Handled n | Failed n => n ∈ polled
  | PassDone | Exited => True
  end.

Record pinv (w0 : W) (s : protocol) : Prop := {
  inv_regions : forall n, region_inv s n (pr_regions s n);
  inv_worker : pr_worker s = log_state w0 (pr_log s);
  inv_results : log_results w0 (pr_log s);
  inv_exit : pr_pc s = Exited -> pr_exit s = true;
  inv_pc : pc_ok (pr_pc s);
}.

Lemma region_log_same n e log : region_log n ((n, e) :: log) = e :: region_log n log.
Proof. unfold region_log. now rewrite filter_cons_True. Qed.

Lemma region_log_other n m e log : m <> n -> region_log n ((m, e) :: log) = region_log n log.
Proof. intros H. unfold region_log. now rewrite filter_cons_False. Qed.

(** The invariant of a region depends on the log of the region and on the worker being there. *)
Lemma region_inv_frame s s' m x :
  region_inv s m x -> ~ on_region (pr_pc s) m -> ~ on_region (pr_pc s') m ->
  region_log m (pr_log s') = region_log m (pr_log s) -> region_inv s' m x.
Proof.
  intros [Hb Hx] Hpc Hpc' Hlog. split; [exact Hb|]. unfold settled, holds_result in *. rewrite Hlog.
  destruct (rg_client x); try tauto.
  destruct Hx as [(H1 & H2 & H3 & _)|[(_ & H & _)|[(_ & H & _)|H]]]; [| | |tauto].
  - left. tauto.
  - exfalso. apply Hpc. now rewrite H.
  - exfalso. apply Hpc. now rewrite H.
Qed.

(** A backend's step keeps the invariant when it keeps that of its own region. *)
Lemma pinv_set_region w0 s n x : pinv w0 s -> region_inv s n x -> pinv w0 (set_region s n x).
Proof.
  intros [Hr Hw Hl He Hk] Hx. split; try assumption. intros m. cbn. destruct (decide (n = m)) as [->|Hne].
  - rewrite fn_lookup_insert. exact Hx.
  - rewrite fn_lookup_insert_ne by exact Hne. exact (Hr m).
Qed.

Lemma backend_inv w0 s n s' : pinv w0 s -> backend_step n s s' -> pinv w0 s'.
Proof.
  intros Hinv Hstep. pose proof (inv_regions w0 s Hinv n) as Hin.
  destruct Hstep; rewrite H in Hin; apply (pinv_set_region w0 s n _ Hinv); unfold region_inv, settled, holds_result in *;
    cbn in *; destruct Hin as [Hbit Hin]; (split; [try (intros _; now apply Hbit)|]).
  - auto.
  - destruct c; try (specialize (Hbit ltac:(discriminate)); congruence). exact Hin.
  - tauto.
  - tauto.
  - split_and!; try tauto. eauto.
  - left. tauto.
  - destruct Hin as [(H1 & _)|[(H1 & _)|[(H1 & _)|H1]]]; congruence || tauto.
  - destruct Hin as (H1 & H2 & H3). eauto.
  - destruct Hin as (_ & H2 & b' & -> & b0 & rest & H4 & H5). split_and!; auto. rewrite H4. constructor; [|exact H5].
    exists b0, b'. auto.
  - tauto.
  - congruence.
  - tauto.
Qed.

(** The worker moves its program counter outside the handling of a request. *)
Lemma pinv_set_pc w0 s pc : pinv w0 s -> (forall m, ~ on_region (pr_pc s) m) -> (forall m, ~ on_region pc m) ->
  (pc = Exited -> pr_exit s = true) -> pc_ok pc -> pinv w0 (set_pc s pc).
Proof.
  intros [Hr Hw Hl He Hk] H H' Hx Hk'. split; try assumption.
  intros m. apply (region_inv_frame s); [apply Hr|apply H|apply H'|reflexivity].
Qed.

(** The worker changes region [n] and what it logs of it. *)
Lemma region_inv_worker s s' n : (forall m, region_inv s m (pr_regions s m)) ->
  (forall m, m <> n -> pr_regions s' m = pr_regions s m) ->
  (forall m, on_region (pr_pc s) m -> m = n) -> (forall m, on_region (pr_pc s') m -> m = n) ->
  (forall m, m <> n -> region_log m (pr_log s') = region_log m (pr_log s)) ->
  region_inv s' n (pr_regions s' n) -> forall m, region_inv s' m (pr_regions s' m).
Proof.
  intros Hr Ho Hpc Hpc' Hlog Hn m. destruct (decide (m = n)) as [->|Hne]; [exact Hn|].
  rewrite Ho by exact Hne. apply (region_inv_frame s); [apply Hr|auto|auto|now apply Hlog].
Qed.

(** A region whose request was found SENT is that of a waiting backend. *)
Lemma sent_waits s n x : region_inv s n x -> rg_status x = SENT -> exists q, rg_client x = Waiting q.
Proof.
  intros [_ H] E. destruct (rg_client x) as [| | | |q|q|q|q r|]; try (exfalso; destruct H as [H _]; congruence).
  now exists q.
Qed.

Lemma take_inv w0 s n rest : pinv w0 s -> pr_pc s = Test n rest -> rg_status (pr_regions s n) = SENT ->
  pinv w0 (set_pc s (Handling n)).
Proof.
  intros Hinv Hpc Hst. pose proof (inv_regions w0 s Hinv) as Hr. split.
  - apply (region_inv_worker s _ n Hr); try reflexivity; [rewrite Hpc; intros m []|auto|].
    destruct (sent_waits s n _ (Hr n) Hst) as [q Hc]. specialize (Hr n). unfold region_inv in *. cbn. rewrite Hc in *.
    destruct Hr as [Hb [H|[H|[H|H]]]]; (split; [exact Hb|]); rewrite ?Hpc in H; [left; tauto|destruct H as (_ & H & _); discriminate H
      |destruct H as (_ & H & _); discriminate H|destruct H as (H & _); congruence].
  - apply Hinv.
  - apply Hinv.
  - discriminate.
  - pose proof (inv_pc w0 s Hinv) as H. rewrite Hpc in H. cbn in *. set_solver.
Qed.

(** On the region it handles, the worker found the request of a waiting backend. *)
Lemma handling_waits w0 s n : pinv w0 s -> pr_pc s = Handling n -> exists q b0, rg_client (pr_regions s n) = Waiting q /\
  rg_bit (pr_regions s n) = true /\ rg_status (pr_regions s n) = SENT /\ rg_buf (pr_regions s n) = serializeTo q b0 /\
  Forall2 answered (region_log n (pr_log s)) (rg_calls (pr_regions s n)).
Proof.
  intros Hinv Hpc. pose proof (inv_regions w0 s Hinv n) as [Hb H]. unfold settled in H. rewrite Hpc in H.
  destruct (rg_client (pr_regions s n)) as [| | | |q|q|q|q r|]; cbn in H; try tauto.
  destruct H as [(H1 & H2 & (b0 & H3) & _)|[(_ & H & _)|[(_ & H & _)|(_ & H & _)]]]; try discriminate H; [|tauto].
  specialize (Hb ltac:(discriminate)). exists q, b0. auto 6.
Qed.

Lemma handle_inv w0 s n : pinv w0 s -> pr_pc s = Handling n -> pinv w0 (worker_step s).
Proof.
  intros Hinv Hpc. destruct (handling_waits w0 s n Hinv Hpc) as (q & b0 & Hc & Hbit & Hst & Hbuf & Hlog).
  unfold worker_step. rewrite Hpc. destruct (handle (rg_buf (pr_regions s n)) (pr_worker s)) as [o w] eqn:Hh. split.
  - apply (region_inv_worker s _ n (inv_regions w0 s Hinv)); cbn.
    + intros m Hm. now rewrite fn_lookup_insert_ne by congruence.
    + rewrite Hpc. auto.
    + destruct o; auto.
    + intros m Hm. apply region_log_other. congruence.
    + rewrite fn_lookup_insert. unfold region_inv, holds_result. cbn. rewrite Hc, Hbit, Hst, region_log_same, Hbuf.
      split; [auto|]. right. destruct o as [b'|]; [right|]; left; cbn; eauto 8.
  - cbn. rewrite <- (inv_worker w0 s Hinv), Hh. reflexivity.
  - cbn. rewrite <- (inv_worker w0 s Hinv), Hh. split; [reflexivity|apply Hinv].
  - destruct o; discriminate.
  - pose proof (inv_pc w0 s Hinv) as H. rewrite Hpc in H. now destruct o.
Qed.

Lemma done_inv w0 s n : pinv w0 s -> pr_pc s = Handled n -> pinv w0 (worker_step s).
Proof.
  intros Hinv Hpc. pose proof (inv_regions w0 s Hinv n) as [Hb H]. unfold settled in H. rewrite Hpc in H. unfold worker_step.
  rewrite Hpc. split; [|apply Hinv|apply Hinv|discriminate|exact I].
  apply (region_inv_worker s _ n (inv_regions w0 s Hinv)); cbn; [| | |reflexivity|].
  - intros m Hm. now rewrite fn_lookup_insert_ne by congruence.
  - rewrite Hpc. auto.
  - intros m [].
  - rewrite fn_lookup_insert. unfold region_inv, settled, holds_result in *. cbn in *.
    destruct (rg_client (pr_regions s n)) as [| | | |q|q|q|q r|]; try tauto. split; [exact Hb|].
    destruct H as [(_ & _ & _ & [H|H])|[(_ & H & _)|[(_ & _ & H)|(_ & H & _)]]]; try discriminate H; try tauto.
Qed.

Lemma worker_inv w0 s : pinv w0 s -> pinv w0 (worker_step s).
Proof.
  intros Hinv. pose proof (inv_pc w0 s Hinv) as Hk. destruct (pr_pc s) as [rest|n rest|n|n| | |n] eqn:Hpc;
    [| |exact (handle_inv w0 s n Hinv Hpc)|exact (done_inv w0 s n Hinv Hpc)| | |]; unfold worker_step; rewrite Hpc.
  - destruct rest as [|n rest]; [|destruct (rg_bit (pr_regions s n))];
      (apply pinv_set_pc; [exact Hinv|rewrite Hpc; intros ? []|intros ? []|discriminate|cbn in *; set_solver]).
  - destruct (decide (rg_status (pr_regions s n) = SENT)) as [Hst|_]; [exact (take_inv w0 s n rest Hinv Hpc Hst)|].
    apply pinv_set_pc; [exact Hinv|rewrite Hpc; intros ? []|intros ? []|discriminate|cbn in *; set_solver].
  - destruct (pr_exit s) eqn:He; (apply pinv_set_pc; [exact Hinv|rewrite Hpc; intros ? []|intros ? []|auto; discriminate|cbn; auto; set_solver]).
  - exact Hinv.
  - exact Hinv.
Qed.

Lemma preach_inv w0 s : preach w0 s -> pinv w0 s.
Proof.
  revert s. apply (rtc_ind_r (R := pstep) (pinv w0) (initial w0)).
  - split; [|reflexivity|exact I|discriminate|cbn; set_solver]. intros n. split; cbn; [congruence|]. split; [reflexivity|].
    split; [constructor|auto].
  - intros s1 s2 _ [n s2' Hb| |] Hinv; [exact (backend_inv w0 s1 n _ Hinv Hb)|exact (worker_inv w0 s1 Hinv)|].
    destruct Hinv as [Hr Hw Hl He Hk]. split; auto.
Qed.

(** C4: calls are atomic and exactly once. However the backends that come and go on a worker's
    regions and the worker interleave, the worker's state is that of handling the buffers it
    logged one after the other, and region by region and in order the calls that returned are
    those the worker handled: it was given the buffer in which the call's request had been
    serialized, and the result was copied from what the handler left there. The one exception
    is a handled request whose backend is still inside [sendRequest]. *)
Theorem calls_are_handled_exactly_once (w0 : W) (s : protocol) :
  preach w0 s ->
  pr_worker s = log_state w0 (pr_log s) /\ log_results w0 (pr_log s) /\
  forall n, let x := pr_regions s n in
    Forall2 answered (region_log n (pr_log s)) (rg_calls x) \/
    exists q e rest, (rg_client x = Waiting q \/ rg_client x = Received q \/ exists r, rg_client x = Copied q r) /\
      region_log n (pr_log s) = e :: rest /\ underway e q /\ Forall2 answered rest (rg_calls x).
Proof.
  intros H%preach_inv. destruct H as [Hr Hw Hl _ _]. split; [exact Hw|]. split; [exact Hl|].
  intros n x. destruct (Hr n) as [_ Hn]. fold x in Hn. unfold settled, holds_result, underway in *.
  destruct (rg_client x) as [| | | |q|q|q|q r|]; try (left; tauto);
    [destruct Hn as [Hn|[(_ & _ & Hn)|[(_ & _ & Hn)|(_ & _ & Hn)]]]; [left; tauto| | |]
    |destruct Hn as (_ & _ & Hn)|destruct Hn as (_ & _ & b' & _ & Hn)];
    right; destruct Hn as (b0 & rest & E & F); exists q; eexists; exists rest; (split; [eauto|]); split_and!; eauto.
Qed.

(** *** The worker answers *)

(** The worker alone. *)
Definition worker_runs : protocol -> protocol -> Prop := rtc (fun s s' => s' = worker_step s).

Lemma worker_runs_inv w0 s s' : worker_runs s s' -> pinv w0 s -> pinv w0 s'.
Proof. induction 1 as [s|s s1 s2 -> _ IH]; intros H; [exact H|]. apply IH, worker_inv, H. Qed.

Lemma worker_runs_step s s' : worker_runs (worker_step s) s' -> worker_runs s s'.
Proof. intros H. eapply rtc_l; [reflexivity|exact H]. Qed.

Definition ended (pc : worker_pc) : Prop := pc = Exited \/ exists m, pc = Failed m.

(** How many of the polled regions hold a request. *)
Definition pending (s : protocol) : nat := length (filter (fun n => rg_status (pr_regions s n) = SENT) polled).

(** The backend of region [n] still waits for [q], and its calls are [calls]. *)
Definition waits (n : Z) (q : Q) (calls : list (Q * R)) (s : protocol) : Prop :=
  rg_client (pr_regions s n) = Waiting q /\ rg_calls (pr_regions s n) = calls.

Lemma waits_step n q calls s : waits n q calls s -> waits n q calls (worker_step s).
Proof.
  intros [Hc Hl]. unfold waits, worker_step. destruct (pr_pc s) as [[|m rest]|m rest|m|m| | |m]; cbn; auto.
  - destruct (handle _ _) as [o w]; cbn. destruct (decide (m = n)) as [->|Hne];
      [rewrite fn_lookup_insert|rewrite fn_lookup_insert_ne by exact Hne]; auto.
  - destruct (decide (m = n)) as [->|Hne]; [rewrite fn_lookup_insert|rewrite fn_lookup_insert_ne by exact Hne]; auto.
Qed.
Lemma waits_runs n q calls s s' : worker_runs s s' -> waits n q calls s -> waits n q calls s'.
Proof. induction 1 as [s|s s1 s2 -> _ IH]; intros H; [exact H|]. now apply IH, waits_step. Qed.

(** A request that is handled, or found, is no longer pending at the end of the pass. *)
Lemma handled_runs s m : pr_pc s = Handled m -> rg_status (pr_regions s m) = SENT -> m ∈ polled ->
  exists s', worker_runs s s' /\ pr_pc s' = PassDone /\ (pending s' < pending s)%nat.
Proof.
  intros Hpc Hst Hm. exists (worker_step s). split; [now apply rtc_once|]. unfold worker_step. rewrite Hpc.
  split; [reflexivity|]. unfold pending. cbn. revert Hm. generalize polled as l. induction l as [|k l IH]; [intros H; inversion H|].
  rewrite !filter_cons. intros Hm. destruct (decide (m = k)) as [<-|Hne].
  - rewrite fn_lookup_insert. cbn. rewrite (decide_False (P := DONE = SENT)) by discriminate.
    rewrite (decide_True (P := rg_status (pr_regions s m) = SENT)) by exact Hst. cbn. apply Nat.lt_succ_r.
    clear IH Hm. induction l as [|j l IH]; [cbn; lia|]. rewrite !filter_cons.
    destruct (decide (m = j)) as [<-|Hj]; [rewrite fn_lookup_insert|rewrite fn_lookup_insert_ne by exact Hj]; cbn.
    + rewrite (decide_False (P := DONE = SENT)) by discriminate. destruct (decide _); cbn; lia.
    + destruct (decide _); cbn; lia.
  - rewrite fn_lookup_insert_ne by exact Hne. apply elem_of_cons in Hm as [Hm|Hm]; [congruence|].
    specialize (IH Hm). destruct (decide _); cbn; lia.
Qed.

Lemma handling_runs w0 s m : pinv w0 s -> pr_pc s = Handling m ->
  exists s', worker_runs s s' /\ (ended (pr_pc s') \/ pr_pc s' = PassDone /\ (pending s' < pending s)%nat).
Proof.
  intros Hinv Hpc. destruct (handling_waits w0 s m Hinv Hpc) as (q & b0 & _ & _ & Hst & _).
  pose proof (inv_pc w0 s Hinv) as Hm. rewrite Hpc in Hm. cbn in Hm.
  assert (pending (worker_step s) = pending s /\ rg_status (pr_regions (worker_step s) m) = SENT /\
    (pr_pc (worker_step s) = Handled m \/ pr_pc (worker_step s) = Failed m)) as (Hpend & Hst' & Hpc').
  { unfold pending, worker_step. rewrite Hpc. destruct (handle _ _) as [o w]. cbn. rewrite fn_lookup_insert. split_and!.
    - f_equal. apply list_filter_iff. intros k. destruct (decide (m = k)) as [<-|Hne];
        [rewrite fn_lookup_insert|rewrite fn_lookup_insert_ne by exact Hne]; reflexivity.
    - exact Hst.
    - destruct o; auto. }
  destruct Hpc' as [Hpc'|Hpc'].
  - destruct (handled_runs _ m Hpc' Hst' Hm) as (s' & Hs' & H). exists s'. split; [now apply worker_runs_step|].
    right. rewrite <- Hpend. exact H.
  - exists (worker_step s). split; [now apply rtc_once|]. left. right. eauto.
Qed.

(** A scan handles a request, or there was none in its regions. *)
Lemma scan_runs w0 rest : forall s, pinv w0 s -> pr_pc s = Scan rest ->
  exists s', worker_runs s s' /\ (ended (pr_pc s') \/ pr_pc s' = PassDone /\
    ((pending s' < pending s)%nat \/ forall n, n ∈ rest -> rg_status (pr_regions s n) <> SENT)).
Proof.
  induction rest as [|m rest IH]; intros s Hinv Hpc.
  { exists (worker_step s). split; [now apply rtc_once|]. right. split; [unfold worker_step; now rewrite Hpc|].
    right. intros n H. inversion H. }
  assert (Hnext : rg_status (pr_regions s m) <> SENT -> worker_runs s (set_pc s (Scan rest)) ->
    exists s', worker_runs s s' /\ (ended (pr_pc s') \/ pr_pc s' = PassDone /\
      ((pending s' < pending s)%nat \/ forall n, n ∈ m :: rest -> rg_status (pr_regions s n) <> SENT))).
  { intros Hm Hr. destruct (IH _ (worker_runs_inv w0 _ _ Hr Hinv) eq_refl) as (s' & Hs' & H). exists s'.
    split; [now transitivity (set_pc s (Scan rest))|]. destruct H as [H|(H & [Hp|Hp])]; [now left|right; auto|right].
    split; [exact H|]. right. intros n [->|Hn]%elem_of_cons; [exact Hm|exact (Hp n Hn)]. }
  destruct (rg_bit (pr_regions s m)) eqn:Hbit.
  - assert (E : worker_step s = set_pc s (Test m rest)) by (unfold worker_step; now rewrite Hpc, Hbit).
    pose proof (worker_inv w0 _ (worker_inv w0 s Hinv)) as H2.
    destruct (decide (rg_status (pr_regions s m) = SENT)) as [Hm|Hm].
    + assert (E' : worker_step (worker_step s) = set_pc s (Handling m))
        by (rewrite E; unfold worker_step; cbn; now rewrite decide_True by exact Hm).
      rewrite E' in H2. destruct (handling_runs w0 _ m H2 eq_refl) as (s' & Hs' & H). exists s'. split.
      * apply worker_runs_step, worker_runs_step. rewrite E'. exact Hs'.
      * destruct H as [H|[H Hp]]; [now left|right; auto].
    + apply Hnext; [exact Hm|]. apply worker_runs_step, rtc_once. rewrite E. unfold worker_step. cbn.
      now rewrite decide_False by exact Hm.
  - apply Hnext; [|apply rtc_once; unfold worker_step; now rewrite Hpc, Hbit].
    intros Hst. pose proof (inv_regions w0 s Hinv m) as Hm. destruct (sent_waits s m _ Hm Hst) as [q Hc].
    destruct Hm as [Hb _]. rewrite Hb in Hbit; congruence.
Qed.

(** The worker finishes the pass it is in. *)
Lemma pass_runs w0 s : pinv w0 s -> exists s', worker_runs s s' /\ (ended (pr_pc s') \/ pr_pc s' = PassDone).
Proof.
  intros Hinv.
  assert (Hscan : forall rest s0, worker_runs s s0 -> pr_pc s0 = Scan rest ->
    exists s', worker_runs s s' /\ (ended (pr_pc s') \/ pr_pc s' = PassDone)).
  { intros rest s0 Hr Hpc. destruct (scan_runs w0 rest s0 (worker_runs_inv w0 _ _ Hr Hinv) Hpc) as (s' & Hs' & H).
    exists s'. split; [now transitivity s0|tauto]. }
  assert (Hhandle : forall m s0, worker_runs s s0 -> pr_pc s0 = Handling m ->
    exists s', worker_runs s s' /\ (ended (pr_pc s') \/ pr_pc s' = PassDone)).
  { intros m s0 Hr Hpc. destruct (handling_runs w0 s0 m (worker_runs_inv w0 _ _ Hr Hinv) Hpc) as (s' & Hs' & H).
    exists s'. split; [now transitivity s0|tauto]. }
  assert (H1 : worker_runs s (worker_step s)) by now apply rtc_once.
  destruct (pr_pc s) as [rest|m rest|m|m| | |m] eqn:Hpc.
  - exact (Hscan rest s (rtc_refl _ s) Hpc).
  - destruct (decide (rg_status (pr_regions s m) = SENT)) as [E|E].
    + apply (Hhandle m (worker_step s) H1). unfold worker_step. now rewrite Hpc, decide_True by exact E.
    + apply (Hscan rest (worker_step s) H1). unfold worker_step. now rewrite Hpc, decide_False by exact E.
  - exact (Hhandle m s (rtc_refl _ s) Hpc).
  - exists (worker_step s). split; [exact H1|]. right. unfold worker_step. now rewrite Hpc.
  - exists s. split; [apply rtc_refl|]. now right.
  - exists s. split; [apply rtc_refl|]. left. now left.
  - exists s. split; [apply rtc_refl|]. left. right. eauto.
Qed.

(** Pass after pass one request less is pending, until that of region [n] is handled. *)
Lemma answer_runs w0 n q calls : n ∈ polled -> forall k s, pinv w0 s -> pr_pc s = PassDone -> (pending s <= k)%nat ->
  waits n q calls s -> exists s', worker_runs s s' /\ (ended (pr_pc s') \/ rg_status (pr_regions s' n) = DONE).
Proof.
  intros Hn. induction k as [k IH] using lt_wf_ind. intros s Hinv Hpc Hk Hw.
  assert (Hst : rg_status (pr_regions s n) = SENT \/ rg_status (pr_regions s n) = DONE).
  { destruct (inv_regions w0 s Hinv n) as [_ H]. rewrite (proj1 Hw) in H. tauto. }
  destruct Hst as [Hst|Hst]; [|exists s; split; [apply rtc_refl|now right]].
  assert (H1 : worker_runs s (worker_step s)) by now apply rtc_once. destruct (pr_exit s) eqn:He.
  { exists (worker_step s). split; [exact H1|]. left. left. unfold worker_step. now rewrite Hpc, He. }
  assert (E : worker_step s = set_pc s (Scan polled)) by (unfold worker_step; now rewrite Hpc, He).
  destruct (scan_runs w0 polled (worker_step s) (worker_inv w0 s Hinv)) as (s1 & Hs1 & H); [now rewrite E|].
  pose proof (worker_runs_step _ _ Hs1) as Hr. destruct H as [H|(Hpc1 & [Hp|Hp])].
  - exists s1. auto.
  - rewrite E in Hp. change (pending (set_pc s (Scan polled))) with (pending s) in Hp.
    destruct (IH (pending s1) ltac:(lia) s1 (worker_runs_inv w0 _ _ Hr Hinv) Hpc1 ltac:(lia) (waits_runs _ _ _ _ _ Hr Hw))
      as (s' & Hs' & H). exists s'. split; [now transitivity s1|exact H].
  - exfalso. rewrite E in Hp. exact (Hp n Hn Hst).
Qed.

(** The worker and the backend of region [n] run, the other backends pause. *)
Definition runs_with (n : Z) : protocol -> protocol -> Prop :=
  rtc (fun s s' => s' = worker_step s \/ backend_step n s s').

(** A result in the region is fetched. *)
Lemma fetch_result n q calls s : waits n q calls s -> rg_status (pr_regions s n) = DONE ->
  exists s' r, runs_with n s s' /\ rg_client (pr_regions s' n) = Idle /\ rg_calls (pr_regions s' n) = (q, r) :: calls.
Proof.
  intros [Hc Hl] Hst. destruct (pr_regions s n) as [b st buf c l] eqn:E. cbn in *. subst c l st.
  eexists _, _. split.
  - eapply rtc_l; [right; eapply step_receive; [exact E|reflexivity]|].
    eapply rtc_l; [right; eapply step_copy; cbn; apply fn_lookup_insert|].
    eapply rtc_once. right. eapply step_return. cbn. apply fn_lookup_insert.
  - cbn. rewrite fn_lookup_insert. auto.
Qed.

(** C30: a backend that waits gets its answer. From every reachable state in which a backend of
    one of the worker's regions waits, running the worker and that backend, with the other
    backends pausing where they are, brings the call to its return, unless the handling of a
    request ends the worker or the server was told to exit. *)
Theorem waiting_backend_progress (w0 : W) (s : protocol) (n : Z) (q : Q) :
  preach w0 s -> n ∈ polled -> rg_client (pr_regions s n) = Waiting q ->
  exists s', runs_with n s s' /\
    ((exists r, rg_client (pr_regions s' n) = Idle /\ rg_calls (pr_regions s' n) = (q, r) :: rg_calls (pr_regions s n)) \/
     (exists m, pr_pc s' = Failed m) \/ (pr_pc s' = Exited /\ pr_exit s' = true)).
Proof.
  intros Hinv%preach_inv Hn Hc. assert (Hw : waits n q (rg_calls (pr_regions s n)) s) by now split.
  assert (Hsub : forall a b, worker_runs a b -> runs_with n a b) by (intros a b; apply rtc_subrel; auto).
  destruct (pass_runs w0 s Hinv) as (s1 & Hs1 & H1). pose proof (worker_runs_inv w0 _ _ Hs1 Hinv) as Hinv1.
  assert (Hend : forall s', worker_runs s s' -> ended (pr_pc s') ->
    (exists m, pr_pc s' = Failed m) \/ (pr_pc s' = Exited /\ pr_exit s' = true)).
  { intros s' Hs' [E|E]; [right|now left]. split; [exact E|]. exact (inv_exit w0 s' (worker_runs_inv w0 _ _ Hs' Hinv) E). }
  destruct H1 as [H1|H1]; [exists s1; auto|].
  destruct (answer_runs w0 n q _ Hn _ s1 Hinv1 H1 (le_n _) (waits_runs _ _ _ _ _ Hs1 Hw)) as (s2 & Hs2 & H2).
  assert (Hs : worker_runs s s2) by now transitivity s1. destruct H2 as [H2|H2]; [exists s2; auto|].
  destruct (fetch_result n q _ s2 (waits_runs _ _ _ _ _ Hs Hw) H2) as (s3 & r & Hs3 & H3).
  exists s3. split; [transitivity s2; auto|]. left. eauto.
Qed.

End Protocol.

(** A worker of two regions that adds the requests up and fails on a negative one: the buffer
    has an argument and a result. The backend of region 3 has sent 5 and the worker has handled
    it, but not yet stored DONE. *)
Module Adder.
Definition serializeTo (q : Z) (b : Z * Z) : Z * Z := (q, snd b).
Definition copyResultFrom (q : Z) (b : Z * Z) : Z := snd b.
Definition handle (b : Z * Z) (w : Z) : option (Z * Z) * Z :=
  if fst b <? 0 then (None, w) else (Some (fst b, w + fst b), w + fst b).
Definition region (st : ReqStat) (b : Z * Z) (c : client_pc) : region_state := mkRegion (Q := Z) (R := Z) true st b c [].

Definition start : protocol := initial (Q := Z) (R := Z) (0, 0) [3; 18] 10.
Definition sent : protocol :=
  set_region (set_region (set_region (set_region (set_region start 3 (region NONE (0, 0) Claimed))
    3 (region NONE (0, 0) Cleared)) 3 (region NONE (0, 0) Idle)) 3 (region NONE (5, 0) (Serialized 5)))
    3 (region SENT (5, 0) (Waiting 5)).
Definition handled : protocol :=
  worker_step handle [3; 18] (worker_step handle [3; 18] (worker_step handle [3; 18] sent)).

Lemma reach : preach (0, 0) serializeTo copyResultFrom handle [3; 18] 10 handled.
Proof.
  unfold preach.
  eapply rtc_l; [apply (step_backend _ _ _ _ _ _ 3), (step_claim _ _ _ 3 start false NONE (0, 0) Outside []); reflexivity|].
  eapply rtc_l; [apply (step_backend _ _ _ _ _ _ 3); eapply step_memset; reflexivity|].
  eapply rtc_l; [apply (step_backend _ _ _ _ _ _ 3); eapply step_construct; reflexivity|].
  eapply rtc_l; [apply (step_backend _ _ _ _ _ _ 3), (step_serialize _ _ _ 3 _ true NONE (0, 0) [] 5); reflexivity|].
  eapply rtc_l; [apply (step_backend _ _ _ _ _ _ 3); eapply step_send; reflexivity|].
  do 3 (eapply rtc_l; [apply step_worker|]). apply rtc_refl.
Qed.

Example handled_log : pr_pc handled = Handled 3 /\ pr_worker handled = 15 /\
  pr_log handled = [(3, ((5, 0), Some (5, 15)))] /\ rg_client (pr_regions handled 3) = Waiting 5.
Proof. vm_compute. auto. Qed.
End Adder.

Lemma calls_are_handled_exactly_once_witness :
  pr_worker Adder.handled = log_state Adder.handle 10 (pr_log Adder.handled) /\
  log_results Adder.handle 10 (pr_log Adder.handled) /\
  forall n, let x := pr_regions Adder.handled n in
    Forall2 (answered Adder.serializeTo Adder.copyResultFrom) (region_log n (pr_log Adder.handled)) (rg_calls x) \/
    exists q e rest, (rg_client x = Waiting q \/ rg_client x = Received q \/ exists r, rg_client x = Copied q r) /\
      region_log n (pr_log Adder.handled) = e :: rest /\ underway Adder.serializeTo e q /\
      Forall2 (answered Adder.serializeTo Adder.copyResultFrom) rest (rg_calls x).
Proof. apply (calls_are_handled_exactly_once _ _ _ _ _ 10 _ Adder.reach). Defined.

Lemma waiting_backend_progress_witness :
  exists s', runs_with (0, 0) Adder.serializeTo Adder.copyResultFrom Adder.handle [3; 18] 3 Adder.handled s' /\
    ((exists r, rg_client (pr_regions s' 3) = Idle /\ rg_calls (pr_regions s' 3) = (5, r) :: rg_calls (pr_regions Adder.handled 3)) \/
     (exists m, pr_pc s' = Failed m) \/ (pr_pc s' = Exited /\ pr_exit s' = true)).
Proof.
  apply (waiting_backend_progress _ _ _ _ _ 10 Adder.handled 3 5 Adder.reach); [now left|reflexivity].
Defined.

(** ** Sessions that share a worker *)

Section Sessions.
Context (crypt_and_tag : bytes -> bytes -> bytes -> Z * (bytes * bytes)).
Context (auth_decrypt : bytes -> bytes -> bytes -> bytes -> Z * bytes).
Context (pow : SpecFloat.spec_float -> SpecFloat.spec_float -> SpecFloat.spec_float).
Context (powf fmodf : Z -> Z -> Z).

Abbreviation handle := (handle_ops crypt_and_tag auth_decrypt pow powf fmodf).

(** a worker has one local store for all the regions it polls, and CMD_LOCAL_CLEAR, which
    a backend sends when its query ends, empties it. Regions 0 and 15 belong to the same
    worker; when the backend of region 15 sends the clear, an intermediate result that the
    backend of region 0 still holds is gone and reading it accesses the empty vector out of
    bounds. *)
Theorem local_clear_drops_other_sessions (t : vtype) (v : vty t) (rid : RID) (w : worker) :
  store_ok (wk_store w) -> islocal rid = true -> view (wk_store w) t rid = Some v ->
  0 mod ops_worker_count = 15 mod ops_worker_count /\
  exists w', handle (mkReq CMD_LOCAL_CLEAR 0 SingleArgData) w = (Ok (mkReq CMD_LOCAL_CLEAR 0 SingleArgData), w') /\
    on_store (get t rid) w' = (Err Undefined, w').
Proof.
  intros Hok Hl Hv. split; [reflexivity|]. eexists. split; [reflexivity|].
  rewrite get_eq, Hl. assert (0 <= local2idx rid) as H0 by apply wf_index_of.
  assert (forall A (k : Z), vlookup (@nil A) k = None) as Hn.
  { intros A k. unfold vlookup. now destruct (0 <=? k). }
  destruct t; unfold on_store, zoomM, localkv_ops, zoomM; cbn [lget]; local_unfold;
    unfold rs_get, bindM, getM; cbn; rewrite Hn; reflexivity.
Qed.

End Sessions.

Lemma local_clear_drops_other_sessions_witness :
  0 mod ops_worker_count = 15 mod ops_worker_count /\
  exists w', handle_ops null_crypt null_decrypt (fun x _ => x) (fun x _ => x) (fun x _ => x)
      (mkReq CMD_LOCAL_CLEAR 0 SingleArgData) worker_7 = (Ok (mkReq CMD_LOCAL_CLEAR 0 SingleArgData), w') /\
    on_store (get TInt (idx2local 0)) w' = (Err Undefined, w').
Proof.
  apply (local_clear_drops_other_sessions null_crypt null_decrypt _ _ _ TInt 7 (idx2local 0) worker_7 worker_7_ok);
    reflexivity.
Defined.
