(* ===== verification/Session.v ===== *)
(** The life of a connection and of the server: how a backend obtains and gives back its
    request region (getSharedBuffer, freeBuffer and the constructor and destructor of
    TEEInvoker in src/integrity_zone/client.cpp), the scan of a worker over its regions and
    the supervising main program (src/privacy_zone/server.cpp). What the other processes do
    while this one waits is given as a list of changes of the shared memory. *)
From S2P Require Import Prelude Shm LocalStore FileMap KV Handler Layout Server.

(** The mapped memory: the control block and the regions. *)
Record shm : Type := mkShm {
  sm_ops : OpsReq;
  sm_region : Z -> bytes;
}.
Definition on_ops {A : Type} (c : M OpsReq A) : M shm A :=
  zoomM sm_ops (fun o s => mkShm o (sm_region s)) c.
Definition write_region (id : Z) (b : bytes) (s : shm) : shm :=
  mkShm (sm_ops s) (fun n => if n =? id then b else sm_region s n).

(** [req->status] of a region. *)
Definition region_status (s : shm) (id : Z) : Z := s32 (le_val (slice BASE_status 4 (sm_region s id))).
Definition set_status (id st : Z) (s : shm) : shm :=
  write_region id (Layout.splice BASE_status (le_bytes 4 (u32 st)) (sm_region s id)) s.
Definition shutting_down (s : shm) : bool := bool_decide (ops_status (sm_ops s) = SHM_EXIT).

(** ** A backend *)

(** Between two passes of the waiting loop: what happened meanwhile, the time, and what the others
    do during the accesses of the next pass. *)
Definition tick : Type := (shm -> shm) * Z * list race.

(** The loop of [getSharedBuffer]: [None] while it still waits, [Some None] when it gives up
    after ten seconds. *)
Fixpoint claim_wait (start : Z) (races : list race) (env : list tick) : M shm (option (option Z)) :=
  let* shm_id := on_ops (claim_shm_region races) in
  if 0 <=? shm_id then retM (Some (Some shm_id))
  else match env with
  | [] => retM None
  | (others, now, races') :: env' =>
      do* modifyM others in
      let* s := getM in
      do* checkM (negb (shutting_down s)) in
      if 10 <? now - start then retM (Some None) else claim_wait start races' env'
  end.
Definition getSharedBuffer (start : Z) (races : list race) (env : list tick) : M shm (option (option Z)) :=
  let* s := getM in
  do* checkM (negb (shutting_down s)) in
  let* r := claim_wait start races env in
  match r with
  | Some (Some shm_id) =>
      do* modifyM (write_region shm_id (replicate (Z.to_nat REQ_REGION_SIZE) 0)) in retM r
  | _ => retM r
  end.

(** The constructor: the region of the connection. *)
Definition TEEInvoker_new (start : Z) (races : list race) (env : list tick) : M shm (option Z) :=
  let* r := getSharedBuffer start races env in
  match r with
  | None => retM None
  | Some None => failM Fatal
  | Some (Some shm_id) => do* modifyM (set_status shm_id ST_NONE) in retM (Some shm_id)
  end.

(** [freeBuffer]: [false] while it still waits for the answer of a request. *)
Fixpoint wait_answered (shm_id : Z) (env : list (shm -> shm)) : M shm bool :=
  let* s := getM in
  if region_status s shm_id =? ST_SENT then
    match env with
    | [] => retM false
    | others :: env' => do* modifyM others in wait_answered shm_id env'
    end
  else retM true.
Definition freeBuffer (shm_id : Z) (env : list (shm -> shm)) : M shm bool :=
  let* answered := wait_answered shm_id env in
  if answered then
    do* modifyM (set_status shm_id ST_NONE) in
    do* on_ops (release_shm_region shm_id) in
    retM true
  else retM false.

(** The destructor of the connection, which the handler for the end of the process runs. *)
Definition TEEInvoker_delete (shm_id : Z) (env : list (shm -> shm)) : M shm bool := freeBuffer shm_id env.
Definition exit_handler (shm_id : Z) (env : list (shm -> shm)) : M shm bool := TEEInvoker_delete shm_id env.

(** ** A worker *)

(** The [for] loop of [fork_ops_worker]: the region it handles. *)
Fixpoint find_sent (s : shm) (regions : list Z) : option Z :=
  match regions with
  | [] => None
  | region_id :: rest =>
      if negb (bm_GET (ops_bitmap (sm_ops s)) region_id) then find_sent s rest
      else if region_status s region_id =? ST_SENT then Some region_id
      else find_sent s rest
  end.
(** One pass of the [while] loop: whether it found work, and whether the worker exits. *)
Definition worker_pass (handle_request : Z -> M shm unit) (worker_id worker_count : Z) : M shm (bool * bool) :=
  let* s := getM in
  let* found_work := match find_sent s (worker_regions worker_id worker_count) with
                     | Some region_id => do* handle_request region_id in retM true
                     | None => retM false
                     end in
  let* s := getM in
  retM (found_work, shutting_down s).

(** ** The main program of the server *)

(** What [waitpid] reports. *)
Inductive wait_result : Type :=
| Reaped
| Interrupted
| NoChild
| Failed.

(** The supervising loop, with the value of [shutdown_requested] after each call; the calls of
    [waitpid] that are left when it ends. [None]: it still waits. *)
Fixpoint supervise (shutdown_requested : bool) (calls : list (wait_result * bool)) :
    option (res (list (wait_result * bool))) :=
  if shutdown_requested then Some (Ok calls)
  else match calls with
  | [] => None
  | (Reaped, _) :: rest => Some (Ok rest)
  | (Interrupted, requested) :: rest => supervise requested rest
  | (NoChild, _) :: rest => Some (Ok rest)
  | (Failed, _) :: rest => Some (Err Fatal)
  end.
Fixpoint reap_all (calls : list (wait_result * bool)) : option (res unit) :=
  match calls with
  | [] => None
  | (Reaped, _) :: rest => reap_all rest
  | (Interrupted, _) :: rest => reap_all rest
  | (NoChild, _) :: rest => Some (Ok tt)
  | (Failed, _) :: rest => Some (Err Fatal)
  end.
Definition zeroed : shm :=
  mkShm (mkOpsReq 0 SHM_NONE 0 0 (replicate (Z.to_nat BITMAP_SIZE) 0)) (fun _ => replicate (Z.to_nat REQ_REGION_SIZE) 0).
Definition set_exit (s : shm) : shm :=
  let o := sm_ops s in mkShm (mkOpsReq (ops_lock o) SHM_EXIT (ops_free_id o) (ops_ret_id o) (ops_bitmap o)) (sm_region s).
(** [serving] is what backends and workers do to the memory before the shutdown, [ending]
    after it. *)
Definition server_main (serving ending : shm -> shm) (calls : list (wait_result * bool)) : M shm (option unit) :=
  do* putM zeroed in
  do* modifyM serving in
  match supervise false calls with
  | None => retM None
  | Some (Err f) => failM f
  | Some (Ok rest) =>
      do* modifyM set_exit in
      do* modifyM ending in
      match reap_all rest with
      | None => retM None
      | Some (Err f) => failM f
      | Some (Ok _) => retM (Some tt)
      end
  end.

(** ** Obtaining a region *)

Lemma on_ops_run {A} (c : M OpsReq A) s r o : c (sm_ops s) = (r, o) -> on_ops c s = (r, mkShm o (sm_region s)).
Proof. intros Hc. unfold on_ops, zoomM. now rewrite Hc. Qed.

(** The regions the bitmap marks as taken. *)
Definition taken (s : shm) (r : Z) : bool := bm_GET (ops_bitmap (sm_ops s)) r.

(** C24: the wait for a region ends: once the clock is more than ten seconds past the start when a
    pass has ended, the constructor has a region or has failed, whatever the other processes do
    between the passes and between the accesses of a pass, if in each pass they win only
    finitely many of the races for a word of the bitmap. *)
Theorem connecting_terminates start races env (s : shm) :
  Exists (fun t => 10 < snd (fst t) - start) env ->
  fst (TEEInvoker_new start races env s) <> Ok None.
Proof.
  intros Hex. unfold TEEInvoker_new, getSharedBuffer.
  assert (Hw : fst (claim_wait start races env s) <> Ok None).
  { clear - Hex. revert races s. induction Hex as [[[others now] races'] env Hnow|[[others now] races'] env _ IH]; intros races s;
      cbn [claim_wait fst snd] in *; unfold bindM at 1; destruct (on_ops (claim_shm_region races) s) as [[id|f] s1];
      try discriminate; destruct (0 <=? id); try discriminate; unfold bindM, modifyM, getM, checkM;
      destruct (negb (shutting_down (others s1))); unfold retM, failM; try discriminate.
    - now rewrite (proj2 (Z.ltb_lt _ _)) by lia.
    - destruct (10 <? now - start); [discriminate|]. apply IH. }
  unfold bindM, getM, checkM, modifyM. destruct (negb (shutting_down s)); [|discriminate]. unfold retM.
  destruct (claim_wait start races env s) as [[[[id|]|]|f] s1]; cbn [fst] in *; try discriminate. congruence.
Qed.

(** A region of zeroes has status [NONE]. *)
Lemma zero_region n : (4 <= n)%nat -> Layout.splice BASE_status (le_bytes 4 (u32 ST_NONE)) (replicate n 0) = replicate n 0 /\
  s32 (le_val (slice BASE_status 4 (replicate n 0))) = ST_NONE.
Proof. intros Hn. do 4 (destruct n as [|n]; [lia|]). split; reflexivity. Qed.

Lemma region_size_nat : (4 <= Z.to_nat REQ_REGION_SIZE)%nat.
Proof. apply Nat2Z.inj_le. rewrite Z2Nat.id by (vm_compute; congruence). vm_compute. congruence. Qed.

(** C31: a connection that is opened while a region is free gets the lowest free region, marks
    it and zeroes its memory; closing it after its last answer clears the mark again, and
    no other region or mark is touched in between. The first pass of the wait is undisturbed. *)
Theorem connection_roundtrip start env (s : shm) :
  wf_bitmap (ops_bitmap (sm_ops s)) -> shutting_down s = false -> (exists r, valid_region r /\ taken s r = false) ->
  exists id s1 s2, TEEInvoker_new start [] env s = (Ok (Some id), s1) /\ valid_region id /\ taken s id = false /\
    (forall r, 0 <= r < id -> taken s r = true) /\ taken s1 id = true /\
    region_status s1 id = ST_NONE /\ sm_region s1 id = replicate (Z.to_nat REQ_REGION_SIZE) 0 /\
    freeBuffer id [] s1 = (Ok true, s2) /\
    (forall r, valid_region r -> taken s2 r = taken s r) /\
    (forall r, r <> id -> sm_region s2 r = sm_region s r).
Proof.
  intros Hwf Hup (r0 & Hr0 & Hfree).
  destruct (claim_shm_region_spec (sm_ops s) Hwf) as [(id & Hc & Hid & Hf & Hall)|[_ Hall]].
  2: { unfold taken in Hfree. rewrite (Hall r0 Hr0) in Hfree. discriminate. }
  set (o1 := set_bitmap (bm_SET (ops_bitmap (sm_ops s)) id) (sm_ops s)) in *.
  pose proof region_size_nat as Hn. set (n := Z.to_nat REQ_REGION_SIZE) in *. destruct (zero_region n Hn) as [Hspl Hsl].
  set (s1 := set_status id ST_NONE (write_region id (replicate n 0) (mkShm o1 (sm_region s)))).
  assert (Hz : sm_region s1 id = replicate n 0).
  { unfold s1, set_status, write_region. cbn [sm_region]. now rewrite !Z.eqb_refl. }
  assert (Hst : region_status s1 id = ST_NONE) by (unfold region_status; rewrite Hz; exact Hsl).
  assert (Hset : taken s1 id = true).
  { unfold taken. cbn. rewrite bm_GET_SET by assumption. now rewrite decide_True by reflexivity. }
  set (o2 := set_bitmap (bm_CLEAR (ops_bitmap o1) id) o1).
  exists id, s1, (mkShm o2 (sm_region (set_status id ST_NONE s1))).
  split; [|split; [exact Hid|split; [exact Hf|split; [exact Hall|split; [exact Hset|split; [exact Hst|split; [exact Hz|]]]]]]].
  - unfold TEEInvoker_new, getSharedBuffer. unfold bindM, getM, checkM, modifyM. rewrite Hup. cbn [negb]. unfold retM.
    replace (claim_wait start [] env s) with (Ok (Some (Some id)) : res (option (option Z)), mkShm o1 (sm_region s)); [reflexivity|].
    destruct env as [|[[others now] races] env]; cbn [claim_wait]; rewrite (bindM_run _ _ _ _ _ (on_ops_run _ s _ _ Hc));
      unfold valid_region in Hid; now rewrite (proj2 (Z.leb_le 0 id)) by lia.
  - split; [|split].
    + unfold freeBuffer. cbn [wait_answered]. unfold bindM at 1, getM. unfold bindM at 1. rewrite Hst.
      change (ST_NONE =? ST_SENT) with false. cbv iota beta. unfold retM at 1. cbv iota beta. unfold bindM at 1, modifyM.
      rewrite (bindM_run _ _ _ _ _ (on_ops_run _ (set_status id ST_NONE s1) _ _ (release_taken _ id Hid Hset))). reflexivity.
    + intros r Hr. unfold taken. cbn. rewrite bm_GET_CLEAR by (try assumption; now apply wf_bm_SET).
      destruct (decide (id = r)) as [->|Hne]; [now rewrite Hf|]. rewrite bm_GET_SET by assumption.
      now rewrite decide_False by assumption.
    + intros r Hr. cbn. now rewrite (proj2 (Z.eqb_neq r id)).
Qed.

Lemma connecting_terminates_witness :
  fst (TEEInvoker_new 100 [fun r => r] [(fun s => s, 103, []); (fun s => s, 111, [])] zeroed) <> Ok None.
Proof.
  apply (connecting_terminates 100 [fun r => r] [(fun s => s, 103, []); (fun s => s, 111, [])] zeroed). right. left. cbn. lia.
Defined.

Lemma zeroed_wf : wf_bitmap (ops_bitmap (sm_ops zeroed)).
Proof. split; [reflexivity|]. apply Forall_replicate. unfold in_u64. lia. Qed.

Lemma connection_roundtrip_witness :
  exists id s1 s2, TEEInvoker_new 100 [] [] zeroed = (Ok (Some id), s1) /\ valid_region id /\ taken zeroed id = false /\
    (forall r, 0 <= r < id -> taken zeroed r = true) /\ taken s1 id = true /\
    region_status s1 id = ST_NONE /\ sm_region s1 id = replicate (Z.to_nat REQ_REGION_SIZE) 0 /\
    freeBuffer id [] s1 = (Ok true, s2) /\
    (forall r, valid_region r -> taken s2 r = taken zeroed r) /\
    (forall r, r <> id -> sm_region s2 r = sm_region zeroed r).
Proof.
  apply (connection_roundtrip 100 [] zeroed zeroed_wf).
  - reflexivity.
  - exists 3. split; [split; [lia|reflexivity]|reflexivity].
Defined.

(** ** Polling *)

Lemma find_sent_first s regions a : a ∈ regions -> taken s a = true -> region_status s a = ST_SENT ->
  exists l r rest, regions = l ++ r :: rest /\ find_sent s regions = Some r /\ (r = a \/ a ∈ rest).
Proof.
  intros Hin Ht Hst. unfold taken in Ht. induction regions as [|x regions IH]; [inversion Hin|]. cbn [find_sent].
  destruct (decide (x = a)) as [->|Hne].
  - rewrite Ht, Hst. exists [], a, regions. auto.
  - apply elem_of_cons in Hin as [->|Hin]; [easy|]. destruct (IH Hin) as (l & r & rest & -> & Hf & Hr).
    destruct (negb _); [|destruct (_ =? _)].
    + exists (x :: l), r, rest. auto.
    + exists [], x, (l ++ r :: rest). split; [reflexivity|]. split; [reflexivity|]. right. set_solver.
    + exists (x :: l), r, rest. auto.
Qed.

Lemma worker_regions_from_lt fuel n : forall r0 r, 0 < n -> r ∈ worker_regions_from fuel r0 n -> r0 <= r.
Proof.
  induction fuel as [|fuel IH]; intros r0 r Hn Hr; cbn [worker_regions_from] in Hr; [inversion Hr|].
  destruct (r0 <? MAX_REGION_NUM); [|inversion Hr]. apply elem_of_cons in Hr as [->|Hr]; [lia|].
  specialize (IH (r0 + n) r Hn Hr). lia.
Qed.
Lemma worker_regions_from_sorted fuel n : forall r0 l r rest, 0 < n ->
  worker_regions_from fuel r0 n = l ++ r :: rest -> forall x, x ∈ rest -> r < x.
Proof.
  induction fuel as [|fuel IH]; intros r0 l r rest Hn E x Hx; cbn [worker_regions_from] in E; [now destruct l|].
  destruct (r0 <? MAX_REGION_NUM); [|now destruct l]. destruct l as [|y l]; injection E as -> E.
  - subst rest. apply worker_regions_from_lt in Hx; lia.
  - now apply (IH (y + n) l r rest).
Qed.

(** A worker starts every pass at its lowest region and stops at the first request: while a
    region has a request at every pass, no region behind it is ever handled. *)
Theorem busy_region_starves_later_ones worker_id worker_count a (passes : list shm) :
  0 < worker_count -> a ∈ worker_regions worker_id worker_count ->
  Forall (fun s => taken s a = true /\ region_status s a = ST_SENT) passes ->
  Forall (fun s => exists r, find_sent s (worker_regions worker_id worker_count) = Some r /\ r <= a) passes.
Proof.
  intros Hn Ha. apply List.Forall_impl. intros s [Ht Hst].
  destruct (find_sent_first s _ a Ha Ht Hst) as (l & r & rest & E & Hf & Hr). exists r. split; [exact Hf|].
  destruct Hr as [->|Hr]; [lia|]. pose proof (worker_regions_from_sorted _ _ _ _ _ _ Hn E a Hr). lia.
Qed.

(** ** Shutdown *)

Lemma reap_all_sees_no_child calls : reap_all calls = Some (Ok tt) -> Exists (fun c => fst c = NoChild) calls.
Proof.
  induction calls as [|[[] b] calls IH]; cbn [reap_all]; try discriminate; intros Hr; try (right; now apply IH). now left.
Qed.

(** The main program returns only after it has told the workers to exit and has no child left,
    and when a worker exits it tells the others to exit. *)
Theorem server_main_shuts_down serving ending calls s s' :
  server_main serving ending calls s = (Ok (Some tt), s') ->
  s' = ending (set_exit (serving zeroed)) /\ shutting_down (set_exit (serving zeroed)) = true /\
  Exists (fun c => fst c = NoChild) calls.
Proof.
  unfold server_main, bindM, putM, modifyM. destruct (supervise false calls) as [[rest|f]|] eqn:Es; try discriminate.
  destruct (reap_all rest) as [[[]|f]|] eqn:Er; try discriminate. unfold retM. intros [= <-].
  split; [reflexivity|]. split; [reflexivity|]. apply reap_all_sees_no_child in Er.
  assert (Hsub : exists l, calls = l ++ rest).
  { clear Er. revert Es. generalize false. induction calls as [|[e b] calls IH]; intros q; cbn [supervise].
    - destruct q; [|discriminate]. intros [= <-]. now exists [].
    - destruct q; [intros [= <-]; now exists []|]. destruct e; intros Es; try discriminate.
      + injection Es as <-. now exists [(Reaped, b)].
      + destruct (IH _ Es) as [l ->]. now exists ((Interrupted, b) :: l).
      + injection Es as <-. now exists [(NoChild, b)]. }
  destruct Hsub as [l ->]. rewrite List.Exists_app. now right.
Qed.
