(* ===== verification/DeleteQueue.v ===== *)
(** The queue of deleted RIDs that wait for reuse:
    src/integrity_zone/include/delete_queue.hpp (the build with [USE_LAZY_DELETE]).

    RIDs deleted by the running transaction are behind [reuse]; committing makes them
    reusable, aborting drops them. *)
From S2P Require Import Prelude Rid.

Section Queue.
(** [MAX_ELE_NUM] *)
Context (N : Z).

Record DeleteQueue : Type := mkDQ {
  dq_queue : gmap Z RID;
  dq_head : Z;
  dq_reuse : Z;
  dq_tail : Z;
  dq_size : Z;
  dq_cnt : Z;
}.

Definition dq_new : DeleteQueue := mkDQ ∅ 0 0 0 0 0.

Definition count_between (first last : Z) : Z :=
  if first <=? last then last - first else N - first + last.

Definition enqueue (rid : RID) (q : DeleteQueue) : bool * DeleteQueue :=
  if N <=? dq_size q then (false, q)
  else (true, mkDQ (<[dq_tail q := rid]> (dq_queue q)) (dq_head q) (dq_reuse q)
                   ((dq_tail q + 1) mod N) (dq_size q + 1) (dq_cnt q)).

Definition dequeue (q : DeleteQueue) : RID * DeleteQueue :=
  if dq_head q =? dq_reuse q then (INVALID_RID, q)
  else (default 0 (dq_queue q !! dq_head q),
        mkDQ (dq_queue q) ((dq_head q + 1) mod N) (dq_reuse q) (dq_tail q) (dq_size q - 1) (dq_cnt q + 1)).

Definition set_reuse (q : DeleteQueue) : DeleteQueue :=
  mkDQ (dq_queue q) (dq_head q) (dq_tail q) (dq_tail q) (count_between (dq_head q) (dq_tail q)) (dq_cnt q).

Definition discard_pending (q : DeleteQueue) : DeleteQueue :=
  mkDQ (dq_queue q) (dq_head q) (dq_reuse q) (dq_reuse q) (count_between (dq_head q) (dq_reuse q)) (dq_cnt q).

(** ** The queue as two lists: reusable RIDs and those of the running transaction *)

Record dq_rep (q : DeleteQueue) (ready pend : list RID) : Prop := {
  rep_head : 0 <= dq_head q < N;
  rep_reuse : dq_reuse q = (dq_head q + Z.of_nat (length ready)) mod N;
  rep_tail : dq_tail q = (dq_head q + Z.of_nat (length (ready ++ pend))) mod N;
  rep_size : dq_size q = Z.of_nat (length (ready ++ pend));
  rep_room : Z.of_nat (length (ready ++ pend)) < N;
  rep_data : forall i rid, (ready ++ pend) !! i = Some rid ->
    dq_queue q !! ((dq_head q + Z.of_nat i) mod N) = Some rid;
}.

Lemma count_between_spec h n : 0 <= h < N -> 0 <= n < N -> count_between h ((h + n) mod N) = n.
Proof.
  intros Hh Hn. unfold count_between. destruct (Z.lt_ge_cases (h + n) N) as [Hlt|Hge].
  - rewrite Z.mod_small by lia. rewrite (proj2 (Z.leb_le _ _)) by lia. lia.
  - replace (h + n) with (h + n - N + 1 * N) by lia. rewrite Z.mod_add, Z.mod_small by lia.
    rewrite (proj2 (Z.leb_gt _ _)) by lia. lia.
Qed.

Lemma ring_neq h i j : 0 <= i < N -> 0 <= j < N -> i <> j -> (h + i) mod N <> (h + j) mod N.
Proof.
  intros Hi Hj Hne E. apply (f_equal (fun x => (x - h) mod N)) in E. rewrite !Zminus_mod_idemp_l in E.
  replace (h + i - h) with i in E by lia. replace (h + j - h) with j in E by lia.
  rewrite !Z.mod_small in E by lia. lia.
Qed.

(** The calls, their results and their meaning on the two lists. *)
Inductive dq_op : Type :=
| Enqueue (rid : RID)
| Dequeue
| Commit
| Rollback.

Definition dq_step (o : dq_op) (q : DeleteQueue) : option RID * DeleteQueue :=
  match o with
  | Enqueue rid => (None, snd (enqueue rid q))
  | Dequeue => let '(r, q') := dequeue q in (Some r, q')
  | Commit => (None, set_reuse q)
  | Rollback => (None, discard_pending q)
  end.

Definition spec_step (o : dq_op) (ready pend : list RID) : option RID * list RID * list RID :=
  match o with
  | Enqueue rid => (None, ready, pend ++ [rid])
  | Dequeue => match ready with
               | [] => (Some INVALID_RID, [], pend)
               | r :: ready' => (Some r, ready', pend)
               end
  | Commit => (None, ready ++ pend, [])
  | Rollback => (None, ready, [])
  end.

Lemma dq_rep_new : 0 < N -> dq_rep dq_new [] [].
Proof. intros HN. split; cbn; rewrite ?Z.mod_0_l by lia; try lia. intros i rid H. discriminate H. Qed.

Lemma enqueue_rep q ready pend rid :
  dq_rep q ready pend -> Z.of_nat (length (ready ++ pend)) + 1 < N ->
  dq_rep (snd (enqueue rid q)) ready (pend ++ [rid]).
Proof.
  intros [Hh Hr Ht Hs Hroom Hd] Hfit. unfold enqueue. rewrite Hs, (proj2 (Z.leb_gt _ _)) by lia.
  assert (Hlen : length (ready ++ pend ++ [rid]) = S (length (ready ++ pend)))
    by (rewrite !length_app; cbn; lia).
  split; cbn [snd dq_head dq_reuse dq_tail dq_size dq_queue]; rewrite ?Hlen; try assumption; try lia.
  - rewrite Ht, Z.add_mod_idemp_l by lia. f_equal. lia.
  - intros i x Hi. rewrite app_assoc in Hi. destruct (decide (i < length (ready ++ pend))%nat) as [Hlt|Hge].
    + rewrite lookup_app_l in Hi by exact Hlt. rewrite Ht, lookup_insert_ne; [now apply Hd|].
      apply ring_neq; lia.
    + rewrite lookup_app_r in Hi by lia. apply list_lookup_singleton_Some in Hi as [Hi ->].
      replace i with (length (ready ++ pend)) by lia. rewrite <- Ht. apply lookup_insert_eq.
Qed.

Lemma dequeue_rep q ready pend :
  dq_rep q ready pend ->
  let '(r, ready', pend') := spec_step Dequeue ready pend in
  fst (dq_step Dequeue q) = r /\ dq_rep (snd (dq_step Dequeue q)) ready' pend'.
Proof.
  intros Hrep. pose proof Hrep as [Hh Hr Ht Hs Hroom Hd]. cbn [spec_step dq_step]. unfold dequeue.
  destruct ready as [|r ready].
  - cbn [length app] in *. rewrite Hr, Z.add_0_r, (Z.mod_small (dq_head q)), Z.eqb_refl by lia. now split.
  - cbn [length app] in *. rewrite Hr.
    assert (E : dq_head q =? (dq_head q + Z.of_nat (S (length ready))) mod N = false).
    { apply Z.eqb_neq. rewrite <- (Z.mod_small (dq_head q) N) at 1 by lia.
      rewrite <- (Z.add_0_r (dq_head q)) at 1. apply ring_neq; rewrite ?length_app in Hroom; lia. }
    rewrite E. cbn [fst snd]. split.
    + pose proof (Hd 0%nat r eq_refl) as H0. rewrite Z.add_0_r, Z.mod_small in H0 by lia. now rewrite H0.
    + split; cbn [dq_head dq_reuse dq_tail dq_size dq_queue]; try lia.
      * apply Z.mod_pos_bound. lia.
      * rewrite Z.add_mod_idemp_l by lia. f_equal. lia.
      * rewrite Z.add_mod_idemp_l by lia. rewrite Ht. f_equal. lia.
      * intros i x Hi. rewrite Z.add_mod_idemp_l by lia. rewrite <- (Hd (S i) x Hi). do 2 f_equal. lia.
Qed.

(** The ends of a transaction. *)
Lemma dq_end_rep o q ready pend : dq_rep q ready pend -> o = Commit \/ o = Rollback ->
  let '(r, ready', pend') := spec_step o ready pend in
  fst (dq_step o q) = r /\ dq_rep (snd (dq_step o q)) ready' pend'.
Proof.
  intros [Hh Hr Ht Hs Hroom Hd] [-> | ->]; (split; [reflexivity|]).
  - split; cbn [dq_step snd set_reuse dq_head dq_reuse dq_tail dq_size dq_queue]; rewrite ?app_nil_r;
      try assumption. rewrite Ht. apply count_between_spec; lia.
  - rewrite length_app in Hroom.
    split; cbn [dq_step snd discard_pending dq_head dq_reuse dq_tail dq_size dq_queue]; rewrite ?app_nil_r;
      try assumption; try lia.
    + rewrite Hr. apply count_between_spec; lia.
    + intros i x Hi. apply Hd. now apply lookup_app_l_Some.
Qed.

(** while fewer than [MAX_ELE_NUM] RIDs are kept, the ring buffer is a queue with
    transactions: RIDs come back first in first out, only those of committed transactions,
    an aborted transaction's are dropped, and an empty queue answers [INVALID_RID]. *)
Theorem delete_queue_refines_lists (o : dq_op) (q : DeleteQueue) (ready pend : list RID) :
  dq_rep q ready pend -> Z.of_nat (length (ready ++ pend)) + 1 < N ->
  let '(r, ready', pend') := spec_step o ready pend in
  fst (dq_step o q) = r /\ dq_rep (snd (dq_step o q)) ready' pend'.
Proof.
  intros Hrep Hfit. destruct o as [rid| | |].
  - split; [reflexivity|]. now apply enqueue_rep.
  - now apply dequeue_rep.
  - apply dq_end_rep; auto.
  - apply dq_end_rep; auto.
Qed.

End Queue.

Definition MAX_ELE_NUM : Z := 1024 * 1024.

Lemma delete_queue_refines_lists_witness :
  fst (dq_step MAX_ELE_NUM (Enqueue 7) dq_new) = None /\
  dq_rep MAX_ELE_NUM (snd (dq_step MAX_ELE_NUM (Enqueue 7) dq_new)) [] [7].
Proof.
  apply (delete_queue_refines_lists MAX_ELE_NUM (Enqueue 7) dq_new [] []).
  - apply dq_rep_new. reflexivity.
  - reflexivity.
Defined.

(** Fill a queue. *)
Definition enqueue_all (N : Z) (rids : list RID) (q : DeleteQueue) : DeleteQueue :=
  fold_left (fun q rid => snd (enqueue N rid q)) rids q.

Lemma enqueue_all_rep N rids q ready pend :
  dq_rep N q ready pend -> Z.of_nat (length (ready ++ pend)) + Z.of_nat (length rids) < N ->
  dq_rep N (enqueue_all N rids q) ready (pend ++ rids).
Proof.
  revert q pend. induction rids as [|r rids IH]; intros q pend Hrep Hfit; cbn [enqueue_all fold_left].
  - now rewrite app_nil_r.
  - replace (pend ++ r :: rids) with ((pend ++ [r]) ++ rids) by now rewrite <- app_assoc.
    cbn [length] in Hfit. apply IH; [apply enqueue_rep; [exact Hrep|lia]|].
    rewrite !length_app in *. cbn [length]. lia.
Qed.

(** a queue filled to capacity forgets everything at commit: with [MAX_ELE_NUM] RIDs the
    tail has wrapped to the head, [count_between] makes the size 0, the next dequeue says the
    queue is empty and the next enqueue is accepted and overwrites the first RID. *)
Theorem full_delete_queue_is_lost (N : Z) (rids : list RID) (last new : RID) :
  1 < N -> Z.of_nat (length rids) + 1 = N ->
  let q := set_reuse N (enqueue_all N (rids ++ [last]) dq_new) in
  dq_size q = 0 /\ fst (dequeue N q) = INVALID_RID /\
  fst (enqueue N new q) = true /\ dq_queue (snd (enqueue N new q)) !! 0 = Some new.
Proof.
  intros HN Hlen q.
  assert (Hrep : dq_rep N (enqueue_all N rids dq_new) [] rids).
  { apply (enqueue_all_rep N rids dq_new [] []); [apply dq_rep_new; lia|cbn; lia]. }
  set (q0 := enqueue_all N rids dq_new) in *.
  assert (Hh : dq_head q0 = 0).
  { unfold q0, enqueue_all. assert (G : forall l x, dq_head (fold_left (fun q rid => snd (enqueue N rid q)) l x) = dq_head x).
    { intros l. induction l as [|a l IHl]; intros x; cbn; [reflexivity|]. rewrite IHl. unfold enqueue.
      now destruct (N <=? dq_size x). }
    now rewrite G. }
  destruct Hrep as [_ _ Ht Hs _ _]. cbn [app] in *. rewrite Hh in Ht.
  assert (Eq : enqueue_all N (rids ++ [last]) dq_new =
               mkDQ (<[dq_tail q0 := last]> (dq_queue q0)) 0 (dq_reuse q0) 0 N (dq_cnt q0)).
  { unfold enqueue_all. rewrite fold_left_app. cbn [fold_left]. fold (enqueue_all N rids dq_new). fold q0.
    unfold enqueue. rewrite Hs, (proj2 (Z.leb_gt _ _)) by lia. cbn [snd]. rewrite Hh. f_equal; [|lia].
    rewrite Ht, Z.add_mod_idemp_l by lia. replace (0 + Z.of_nat (length rids) + 1) with N by lia.
    apply Z.mod_same. lia. }
  unfold q. rewrite Eq. unfold set_reuse, dequeue, enqueue. cbn [dq_head dq_tail dq_reuse dq_size dq_queue].
  assert (Hc : count_between N 0 0 = 0) by reflexivity. rewrite Hc, (proj2 (Z.leb_gt N 0)) by lia.
  cbn [fst snd dq_queue]. repeat split. apply lookup_insert_eq.
Qed.

Lemma full_delete_queue_is_lost_witness :
  let q := set_reuse 3 (enqueue_all 3 [4; 5; 6] dq_new) in
  dq_size q = 0 /\ fst (dequeue 3 q) = INVALID_RID /\
  fst (enqueue 3 9 q) = true /\ dq_queue (snd (enqueue 3 9 q)) !! 0 = Some 9.
Proof. apply (full_delete_queue_is_lost 3 [4; 5] 6 9); [lia|reflexivity]. Defined.
