(* ===== verification/Uio.v ===== *)
(** The userspace I/O core of tools/drivers/ivshmem-driver/uio.c, first part: the objects it
    keeps, the sysfs attributes, and registering and unregistering devices.

    Objects the driver allocates live under numbers that are never used again, so that the use
    of an object after it is freed is [Undefined]. Calls of the kernel that may fail, and
    callbacks of the drivers on top, get their results from the list [answers]; the reference
    counts are of the references uio.c itself takes, and their last release runs the release
    function, as the kernel documents it. The functions here run one after the other; what
    happens when they overlap is in [UioRace]. *)
From Stdlib Require Import String.
From S2P Require Import Prelude Fmt.

(** Error numbers of the kernel. *)
Definition EIO : Z := 5.
Definition EAGAIN : Z := 11.
Definition ENOMEM : Z := 12.
Definition EFAULT : Z := 14.
Definition ENODEV : Z := 19.
Definition EINVAL : Z := 22.
Definition ENOSPC : Z := 28.
Definition ENOSYS : Z := 38.
Definition ERESTARTSYS : Z := 512.
Definition EPROBE_DEFER : Z := 517.

(** ** Data: linux/uio_driver.h and the structures of uio.c *)

Definition MAX_UIO_MAPS : nat := 5.
Definition MAX_UIO_PORT_REGIONS : nat := 5.
Definition UIO_MEM_NONE : Z := 0.
Definition UIO_MEM_PHYS : Z := 1.
Definition UIO_MEM_LOGICAL : Z := 2.
Definition UIO_MEM_VIRTUAL : Z := 3.
Definition UIO_MEM_IOVA : Z := 4.
Definition UIO_PORT_OTHER : Z := 3.
Definition UIO_IRQ_CUSTOM : Z := -1.
Definition IRQ_HANDLED : Z := 1.
Definition MINORBITS : Z := 20.
Definition UIO_MAX_DEVICES : Z := Z.shiftl 1 MINORBITS.

(** [mem_map] and [port_portio] point to the sysfs objects of the region. *)
Record uio_mem : Type := mkMem {
  mem_name : option bytes;
  mem_addr : Z;
  mem_offs : Z;
  mem_size : Z;
  mem_memtype : Z;
  mem_map : option nat;
}.
Record uio_port : Type := mkPort {
  port_name : option bytes;
  port_start : Z;
  port_size : Z;
  port_porttype : Z;
  port_portio : option nat;
}.
(** Of a callback the model keeps whether the driver set it. *)
Record uio_info : Type := mkInfo {
  info_uio_dev : option nat;
  info_name : option bytes;
  info_version : option bytes;
  info_mem : list uio_mem;
  info_port : list uio_port;
  info_irq : Z;
  info_handler : bool;
  info_mmap : bool;
  info_open : bool;
  info_release : bool;
  info_irqcontrol : bool;
}.
Record uio_device : Type := mkIdev {
  dev_owner : nat;
  dev_refs : Z;
  dev_added : bool;
  dev_name : bytes;
  dev_minor : Z;
  dev_event : Z;
  dev_async_queue : list nat;
  dev_info : option nat;
  dev_map_dir : option nat;
  dev_portio_dir : option nat;
}.
Record uio_listener : Type := mkListener {
  lis_dev : nat;
  lis_event_count : Z;
}.

Inductive ktype : Type := dynamic_ktype | map_attr_type | portio_attr_type.
Record kobject : Type := mkKobj { kobj_type : ktype; kobj_refs : Z }.

(** [modules] holds the use counts of the modules that are loaded, [signals] the files that got
    a SIGIO with its reason. *)
Record kernel : Type := mkKernel {
  answers : list Z;
  next : nat;
  kobjs : gmap nat kobject;
  idevs : gmap nat uio_device;
  infos : gmap nat uio_info;
  listeners : gmap nat uio_listener;
  uio_idr : gmap Z nat;
  irqs : list (Z * nat);
  modules : gmap nat Z;
  devres : list (nat * nat);
  chrdev_regions : list Z;
  uio_major : Z;
  uio_cdev : option nat;
  uio_class_registered : bool;
  signals : list (nat * Z);
}.

Definition set_answers (a : list Z) (k : kernel) : kernel :=
  let '(mkKernel _ n o d i l r q m v c j e b g) := k in mkKernel a n o d i l r q m v c j e b g.
Definition set_next (n : nat) (k : kernel) : kernel :=
  let '(mkKernel a _ o d i l r q m v c j e b g) := k in mkKernel a n o d i l r q m v c j e b g.
Definition set_kobjs (o : gmap nat kobject) (k : kernel) : kernel :=
  let '(mkKernel a n _ d i l r q m v c j e b g) := k in mkKernel a n o d i l r q m v c j e b g.
Definition set_idevs (d : gmap nat uio_device) (k : kernel) : kernel :=
  let '(mkKernel a n o _ i l r q m v c j e b g) := k in mkKernel a n o d i l r q m v c j e b g.
Definition set_infos (i : gmap nat uio_info) (k : kernel) : kernel :=
  let '(mkKernel a n o d _ l r q m v c j e b g) := k in mkKernel a n o d i l r q m v c j e b g.
Definition set_listeners (l : gmap nat uio_listener) (k : kernel) : kernel :=
  let '(mkKernel a n o d i _ r q m v c j e b g) := k in mkKernel a n o d i l r q m v c j e b g.
Definition set_idr (r : gmap Z nat) (k : kernel) : kernel :=
  let '(mkKernel a n o d i l _ q m v c j e b g) := k in mkKernel a n o d i l r q m v c j e b g.
Definition set_irqs (q : list (Z * nat)) (k : kernel) : kernel :=
  let '(mkKernel a n o d i l r _ m v c j e b g) := k in mkKernel a n o d i l r q m v c j e b g.
Definition set_modules (m : gmap nat Z) (k : kernel) : kernel :=
  let '(mkKernel a n o d i l r q _ v c j e b g) := k in mkKernel a n o d i l r q m v c j e b g.
Definition set_devres (v : list (nat * nat)) (k : kernel) : kernel :=
  let '(mkKernel a n o d i l r q m _ c j e b g) := k in mkKernel a n o d i l r q m v c j e b g.
Definition set_regions (c : list Z) (k : kernel) : kernel :=
  let '(mkKernel a n o d i l r q m v _ j e b g) := k in mkKernel a n o d i l r q m v c j e b g.
Definition set_major (j : Z) (k : kernel) : kernel :=
  let '(mkKernel a n o d i l r q m v c _ e b g) := k in mkKernel a n o d i l r q m v c j e b g.
Definition set_cdev (e : option nat) (k : kernel) : kernel :=
  let '(mkKernel a n o d i l r q m v c j _ b g) := k in mkKernel a n o d i l r q m v c j e b g.
Definition set_class (b : bool) (k : kernel) : kernel :=
  let '(mkKernel a n o d i l r q m v c j e _ g) := k in mkKernel a n o d i l r q m v c j e b g.
Definition set_signals (g : list (nat * Z)) (k : kernel) : kernel :=
  let '(mkKernel a n o d i l r q m v c j e b _) := k in mkKernel a n o d i l r q m v c j e b g.

(** ** Kernel services *)

(** The result of the next call that may fail; 0 when no more failures are planned. *)
Definition ask : M kernel Z := fun k =>
  match answers k with
  | [] => (Ok 0, k)
  | a :: rest => (Ok a, set_answers rest k)
  end.
Definition fresh_id : M kernel nat := fun k => (Ok (next k), set_next (S (next k)) k).
(** [kmalloc] and [kzalloc]: the number of the new object, or NULL. *)
Definition kmalloc : M kernel (option nat) :=
  let* a := ask in if a =? 0 then let* i := fresh_id in retM (Some i) else retM None.

(** Following a pointer; NULL and freed objects are undefined. *)
Definition deref {A : Type} (heap : kernel -> gmap nat A) (p : nat) : M kernel A := fun k =>
  match heap k !! p with Some a => (Ok a, k) | None => (Err Undefined, k) end.
Definition nonnull {A : Type} (p : option A) : M kernel A := fun k =>
  match p with Some a => (Ok a, k) | None => (Err Undefined, k) end.
Definition upd_idev (p : nat) (f : uio_device -> uio_device) : M kernel unit :=
  let* d := deref idevs p in modifyM (fun k => set_idevs (<[p := f d]> (idevs k)) k).
Definition upd_info (p : nat) (f : uio_info -> uio_info) : M kernel unit :=
  let* i := deref infos p in modifyM (fun k => set_infos (<[p := f i]> (infos k)) k).

(** [kobject_init] on a new object: one reference. *)
Definition kobject_init (p : nat) (t : ktype) : M kernel unit :=
  modifyM (fun k => set_kobjs (<[p := mkKobj t 1]> (kobjs k)) k).
(** [map_release] and [portio_release] free the object the kobject is part of. *)
Definition map_release (p : nat) : M kernel unit := modifyM (fun k => set_kobjs (delete p (kobjs k)) k).
Definition portio_release (p : nat) : M kernel unit := modifyM (fun k => set_kobjs (delete p (kobjs k)) k).
Definition kobj_release (t : ktype) (p : nat) : M kernel unit :=
  match t with
  | map_attr_type => map_release p
  | portio_attr_type => portio_release p
  | dynamic_ktype => modifyM (fun k => set_kobjs (delete p (kobjs k)) k)
  end.
Definition kobject_put (p : option nat) : M kernel unit :=
  match p with
  | None => retM tt
  | Some p =>
      let* o := deref kobjs p in
      if kobj_refs o =? 1 then kobj_release (kobj_type o) p
      else modifyM (fun k => set_kobjs (<[p := mkKobj (kobj_type o) (kobj_refs o - 1)]> (kobjs k)) k)
  end.
Definition kobject_create_and_add : M kernel (option nat) :=
  let* p := kmalloc in
  match p with
  | None => retM None
  | Some p => do* kobject_init p dynamic_ktype in retM (Some p)
  end.
Definition kobject_add (p : nat) : M kernel Z := let* _ := deref kobjs p in ask.
Definition kobject_uevent (p : nat) : M kernel Z := let* _ := deref kobjs p in ask.

(** [idr_alloc] gives the smallest free number of the range. *)
Fixpoint lowest_free (m : gmap Z nat) (fuel : nat) (from : Z) : Z :=
  match fuel with
  | O => from
  | S f => match m !! from with None => from | Some _ => lowest_free m f (from + 1) end
  end.
Definition idr_alloc (p : nat) (limit : Z) : M kernel Z :=
  let* a := ask in
  if a <? 0 then retM a
  else
    let* k := getM in
    let id := lowest_free (uio_idr k) (size (uio_idr k)) 0 in
    if id <? limit then do* putM (set_idr (<[id := p]> (uio_idr k)) k) in retM id
    else retM (- ENOSPC).
Definition idr_remove (id : Z) : M kernel unit := modifyM (fun k => set_idr (delete id (uio_idr k)) k).
Definition idr_find (id : Z) : M kernel (option nat) := let* k := getM in retM (uio_idr k !! id).

(** [uio_device_release], run by the last [put_device]. *)
Definition uio_device_release (p : nat) : M kernel unit :=
  let* _ := deref idevs p in modifyM (fun k => set_idevs (delete p (idevs k)) k).
Definition set_refs (n : Z) (d : uio_device) : uio_device :=
  mkIdev (dev_owner d) n (dev_added d) (dev_name d) (dev_minor d) (dev_event d) (dev_async_queue d) (dev_info d)
    (dev_map_dir d) (dev_portio_dir d).
Definition get_device (p : nat) : M kernel unit := upd_idev p (fun d => set_refs (dev_refs d + 1) d).
Definition put_device (p : nat) : M kernel unit :=
  let* d := deref idevs p in
  if dev_refs d =? 1 then uio_device_release p else upd_idev p (fun d => set_refs (dev_refs d - 1) d).
Definition set_added (b : bool) (d : uio_device) : uio_device :=
  mkIdev (dev_owner d) (dev_refs d) b (dev_name d) (dev_minor d) (dev_event d) (dev_async_queue d) (dev_info d)
    (dev_map_dir d) (dev_portio_dir d).
Definition device_add (p : nat) : M kernel Z :=
  let* a := ask in if a =? 0 then do* upd_idev p (set_added true) in retM 0 else retM a.
Definition device_del (p : nat) : M kernel unit := upd_idev p (set_added false).
Definition device_unregister (p : nat) : M kernel unit := do* device_del p in put_device p.

Definition request_irq (irq : Z) (p : nat) : M kernel Z :=
  let* a := ask in
  if a =? 0 then do* modifyM (fun k => set_irqs ((irq, p) :: irqs k) k) in retM 0 else retM a.
Definition free_irq (irq : Z) (p : nat) : M kernel unit :=
  let* k := getM in
  do* definedM (bool_decide ((irq, p) ∈ irqs k)) in
  putM (set_irqs (filter (fun x => x <> (irq, p)) (irqs k)) k).
(** [kill_fasync]: a SIGIO for every file of the queue. *)
Definition POLL_IN : Z := 1.
Definition POLL_HUP : Z := 6.
Definition kill_fasync (p : nat) (band : Z) : M kernel unit :=
  let* d := deref idevs p in
  modifyM (fun k => set_signals (signals k ++ map (fun f => (f, band)) (dev_async_queue d)) k).

(** ** Attributes *)

Definition hex_digit (d : Z) : Z := if d <? 10 then 48 + d else 87 + d.
Fixpoint hex_acc (fuel : nat) (n : Z) (acc : bytes) : bytes :=
  match fuel with
  | O => acc
  | S f => if n <? 16 then hex_digit n :: acc else hex_acc f (n / 16) (hex_digit (n mod 16) :: acc)
  end.
(** [0x%llx], and [%pa], which prints all digits of an address. *)
Definition fmt_hex (n : Z) : bytes := str "0x" ++ hex_acc 16 n [].
Definition fmt_pa (n : Z) : bytes := str "0x" ++ pad0 16 (hex_acc 16 n []).

(** A show function may change the region and gives a text. *)
Definition map_name_show (mem : uio_mem) : uio_mem * bytes :=
  let name := default [] (mem_name mem) in
  (mkMem (Some name) (mem_addr mem) (mem_offs mem) (mem_size mem) (mem_memtype mem) (mem_map mem), name ++ [10]).
Definition map_addr_show (mem : uio_mem) : uio_mem * bytes := (mem, fmt_pa (mem_addr mem) ++ [10]).
Definition map_size_show (mem : uio_mem) : uio_mem * bytes := (mem, fmt_pa (mem_size mem) ++ [10]).
Definition map_offset_show (mem : uio_mem) : uio_mem * bytes := (mem, fmt_hex (mem_offs mem) ++ [10]).

Record map_sysfs_entry : Type := mkMapEntry {
  map_attr : bytes;
  map_show : option (uio_mem -> uio_mem * bytes);
}.
Definition map_attrs : list map_sysfs_entry :=
  [mkMapEntry (str "name") (Some map_name_show); mkMapEntry (str "addr") (Some map_addr_show);
   mkMapEntry (str "size") (Some map_size_show); mkMapEntry (str "offset") (Some map_offset_show)].
Definition map_type_show (entry : map_sysfs_entry) (mem : uio_mem) : uio_mem * (Z + bytes) :=
  match map_show entry with
  | None => (mem, inl (- EIO))
  | Some show => let '(mem', buf) := show mem in (mem', inr buf)
  end.

Definition portio_name_show (port : uio_port) : uio_port * (Z + bytes) :=
  let name := default [] (port_name port) in
  (mkPort (Some name) (port_start port) (port_size port) (port_porttype port) (port_portio port), inr (name ++ [10])).
Definition portio_start_show (port : uio_port) : uio_port * (Z + bytes) := (port, inr (fmt_hex (port_start port) ++ [10])).
Definition portio_size_show (port : uio_port) : uio_port * (Z + bytes) := (port, inr (fmt_hex (port_size port) ++ [10])).
Definition porttypes : list bytes := [str "none"; str "x86"; str "gpio"; str "other"].
Definition portio_porttype_show (port : uio_port) : uio_port * (Z + bytes) :=
  let t := port_porttype port in
  if (t <? 0) || (UIO_PORT_OTHER <? t) then (port, inl (- EINVAL))
  else (port, inr (str "port_" ++ default [] (porttypes !! Z.to_nat t) ++ [10])).

Record portio_sysfs_entry : Type := mkPortioEntry {
  portio_attr : bytes;
  portio_show : option (uio_port -> uio_port * (Z + bytes));
}.
Definition portio_attrs : list portio_sysfs_entry :=
  [mkPortioEntry (str "name") (Some portio_name_show); mkPortioEntry (str "start") (Some portio_start_show);
   mkPortioEntry (str "size") (Some portio_size_show); mkPortioEntry (str "porttype") (Some portio_porttype_show)].
Definition portio_type_show (entry : portio_sysfs_entry) (port : uio_port) : uio_port * (Z + bytes) :=
  match portio_show entry with
  | None => (port, inl (- EIO))
  | Some show => show port
  end.

(** The attributes of a device; [%s] of a NULL string does not occur, since registering
    demands name and version. *)
Definition name_show (p : nat) : M kernel (Z + bytes) :=
  let* d := deref idevs p in
  match dev_info d with
  | None => retM (inl (- EINVAL))
  | Some i => let* info := deref infos i in let* s := nonnull (info_name info) in retM (inr (s ++ [10]))
  end.
Definition version_show (p : nat) : M kernel (Z + bytes) :=
  let* d := deref idevs p in
  match dev_info d with
  | None => retM (inl (- EINVAL))
  | Some i => let* info := deref infos i in let* s := nonnull (info_version info) in retM (inr (s ++ [10]))
  end.
Definition event_show (p : nat) : M kernel (Z + bytes) :=
  let* d := deref idevs p in retM (inr (fmt_int (u32 (dev_event d)) ++ [10])).

(** ** Creating the attributes *)

Definition set_map (m : option nat) (mem : uio_mem) : uio_mem :=
  mkMem (mem_name mem) (mem_addr mem) (mem_offs mem) (mem_size mem) (mem_memtype mem) m.
Definition set_portio (m : option nat) (port : uio_port) : uio_port :=
  mkPort (port_name port) (port_start port) (port_size port) (port_porttype port) m.
Definition upd_mem (mi : nat) (f : uio_mem -> uio_mem) (i : uio_info) : uio_info :=
  mkInfo (info_uio_dev i) (info_name i) (info_version i) (alter f mi (info_mem i)) (info_port i) (info_irq i)
    (info_handler i) (info_mmap i) (info_open i) (info_release i) (info_irqcontrol i).
Definition upd_port (pi : nat) (f : uio_port -> uio_port) (i : uio_info) : uio_info :=
  mkInfo (info_uio_dev i) (info_name i) (info_version i) (info_mem i) (alter f pi (info_port i)) (info_irq i)
    (info_handler i) (info_mmap i) (info_open i) (info_release i) (info_irqcontrol i).
Definition set_uio_dev (p : option nat) (i : uio_info) : uio_info :=
  mkInfo p (info_name i) (info_version i) (info_mem i) (info_port i) (info_irq i)
    (info_handler i) (info_mmap i) (info_open i) (info_release i) (info_irqcontrol i).
Definition set_map_dir (o : option nat) (d : uio_device) : uio_device :=
  mkIdev (dev_owner d) (dev_refs d) (dev_added d) (dev_name d) (dev_minor d) (dev_event d) (dev_async_queue d)
    (dev_info d) o (dev_portio_dir d).
Definition set_portio_dir (o : option nat) (d : uio_device) : uio_device :=
  mkIdev (dev_owner d) (dev_refs d) (dev_added d) (dev_name d) (dev_minor d) (dev_event d) (dev_async_queue d)
    (dev_info d) (dev_map_dir d) o.

(** [idev->info] and [idev->info->mem[mi]]. *)
Definition idev_info (p : nat) : M kernel (nat * uio_info) :=
  let* d := deref idevs p in
  let* i := nonnull (dev_info d) in
  let* info := deref infos i in
  retM (i, info).
Definition idev_mem (p mi : nat) : M kernel uio_mem :=
  let* ' (_, info) := idev_info p in nonnull (info_mem info !! mi).

(** The code for memory regions ([mi], [map], [map_dir]) and the one for port regions ([pi],
    [portio], [portio_dir]) are the same up to these names. *)
Inductive region : Type := Maps | Portios.
Definition region_max (r : region) : nat :=
  match r with Maps => MAX_UIO_MAPS | Portios => MAX_UIO_PORT_REGIONS end.
Definition region_size (r : region) (n : nat) (info : uio_info) : option Z :=
  match r with Maps => mem_size <$> info_mem info !! n | Portios => port_size <$> info_port info !! n end.
Definition region_obj (r : region) (n : nat) (info : uio_info) : option nat :=
  match r with Maps => info_mem info !! n ≫= mem_map | Portios => info_port info !! n ≫= port_portio end.
Definition set_obj (r : region) (n x : nat) : uio_info -> uio_info :=
  match r with Maps => upd_mem n (set_map (Some x)) | Portios => upd_port n (set_portio (Some x)) end.
Definition region_dir (r : region) (d : uio_device) : option nat :=
  match r with Maps => dev_map_dir d | Portios => dev_portio_dir d end.
Definition set_dir (r : region) : option nat -> uio_device -> uio_device :=
  match r with Maps => set_map_dir | Portios => set_portio_dir end.
Definition region_type (r : region) : ktype :=
  match r with Maps => map_attr_type | Portios => portio_attr_type end.

(** How a loop that creates sysfs objects is left: at its end with the index reached, or by a
    jump to one of the two labels after it. *)
Inductive loop_exit : Type :=
| LoopEnd (n : nat)
| GotoErr (n : nat) (ret : Z)
| GotoErrKobj (n : nat) (ret : Z).

(** The directory of the regions is created with the first one. *)
Definition create_dir (r : region) (p : nat) (found : bool) : M kernel bool :=
  if negb found then
    let* dir := kobject_create_and_add in
    do* upd_idev p (set_dir r dir) in
    retM (match dir with Some _ => true | None => false end)
  else retM true.
(** The object of one region; the result is that of the calls that publish it. *)
Definition create_obj (r : region) (p n x : nat) : M kernel Z :=
  do* kobject_init x (region_type r) in
  let* ' (i, _) := idev_info p in
  do* upd_info i (set_obj r n x) in
  let* ret := kobject_add x in
  if negb (ret =? 0) then retM ret else kobject_uevent x.
(** The loops over the regions; [fuel] is the number of regions from [n] on. *)
Fixpoint add_regions (r : region) (p fuel n : nat) (found : bool) : M kernel loop_exit :=
  match fuel with
  | O => retM (LoopEnd n)
  | S fuel' =>
      let* ' (_, info) := idev_info p in
      let* size := nonnull (region_size r n info) in
      if size =? 0 then retM (LoopEnd n)
      else
        let* dir_ok := create_dir r p found in
        if negb dir_ok then retM (GotoErr n (- ENOMEM))
        else
          let* x := kmalloc in
          match x with
          | None => retM (GotoErr n (- ENOMEM))
          | Some x =>
              let* ret := create_obj r p n x in
              if negb (ret =? 0) then retM (GotoErrKobj n ret) else add_regions r p fuel' (S n) true
          end
  end.

(** [for (; mi >= 0; mi--)]: [n] regions are left to put, the last is [n - 1]. *)
Fixpoint put_regions (r : region) (p n : nat) : M kernel unit :=
  match n with
  | O => retM tt
  | S n' =>
      let* ' (_, info) := idev_info p in
      let* x := nonnull (region_obj r n' info) in
      do* kobject_put (Some x) in
      put_regions r p n'
  end.
Definition put_dir (r : region) (p : nat) : M kernel unit :=
  let* d := deref idevs p in kobject_put (region_dir r d).

(** The labels [err_map_kobj] and [err_map], which first decrements the index, and those of the
    ports, which go on to [err_map]. *)
Definition err_map_kobj (p mi : nat) (ret : Z) : M kernel Z :=
  do* put_regions Maps p (S mi) in do* put_dir Maps p in retM ret.
Definition err_map (p mi : nat) (ret : Z) : M kernel Z :=
  do* put_regions Maps p mi in do* put_dir Maps p in retM ret.
Definition err_portio_kobj (p mi pi : nat) (ret : Z) : M kernel Z :=
  do* put_regions Portios p (S pi) in do* put_dir Portios p in err_map p mi ret.
Definition err_portio (p mi pi : nat) (ret : Z) : M kernel Z :=
  do* put_regions Portios p pi in do* put_dir Portios p in err_map p mi ret.

Definition uio_dev_add_attributes (p : nat) : M kernel Z :=
  let* e := add_regions Maps p (region_max Maps) 0 false in
  match e with
  | GotoErr mi ret => err_map p mi ret
  | GotoErrKobj mi ret => err_map_kobj p mi ret
  | LoopEnd mi =>
      let* e := add_regions Portios p (region_max Portios) 0 false in
      match e with
      | GotoErr pi ret => err_portio p mi pi ret
      | GotoErrKobj pi ret => err_portio_kobj p mi pi ret
      | LoopEnd _ => retM 0
      end
  end.

Fixpoint del_regions (r : region) (p fuel n : nat) : M kernel unit :=
  match fuel with
  | O => retM tt
  | S fuel' =>
      let* ' (_, info) := idev_info p in
      let* size := nonnull (region_size r n info) in
      if size =? 0 then retM tt
      else
        let* x := nonnull (region_obj r n info) in
        do* kobject_put (Some x) in
        del_regions r p fuel' (S n)
  end.
Definition uio_dev_del_attributes (p : nat) : M kernel unit :=
  do* del_regions Maps p (region_max Maps) 0 in
  do* put_dir Maps p in
  do* del_regions Portios p (region_max Portios) 0 in
  put_dir Portios p.

(** ** Minors, events *)

Definition set_minor (m : Z) (d : uio_device) : uio_device :=
  mkIdev (dev_owner d) (dev_refs d) (dev_added d) (dev_name d) m (dev_event d) (dev_async_queue d) (dev_info d)
    (dev_map_dir d) (dev_portio_dir d).
Definition uio_get_minor (p : nat) : M kernel Z :=
  let* retval := idr_alloc p UIO_MAX_DEVICES in
  if 0 <=? retval then do* upd_idev p (set_minor retval) in retM 0
  else if retval =? - ENOSPC then retM (- EINVAL)
  else retM retval.
Definition uio_free_minor (minor : Z) : M kernel unit := idr_remove minor.

Definition set_event (e : Z) (d : uio_device) : uio_device :=
  mkIdev (dev_owner d) (dev_refs d) (dev_added d) (dev_name d) (dev_minor d) e (dev_async_queue d) (dev_info d)
    (dev_map_dir d) (dev_portio_dir d).
(** [uio_event_notify] on the [uio_info] at [i]; waking the readers is in [UioRace]. *)
Definition uio_event_notify (i : nat) : M kernel unit :=
  let* info := deref infos i in
  let* p := nonnull (info_uio_dev info) in
  do* upd_idev p (fun d => set_event (s32 (dev_event d + 1)) d) in
  kill_fasync p POLL_IN.
Definition uio_interrupt (p : nat) : M kernel Z :=
  let* ' (i, info) := idev_info p in
  do* definedM (info_handler info) in
  let* ret := ask in
  do* (if ret =? IRQ_HANDLED then uio_event_notify i else retM tt) in
  retM ret.

(** ** Registering *)

(** [kzalloc] and the initialisations up to [atomic_set]. *)
Definition new_idev (owner : nat) (i : nat) : uio_device :=
  mkIdev owner 0 false [] 0 0 [] (Some i) None None.
Definition kfree_idev (p : nat) : M kernel unit := uio_device_release p.
Definition device_initialize (p : nat) : M kernel unit := upd_idev p (set_refs 1).
Definition set_name (s : bytes) (d : uio_device) : uio_device :=
  mkIdev (dev_owner d) (dev_refs d) (dev_added d) s (dev_minor d) (dev_event d) (dev_async_queue d) (dev_info d)
    (dev_map_dir d) (dev_portio_dir d).
Definition dev_set_name (p : nat) : M kernel Z :=
  let* a := ask in
  if a =? 0 then do* upd_idev p (fun d => set_name (str "uio" ++ fmt_int (dev_minor d)) d) in retM 0 else retM a.

(** The error exits of [__uio_register_device], from the last one back. *)
Definition err_device_create (p : nat) (ret : Z) : M kernel Z :=
  let* d := deref idevs p in
  do* uio_free_minor (dev_minor d) in
  do* put_device p in
  retM ret.
Definition err_uio_dev_add_attributes (p : nat) (ret : Z) : M kernel Z :=
  do* device_del p in err_device_create p ret.
Definition err_request_irq (p : nat) (ret : Z) : M kernel Z :=
  do* uio_dev_del_attributes p in err_uio_dev_add_attributes p ret.

(** [info->irq && (info->irq != UIO_IRQ_CUSTOM)] *)
Definition has_irq (info : uio_info) : bool :=
  negb (info_irq info =? 0) && negb (info_irq info =? UIO_IRQ_CUSTOM).

(** [__uio_register_device] from [info->uio_dev = idev] on. *)
Definition register_irq (p i : nat) (info : uio_info) : M kernel Z :=
  do* upd_info i (set_uio_dev (Some p)) in
  if has_irq info then
    let* ret := request_irq (info_irq info) p in
    if negb (ret =? 0) then
      do* upd_info i (set_uio_dev None) in
      err_request_irq p ret
    else retM 0
  else retM 0.
(** [__uio_register_device] from [device_initialize] on. *)
Definition register_initialized (p i : nat) (info : uio_info) : M kernel Z :=
  do* device_initialize p in
  let* ret := dev_set_name p in
  if negb (ret =? 0) then err_device_create p ret
  else
    let* ret := device_add p in
    if negb (ret =? 0) then err_device_create p ret
    else
      let* ret := uio_dev_add_attributes p in
      if negb (ret =? 0) then err_uio_dev_add_attributes p ret
      else register_irq p i info.
(** [parent] is the device below and [i] the [uio_info]; either may be NULL. *)
Definition __uio_register_device (owner : nat) (parent : option nat) (i : option nat) : M kernel Z :=
  let* k := getM in
  if negb (uio_class_registered k) then retM (- EPROBE_DEFER)
  else
    match parent, i with
    | Some _, Some i =>
        let* info := deref infos i in
        match info_name info, info_version info with
        | Some _, Some _ =>
            do* upd_info i (set_uio_dev None) in
            let* p := kmalloc in
            match p with
            | None => retM (- ENOMEM)
            | Some p =>
                do* modifyM (fun k => set_idevs (<[p := new_idev owner i]> (idevs k)) k) in
                let* ret := uio_get_minor p in
                if negb (ret =? 0) then do* kfree_idev p in retM ret else register_initialized p i info
            end
        | _, _ => retM (- EINVAL)
        end
    | _, _ => retM (- EINVAL)
    end.

Definition clear_info (d : uio_device) : uio_device :=
  mkIdev (dev_owner d) (dev_refs d) (dev_added d) (dev_name d) (dev_minor d) (dev_event d) (dev_async_queue d) None
    (dev_map_dir d) (dev_portio_dir d).
Definition uio_unregister_device (i : option nat) : M kernel unit :=
  match i with
  | None => retM tt
  | Some i =>
      let* info := deref infos i in
      match info_uio_dev info with
      | None => retM tt
      | Some p =>
          let* d := deref idevs p in
          let minor := dev_minor d in
          do* uio_dev_del_attributes p in
          do* (if has_irq info then free_irq (info_irq info) p else retM tt) in
          do* upd_idev p clear_info in
          do* kill_fasync p POLL_HUP in
          do* device_unregister p in
          uio_free_minor minor
      end
  end.

(** Registration that the parent device undoes: [devres] holds the parent and the [uio_info]. *)
Definition devm_uio_unregister_device (res : nat) : M kernel unit := uio_unregister_device (Some res).
Definition __devm_uio_register_device (owner parent i : nat) : M kernel Z :=
  let* ptr := kmalloc in
  match ptr with
  | None => retM (- ENOMEM)
  | Some _ =>
      let* ret := __uio_register_device owner (Some parent) (Some i) in
      if negb (ret =? 0) then retM ret
      else do* modifyM (fun k => set_devres ((parent, i) :: devres k) k) in retM 0
  end.

(** ** Loading and unloading *)

(** [alloc_chrdev_region] gives a major number that is not in use. *)
Definition free_major (l : list Z) : Z := 1 + foldr Z.max 0 l.
Definition unregister_chrdev_region (major : Z) : M kernel unit :=
  modifyM (fun k => set_regions (filter (fun x => x <> major) (chrdev_regions k)) k).
(** [cdev_alloc] gives a kobject with one reference, which [cdev_del] drops. *)
Definition uio_major_init : M kernel Z :=
  let* result := ask in
  if negb (result =? 0) then retM result
  else
    let* k := getM in
    let major := free_major (chrdev_regions k) in
    do* putM (set_regions (major :: chrdev_regions k) k) in
    let* cdev := kmalloc in
    match cdev with
    | None => do* unregister_chrdev_region major in retM (- ENOMEM)
    | Some c =>
        do* kobject_init c dynamic_ktype in
        let* result := ask in
        if negb (result =? 0) then
          do* kobject_put (Some c) in
          do* unregister_chrdev_region major in
          retM result
        else
          do* modifyM (set_major major) in
          do* modifyM (set_cdev (Some c)) in
          retM 0
    end.
Definition uio_major_cleanup : M kernel unit :=
  let* k := getM in
  do* unregister_chrdev_region (uio_major k) in
  kobject_put (uio_cdev k).
Definition init_uio_class : M kernel Z :=
  let* ret := uio_major_init in
  if negb (ret =? 0) then retM ret
  else
    let* ret := ask in
    if negb (ret =? 0) then do* uio_major_cleanup in retM ret
    else do* modifyM (set_class true) in retM 0.
Definition release_uio_class : M kernel unit :=
  do* modifyM (set_class false) in uio_major_cleanup.
Definition uio_init : M kernel Z := init_uio_class.
Definition uio_exit : M kernel unit :=
  do* release_uio_class in modifyM (set_idr ∅).
