(* ===== verification/UioFile.v ===== *)
(** The userspace I/O core of tools/drivers/ivshmem-driver/uio.c, second part: the operations on
    an open device file, and what user space can reach through a mapping. *)
From S2P Require Import Prelude Fmt Uio.

(** ** Open and close *)

Definition try_module_get (o : nat) : M kernel bool :=
  let* k := getM in
  match modules k !! o with
  | Some n => do* putM (set_modules (<[o := n + 1]> (modules k)) k) in retM true
  | None => retM false
  end.
Definition module_put (o : nat) : M kernel unit :=
  let* n := deref modules o in
  modifyM (fun k => set_modules (<[o := n - 1]> (modules k)) k).
Definition kfree_listener (l : nat) : M kernel unit :=
  let* _ := deref listeners l in modifyM (fun k => set_listeners (delete l (listeners k)) k).

(** The error exits of [uio_open], from the last one back. *)
Definition err_module_get (p : nat) (ret : Z) : M kernel (Z + nat) := do* put_device p in retM (inl ret).
Definition err_alloc_listener (p : nat) (ret : Z) : M kernel (Z + nat) :=
  let* d := deref idevs p in do* module_put (dev_owner d) in err_module_get p ret.
Definition err_infoopen (p l : nat) (ret : Z) : M kernel (Z + nat) :=
  do* kfree_listener l in err_alloc_listener p ret.

(** The code of an error, or the listener that becomes the file's private data. *)
Definition uio_open (minor : Z) : M kernel (Z + nat) :=
  let* idev := idr_find minor in
  match idev with
  | None => retM (inl (- ENODEV))
  | Some p =>
      do* get_device p in
      let* d := deref idevs p in
      let* got := try_module_get (dev_owner d) in
      if negb got then err_module_get p (- ENODEV)
      else
        let* listener := kmalloc in
        match listener with
        | None => err_alloc_listener p (- ENOMEM)
        | Some l =>
            let* d := deref idevs p in
            do* modifyM (fun k => set_listeners (<[l := mkListener p (dev_event d)]> (listeners k)) k) in
            match dev_info d with
            | None => err_infoopen p l (- EINVAL)
            | Some i =>
                let* info := deref infos i in
                let* ret := (if info_open info then ask else retM 0) in
                if negb (ret =? 0) then err_infoopen p l ret else retM (inr l)
            end
        end
  end.

Definition set_queue (q : list nat) (d : uio_device) : uio_device :=
  mkIdev (dev_owner d) (dev_refs d) (dev_added d) (dev_name d) (dev_minor d) (dev_event d) q (dev_info d)
    (dev_map_dir d) (dev_portio_dir d).
(** [fasync_helper]: adds the file to the queue or removes it; positive when that changes the
    queue. *)
Definition fasync_helper (l : nat) (on : bool) (p : nat) : M kernel Z :=
  let* d := deref idevs p in
  if on then
    let* a := ask in
    if negb (a =? 0) then retM (- ENOMEM)
    else if bool_decide (l ∈ dev_async_queue d) then retM 0
    else do* upd_idev p (set_queue (l :: dev_async_queue d)) in retM 1
  else if bool_decide (l ∈ dev_async_queue d) then
    do* upd_idev p (set_queue (filter (fun x => x <> l) (dev_async_queue d))) in retM 1
  else retM 0.
Definition uio_fasync (l : nat) (on : bool) : M kernel Z :=
  let* lis := deref listeners l in fasync_helper l on (lis_dev lis).

Definition uio_release (l : nat) : M kernel Z :=
  let* lis := deref listeners l in
  let p := lis_dev lis in
  let* d := deref idevs p in
  let* ret := (match dev_info d with
               | Some i => let* info := deref infos i in if info_release info then ask else retM 0
               | None => retM 0
               end) in
  do* module_put (dev_owner d) in
  do* kfree_listener l in
  do* put_device p in
  retM ret.
(** The kernel's close removes the file from the queue of asynchronous notification before it
    calls the driver. *)
Definition close_file (l : nat) : M kernel Z := do* (let* _ := uio_fasync l false in retM tt) in uio_release l.

(** ** Waiting for events *)

Definition EPOLLIN : Z := 1.
Definition EPOLLRDNORM : Z := 64.
(** [!idev->info || !idev->info->irq] *)
Definition no_irq (p : nat) : M kernel bool :=
  let* d := deref idevs p in
  match dev_info d with
  | None => retM true
  | Some i => let* info := deref infos i in retM (info_irq info =? 0)
  end.
(** The error is returned as an unsigned mask. *)
Definition uio_poll (l : nat) : M kernel Z :=
  let* lis := deref listeners l in
  let* dead := no_irq (lis_dev lis) in
  if dead then retM (u32 (- EIO))
  else
    let* d := deref idevs (lis_dev lis) in
    if negb (lis_event_count lis =? dev_event d) then retM (Z.lor EPOLLIN EPOLLRDNORM) else retM 0.

(** One pass of the loop of [uio_read]: it ends with a return value and what was copied to the
    user, or the task sleeps. *)
Inductive pass : Type :=
| Ends (retval : Z) (copied : option Z)
| Sleeps.
Definition set_count (l : nat) (lis : uio_listener) (e : Z) : M kernel unit :=
  modifyM (fun k => set_listeners (<[l := mkListener (lis_dev lis) e]> (listeners k)) k).
Definition read_pass (l : nat) (nonblock signal_pending : bool) : M kernel pass :=
  let* lis := deref listeners l in
  let* dead := no_irq (lis_dev lis) in
  if dead then retM (Ends (- EIO) None)
  else
    let* d := deref idevs (lis_dev lis) in
    let event_count := dev_event d in
    if negb (event_count =? lis_event_count lis) then
      let* fault := ask in
      if negb (fault =? 0) then retM (Ends (- EFAULT) None)
      else do* set_count l lis event_count in retM (Ends 4 (Some event_count))
    else if nonblock then retM (Ends (- EAGAIN) None)
    else if signal_pending then retM (Ends (- ERESTARTSYS) None)
    else retM Sleeps.

(** What happens while the task sleeps, and whether a signal is pending at the next pass. *)
Record nap : Type := mkNap { nap_during : M kernel unit; nap_signal : bool }.
Fixpoint read_loop (l : nat) (nonblock signal : bool) (naps : list nap) : M kernel (option (Z * option Z)) :=
  let* r := read_pass l nonblock signal in
  match r with
  | Ends retval copied => retM (Some (retval, copied))
  | Sleeps =>
      match naps with
      | [] => retM None
      | n :: naps' => do* nap_during n in read_loop l nonblock (nap_signal n) naps'
      end
  end.
(** [None] when the task still sleeps after the last nap. *)
Definition uio_read (l : nat) (count : Z) (nonblock signal : bool) (naps : list nap) : M kernel (option (Z * option Z)) :=
  let* _ := deref listeners l in
  if negb (count =? 4) then retM (Some (- EINVAL, None)) else read_loop l nonblock signal naps.

(** [irq_on] is [None] when copying from the user fails. *)
Definition uio_write (l : nat) (count : Z) (irq_on : option Z) : M kernel Z :=
  let* lis := deref listeners l in
  if negb (count =? 4) then retM (- EINVAL)
  else
    match irq_on with
    | None => retM (- EFAULT)
    | Some _ =>
        let* d := deref idevs (lis_dev lis) in
        let* retval :=
          (match dev_info d with
           | None => retM (- EINVAL)
           | Some i =>
               let* info := deref infos i in
               if info_irq info =? 0 then retM (- EIO)
               else if negb (info_irqcontrol info) then retM (- ENOSYS)
               else ask
           end) in
        retM (if negb (retval =? 0) then retval else 4)
    end.

(** ** Mappings *)

Definition PAGE_SHIFT : Z := 12.
Definition UIO_PAGE_SIZE : Z := Z.shiftl 1 PAGE_SHIFT.
(** [addr & ~PAGE_MASK] *)
Definition page_offset (addr : Z) : Z := Z.land addr (UIO_PAGE_SIZE - 1).
Definition VM_DONTEXPAND : Z := 262144.
Definition VM_DONTDUMP : Z := 67108864.
Definition VM_FAULT_SIGBUS : Z := 2.

Inductive vm_operations : Type := uio_logical_vm_ops | uio_physical_vm_ops.
(** [vm_pfn] is the first page frame that [remap_pfn_range] mapped. *)
Record vm_area : Type := mkVma {
  vm_start : Z;
  vm_end : Z;
  vm_pgoff : Z;
  vm_private_data : option nat;
  vm_ops : option vm_operations;
  vm_flags : Z;
  vm_pfn : option Z;
}.
Definition vma_pages (v : vm_area) : Z := Z.shiftr (u64 (vm_end v - vm_start v)) PAGE_SHIFT.
Definition set_private (p : nat) (v : vm_area) : vm_area :=
  mkVma (vm_start v) (vm_end v) (vm_pgoff v) (Some p) (vm_ops v) (vm_flags v) (vm_pfn v).
Definition set_ops (o : vm_operations) (v : vm_area) : vm_area :=
  mkVma (vm_start v) (vm_end v) (vm_pgoff v) (vm_private_data v) (Some o) (vm_flags v) (vm_pfn v).
Definition add_flags (f : Z) (v : vm_area) : vm_area :=
  mkVma (vm_start v) (vm_end v) (vm_pgoff v) (vm_private_data v) (vm_ops v) (Z.lor (vm_flags v) f) (vm_pfn v).
Definition set_pfn (n : Z) (v : vm_area) : vm_area :=
  mkVma (vm_start v) (vm_end v) (vm_pgoff v) (vm_private_data v) (vm_ops v) (vm_flags v) (Some n).

Definition uio_find_mem_index (v : vm_area) : M kernel Z :=
  let* p := nonnull (vm_private_data v) in
  if vm_pgoff v <? Z.of_nat MAX_UIO_MAPS then
    let* mem := idev_mem p (Z.to_nat (vm_pgoff v)) in
    if mem_size mem =? 0 then retM (-1) else retM (vm_pgoff v)
  else retM (-1).

(** The page a fault of a mapping with logical operations finds: of a kernel address in the
    linear mapping, or of a vmalloc address. *)
Inductive page : Type :=
| LinearPage (n : Z)
| VmallocPage (n : Z).
Definition uio_vma_fault (v : vm_area) (pgoff : Z) : M kernel (Z + page) :=
  let* p := nonnull (vm_private_data v) in
  let* d := deref idevs p in
  match dev_info d with
  | None => retM (inl VM_FAULT_SIGBUS)
  | Some _ =>
      let* mi := uio_find_mem_index v in
      if mi <? 0 then retM (inl VM_FAULT_SIGBUS)
      else
        let offset := u64 (Z.shiftl (pgoff - mi) PAGE_SHIFT) in
        let* mem := idev_mem p (Z.to_nat mi) in
        let addr := u64 (mem_addr mem + offset) in
        retM (inr (if mem_memtype mem =? UIO_MEM_LOGICAL then LinearPage (Z.shiftr addr PAGE_SHIFT)
                   else VmallocPage (Z.shiftr addr PAGE_SHIFT)))
  end.

(** The mapping functions return a code and the area as they leave it. *)
Definition uio_mmap_logical (v : vm_area) : M kernel (Z * vm_area) :=
  retM (0, set_ops uio_logical_vm_ops (add_flags (Z.lor VM_DONTEXPAND VM_DONTDUMP) v)).
Definition remap_pfn_range (v : vm_area) (pfn : Z) : M kernel (Z * vm_area) :=
  let* a := ask in retM (a, if a =? 0 then set_pfn pfn v else v).
Definition uio_mmap_physical (v : vm_area) : M kernel (Z * vm_area) :=
  let* p := nonnull (vm_private_data v) in
  let* mi := uio_find_mem_index v in
  if mi <? 0 then retM (- EINVAL, v)
  else
    let* mem := idev_mem p (Z.to_nat mi) in
    if negb (page_offset (mem_addr mem) =? 0) then retM (- ENODEV, v)
    else if mem_size mem <? u64 (vm_end v - vm_start v) then retM (- EINVAL, v)
    else remap_pfn_range (set_ops uio_physical_vm_ops v) (Z.shiftr (mem_addr mem) PAGE_SHIFT).

Definition uio_mmap (l : nat) (v : vm_area) : M kernel (Z * vm_area) :=
  let* lis := deref listeners l in
  let p := lis_dev lis in
  if vm_end v <? vm_start v then retM (- EINVAL, v)
  else
    let v := set_private p v in
    let* d := deref idevs p in
    match dev_info d with
    | None => retM (- EINVAL, v)
    | Some i =>
        let* mi := uio_find_mem_index v in
        if mi <? 0 then retM (- EINVAL, v)
        else
          let requested_pages := vma_pages v in
          let* mem := idev_mem p (Z.to_nat mi) in
          let actual_pages :=
            Z.shiftr (u64 (page_offset (mem_addr mem) + mem_size mem + UIO_PAGE_SIZE - 1)) PAGE_SHIFT in
          if actual_pages <? requested_pages then retM (- EINVAL, v)
          else
            let* info := deref infos i in
            if info_mmap info then let* ret := ask in retM (ret, v)
            else if (mem_memtype mem =? UIO_MEM_IOVA) || (mem_memtype mem =? UIO_MEM_PHYS) then uio_mmap_physical v
            else if (mem_memtype mem =? UIO_MEM_LOGICAL) || (mem_memtype mem =? UIO_MEM_VIRTUAL) then uio_mmap_logical v
            else retM (- EINVAL, v)
    end.

(** What an access at page [j] of a mapping reaches: the page frame of a physical mapping, or
    the page that the fault handler finds. *)
Definition access_page (v : vm_area) (j : Z) : M kernel (Z + (Z + page)) :=
  match vm_ops v with
  | Some uio_physical_vm_ops => let* n := nonnull (vm_pfn v) in retM (inl (n + j))
  | Some uio_logical_vm_ops => let* r := uio_vma_fault v (vm_pgoff v + j) in retM (inr r)
  | None => failM Undefined
  end.
