(* ===== verification/UioLife.v ===== *)
(** What registering a device of uio.c acquires and gives back, whatever the kernel answers. *)
From Stdlib Require Import String.
From S2P Require Import Prelude Fmt Uio.

(** ** Objects owned on top of a base *)

(** [O] is [O0] and the objects [ids], each with one reference. *)
Definition owns (O0 O : gmap nat kobject) (ids : list nat) : Prop :=
  NoDup ids /\ (forall x, x ∈ ids -> O0 !! x = None /\ exists t, O !! x = Some (mkKobj t 1)) /\
  (forall x, x ∉ ids -> O !! x = O0 !! x).

Lemma owns_refl O : owns O O [].
Proof. split; [constructor|]. split; [set_solver|reflexivity]. Qed.

Lemma owns_nil O0 O : owns O0 O [] -> O = O0.
Proof. intros (_ & _ & H). apply map_eq. intros x. apply H. set_solver. Qed.

Lemma owns_perm O0 O l1 l2 : l1 ≡ₚ l2 -> owns O0 O l1 -> owns O0 O l2.
Proof.
  intros Hp (Hnd & Hin & Hout). split; [now rewrite <- Hp|].
  split; intros x Hx; [apply Hin|apply Hout]; now rewrite Hp.
Qed.

Lemma owns_insert O0 O ids x t : owns O0 O ids -> O !! x = None -> owns O0 (<[x := mkKobj t 1]> O) (x :: ids).
Proof.
  intros (Hnd & Hin & Hout) Hx.
  assert (Hni : x ∉ ids). { intros Hi. destruct (Hin x Hi) as [_ [t' Ht]]. congruence. }
  split; [now constructor|]. split.
  - intros y Hy. destruct (decide (y = x)) as [->|Hne].
    + split; [rewrite <- (Hout x Hni); exact Hx|]. exists t. apply lookup_insert_eq.
    + destruct (Hin y) as [H0 [t' Ht]]; [set_solver|]. split; [exact H0|]. exists t'. now rewrite lookup_insert_ne.
  - intros y Hy. rewrite lookup_insert_ne by set_solver. apply Hout. set_solver.
Qed.

Lemma owns_delete O0 O ids x : owns O0 O (x :: ids) -> owns O0 (delete x O) ids.
Proof.
  intros (Hnd & Hin & Hout). inversion_clear Hnd as [|? ? Hni Hnd']. split; [exact Hnd'|]. split.
  - intros y Hy. destruct (Hin y) as [H0 [t Ht]]; [set_solver|]. split; [exact H0|]. exists t.
    rewrite lookup_delete_ne by set_solver. exact Ht.
  - intros y Hy. destruct (decide (y = x)) as [->|Hne].
    + rewrite lookup_delete_eq. symmetry. apply (Hin x). set_solver.
    + rewrite lookup_delete_ne by congruence. apply Hout. set_solver.
Qed.

Lemma owns_lookup O0 O ids x : owns O0 O ids -> x ∈ ids -> exists t, O !! x = Some (mkKobj t 1).
Proof. intros (_ & Hin & _) Hx. now apply Hin. Qed.

(** ** The state while a device is set up

    [att k0 p i] is [k0] with new answers, objects, device [p] and [uio_info] [i]. *)
Record parts : Type := mkParts { pa : list Z; pn : nat; po : gmap nat kobject; pd : uio_device; pf : uio_info }.
Definition att (k0 : kernel) (p i : nat) (s : parts) : kernel :=
  set_answers (pa s) (set_next (pn s) (set_kobjs (po s)
    (set_idevs (<[p := pd s]> (idevs k0)) (set_infos (<[i := pf s]> (infos k0)) k0)))).

Definition with_obj (O : gmap nat kobject) (s : parts) : parts := mkParts (pa s) (pn s) O (pd s) (pf s).
Definition with_idev (d : uio_device) (s : parts) : parts := mkParts (pa s) (pn s) (po s) d (pf s).
Definition with_info (f : uio_info) (s : parts) : parts := mkParts (pa s) (pn s) (po s) (pd s) f.
Definition with_answers (a : list Z) (s : parts) : parts := mkParts a (pn s) (po s) (pd s) (pf s).
Definition with_next (n : nat) (s : parts) : parts := mkParts (pa s) n (po s) (pd s) (pf s).

(** New numbers are not in use. *)
Definition unused (s : parts) : Prop := forall x, (pn s <= x)%nat -> po s !! x = None.

Section Att.
Context (k0 : kernel) (p i : nat).

Lemma att_ask s : exists a rest, ask (att k0 p i s) = (Ok a, att k0 p i (with_answers rest s)).
Proof.
  destruct k0, s as [[|a rest] n O d f]; [exists 0, []|exists a, rest]; reflexivity.
Qed.

Lemma att_idev s : deref idevs p (att k0 p i s) = (Ok (pd s), att k0 p i s).
Proof. unfold deref. destruct k0, s. cbn. now rewrite lookup_insert_eq. Qed.

Lemma att_info s : deref infos i (att k0 p i s) = (Ok (pf s), att k0 p i s).
Proof. unfold deref. destruct k0, s. cbn. now rewrite lookup_insert_eq. Qed.

Lemma att_upd_idev s g : upd_idev p g (att k0 p i s) = (Ok tt, att k0 p i (with_idev (g (pd s)) s)).
Proof.
  unfold upd_idev. rewrite (bindM_run _ _ _ _ _ (att_idev s)). unfold modifyM. destruct k0, s. cbn.
  now rewrite insert_insert_eq.
Qed.

Lemma att_upd_info s g : upd_info i g (att k0 p i s) = (Ok tt, att k0 p i (with_info (g (pf s)) s)).
Proof.
  unfold upd_info. rewrite (bindM_run _ _ _ _ _ (att_info s)). unfold modifyM. destruct k0, s. cbn.
  now rewrite insert_insert_eq.
Qed.

Lemma att_idev_info s : dev_info (pd s) = Some i -> idev_info p (att k0 p i s) = (Ok (i, pf s), att k0 p i s).
Proof.
  intros Hi. unfold idev_info. rewrite (bindM_run _ _ _ _ _ (att_idev s)), Hi.
  rewrite (bindM_run _ _ _ (att k0 p i s) i eq_refl), (bindM_run _ _ _ _ _ (att_info s)). reflexivity.
Qed.

Lemma att_kobject_init s x t :
  kobject_init x t (att k0 p i s) = (Ok tt, att k0 p i (with_obj (<[x := mkKobj t 1]> (po s)) s)).
Proof. unfold kobject_init, modifyM. now destruct k0, s. Qed.

Lemma att_kobject_put O0 s x ids :
  owns O0 (po s) (x :: ids) ->
  kobject_put (Some x) (att k0 p i s) = (Ok tt, att k0 p i (with_obj (delete x (po s)) s)).
Proof.
  intros Ho. destruct (owns_lookup _ _ _ x Ho ltac:(set_solver)) as [t Ht]. unfold kobject_put, bindM, deref.
  destruct k0, s. cbn in *. rewrite Ht. cbn. now destruct t.
Qed.

Lemma att_kobject_ask s x : is_Some (po s !! x) -> forall call, call = kobject_add \/ call = kobject_uevent ->
  exists a rest, call x (att k0 p i s) = (Ok a, att k0 p i (with_answers rest s)).
Proof.
  intros [o Ho] call Hc. destruct (att_ask s) as (a & rest & Ha). exists a, rest.
  destruct Hc as [-> | ->]; unfold kobject_add, kobject_uevent, bindM, deref;
    (replace (kobjs (att k0 p i s)) with (po s) by now destruct k0, s); now rewrite Ho, Ha.
Qed.

Lemma att_kmalloc s : exists rest, kmalloc (att k0 p i s) = (Ok None, att k0 p i (with_answers rest s)) \/
  kmalloc (att k0 p i s) = (Ok (Some (pn s)), att k0 p i (with_next (S (pn s)) (with_answers rest s))).
Proof.
  destruct (att_ask s) as (a & rest & Ha). exists rest. unfold kmalloc. rewrite (bindM_run _ _ _ _ _ Ha).
  destruct (a =? 0); [right|left]; [|reflexivity]. unfold bindM, fresh_id, retM. now destruct k0, s.
Qed.
End Att.

(** ** Everything but the pointers to sysfs objects *)

Definition strip (f : uio_info) : uio_info :=
  mkInfo None (info_name f) (info_version f) (set_map None <$> info_mem f) (set_portio None <$> info_port f)
    (info_irq f) (info_handler f) (info_mmap f) (info_open f) (info_release f) (info_irqcontrol f).
Definition strip_dev (d : uio_device) : uio_device := set_map_dir None (set_portio_dir None d).

Lemma fmap_alter_absorb {A B} (g : A -> B) (h : A -> A) n (l : list A) :
  (forall a, g (h a) = g a) -> g <$> alter h n l = g <$> l.
Proof.
  intros Hg. revert n. induction l as [|a l IH]; intros [|n]; cbn; try reflexivity; [now rewrite Hg|].
  f_equal. apply IH.
Qed.

Lemma strip_set_obj r n x f : strip (set_obj r n x f) = strip f.
Proof. destruct r; unfold strip; cbn; f_equal; now apply fmap_alter_absorb. Qed.

Lemma strip_set_uio_dev x f : strip (set_uio_dev x f) = strip f.
Proof. reflexivity. Qed.

Lemma strip_set_dir r x d : strip_dev (set_dir r x d) = strip_dev d.
Proof. now destruct r. Qed.

Lemma region_size_strip r n f f' : strip f' = strip f -> region_size r n f' = region_size r n f.
Proof.
  assert (Hs : forall f, region_size r n f = region_size r n (strip f)).
  { clear. intros f. destruct r; cbn; rewrite list_lookup_fmap; now destruct (_ !! n). }
  intros E. now rewrite Hs, E, <- Hs.
Qed.

Lemma region_obj_set r n x f j : is_Some (region_size r n f) ->
  region_obj r j (set_obj r n x f) = if decide (j = n) then Some x else region_obj r j f.
Proof.
  intros Hs. destruct (decide (j = n)) as [->|Hne]; destruct r; cbn in *.
  1, 2: rewrite list_lookup_alter_eq; now destruct (_ !! n); [|destruct Hs].
  all: now rewrite list_lookup_alter_ne by congruence.
Qed.

Lemma region_obj_other r r' n x f j : r' <> r -> region_obj r' j (set_obj r n x f) = region_obj r' j f.
Proof. now destruct r, r'. Qed.

Lemma region_dir_set r x d : region_dir r (set_dir r x d) = x.
Proof. now destruct r. Qed.

Lemma region_dir_other r r' x d : r' <> r -> region_dir r' (set_dir r x d) = region_dir r' d.
Proof. now destruct r, r'. Qed.

(** What a loop over the regions [r] leaves alone. *)
Record frame (r : region) (s s' : parts) : Prop := {
  frame_info : strip (pf s') = strip (pf s);
  frame_link : info_uio_dev (pf s') = info_uio_dev (pf s);
  frame_dev : strip_dev (pd s') = strip_dev (pd s);
  frame_objs : forall r' j, r' <> r -> region_obj r' j (pf s') = region_obj r' j (pf s);
  frame_dir : forall r', r' <> r -> region_dir r' (pd s') = region_dir r' (pd s);
  frame_next : (pn s <= pn s')%nat;
}.

Lemma frame_refl r s : frame r s s.
Proof. now split. Qed.

Lemma frame_trans r s1 s2 s3 : frame r s1 s2 -> frame r s2 s3 -> frame r s1 s3.
Proof.
  intros [A B C D E F] [A' B' C' D' E' F']. split; intros; [congruence..| | |lia].
  - rewrite D'; auto.
  - rewrite E'; auto.
Qed.

Lemma frame_dev_info r s s' : frame r s s' -> dev_info (pd s') = dev_info (pd s).
Proof. intros H. exact (f_equal dev_info (frame_dev _ _ _ H)). Qed.

(** The first regions have the objects [ms]. *)
Definition has_objs (r : region) (f : uio_info) (ms : list nat) : Prop :=
  forall j, (j < length ms)%nat -> region_obj r j f = ms !! j.

Lemma has_objs_snoc r f ms x :
  is_Some (region_size r (length ms) f) -> has_objs r f ms -> has_objs r (set_obj r (length ms) x f) (ms ++ [x]).
Proof.
  intros Hs Hm j Hj. rewrite length_app in Hj. cbn [length] in Hj. rewrite region_obj_set by exact Hs.
  destruct (decide (j = length ms)) as [->|Hne].
  - now rewrite list_lookup_middle.
  - rewrite lookup_app_l by lia. apply Hm. lia.
Qed.

(** The objects the regions [r] have in a state, their directory last. *)
Definition region_ids (r : region) (s : parts) (ms : list nat) : list nat := ms ++ option_list (region_dir r (pd s)).

Record holding (O0 : gmap nat kobject) (r : region) (rest : list nat) (s : parts) (ms : list nat) : Prop := {
  hold_objs : has_objs r (pf s) ms;
  hold_owns : owns O0 (po s) (region_ids r s ms ++ rest);
  hold_unused : unused s;
}.

Section Regions.
Context (k0 : kernel) (p i : nat) (O0 : gmap nat kobject) (r : region) (rest : list nat).

Lemma unused_insert s t : unused s -> unused (mkParts (pa s) (S (pn s)) (<[pn s := mkKobj t 1]> (po s)) (pd s) (pf s)).
Proof. intros Hu x Hx. cbn in *. rewrite lookup_insert_ne by lia. apply Hu. lia. Qed.

Lemma create_dir_run found s ms :
  found = bool_decide (is_Some (region_dir r (pd s))) -> holding O0 r rest s ms ->
  exists b s', create_dir r p found (att k0 p i s) = (Ok b, att k0 p i s') /\ frame r s s' /\ holding O0 r rest s' ms /\
    b = bool_decide (is_Some (region_dir r (pd s'))).
Proof.
  intros -> [Hm Ho Hu]. unfold create_dir. destruct (region_dir r (pd s)) as [dir|] eqn:Hdir.
  - rewrite bool_decide_true by eauto. cbn [negb]. exists true, s. rewrite Hdir, bool_decide_true by eauto.
    split; [reflexivity|]. split; [apply frame_refl|]. easy.
  - rewrite bool_decide_false by (intros [? ?]; discriminate). cbn [negb]. unfold kobject_create_and_add.
    destruct (att_kmalloc k0 p i s) as (a & [Hk|Hk]).
    + rewrite (bindM_run _ _ _ (att k0 p i (with_answers a s)) None) by (now rewrite (bindM_run _ _ _ _ _ Hk)).
      rewrite (bindM_run _ _ _ _ _ (att_upd_idev k0 p i (with_answers a s) _)). eexists false, _. split; [reflexivity|].
      cbn [pd pf with_answers with_idev]. rewrite region_dir_set, bool_decide_false by (intros [? ?]; discriminate).
      split; [|split; [|reflexivity]].
      * split; cbn; intros; auto using strip_set_dir, region_dir_other.
      * split; cbn; auto. unfold region_ids in *. cbn. now rewrite region_dir_set, <- Hdir.
    + set (s1 := with_next _ _) in Hk.
      rewrite (bindM_run _ _ _ (att k0 p i (with_obj (<[pn s := mkKobj dynamic_ktype 1]> (po s)) s1)) (Some (pn s)))
        by (rewrite (bindM_run _ _ _ _ _ Hk); now rewrite (bindM_run _ _ _ _ _ (att_kobject_init k0 p i s1 _ _))).
      rewrite (bindM_run _ _ _ _ _ (att_upd_idev k0 p i _ _)). eexists true, _. split; [reflexivity|].
      cbn [pd pf s1 with_answers with_idev with_obj with_next].
      rewrite region_dir_set, bool_decide_true by eauto. split; [|split; [|reflexivity]].
      * split; cbn; intros; auto using strip_set_dir, region_dir_other.
      * split; cbn; auto; [|now apply (unused_insert (with_answers a s))].
        unfold region_ids in *. cbn. rewrite region_dir_set. rewrite Hdir in Ho. cbn [option_list] in *.
        rewrite app_nil_r in Ho.
        apply (owns_perm _ _ (pn s :: ms ++ rest)); [rewrite <- app_assoc; apply Permutation_middle|].
        apply owns_insert; [exact Ho|]. apply Hu. lia.
Qed.

Lemma create_obj_run s ms a :
  dev_info (pd s) = Some i -> is_Some (region_size r (length ms) (pf s)) -> holding O0 r rest s ms ->
  exists ret s', create_obj r p (length ms) (pn s) (att k0 p i (with_next (S (pn s)) (with_answers a s))) =
      (Ok ret, att k0 p i s') /\ frame r s s' /\ holding O0 r rest s' (ms ++ [pn s]) /\ region_dir r (pd s') = region_dir r (pd s).
Proof.
  intros Hi Hs [Hm Ho Hu]. unfold create_obj. set (s1 := with_next _ _).
  rewrite (bindM_run _ _ _ _ _ (att_kobject_init k0 p i s1 _ _)). set (s2 := with_obj _ s1).
  rewrite (bindM_run _ _ _ _ _ (att_idev_info k0 p i s2 Hi)), (bindM_run _ _ _ _ _ (att_upd_info k0 p i s2 _)).
  set (s3 := with_info _ s2).
  assert (Hx : is_Some (po s3 !! pn s)) by (cbn; rewrite lookup_insert_eq; eauto).
  assert (H3 : frame r s s3 /\ forall b, holding O0 r rest (with_answers b s3) (ms ++ [pn s])).
  { split; [split; cbn; intros; auto using strip_set_obj, region_obj_other; now destruct r|].
    intros b. split; [now apply has_objs_snoc| |now apply (unused_insert (with_answers a s))].
    unfold region_ids. cbn. apply (owns_perm _ _ (pn s :: region_ids r s ms ++ rest)).
    - unfold region_ids. rewrite <- !app_assoc. cbn [app]. rewrite Permutation_middle. reflexivity.
    - apply owns_insert; [exact Ho|]. apply Hu. lia. }
  destruct H3 as [Hf Hh].
  assert (Hfa : forall b s', frame r s s' -> frame r s (with_answers b s')) by (intros ? ? [? ? ? ? ? ?]; now split).
  destruct (att_kobject_ask k0 p i s3 (pn s) Hx kobject_add) as (ret & a1 & Hr); [now left|].
  rewrite (bindM_run _ _ _ _ _ Hr). destruct (ret =? 0); cbn [negb]; [|exists ret; eexists; split; [reflexivity|]; auto].
  destruct (att_kobject_ask k0 p i (with_answers a1 s3) (pn s) Hx kobject_uevent) as (ret' & a2 & Hr'); [now right|].
  rewrite Hr'. exists ret'. exists (with_answers a2 s3). split; [reflexivity|]. auto.
Qed.

(** The outcome of the loop, with the objects [ms] it leaves. *)
Definition loop_outcome (f : uio_info) (e : loop_exit) (ms : list nat) : Prop :=
  match e with
  | LoopEnd n => length ms = n /\ (n <= region_max r)%nat /\ (forall j, (j < n)%nat -> region_size r j f <> Some 0) /\
      (n = region_max r \/ region_size r n f = Some 0)
  | GotoErr n ret => ret <> 0 /\ length ms = n
  | GotoErrKobj n ret => ret <> 0 /\ length ms = S n
  end.

Lemma add_regions_run fuel : forall s ms found,
  (fuel + length ms = region_max r)%nat -> (forall j, (j < region_max r)%nat -> is_Some (region_size r j (pf s))) ->
  (forall j, (j < length ms)%nat -> region_size r j (pf s) <> Some 0) ->
  dev_info (pd s) = Some i -> found = bool_decide (is_Some (region_dir r (pd s))) -> holding O0 r rest s ms ->
  exists e s' ms', add_regions r p fuel (length ms) found (att k0 p i s) = (Ok e, att k0 p i s') /\
    frame r s s' /\ holding O0 r rest s' ms' /\ loop_outcome (pf s) e ms'.
Proof.
  induction fuel as [|fuel IH]; intros s ms found Hfuel Hsz Hnz Hi Hfound Hh; cbn [add_regions].
  - exists (LoopEnd (length ms)), s, ms. split; [reflexivity|]. split; [apply frame_refl|]. split; [exact Hh|].
    split; [reflexivity|]. split; [lia|]. split; [exact Hnz|]. left. lia.
  - rewrite (bindM_run _ _ _ _ _ (att_idev_info k0 p i s Hi)).
    destruct (Hsz (length ms) ltac:(lia)) as [size Hsize]. rewrite Hsize.
    rewrite (bindM_run _ _ _ (att k0 p i s) size eq_refl). destruct (Z.eqb_spec size 0) as [->|Hne].
    { exists (LoopEnd (length ms)), s, ms. split; [reflexivity|]. split; [apply frame_refl|]. split; [exact Hh|].
      split; [reflexivity|]. split; [lia|]. split; [exact Hnz|]. now right. }
    destruct (create_dir_run found s ms Hfound Hh) as (b & s1 & Hd & Hf1 & Hh1 & Hb). rewrite (bindM_run _ _ _ _ _ Hd).
    assert (Hi1 : dev_info (pd s1) = Some i) by (now rewrite (frame_dev_info _ _ _ Hf1)).
    assert (Hsz1 : forall j, region_size r j (pf s1) = region_size r j (pf s))
      by (intros j; apply region_size_strip, (frame_info _ _ _ Hf1)).
    destruct b; cbn [negb]; [|exists (GotoErr (length ms) (- ENOMEM)), s1, ms; now repeat (split; [easy|])].
    destruct (att_kmalloc k0 p i s1) as (a & [Hk|Hk]); rewrite (bindM_run _ _ _ _ _ Hk).
    { exists (GotoErr (length ms) (- ENOMEM)), (with_answers a s1), ms. split; [reflexivity|].
      split; [destruct Hf1; now split|]. split; [destruct Hh1; now split|]. easy. }
    destruct (create_obj_run s1 ms a Hi1) as (ret & s2 & Hc & Hf2 & Hh2 & Hdir2); [now rewrite Hsz1, Hsize|exact Hh1|].
    rewrite (bindM_run _ _ _ _ _ Hc). pose proof (frame_trans _ _ _ _ Hf1 Hf2) as Hf.
    assert (Hsz2 : forall j, region_size r j (pf s2) = region_size r j (pf s))
      by (intros j; apply region_size_strip, (frame_info _ _ _ Hf)).
    destruct (Z.eqb_spec ret 0) as [_|Hret]; cbn [negb].
    + destruct (IH s2 (ms ++ [pn s1]) true) as (e & s3 & ms3 & Hrun & Hf3 & Hh3 & Hout).
      * rewrite length_app. cbn. lia.
      * intros j Hj. rewrite Hsz2. now apply Hsz.
      * intros j Hj. rewrite Hsz2, length_app in *. cbn in Hj.
        destruct (decide (j = length ms)) as [->|]; [rewrite Hsize; congruence|apply Hnz; lia].
      * now rewrite (frame_dev_info _ _ _ Hf).
      * now rewrite Hdir2.
      * exact Hh2.
      * rewrite length_app in Hrun. cbn in Hrun. rewrite Nat.add_1_r in Hrun. exists e, s3, ms3. split; [exact Hrun|].
        split; [exact (frame_trans _ _ _ _ Hf Hf3)|]. split; [exact Hh3|].
        destruct e; cbn in *; [|exact Hout..]. setoid_rewrite Hsz2 in Hout. exact Hout.
    + exists (GotoErrKobj (length ms) ret), s2, (ms ++ [pn s1]). split; [reflexivity|]. split; [exact Hf|].
      split; [exact Hh2|]. split; [exact Hret|]. rewrite length_app. cbn. lia.
Qed.

(** ** Putting the objects back *)

(** [m] gives back what is owned beyond [ids'] and touches nothing else. *)
Definition gives_back (m : M kernel unit) (s : parts) (ids ids' : list nat) : Prop :=
  owns O0 (po s) ids ->
  exists O', m (att k0 p i s) = (Ok tt, att k0 p i (with_obj O' s)) /\ owns O0 O' ids' /\
    (forall x, po s !! x = None -> O' !! x = None).

Lemma gives_back_nothing s ids : gives_back (retM tt) s ids ids.
Proof. intros Ho. exists (po s). split; [now destruct s|]. auto. Qed.

Lemma gives_back_bind m m' s ids1 ids2 ids3 :
  gives_back m s ids1 ids2 -> (forall O, gives_back m' (with_obj O s) ids2 ids3) ->
  gives_back (do* m in m') s ids1 ids3.
Proof.
  intros H1 H2 Ho. destruct (H1 Ho) as (O1 & Hr1 & Ho1 & Hn1). destruct (H2 O1 Ho1) as (O2 & Hr2 & Ho2 & Hn2).
  exists O2. rewrite (bindM_run _ _ _ _ _ Hr1). split; [exact Hr2|]. auto.
Qed.

Lemma kobject_put_gives_back s x ids : gives_back (kobject_put (Some x)) s (x :: ids) ids.
Proof.
  intros Ho. exists (delete x (po s)). split; [now apply (att_kobject_put k0 p i O0 s x ids)|].
  split; [now apply owns_delete|]. intros y Hy. destruct (decide (y = x)) as [->|]; [apply lookup_delete_eq|].
  now rewrite lookup_delete_ne by congruence.
Qed.

Lemma gives_back_perm m s l1 l2 l3 : l1 ≡ₚ l2 -> gives_back m s l2 l3 -> gives_back m s l1 l3.
Proof. intros Hp H Ho. apply H. now apply (owns_perm _ _ l1). Qed.

Lemma put_dir_gives_back s ids : gives_back (put_dir r p) s (option_list (region_dir r (pd s)) ++ ids) ids.
Proof.
  assert (Hd : gives_back (kobject_put (region_dir r (pd s))) s (option_list (region_dir r (pd s)) ++ ids) ids).
  { destruct (region_dir r (pd s)) as [dir|]; [apply kobject_put_gives_back|apply gives_back_nothing]. }
  intros Ho. unfold put_dir. rewrite (bindM_run _ _ _ _ _ (att_idev k0 p i s)). now apply Hd.
Qed.

Lemma put_regions_gives_back s ms ids :
  dev_info (pd s) = Some i -> has_objs r (pf s) ms -> gives_back (put_regions r p (length ms)) s (ms ++ ids) ids.
Proof.
  revert s. induction ms as [|x ms IH] using rev_ind; intros s Hi Hm; [apply gives_back_nothing|].
  rewrite length_app, Nat.add_1_r. cbn [length put_regions]. intros Ho.
  rewrite (bindM_run _ _ _ _ _ (att_idev_info k0 p i s Hi)).
  rewrite (Hm (length ms)), list_lookup_middle by (rewrite ?length_app; cbn; lia || reflexivity).
  rewrite (bindM_run _ _ _ (att k0 p i s) x eq_refl). revert Ho.
  apply (gives_back_perm _ _ _ (x :: ms ++ ids)); [rewrite <- app_assoc; symmetry; apply Permutation_middle|].
  apply (gives_back_bind _ _ _ _ _ _ (kobject_put_gives_back _ _ _)). intros O. apply IH; [exact Hi|].
  intros j Hj. cbn. rewrite Hm by (rewrite length_app; lia). apply lookup_app_l. lia.
Qed.

Lemma del_regions_gives_back fuel : forall s ms m ids,
  (fuel + length ms = region_max r)%nat -> (forall j, (j < region_max r)%nat -> is_Some (region_size r j (pf s))) ->
  dev_info (pd s) = Some i -> has_objs r (pf s) (ms ++ m) ->
  loop_outcome (pf s) (LoopEnd (length (ms ++ m))) (ms ++ m) -> gives_back (del_regions r p fuel (length ms)) s (m ++ ids) ids.
Proof.
  induction fuel as [|fuel IH]; intros s ms m ids Hfuel Hsz Hi Hm (_ & Hle & Hnz & Hend); cbn [del_regions].
  - enough (m = []) as -> by apply gives_back_nothing. destruct m; [reflexivity|].
    rewrite length_app in Hle. cbn in Hle. lia.
  - intros Ho. rewrite (bindM_run _ _ _ _ _ (att_idev_info k0 p i s Hi)).
    destruct (Hsz (length ms) ltac:(lia)) as [size Hsize]. rewrite Hsize.
    rewrite (bindM_run _ _ _ (att k0 p i s) size eq_refl). destruct m as [|x m].
    + rewrite app_nil_r in *. destruct Hend as [He|He]; [lia|]. replace size with 0 by congruence. now apply gives_back_nothing.
    + assert (Hs0 : size <> 0). { intros ->. apply (Hnz (length ms)); [rewrite length_app; cbn; lia|exact Hsize]. }
      rewrite (proj2 (Z.eqb_neq size 0) Hs0).
      rewrite (Hm (length ms)), list_lookup_middle by (rewrite ?length_app; cbn; lia || reflexivity).
      rewrite (bindM_run _ _ _ (att k0 p i s) x eq_refl). revert Ho. cbn [app].
      apply (gives_back_bind _ _ _ _ _ _ (kobject_put_gives_back _ _ _)). intros O.
      specialize (IH (with_obj O s) (ms ++ [x]) m ids). rewrite length_app, Nat.add_1_r, <- app_assoc in IH.
      apply IH; auto; [lia|]. now repeat split.
Qed.
End Regions.

(** ** The attributes of a device *)

(** The sysfs objects of a device that is set up. *)
Definition has_attributes (O0 : gmap nat kobject) (s : parts) : Prop :=
  exists ms ps, has_objs Maps (pf s) ms /\ has_objs Portios (pf s) ps /\
    loop_outcome Maps (pf s) (LoopEnd (length ms)) ms /\ loop_outcome Portios (pf s) (LoopEnd (length ps)) ps /\
    owns O0 (po s) (region_ids Portios s ps ++ region_ids Maps s ms).

(** The arrays of a [uio_info] have their declared lengths. *)
Definition wf_info (f : uio_info) : Prop :=
  length (info_mem f) = MAX_UIO_MAPS /\ length (info_port f) = MAX_UIO_PORT_REGIONS.

Lemma wf_sizes f r : wf_info f -> forall j, (j < region_max r)%nat -> is_Some (region_size r j f).
Proof.
  intros [Hm Hp] j Hj. destruct r; cbn in *; apply fmap_is_Some, lookup_lt_is_Some_2; lia.
Qed.

Lemma wf_info_strip f f' : strip f' = strip f -> wf_info f -> wf_info f'.
Proof.
  intros E [Hm Hp]. split.
  - rewrite <- (length_fmap (set_map None)), <- Hm, <- (length_fmap (set_map None) (info_mem f)).
    exact (f_equal (fun f => length (info_mem f)) E).
  - rewrite <- (length_fmap (set_portio None)), <- Hp, <- (length_fmap (set_portio None) (info_port f)).
    exact (f_equal (fun f => length (info_port f)) E).
Qed.

(** Everything but sysfs is as before. *)
Record attr_frame (s s' : parts) : Prop := {
  af_info : strip (pf s') = strip (pf s);
  af_link : info_uio_dev (pf s') = info_uio_dev (pf s);
  af_dev : strip_dev (pd s') = strip_dev (pd s);
  af_next : (pn s <= pn s')%nat;
}.

Lemma attr_frame_of r s s' : frame r s s' -> attr_frame s s'.
Proof. intros [? ? ? ? ? ?]. now split. Qed.

Lemma attr_frame_trans s1 s2 s3 : attr_frame s1 s2 -> attr_frame s2 s3 -> attr_frame s1 s3.
Proof. intros [? ? ? ?] [? ? ? ?]. split; congruence || lia. Qed.

Lemma has_objs_frame r r' s s' ms : frame r s s' -> r' <> r -> has_objs r' (pf s) ms -> has_objs r' (pf s') ms.
Proof. intros Hf Hr Hm j Hj. rewrite (frame_objs _ _ _ Hf) by exact Hr. now apply Hm. Qed.

Section Attributes.
Context (k0 : kernel) (p i : nat) (O0 : gmap nat kobject).

Lemma err_map_run s ms ret :
  dev_info (pd s) = Some i -> has_objs Maps (pf s) ms -> owns O0 (po s) (region_ids Maps s ms) ->
  exists O', err_map p (length ms) ret (att k0 p i s) = (Ok ret, att k0 p i (with_obj O' s)) /\ O' = O0 /\
    (forall x, po s !! x = None -> O' !! x = None).
Proof.
  intros Hi Hm Ho. unfold err_map. rewrite <- (app_nil_r (region_ids _ _ _)) in Ho. unfold region_ids in Ho.
  rewrite <- app_assoc in Ho.
  destruct (put_regions_gives_back k0 p i O0 Maps s ms _ Hi Hm Ho) as (O1 & Hr1 & Ho1 & Hn1).
  rewrite (bindM_run _ _ _ _ _ Hr1).
  destruct (put_dir_gives_back k0 p i O0 Maps (with_obj O1 s) [] Ho1) as (O2 & Hr2 & Ho2 & Hn2).
  rewrite (bindM_run _ _ _ _ _ Hr2). exists O2. split; [reflexivity|]. split; [now apply owns_nil|]. auto.
Qed.

Lemma err_portio_run s ms ps ret :
  dev_info (pd s) = Some i -> has_objs Maps (pf s) ms -> has_objs Portios (pf s) ps ->
  owns O0 (po s) (region_ids Portios s ps ++ region_ids Maps s ms) ->
  exists O', err_portio p (length ms) (length ps) ret (att k0 p i s) = (Ok ret, att k0 p i (with_obj O' s)) /\ O' = O0 /\
    (forall x, po s !! x = None -> O' !! x = None).
Proof.
  intros Hi Hm Hp Ho. unfold err_portio. unfold region_ids at 1 in Ho. rewrite <- app_assoc in Ho.
  destruct (put_regions_gives_back k0 p i O0 Portios s ps _ Hi Hp Ho) as (O1 & Hr1 & Ho1 & Hn1).
  rewrite (bindM_run _ _ _ _ _ Hr1).
  destruct (put_dir_gives_back k0 p i O0 Portios (with_obj O1 s) _ Ho1) as (O2 & Hr2 & Ho2 & Hn2).
  rewrite (bindM_run _ _ _ _ _ Hr2).
  destruct (err_map_run (with_obj O2 s) ms ret Hi Hm Ho2) as (O3 & Hr3 & Ho3 & Hn3).
  exists O3. split; [exact Hr3|]. split; [exact Ho3|]. auto.
Qed.

(** What the exits of [uio_dev_add_attributes] have in common. *)
Definition attributes_outcome (s : parts) (m : M kernel Z) (s1 : parts) : Prop :=
  exists ret s', m (att k0 p i s1) = (Ok ret, att k0 p i s') /\ attr_frame s s' /\ unused s' /\
    (ret <> 0 /\ po s' = O0 \/ ret = 0 /\ has_attributes O0 s').

Lemma attributes_fail s s1 m ret O' :
  m (att k0 p i s1) = (Ok ret, att k0 p i (with_obj O' s1)) -> O' = O0 -> (forall x, po s1 !! x = None -> O' !! x = None) ->
  attr_frame s s1 -> unused s1 -> ret <> 0 -> attributes_outcome s m s1.
Proof.
  intros Hr HO Hn Hf Hu Hret. exists ret, (with_obj O' s1). split; [exact Hr|]. split; [destruct Hf; now split|].
  split; [intros x Hx; apply Hn, Hu, Hx|now left].
Qed.

(** The second half, with the maps in place. *)
Lemma add_portios_run s s1 ms :
  wf_info (pf s1) -> dev_info (pd s1) = Some i -> dev_portio_dir (pd s1) = None -> attr_frame s s1 ->
  has_objs Maps (pf s1) ms -> loop_outcome Maps (pf s1) (LoopEnd (length ms)) ms ->
  owns O0 (po s1) (region_ids Maps s1 ms) -> unused s1 ->
  attributes_outcome s (let* e := add_regions Portios p (region_max Portios) 0 false in
    match e with
    | GotoErr pi ret => err_portio p (length ms) pi ret
    | GotoErrKobj pi ret => err_portio_kobj p (length ms) pi ret
    | LoopEnd _ => retM 0
    end) s1.
Proof.
  intros Hwf Hi Hdp Hf1 Hm Hout1 Ho Hu.
  assert (Hstart : holding O0 Portios (region_ids Maps s1 ms) s1 []).
  { split; [intros j Hj; cbn in Hj; lia| |exact Hu]. unfold region_ids at 1. cbn. now rewrite Hdp. }
  destruct (add_regions_run k0 p i O0 Portios (region_ids Maps s1 ms) (region_max Portios) s1 [] false)
    as (e & s2 & ps & Hr2 & Hf2 & [Hp Ho2 Hu2] & Hout2);
    [reflexivity|now apply wf_sizes|cbn; lia|exact Hi|cbn; now rewrite Hdp|exact Hstart|].
  assert (Hi2 : dev_info (pd s2) = Some i) by (now rewrite (frame_dev_info _ _ _ Hf2)).
  pose proof (has_objs_frame _ Maps _ _ _ Hf2 ltac:(discriminate) Hm) as Hm2.
  replace (region_ids Maps s1 ms) with (region_ids Maps s2 ms) in Ho2
    by (unfold region_ids; now rewrite (frame_dir _ _ _ Hf2 Maps)).
  pose proof (attr_frame_trans _ _ _ Hf1 (attr_frame_of _ _ _ Hf2)) as Hf.
  assert (Hfail : forall ret, ret <> 0 -> attributes_outcome s (err_portio p (length ms) (length ps) ret) s2).
  { intros ret Hret. destruct (err_portio_run s2 ms ps ret Hi2 Hm2 Hp Ho2) as (O' & Hr & HO' & Hn).
    now apply (attributes_fail _ _ _ ret O'). }
  unfold attributes_outcome. rewrite (bindM_run _ _ _ _ _ Hr2). destruct e as [pi|pi ret|pi ret].
  2, 3: destruct Hout2 as [Hret Hl]; unfold err_portio_kobj; rewrite <- Hl; now apply Hfail.
  exists 0, s2. split; [reflexivity|]. split; [exact Hf|]. split; [exact Hu2|]. right. split; [reflexivity|].
  assert (Hsz : forall r j, region_size r j (pf s2) = region_size r j (pf s1)) by (intros; apply region_size_strip, Hf2).
  exists ms, ps. split; [exact Hm2|]. split; [exact Hp|]. destruct Hout1 as [_ Hout1], Hout2 as [<- Hout2].
  split; [|split; [|exact Ho2]]; (split; [reflexivity|]); setoid_rewrite Hsz; assumption.
Qed.

(** Creating the attributes succeeds with all of them in place, or fails and leaves none. *)
Lemma add_attributes_run s :
  wf_info (pf s) -> dev_info (pd s) = Some i -> dev_map_dir (pd s) = None -> dev_portio_dir (pd s) = None ->
  po s = O0 -> unused s -> attributes_outcome s (uio_dev_add_attributes p) s.
Proof.
  intros Hwf Hi Hdm Hdp HO Hu. unfold uio_dev_add_attributes.
  assert (Hstart : holding O0 Maps [] s []).
  { split; [intros j Hj; cbn in Hj; lia| |exact Hu]. unfold region_ids. cbn. rewrite Hdm, HO. apply owns_refl. }
  destruct (add_regions_run k0 p i O0 Maps [] (region_max Maps) s [] false)
    as (e & s1 & ms & Hr1 & Hf1 & [Hm Ho Hu1] & Hout1);
    [reflexivity|now apply wf_sizes|cbn; lia|exact Hi|cbn; now rewrite Hdm|exact Hstart|]. rewrite app_nil_r in Ho.
  assert (Hi1 : dev_info (pd s1) = Some i) by (now rewrite (frame_dev_info _ _ _ Hf1)).
  pose proof (attr_frame_of _ _ _ Hf1) as Hf.
  assert (Hfail : forall ret, ret <> 0 -> attributes_outcome s (err_map p (length ms) ret) s1).
  { intros ret Hret. destruct (err_map_run s1 ms ret Hi1 Hm Ho) as (O' & Hr & HO' & Hn).
    now apply (attributes_fail _ _ _ ret O'). }
  unfold attributes_outcome. rewrite (bindM_run _ _ _ _ _ Hr1). destruct e as [mi|mi ret|mi ret].
  2, 3: destruct Hout1 as [Hret Hl]; unfold err_map_kobj; rewrite <- Hl; now apply Hfail.
  destruct Hout1 as [<- Hout1]. apply (add_portios_run s s1 ms); try assumption.
  - exact (wf_info_strip _ _ (frame_info _ _ _ Hf1) Hwf).
  - etransitivity; [exact (frame_dir _ _ _ Hf1 Portios ltac:(discriminate))|exact Hdp].
  - split; [reflexivity|]. setoid_rewrite (region_size_strip Maps _ _ _ (frame_info _ _ _ Hf1)). exact Hout1.
Qed.

Lemma del_attributes_run s :
  wf_info (pf s) -> dev_info (pd s) = Some i -> has_attributes O0 s ->
  exists O', uio_dev_del_attributes p (att k0 p i s) = (Ok tt, att k0 p i (with_obj O' s)) /\ O' = O0.
Proof.
  intros Hwf Hi (ms & ps & Hm & Hp & Hlm & Hlp & Ho). unfold uio_dev_del_attributes.
  assert (Ho' : owns O0 (po s) (ms ++ option_list (region_dir Maps (pd s)) ++ region_ids Portios s ps)).
  { apply (owns_perm _ _ _ _ (Permutation_app_comm _ _)) in Ho. unfold region_ids at 1 in Ho. now rewrite <- app_assoc in Ho. }
  destruct (del_regions_gives_back k0 p i O0 Maps (region_max Maps) s [] ms _ eq_refl (wf_sizes _ _ Hwf) Hi Hm Hlm Ho')
    as (O1 & Hr1 & Ho1 & _). rewrite (bindM_run _ _ _ _ _ Hr1).
  destruct (put_dir_gives_back k0 p i O0 Maps (with_obj O1 s) _ Ho1) as (O2 & Hr2 & Ho2 & _).
  rewrite (bindM_run _ _ _ _ _ Hr2). rewrite <- (app_nil_r (region_ids _ _ _)) in Ho2. unfold region_ids in Ho2.
  rewrite <- app_assoc in Ho2.
  destruct (del_regions_gives_back k0 p i O0 Portios (region_max Portios) (with_obj O2 s) [] ps _ eq_refl
    (wf_sizes _ _ Hwf) Hi Hp Hlp Ho2) as (O3 & Hr3 & Ho3 & _). cbn [length] in Hr3.
  rewrite (bindM_run _ _ _ _ _ Hr3).
  destruct (put_dir_gives_back k0 p i O0 Portios (with_obj O3 s) [] Ho3) as (O4 & Hr4 & Ho4 & _).
  exists O4. split; [exact Hr4|]. now apply owns_nil.
Qed.
End Attributes.

(** ** Minors *)

Lemma lowest_free_between m fuel : forall from,
  from <= lowest_free m fuel from <= from + Z.of_nat fuel /\
  (forall j, from <= j < lowest_free m fuel from -> is_Some (m !! j)) /\
  (lowest_free m fuel from < from + Z.of_nat fuel -> m !! lowest_free m fuel from = None).
Proof.
  induction fuel as [|fuel IH]; intros from; cbn [lowest_free]; [repeat split; intros; lia|].
  destruct (m !! from) as [x|] eqn:E.
  - destruct (IH (from + 1)) as (Hb & Hin & Hf). split; [lia|]. split; [|intros H; apply Hf; lia].
    intros j Hj. destruct (decide (j = from)) as [->|]; [eauto|]. apply Hin. lia.
  - repeat split; [lia..| |auto]. intros; lia.
Qed.

(** As many tries as there are minors in use find a free one. *)
Lemma lowest_free_free (m : gmap Z nat) : m !! lowest_free m (size m) 0 = None.
Proof.
  destruct (lowest_free_between m (size m) 0) as (Hb & Hin & Hf).
  destruct (decide (lowest_free m (size m) 0 < Z.of_nat (size m))) as [Hlt|Hge]; [apply Hf; lia|].
  destruct (m !! _) as [x|] eqn:E; [|reflexivity]. exfalso.
  assert (Hsub : list_to_set (seqZ 0 (Z.of_nat (S (size m)))) ⊆ dom m).
  { intros j Hj. rewrite elem_of_list_to_set, elem_of_seqZ in Hj. apply elem_of_dom.
    destruct (decide (j = lowest_free m (size m) 0)) as [->|]; [eauto|]. apply Hin. lia. }
  apply subseteq_size in Hsub. rewrite size_list_to_set, length_seqZ in Hsub by apply NoDup_seqZ.
  rewrite size_dom in Hsub. lia.
Qed.

(** ** Errors are reported *)

(** A code [m] reports the errors of the calls it makes: when it ends [good], none of the answers
    it took was an error code. [ans] is where the answers are in the state. *)
Section Reports.
Context {S : Type} (ans : S -> list Z).

Definition reports {A : Type} (good : A -> Prop) (m : M S A) : Prop := forall s a s', m s = (Ok a, s') ->
  exists used, ans s = used ++ ans s' /\ (good a -> Forall (fun x => 0 <= x) used).
(** It makes no call that fails. *)
Abbreviation quiet := (reports (fun _ => True)).
(** An error exit: no more calls, and the code given is returned. *)
Definition settles (ret : Z) (m : M S Z) : Prop := quiet m /\ forall s b s', m s = (Ok b, s') -> b = ret.

Lemma reports_weaken {A} (P Q : A -> Prop) m : reports P m -> (forall a, Q a -> P a) -> reports Q m.
Proof. intros H HPQ s a s' Hr. destruct (H s a s' Hr) as (u & Hu & Hg). eauto. Qed.

Lemma reports_bind {A B} (P : A -> Prop) (Q : B -> Prop) m f :
  reports P m -> (forall a, reports Q (f a)) -> (forall a s b s', f a s = (Ok b, s') -> Q b -> P a) ->
  reports Q (bindM m f).
Proof.
  intros Hm Hf Hback s b s' (a & s1 & H1 & H2)%bindM_ok. destruct (Hm _ _ _ H1) as (u1 & E1 & G1).
  destruct (Hf a _ _ _ H2) as (u2 & E2 & G2). exists (u1 ++ u2). split; [now rewrite E1, E2, app_assoc|].
  intros Hb. apply Forall_app. eauto.
Qed.
Lemma reports_after {A B} (Q : B -> Prop) (m : M S A) f : quiet m -> (forall a, reports Q (f a)) -> reports Q (bindM m f).
Proof. intros Hm Hf. now apply (reports_bind (fun _ => True)). Qed.
(** Code that checks the return value of a call. *)
Lemma reports_check (m f : M S Z) (err : Z -> M S Z) :
  reports (eq 0) m -> (forall r, settles r (err r)) -> reports (eq 0) f ->
  reports (eq 0) (let* ret := m in if negb (ret =? 0) then err ret else f).
Proof.
  intros Hm He Hf. apply (reports_bind (eq 0) _ m); [exact Hm| |]; intros r.
  - destruct (r =? 0); cbn; [exact Hf|]. apply (reports_weaken (fun _ => True)); [apply He|auto].
  - intros s b s' H E. destruct (Z.eqb_spec r 0) as [->|]; [reflexivity|]. cbn in H. apply He in H. congruence.
Qed.

Lemma reports_errors (m : M S Z) s ret s' : reports (eq 0) m -> m s = (Ok ret, s') ->
  exists used, ans s = used ++ ans s' /\ (Exists (fun a => a < 0) used -> ret <> 0).
Proof.
  intros H Hr. destruct (H _ _ _ Hr) as (used & E & Hg). exists used. split; [exact E|]. intros Hneg ->.
  apply list.Exists_exists in Hneg as (a & Ha & Hlt). pose proof (proj1 (list.Forall_forall _ _) (Hg eq_refl) a Ha) as H0.
  cbv beta in H0. lia.
Qed.

Lemma quiet_state {A} (m : M S A) : (forall s a s', m s = (Ok a, s') -> ans s' = ans s) -> quiet m.
Proof. intros H s a s' Hr. exists []. rewrite (H _ _ _ Hr). split; [reflexivity|constructor]. Qed.
Lemma reports_ret {A} (P : A -> Prop) (a : A) : reports P (retM a).
Proof. apply (reports_weaken (fun _ => True)); [|auto]. apply quiet_state. intros s b s' H. now inversion H. Qed.
Lemma quiet_get : quiet getM.
Proof. apply quiet_state. intros s b s' H. now inversion H. Qed.
Lemma quiet_modify f : (forall s, ans (f s) = ans s) -> quiet (modifyM f).
Proof. intros Hf. apply quiet_state. intros s b s' H. inversion H. apply Hf. Qed.

Lemma settles_ret ret : settles ret (retM ret).
Proof. split; [apply reports_ret|]. intros s b s' H. now inversion H. Qed.
Lemma settles_after {A} ret (m : M S A) f : quiet m -> (forall a, settles ret (f a)) -> settles ret (bindM m f).
Proof.
  intros Hm Hf. split; [apply reports_after; [exact Hm|apply Hf]|].
  intros s b s' (a & s1 & _ & H)%bindM_ok. exact (proj2 (Hf a) _ _ _ H).
Qed.
End Reports.

Create HintDb reports.
#[export] Hint Resolve reports_ret quiet_get settles_ret : reports.
#[export] Hint Resolve reports_after settles_after : reports.
Ltac quiet_modify := apply quiet_modify; intros []; reflexivity.
#[export] Hint Extern 1 (reports _ _ (modifyM _)) => quiet_modify : reports.

Abbreviation kquiet := (reports answers (fun _ => True)).
Abbreviation kreports := (reports answers).

Lemma quiet_deref {A} (heap : kernel -> gmap nat A) p : kquiet (deref heap p).
Proof. apply quiet_state. intros k a k'. unfold deref. destruct (heap k !! p); intros H; now inversion H. Qed.
Lemma quiet_nonnull {A} (p : option A) : kquiet (nonnull p).
Proof. apply quiet_state. intros k a k'. unfold nonnull. destruct p; intros H; now inversion H. Qed.
#[export] Hint Resolve quiet_deref quiet_nonnull : reports.
Lemma quiet_upd_idev p f : kquiet (upd_idev p f).
Proof. unfold upd_idev. auto with reports. Qed.
Lemma quiet_upd_info p f : kquiet (upd_info p f).
Proof. unfold upd_info. auto with reports. Qed.
#[export] Hint Resolve quiet_upd_idev quiet_upd_info : reports.

Lemma reports_ask : kreports (eq 0) ask.
Proof.
  intros k a k'. unfold ask. destruct (answers k) as [|x rest] eqn:E; intros H; injection H as <- <-.
  - exists []. rewrite E. split; [reflexivity|constructor].
  - exists [x]. split; [now destruct k|]. intros <-. constructor; [lia|constructor].
Qed.
(** A call that changes the state when it succeeds. *)
Lemma reports_call (f : M kernel unit) : kquiet f -> kreports (eq 0) (let* a := ask in if a =? 0 then do* f in retM 0 else retM a).
Proof.
  intros Hf. apply (reports_bind _ (eq 0) _ ask _ reports_ask); intros a.
  - destruct (a =? 0); auto with reports.
  - intros k b k' H <-. destruct (Z.eqb_spec a 0) as [->|]; [reflexivity|]. now inversion H.
Qed.
Lemma reports_kmalloc : kreports is_Some kmalloc.
Proof.
  apply (reports_bind _ (eq 0) _ ask _ reports_ask); intros a.
  - destruct (a =? 0); [|apply reports_ret]. apply reports_after; [|auto with reports].
    apply quiet_state. intros k b k' H. inversion H. now destruct k.
  - intros k b k' H [x ->]. destruct (Z.eqb_spec a 0) as [->|]; [reflexivity|]. now inversion H.
Qed.

Lemma quiet_kobject_put x : kquiet (kobject_put x).
Proof.
  destruct x as [x|]; cbn; [|apply reports_ret]. apply reports_after; [auto with reports|]. intros o.
  destruct (kobj_refs o =? 1); [|quiet_modify]. destruct (kobj_type o); cbn; quiet_modify.
Qed.
#[export] Hint Resolve quiet_kobject_put : reports.
Lemma quiet_idev_info p : kquiet (idev_info p).
Proof. unfold idev_info. repeat (apply reports_after; [auto with reports|intros ?]). apply reports_ret. Qed.
Lemma quiet_put_device p : kquiet (put_device p).
Proof.
  unfold put_device. apply reports_after; [auto with reports|]. intros d. destruct (dev_refs d =? 1); [|apply quiet_upd_idev].
  unfold uio_device_release. apply reports_after; auto with reports.
Qed.
#[export] Hint Resolve quiet_idev_info quiet_put_device : reports.

Lemma quiet_put_dir r p : kquiet (put_dir r p).
Proof. unfold put_dir. apply reports_after; auto with reports. Qed.
Lemma quiet_put_regions r p n : kquiet (put_regions r p n).
Proof.
  induction n as [|n IH]; cbn [put_regions]; [apply reports_ret|]. apply reports_after; [auto with reports|]. intros [_ info].
  repeat (apply reports_after; [auto with reports|intros ?]). exact IH.
Qed.
Lemma quiet_del_regions r p fuel : forall n, kquiet (del_regions r p fuel n).
Proof.
  induction fuel as [|fuel IH]; intros n; cbn [del_regions]; [apply reports_ret|]. apply reports_after; [auto with reports|]. intros [_ info].
  apply reports_after; [auto with reports|]. intros size. destruct (size =? 0); [apply reports_ret|].
  repeat (apply reports_after; [auto with reports|intros ?]). apply IH.
Qed.
#[export] Hint Resolve quiet_put_dir quiet_put_regions quiet_del_regions : reports.

Lemma err_map_settles p mi ret : settles answers ret (err_map p mi ret) /\ settles answers ret (err_map_kobj p mi ret).
Proof. unfold err_map, err_map_kobj. auto 10 with reports. Qed.
Lemma err_portio_settles p mi pi ret :
  settles answers ret (err_portio p mi pi ret) /\ settles answers ret (err_portio_kobj p mi pi ret).
Proof.
  unfold err_portio, err_portio_kobj. destruct (err_map_settles p mi ret) as [H _]. auto 10 with reports.
Qed.
Lemma err_register_settles p ret : settles answers ret (err_device_create p ret) /\
  settles answers ret (err_uio_dev_add_attributes p ret) /\ settles answers ret (err_request_irq p ret).
Proof.
  assert (H1 : settles answers ret (err_device_create p ret)).
  { unfold err_device_create, uio_free_minor, idr_remove. repeat (apply settles_after; [auto with reports|intros ?]). auto with reports. }
  assert (H2 : settles answers ret (err_uio_dev_add_attributes p ret)) by (apply settles_after; unfold device_del; auto with reports).
  split; [exact H1|]. split; [exact H2|]. apply settles_after; [|auto]. unfold uio_dev_del_attributes.
  do 3 (apply reports_after; [auto with reports|intros _]). apply quiet_put_dir.
Qed.

(** The loops leave with an error code when a call failed. *)
Definition exit_ok (e : loop_exit) : Prop := match e with LoopEnd _ => True | GotoErr _ r | GotoErrKobj _ r => r = 0 end.

Lemma reports_create_dir r p found : kreports (eq true) (create_dir r p found).
Proof.
  unfold create_dir. destruct found; cbn; [apply reports_ret|]. apply (reports_bind _ is_Some).
  - unfold kobject_create_and_add. apply (reports_bind _ is_Some _ _ _ reports_kmalloc).
    + intros [x|]; [unfold kobject_init; apply reports_after; auto with reports|apply reports_ret].
    + intros [x|] k b k' H Hb; [eauto|]. inversion H. subst. exact Hb.
  - intros dir. apply reports_after; auto with reports.
  - intros dir k b k' (u & k1 & _ & H)%bindM_ok <-. destruct dir; [eauto|]. now inversion H.
Qed.
Lemma reports_create_obj r p n x : kreports (eq 0) (create_obj r p n x).
Proof.
  unfold create_obj, kobject_init, kobject_add, kobject_uevent. apply reports_after; [auto with reports|]. intros _.
  apply reports_after; [auto with reports|]. intros [i f]. apply reports_after; [auto with reports|]. intros _.
  apply (reports_check _ _ _ retM); auto using settles_ret; apply reports_after; auto using reports_ask with reports.
Qed.
Lemma reports_add_regions r p fuel : forall n found, kreports exit_ok (add_regions r p fuel n found).
Proof.
  induction fuel as [|fuel IH]; intros n found; cbn [add_regions]; [apply reports_ret|].
  apply reports_after; [auto with reports|]. intros [_ info]. apply reports_after; [auto with reports|]. intros size.
  destruct (size =? 0); [apply reports_ret|]. apply (reports_bind _ (eq true) _ _ _ (reports_create_dir r p found)).
  2: { intros [] k b k' H Hb; [reflexivity|]. inversion H. subst. discriminate Hb. }
  intros []; cbn; [|apply reports_ret]. apply (reports_bind _ is_Some _ _ _ reports_kmalloc).
  2: { intros [x|] k b k' H Hb; [eauto|]. inversion H. subst. discriminate Hb. }
  intros [x|]; [|apply reports_ret]. apply (reports_bind _ (eq 0) _ _ _ (reports_create_obj r p n x)).
  - intros ret. destruct (ret =? 0); cbn; [apply IH|apply reports_ret].
  - intros ret k b k' H Hb. destruct (Z.eqb_spec ret 0) as [->|Hr]; [reflexivity|]. inversion H. subst. cbn in Hb. congruence.
Qed.
Lemma reports_add_attributes p : kreports (eq 0) (uio_dev_add_attributes p).
Proof.
  apply (reports_bind _ exit_ok _ _ _ (reports_add_regions _ _ _ _ _)).
  - intros [mi|mi ret|mi ret]; [|apply (reports_weaken _ (fun _ => True)); [apply err_map_settles|auto]..].
    apply (reports_bind _ exit_ok _ _ _ (reports_add_regions _ _ _ _ _)).
    + intros [pi|pi ret|pi ret]; [apply reports_ret|apply (reports_weaken _ (fun _ => True)); [apply err_portio_settles|auto]..].
    + intros [pi|pi ret|pi ret] k b k' H Hb; [exact I|apply err_portio_settles in H; cbn; congruence..].
  - intros [mi|mi ret|mi ret] k b k' H Hb; [exact I|apply err_map_settles in H; cbn; congruence..].
Qed.

Lemma reports_get_minor p : kreports (eq 0) (uio_get_minor p).
Proof.
  assert (Halloc : kreports (fun r => 0 <= r) (idr_alloc p UIO_MAX_DEVICES)).
  { apply (reports_bind _ (fun a => 0 <= a)).
    - intros k a k'. unfold ask. destruct (answers k) as [|x rest] eqn:E; intros H; injection H as <- <-;
        [exists []; rewrite E|exists [x]; destruct k; cbn in *]; auto.
    - intros a. destruct (a <? 0); [apply reports_ret|]. intros k r k' H. exists [].
      apply bindM_ok in H as (k0 & k1 & H0 & H). injection H0 as <- <-. cbv zeta in H.
      destruct (_ <? _); inversion H; destruct k; auto.
    - intros a k b k' H Hb. destruct (Z.ltb_spec a 0); [inversion H; subst|]; assumption. }
  apply (reports_bind _ _ _ _ _ Halloc).
  - intros r. destruct (0 <=? r); [auto with reports|]. destruct (r =? - ENOSPC); apply reports_ret.
  - intros r k b k' H <-. destruct (Z.leb_spec 0 r); [assumption|]. destruct (r =? - ENOSPC); inversion H. lia.
Qed.

Lemma register_reports owner parent i : kreports (eq 0) (__uio_register_device owner parent i).
Proof.
  unfold __uio_register_device. apply reports_after; [apply quiet_get|]. intros k0.
  destruct (uio_class_registered k0); cbn; [|apply reports_ret].
  destruct parent as [parent|], i as [i|]; try apply reports_ret. apply reports_after; [auto with reports|]. intros info.
  destruct (info_name info), (info_version info); try apply reports_ret. apply reports_after; [auto with reports|]. intros _.
  apply (reports_bind _ is_Some _ _ _ reports_kmalloc).
  2: { intros [x|] k b k' H Hb; [eauto|]. exfalso. inversion H. subst. discriminate. }
  intros [p|]; [|apply reports_ret]. apply reports_after; [auto with reports|]. intros _.
  apply (reports_check _ _ _ (fun ret => do* kfree_idev p in retM ret)); [apply reports_get_minor| |].
  { intros r. unfold kfree_idev, uio_device_release. apply settles_after; [|auto with reports]. apply reports_after; auto with reports. }
  unfold register_initialized, device_initialize. apply reports_after; [auto with reports|]. intros _.
  apply (reports_check _ _ _ (err_device_create p)); [apply reports_call; auto with reports|apply err_register_settles|].
  apply (reports_check _ _ _ (err_device_create p)); [apply reports_call; auto with reports|apply err_register_settles|].
  apply (reports_check _ _ _ (err_uio_dev_add_attributes p)); [apply reports_add_attributes|apply err_register_settles|].
  unfold register_irq. apply reports_after; [auto with reports|]. intros _. destruct (has_irq info); [|apply reports_ret].
  apply (reports_check _ _ _ (fun ret => do* upd_info i (set_uio_dev None) in err_request_irq p ret)).
  - apply reports_call. quiet_modify.
  - intros r. apply settles_after; [auto with reports|]. intros _. apply err_register_settles.
  - apply reports_ret.
Qed.

(** ** Registering *)

(** Numbers from [next] on are not in use. *)
Record numbers_fresh (k : kernel) : Prop := {
  fresh_kobjs : forall x, (next k <= x)%nat -> kobjs k !! x = None;
  fresh_idevs : forall x, (next k <= x)%nat -> idevs k !! x = None;
  fresh_irqs : forall q x, (next k <= x)%nat -> (q, x) ∉ irqs k;
}.

(** [k] with the answers, the numbers, the objects and the [uio_info] of [s]. *)
Definition gone (k : kernel) (i : nat) (s : parts) : kernel :=
  set_answers (pa s) (set_next (pn s) (set_kobjs (po s) (set_infos (<[i := pf s]> (infos k)) k))).
(** Only answers, numbers and the pointers of the [uio_info] have changed. *)
Definition given_back (i : nat) (info : uio_info) (k k' : kernel) : Prop :=
  exists a n f, k' = set_answers a (set_next n (set_infos (<[i := f]> (infos k)) k)) /\ strip f = strip info /\ (next k <= n)%nat.

Lemma gone_given_back k i s info :
  po s = kobjs k -> strip (pf s) = strip info -> (next k <= pn s)%nat -> given_back i info k (gone k i s).
Proof. intros Ho Hs Hn. exists (pa s), (pn s), (pf s). split; [|easy]. unfold gone. rewrite Ho. now destruct k. Qed.

Section Register.
Context (k : kernel) (owner p i : nat) (m : Z).
Hypothesis Hp : idevs k !! p = None.
Hypothesis Hm : uio_idr k !! m = None.
Hypothesis Hnk : (next k <= p)%nat.

(** [k] with the minor [m] taken, while device [p] is set up. *)
Definition with_minor : kernel := set_idr (<[m := p]> (uio_idr k)) k.

Lemma put_last_device kb s : idevs kb !! p = None -> dev_refs (pd s) = 1 -> put_device p (att kb p i s) = (Ok tt, gone kb i s).
Proof.
  intros Hpb Hr. unfold put_device. rewrite (bindM_run _ _ _ _ _ (att_idev kb p i s)), Hr. cbn [Z.eqb Pos.eqb].
  unfold uio_device_release. rewrite (bindM_run _ _ _ _ _ (att_idev kb p i s)). unfold modifyM, gone, att.
  destruct kb, s. cbn in *. now rewrite delete_insert_id.
Qed.

Lemma err_device_create_run s ret :
  dev_minor (pd s) = m -> dev_refs (pd s) = 1 ->
  err_device_create p ret (att with_minor p i s) = (Ok ret, gone k i s).
Proof.
  intros Hmin Hr. unfold err_device_create. rewrite (bindM_run _ _ _ _ _ (att_idev with_minor p i s)), Hmin.
  assert (Hfree : uio_free_minor m (att with_minor p i s) = (Ok tt, att k p i s)).
  { unfold uio_free_minor, idr_remove, modifyM, att, with_minor. destruct k, s. cbn in *. now rewrite delete_insert_id. }
  rewrite (bindM_run _ _ _ _ _ Hfree), (bindM_run _ _ _ _ _ (put_last_device k s Hp Hr)). reflexivity.
Qed.

Lemma err_add_attributes_run s ret :
  dev_minor (pd s) = m -> dev_refs (pd s) = 1 ->
  exists s', err_uio_dev_add_attributes p ret (att with_minor p i s) = (Ok ret, gone k i s') /\ pf s' = pf s /\ po s' = po s /\ pn s' = pn s.
Proof.
  intros Hmin Hr. unfold err_uio_dev_add_attributes, device_del.
  rewrite (bindM_run _ _ _ _ _ (att_upd_idev with_minor p i s _)). eexists. split; [now apply err_device_create_run|].
  easy.
Qed.

Lemma request_irq_run kb s irq : exists a rest,
  request_irq irq p (att kb p i s) =
    (Ok a, att (if a =? 0 then set_irqs ((irq, p) :: irqs kb) kb else kb) p i (with_answers rest s)).
Proof.
  destruct (att_ask kb p i s) as (a & rest & Ha). exists a, rest. unfold request_irq. rewrite (bindM_run _ _ _ _ _ Ha).
  destruct (Z.eqb_spec a 0) as [->|]; [|reflexivity]. unfold bindM, modifyM, retM, att. now destruct kb, s.
Qed.

(** A device that is set up: its state is [att] of a kernel with the minor and the interrupt. *)
Definition with_irq (info : uio_info) : kernel :=
  if has_irq info then set_irqs ((info_irq info, p) :: irqs k) with_minor else with_minor.
Record set_up (info : uio_info) (s : parts) : Prop := {
  su_attributes : has_attributes (kobjs k) s;
  su_unused : unused s;
  su_next : (p < pn s)%nat;
  su_info : strip (pf s) = strip info;
  su_link : info_uio_dev (pf s) = Some p;
  su_dev : strip_dev (pd s) = mkIdev owner 1 true (str "uio" ++ fmt_int m) m 0 [] (Some i) None None;
}.
(** How registering ends. *)
Definition register_outcome (info : uio_info) (r : res Z * kernel) : Prop :=
  exists ret k1, r = (Ok ret, k1) /\
    (ret <> 0 /\ given_back i info k k1 \/ ret = 0 /\ exists s, k1 = att (with_irq info) p i s /\ set_up info s).

Lemma set_up_fields info s : set_up info s ->
  dev_info (pd s) = Some i /\ dev_minor (pd s) = m /\ dev_refs (pd s) = 1 /\ dev_async_queue (pd s) = [] /\ dev_event (pd s) = 0 /\
  dev_owner (pd s) = owner.
Proof. intros [_ _ _ _ _ H]. destruct (pd s). unfold strip_dev, set_map_dir, set_portio_dir in H. cbn in *. now inversion H. Qed.

Lemma has_attributes_irrelevant O0 s s' :
  po s' = po s -> pd s' = pd s -> (forall r j, region_obj r j (pf s') = region_obj r j (pf s)) ->
  (forall r j, region_size r j (pf s') = region_size r j (pf s)) -> has_attributes O0 s -> has_attributes O0 s'.
Proof.
  intros Hpo Hpd Hobj Hsz (ms & ps & Hms & Hps & Hlm & Hlp & Ho). exists ms, ps. unfold has_objs, loop_outcome, region_ids in *.
  setoid_rewrite Hobj. setoid_rewrite Hsz. now rewrite Hpo, Hpd.
Qed.

Lemma register_irq_run info s :
  wf_info info -> set_up info (with_info (set_uio_dev (Some p) (pf s)) s) ->
  register_outcome info (register_irq p i info (att with_minor p i s)).
Proof.
  intros Hwf Hsu. destruct (set_up_fields _ _ Hsu) as (Hi & Hmin & Href & _ & _ & _). cbn [pd with_info] in *.
  unfold register_irq. rewrite (bindM_run _ _ _ _ _ (att_upd_info with_minor p i s _)). set (s1 := with_info _ s) in *.
  destruct (has_irq info) eqn:Hirq.
  2: { exists 0. eexists. split; [reflexivity|]. right. split; [reflexivity|]. exists s1. split; [|exact Hsu].
       unfold with_irq. now rewrite Hirq. }
  destruct (request_irq_run with_minor s1 (info_irq info)) as (a & rest & Ha). rewrite (bindM_run _ _ _ _ _ Ha).
  destruct (Z.eqb_spec a 0) as [->|Hne]; cbn [negb].
  - exists 0. eexists. split; [reflexivity|]. right. split; [reflexivity|]. exists (with_answers rest s1).
    split; [unfold with_irq; rewrite Hirq; unfold with_minor; now destruct k|]. destruct Hsu. now split.
  - rewrite (bindM_run _ _ _ _ _ (att_upd_info with_minor p i _ _)). unfold err_request_irq. set (s2 := with_info _ _).
    assert (Hattr : has_attributes (kobjs k) s2)
      by (apply (has_attributes_irrelevant _ s1); try reflexivity; exact (su_attributes _ _ Hsu)).
    destruct (del_attributes_run with_minor p i (kobjs k) s2) as (O' & Hdel & HO').
    { exact (wf_info_strip _ _ (su_info _ _ Hsu) Hwf). } 1, 2: assumption.
    rewrite (bindM_run _ _ _ _ _ Hdel). destruct (err_add_attributes_run (with_obj O' s2) a Hmin Href) as (s3 & Hr & Hpf & Hpo & Hpn).
    rewrite Hr. exists a. eexists. split; [reflexivity|]. left. split; [exact Hne|].
    apply gone_given_back; [now rewrite Hpo|rewrite Hpf; exact (su_info _ _ Hsu)|].
    pose proof (su_next _ _ Hsu) as Hn. cbn in Hn, Hpn. lia.
Qed.

(** A call that only asks, and on success changes the device. *)
Lemma ask_upd_run kb s (g : uio_device -> uio_device) (call : M kernel Z) :
  call = (let* a := ask in if a =? 0 then do* upd_idev p g in retM 0 else retM a) ->
  exists a rest, call (att kb p i s) =
    (Ok a, att kb p i (with_answers rest (if a =? 0 then with_idev (g (pd s)) s else s))).
Proof.
  intros ->. destruct (att_ask kb p i s) as (a & rest & Ha). exists a, rest. rewrite (bindM_run _ _ _ _ _ Ha).
  destruct (Z.eqb_spec a 0) as [->|]; [|reflexivity]. now rewrite (bindM_run _ _ _ _ _ (att_upd_idev kb p i _ _)).
Qed.

Lemma register_initialized_run info s :
  wf_info info -> pd s = set_minor m (new_idev owner i) -> pf s = set_uio_dev None info -> po s = kobjs k -> unused s -> (p < pn s)%nat ->
  register_outcome info (register_initialized p i info (att with_minor p i s)).
Proof.
  intros Hwf Hpd Hpf Hpo Hu Hpn. unfold register_initialized, device_initialize.
  rewrite (bindM_run _ _ _ _ _ (att_upd_idev with_minor p i s _)).
  assert (Hfail : forall ret s', ret <> 0 -> dev_minor (pd s') = m -> dev_refs (pd s') = 1 -> po s' = kobjs k -> pf s' = pf s -> pn s' = pn s ->
    register_outcome info (err_device_create p ret (att with_minor p i s'))).
  { intros ret s' Hret Hmin Href Ho Hf Hn. rewrite err_device_create_run by assumption. exists ret. eexists. split; [reflexivity|].
    left. split; [exact Hret|]. apply gone_given_back; [exact Ho|now rewrite Hf, Hpf|lia]. }
  set (s1 := with_idev _ s). assert (H1 : pd s1 = set_refs 1 (set_minor m (new_idev owner i))) by (cbn; now rewrite Hpd).
  destruct (ask_upd_run with_minor s1 _ (dev_set_name p) eq_refl) as (a1 & rest1 & Ha1). rewrite (bindM_run _ _ _ _ _ Ha1).
  destruct (Z.eqb_spec a1 0) as [->|Hne]; cbn [negb]; [|apply Hfail; cbn; now rewrite ?H1, ?Hpd].
  set (s2 := with_answers rest1 _).
  destruct (ask_upd_run with_minor s2 _ (device_add p) eq_refl) as (a2 & rest2 & Ha2). rewrite (bindM_run _ _ _ _ _ Ha2).
  destruct (Z.eqb_spec a2 0) as [->|Hne]; cbn [negb]; [|apply Hfail; cbn; now rewrite ?H1, ?Hpd].
  set (s3 := with_answers rest2 _).
  assert (H3 : pd s3 = mkIdev owner 1 true (str "uio" ++ fmt_int m) m 0 [] (Some i) None None)
    by (cbn; now rewrite Hpd).
  destruct (add_attributes_run with_minor p i (kobjs k) s3) as (ret & s4 & Hr & [Hf Hl Hd Hn4] & Hu4 & Hout);
    try (now rewrite H3); try assumption; [cbn; now rewrite Hpf|].
  rewrite (bindM_run _ _ _ _ _ Hr).
  assert (Hd4 : strip_dev (pd s4) = mkIdev owner 1 true (str "uio" ++ fmt_int m) m 0 [] (Some i) None None)
    by (now rewrite Hd, H3).
  destruct Hout as [[Hret Ho4]|[-> Hattr]].
  - rewrite (proj2 (Z.eqb_neq ret 0) Hret). cbn [negb].
    destruct (err_add_attributes_run s4 ret) as (s5 & Hr5 & Hpf5 & Hpo5 & Hpn5).
    { exact (f_equal dev_minor Hd4). } { exact (f_equal dev_refs Hd4). }
    rewrite Hr5. exists ret. eexists. split; [reflexivity|]. left. split; [exact Hret|].
    apply gone_given_back; [congruence|rewrite Hpf5, Hf; cbn; now rewrite Hpf|].
    change (pn s <= pn s4)%nat in Hn4. lia.
  - cbn [Z.eqb negb]. apply register_irq_run; [exact Hwf|]. split; cbn [pd pf po with_info]; try assumption.
    + change (pn s <= pn s4)%nat in Hn4. cbn. lia.
    + rewrite strip_set_uio_dev, Hf. cbn. now rewrite Hpf.
    + reflexivity.
Qed.
End Register.

Lemma uio_get_minor_run k p i s :
  let m := lowest_free (uio_idr k) (size (uio_idr k)) 0 in
  exists ret rest, uio_get_minor p (att k p i s) =
    (Ok ret, if ret =? 0 then att (with_minor k p m) p i (with_answers rest (with_idev (set_minor m (pd s)) s))
             else att k p i (with_answers rest s)).
Proof.
  intros m. unfold uio_get_minor, idr_alloc. destruct (att_ask k p i s) as (a & rest & Ha).
  unfold bindM at 1 2. rewrite Ha. destruct (Z.ltb_spec a 0) as [Hneg|Hpos].
  { cbn [retM]. rewrite (proj2 (Z.leb_gt 0 a)) by lia. destruct (a =? - ENOSPC); [exists (- EINVAL), rest; reflexivity|].
    exists a, rest. now rewrite (proj2 (Z.eqb_neq a 0)) by lia. }
  unfold getM at 1. cbn [bindM]. replace (uio_idr (att k p i (with_answers rest s))) with (uio_idr k) by (now destruct k).
  fold m. destruct (Z.ltb_spec m UIO_MAX_DEVICES) as [Hlt|Hge]; cbn [bindM putM retM].
  - pose proof (lowest_free_between (uio_idr k) (size (uio_idr k)) 0) as ((Hm0 & _) & _). fold m in Hm0.
    rewrite (proj2 (Z.leb_le 0 m)) by lia. exists 0, rest. cbn [Z.eqb].
    replace (set_idr (<[m := p]> (uio_idr k)) (att k p i (with_answers rest s))) with (att (with_minor k p m) p i (with_answers rest s))
      by (unfold with_minor; now destruct k).
    now rewrite (bindM_run _ _ _ _ _ (att_upd_idev _ p i _ _)).
  - exists (- EINVAL), rest. reflexivity.
Qed.

(** Registering ends with the device in place, or with everything given back. *)
Lemma register_run k owner parent i info :
  infos k !! i = Some info -> wf_info info -> numbers_fresh k ->
  let m := lowest_free (uio_idr k) (size (uio_idr k)) 0 in
  register_outcome k owner (next k) i m info (__uio_register_device owner (Some parent) (Some i) k).
Proof.
  intros Hinfo Hwf Hfresh m. set (p := next k). unfold __uio_register_device. unfold getM at 1. cbn [bindM].
  assert (Hsame : forall ret, ret <> 0 -> register_outcome k owner p i m info (Ok ret, k)).
  { intros ret Hret. exists ret, k. split; [reflexivity|]. left. split; [exact Hret|]. exists (answers k), (next k), info.
    split; [|easy]. rewrite insert_id by exact Hinfo. now destruct k. }
  destruct (uio_class_registered k); cbn [negb]; [|now apply Hsame].
  assert (Hd : deref infos i k = (Ok info, k)) by (unfold deref; now rewrite Hinfo).
  rewrite (bindM_run _ _ _ _ _ Hd). destruct (info_name info), (info_version info); try now apply Hsame.
  assert (Hu : upd_info i (set_uio_dev None) k = (Ok tt, set_infos (<[i := set_uio_dev None info]> (infos k)) k))
    by (unfold upd_info; now rewrite (bindM_run _ _ _ _ _ Hd)).
  rewrite (bindM_run _ _ _ _ _ Hu).
  set (s := mkParts (tail (answers k)) (S p) (kobjs k) (new_idev owner i) (set_uio_dev None info)).
  assert (Hk : exists b, kmalloc (set_infos (<[i := set_uio_dev None info]> (infos k)) k) =
    (Ok (if b : bool then Some p else None), gone k i (if b then s else with_next p s))).
  { unfold kmalloc, bindM, ask. replace (answers (set_infos _ k)) with (answers k) by (now destruct k).
    destruct (answers k) as [|a more] eqn:Ea; [|destruct (Z.eqb_spec a 0) as [->|Hne]];
      [exists true|exists true|exists false]; unfold gone, s, p; destruct k; cbn in *; subst; reflexivity. }
  destruct Hk as [[] Hk]; rewrite (bindM_run _ _ _ _ _ Hk).
  2: { exists (- ENOMEM). eexists. split; [reflexivity|]. left. split; [discriminate|]. apply gone_given_back; [reflexivity..|cbn; lia]. }
  assert (Hins : modifyM (fun k => set_idevs (<[p := new_idev owner i]> (idevs k)) k) (gone k i s) = (Ok tt, att k p i s))
    by (unfold modifyM, gone, att; now destruct k).
  rewrite (bindM_run _ _ _ _ _ Hins). destruct (uio_get_minor_run k p i s) as (ret & rest & Hr).
  rewrite (bindM_run _ _ _ _ _ Hr). fold m. pose proof (fresh_idevs k Hfresh p ltac:(lia)) as Hpn.
  destruct (Z.eqb_spec ret 0) as [->|Hne]; cbn [negb].
  - apply register_initialized_run; try reflexivity; try assumption; [apply lowest_free_free| |cbn; lia].
    intros x Hx. cbn in *. apply (fresh_kobjs k Hfresh). unfold p in Hx. lia.
  - assert (Hfree : kfree_idev p (att k p i (with_answers rest s)) = (Ok tt, gone k i (with_answers rest s))).
    { unfold kfree_idev, uio_device_release. rewrite (bindM_run _ _ _ _ _ (att_idev k p i _)). unfold modifyM, gone, att.
      destruct k. cbn in *. now rewrite delete_insert_id. }
    rewrite (bindM_run _ _ _ _ _ Hfree). exists ret. eexists. split; [reflexivity|]. left. split; [exact Hne|].
    apply gone_given_back; [reflexivity..|cbn; unfold p; lia].
Qed.

(** ** Unregistering *)

(** Every kernel with the device and its [uio_info] has the form [att]. *)
Definition parts_of (k : kernel) (d : uio_device) (f : uio_info) : parts := mkParts (answers k) (next k) (kobjs k) d f.
Lemma att_parts_of k p i d f : idevs k !! p = Some d -> infos k !! i = Some f -> att k p i (parts_of k d f) = k.
Proof. intros Hd Hf. destruct k. unfold att. cbn in *. now rewrite !insert_id. Qed.

(** What [uio_unregister_device] leaves of [k] when the device [d] had its sysfs objects on top
    of [O0]: the minor, the interrupt and the objects are given back, the files in the queue
    are told, and the device goes with its last reference. *)
Definition unregistered (k : kernel) (p i : nat) (d : uio_device) (f : uio_info) (O0 : gmap nat kobject) : kernel :=
  let d' := set_refs (dev_refs d - 1) (set_added false (clear_info d)) in
  set_idr (delete (dev_minor d) (uio_idr k))
    (set_signals (signals k ++ map (fun x => (x, POLL_HUP)) (dev_async_queue d))
      (set_idevs (if dev_refs d =? 1 then delete p (idevs k) else <[p := d']> (idevs k))
        (set_irqs (if has_irq f then filter (fun x => x <> (info_irq f, p)) (irqs k) else irqs k) (set_kobjs O0 k)))).

Lemma unregister_run k p i d f O0 :
  idevs k !! p = Some d -> infos k !! i = Some f -> dev_info d = Some i -> info_uio_dev f = Some p -> wf_info f ->
  has_attributes O0 (parts_of k d f) -> (has_irq f = true -> (info_irq f, p) ∈ irqs k) ->
  uio_unregister_device (Some i) k = (Ok tt, unregistered k p i d f O0).
Proof.
  intros Hd Hf Hi Hlink Hwf Hattr Hirq. unfold uio_unregister_device.
  rewrite (bindM_run _ _ k k f) by (unfold deref; now rewrite Hf). rewrite Hlink.
  rewrite (bindM_run _ _ k k d) by (unfold deref; now rewrite Hd).
  destruct (del_attributes_run k p i O0 (parts_of k d f) Hwf Hi Hattr) as (O' & Hdel & ->).
  rewrite att_parts_of in Hdel by assumption. rewrite (bindM_run _ _ _ _ _ Hdel).
  set (s := with_obj O0 (parts_of k d f)).
  set (kq := set_irqs (if has_irq f then filter (fun x => x <> (info_irq f, p)) (irqs k) else irqs k) k).
  assert (Hfree : (if has_irq f then free_irq (info_irq f) p else retM tt) (att k p i s) = (Ok tt, att kq p i s)).
  { unfold kq. destruct (has_irq f); [|now destruct k]. unfold free_irq, bindM, getM.
    replace (irqs (att k p i s)) with (irqs k) by now destruct k. unfold definedM. rewrite bool_decide_true by auto.
    unfold putM, retM, att. now destruct k. }
  rewrite (bindM_run _ _ _ _ _ Hfree), (bindM_run _ _ _ _ _ (att_upd_idev kq p i s _)). unfold kill_fasync.
  rewrite bindM_assoc, (bindM_run _ _ _ _ _ (att_idev kq p i _)). cbn [with_idev pd clear_info dev_async_queue].
  set (ks := set_signals (signals k ++ map (fun x => (x, POLL_HUP)) (dev_async_queue d)) kq).
  rewrite (bindM_run _ _ _ (att ks p i (with_idev (clear_info d) s)) tt) by (unfold modifyM, att, ks, kq; now destruct k).
  unfold device_unregister. rewrite bindM_assoc. unfold device_del.
  rewrite (bindM_run _ _ _ _ _ (att_upd_idev ks p i _ _)). cbn [with_idev pd]. unfold put_device.
  rewrite bindM_assoc, (bindM_run _ _ _ _ _ (att_idev ks p i _)). cbn [with_idev pd set_added clear_info dev_refs].
  unfold uio_free_minor, idr_remove, unregistered. destruct (dev_refs d =? 1).
  - unfold uio_device_release. rewrite bindM_assoc, (bindM_run _ _ _ _ _ (att_idev ks p i _)).
    unfold bindM, modifyM, att, ks, kq. destruct k. cbn in *. rewrite delete_insert_eq. now rewrite insert_id.
  - rewrite (bindM_run _ _ _ _ _ (att_upd_idev ks p i _ _)). unfold modifyM, att, ks, kq. destruct k. cbn in *.
    now rewrite (insert_id _ i f).
Qed.

Lemma filter_all {A} (P : A -> Prop) `{forall x, Decision (P x)} (l : list A) : (forall x, x ∈ l -> P x) -> filter P l = l.
Proof.
  induction l as [|x l IH]; intros Hall; [reflexivity|]. rewrite filter_cons_True by (apply Hall; set_solver).
  f_equal. apply IH. set_solver.
Qed.

(** A device that was set up is unregistered without a trace. *)
Lemma unregister_set_up k owner p i m info s :
  idevs k !! p = None -> uio_idr k !! m = None -> (next k <= p)%nat -> (forall q, (q, p) ∉ irqs k) -> wf_info info ->
  set_up k owner p i m info s ->
  exists k2, uio_unregister_device (Some i) (att (with_irq k p m info) p i s) = (Ok tt, k2) /\ given_back i info k k2.
Proof.
  intros Hp Hm Hnk Hq Hwf Hsu. pose proof (set_up_fields _ _ _ _ _ _ _ Hsu) as (Hi & Hmin & Href & Hqueue & _ & _).
  set (k1 := att _ p i s). assert (Hd : idevs k1 !! p = Some (pd s)) by (unfold k1, att; destruct (with_irq _ _ _ _); apply lookup_insert_eq).
  assert (Hf : infos k1 !! i = Some (pf s)) by (unfold k1, att; destruct (with_irq _ _ _ _); apply lookup_insert_eq).
  assert (Hirq : has_irq (pf s) = has_irq info /\ info_irq (pf s) = info_irq info).
  { pose proof (f_equal info_irq (su_info _ _ _ _ _ _ _ Hsu)) as E. cbn in E. unfold has_irq. now rewrite E. }
  destruct Hirq as [Hh Hirq].
  eexists. split.
  - apply (unregister_run k1 p i (pd s) (pf s) (kobjs k) Hd Hf Hi (su_link _ _ _ _ _ _ _ Hsu)
      (wf_info_strip _ _ (su_info _ _ _ _ _ _ _ Hsu) Hwf)).
    + apply (has_attributes_irrelevant _ s); try reflexivity; [unfold k1, att; now destruct (with_irq _ _ _ _)|].
      exact (su_attributes _ _ _ _ _ _ _ Hsu).
    + rewrite Hh, Hirq. intros E. unfold k1, att, with_irq. rewrite E. unfold with_minor. destruct k. cbn. set_solver.
  - exists (pa s), (pn s), (pf s). split; [|split; [exact (su_info _ _ _ _ _ _ _ Hsu)|pose proof (su_next _ _ _ _ _ _ _ Hsu); lia]].
    unfold unregistered. rewrite Href, Hqueue, Hmin, Hh, Hirq. cbn [Z.eqb Pos.eqb map]. rewrite app_nil_r.
    assert (Hfil : filter (fun x => x <> (info_irq info, p)) ((info_irq info, p) :: irqs k) = irqs k).
    { rewrite filter_cons_False by tauto. apply filter_all. intros x Hx ->. now apply (Hq (info_irq info)). }
    unfold k1, att, with_irq, with_minor. destruct (has_irq info), k; cbn -[filter] in *;
      now rewrite ?Hfil, !delete_insert_id by assumption.
Qed.

(** C19: whatever the kernel answers, registering a device returns, never touches a freed object,
    and either fails with everything given back, or succeeds with the smallest free minor, the
    device named after it; unregistering the device then gives everything back. When one of the
    answers taken ([used]) is an error code, it fails. *)
Theorem registration_is_undone k owner parent i info :
  infos k !! i = Some info -> wf_info info -> numbers_fresh k ->
  let m := lowest_free (uio_idr k) (size (uio_idr k)) 0 in
  exists ret k1, __uio_register_device owner (Some parent) (Some i) k = (Ok ret, k1) /\
    (exists used, answers k = used ++ answers k1 /\ (Exists (fun a => a < 0) used -> ret <> 0)) /\
    (ret <> 0 -> given_back i info k k1) /\
    (ret = 0 -> uio_idr k1 = <[m := next k]> (uio_idr k) /\ uio_idr k !! m = None /\
      (exists d, idevs k1 !! next k = Some d /\ dev_name d = str "uio" ++ fmt_int m /\ dev_info d = Some i) /\
      exists k2, uio_unregister_device (Some i) k1 = (Ok tt, k2) /\ given_back i info k k2).
Proof.
  intros Hinfo Hwf Hfresh m. destruct (register_run k owner parent i info Hinfo Hwf Hfresh) as (ret & k1 & Hr & Hout).
  exists ret, k1. split; [exact Hr|]. split; [exact (reports_errors _ _ _ _ _ (register_reports _ _ _) Hr)|]. destruct Hout as [[Hret Hg]|(-> & s & -> & Hsu)]; [easy|]. split; [easy|]. intros _.
  fold m in Hsu |- *. split; [unfold with_irq, with_minor, att; destruct k, (has_irq info); reflexivity|].
  split; [apply lowest_free_free|]. split.
  - exists (pd s). split; [unfold att; destruct (with_irq _ _ _ _); apply lookup_insert_eq|].
    split; [exact (f_equal dev_name (su_dev _ _ _ _ _ _ _ Hsu))|exact (f_equal dev_info (su_dev _ _ _ _ _ _ _ Hsu))].
  - apply (unregister_set_up _ owner); auto.
    + apply (fresh_idevs k Hfresh). lia.
    + apply lowest_free_free.
    + intros q. apply (fresh_irqs k Hfresh). lia.
Qed.

(** A description like the one of the shared memory device, with an interrupt. *)
Definition no_mem : uio_mem := mkMem None 0 0 0 UIO_MEM_NONE None.
Definition no_port : uio_port := mkPort None 0 0 0 None.
Definition demo_info : uio_info :=
  mkInfo None (Some (str "uio_ivshmem")) (Some (str "0.0.1"))
    (mkMem (Some (str "shmem")) 4294967296 0 16777216 UIO_MEM_PHYS None :: replicate 4 no_mem) (replicate 5 no_port) 11
    true false false false false.
(** The module of number 7 is loaded. *)
Definition demo_kernel : kernel := mkKernel [] 10 ∅ ∅ {[0%nat := demo_info]} ∅ ∅ [] {[7%nat := 0]} [] [] 0 None true [].

Lemma demo_kernel_fresh : numbers_fresh demo_kernel.
Proof. split; intros; apply lookup_empty || apply not_elem_of_nil. Qed.

Lemma registration_is_undone_witness :
  exists ret k1, __uio_register_device 7 (Some 3%nat) (Some 0%nat) demo_kernel = (Ok ret, k1) /\
    (ret = 0 -> exists k2, uio_unregister_device (Some 0%nat) k1 = (Ok tt, k2) /\ given_back 0 demo_info demo_kernel k2).
Proof.
  destruct (registration_is_undone demo_kernel 7 3 0 demo_info eq_refl ltac:(now split) demo_kernel_fresh) as (ret & k1 & Hr & _ & _ & Hok).
  exists ret, k1. split; [exact Hr|]. intros E. now apply Hok.
Defined.
