(* ===== verification/UioSafe.v ===== *)
(** The operations of uio.c in any order keep the reference counts, the minors, the interrupts
    and the sysfs objects consistent, and never follow a pointer to a freed object. *)
From Stdlib Require Import String.
From S2P Require Import Prelude Fmt Uio UioFile UioLife.

(** ** Listeners of a device *)

Definition count (p : nat) (L : gmap nat uio_listener) : nat := size (filter (fun x => lis_dev (snd x) = p) L).

Lemma count_insert p L l lis : L !! l = None ->
  count p (<[l := lis]> L) = (count p L + if decide (lis_dev lis = p) then 1 else 0)%nat.
Proof.
  intros Hl. unfold count. destruct (decide (lis_dev lis = p)) as [E|E].
  - rewrite map_filter_insert_True by exact E. rewrite map_size_insert_None; [lia|].
    apply map_lookup_filter_None. now left.
  - rewrite map_filter_insert_False by exact E. rewrite delete_id by exact Hl. lia.
Qed.

Lemma count_delete p L l lis : L !! l = Some lis ->
  count p L = (count p (delete l L) + if decide (lis_dev lis = p) then 1 else 0)%nat.
Proof. intros Hl. rewrite <- (insert_delete_id L l lis Hl) at 1. apply count_insert, lookup_delete_eq. Qed.

Lemma count_update p L l lis lis' : L !! l = Some lis -> lis_dev lis' = lis_dev lis -> count p (<[l := lis']> L) = count p L.
Proof.
  intros Hl E. rewrite <- insert_delete_eq. rewrite count_insert by apply lookup_delete_eq.
  now rewrite (count_delete p L l lis Hl), E.
Qed.

(** ** The invariant *)

(** The device [d] with the description [f] has its sysfs objects, the objects [ids]. *)
Definition attrs (O : gmap nat kobject) (d : uio_device) (f : uio_info) (ids : list nat) : Prop :=
  exists ms ps, has_objs Maps f ms /\ has_objs Portios f ps /\
    loop_outcome Maps f (LoopEnd (length ms)) ms /\ loop_outcome Portios f (LoopEnd (length ps)) ps /\
    ids = (ps ++ option_list (dev_portio_dir d)) ++ (ms ++ option_list (dev_map_dir d)) /\
    NoDup ids /\ forall x, x ∈ ids -> exists t, O !! x = Some (mkKobj t 1).

(** The components of a kernel state the invariant is about. *)
Section Invariant.
Context (n : nat) (O : gmap nat kobject) (D : gmap nat uio_device) (I : gmap nat uio_info) (L : gmap nat uio_listener)
  (R : gmap Z nat) (Q : list (Z * nat)) (Mo : gmap nat Z).

(** Device [p] is registered as [d] with the description [f] at [i]. *)
Definition registered (p i : nat) (d : uio_device) (f : uio_info) : Prop :=
  D !! p = Some d /\ dev_info d = Some i /\ I !! i = Some f.

Definition is_registered (d : uio_device) : Z := match dev_info d with Some _ => 1 | None => 0 end.

Record uio_ok : Prop := {
  ok_fresh : forall x, (n <= x)%nat -> O !! x = None /\ D !! x = None /\ L !! x = None;
  ok_listener : forall l lis, L !! l = Some lis -> is_Some (D !! lis_dev lis);
  ok_refs : forall p d, D !! p = Some d -> dev_refs d = is_registered d + Z.of_nat (count p L) /\ 1 <= dev_refs d;
  ok_owner : forall p d, D !! p = Some d -> is_Some (Mo !! dev_owner d);
  ok_info : forall p d i, D !! p = Some d -> dev_info d = Some i -> exists f, I !! i = Some f /\
    info_uio_dev f = Some p /\ wf_info f /\ (has_irq f = true -> info_handler f = true);
  ok_idr : forall m p, R !! m = Some p <-> exists d i, D !! p = Some d /\ dev_minor d = m /\ dev_info d = Some i;
  ok_irqs : forall q p, (q, p) ∈ Q <-> exists d i f, registered p i d f /\ has_irq f = true /\ info_irq f = q;
  ok_attrs : exists ids : nat -> list nat,
    (forall p i d f, registered p i d f -> attrs O d f (ids p)) /\
    (forall p q i j d e f g, registered p i d f -> registered q j e g -> p <> q -> ids p ## ids q);
}.

Lemma ok_info_of p i d : uio_ok -> D !! p = Some d -> dev_info d = Some i -> exists f, registered p i d f.
Proof. intros Hok Hd Hi. destruct (ok_info Hok p d i Hd Hi) as (f & Hf & _). now exists f. Qed.

(** Two registered devices have different descriptions. *)
Lemma ok_info_unique p q d e i f g : uio_ok -> registered p i d f -> registered q i e g -> p = q.
Proof.
  intros Hok (Hd & Hi & Hf) (He & Hj & Hg). destruct (ok_info Hok p d i Hd Hi) as (f' & Hf' & Hl & _).
  destruct (ok_info Hok q e i He Hj) as (g' & Hg' & Hl' & _). congruence.
Qed.
End Invariant.

Definition uio_inv (k : kernel) : Prop :=
  uio_ok (next k) (kobjs k) (idevs k) (infos k) (listeners k) (uio_idr k) (irqs k) (modules k).

(** Numbers may be skipped. *)
Lemma ok_next n n' O D I L R Q Mo : (n <= n')%nat -> uio_ok n O D I L R Q Mo -> uio_ok n' O D I L R Q Mo.
Proof. intros Hn [A B C E F G H K]. split; try assumption. intros x Hx. apply A. lia. Qed.

(** A device may change in what the invariant does not speak of. *)
Definition same_role (d d' : uio_device) : Prop :=
  dev_owner d' = dev_owner d /\ dev_minor d' = dev_minor d /\ dev_info d' = dev_info d /\
  dev_map_dir d' = dev_map_dir d /\ dev_portio_dir d' = dev_portio_dir d.

(** Listeners come and go with the references of their device. *)
Lemma ok_update n O D I L L' R Q Mo p d d' :
  uio_ok n O D I L R Q Mo -> D !! p = Some d -> same_role d d' ->
  (forall x, (n <= x)%nat -> L' !! x = None) ->
  (forall l lis, L' !! l = Some lis -> lis_dev lis = p \/ exists lis0, L !! l = Some lis0 /\ lis_dev lis0 = lis_dev lis) ->
  (forall q, q <> p -> count q L' = count q L) -> dev_refs d' = is_registered d' + Z.of_nat (count p L') -> 1 <= dev_refs d' ->
  uio_ok n O (<[p := d']> D) I L' R Q Mo.
Proof.
  intros Hok Hd (Eo & Em & Ei & Emd & Epd) HL' Hlis Hcnt Href Hpos.
  assert (Hlook : forall q e, <[p := d']> D !! q = Some e <-> (q = p /\ e = d') \/ (q <> p /\ D !! q = Some e)).
  { intros q e. rewrite lookup_insert_Some. intuition congruence. }
  assert (Hreg : forall q j e f, registered (<[p := d']> D) I q j e f <->
    q = p /\ e = d' /\ registered D I p j d f \/ q <> p /\ registered D I q j e f).
  { unfold registered. intros q j e f. rewrite Hlook. split.
    - intros ([[-> ->]|[Hne H1]] & H2 & H3); [left|right]; rewrite ?Ei in *; auto.
    - intros [(-> & -> & H1 & H2 & H3)|(Hne & H1 & H2 & H3)]; rewrite ?Ei; auto. }
  destruct Hok as [F A B C E G H (ids & K1 & K2)]. split.
  - intros x Hx. destruct (F x Hx) as (H1 & H2 & _). split; [exact H1|]. split; [|now apply HL'].
    rewrite lookup_insert_ne by congruence. exact H2.
  - intros l lis Hl. apply lookup_insert_is_Some'. destruct (Hlis l lis Hl) as [->|(lis0 & Hl0 & <-)]; [now left|].
    right. now apply (A l).
  - intros q e He. apply Hlook in He as [[-> ->]|[Hne He]]; [easy|]. rewrite Hcnt by exact Hne. now apply B.
  - intros q e He. apply Hlook in He as [[-> ->]|[Hne He]]; [rewrite Eo; now apply (C p)|now apply (C q)].
  - intros q e j He Hj. apply Hlook in He as [[-> ->]|[Hne He]]; [apply (E p d); congruence|now apply (E q e)].
  - intros m q. rewrite G. split; intros (e & j & He & Hm & Hj).
    + destruct (decide (q = p)) as [->|Hne]; [|exists e, j; rewrite Hlook; auto].
      replace e with d in * by congruence. exists d', j. rewrite Hlook, Em, Ei. auto.
    + apply Hlook in He as [[-> ->]|[_ He]]; [|eauto]. exists d, j. rewrite <- Em, <- Ei. auto.
  - intros q x. rewrite H. split; intros (e & j & f & H1 & H2 & H3).
    + destruct (decide (x = p)) as [->|Hne].
      * exists d', j, f. split; [|auto]. apply Hreg. left. destruct H1 as (H1 & ?). replace e with d in * by congruence. easy.
      * exists e, j, f. split; [apply Hreg|]; auto.
    + apply Hreg in H1 as [(-> & -> & H1)|(_ & H1)]; eauto 6.
  - exists ids. split.
    + intros q j e f H1. apply Hreg in H1 as [(-> & -> & H1)|(_ & H1)]; [|eauto]. specialize (K1 _ _ _ _ H1).
      unfold attrs in *. now rewrite Emd, Epd.
    + intros q x i j e e' f g H1 H2 Hne.
      apply Hreg in H1 as [(-> & -> & H1)|(Hn1 & H1)], H2 as [(-> & -> & H2)|(Hn2 & H2)]; eauto; contradiction.
Qed.

(** A device may change in what the invariant does not speak of. *)
Lemma ok_same_role n O D I L R Q Mo p d d' :
  uio_ok n O D I L R Q Mo -> D !! p = Some d -> same_role d d' -> dev_refs d' = dev_refs d ->
  uio_ok n O (<[p := d']> D) I L R Q Mo.
Proof.
  intros Hok Hd Hr Eref. apply (ok_update n O D I L L R Q Mo p d d' Hok Hd Hr); auto.
  - intros x Hx. now apply (ok_fresh _ _ _ _ _ _ _ _ Hok).
  - intros l lis Hl. right. eauto.
  - destruct Hr as (_ & _ & Ei & _). unfold is_registered. rewrite Eref, Ei. now apply (ok_refs _ _ _ _ _ _ _ _ Hok).
  - rewrite Eref. now apply (ok_refs _ _ _ _ _ _ _ _ Hok p d).
Qed.

Lemma ok_modules n O D I L R Q Mo Mo' :
  uio_ok n O D I L R Q Mo -> (forall o, is_Some (Mo !! o) -> is_Some (Mo' !! o)) -> uio_ok n O D I L R Q Mo'.
Proof. intros [F A B C E G H K] Hm. split; try assumption. intros p d Hd. apply Hm. now apply (C p). Qed.

(** A device that is not registered goes with its last listener. *)
Lemma ok_drop n O D I L L' R Q Mo p d :
  uio_ok n O D I L R Q Mo -> D !! p = Some d -> dev_info d = None ->
  (forall l lis, L' !! l = Some lis -> L !! l = Some lis /\ lis_dev lis <> p) -> (forall q, q <> p -> count q L' = count q L) ->
  uio_ok n O (delete p D) I L' R Q Mo.
Proof.
  intros [F A B C E G H (ids & K1 & K2)] Hd Hnone Hsub Hcnt.
  assert (Hlook : forall q e, delete p D !! q = Some e <-> q <> p /\ D !! q = Some e).
  { intros q e. rewrite lookup_delete_Some. intuition congruence. }
  assert (Hreg : forall q j e f, registered (delete p D) I q j e f <-> registered D I q j e f).
  { unfold registered. intros q j e f. rewrite Hlook. split; [tauto|]. intros (H1 & H2 & H3). split; [|auto].
    split; [|exact H1]. intros ->. congruence. }
  split.
  - intros x Hx. destruct (F x Hx) as (H1 & H2 & H3). split; [exact H1|]. split; [apply lookup_delete_None; now right|].
    destruct (L' !! x) eqn:E'; [|reflexivity]. apply Hsub in E' as [E' _]. congruence.
  - intros l lis Hl. apply Hsub in Hl as [Hl Hne]. destruct (A l lis Hl) as [e He]. exists e. now apply Hlook.
  - intros q e He. apply Hlook in He as [Hne He]. rewrite Hcnt by exact Hne. now apply B.
  - intros q e He. apply Hlook in He as [_ He]. now apply (C q).
  - intros q e j He. apply Hlook in He as [_ He]. now apply E.
  - intros m q. rewrite G. split; intros (e & j & He & Hm & Hj).
    + exists e, j. rewrite Hlook. split; [|easy]. split; [|exact He]. intros ->. congruence.
    + apply Hlook in He as [_ He]. eauto.
  - intros q x. rewrite H. setoid_rewrite Hreg. reflexivity.
  - exists ids. setoid_rewrite Hreg. auto.
Qed.

(** ** Opening and closing *)

Lemma deref_run {A} (heap : kernel -> gmap nat A) x a k : heap k !! x = Some a -> deref heap x k = (Ok a, k).
Proof. unfold deref. now intros ->. Qed.

Lemma ask_run k : exists a rest, ask k = (Ok a, set_answers rest k).
Proof. unfold ask. destruct k as [[|a rest]]; [exists 0, []|exists a, rest]; reflexivity. Qed.

(** The state in which a file is open at [l], and the one in which only answers and numbers were used. *)
Definition opened (k : kernel) (p l : nat) (d : uio_device) (c : Z) : kernel :=
  set_listeners (<[l := mkListener p (dev_event d)]> (listeners k))
    (set_modules (<[dev_owner d := c + 1]> (modules k)) (set_idevs (<[p := set_refs (dev_refs d + 1) d]> (idevs k)) k)).
Definition spent (k k' : kernel) : Prop := exists a n, (next k <= n)%nat /\ k' = set_answers a (set_next n k).

Lemma spent_refl k : spent k k.
Proof. exists (answers k), (next k). split; [lia|]. now destruct k. Qed.

Lemma spent_inv k k' : spent k k' -> uio_inv k -> uio_inv k'.
Proof.
  intros (a & n & Hn & ->) Hinv. unfold uio_inv in *. destruct k. cbn in *. now apply (ok_next next).
Qed.

Lemma set_refs_back d : set_refs (dev_refs (set_refs (dev_refs d + 1) d) - 1) (set_refs (dev_refs d + 1) d) = d.
Proof. destruct d. unfold set_refs. cbn. f_equal. lia. Qed.

(** The error exits of [uio_open] undo what was done. *)
Lemma err_module_get_run k p d ret :
  idevs k !! p = Some d -> 1 <= dev_refs d ->
  err_module_get p ret (set_idevs (<[p := set_refs (dev_refs d + 1) d]> (idevs k)) k) = (Ok (inl ret), k).
Proof.
  intros Hd Hr. unfold err_module_get, put_device. set (k1 := set_idevs _ k).
  assert (H1 : deref idevs p k1 = (Ok (set_refs (dev_refs d + 1) d), k1))
    by (apply deref_run; unfold k1; destruct k; apply lookup_insert_eq).
  rewrite bindM_assoc, (bindM_run _ _ _ _ _ H1). cbn [set_refs dev_refs]. rewrite (proj2 (Z.eqb_neq (dev_refs d + 1) 1)) by lia.
  unfold upd_idev. rewrite bindM_assoc, (bindM_run _ _ _ _ _ H1), set_refs_back. unfold bindM, modifyM, retM, k1.
  destruct k. cbn in *. now rewrite insert_insert_eq, insert_id.
Qed.

Lemma err_alloc_listener_run k p d c ret :
  idevs k !! p = Some d -> 1 <= dev_refs d -> modules k !! dev_owner d = Some c ->
  err_alloc_listener p ret (set_modules (<[dev_owner d := c + 1]> (modules k))
    (set_idevs (<[p := set_refs (dev_refs d + 1) d]> (idevs k)) k)) = (Ok (inl ret), k).
Proof.
  intros Hd Hr Hm. unfold err_alloc_listener. set (k1 := set_modules _ _).
  rewrite (bindM_run _ _ _ k1 (set_refs (dev_refs d + 1) d)) by (apply deref_run; unfold k1; destruct k; apply lookup_insert_eq).
  unfold module_put. rewrite bindM_assoc.
  rewrite (bindM_run _ _ _ k1 (c + 1)) by (apply deref_run; unfold k1; destruct k; cbn; apply lookup_insert_eq).
  rewrite (bindM_run _ _ _ (set_idevs (<[p := set_refs (dev_refs d + 1) d]> (idevs k)) k) tt).
  - now apply err_module_get_run.
  - unfold modifyM, k1. destruct k. cbn in *. now rewrite insert_insert_eq, Z.add_simpl_r, (insert_id _ (dev_owner d) c).
Qed.

Lemma err_infoopen_run k p l d c ret :
  idevs k !! p = Some d -> 1 <= dev_refs d -> modules k !! dev_owner d = Some c -> listeners k !! l = None ->
  err_infoopen p l ret (opened k p l d c) = (Ok (inl ret), k).
Proof.
  intros Hd Hr Hm Hl. unfold err_infoopen, kfree_listener. rewrite bindM_assoc.
  rewrite (bindM_run _ _ _ (opened k p l d c) (mkListener p (dev_event d)))
    by (apply deref_run; unfold opened; destruct k; apply lookup_insert_eq).
  rewrite (bindM_run _ _ _ (set_modules (<[dev_owner d := c + 1]> (modules k))
    (set_idevs (<[p := set_refs (dev_refs d + 1) d]> (idevs k)) k)) tt).
  - now apply err_alloc_listener_run.
  - unfold modifyM, opened. destruct k. cbn in *. now rewrite delete_insert_id.
Qed.

Lemma kmalloc_run k : exists rest, kmalloc k = (Ok None, set_answers rest k) \/
  kmalloc k = (Ok (Some (next k)), set_answers rest (set_next (S (next k)) k)).
Proof.
  destruct (ask_run k) as (a & rest & Ha). exists rest. unfold kmalloc. rewrite (bindM_run _ _ _ _ _ Ha).
  destruct (a =? 0); [right|left]; [|reflexivity]. unfold bindM, fresh_id, retM. now destruct k.
Qed.

(** Opening fails without a trace or yields a new listener. *)
Lemma uio_open_run k minor : uio_inv k ->
  exists r k', uio_open minor k = (Ok r, k') /\
    match r with
    | inl ret => ret <> 0 /\ spent k k'
    | inr l => exists k1 p d c i, spent k k1 /\ uio_idr k !! minor = Some p /\ idevs k !! p = Some d /\ dev_info d = Some i /\
        modules k !! dev_owner d = Some c /\ l = next k /\ (next k < next k1)%nat /\ k' = opened k1 p l d c
    end.
Proof.
  intros Hinv. unfold uio_open, idr_find. unfold bindM at 1. unfold bindM at 1. cbn [getM retM].
  destruct (uio_idr k !! minor) as [p|] eqn:Hidr; [|exists (inl (- ENODEV)), k; split; [reflexivity|]; split; [discriminate|apply spent_refl]].
  destruct (proj1 (ok_idr _ _ _ _ _ _ _ _ Hinv minor p) Hidr) as (d & i & Hd & _ & Hi).
  destruct (ok_refs _ _ _ _ _ _ _ _ Hinv p d Hd) as [_ Href]. destruct (ok_owner _ _ _ _ _ _ _ _ Hinv p d Hd) as [c Hc].
  unfold get_device, upd_idev. rewrite bindM_assoc, (bindM_run _ _ _ _ _ (deref_run idevs p d k Hd)).
  set (k1 := set_idevs (<[p := set_refs (dev_refs d + 1) d]> (idevs k)) k).
  rewrite (bindM_run _ _ _ k1 tt) by reflexivity.
  assert (H1 : deref idevs p k1 = (Ok (set_refs (dev_refs d + 1) d), k1)) by (apply deref_run; unfold k1; destruct k; apply lookup_insert_eq).
  rewrite (bindM_run _ _ _ _ _ H1). set (k2 := set_modules (<[dev_owner d := c + 1]> (modules k)) k1).
  assert (Hg : try_module_get (dev_owner (set_refs (dev_refs d + 1) d)) k1 = (Ok true, k2)).
  { unfold try_module_get, bindM, getM. replace (modules k1) with (modules k) by (unfold k1; now destruct k). cbn [set_refs dev_owner].
    rewrite Hc. reflexivity. }
  rewrite (bindM_run _ _ _ _ _ Hg). cbn [negb]. destruct (kmalloc_run k2) as (a & [Ha|Ha]); rewrite (bindM_run _ _ _ _ _ Ha).
  { exists (inl (- ENOMEM)), (set_answers a k). split; [|split; [discriminate|exists a, (next k); split; [lia|now destruct k]]].
    pose proof (err_alloc_listener_run (set_answers a k) p d c (- ENOMEM)) as He.
    replace (set_answers a k2) with (set_modules (<[dev_owner d := c + 1]> (modules (set_answers a k)))
      (set_idevs (<[p := set_refs (dev_refs d + 1) d]> (idevs (set_answers a k))) (set_answers a k))) by (unfold k2, k1; now destruct k).
    destruct k. now apply He. }
  replace (next k2) with (next k) by (unfold k2, k1; now destruct k). set (l := next k).
  set (k3 := set_answers a (set_next (S l) k)).
  assert (Hk3 : spent k k3 /\ next k3 = S l) by (split; [exists a, (S l); split; [unfold l; lia|reflexivity]|unfold k3; now destruct k]).
  replace (set_answers a (set_next (S l) k2)) with (set_modules (<[dev_owner d := c + 1]> (modules k3))
    (set_idevs (<[p := set_refs (dev_refs d + 1) d]> (idevs k3)) k3)) by (unfold k3, k2, k1; now destruct k).
  rewrite (bindM_run _ _ _ (set_modules (<[dev_owner d := c + 1]> (modules k3)) (set_idevs (<[p := set_refs (dev_refs d + 1) d]> (idevs k3)) k3))
    (set_refs (dev_refs d + 1) d)) by (apply deref_run; unfold k3; destruct k; apply lookup_insert_eq).
  rewrite (bindM_run _ _ _ (opened k3 p l d c) tt) by (unfold modifyM, opened, k3; now destruct k).
  cbn [set_refs dev_info]. rewrite Hi. destruct (ok_info _ _ _ _ _ _ _ _ Hinv p d i Hd Hi) as (f & Hf & _).
  rewrite (bindM_run _ _ _ (opened k3 p l d c) f) by (apply deref_run; unfold opened, k3; now destruct k).
  assert (Hl : listeners k !! l = None) by (apply (ok_fresh _ _ _ _ _ _ _ _ Hinv); unfold l; lia).
  assert (Hret : exists ret rest, (if info_open f then ask else retM 0) (opened k3 p l d c) = (Ok ret, opened (set_answers rest k3) p l d c)).
  { destruct (info_open f).
    - destruct (ask_run (opened k3 p l d c)) as (ret & rest & Hr). exists ret, rest. rewrite Hr. unfold opened, k3. now destruct k.
    - exists 0, a. unfold retM, k3. now destruct k. }
  destruct Hret as (ret & rest & Hret). rewrite (bindM_run _ _ _ _ _ Hret). set (k4 := set_answers rest k3).
  assert (H4 : spent k k4 /\ next k4 = S l) by (split; [exists rest, (S l); split; [unfold l; lia|unfold k4, k3; now destruct k]|unfold k4, k3; now destruct k]).
  destruct H4 as [H4 Hn4]. destruct (Z.eqb_spec ret 0) as [->|Hne]; cbn [negb].
  - exists (inr l), (opened k4 p l d c). split; [reflexivity|]. exists k4, p, d, c, i. fold l. rewrite Hn4.
    repeat (split; [assumption || lia || reflexivity|]). reflexivity.
  - exists (inl ret), k4. split; [|easy]. apply err_infoopen_run; unfold k4, k3; destruct k; assumption.
Qed.

Lemma opened_inv k p l d c i :
  uio_inv k -> (l < next k)%nat -> listeners k !! l = None -> idevs k !! p = Some d -> dev_info d = Some i -> uio_inv (opened k p l d c).
Proof.
  intros Hinv Hlt Hl Hd Hi. destruct (ok_refs _ _ _ _ _ _ _ _ Hinv p d Hd) as [Hr Hr1].
  assert (Hok : uio_ok (next k) (kobjs k) (<[p := set_refs (dev_refs d + 1) d]> (idevs k)) (infos k)
    (<[l := mkListener p (dev_event d)]> (listeners k)) (uio_idr k) (irqs k) (modules k)).
  { apply (ok_update _ _ _ _ _ _ _ _ _ p d _ Hinv Hd); [easy| | | | |cbn; lia].
    - intros x Hx. rewrite lookup_insert_ne by lia. now apply (ok_fresh _ _ _ _ _ _ _ _ Hinv).
    - intros l' lis Hl'. apply lookup_insert_Some in Hl' as [[-> <-]|[_ Hl']]; [now left|right; eauto].
    - intros q Hq. rewrite count_insert by exact Hl. cbn. rewrite decide_False by congruence. lia.
    - rewrite count_insert by exact Hl. cbn [set_refs dev_refs lis_dev]. rewrite decide_True by reflexivity.
      unfold is_registered in *. cbn [set_refs dev_info]. lia. }
  unfold uio_inv, opened. destruct k. cbn in *. apply (ok_modules _ _ _ _ _ _ _ _ _ Hok). intros o Ho.
  apply lookup_insert_is_Some'. now right.
Qed.

(** What closing does to the parts of the state. *)
Definition closed (k : kernel) (l p : nat) (d : uio_device) (c : Z) : kernel :=
  set_idevs (if dev_refs d =? 1 then delete p (idevs k) else <[p := set_refs (dev_refs d - 1) d]> (idevs k))
    (set_listeners (delete l (listeners k)) (set_modules (<[dev_owner d := c - 1]> (modules k)) k)).

Lemma put_device_run k p d : idevs k !! p = Some d ->
  put_device p k = (Ok tt, set_idevs (if dev_refs d =? 1 then delete p (idevs k) else <[p := set_refs (dev_refs d - 1) d]> (idevs k)) k).
Proof.
  intros Hd. unfold put_device. rewrite (bindM_run _ _ _ _ _ (deref_run idevs p d k Hd)). destruct (dev_refs d =? 1).
  - unfold uio_device_release. now rewrite (bindM_run _ _ _ _ _ (deref_run idevs p d k Hd)).
  - unfold upd_idev. now rewrite (bindM_run _ _ _ _ _ (deref_run idevs p d k Hd)).
Qed.

Lemma uio_release_run k l lis : uio_inv k -> listeners k !! l = Some lis ->
  exists ret k1 d c, uio_release l k = (Ok ret, closed k1 l (lis_dev lis) d c) /\ spent k k1 /\
    idevs k !! lis_dev lis = Some d /\ modules k !! dev_owner d = Some c.
Proof.
  intros Hinv Hl. destruct (ok_listener _ _ _ _ _ _ _ _ Hinv l lis Hl) as [d Hd]. set (p := lis_dev lis) in *.
  destruct (ok_owner _ _ _ _ _ _ _ _ Hinv p d Hd) as [c Hc]. unfold uio_release. rewrite (bindM_run _ _ _ _ _ (deref_run listeners l lis k Hl)).
  fold p. rewrite (bindM_run _ _ _ _ _ (deref_run idevs p d k Hd)).
  assert (Hret : exists ret k1, spent k k1 /\ (match dev_info d with
      | Some i => let* info := deref infos i in if info_release info then ask else retM 0 | None => retM 0 end) k = (Ok ret, k1)).
  { destruct (dev_info d) as [i|] eqn:Hi; [|exists 0, k; split; [apply spent_refl|reflexivity]].
    destruct (ok_info _ _ _ _ _ _ _ _ Hinv p d i Hd Hi) as (f & Hf & _). rewrite (bindM_run _ _ _ _ _ (deref_run infos i f k Hf)).
    destruct (info_release f); [|exists 0, k; split; [apply spent_refl|reflexivity]].
    destruct (ask_run k) as (a & rest & Ha). exists a, (set_answers rest k). split; [|exact Ha]. exists rest, (next k). split; [lia|now destruct k]. }
  destruct Hret as (ret & k1 & Hs & Hr). rewrite (bindM_run _ _ _ _ _ Hr). exists ret, k1, d, c. split; [|easy].
  assert (Hk1 : listeners k1 = listeners k /\ idevs k1 = idevs k /\ modules k1 = modules k)
    by (destruct Hs as (a & n & _ & ->); now destruct k).
  destruct Hk1 as (HL & HD & HM). unfold module_put. rewrite bindM_assoc, (bindM_run _ _ _ k1 c) by (apply deref_run; now rewrite HM).
  set (k2 := set_modules (<[dev_owner d := c - 1]> (modules k1)) k1). rewrite (bindM_run _ _ _ k2 tt) by reflexivity.
  unfold kfree_listener. rewrite bindM_assoc, (bindM_run _ _ _ k2 lis) by (apply deref_run; unfold k2; destruct k1; cbn in *; congruence).
  set (k3 := set_listeners (delete l (listeners k1)) k2). rewrite (bindM_run _ _ _ k3 tt) by (unfold modifyM, k3, k2; now destruct k1).
  rewrite (bindM_run _ _ _ (closed k1 l p d c) tt); [reflexivity|]. rewrite (put_device_run k3 p d).
  - unfold closed, k3, k2. now destruct k1.
  - unfold k3, k2. destruct k1. cbn in *. congruence.
Qed.

Lemma closed_inv k l lis d c :
  uio_inv k -> listeners k !! l = Some lis -> idevs k !! lis_dev lis = Some d -> uio_inv (closed k l (lis_dev lis) d c).
Proof.
  intros Hinv Hl Hd. set (p := lis_dev lis) in *. destruct (ok_refs _ _ _ _ _ _ _ _ Hinv p d Hd) as [Hr Hr1].
  assert (Hcp : count p (listeners k) = S (count p (delete l (listeners k))))
    by (rewrite (count_delete p _ l lis Hl); rewrite decide_True by reflexivity; lia).
  assert (Hcq : forall q, q <> p -> count q (delete l (listeners k)) = count q (listeners k)).
  { intros q Hq. rewrite (count_delete q (listeners k) l lis Hl), decide_False by (unfold p in Hq; congruence). lia. }
  assert (Hok : uio_ok (next k) (kobjs k) (if dev_refs d =? 1 then delete p (idevs k) else <[p := set_refs (dev_refs d - 1) d]> (idevs k))
    (infos k) (delete l (listeners k)) (uio_idr k) (irqs k) (modules k)).
  { destruct (Z.eqb_spec (dev_refs d) 1) as [E|E].
    - apply (ok_drop _ _ _ _ (listeners k) _ _ _ _ p d Hinv Hd); [|..|exact Hcq].
      + unfold is_registered in Hr. destruct (dev_info d); [lia|reflexivity].
      + intros l' lis' Hl'. apply lookup_delete_Some in Hl' as [Hne Hl']. split; [exact Hl'|]. intros Ep.
        assert (Hz : count p (delete l (listeners k)) = 0%nat) by (unfold is_registered in Hr; destruct (dev_info d); lia).
        rewrite (count_delete p _ l' lis'), decide_True in Hz by (assumption || now apply lookup_delete_Some). lia.
    - apply (ok_update _ _ _ _ (listeners k) _ _ _ _ p d _ Hinv Hd); [easy| | |exact Hcq|cbn|cbn; lia].
      + intros x Hx. apply lookup_delete_None. right. now apply (ok_fresh _ _ _ _ _ _ _ _ Hinv).
      + intros l' lis' Hl'. apply lookup_delete_Some in Hl' as [_ Hl']. right. eauto.
      + unfold is_registered in *. cbn [set_refs dev_info]. lia. }
  unfold uio_inv, closed. destruct k. cbn in *. apply (ok_modules _ _ _ _ _ _ _ _ _ Hok). intros o Ho.
  apply lookup_insert_is_Some'. now right.
Qed.

(** ** Registering and unregistering *)

Lemma inv_numbers_fresh k : uio_inv k -> numbers_fresh k.
Proof.
  intros Hinv. split.
  - intros x Hx. now apply (ok_fresh _ _ _ _ _ _ _ _ Hinv).
  - intros x Hx. now apply (ok_fresh _ _ _ _ _ _ _ _ Hinv).
  - intros q x Hx Hin. apply (ok_irqs _ _ _ _ _ _ _ _ Hinv) in Hin as (d & i & f & (Hd & _) & _).
    destruct (ok_fresh _ _ _ _ _ _ _ _ Hinv x Hx) as (_ & Hn & _). congruence.
Qed.

(** Removing the objects [ids] from [O]. *)
Definition remove_all (ids : list nat) (O : gmap nat kobject) : gmap nat kobject := foldr delete O ids.

Lemma lookup_remove_all ids O x : remove_all ids O !! x = if decide (x ∈ ids) then None else O !! x.
Proof.
  induction ids as [|y ids IH]; cbn [remove_all foldr]; [now rewrite decide_False by set_solver|].
  fold (remove_all ids O). destruct (decide (x = y)) as [->|Hne].
  - rewrite lookup_delete_eq. now rewrite decide_True by set_solver.
  - rewrite lookup_delete_ne, IH by congruence. destruct (decide (x ∈ ids)); [now rewrite decide_True by set_solver|].
    now rewrite decide_False by set_solver.
Qed.

Lemma attrs_owned O d f ids k : attrs O d f ids -> kobjs k = O -> has_attributes (remove_all ids O) (parts_of k d f).
Proof.
  intros (ms & ps & Hm & Hp & Hlm & Hlp & Hids & Hnd & Hone) Hk. exists ms, ps. do 4 (split; [assumption|]).
  unfold region_ids. cbn. rewrite <- Hids, Hk. split; [exact Hnd|]. split.
  - intros x Hx. rewrite lookup_remove_all, decide_True by exact Hx. auto.
  - intros x Hx. now rewrite lookup_remove_all, decide_False by exact Hx.
Qed.

Lemma owned_attrs O0 s : has_attributes O0 s ->
  exists ids, attrs (po s) (pd s) (pf s) ids /\ (forall x, x ∈ ids -> O0 !! x = None) /\ (forall x, x ∉ ids -> po s !! x = O0 !! x).
Proof.
  intros (ms & ps & Hm & Hp & Hlm & Hlp & Hnd & Hin & Hout). eexists. split; [|split; [|exact Hout]].
  - exists ms, ps. do 4 (split; [assumption|]). split; [reflexivity|]. split; [exact Hnd|]. intros x Hx. now apply Hin.
  - intros x Hx. now apply Hin.
Qed.

Lemma attrs_mono O O' d f ids : (forall x, x ∈ ids -> O' !! x = O !! x) -> attrs O d f ids -> attrs O' d f ids.
Proof.
  intros HO (ms & ps & H1 & H2 & H3 & H4 & Hids & Hnd & Hone). exists ms, ps. do 6 (split; [assumption|]).
  intros x Hx. rewrite HO by exact Hx. auto.
Qed.

(** What a driver must have prepared: a description that is not registered yet, with a handler
    when there is an interrupt, and its module loaded. *)
Record registrable (k : kernel) (owner i : nat) (f : uio_info) : Prop := {
  rg_info : infos k !! i = Some f;
  rg_free : info_uio_dev f = None;
  rg_wf : wf_info f;
  rg_handler : has_irq f = true -> info_handler f = true;
  rg_owner : is_Some (modules k !! owner);
}.

Lemma ok_register n n' O O' D I L R Q Mo p i m d f f0 ids :
  uio_ok n O D I L R Q Mo -> (n <= p < n')%nat -> I !! i = Some f0 -> info_uio_dev f0 = None -> R !! m = None ->
  info_uio_dev f = Some p -> wf_info f -> (has_irq f = true -> info_handler f = true) ->
  dev_refs d = 1 -> dev_minor d = m -> dev_info d = Some i -> is_Some (Mo !! dev_owner d) ->
  attrs O' d f ids -> (forall x, x ∈ ids -> O !! x = None) -> (forall x, x ∉ ids -> O' !! x = O !! x) ->
  (forall x, (n' <= x)%nat -> O' !! x = None) ->
  uio_ok n' O' (<[p := d]> D) (<[i := f]> I) L (<[m := p]> R) (if has_irq f then (info_irq f, p) :: Q else Q) Mo.
Proof.
  intros Hok [Hp Hp'] HI Hfree HR Hlink Hwf Hh Hr Hm Hi Ho Hattr Hnew Hold Hu.
  assert (Hpn : D !! p = None) by (apply (ok_fresh _ _ _ _ _ _ _ _ Hok); lia).
  assert (Hlook : forall q e, <[p := d]> D !! q = Some e <-> (q = p /\ e = d) \/ (q <> p /\ D !! q = Some e)).
  { intros q e. rewrite lookup_insert_Some. intuition congruence. }
  assert (Hni : forall q e j, D !! q = Some e -> dev_info e = Some j -> j <> i).
  { intros q e j He Hj ->. destruct (ok_info _ _ _ _ _ _ _ _ Hok q e i He Hj) as (f' & Hf' & Hl' & _). congruence. }
  assert (Hreg : forall q j e g, registered (<[p := d]> D) (<[i := f]> I) q j e g <->
    q = p /\ j = i /\ e = d /\ g = f \/ q <> p /\ registered D I q j e g).
  { unfold registered. intros q j e g. rewrite Hlook. split.
    - intros ([[-> ->]|[Hne H1]] & H2 & H3).
      + left. rewrite Hi in H2. injection H2 as <-. rewrite lookup_insert_eq in H3. now injection H3 as <-.
      + right. rewrite lookup_insert_ne in H3 by (symmetry; eapply Hni; eassumption). easy.
    - intros [(-> & -> & -> & ->)|(Hne & H1 & H2 & H3)]; [rewrite lookup_insert_eq; auto|].
      rewrite lookup_insert_ne by (symmetry; eapply Hni; eassumption). auto. }
  assert (Hnol : count p L = 0%nat).
  { unfold count. apply map_size_empty_iff, map_empty_filter_2. intros l lis Hl E. cbn in E.
    destruct (ok_listener _ _ _ _ _ _ _ _ Hok l lis Hl) as [e He]. congruence. }
  destruct Hok as [F A B C E' G H (idf & K1 & K2)]. split.
  - intros x Hx. destruct (F x ltac:(lia)) as (_ & H2 & H3). split; [now apply Hu|]. split; [|exact H3].
    rewrite lookup_insert_ne by lia. exact H2.
  - intros l lis Hl. apply lookup_insert_is_Some'. right. now apply (A l).
  - intros q e He. apply Hlook in He as [[-> ->]|[_ He]]; [|now apply B]. unfold is_registered. rewrite Hi, Hnol. lia.
  - intros q e He. apply Hlook in He as [[-> ->]|[_ He]]; [exact Ho|now apply (C q)].
  - intros q e j He Hj. apply Hlook in He as [[-> ->]|[_ He]].
    + rewrite Hi in Hj. injection Hj as <-. exists f. rewrite lookup_insert_eq. auto.
    + rewrite lookup_insert_ne by (symmetry; eapply Hni; eassumption). now apply (E' q e).
  - intros m' q. rewrite lookup_insert_Some. split.
    + intros [[<- <-]|[Hne Hq]]; [exists d, i; rewrite Hlook; auto|].
      apply G in Hq as (e & j & He & Hrest). exists e, j. rewrite Hlook. split; [|exact Hrest]. right. split; [congruence|exact He].
    + intros (e & j & He & Hmin & Hj). apply Hlook in He as [[-> ->]|[Hne He]]; [left; split; congruence|].
      assert (Hq : R !! m' = Some q) by (apply G; eauto). right. split; [congruence|exact Hq].
  - intros q x. assert (Hx : (q, x) ∈ (if has_irq f then (info_irq f, p) :: Q else Q) <->
      (q, x) ∈ Q \/ has_irq f = true /\ q = info_irq f /\ x = p).
    { destruct (has_irq f); [|naive_solver]. rewrite elem_of_cons. naive_solver. }
    rewrite Hx, H. setoid_rewrite Hreg. split.
    + intros [(e & j & g & H1 & H2 & H3)|(H1 & -> & ->)]; [|exists d, i, f; naive_solver].
      exists e, j, g. split; [|auto]. right. split; [|exact H1]. destruct H1 as (H1 & _). congruence.
    + intros (e & j & g & [(-> & -> & -> & ->)|(Hne & H1)] & H2 & H3); [right; auto|left; eauto 8].
  - exists (fun q => if decide (q = p) then ids else idf q). setoid_rewrite Hreg. split.
    + intros q j e g [(-> & -> & -> & ->)|(Hne & H1)]; [now rewrite decide_True|]. rewrite decide_False by exact Hne.
      apply (attrs_mono O); [|eauto]. intros x Hx. apply Hold. intros Hx'.
      destruct (K1 _ _ _ _ H1) as (ms & ps & _ & _ & _ & _ & _ & _ & Hone). destruct (Hone x Hx) as [t Ht].
      rewrite (Hnew x Hx') in Ht. discriminate.
    + assert (Hdis : forall q j e g, registered D I q j e g -> ids ## idf q).
      { intros q j e g H1 x Hx Hx'. destruct (K1 _ _ _ _ H1) as (ms & ps & _ & _ & _ & _ & _ & _ & Hone).
        destruct (Hone x Hx') as [t Ht]. rewrite (Hnew x Hx) in Ht. discriminate. }
      intros q x j j' e e' g g' [(-> & _)|(Hn1 & H1)] [(-> & _)|(Hn2 & H2)] Hne; try contradiction;
        rewrite ?(decide_True _ _ eq_refl), ?(decide_False _ _ Hn1), ?(decide_False _ _ Hn2).
      * eapply Hdis; eassumption.
      * intros z Hz Hz'. exact (Hdis _ _ _ _ H1 z Hz' Hz).
      * eapply K2; eassumption.
Qed.

(** After unregistering, device [p] is not registered, the others are as before. *)
Lemma registered_cleared D I p d d' D' :
  D !! p = Some d -> dev_info d' = None -> D' = delete p D \/ D' = <[p := d']> D ->
  forall q j e g, registered D' I q j e g <-> q <> p /\ registered D I q j e g.
Proof.
  intros Hd Hnone HD q j e g. unfold registered. destruct HD as [-> | ->]; [rewrite lookup_delete_Some|rewrite lookup_insert_Some].
  - intuition congruence.
  - split; [|intuition congruence]. intros ([[<- <-]|[Hne H1]] & H2 & H3); [congruence|]. intuition congruence.
Qed.

Lemma ok_unregister n O D I L R Q Mo p i d f :
  uio_ok n O D I L R Q Mo -> registered D I p i d f ->
  exists ids, attrs O d f ids /\
    uio_ok n (remove_all ids O)
      (if dev_refs d =? 1 then delete p D else <[p := set_refs (dev_refs d - 1) (set_added false (clear_info d))]> D)
      I L (delete (dev_minor d) R) (if has_irq f then filter (fun x => x <> (info_irq f, p)) Q else Q) Mo.
Proof.
  intros Hok Hpreg. pose proof Hpreg as (Hd & Hi & Hf). set (d' := set_refs _ _). set (D' := if _ : bool then _ else _).
  destruct (ok_refs _ _ _ _ _ _ _ _ Hok p d Hd) as [Hr Hr1]. unfold is_registered in Hr. rewrite Hi in Hr.
  assert (HD : D' = delete p D \/ D' = <[p := d']> D) by (unfold D'; destruct (_ =? _); auto).
  pose proof (registered_cleared D I p d d' D' Hd eq_refl HD) as Hreg.
  assert (Hlook : forall q e, D' !! q = Some e <-> q = p /\ e = d' /\ dev_refs d <> 1 \/ q <> p /\ D !! q = Some e).
  { intros q e. unfold D'. destruct (Z.eqb_spec (dev_refs d) 1); [rewrite lookup_delete_Some|rewrite lookup_insert_Some]; intuition congruence. }
  destruct Hok as [F A B C E G H (idf & K1 & K2)]. exists (idf p). split; [now apply (K1 p i)|]. split.
  - intros x Hx. destruct (F x Hx) as (H1 & H2 & H3). rewrite lookup_remove_all. split; [now destruct (decide _)|].
    split; [|exact H3]. destruct (D' !! x) as [e|] eqn:E'; [|reflexivity]. apply Hlook in E' as [(-> & _)|[_ E']]; congruence.
  - intros l lis Hl. destruct (A l lis Hl) as [e He]. destruct (decide (lis_dev lis = p)) as [E'|Hne]; [|exists e; apply Hlook; auto].
    exists d'. apply Hlook. left. split; [exact E'|]. split; [reflexivity|].
    rewrite (count_delete p L l lis Hl), decide_True in Hr by exact E'. lia.
  - intros q e He. apply Hlook in He as [(-> & -> & Hne)|[_ He]]; [|now apply B]. cbn. unfold is_registered. cbn. lia.
  - intros q e He. apply Hlook in He as [(-> & -> & Hne)|[_ He]]; [now apply (C p d)|now apply (C q)].
  - intros q e j He Hj. apply Hlook in He as [(-> & -> & Hne)|[_ He]]; [discriminate|]. now apply (E q e).
  - intros m q. rewrite lookup_delete_Some, G. split.
    + intros (Hne & e & j & He & Hm & Hj). exists e, j. rewrite Hlook. split; [|auto]. right. split; [congruence|exact He].
    + intros (e & j & He & Hm & Hj). apply Hlook in He as [(-> & -> & _)|[Hne He]]; [discriminate|]. split; [|eauto].
      intros Em. assert (H1 : R !! m = Some q) by (apply G; eauto). assert (H2 : R !! m = Some p) by (apply G; eauto). congruence.
  - intros q x. setoid_rewrite Hreg.
    assert (Hx : (q, x) ∈ (if has_irq f then filter (fun y => y <> (info_irq f, p)) Q else Q) <-> (q, x) ∈ Q /\ x <> p).
    { split.
      - intros Hin. assert (HQ : (q, x) ∈ Q) by (destruct (has_irq f); [apply list_elem_of_filter in Hin|]; tauto).
        split; [exact HQ|]. intros ->. apply H in HQ as (e & j & g & (H1 & H2 & H3) & H4 & H5).
        assert (j = i) as -> by congruence. assert (g = f) as -> by congruence. rewrite H4 in Hin.
        apply list_elem_of_filter in Hin as [Hin _]. congruence.
      - intros [HQ Hne]. destruct (has_irq f); [|exact HQ]. apply list_elem_of_filter. split; [congruence|exact HQ]. }
    rewrite Hx, H. naive_solver.
  - exists idf. setoid_rewrite Hreg. split; [|intros; eapply K2; intuition eassumption].
    intros q j e g [Hne H1]. apply (attrs_mono O); [|eauto]. intros x Hx. rewrite lookup_remove_all, decide_False; [reflexivity|].
    intros Hx'. exact (K2 _ _ _ _ _ _ _ _ H1 Hpreg Hne x Hx Hx').
Qed.

(** A description that no device has may change. *)
Lemma ok_unused_info n O D I L R Q Mo i f' :
  uio_ok n O D I L R Q Mo -> (forall f, I !! i = Some f -> info_uio_dev f = None) -> uio_ok n O D (<[i := f']> I) L R Q Mo.
Proof.
  intros Hok Hfree.
  assert (Hni : forall p d, D !! p = Some d -> dev_info d <> Some i).
  { intros p d Hd Hi. destruct (ok_info _ _ _ _ _ _ _ _ Hok p d i Hd Hi) as (g & Hg & Hl & _). rewrite (Hfree g Hg) in Hl. discriminate. }
  assert (Hreg : forall q j e g, registered D (<[i := f']> I) q j e g <-> registered D I q j e g).
  { unfold registered. intros q j e g. split; intros (H1 & H2 & H3); (split; [exact H1|]; split; [exact H2|]).
    - rewrite lookup_insert_ne in H3; [exact H3|]. intros <-. exact (Hni _ _ H1 H2).
    - rewrite lookup_insert_ne; [exact H3|]. intros <-. exact (Hni _ _ H1 H2). }
  destruct Hok as [F A B C E G H (ids & K1 & K2)]. split; try assumption.
  - intros p d j Hd Hj. rewrite lookup_insert_ne; [now apply (E p d)|]. intros <-. exact (Hni _ _ Hd Hj).
  - intros q p. rewrite H. setoid_rewrite Hreg. reflexivity.
  - exists ids. setoid_rewrite Hreg. auto.
Qed.

Lemma set_up_inv k owner i f s : uio_inv k -> registrable k owner i f ->
  let p := next k in let m := lowest_free (uio_idr k) (size (uio_idr k)) 0 in
  set_up k owner p i m f s -> uio_inv (att (with_irq k p m f) p i s).
Proof.
  intros Hinv [Hf Hfree Hwf Hh Ho] p m Hsu. destruct (set_up_fields _ _ _ _ _ _ _ Hsu) as (Hi & Hmin & Href & _ & _ & How).
  destruct (owned_attrs _ _ (su_attributes _ _ _ _ _ _ _ Hsu)) as (ids & Hattr & Hnew & Hold).
  pose proof (su_info _ _ _ _ _ _ _ Hsu) as Hs.
  assert (Hirq : has_irq (pf s) = has_irq f /\ info_irq (pf s) = info_irq f /\ info_handler (pf s) = info_handler f).
  { pose proof (f_equal info_irq Hs) as E. pose proof (f_equal info_handler Hs) as E'. cbn in E, E'. unfold has_irq. now rewrite E. }
  destruct Hirq as (E1 & E2 & E3).
  assert (Hok : uio_ok (pn s) (po s) (<[p := pd s]> (idevs k)) (<[i := pf s]> (infos k)) (listeners k) (<[m := p]> (uio_idr k))
    (if has_irq (pf s) then (info_irq (pf s), p) :: irqs k else irqs k) (modules k)).
  { pose proof (su_next _ _ _ _ _ _ _ Hsu) as Hn.
    eapply (ok_register (next k) _ (kobjs k) _ _ _ _ _ _ _ p i m (pd s) (pf s) f ids Hinv); try eassumption.
    - unfold p in *. lia.
    - apply lowest_free_free.
    - exact (su_link _ _ _ _ _ _ _ Hsu).
    - exact (wf_info_strip _ _ Hs Hwf).
    - rewrite E1, E3. exact Hh.
    - now rewrite How.
    - exact (su_unused _ _ _ _ _ _ _ Hsu). }
  rewrite E1, E2 in Hok. unfold uio_inv, att, with_irq, with_minor. destruct (has_irq f), k; exact Hok.
Qed.

Lemma register_inv k owner parent i f : uio_inv k -> registrable k owner i f ->
  exists ret k', __uio_register_device owner (Some parent) (Some i) k = (Ok ret, k') /\ uio_inv k'.
Proof.
  intros Hinv Hrg. destruct (register_run k owner parent i f (rg_info _ _ _ _ Hrg) (rg_wf _ _ _ _ Hrg) (inv_numbers_fresh k Hinv))
    as (ret & k' & Hr & Hout).
  exists ret, k'. split; [exact Hr|]. destruct Hout as [[_ (a & n & f' & -> & Hs & Hn)]|(-> & s & -> & Hsu)]; [|exact (set_up_inv k owner i f s Hinv Hrg Hsu)].
  assert (Hfree : forall g, infos k !! i = Some g -> info_uio_dev g = None) by (destruct Hrg; intros; congruence).
  pose proof (ok_next _ n _ _ _ _ _ _ _ Hn (ok_unused_info _ _ _ _ _ _ _ _ i f' Hinv Hfree)) as Hok.
  unfold uio_inv. destruct k. exact Hok.
Qed.

Lemma unregister_inv k p i d f : uio_inv k -> registered (idevs k) (infos k) p i d f ->
  exists k', uio_unregister_device (Some i) k = (Ok tt, k') /\ uio_inv k'.
Proof.
  intros Hinv Hreg. destruct (ok_unregister _ _ _ _ _ _ _ _ p i d f Hinv Hreg) as (ids & Hattr & Hok).
  pose proof Hreg as (Hd & Hi & Hf). destruct (ok_info _ _ _ _ _ _ _ _ Hinv p d i Hd Hi) as (g & Hg & Hlink & Hwf & _).
  replace g with f in * by congruence. eexists. split.
  - apply (unregister_run k p i d f (remove_all ids (kobjs k)) Hd Hf Hi Hlink Hwf (attrs_owned _ _ _ _ _ Hattr eq_refl)).
    intros Hirq. apply (ok_irqs _ _ _ _ _ _ _ _ Hinv). eauto 6.
  - unfold uio_inv, unregistered. destruct k. exact Hok.
Qed.

(** ** Every operation, in any order *)

Inductive uio_op : Type :=
| OpRegister (owner parent i : nat)
| OpUnregister (i : nat)
| OpOpen (minor : Z)
| OpClose (l : nat)
| OpInterrupt (p : nat)
| OpRead (l : nat) (nonblock signal : bool)
| OpPoll (l : nat)
| OpWrite (l : nat) (count : Z) (irq_on : option Z)
| OpFasync (l : nat) (on : bool)
| OpMmap (l : nat) (v : vm_area).

Definition discard {A} (m : M kernel A) : M kernel unit := let* _ := m in retM tt.
Definition run_op (op : uio_op) : M kernel unit :=
  match op with
  | OpRegister owner parent i => discard (__uio_register_device owner (Some parent) (Some i))
  | OpUnregister i => uio_unregister_device (Some i)
  | OpOpen minor => discard (uio_open minor)
  | OpClose l => discard (close_file l)
  | OpInterrupt p => discard (uio_interrupt p)
  | OpRead l nonblock signal => discard (read_pass l nonblock signal)
  | OpPoll l => discard (uio_poll l)
  | OpWrite l count irq_on => discard (uio_write l count irq_on)
  | OpFasync l on => discard (uio_fasync l on)
  | OpMmap l v => discard (uio_mmap l v)
  end.

(** When an operation may happen: drivers register a description once and unregister what they
    registered, interrupts come while they are requested, calls on files come for open files.
    Page offsets of mappings are not negative. *)
Definition allowed (k : kernel) (op : uio_op) : Prop :=
  match op with
  | OpRegister owner _ i => exists f, registrable k owner i f
  | OpUnregister i => exists p d f, registered (idevs k) (infos k) p i d f
  | OpOpen _ => True
  | OpInterrupt p => exists q, (q, p) ∈ irqs k
  | OpMmap l v => is_Some (listeners k !! l) /\ 0 <= vm_pgoff v
  | OpClose l | OpRead l _ _ | OpPoll l | OpWrite l _ _ | OpFasync l _ => is_Some (listeners k !! l)
  end.

Definition safe {A} (m : M kernel A) (k : kernel) : Prop := exists a k', m k = (Ok a, k') /\ uio_inv k'.

Lemma safe_discard {A} (m : M kernel A) k : safe m k -> safe (discard m) k.
Proof. intros (a & k' & Hm & Hk). exists tt, k'. unfold discard. now rewrite (bindM_run _ _ _ _ _ Hm). Qed.

Lemma safe_ret {A} (a : A) k : uio_inv k -> safe (retM a) k.
Proof. intros H. now exists a, k. Qed.

Lemma safe_bind {A B} (m : M kernel A) (g : A -> M kernel B) k k1 a :
  m k = (Ok a, k1) -> safe (g a) k1 -> safe (bindM m g) k.
Proof. intros Hm (b & k2 & Hg & Hk). exists b, k2. now rewrite (bindM_run _ _ _ _ _ Hm). Qed.

Lemma safe_ask {A} (g : Z -> M kernel A) k : uio_inv k -> (forall a k1, spent k k1 -> uio_inv k1 -> safe (g a) k1) -> safe (bindM ask g) k.
Proof.
  intros Hk Hg. destruct (ask_run k) as (a & rest & Ha). apply (safe_bind _ _ _ _ _ Ha).
  assert (Hs : spent k (set_answers rest k)) by (exists rest, (next k); split; [lia|now destruct k]).
  apply Hg; [exact Hs|]. exact (spent_inv _ _ Hs Hk).
Qed.

Lemma upd_idev_safe k p d g : uio_inv k -> idevs k !! p = Some d -> same_role d (g d) -> dev_refs (g d) = dev_refs d ->
  upd_idev p g k = (Ok tt, set_idevs (<[p := g d]> (idevs k)) k) /\ uio_inv (set_idevs (<[p := g d]> (idevs k)) k).
Proof.
  intros Hk Hd Hr Href. split.
  - unfold upd_idev. now rewrite (bindM_run _ _ _ _ _ (deref_run idevs p d k Hd)).
  - unfold uio_inv in *. destruct k. cbn in *. now apply (ok_same_role _ _ _ _ _ _ _ _ p d).
Qed.

(** The device of an open file. *)
Lemma listener_device k l lis : uio_inv k -> listeners k !! l = Some lis -> exists d, idevs k !! lis_dev lis = Some d.
Proof. intros Hk Hl. exact (ok_listener _ _ _ _ _ _ _ _ Hk l lis Hl). Qed.

Lemma no_irq_run k p d : uio_inv k -> idevs k !! p = Some d -> exists b, no_irq p k = (Ok b, k).
Proof.
  intros Hk Hd. unfold no_irq. rewrite (bindM_run _ _ _ _ _ (deref_run idevs p d k Hd)).
  destruct (dev_info d) as [i|] eqn:Hi; [|now exists true].
  destruct (ok_info _ _ _ _ _ _ _ _ Hk p d i Hd Hi) as (f & Hf & _). rewrite (bindM_run _ _ _ _ _ (deref_run infos i f k Hf)).
  now eexists.
Qed.

Lemma interrupt_safe k p q : uio_inv k -> (q, p) ∈ irqs k -> safe (uio_interrupt p) k.
Proof.
  intros Hk Hq. apply (ok_irqs _ _ _ _ _ _ _ _ Hk) in Hq as (d & i & f & (Hd & Hi & Hf) & Hirq & _).
  destruct (ok_info _ _ _ _ _ _ _ _ Hk p d i Hd Hi) as (g & Hg & Hlink & _ & Hh). replace g with f in * by congruence.
  assert (Hii : idev_info p k = (Ok (i, f), k)).
  { unfold idev_info. rewrite (bindM_run _ _ _ _ _ (deref_run idevs p d k Hd)), Hi. rewrite (bindM_run _ _ k k i) by reflexivity.
    now rewrite (bindM_run _ _ _ _ _ (deref_run infos i f k Hf)). }
  apply (safe_bind _ _ _ _ _ Hii). apply (safe_bind _ _ k k tt); [now rewrite Hh|]. apply safe_ask; [exact Hk|].
  intros a k1 (rest & n & _ & ->) Hk1. set (k1 := set_answers rest (set_next n k)) in *.
  assert (H1 : idevs k1 !! p = Some d /\ infos k1 !! i = Some f) by (unfold k1; now destruct k). destruct H1 as [Hd1 Hf1].
  destruct (a =? IRQ_HANDLED); [|apply (safe_bind _ _ k1 k1 tt); [reflexivity|now apply safe_ret]].
  destruct (upd_idev_safe k1 p d (fun d => set_event (s32 (dev_event d + 1)) d) Hk1 Hd1) as [Hu Hk2]; [easy..|].
  set (k2 := set_idevs _ k1) in *. set (k3 := set_signals (signals k2 ++ map (fun x => (x, POLL_IN)) (dev_async_queue d)) k2).
  apply (safe_bind _ _ _ k3 tt).
  - unfold uio_event_notify. rewrite (bindM_run _ _ _ _ _ (deref_run infos i f k1 Hf1)), Hlink.
    rewrite (bindM_run _ _ k1 k1 p), (bindM_run _ _ _ _ _ Hu) by reflexivity. unfold kill_fasync.
    rewrite (bindM_run _ _ k2 k2 (set_event (s32 (dev_event d + 1)) d)); [reflexivity|].
    apply deref_run. unfold k2. destruct k1. apply lookup_insert_eq.
  - apply safe_ret. unfold uio_inv in *. unfold k3. now destruct k2.
Qed.

Lemma set_count_inv k l lis e : uio_inv k -> listeners k !! l = Some lis ->
  uio_inv (set_listeners (<[l := mkListener (lis_dev lis) e]> (listeners k)) k).
Proof.
  intros Hk Hl. destruct (listener_device k l lis Hk Hl) as [d Hd]. destruct (ok_refs _ _ _ _ _ _ _ _ Hk _ d Hd) as [Hr Hr1].
  assert (Hc : forall q, count q (<[l := mkListener (lis_dev lis) e]> (listeners k)) = count q (listeners k))
    by (intros q; now apply (count_update q _ l lis)).
  assert (Hok : uio_ok (next k) (kobjs k) (<[lis_dev lis := d]> (idevs k)) (infos k)
    (<[l := mkListener (lis_dev lis) e]> (listeners k)) (uio_idr k) (irqs k) (modules k)).
  { apply (ok_update _ _ _ _ _ _ _ _ _ _ d d Hk Hd); [easy| | |now intros|now rewrite Hc|exact Hr1].
    - intros x Hx. rewrite lookup_insert_ne; [now apply (ok_fresh _ _ _ _ _ _ _ _ Hk)|]. intros <-.
      destruct (ok_fresh _ _ _ _ _ _ _ _ Hk l Hx) as (_ & _ & Hn). congruence.
    - intros l' lis' Hl'. apply lookup_insert_Some in Hl' as [[<- <-]|[_ Hl']]; [now left|right; eauto]. }
  unfold uio_inv. rewrite insert_id in Hok by exact Hd. destruct k. exact Hok.
Qed.

Lemma read_pass_safe k l nonblock signal : uio_inv k -> is_Some (listeners k !! l) -> safe (read_pass l nonblock signal) k.
Proof.
  intros Hk [lis Hl]. destruct (listener_device k l lis Hk Hl) as [d Hd]. destruct (no_irq_run k _ d Hk Hd) as [dead Hn].
  apply (safe_bind _ _ _ _ _ (deref_run listeners l lis k Hl)), (safe_bind _ _ _ _ _ Hn). destruct dead; [now apply safe_ret|].
  apply (safe_bind _ _ _ _ _ (deref_run idevs _ d k Hd)). cbv beta zeta. destruct (dev_event d =? lis_event_count lis); cbn [negb].
  - destruct nonblock; [|destruct signal]; now apply safe_ret.
  - apply safe_ask; [exact Hk|]. intros a k1 (rest & n & _ & ->) Hk1. destruct (a =? 0); cbn [negb]; [|now apply safe_ret].
    eapply safe_bind; [reflexivity|]. apply safe_ret, set_count_inv; [exact Hk1|]. now destruct k.
Qed.

Lemma poll_safe k l : uio_inv k -> is_Some (listeners k !! l) -> safe (uio_poll l) k.
Proof.
  intros Hk [lis Hl]. destruct (listener_device k l lis Hk Hl) as [d Hd]. destruct (no_irq_run k _ d Hk Hd) as [dead Hn].
  apply (safe_bind _ _ _ _ _ (deref_run listeners l lis k Hl)), (safe_bind _ _ _ _ _ Hn). destruct dead; [now apply safe_ret|].
  apply (safe_bind _ _ _ _ _ (deref_run idevs _ d k Hd)). destruct (negb _); now apply safe_ret.
Qed.

Lemma write_safe k l n v : uio_inv k -> is_Some (listeners k !! l) -> safe (uio_write l n v) k.
Proof.
  intros Hk [lis Hl]. destruct (listener_device k l lis Hk Hl) as [d Hd]. apply (safe_bind _ _ _ _ _ (deref_run listeners l lis k Hl)).
  destruct (negb (n =? 4)); [now apply safe_ret|]. destruct v; [|now apply safe_ret].
  apply (safe_bind _ _ _ _ _ (deref_run idevs _ d k Hd)). destruct (dev_info d) as [i|] eqn:Hi.
  - destruct (ok_info _ _ _ _ _ _ _ _ Hk _ d i Hd Hi) as (f & Hf & _).
    unfold safe. rewrite bindM_assoc, (bindM_run _ _ _ _ _ (deref_run infos i f k Hf)).
    destruct (info_irq f =? 0); [|destruct (negb (info_irqcontrol f))].
    + apply (safe_bind _ _ k k (- EIO)); [reflexivity|now apply safe_ret].
    + apply (safe_bind _ _ k k (- ENOSYS)); [reflexivity|now apply safe_ret].
    + apply safe_ask; [exact Hk|]. intros a k1 _ Hk1. now apply safe_ret.
  - apply (safe_bind _ _ k k (- EINVAL)); [reflexivity|now apply safe_ret].
Qed.

Lemma fasync_safe k l on : uio_inv k -> is_Some (listeners k !! l) ->
  exists ret k', uio_fasync l on k = (Ok ret, k') /\ uio_inv k' /\ listeners k' = listeners k.
Proof.
  intros Hk [lis Hl]. destruct (listener_device k l lis Hk Hl) as [d Hd]. unfold uio_fasync, fasync_helper.
  rewrite (bindM_run _ _ _ _ _ (deref_run listeners l lis k Hl)), (bindM_run _ _ _ _ _ (deref_run idevs _ d k Hd)).
  assert (Hq : forall k1 q (ret : Z), uio_inv k1 -> idevs k1 !! lis_dev lis = Some d -> listeners k1 = listeners k ->
    exists ret' k', (do* upd_idev (lis_dev lis) (set_queue q) in retM ret) k1 = (Ok ret', k') /\ uio_inv k' /\ listeners k' = listeners k).
  { intros k1 q ret Hk1 Hd1 Hl1. destruct (upd_idev_safe k1 _ d (set_queue q) Hk1 Hd1) as [Hu Hk2]; [easy..|].
    exists ret. eexists. rewrite (bindM_run _ _ _ _ _ Hu). split; [reflexivity|]. split; [exact Hk2|]. now destruct k1. }
  destruct on.
  - destruct (ask_run k) as (a & rest & Ha). rewrite (bindM_run _ _ _ _ _ Ha).
    assert (Hs : spent k (set_answers rest k)) by (exists rest, (next k); split; [lia|now destruct k]).
    pose proof (spent_inv _ _ Hs Hk) as Hk1.
    destruct (a =? 0); cbn [negb]; [|exists (- ENOMEM); eexists; split; [reflexivity|]; split; [exact Hk1|now destruct k]].
    destruct (bool_decide _); [exists 0; eexists; split; [reflexivity|]; split; [exact Hk1|now destruct k]|].
    apply Hq; [exact Hk1|now destruct k|now destruct k].
  - destruct (bool_decide _); [now apply Hq|]. exists 0, k. easy.
Qed.

Lemma idev_mem_run k p d i f n : idevs k !! p = Some d -> dev_info d = Some i -> infos k !! i = Some f -> wf_info f ->
  (n < MAX_UIO_MAPS)%nat -> exists mem, info_mem f !! n = Some mem /\ idev_mem p n k = (Ok mem, k).
Proof.
  intros Hd Hi Hf [Hm _] Hn. destruct (lookup_lt_is_Some_2 (info_mem f) n) as [mem Hmem]; [lia|]. exists mem. split; [exact Hmem|].
  unfold idev_mem, idev_info. rewrite bindM_assoc, (bindM_run _ _ _ _ _ (deref_run idevs p d k Hd)), Hi, bindM_assoc.
  rewrite (bindM_run _ _ k k i), bindM_assoc, (bindM_run _ _ _ _ _ (deref_run infos i f k Hf)) by reflexivity.
  rewrite (bindM_run _ _ k k (i, f)), Hmem by reflexivity. reflexivity.
Qed.

(** The index found is a region with a size, or -1. *)
Lemma find_mem_index_run k v p d i f :
  idevs k !! p = Some d -> dev_info d = Some i -> infos k !! i = Some f -> wf_info f -> vm_private_data v = Some p -> 0 <= vm_pgoff v ->
  exists mi, uio_find_mem_index v k = (Ok mi, k) /\
    (mi = -1 \/ mi = vm_pgoff v /\ 0 <= mi /\ exists mem, info_mem f !! Z.to_nat mi = Some mem /\ mem_size mem <> 0 /\
      idev_mem p (Z.to_nat mi) k = (Ok mem, k)).
Proof.
  intros Hd Hi Hf Hwf Hv Hpg. unfold uio_find_mem_index. rewrite Hv, (bindM_run _ _ k k p) by reflexivity.
  destruct (Z.ltb_spec (vm_pgoff v) (Z.of_nat MAX_UIO_MAPS)) as [Hlt|]; [|exists (-1); auto].
  destruct (idev_mem_run k p d i f (Z.to_nat (vm_pgoff v)) Hd Hi Hf Hwf ltac:(lia)) as (mem & Hmem & Hr).
  rewrite (bindM_run _ _ _ _ _ Hr). destruct (Z.eqb_spec (mem_size mem) 0); [exists (-1); auto|].
  exists (vm_pgoff v). split; [reflexivity|]. right. split; [reflexivity|]. split; [exact Hpg|]. eauto.
Qed.

Lemma mmap_safe k l v : uio_inv k -> is_Some (listeners k !! l) -> 0 <= vm_pgoff v -> safe (uio_mmap l v) k.
Proof.
  intros Hk [lis Hl] Hpg. destruct (listener_device k l lis Hk Hl) as [d Hd]. apply (safe_bind _ _ _ _ _ (deref_run listeners l lis k Hl)).
  cbv beta zeta. destruct (_ <? _); [now apply safe_ret|]. apply (safe_bind _ _ _ _ _ (deref_run idevs _ d k Hd)).
  destruct (dev_info d) as [i|] eqn:Hi; [|now apply safe_ret].
  destruct (ok_info _ _ _ _ _ _ _ _ Hk _ d i Hd Hi) as (f & Hf & _ & Hwf & _). set (v' := set_private (lis_dev lis) v).
  destruct (find_mem_index_run k v' _ d i f Hd Hi Hf Hwf eq_refl Hpg) as (mi & Hmi & Hcase).
  apply (safe_bind _ _ _ _ _ Hmi). destruct Hcase as [->|(-> & Hpos & mem & Hmem & _ & Hr)]; [now apply safe_ret|].
  rewrite (proj2 (Z.ltb_ge (vm_pgoff v') 0)) by exact Hpos. apply (safe_bind _ _ _ _ _ Hr). cbv beta zeta.
  destruct (_ <? _); [now apply safe_ret|]. apply (safe_bind _ _ _ _ _ (deref_run infos i f k Hf)).
  destruct (info_mmap f); [apply safe_ask; [exact Hk|]; intros; now apply safe_ret|].
  destruct (_ || _); [|destruct (_ || _); now apply safe_ret].
  unfold uio_mmap_physical. apply (safe_bind _ _ k k (lis_dev lis)); [reflexivity|].
  apply (safe_bind _ _ _ _ _ Hmi). rewrite (proj2 (Z.ltb_ge (vm_pgoff v') 0)) by exact Hpos. apply (safe_bind _ _ _ _ _ Hr).
  destruct (negb _); [now apply safe_ret|]. destruct (_ <? _); [now apply safe_ret|].
  apply safe_ask; [exact Hk|]. intros. now apply safe_ret.
Qed.

Lemma close_safe k l : uio_inv k -> is_Some (listeners k !! l) -> safe (close_file l) k.
Proof.
  intros Hk Hl. destruct (fasync_safe k l false Hk Hl) as (r & k1 & Hr & Hk1 & Hl1). destruct Hl as [lis Hl].
  apply (safe_bind _ _ _ k1 tt); [now rewrite (bindM_run _ _ _ _ _ Hr)|].
  destruct (uio_release_run k1 l lis Hk1 ltac:(now rewrite Hl1)) as (ret & k2 & d & c & Hrel & Hs & Hd & Hc).
  exists ret. eexists. split; [exact Hrel|]. pose proof (spent_inv _ _ Hs Hk1) as Hk2. destruct Hs as (a & n & _ & ->).
  apply closed_inv; [exact Hk2|destruct k1; cbn in *; congruence|now destruct k1].
Qed.

Lemma op_safe k op : uio_inv k -> allowed k op -> safe (run_op op) k.
Proof.
  intros Hk Ha. destruct op; cbn [run_op allowed] in *.
  - destruct Ha as [f Hf]. destruct (register_inv k owner parent i f Hk Hf) as (ret & k' & Hr & Hk'). apply safe_discard. now exists ret, k'.
  - destruct Ha as (p & d & f & Hreg). destruct (unregister_inv k p i d f Hk Hreg) as (k' & Hr & Hk'). now exists tt, k'.
  - apply safe_discard. destruct (uio_open_run k minor Hk) as (r & k' & Hr & Hout). exists r, k'. split; [exact Hr|].
    destruct r as [ret|l]; [exact (spent_inv _ _ (proj2 Hout) Hk)|].
    destruct Hout as (k1 & p & d & c & i & Hs & _ & Hd & Hi & Hc & -> & Hlt & ->). pose proof (spent_inv _ _ Hs Hk) as Hk1.
    pose proof (ok_fresh _ _ _ _ _ _ _ _ Hk (next k) ltac:(lia)) as (_ & _ & Hn).
    destruct Hs as (a & n & _ & ->). apply (opened_inv _ p _ d c i Hk1 Hlt); now destruct k.
  - now apply safe_discard, close_safe.
  - destruct Ha as [q Hq]. apply safe_discard. exact (interrupt_safe k p q Hk Hq).
  - now apply safe_discard, read_pass_safe.
  - now apply safe_discard, poll_safe.
  - now apply safe_discard, write_safe.
  - apply safe_discard. destruct (fasync_safe k l on Hk Ha) as (r & k' & Hr & Hk' & _). now exists r, k'.
  - destruct Ha. now apply safe_discard, mmap_safe.
Qed.

(** A step of the system: an allowed operation that ran to its end. *)
Definition uio_step (k k' : kernel) : Prop := exists op, allowed k op /\ run_op op k = (Ok tt, k').

Lemma steps_inv k k' : uio_inv k -> rtc uio_step k k' -> uio_inv k'.
Proof.
  intros Hk. induction 1 as [|k k1 k2 (op & Ha & Hr) _ IH]; [exact Hk|]. apply IH.
  destruct (op_safe k op Hk Ha) as ([] & k1' & Hr' & Hk1). congruence.
Qed.

(** C9: after any sequence of registrations, interrupts, opens, reads, writes, polls, mappings,
    closes and unregistrations, in whatever order they come and whatever the kernel answers,
    every further operation returns without following a pointer to a freed object; a device
    exists exactly as long as it is registered or a file on it is open, its count being the
    number of these; minors lead to the registered devices and to no others. *)
Theorem uio_operations_safe k k' :
  uio_inv k -> rtc uio_step k k' ->
  (forall op, allowed k' op -> exists k'', run_op op k' = (Ok tt, k'')) /\
  (forall p d, idevs k' !! p = Some d -> dev_refs d = is_registered d + Z.of_nat (count p (listeners k')) /\ 1 <= dev_refs d) /\
  (forall l lis, listeners k' !! l = Some lis -> is_Some (idevs k' !! lis_dev lis)) /\
  (forall m p, uio_idr k' !! m = Some p <-> exists d i, idevs k' !! p = Some d /\ dev_minor d = m /\ dev_info d = Some i).
Proof.
  intros Hk Hsteps. pose proof (steps_inv k k' Hk Hsteps) as Hk'. split.
  - intros op Ha. destruct (op_safe k' op Hk' Ha) as ([] & k'' & Hr & _). eauto.
  - split; [exact (ok_refs _ _ _ _ _ _ _ _ Hk')|]. split; [exact (ok_listener _ _ _ _ _ _ _ _ Hk')|exact (ok_idr _ _ _ _ _ _ _ _ Hk')].
Qed.

(** ** A device *)

Lemma empty_inv k :
  idevs k = ∅ -> listeners k = ∅ -> uio_idr k = ∅ -> irqs k = [] -> (forall x, (next k <= x)%nat -> kobjs k !! x = None) -> uio_inv k.
Proof.
  intros Hd Hl Hr Hq Ho. unfold uio_inv. rewrite Hd, Hl, Hr, Hq. split; try (intros; now rewrite lookup_empty in *).
  - intros x Hx. rewrite !lookup_empty. auto.
  - intros m p. rewrite lookup_empty. split; [discriminate|]. intros (d & i & H & _). now rewrite lookup_empty in H.
  - intros q p. split; [intros H; now apply not_elem_of_nil in H|]. intros (d & i & f & (H & _) & _). now rewrite lookup_empty in H.
  - exists (fun _ => []). split; intros p; intros; match goal with H : registered _ _ _ _ _ _ |- _ => destruct H as (H & _); now rewrite lookup_empty in H end.
Qed.

Lemma demo_kernel_inv : uio_inv demo_kernel.
Proof. now apply empty_inv. Qed.

Lemma demo_registrable : registrable demo_kernel 7 0 demo_info.
Proof. split; [reflexivity..|now split|reflexivity|now exists 0]. Qed.

Definition demo_registered : kernel := snd (run_op (OpRegister 7 0 0) demo_kernel).
Lemma demo_register_runs : run_op (OpRegister 7 0 0) demo_kernel = (Ok tt, demo_registered).
Proof. vm_compute. reflexivity. Qed.

Lemma demo_registered_inv : uio_inv demo_registered.
Proof.
  apply (steps_inv demo_kernel); [exact demo_kernel_inv|]. apply rtc_once. exists (OpRegister 7 0 0).
  split; [exists demo_info; exact demo_registrable|exact demo_register_runs].
Qed.

(** Registered, opened twice, closed once, interrupted and unregistered: the device is still
    there for the open file. *)
Lemma uio_operations_safe_witness :
  let k := snd (run_op (OpUnregister 0) (snd (run_op (OpClose 13) (snd (run_op (OpInterrupt 10) (snd (run_op (OpOpen 0)
    (snd (run_op (OpOpen 0) demo_registered))))))))) in
  (exists d, idevs k !! 10%nat = Some d /\ dev_refs d = 1) /\ exists k'', run_op (OpClose 14) k = (Ok tt, k'').
Proof.
  set (k1 := snd (run_op (OpOpen 0) demo_registered)). set (k2 := snd (run_op (OpOpen 0) k1)).
  set (k3 := snd (run_op (OpInterrupt 10) k2)). set (k4 := snd (run_op (OpClose 13) k3)).
  set (k5 := snd (run_op (OpUnregister 0) k4)).
  assert (Hsteps : rtc uio_step demo_registered k5).
  { apply (rtc_l _ _ k1); [exists (OpOpen 0); split; [exact I|vm_compute; reflexivity]|].
    apply (rtc_l _ _ k2); [exists (OpOpen 0); split; [exact I|vm_compute; reflexivity]|].
    apply (rtc_l _ _ k3); [exists (OpInterrupt 10); split; [exists 11; vm_compute; constructor|vm_compute; reflexivity]|].
    apply (rtc_l _ _ k4); [exists (OpClose 13); split; [eexists; vm_compute; reflexivity|vm_compute; reflexivity]|].
    apply rtc_once. exists (OpUnregister 0). split; [|vm_compute; reflexivity]. exists 10%nat. do 2 eexists.
    split; [vm_compute; reflexivity|]. split; vm_compute; reflexivity. }
  destruct (uio_operations_safe demo_registered k5 demo_registered_inv Hsteps) as (Hsafe & Hrefs & _).
  split; [|apply Hsafe; eexists; vm_compute; reflexivity]. eexists. split; [vm_compute; reflexivity|reflexivity].
Defined.
