(* ===== verification/UioMap.v ===== *)
(** What user space reaches through a mapping of uio.c, and the events it reads. *)
From Stdlib Require Import String.
From S2P Require Import Prelude Fmt Uio UioFile UioLife UioSafe.

(** ** Mappings *)

(** An area as the kernel's mmap hands it to the driver: page aligned, in the address space. *)
Record wf_area (v : vm_area) : Prop := {
  wa_start : 0 <= vm_start v;
  wa_end : vm_start v <= vm_end v < 2 ^ 64;
  wa_aligned : (vm_end v - vm_start v) mod 4096 = 0;
  wa_pgoff : 0 <= vm_pgoff v;
}.
(** A region that ends before the last page of the address space. *)
Definition wf_region (m : uio_mem) : Prop := 0 <= mem_addr m /\ 0 <= mem_size m /\ mem_addr m + mem_size m + 4096 <= 2 ^ 64.

(** Page [n] has a byte of the region, or lies in it. *)
Definition page_touches (m : uio_mem) (n : Z) : Prop := n * 4096 < mem_addr m + mem_size m /\ mem_addr m < (n + 1) * 4096.
Definition page_inside (m : uio_mem) (n : Z) : Prop := mem_addr m <= n * 4096 /\ (n + 1) * 4096 <= mem_addr m + mem_size m.

Lemma page_offset_mod a : page_offset a = a mod 4096.
Proof. unfold page_offset. change (UIO_PAGE_SIZE - 1) with (2 ^ 12 - 1). now rewrite land_mask by lia. Qed.

Lemma shiftr_page a : Z.shiftr a PAGE_SHIFT = a / 4096.
Proof. unfold PAGE_SHIFT. now rewrite shiftr_div by lia. Qed.

Lemma vma_pages_mult v : wf_area v -> vm_end v - vm_start v = vma_pages v * 4096.
Proof.
  intros [Hs He Ha _]. unfold vma_pages. rewrite shiftr_page, u64_small by (unfold in_u64; lia).
  pose proof (Z.div_mod (vm_end v - vm_start v) 4096). lia.
Qed.

Section Mapping.
Context (k : kernel) (p i l : nat) (d : uio_device) (f : uio_info) (mem : uio_mem) (v : vm_area).
Hypothesis Hd : idevs k !! p = Some d.
Hypothesis Hi : dev_info d = Some i.
Hypothesis Hf : infos k !! i = Some f.
Hypothesis Hwf : wf_info f.
Hypothesis Hv : wf_area v.
Hypothesis Hmem : info_mem f !! Z.to_nat (vm_pgoff v) = Some mem.
Hypothesis Hreg : wf_region mem.

Lemma fault_run v' j :
  vm_private_data v' = Some p -> vm_pgoff v' = vm_pgoff v -> vm_pgoff v < Z.of_nat MAX_UIO_MAPS -> mem_size mem <> 0 ->
  0 <= j -> j * 4096 < 2 ^ 64 - mem_addr mem ->
  exists pg, uio_vma_fault v' (vm_pgoff v' + j) k = (Ok (inr pg), k) /\
    pg = (if mem_memtype mem =? UIO_MEM_LOGICAL then LinearPage else VmallocPage) (mem_addr mem / 4096 + j).
Proof.
  intros Hp Hpg Hlt Hsz Hj Hb. pose proof (wa_pgoff v Hv) as Hpos. destruct Hreg as (Ha0 & Hs0 & Hend).
  unfold uio_vma_fault. rewrite Hp, (bindM_run _ _ k k p) by reflexivity.
  rewrite (bindM_run _ _ _ _ _ (deref_run idevs p d k Hd)), Hi.
  destruct (find_mem_index_run k v' p d i f Hd Hi Hf Hwf Hp ltac:(lia)) as (mi & Hmi & Hcase). rewrite (bindM_run _ _ _ _ _ Hmi).
  destruct Hcase as [->|(-> & Hge & mem' & Hmem' & Hsz' & Hr)].
  - exfalso. revert Hmi. unfold uio_find_mem_index. rewrite Hp, (bindM_run _ _ k k p), Hpg, (proj2 (Z.ltb_lt _ _) Hlt) by reflexivity.
    destruct (idev_mem_run k p d i f (Z.to_nat (vm_pgoff v)) Hd Hi Hf Hwf ltac:(lia)) as (mem' & Hmem' & Hr).
    rewrite (bindM_run _ _ _ _ _ Hr). replace mem' with mem by congruence. rewrite (proj2 (Z.eqb_neq _ _) Hsz). unfold retM.
    intros [= H]. lia.
  - rewrite Hpg in *. replace mem' with mem in * by congruence. rewrite (proj2 (Z.ltb_ge _ _) Hpos). cbv zeta.
    rewrite (bindM_run _ _ _ _ _ Hr). eexists. split; [reflexivity|].
    replace (Z.shiftl (vm_pgoff v + j - vm_pgoff v) PAGE_SHIFT) with (j * 4096)
      by (unfold PAGE_SHIFT; rewrite shiftl_mul by lia; lia).
    rewrite (u64_small (j * 4096)) by (unfold in_u64; lia). rewrite u64_small by (unfold in_u64; lia).
    rewrite !shiftr_page, Z.div_add by lia. destruct (mem_memtype mem =? UIO_MEM_LOGICAL); reflexivity.
Qed.

(** The size of a mapping that is accepted. *)
Lemma accepted_pages :
  vma_pages v <= Z.shiftr (u64 (page_offset (mem_addr mem) + mem_size mem + UIO_PAGE_SIZE - 1)) PAGE_SHIFT ->
  forall j, 0 <= j < vma_pages v -> page_touches mem (mem_addr mem / 4096 + j) /\ j * 4096 < 2 ^ 64 - mem_addr mem.
Proof.
  destruct Hreg as (Ha0 & Hs0 & Hend). rewrite shiftr_page, page_offset_mod. change UIO_PAGE_SIZE with 4096.
  pose proof (Z.mod_pos_bound (mem_addr mem) 4096 ltac:(lia)) as Hm. pose proof (Z.div_mod (mem_addr mem) 4096 ltac:(lia)) as Hdm.
  rewrite u64_small by (unfold in_u64; lia). intros Hle j Hj. unfold page_touches.
  pose proof (Z.div_mod (mem_addr mem mod 4096 + mem_size mem + 4096 - 1) 4096 ltac:(lia)) as Hdm2.
  pose proof (Z.mod_pos_bound (mem_addr mem mod 4096 + mem_size mem + 4096 - 1) 4096 ltac:(lia)). lia.
Qed.

Context (lis : uio_listener).
Hypothesis Hl : listeners k !! l = Some lis.
Hypothesis Hlp : lis_dev lis = p.
Hypothesis Hnommap : info_mmap f = false.

(** The page an access reaches, given what the driver finds. *)
Definition reached (r : Z + (Z + page)) : option Z :=
  match r with inl n | inr (inr (LinearPage n)) | inr (inr (VmallocPage n)) => Some n | inr (inl _) => None end.

Lemma mapping_reaches_region v' k' :
  uio_mmap l v k = (Ok (0, v'), k') -> forall j, 0 <= j < vma_pages v ->
  exists r n, access_page v' j k' = (Ok r, k') /\ reached r = Some n /\ page_touches mem n /\
    n = mem_addr mem / 4096 + j /\ (vm_ops v' = Some uio_physical_vm_ops -> page_inside mem n /\ mem_addr mem mod 4096 = 0).
Proof.
  intros Hrun j Hj. pose proof (wa_pgoff v Hv) as Hpos. pose proof (wa_end v Hv) as Hend. revert Hrun. unfold uio_mmap.
  rewrite (bindM_run _ _ _ _ _ (deref_run listeners l _ k Hl)), Hlp. rewrite (proj2 (Z.ltb_ge _ _)) by lia. cbv zeta.
  rewrite (bindM_run _ _ _ _ _ (deref_run idevs p d k Hd)), Hi. set (v1 := set_private p v).
  destruct (find_mem_index_run k v1 p d i f Hd Hi Hf Hwf eq_refl Hpos) as (mi & Hmi & Hcase). rewrite (bindM_run _ _ _ _ _ Hmi).
  destruct Hcase as [->|(-> & _ & mem' & Hmem' & Hsz & Hr)]; [discriminate|]. change (vm_pgoff v1) with (vm_pgoff v) in *.
  replace mem' with mem in * by congruence. rewrite (proj2 (Z.ltb_ge _ _) Hpos), (bindM_run _ _ _ _ _ Hr).
  change (vma_pages v1) with (vma_pages v). destruct (Z.ltb_spec (Z.shiftr (u64 (page_offset (mem_addr mem) + mem_size mem + UIO_PAGE_SIZE - 1)) PAGE_SHIFT)
    (vma_pages v)) as [|Hpages]; [discriminate|]. destruct (accepted_pages Hpages j Hj) as [Ht Hb].
  rewrite (bindM_run _ _ _ _ _ (deref_run infos i f k Hf)), Hnommap. destruct (_ || _).
  - unfold uio_mmap_physical. rewrite (bindM_run _ _ k k p) by reflexivity. rewrite (bindM_run _ _ _ _ _ Hmi).
    change (vm_pgoff v1) with (vm_pgoff v). rewrite (proj2 (Z.ltb_ge _ _) Hpos), (bindM_run _ _ _ _ _ Hr), page_offset_mod.
    destruct (Z.eqb_spec (mem_addr mem mod 4096) 0) as [Hal|]; cbn [negb]; [|discriminate].
    change (vm_end v1 - vm_start v1) with (vm_end v - vm_start v). rewrite u64_small by (destruct Hv; unfold in_u64; lia).
    destruct (Z.ltb_spec (mem_size mem) (vm_end v - vm_start v)) as [|Hlen]; [discriminate|].
    unfold remap_pfn_range. destruct (ask_run k) as (a & rest & Ha). rewrite (bindM_run _ _ _ _ _ Ha). intros [= -> <- <-].
    cbn [Z.eqb]. rewrite shiftr_page. exists (inl (mem_addr mem / 4096 + j)). eexists. split; [reflexivity|]. split; [reflexivity|].
    split; [exact Ht|]. split; [reflexivity|]. intros _. split; [|exact Hal]. rewrite (vma_pages_mult v Hv) in Hlen.
    pose proof (Z.div_mod (mem_addr mem) 4096). unfold page_inside. lia.
  - destruct (_ || _); [|discriminate]. intros [= <- <-]. unfold access_page. cbn [set_ops vm_ops].
    assert (Hlt : vm_pgoff v < Z.of_nat MAX_UIO_MAPS).
    { apply lookup_lt_Some in Hmem. destruct Hwf as [Hlen _]. lia. }
    destruct (fault_run (set_ops uio_logical_vm_ops (add_flags (Z.lor VM_DONTEXPAND VM_DONTDUMP) v1)) j eq_refl eq_refl Hlt Hsz ltac:(lia) Hb)
      as (pg & Hpg & Epg). rewrite (bindM_run _ _ _ _ _ Hpg). eexists _, _. split; [reflexivity|].
    rewrite Epg. split; [destruct (_ =? _); reflexivity|]. split; [exact Ht|]. split; [reflexivity|]. discriminate.
Qed.
End Mapping.

(** C21: when mapping a device file succeeds, every page of the mapping is a page of the region
    that the offset names, in order; a mapping of physical memory lies entirely in the region,
    so that user space reaches no other memory of the machine. *)
Theorem mapping_stays_in_region k l lis d i f v v' k' :
  uio_inv k -> listeners k !! l = Some lis -> idevs k !! lis_dev lis = Some d -> dev_info d = Some i -> infos k !! i = Some f ->
  info_mmap f = false -> wf_area v -> Forall wf_region (info_mem f) -> uio_mmap l v k = (Ok (0, v'), k') ->
  exists mem, info_mem f !! Z.to_nat (vm_pgoff v) = Some mem /\ forall j, 0 <= j < vma_pages v ->
    exists r n, access_page v' j k' = (Ok r, k') /\ reached r = Some n /\ page_touches mem n /\ n = mem_addr mem / 4096 + j /\
      (vm_ops v' = Some uio_physical_vm_ops -> page_inside mem n).
Proof.
  intros Hk Hl Hd Hi Hf Hno Hv Hall Hrun. destruct (ok_info _ _ _ _ _ _ _ _ Hk _ d i Hd Hi) as (g & Hg & _ & Hwf & _).
  replace g with f in * by congruence. destruct (info_mem f !! Z.to_nat (vm_pgoff v)) as [mem|] eqn:Hmem.
  - exists mem. split; [reflexivity|]. intros j Hj. pose proof (proj1 (Forall_lookup _ _) Hall _ _ Hmem) as Hreg.
    destruct (mapping_reaches_region k (lis_dev lis) i l d f mem v Hd Hi Hf Hwf Hv Hmem Hreg lis Hl eq_refl Hno v' k' Hrun j Hj)
      as (r & n & Ha & Hr & Ht & Hn & Hin). exists r, n. repeat (split; [assumption|]). intros Hp. now apply Hin.
  - exfalso. revert Hrun. unfold uio_mmap. rewrite (bindM_run _ _ _ _ _ (deref_run listeners l _ k Hl)).
    destruct (vm_end v <? vm_start v); [discriminate|]. cbv zeta. rewrite (bindM_run _ _ _ _ _ (deref_run idevs _ d k Hd)), Hi.
    destruct (find_mem_index_run k (set_private (lis_dev lis) v) _ d i f Hd Hi Hf Hwf eq_refl (wa_pgoff v Hv)) as (mi & Hmi & Hcase).
    rewrite (bindM_run _ _ _ _ _ Hmi). destruct Hcase as [->|(-> & _ & mem & Hmem' & _)]; [discriminate|].
    change (vm_pgoff (set_private (lis_dev lis) v)) with (vm_pgoff v) in Hmem'. congruence.
Qed.

(** ** Events *)

Lemma s32_add_s32 a b : s32 (s32 a + b) = s32 (a + b).
Proof.
  unfold s32. replace ((a + 2 ^ 31) mod 2 ^ 32 - 2 ^ 31 + b + 2 ^ 31) with ((a + 2 ^ 31) mod 2 ^ 32 + b) by lia.
  rewrite Zplus_mod_idemp_l. f_equal. f_equal. lia.
Qed.

Lemma s32_distinct e n : in_s32 e -> 0 < n < 2 ^ 32 -> s32 (e + n) <> e.
Proof. unfold in_s32, s32. intros He Hn. dlia. Qed.

(** [n] events of the device described at [i]. *)
Fixpoint events (i n : nat) : M kernel unit :=
  match n with
  | O => retM tt
  | S n' => do* uio_event_notify i in events i n'
  end.

(** The state after events: the device counts them, and the files of its queue have signals. *)
Definition with_event (p : nat) (d : uio_device) (e : Z) (g : list (nat * Z)) (k : kernel) : kernel :=
  set_signals g (set_idevs (<[p := set_event e d]> (idevs k)) k).

Lemma event_notify_run k p i d f : idevs k !! p = Some d -> infos k !! i = Some f -> info_uio_dev f = Some p ->
  uio_event_notify i k =
    (Ok tt, with_event p d (s32 (dev_event d + 1)) (signals k ++ map (fun x => (x, POLL_IN)) (dev_async_queue d)) k).
Proof.
  intros Hd Hf Hlink. unfold uio_event_notify. rewrite (bindM_run _ _ _ _ _ (deref_run infos i f k Hf)), Hlink.
  rewrite (bindM_run _ _ k k p) by reflexivity. unfold upd_idev. rewrite bindM_assoc, (bindM_run _ _ _ _ _ (deref_run idevs p d k Hd)).
  set (k1 := set_idevs (<[p := set_event (s32 (dev_event d + 1)) d]> (idevs k)) k).
  rewrite (bindM_run _ _ k k1 tt) by reflexivity. unfold kill_fasync.
  rewrite (bindM_run _ _ k1 k1 (set_event (s32 (dev_event d + 1)) d)) by (apply deref_run; unfold k1; destruct k; apply lookup_insert_eq).
  unfold modifyM, with_event, k1. now destruct k.
Qed.

Lemma events_run n : forall k p i d f, idevs k !! p = Some d -> infos k !! i = Some f -> info_uio_dev f = Some p -> in_s32 (dev_event d) ->
  exists g, events i n k = (Ok tt, with_event p d (s32 (dev_event d + Z.of_nat n)) g k).
Proof.
  induction n as [|n IH]; intros k p i d f Hd Hf Hlink He.
  - exists (signals k). cbn [events]. rewrite Z.add_0_r, s32_small by exact He. unfold retM, with_event.
    replace (set_event (dev_event d) d) with d by now destruct d. rewrite insert_id by exact Hd. now destruct k.
  - cbn [events]. rewrite (bindM_run _ _ _ _ _ (event_notify_run k p i d f Hd Hf Hlink)). set (k1 := with_event _ _ _ _ k).
    destruct (IH k1 p i (set_event (s32 (dev_event d + 1)) d) f) as (g & Hg).
    + unfold k1, with_event. destruct k. apply lookup_insert_eq.
    + unfold k1, with_event. now destruct k.
    + exact Hlink.
    + cbn. apply s32_range.
    + exists g. rewrite Hg. unfold with_event, k1. cbn [dev_event set_event]. rewrite s32_add_s32.
      replace (dev_event d + 1 + Z.of_nat n) with (dev_event d + Z.of_nat (S n)) by lia.
      unfold with_event. destruct k. cbn. now rewrite insert_insert_eq.
Qed.

(** A reader on a device with an interrupt. *)
Record can_read (k : kernel) (l p i : nat) (d : uio_device) (f : uio_info) (lis : uio_listener) : Prop := {
  cr_listener : listeners k !! l = Some lis;
  cr_dev : lis_dev lis = p;
  cr_idev : idevs k !! p = Some d;
  cr_reg : dev_info d = Some i;
  cr_info : infos k !! i = Some f;
  cr_link : info_uio_dev f = Some p;
  cr_irq : info_irq f <> 0;
  cr_event : in_s32 (dev_event d);
  cr_answers : answers k = [];
}.

Lemma read_pass_waits k l p i d f lis nonblock :
  can_read k l p i d f lis -> lis_event_count lis = dev_event d ->
  read_pass l nonblock false k = (Ok (if nonblock then Ends (- EAGAIN) None else Sleeps), k).
Proof.
  intros [Hl Hp Hd Hi Hf _ Hq _ _] He. unfold read_pass. rewrite (bindM_run _ _ _ _ _ (deref_run listeners l lis k Hl)), Hp.
  unfold no_irq. rewrite bindM_assoc, (bindM_run _ _ _ _ _ (deref_run idevs p d k Hd)), Hi, bindM_assoc,
    (bindM_run _ _ _ _ _ (deref_run infos i f k Hf)).
  rewrite (bindM_run _ _ k k false) by (unfold retM; now rewrite (proj2 (Z.eqb_neq _ _) Hq)).
  rewrite (bindM_run _ _ _ _ _ (deref_run idevs p d k Hd)). rewrite He, Z.eqb_refl. cbn [negb]. now destruct nonblock.
Qed.

Lemma read_pass_ends k l p i d f lis nonblock signal :
  can_read k l p i d f lis -> lis_event_count lis <> dev_event d ->
  read_pass l nonblock signal k =
    (Ok (Ends 4 (Some (dev_event d))), set_listeners (<[l := mkListener p (dev_event d)]> (listeners k)) k).
Proof.
  intros [Hl Hp Hd Hi Hf _ Hq _ Ha] He. unfold read_pass. rewrite (bindM_run _ _ _ _ _ (deref_run listeners l lis k Hl)), Hp.
  unfold no_irq. rewrite bindM_assoc, (bindM_run _ _ _ _ _ (deref_run idevs p d k Hd)), Hi, bindM_assoc,
    (bindM_run _ _ _ _ _ (deref_run infos i f k Hf)).
  rewrite (bindM_run _ _ k k false) by (unfold retM; now rewrite (proj2 (Z.eqb_neq _ _) Hq)).
  rewrite (bindM_run _ _ _ _ _ (deref_run idevs p d k Hd)). cbv zeta. rewrite (proj2 (Z.eqb_neq (dev_event d) _)) by congruence. cbn [negb].
  rewrite (bindM_run _ _ k k 0) by (unfold ask; now rewrite Ha). cbn [Z.eqb negb]. rewrite <- Hp. reflexivity.
Qed.

(** a task that reads an open device sleeps through naps without events and wakes at the
    first nap with some: it gets the number of events so far, however many of them came while
    it slept, and a following read finds nothing new. *)
Theorem reader_gets_all_events k l p i d f lis quiet n more :
  can_read k l p i d f lis -> lis_event_count lis = dev_event d -> 0 < Z.of_nat n < 2 ^ 32 ->
  exists k', uio_read l 4 false false (replicate quiet (mkNap (events i 0) false) ++ mkNap (events i n) false :: more) k =
      (Ok (Some (4, Some (s32 (dev_event d + Z.of_nat n)))), k') /\
    uio_read l 4 true false [] k' = (Ok (Some (- EAGAIN, None)), k').
Proof.
  intros Hc Hcount Hn. pose proof (cr_listener _ _ _ _ _ _ _ Hc) as Hl. unfold uio_read.
  rewrite (bindM_run _ _ _ _ _ (deref_run listeners l lis k Hl)). cbn [Z.eqb Pos.eqb negb].
  destruct (events_run n k p i d f (cr_idev _ _ _ _ _ _ _ Hc) (cr_info _ _ _ _ _ _ _ Hc) (cr_link _ _ _ _ _ _ _ Hc) (cr_event _ _ _ _ _ _ _ Hc))
    as (g & Hg). set (e := s32 (dev_event d + Z.of_nat n)) in *. set (k1 := with_event p d e g k) in *.
  assert (Hc1 : can_read k1 l p i (set_event e d) f lis).
  { destruct Hc. unfold k1, with_event. split; try (destruct k; assumption); [destruct k; apply lookup_insert_eq|assumption..|].
    apply s32_range. }
  assert (Hne : lis_event_count lis <> dev_event (set_event e d)).
  { rewrite Hcount. cbn. intros E. apply (s32_distinct (dev_event d) (Z.of_nat n)); [exact (cr_event _ _ _ _ _ _ _ Hc)|exact Hn|now symmetry]. }
  set (k2 := set_listeners (<[l := mkListener p e]> (listeners k1)) k1).
  assert (Hc2 : can_read k2 l p i (set_event e d) f (mkListener p e)).
  { destruct Hc1. unfold k2. split; try (destruct k1; assumption); [destruct k1; apply lookup_insert_eq|reflexivity|assumption..]. }
  exists k2. split.
  - induction quiet as [|quiet IH]; cbn [replicate app read_loop].
    + rewrite (bindM_run _ _ _ _ _ (read_pass_waits k l p i d f lis false Hc Hcount)). cbn [nap_during nap_signal].
      rewrite (bindM_run _ _ _ _ _ Hg). unfold read_loop. destruct more; rewrite (bindM_run _ _ _ _ _ (read_pass_ends k1 l p i _ f lis false false Hc1 Hne)); reflexivity.
    + rewrite (bindM_run _ _ _ _ _ (read_pass_waits k l p i d f lis false Hc Hcount)). cbn [nap_during nap_signal events].
      rewrite (bindM_run _ _ k k tt) by reflexivity. exact IH.
  - rewrite (bindM_run _ _ _ _ _ (deref_run listeners l _ k2 (cr_listener _ _ _ _ _ _ _ Hc2))). cbn [read_loop].
    now rewrite (bindM_run _ _ _ _ _ (read_pass_waits k2 l p i _ f _ true Hc2 eq_refl)).
Qed.

(** ** The demo device *)

Definition demo_opened : kernel := snd (run_op (OpOpen 0) demo_registered).
Definition demo_area : vm_area := mkVma 4096 20480 0 None None 0 None.

Lemma demo_opened_inv : uio_inv demo_opened.
Proof.
  apply (steps_inv demo_registered); [exact demo_registered_inv|]. apply rtc_once. exists (OpOpen 0).
  split; [exact I|vm_compute; reflexivity].
Qed.

Lemma mapping_stays_in_region_witness :
  exists v', uio_mmap 13 demo_area demo_opened = (Ok (0, v'), demo_opened) /\
    exists r n, access_page v' 3 demo_opened = (Ok r, demo_opened) /\ reached r = Some n /\ n = 4294967296 / 4096 + 3.
Proof.
  eexists. split; [vm_compute; reflexivity|].
  destruct (mapping_stays_in_region demo_opened 13 (default (mkListener 0 0) (listeners demo_opened !! 13%nat))
    (default (new_idev 0 0) (idevs demo_opened !! 10%nat)) 0 (default demo_info (infos demo_opened !! 0%nat)) demo_area
    (mkVma 4096 20480 0 (Some 10%nat) (Some uio_physical_vm_ops) 0 (Some 1048576)) demo_opened) as (mem & Hmem & Hall).
  - exact demo_opened_inv.
  - vm_compute. reflexivity.
  - vm_compute. reflexivity.
  - vm_compute. reflexivity.
  - vm_compute. reflexivity.
  - vm_compute. reflexivity.
  - split; vm_compute; repeat split; congruence.
  - assert (E : info_mem (default demo_info (infos demo_opened !! 0%nat)) = alter (set_map (Some 12%nat)) 0%nat (info_mem demo_info))
      by (vm_compute; reflexivity).
    rewrite E. cbn [demo_info info_mem alter list_alter replicate]. repeat (apply List.Forall_cons; [unfold wf_region; cbn; lia|]). constructor.
  - vm_compute. reflexivity.
  - vm_compute in Hmem. injection Hmem as <-. destruct (Hall 3) as (r & n & Ha & Hr & _ & Hn & _); [vm_compute; split; congruence|].
    exists r, n. auto.
Defined.

Lemma reader_gets_all_events_witness :
  exists k', uio_read 13 4 false false [mkNap (events 0 0) false; mkNap (events 0 3) false] demo_opened = (Ok (Some (4, Some 3)), k') /\
    uio_read 13 4 true false [] k' = (Ok (Some (- EAGAIN, None)), k').
Proof.
  set (d := default (new_idev 0 0) (idevs demo_opened !! 10%nat)).
  assert (E : s32 (dev_event d + Z.of_nat 3) = 3) by (vm_compute; reflexivity). rewrite <- E.
  apply (reader_gets_all_events demo_opened 13 10 0 d (default demo_info (infos demo_opened !! 0%nat)) (mkListener 10 0) 1 3 []).
  - split; try (vm_compute; reflexivity); [vm_compute; discriminate|vm_compute; split; congruence].
  - vm_compute. reflexivity.
  - lia.
Defined.
