(* ===== verification/UioRace.v ===== *)
(** Overlapping calls of uio.c: a reader that goes to sleep while interrupts come, and a device
    that is unregistered while it is opened. *)
From S2P Require Import Prelude Fmt Uio UioFile UioLife UioSafe UioMap.

(** ** A reader and interrupts *)

(** Where the task is in the loop of [uio_read]: before the test of the device, before
    [set_current_state], before the comparison of the counts, before [schedule], off the
    processor, or out of the loop. *)
Inductive reader_pc : Type := Testing | Setting | Comparing | Scheduling | Asleep | Returned.
Inductive task_state : Type := TASK_RUNNING | TASK_INTERRUPTIBLE.

(** [r_waking] counts the interrupts that have incremented the count and not yet woken the
    queue. *)
Record rstate : Type := mkR { r_pc : reader_pc; r_task : task_state; r_event : Z; r_count : Z; r_waking : nat }.

(** One step of the task; the device stays registered, with an interrupt, no signal is pending
    and the copy to the user succeeds. A task that is not on the processor runs again when
    its state is running. *)
Definition reader_step (s : rstate) : rstate :=
  match r_pc s with
  | Testing => mkR Setting (r_task s) (r_event s) (r_count s) (r_waking s)
  | Setting => mkR Comparing TASK_INTERRUPTIBLE (r_event s) (r_count s) (r_waking s)
  | Comparing =>
      if negb (r_event s =? r_count s) then mkR Returned TASK_RUNNING (r_event s) (r_event s) (r_waking s)
      else mkR Scheduling (r_task s) (r_event s) (r_count s) (r_waking s)
  | Scheduling | Asleep =>
      match r_task s with
      | TASK_RUNNING => mkR Testing TASK_RUNNING (r_event s) (r_count s) (r_waking s)
      | TASK_INTERRUPTIBLE => mkR Asleep TASK_INTERRUPTIBLE (r_event s) (r_count s) (r_waking s)
      end
  | Returned => s
  end.
(** The two actions of [uio_event_notify]. *)
Definition increment (s : rstate) : rstate := mkR (r_pc s) (r_task s) (s32 (r_event s + 1)) (r_count s) (S (r_waking s)).
Definition wake_up (s : rstate) : rstate := mkR (r_pc s) TASK_RUNNING (r_event s) (r_count s) (pred (r_waking s)).

Inductive rstep : rstate -> rstate -> Prop :=
| step_reader s : rstep s (reader_step s)
| step_increment s : rstep s (increment s)
| step_wake s : (0 < r_waking s)%nat -> rstep s (wake_up s).

(** A task that is about to sleep or sleeps has missed no event, unless a wake-up is under way. *)
Definition no_lost_wakeup (s : rstate) : Prop :=
  (r_pc s = Scheduling \/ r_pc s = Asleep) -> r_task s = TASK_INTERRUPTIBLE -> r_event s = r_count s \/ (0 < r_waking s)%nat.

Lemma rstep_no_lost_wakeup s s' : no_lost_wakeup s -> rstep s s' -> no_lost_wakeup s'.
Proof.
  intros Hs Hstep. revert Hs. destruct Hstep as [s0|s0|s0 Hw]; unfold no_lost_wakeup; intros Hs.
  - destruct s0 as [[] [] e c w]; cbn in *; try destruct (Z.eqb_spec e c); cbn; intros Hp Ht;
      first [discriminate Ht | now left | (destruct Hp; discriminate) | (apply Hs; auto)].
  - cbn. intros _ _. right. lia.
  - cbn. discriminate.
Qed.

(** C20: a task that calls read sleeps only when there is no new event, however interrupts
    overlap with its steps: with no wake-up under way, a sleeping task has seen the count, and
    when there is a new event the task returns with it within four steps of its own. *)
Theorem no_wakeup_is_lost e c s :
  rtc rstep (mkR Testing TASK_RUNNING e c 0) s -> r_waking s = 0%nat -> r_pc s <> Returned ->
  (r_pc s = Asleep -> r_task s = TASK_INTERRUPTIBLE -> r_event s = r_count s) /\
  (r_event s <> r_count s ->
    exists n, (n <= 4)%nat /\ r_pc (Nat.iter n reader_step s) = Returned /\ r_count (Nat.iter n reader_step s) = r_event s).
Proof.
  intros Hreach Hw Hpc.
  assert (Hs : no_lost_wakeup s).
  { assert (H0 : no_lost_wakeup (mkR Testing TASK_RUNNING e c 0)) by (intros [|]; discriminate).
    induction Hreach as [|s0 s1 s2 Hstep _ IH]; [exact H0|]. apply IH; auto. exact (rstep_no_lost_wakeup _ _ H0 Hstep). }
  split; [intros Ha Ht; destruct (Hs (or_intror Ha) Ht); [assumption|lia]|].
  intros Hne. destruct s as [[] [] ev co w]; cbn in *; subst; try contradiction.
  8, 10: exfalso; destruct (Hs ltac:(auto) eq_refl) as [E|E]; cbn in E; [contradiction|lia].
  all: match goal with
       | |- context [mkR Testing _ _ _ _] => exists 3%nat
       | |- context [mkR Setting _ _ _ _] => exists 2%nat
       | |- context [mkR Comparing _ _ _ _] => exists 1%nat
       | _ => exists 4%nat
       end; (split; [lia|]); cbn; rewrite ?(proj2 (Z.eqb_neq ev co) Hne); easy.
Qed.

Lemma no_wakeup_is_lost_witness :
  exists n, (n <= 4)%nat /\ r_pc (Nat.iter n reader_step (mkR Asleep TASK_RUNNING 8 7 0)) = Returned /\
    r_count (Nat.iter n reader_step (mkR Asleep TASK_RUNNING 8 7 0)) = 8.
Proof.
  apply (no_wakeup_is_lost 7 7 (mkR Asleep TASK_RUNNING 8 7 0)); [|reflexivity|discriminate|discriminate].
  do 4 (eapply rtc_l; [apply step_reader|]). eapply rtc_l; [apply step_increment|].
  eapply rtc_l; [apply step_wake; cbn; lia|]. apply rtc_refl.
Defined.

(** ** Opening and unregistering *)

(** [uio_open] looks the device up under [minor_lock] and takes its reference after it has
    dropped the lock; [uio_unregister_device] drops the last reference before it removes the
    minor. When it runs in between, the reference is taken on a freed device. *)
Theorem open_races_with_unregister :
  exists k p k1, uio_inv k /\ idr_find 0 k = (Ok (Some p), k) /\ uio_unregister_device (Some 0%nat) k = (Ok tt, k1) /\
    idevs k1 !! p = None /\ fst (get_device p k1) = Err Undefined.
Proof.
  exists demo_registered, 10%nat, (snd (uio_unregister_device (Some 0%nat) demo_registered)).
  split; [exact demo_registered_inv|]. vm_compute. repeat split.
Qed.
