(* ===== verification/Handshake.v ===== *)
(** The handshake of [sendRequest] (client.cpp) and [handle_request] (server.cpp) on the weakly
    ordered memory of the machines util.h has barriers for: which orders of the accesses the
    barriers leave, and that the request and its answer arrive whole in all of them. *)
From stdpp Require Import sorting.
From S2P Require Import Prelude Server.

(** ** The accesses of the two processes *)

(** The values of [ReqStat]. *)
Definition status_code (s : ReqStat) : Z := match s with NONE => 0 | SENT => 1 | DONE => 2 | EXIT => 3 end.

(** An access to a byte of the region; [branch] says that the process goes on in a way that
    depends on the byte it loads. *)
Inductive access : Type :=
| Load (a v : Z) (branch : bool)
| Store (a v : Z).

(** What a process executes, with the value each load returns. *)
Inductive instr : Type :=
| Data (x : access)
| StatusLoad (s : ReqStat)
| StatusStore (s : ReqStat)
| LOAD_BARRIER
| STORE_BARRIER.

(** [while (status != s)]: the values of the rounds before and the last one. *)
Definition wait_for (polls : list ReqStat) (s : ReqStat) : list instr := map StatusLoad polls ++ [StatusLoad s].

(** One call of [sendRequest]: the bytes [serializeTo] stores, the values of the loop, and the
    bytes [copyResultFrom] and the last statements load. *)
Record call : Type := mkCall { cl_request : list (Z * Z); cl_polls : list ReqStat; cl_results : list (Z * Z * bool) }.
Definition serializeTo (ws : list (Z * Z)) : list access := map (fun '(a, v) => Store a v) ws.
Definition copyResultFrom (rs : list (Z * Z * bool)) : list access := map (fun '(a, v, b) => Load a v b) rs.
Definition sendRequest (c : call) : list instr :=
  map Data (serializeTo (cl_request c)) ++
  [STORE_BARRIER; StatusStore SENT] ++
  wait_for (cl_polls c) DONE ++
  [LOAD_BARRIER] ++
  map Data (copyResultFrom (cl_results c)) ++
  [StatusStore NONE].

(** One request of a worker: the passes that find another status, and what [handle_ops] loads
    and stores. *)
Record service : Type := mkService { sv_polls : list ReqStat; sv_accesses : list access }.
Definition handle_request (s : service) : list instr :=
  wait_for (sv_polls s) SENT ++
  [LOAD_BARRIER] ++
  map Data (sv_accesses s) ++
  [STORE_BARRIER; StatusStore DONE].

(** ** What the machines may do *)

(** The builds of util.h: [__sync_synchronize], or [dsb ld] and [dsb st]. *)
Inductive build : Type := X86_64 | AARCH64.

Definition is_load (i : instr) : bool := match i with Data (Load _ _ _) | StatusLoad _ => true | _ => false end.
Definition is_store (i : instr) : bool := match i with Data (Store _ _) | StatusStore _ => true | _ => false end.
(** The byte an instruction is about, [None] for the status word. *)
Definition location (i : instr) : option (option Z) :=
  match i with
  | Data (Load a _ _) | Data (Store a _) => Some (Some a)
  | StatusLoad _ | StatusStore _ => Some None
  | _ => None
  end.
Definition value (i : instr) : Z :=
  match i with
  | Data (Load _ v _) | Data (Store _ v) => v
  | StatusLoad s | StatusStore s => status_code s
  | _ => 0
  end.
Definition branches (i : instr) : bool := match i with Data (Load _ _ b) => b | StatusLoad _ => true | _ => false end.

(** A barrier between [x] and [y] keeps them in order: the full one always, [dsb ld] if it
    waits for the load [x], [dsb st] if it waits for the store [x]. *)
Definition barrier_orders (m : build) (b x y : instr) : bool :=
  match b, m with
  | LOAD_BARRIER, X86_64 | STORE_BARRIER, X86_64 => true
  | LOAD_BARRIER, AARCH64 => is_load x
  | STORE_BARRIER, AARCH64 => is_store x
  | _, _ => false
  end.

(** The instruction number [pos] of the call number [round] of one of the two. *)
Record ev : Type := mkEv { e_server : bool; e_round : nat; e_pos : nat }.
#[export] Instance ev_eq_dec : EqDecision ev.
Proof. solve_decision. Defined.

(** The order of the program. *)
Definition po (a c : ev) : bool :=
  Bool.eqb (e_server a) (e_server c) &&
  ((e_round a <? e_round c)%nat || ((e_round a =? e_round c)%nat && (e_pos a <? e_pos c)%nat)).

Section Execution.
Variable m : build.
Variables (calls : list call) (services : list service).
(** The bytes of the region at the start; its status is [NONE]. *)
Variable init : Z -> Z.

Definition programs (server : bool) : list (list instr) :=
  if server then map handle_request services else map sendRequest calls.
Definition instr_at (e : ev) : option instr := programs (e_server e) !! e_round e ≫= fun p => p !! e_pos e.
Definition events_of (server : bool) : list ev :=
  concat (imap (fun k p => imap (fun i _ => mkEv server k i) p) (programs server)).

(** Two accesses of a process whose order the machine keeps: a store after an access to the
    same place, a store after a branch on what was loaded, or with a barrier between them. *)
Definition barrier_between (a c : ev) (x y : instr) : bool :=
  existsb (fun b => match instr_at b with Some i => po a b && po b c && barrier_orders m i x y | None => false end)
    (events_of (e_server a)).
Definition kept (a c : ev) : bool :=
  match instr_at a, instr_at c with
  | Some x, Some y =>
      po a c && (is_load x || is_store x) && (is_load y || is_store y) &&
      ((is_store y && (bool_decide (location x = location y) || branches x)) || barrier_between a c x y)
  | _, _ => false
  end.

(** The order in which memory performs the accesses. *)
Variable mo : list ev.
Definition rank (e : ev) : nat := match list_find (fun x => x = e) mo with Some (i, _) => i | None => length mo end.
Definition before (a c : ev) : bool := (rank a <? rank c)%nat.

(** A load returns the last store to its place among those that memory performed before and
    those of its own process that it has passed. *)
Definition stores_to (l : option Z) (w : ev) : bool :=
  match instr_at w with Some i => is_store i && bool_decide (location i = Some l) | None => false end.
Definition visible (l : option Z) (r w : ev) : bool := stores_to l w && (before w r || po w r).
Definition initial_value (l : option Z) : Z := match l with Some a => init a | None => status_code NONE end.
Definition load_value (l : option Z) (r : ev) : Z :=
  match list.last (filter (fun w => visible l r w = true) mo) with
  | Some w => match instr_at w with Some i => value i | None => 0 end
  | None => initial_value l
  end.
Definition load_ok (r : ev) : bool :=
  match instr_at r with
  | Some i => match location i with
              | Some l => if is_load i then value i =? load_value l r else true
              | None => true
              end
  | None => true
  end.

(** What the machine may do: both processes complete as many calls, memory performs every
    instruction once, in an order that keeps what must be kept, and the loads return what
    they must. *)
Record execution : Prop := {
  ex_paired : length calls = length services;
  ex_loops : Forall (fun c => DONE ∉ cl_polls c) calls /\ Forall (fun s => SENT ∉ sv_polls s) services;
  ex_once : NoDup mo;
  ex_all : forall e, e ∈ mo <-> is_Some (instr_at e);
  ex_kept : forall a c, kept a c = true -> before a c = true;
  ex_loads : Forall (fun r => load_ok r = true) mo;
}.
End Execution.

(** ** The sequential run *)

Definition put (mem : Z -> Z) (a v : Z) : Z -> Z := fun x => if x =? a then v else mem x.
(** The accesses happen one after the other on [mem]. *)
Fixpoint sequential (mem : Z -> Z) (l : list access) : Prop :=
  match l with
  | [] => True
  | Load a v _ :: l' => v = mem a /\ sequential mem l'
  | Store a v :: l' => sequential (put mem a v) l'
  end.
(** Each request is stored, handled and its answer loaded, then the next one. *)
Definition in_turn (calls : list call) (services : list service) : list access :=
  concat (zip_with (fun c s => serializeTo (cl_request c) ++ sv_accesses s ++ copyResultFrom (cl_results c)) calls services).

(** ** Lists in which every element has its place *)

Section Places.
Context {A : Type} `{EqDecision A}.
Implicit Types (l : list A) (P : A -> bool).

(** The last element of [l] with the property is the one with the greatest place. *)
Lemma last_filter_some P l w : list.last (filter (fun x => P x = true) l) = Some w ->
  exists i, l !! i = Some w /\ P w = true /\ forall j x, l !! j = Some x -> P x = true -> (j <= i)%nat.
Proof.
  induction l as [|x l IH] using rev_ind; [discriminate|]. rewrite list.filter_app, filter_cons. case_decide as Hx.
  - rewrite filter_nil, last_snoc. intros [= <-]. exists (length l). split; [now rewrite list_lookup_middle|]. split; [exact Hx|].
    intros j y Hj _. apply lookup_lt_Some in Hj. rewrite length_app in Hj. cbn in Hj. lia.
  - rewrite filter_nil, app_nil_r. intros H. destruct (IH H) as (i & Hi & Hw & Hmax). exists i.
    split; [now rewrite lookup_app_l by (eapply lookup_lt_Some, Hi)|]. split; [exact Hw|]. intros j y Hj Hy.
    destruct (decide (j < length l)%nat) as [Hl|Hl]; [rewrite lookup_app_l in Hj by easy; now apply (Hmax j y)|].
    rewrite lookup_app_r in Hj by lia. apply list_lookup_singleton_Some in Hj as [_ ->]. contradiction.
Qed.

Lemma last_filter_none P l : list.last (filter (fun x => P x = true) l) = None -> forall x, x ∈ l -> P x = false.
Proof.
  rewrite last_None. intros H x Hx. destruct (P x) eqn:E; [|reflexivity].
  assert (Hin : x ∈ filter (fun x => P x = true) l) by now apply list_elem_of_filter. rewrite H in Hin. now apply not_elem_of_nil in Hin.
Qed.
End Places.

Lemma rank_lookup mo e i : NoDup mo -> mo !! i = Some e -> rank mo e = i.
Proof.
  intros Hnd Hi. unfold rank. destruct (list_find (fun x => x = e) mo) as [[j x]|] eqn:E.
  - apply list_find_Some in E as (Hj & -> & _). exact (NoDup_lookup _ _ _ _ Hnd Hj Hi).
  - apply list_find_None in E. now destruct (proj1 (list.Forall_forall _ _) E e (list_elem_of_lookup_2 _ _ _ Hi)).
Qed.

Lemma rank_elem mo e : NoDup mo -> e ∈ mo -> mo !! rank mo e = Some e.
Proof. intros Hnd He. apply list_elem_of_lookup in He as [i Hi]. now rewrite (rank_lookup mo e i Hnd Hi). Qed.

Lemma rank_inj mo a c : NoDup mo -> a ∈ mo -> c ∈ mo -> rank mo a = rank mo c -> a = c.
Proof. intros Hnd Ha Hc E. pose proof (rank_elem _ _ Hnd Ha) as H. rewrite E, (rank_elem _ _ Hnd Hc) in H. congruence. Qed.

(** ** Where the instructions of a call are *)

Lemma po_round a c : e_server a = e_server c -> (e_round a < e_round c)%nat -> po a c = true.
Proof. intros E H. unfold po. rewrite E, Bool.eqb_reflx. apply Nat.ltb_lt in H. now rewrite H. Qed.
Lemma po_pos a c : e_server a = e_server c -> e_round a = e_round c -> (e_pos a < e_pos c)%nat -> po a c = true.
Proof. intros E E2 H. unfold po. rewrite E, E2, Bool.eqb_reflx, Nat.eqb_refl. apply Nat.ltb_lt in H. rewrite H. cbn. apply orb_true_r. Qed.
Lemma po_inv a c : po a c = true ->
  e_server a = e_server c /\ ((e_round a < e_round c)%nat \/ (e_round a = e_round c /\ (e_pos a < e_pos c)%nat)).
Proof. unfold po. rewrite andb_true_iff, orb_true_iff, andb_true_iff, Bool.eqb_true_iff, !Nat.ltb_lt, Nat.eqb_eq. tauto. Qed.

Lemma po_trans a b c : po a b = true -> po b c = true -> po a c = true.
Proof.
  intros [E H]%po_inv [E' H']%po_inv. destruct H as [H|[H H1]], H' as [H'|[H' H1']].
  4: apply po_pos; [congruence|congruence|lia]. all: apply po_round; [congruence|lia].
Qed.

Definition loop_end (c : call) : nat := length (cl_request c) + 2 + length (cl_polls c).
Lemma send_request_at c : sendRequest c !! (length (cl_request c)) = Some STORE_BARRIER /\
  sendRequest c !! (length (cl_request c) + 1)%nat = Some (StatusStore SENT) /\
  sendRequest c !! loop_end c = Some (StatusLoad DONE) /\ sendRequest c !! (loop_end c + 1)%nat = Some LOAD_BARRIER /\
  sendRequest c !! (loop_end c + 2 + length (cl_results c))%nat = Some (StatusStore NONE).
Proof.
  destruct c as [ws ps rs]. unfold sendRequest, wait_for, serializeTo, copyResultFrom, loop_end; cbn [cl_request cl_polls cl_results].
  assert (L : length (map Data (map (fun '(a, v) => Store a v) ws)) = length ws) by now rewrite !length_map.
  repeat split; rewrite lookup_app_r, L by lia.
  1, 2: match goal with |- _ !! ?n = _ => (replace n with 0%nat by lia; reflexivity) || (replace n with 1%nat by lia; reflexivity) end.
  all: rewrite lookup_app_r by (cbn; lia); cbn [length]; rewrite <- ?app_assoc, lookup_app_r, length_map by (rewrite length_map; lia).
  - match goal with |- _ !! ?n = _ => replace n with 0%nat by lia end. reflexivity.
  - match goal with |- _ !! ?n = _ => replace n with 1%nat by lia end. reflexivity.
  - rewrite lookup_app_r by (cbn; lia). cbn [length]. rewrite lookup_app_r by (cbn; lia). cbn [length].
    rewrite lookup_app_r by (rewrite !length_map; lia). rewrite !length_map.
    match goal with |- _ !! ?n = _ => replace n with 0%nat by lia end. reflexivity.
Qed.

(** What is at a place of a call: a store of the request, the barrier, the status, the loop, the
    barrier, a load of the answer, the status. *)
Inductive client_at (c : call) : nat -> instr -> Prop :=
| AtRequest i a v : cl_request c !! i = Some (a, v) -> client_at c i (Data (Store a v))
| AtStoreBarrier : client_at c (length (cl_request c)) STORE_BARRIER
| AtSent : client_at c (length (cl_request c) + 1) (StatusStore SENT)
| AtPoll i s : (length (cl_request c) + 2 <= i < loop_end c)%nat -> client_at c i (StatusLoad s)
| AtDone : client_at c (loop_end c) (StatusLoad DONE)
| AtLoadBarrier : client_at c (loop_end c + 1) LOAD_BARRIER
| AtResult i a v b : cl_results c !! i = Some (a, v, b) -> client_at c (loop_end c + 2 + i) (Data (Load a v b))
| AtNone : client_at c (loop_end c + 2 + length (cl_results c)) (StatusStore NONE).

Lemma client_lookup c i x : sendRequest c !! i = Some x -> client_at c i x.
Proof.
  unfold sendRequest, wait_for. rewrite lookup_app_Some. intros [H|[Hi H]].
  { apply list_lookup_fmap_Some in H as (y & -> & H). apply list_lookup_fmap_Some in H as ([a v] & -> & H). now apply AtRequest. }
  unfold serializeTo in Hi, H. rewrite !length_map in Hi, H. remember (i - length (cl_request c))%nat as j eqn:Ej.
  destruct j as [|[|j]].
  { injection H as <-. replace i with (length (cl_request c)) by lia. constructor. }
  { injection H as <-. replace i with (length (cl_request c) + 1)%nat by lia. constructor. }
  cbn [app lookup list_lookup] in H. change (_ !! j = Some x) in H || idtac.
  rewrite <- app_assoc, lookup_app_Some in H. destruct H as [H|[Hj H]].
  { pose proof (lookup_lt_Some _ _ _ H) as Hl. rewrite length_map in Hl. apply list_lookup_fmap_Some in H as (s & -> & _).
    apply AtPoll. unfold loop_end. lia. }
  rewrite length_map in Hj, H. remember (j - length (cl_polls c))%nat as k eqn:Ek. destruct k as [|[|k]].
  { injection H as <-. replace i with (loop_end c) by (unfold loop_end; lia). apply AtDone. }
  { injection H as <-. replace i with (loop_end c + 1)%nat by (unfold loop_end; lia). constructor. }
  change ((map Data (copyResultFrom (cl_results c)) ++ [StatusStore NONE]) !! k = Some x) in H.
  rewrite lookup_app_Some in H. replace i with (loop_end c + 2 + k)%nat by (unfold loop_end; lia). destruct H as [H|[Hk H]].
  { apply list_lookup_fmap_Some in H as (y & -> & H). apply list_lookup_fmap_Some in H as ([[a v] b] & -> & H). now constructor. }
  unfold copyResultFrom in Hk, H. rewrite !length_map in Hk, H. apply list_lookup_singleton_Some in H as [Hk' <-].
  replace k with (length (cl_results c)) by lia. constructor.
Qed.

(** The same of a worker. *)
Definition found (s : service) : nat := length (sv_polls s).
Inductive server_at (s : service) : nat -> instr -> Prop :=
| AtSearch i st : (i < found s)%nat -> server_at s i (StatusLoad st)
| AtFound : server_at s (found s) (StatusLoad SENT)
| AtFence : server_at s (found s + 1) LOAD_BARRIER
| AtAccess i x : sv_accesses s !! i = Some x -> server_at s (found s + 2 + i) (Data x)
| AtRelease : server_at s (found s + 2 + length (sv_accesses s)) STORE_BARRIER
| AtAnswered : server_at s (found s + 3 + length (sv_accesses s)) (StatusStore DONE).

Lemma server_lookup s i x : handle_request s !! i = Some x -> server_at s i x.
Proof.
  unfold handle_request, wait_for. rewrite <- app_assoc, lookup_app_Some. intros [H|[Hi H]].
  { pose proof (lookup_lt_Some _ _ _ H) as Hl. rewrite length_map in Hl. apply list_lookup_fmap_Some in H as (st & -> & _). now constructor. }
  rewrite length_map in Hi, H. remember (i - length (sv_polls s))%nat as j eqn:Ej. destruct j as [|[|j]].
  { injection H as <-. replace i with (found s) by (unfold found; lia). apply AtFound. }
  { injection H as <-. replace i with (found s + 1)%nat by (unfold found; lia). constructor. }
  change ((map Data (sv_accesses s) ++ [STORE_BARRIER; StatusStore DONE]) !! j = Some x) in H.
  rewrite lookup_app_Some in H. replace i with (found s + 2 + j)%nat by (unfold found; lia). destruct H as [H|[Hj H]].
  { apply list_lookup_fmap_Some in H as (y & -> & H). now constructor. }
  rewrite length_map in Hj, H. remember (j - length (sv_accesses s))%nat as k eqn:Ek. destruct k as [|[|k]]; [| |discriminate].
  - injection H as <-. replace (found s + 2 + j)%nat with (found s + 2 + length (sv_accesses s))%nat by lia. constructor.
  - injection H as <-. replace (found s + 2 + j)%nat with (found s + 3 + length (sv_accesses s))%nat by lia. constructor.
Qed.

(** And back. *)
Lemma handle_request_at s : handle_request s !! found s = Some (StatusLoad SENT) /\ handle_request s !! (found s + 1)%nat = Some LOAD_BARRIER /\
  handle_request s !! (found s + 2 + length (sv_accesses s))%nat = Some STORE_BARRIER /\
  handle_request s !! (found s + 3 + length (sv_accesses s))%nat = Some (StatusStore DONE) /\
  forall i x, sv_accesses s !! i = Some x -> handle_request s !! (found s + 2 + i)%nat = Some (Data x).
Proof.
  assert (Hat : forall j, handle_request s !! (found s + j)%nat =
    ([StatusLoad SENT; LOAD_BARRIER] ++ map Data (sv_accesses s) ++ [STORE_BARRIER; StatusStore DONE]) !! j).
  { intros j. unfold handle_request, wait_for. rewrite <- app_assoc, lookup_app_r; rewrite length_map; unfold found; [|lia]. f_equal. lia. }
  assert (Hdata : forall j, handle_request s !! (found s + 2 + j)%nat = (map Data (sv_accesses s) ++ [STORE_BARRIER; StatusStore DONE]) !! j).
  { intros j. now replace (found s + 2 + j)%nat with (found s + S (S j))%nat by lia; rewrite Hat. }
  assert (Hlen : length (map Data (sv_accesses s)) = length (sv_accesses s)) by apply length_map.
  split; [replace (found s) with (found s + 0)%nat by lia; rewrite Hat; reflexivity|]. split; [now rewrite Hat|].
  split; [rewrite Hdata, lookup_app_r, Hlen, Nat.sub_diag by lia; reflexivity|].
  split; [replace (found s + 3 + length (sv_accesses s))%nat with (found s + 2 + (length (sv_accesses s) + 1))%nat by lia;
    rewrite Hdata, lookup_app_r, Hlen by lia; now replace (length (sv_accesses s) + 1 - length (sv_accesses s))%nat with 1%nat by lia|].
  intros i x Hx. rewrite Hdata. apply lookup_app_l_Some, list_lookup_fmap_Some. eauto.
Qed.

(** ** The order the barriers keep *)

(** A load is in order if the barriers are full or what follows depends on it. *)
Definition in_order (m : build) (x : access) : Prop :=
  m = X86_64 \/ match x with Load _ _ branch => branch = true | Store _ _ => True end.

Section Runs.
Context (m : build) (calls : list call) (services : list service) (init : Z -> Z) (mo : list ev).
Hypothesis Hex : execution m calls services init mo.
Notation at_ := (instr_at calls services).
Notation lt a c := (rank mo a < rank mo c)%nat.

Lemma at_call k c i x : calls !! k = Some c -> sendRequest c !! i = Some x -> at_ (mkEv false k i) = Some x.
Proof. intros Hc Hx. unfold instr_at, programs. cbn. now rewrite list_lookup_fmap, Hc. Qed.
Lemma at_service k s i x : services !! k = Some s -> handle_request s !! i = Some x -> at_ (mkEv true k i) = Some x.
Proof. intros Hs Hx. unfold instr_at, programs. cbn. now rewrite list_lookup_fmap, Hs. Qed.

Lemma at_inv e x : at_ e = Some x ->
  if e_server e then exists s, services !! e_round e = Some s /\ server_at s (e_pos e) x
  else exists c, calls !! e_round e = Some c /\ client_at c (e_pos e) x.
Proof.
  destruct e as [[] k i]; unfold instr_at, programs; cbn; rewrite list_lookup_fmap.
  - destruct (services !! k) as [s|]; [|discriminate]. intros H. exists s. split; [reflexivity|now apply server_lookup].
  - destruct (calls !! k) as [c|]; [|discriminate]. intros H. exists c. split; [reflexivity|now apply client_lookup].
Qed.

Lemma at_events e x : at_ e = Some x -> e ∈ events_of calls services (e_server e).
Proof.
  unfold instr_at, events_of. destruct (programs _ _ _ !! e_round e) as [p|] eqn:Ep; [|discriminate]. cbn. intros Hx.
  apply list_elem_of_In, in_concat. exists (imap (fun i _ => mkEv (e_server e) (e_round e) i) p). split.
  - apply list_elem_of_In, list_elem_of_lookup. exists (e_round e). now rewrite list_lookup_imap, Ep.
  - apply list_elem_of_In, list_elem_of_lookup. exists (e_pos e). rewrite list_lookup_imap, Hx. now destruct e.
Qed.

Lemma at_mo e x : at_ e = Some x -> e ∈ mo.
Proof. intros H. apply (ex_all _ _ _ _ _ Hex). now exists x. Qed.

Lemma kept_lt a c : kept m calls services a c = true -> lt a c.
Proof. intros H. apply (ex_kept _ _ _ _ _ Hex) in H. now apply Nat.ltb_lt. Qed.

Definition accesses (x : instr) : bool := is_load x || is_store x.

Lemma store_in_order a c x y : at_ a = Some x -> at_ c = Some y -> po a c = true -> accesses x = true -> is_store y = true ->
  (location x = location y \/ branches x = true) -> lt a c.
Proof.
  intros Ha Hc Hpo Hx Hy Hor. apply kept_lt. unfold kept. rewrite Ha, Hc, Hpo. unfold accesses in Hx. rewrite Hx, Hy, orb_true_r. cbn.
  destruct Hor as [Hl| ->]; [rewrite (bool_decide_true _ Hl)|rewrite orb_true_r]; reflexivity.
Qed.

Lemma across_barrier a b c x i y : at_ a = Some x -> at_ b = Some i -> at_ c = Some y -> po a b = true -> po b c = true ->
  accesses x = true -> accesses y = true -> barrier_orders m i x y = true -> lt a c.
Proof.
  intros Ha Hb Hc Hab Hbc Hx Hy Ho. apply kept_lt. unfold kept. rewrite Ha, Hc.
  pose proof (po_trans a b c Hab Hbc) as Hpo.
  unfold accesses in Hx, Hy. rewrite Hpo, Hx, Hy. cbn. apply orb_true_iff. right. unfold barrier_between. apply existsb_exists. exists b.
  apply po_inv in Hab as Hs. destruct Hs as [-> _]. split; [apply list_elem_of_In; exact (at_events b i Hb)|]. now rewrite Hb, Hab, Hbc, Ho.
Qed.

(** A status store after the store barrier comes after the data before it. *)
Lemma data_before_status a b c x s : at_ a = Some (Data x) -> at_ b = Some STORE_BARRIER -> at_ c = Some (StatusStore s) ->
  po a b = true -> po b c = true -> in_order m x -> lt a c.
Proof.
  intros Ha Hb Hc Hab Hbc Hx. assert (Hacc : accesses (Data x) = true) by now destruct x.
  assert (Hcase : barrier_orders m STORE_BARRIER (Data x) (StatusStore s) = true \/ branches (Data x) = true).
  { destruct Hx as [->|Hx]; [now left|]. destruct x; [now right|]. left. now destruct m. }
  destruct Hcase as [Ho|Hbr]; [now apply (across_barrier a b c (Data x) STORE_BARRIER (StatusStore s))|].
  apply (store_in_order a c (Data x) (StatusStore s)); try assumption; [exact (po_trans a b c Hab Hbc)|reflexivity|now right].
Qed.

(** A status load before the load barrier comes before the data after it. *)
Lemma status_before_data a b c s x : at_ a = Some (StatusLoad s) -> at_ b = Some LOAD_BARRIER -> at_ c = Some (Data x) ->
  po a b = true -> po b c = true -> lt a c.
Proof.
  intros Ha Hb Hc Hab Hbc. apply (across_barrier a b c (StatusLoad s) LOAD_BARRIER (Data x)); try assumption; [reflexivity|now destruct x|].
  now destruct m.
Qed.

(** ** What a load returns *)

Notation vis := (visible calls services mo).

Lemma load_from r i l : at_ r = Some i -> is_load i = true -> location i = Some l ->
  (exists w x, at_ w = Some x /\ vis l r w = true /\ value x = value i /\ forall w', w' ∈ mo -> vis l r w' = true -> (rank mo w' <= rank mo w)%nat) \/
  ((forall w', w' ∈ mo -> vis l r w' = false) /\ value i = initial_value init l).
Proof.
  intros Hr Hi Hl. pose proof (proj1 (list.Forall_forall _ _) (ex_loads _ _ _ _ _ Hex) r (at_mo r i Hr)) as Hok. cbn in Hok.
  unfold load_ok in Hok. rewrite Hr, Hl, Hi in Hok. apply Z.eqb_eq in Hok. unfold load_value in Hok.
  destruct (list.last _) as [w|] eqn:E.
  - left. apply last_filter_some in E as (j & Hj & Hw & Hmax). pose proof Hw as Hw'. unfold visible, stores_to in Hw'.
    destruct (at_ w) as [x|] eqn:Hx; [|discriminate]. exists w, x. repeat split; try easy. intros w' Hin Hv.
    pose proof (ex_once _ _ _ _ _ Hex) as Hnd. rewrite (rank_lookup mo w j Hnd Hj). exact (Hmax _ _ (rank_elem mo w' Hnd Hin) Hv).
  - right. split; [exact (last_filter_none _ _ E)|exact Hok].
Qed.

Lemma stores_to_at l w x : at_ w = Some x -> is_store x = true -> location x = Some l -> stores_to calls services l w = true.
Proof. intros H Hs Hl. unfold stores_to. rewrite H, Hs. now apply bool_decide_true. Qed.

Lemma visible_spec l r w x : at_ w = Some x -> is_store x = true -> location x = Some l ->
  vis l r w = true <-> lt w r \/ po w r = true.
Proof.
  intros H Hs Hl. unfold visible. rewrite (stores_to_at l w x H Hs Hl). unfold before. rewrite andb_true_l, orb_true_iff, Nat.ltb_lt. reflexivity.
Qed.

Lemma status_store_inv w x l r : at_ w = Some x -> vis l r w = true -> is_store x = true /\ location x = Some l.
Proof.
  intros H. unfold visible, stores_to. rewrite H. intros [H1 _]%andb_true_iff. apply andb_true_iff in H1 as [H1 H2].
  split; [exact H1|exact (bool_decide_eq_true_1 _ H2)].
Qed.

(** A status other than [NONE] was stored, and by the last store that the load can see. *)
Lemma status_load r s : at_ r = Some (StatusLoad s) -> s <> NONE ->
  exists w, at_ w = Some (StatusStore s) /\ (lt w r \/ po w r = true) /\
    forall w' s', at_ w' = Some (StatusStore s') -> lt w' r \/ po w' r = true -> (rank mo w' <= rank mo w)%nat.
Proof.
  intros Hr Hs. destruct (load_from r _ None Hr eq_refl eq_refl) as [(w & x & Hx & Hv & Hval & Hmax)|[_ Hval]].
  - destruct (status_store_inv w x None r Hx Hv) as [Hst Hl]. destruct x as [[]| |s'| |]; try discriminate. cbn in Hval.
    assert (s' = s) as -> by (destruct s, s'; easy). exists w. split; [exact Hx|]. split; [now apply (visible_spec None r w _ Hx)|].
    intros w' s'' Hw' Hv'. apply Hmax; [exact (at_mo w' _ Hw')|now apply (visible_spec None r w' _ Hw')].
  - cbn in Hval. destruct s; easy.
Qed.

(** ** The status word *)

Definition cl (k : nat) : call := default (mkCall [] [] []) (calls !! k).
Definition sv (k : nat) : service := default (mkService [] []) (services !! k).
Notation N := (length calls).
Lemma cl_at k : (k < N)%nat -> calls !! k = Some (cl k).
Proof. intros [c Hc]%lookup_lt_is_Some. unfold cl. now rewrite Hc. Qed.
Lemma sv_at k : (k < N)%nat -> services !! k = Some (sv k).
Proof. rewrite (ex_paired _ _ _ _ _ Hex). intros [s Hs]%lookup_lt_is_Some. unfold sv. now rewrite Hs. Qed.

(** The events of round [k] that the proof speaks of. *)
Definition request_barrier (k : nat) : ev := mkEv false k (length (cl_request (cl k))).
Definition sent (k : nat) : ev := mkEv false k (length (cl_request (cl k)) + 1).
Definition sees_done (k : nat) : ev := mkEv false k (loop_end (cl k)).
Definition done_barrier (k : nat) : ev := mkEv false k (loop_end (cl k) + 1).
Definition cleared (k : nat) : ev := mkEv false k (loop_end (cl k) + 2 + length (cl_results (cl k))).
Definition sees_sent (k : nat) : ev := mkEv true k (found (sv k)).
Definition sent_barrier (k : nat) : ev := mkEv true k (found (sv k) + 1).
Definition result_barrier (k : nat) : ev := mkEv true k (found (sv k) + 2 + length (sv_accesses (sv k))).
Definition done (k : nat) : ev := mkEv true k (found (sv k) + 3 + length (sv_accesses (sv k))).

Lemma client_events k : (k < N)%nat ->
  at_ (request_barrier k) = Some STORE_BARRIER /\ at_ (sent k) = Some (StatusStore SENT) /\ at_ (sees_done k) = Some (StatusLoad DONE) /\
  at_ (done_barrier k) = Some LOAD_BARRIER /\ at_ (cleared k) = Some (StatusStore NONE).
Proof.
  intros Hk. pose proof (cl_at k Hk) as Hc. destruct (send_request_at (cl k)) as (H1 & H2 & H3 & H4 & H5).
  repeat split; eapply at_call; eassumption.
Qed.
Lemma server_events k : (k < N)%nat ->
  at_ (sees_sent k) = Some (StatusLoad SENT) /\ at_ (sent_barrier k) = Some LOAD_BARRIER /\ at_ (result_barrier k) = Some STORE_BARRIER /\
  at_ (done k) = Some (StatusStore DONE).
Proof.
  intros Hk. pose proof (sv_at k Hk) as Hs. destruct (handle_request_at (sv k)) as (H1 & H2 & H3 & H4 & _).
  repeat split; eapply at_service; eassumption.
Qed.

(** Only the backend stores [SENT], only the worker [DONE]. *)
Lemma stored_sent w : at_ w = Some (StatusStore SENT) -> exists j, (j < N)%nat /\ w = sent j.
Proof.
  intros H. apply at_inv in H as Hi. destruct w as [[] k i]; cbn in Hi; destruct Hi as (c & Hc & Hat); inversion Hat; subst.
  exists k. split; [now apply lookup_lt_Some in Hc|]. unfold sent, cl. now rewrite Hc.
Qed.
Lemma stored_done w : at_ w = Some (StatusStore DONE) -> exists j, (j < N)%nat /\ w = done j.
Proof.
  intros H. apply at_inv in H as Hi. destruct w as [[] k i]; cbn in Hi; destruct Hi as (s & Hs & Hat); inversion Hat; subst.
  exists k. split; [rewrite (ex_paired _ _ _ _ _ Hex); now apply lookup_lt_Some in Hs|]. unfold done, sv. now rewrite Hs.
Qed.

Lemma status_stores_in_order a c s t : at_ a = Some (StatusStore s) -> at_ c = Some (StatusStore t) -> po a c = true -> lt a c.
Proof. intros Ha Hc Hpo. eapply store_in_order; try eassumption; [reflexivity..|now left]. Qed.
Lemma status_load_in_order a c s t : at_ a = Some (StatusLoad s) -> at_ c = Some (StatusStore t) -> po a c = true -> lt a c.
Proof. intros Ha Hc Hpo. eapply store_in_order; try eassumption; [reflexivity..|now left]. Qed.

Lemma sent_le j k : (j <= k)%nat -> (k < N)%nat -> (rank mo (sent j) <= rank mo (sent k))%nat.
Proof.
  intros Hjk Hk. destruct (decide (j = k)) as [->|]; [reflexivity|]. apply Nat.lt_le_incl. destruct (client_events j ltac:(lia)) as (_ & Hj & _).
  destruct (client_events k Hk) as (_ & Hk' & _). apply (status_stores_in_order _ _ _ _ Hj Hk'). apply po_round; [reflexivity|cbn; lia].
Qed.
Lemma done_le j k : (j <= k)%nat -> (k < N)%nat -> (rank mo (done j) <= rank mo (done k))%nat.
Proof.
  intros Hjk Hk. destruct (decide (j = k)) as [->|]; [reflexivity|]. apply Nat.lt_le_incl.
  destruct (server_events j ltac:(lia)) as (_ & _ & _ & Hj), (server_events k Hk) as (_ & _ & _ & Hk').
  apply (status_stores_in_order _ _ _ _ Hj Hk'). apply po_round; [reflexivity|cbn; lia].
Qed.
Lemma cleared_sent j k : (j < k)%nat -> (k < N)%nat -> lt (cleared j) (sent k).
Proof.
  intros Hjk Hk. destruct (client_events j ltac:(lia)) as (_ & _ & _ & _ & Hj), (client_events k Hk) as (_ & Hk' & _).
  apply (status_stores_in_order _ _ _ _ Hj Hk'). now apply po_round.
Qed.

(** The worker finds a request after all it has answered. *)
Lemma sees_sent_from k : (k < N)%nat -> exists j, (j < N)%nat /\ lt (sent j) (sees_sent k) /\ lt (sees_sent k) (done k) /\
  forall i, (i < k)%nat -> lt (done i) (sent j).
Proof.
  intros Hk. destruct (server_events k Hk) as (Hs & _ & _ & Hd). destruct (status_load _ _ Hs ltac:(discriminate)) as (w & Hw & Hv & Hmax).
  destruct (stored_sent w Hw) as (j & Hj & ->). exists j. split; [exact Hj|]. split; [destruct Hv as [|[? _]%po_inv]; easy|].
  split; [apply (status_load_in_order _ _ _ _ Hs Hd); apply po_pos; [easy..|cbn; lia]|]. intros i Hi.
  destruct (server_events i ltac:(lia)) as (_ & _ & _ & Hdi). pose proof (Hmax _ _ Hdi ltac:(right; now apply po_round)) as Hle.
  destruct (decide (rank mo (done i) = rank mo (sent j))) as [E|]; [|lia].
  now apply (rank_inj mo _ _ (ex_once _ _ _ _ _ Hex) (at_mo _ _ Hdi) (at_mo _ _ Hw)) in E.
Qed.

(** The backend sees the end after what it has sent. *)
Lemma sees_done_from k : (k < N)%nat -> exists j, (j < N)%nat /\ lt (done j) (sees_done k) /\ lt (sees_done k) (cleared k) /\ lt (sent k) (done j).
Proof.
  intros Hk. destruct (client_events k Hk) as (_ & Hsent & Hs & _ & Hc).
  destruct (status_load _ _ Hs ltac:(discriminate)) as (w & Hw & Hv & Hmax). destruct (stored_done w Hw) as (j & Hj & ->). exists j.
  split; [exact Hj|]. split; [destruct Hv as [|[? _]%po_inv]; easy|].
  split; [apply (status_load_in_order _ _ _ _ Hs Hc); apply po_pos; [easy..|cbn; lia]|].
  assert (Hpo : po (sent k) (sees_done k) = true) by (apply po_pos; [easy..|cbn; unfold loop_end; lia]).
  pose proof (Hmax _ _ Hsent (or_intror Hpo)) as Hle. destruct (decide (rank mo (sent k) = rank mo (done j))) as [E|]; [|lia].
  now apply (rank_inj mo _ _ (ex_once _ _ _ _ _ Hex) (at_mo _ _ Hsent) (at_mo _ _ Hw)) in E.
Qed.

(** Requests and answers alternate. *)
Lemma alternate k : (k < N)%nat ->
  lt (sent k) (sees_sent k) /\ lt (sent k) (done k) /\ lt (done k) (sees_done k) /\ lt (done k) (cleared k).
Proof.
  induction k as [k IH] using lt_wf_ind. intros Hk. destruct (sees_sent_from k Hk) as (j & Hj & H1 & H2 & H3).
  assert (Hjk : (k <= j)%nat).
  { destruct (Nat.le_gt_cases k j) as [|Hlt]; [assumption|exfalso]. destruct (IH j Hlt Hj) as (_ & Hd & _).
    pose proof (H3 j Hlt). lia. }
  pose proof (sent_le k j Hjk Hj). destruct (sees_done_from k Hk) as (i & Hi & H4 & H5 & H6).
  assert (Hik : (k <= i)%nat).
  { destruct (Nat.le_gt_cases k i) as [|Hlt]; [assumption|exfalso]. destruct (IH i Hlt Hi) as (_ & _ & _ & Hd).
    pose proof (cleared_sent i k Hlt Hk). lia. }
  pose proof (done_le k i Hik Hi). lia.
Qed.

(** ** The data *)

Hypothesis Hdata : forall e x, at_ e = Some (Data x) -> in_order m x.

(** In a round the backend stores, the worker works, the backend loads. *)
Definition turn (e : ev) : nat := if e_server e then 1 else if (e_pos e <? length (cl_request (cl (e_round e))))%nat then 0 else 2.
Definition earlier (a c : ev) : Prop :=
  (e_round a < e_round c)%nat \/
  (e_round a = e_round c /\ ((turn a < turn c)%nat \/ (turn a = turn c /\ (e_pos a < e_pos c)%nat))).

(** Where the data of a process is. *)
Lemma client_data e x : e_server e = false -> at_ e = Some (Data x) -> (e_round e < N)%nat /\
  ((turn e = 0 /\ po e (request_barrier (e_round e)) = true) \/ (turn e = 2 /\ po (done_barrier (e_round e)) e = true))%nat.
Proof.
  intros Hs He. destruct e as [[] k i]; [discriminate|]. apply at_inv in He as (c & Hc & Hat). cbn in Hc, Hat. cbn [e_round].
  assert (Ecl : cl k = c) by (unfold cl; now rewrite Hc). split; [now apply lookup_lt_Some in Hc|]. unfold turn. cbn [e_server e_round e_pos].
  inversion Hat as [j a v Hj| | | | | |j a v b Hj|]; subst; rewrite ?Ecl.
  - left. apply lookup_lt_Some in Hj. destruct (Nat.ltb_spec i (length (cl_request (cl k)))) as [_|]; [|lia].
    split; [reflexivity|]. apply po_pos; [reflexivity..|exact Hj].
  - right. destruct (Nat.ltb_spec (loop_end (cl k) + 2 + j) (length (cl_request (cl k)))) as [H|]; [unfold loop_end in H; lia|].
    split; [reflexivity|]. apply po_pos; [reflexivity..|]. cbn. lia.
Qed.
Lemma server_data e x : e_server e = true -> at_ e = Some (Data x) ->
  (e_round e < N)%nat /\ po (sent_barrier (e_round e)) e = true /\ po e (result_barrier (e_round e)) = true.
Proof.
  intros Hs He. destruct e as [[] k i]; [|discriminate]. apply at_inv in He as (s & Hs' & Hat). cbn in Hs', Hat. cbn [e_round].
  assert (Esv : sv k = s) by (unfold sv; now rewrite Hs'). split; [rewrite (ex_paired _ _ _ _ _ Hex); now apply lookup_lt_Some in Hs'|].
  inversion Hat as [| | |j y Hj| |]; subst. apply lookup_lt_Some in Hj.
  split; apply po_pos; try reflexivity; cbn; lia.
Qed.

(** The worker's data is between the request and the answer. *)
Lemma server_data_between e x : e_server e = true -> at_ e = Some (Data x) ->
  (e_round e < N)%nat /\ lt (sent (e_round e)) e /\ lt e (sees_done (e_round e)).
Proof.
  intros Hs He. destruct (server_data e x Hs He) as (Hk & H1 & H2). split; [exact Hk|]. set (k := e_round e) in *.
  destruct (server_events k Hk) as (Ea & Eb & Ec & Ed). destruct (alternate k Hk) as (A1 & _ & A3 & _). split.
  - enough (lt (sees_sent k) e) by lia. apply (status_before_data _ _ _ _ _ Ea Eb He); [|exact H1]. apply po_pos; [easy..|cbn; lia].
  - enough (lt e (done k)) by lia. apply (data_before_status _ _ _ _ _ He Ec Ed H2); [|exact (Hdata e x He)]. apply po_pos; [easy..|cbn; lia].
Qed.

(** Data of different processes is accessed in turn. *)
Lemma processes_in_turn a c x y : at_ a = Some (Data x) -> at_ c = Some (Data y) -> e_server a <> e_server c -> earlier a c -> lt a c.
Proof.
  intros Ha Hc Hne Hle. destruct (e_server a) eqn:Ea, (e_server c) eqn:Ec; try congruence.
  - destruct (server_data_between a x Ea Ha) as (Hk & _ & H1). destruct (client_data c y Ec Hc) as (Hj & Hpart).
    destruct (client_events _ Hk) as (_ & _ & E1 & E2 & _). enough (lt (sees_done (e_round a)) c) by lia.
    apply (status_before_data _ _ _ _ _ E1 E2 Hc); [apply po_pos; [easy..|cbn; lia]|].
    assert (turn a = 1%nat) by (unfold turn; now rewrite Ea).
    destruct Hle as [Hlt|[Er Ht]]; [now apply po_round|]. destruct Hpart as [[Ht' _]|[_ Hpo]]; [lia|]. now rewrite Er.
  - destruct (server_data_between c y Ec Hc) as (Hj & H1 & _). destruct (client_data a x Ea Ha) as (Hk & Hpart).
    assert (turn c = 1%nat) by (unfold turn; now rewrite Ec).
    destruct (client_events _ Hk) as (E1 & E2 & _), (client_events _ Hj) as (F1 & F2 & _).
    assert (Hpo : forall k, po (request_barrier k) (sent k) = true) by (intros; apply po_pos; [easy..|cbn; lia]).
    destruct Hpart as [[Ht Hpa]|[Ht Hpa]].
    + assert (lt a (sent (e_round a))) by exact (data_before_status _ _ _ _ _ Ha E1 E2 Hpa (Hpo _) (Hdata a x Ha)).
      assert (Hle' : (e_round a <= e_round c)%nat) by (destruct Hle as [|[]]; lia). pose proof (sent_le _ _ Hle' Hj). lia.
    + destruct Hle as [Hlt|[_ Ht']]; [|lia].
      assert (lt a (sent (e_round c))); [|lia]. apply (data_before_status _ _ _ _ _ Ha F1 F2); [|apply Hpo|exact (Hdata a x Ha)].
      now apply po_round.
Qed.

Lemma process_in_turn a c : e_server a = e_server c -> earlier a c -> po a c = true.
Proof.
  intros E [H|[Er H]]; [now apply po_round|]. apply po_pos; [exact E|exact Er|]. destruct H as [H|[_ H]]; [|exact H].
  unfold turn in H. rewrite <- E, Er in H. destruct (e_server a); [lia|].
  destruct (Nat.ltb_spec (e_pos a) (length (cl_request (cl (e_round c))))), (Nat.ltb_spec (e_pos c) (length (cl_request (cl (e_round c))))); lia.
Qed.

(** So a later load sees an earlier store, an earlier load does not see a later store, and
    stores to one byte are in turn. *)
Lemma stores_in_turn a c l x v : at_ a = Some (Data x) -> at_ c = Some (Data (Store l v)) -> location (Data x) = Some (Some l) ->
  earlier a c -> lt a c.
Proof.
  intros Ha Hc Hl Hle. destruct (decide (e_server a = e_server c)) as [E|E]; [|now apply (processes_in_turn a c x (Store l v))].
  apply (store_in_order a c (Data x) (Data (Store l v)) Ha Hc); [now apply process_in_turn|now destruct x|reflexivity|now left].
Qed.
Lemma store_visible r w l v y : at_ w = Some (Data (Store l v)) -> at_ r = Some (Data y) -> earlier w r -> vis (Some l) r w = true.
Proof.
  intros Hw Hr Hle. apply (visible_spec (Some l) r w _ Hw eq_refl eq_refl).
  destruct (decide (e_server w = e_server r)) as [E|E]; [right; now apply process_in_turn|left; now apply (processes_in_turn w r (Store l v) y)].
Qed.
Lemma store_invisible r w l v vl b : at_ w = Some (Data (Store l v)) -> at_ r = Some (Data (Load l vl b)) -> earlier r w -> vis (Some l) r w = false.
Proof.
  intros Hw Hr Hle. apply not_true_iff_false. rewrite (visible_spec (Some l) r w _ Hw eq_refl eq_refl). intros [H|H].
  - pose proof (stores_in_turn r w l _ v Hr Hw eq_refl Hle). lia.
  - apply po_inv in H as [E H]. pose proof (process_in_turn r w (eq_sym E) Hle) as H'. apply po_inv in H' as [_ H']. lia.
Qed.

(** ** The sequential run of the data *)

Definition data_at (e : ev) : option access := match at_ e with Some (Data x) => Some x | _ => None end.
Fixpoint replay (mem : Z -> Z) (l : list access) : Z -> Z :=
  match l with [] => mem | Load _ _ _ :: l' => replay mem l' | Store a v :: l' => replay (put mem a v) l' end.

Lemma replay_app mem l1 l2 : replay mem (l1 ++ l2) = replay (replay mem l1) l2.
Proof. revert mem. induction l1 as [|[] l1 IH]; intros mem; cbn; [reflexivity|apply IH|apply IH]. Qed.

Definition stores_byte (a : Z) (w : ev) (v : Z) : Prop := at_ w = Some (Data (Store a v)).

(** What is in a byte after some of the data: the last store, or the start. *)
Lemma replay_last hs a :
  (exists l1 w l2 v, hs = l1 ++ w :: l2 /\ stores_byte a w v /\ (forall w' v', w' ∈ l2 -> ~ stores_byte a w' v') /\
     replay init (omap data_at hs) a = v) \/
  ((forall w v, w ∈ hs -> ~ stores_byte a w v) /\ replay init (omap data_at hs) a = init a).
Proof.
  induction hs as [|e hs IH] using rev_ind; [right; split; [intros w v Hw; now apply not_elem_of_nil in Hw|reflexivity]|].
  rewrite omap_app, replay_app. cbn [omap list_omap].
  assert (Hdec : (exists v, data_at e = Some (Store a v)) \/ ~ exists v, data_at e = Some (Store a v)).
  { destruct (data_at e) as [[|b v]|]; [right; now intros []| |right; now intros []].
    destruct (decide (b = a)) as [->|]; [left; now exists v|right; intros [u [= ]]; contradiction]. }
  destruct Hdec as [[v Hv]|Hno].
  - left. exists hs, e, [], v. rewrite Hv. cbn. unfold put at 1. rewrite Z.eqb_refl. split; [reflexivity|].
    split; [unfold stores_byte, data_at in *; destruct (at_ e) as [[]|]; congruence|]. split; [|reflexivity].
    intros w' v' Hw. now apply not_elem_of_nil in Hw.
  - assert (Hkeep : replay (replay init (omap data_at hs)) (omap data_at [e]) a = replay init (omap data_at hs) a).
    { cbn. destruct (data_at e) as [[|b v]|] eqn:E; try reflexivity. cbn. unfold put at 1. destruct (Z.eqb_spec a b) as [->|]; [|reflexivity].
      destruct Hno. now exists v. }
    assert (He : forall v, ~ stores_byte a e v) by (intros v Hv; apply Hno; exists v; unfold data_at; now rewrite Hv).
    cbn [omap list_omap] in Hkeep. rewrite Hkeep. destruct IH as [(l1 & w & l2 & v & -> & Hw & Hl2 & Hval)|[Hn Hval]].
    + left. exists l1, w, (l2 ++ [e]), v. split; [now rewrite <- app_assoc|]. split; [exact Hw|]. split; [|exact Hval].
      intros w' v' [Hin|Hin]%elem_of_app; [now apply Hl2|]. apply list_elem_of_singleton in Hin as ->. apply He.
    + right. split; [|exact Hval]. intros w v [Hin|Hin]%elem_of_app; [now apply Hn|]. apply list_elem_of_singleton in Hin as ->. apply He.
Qed.

(** A load returns what the data before it leaves in the byte. *)
Lemma load_in_turn pre r post a v b :
  StronglySorted earlier (pre ++ r :: post) -> (forall w a v, stores_byte a w v -> w ∈ pre ++ r :: post) ->
  at_ r = Some (Data (Load a v b)) -> v = replay init (omap data_at pre) a.
Proof.
  intros Hsort Hall Hr.
  assert (Hvis : forall w u, w ∈ pre -> stores_byte a w u -> vis (Some a) r w = true).
  { intros w u Hin Hw. apply (store_visible r w a u _ Hw Hr). apply (StronglySorted_app_1_elem_of _ _ _ _ _ Hsort Hin). now left. }
  assert (Honly : forall w u, stores_byte a w u -> vis (Some a) r w = true -> w ∈ pre).
  { intros w u Hw Hv. apply Hall in Hw as Hin. apply elem_of_app in Hin as [|Hin]; [assumption|exfalso].
    apply elem_of_cons in Hin as [->|Hin]; [unfold stores_byte in Hw; congruence|].
    rewrite (store_invisible r w a u v b Hw Hr) in Hv; [discriminate|]. apply StronglySorted_app_1_r in Hsort.
    exact (StronglySorted_app_1_elem_of _ [r] post r w Hsort (list_elem_of_here _ _) Hin). }
  destruct (replay_last pre a) as [(l1 & w & l2 & u & -> & Hw & Hlast & ->)|[Hno ->]];
    destruct (load_from r _ (Some a) Hr eq_refl eq_refl) as [(w' & x & Hx & Hv & Hval & Hmax)|[Hnone Hval]].
  - destruct (status_store_inv w' x (Some a) r Hx Hv) as [Hst Hl]. destruct x as [[|a' u']| | | |]; try discriminate. injection Hl as ->.
    cbn in Hval. subst u'. pose proof (Honly w' v Hx Hv) as Hin. apply elem_of_app in Hin as [Hin|Hin].
    + assert (Hle : earlier w' w) by (rewrite <- app_assoc in Hsort; apply (StronglySorted_app_1_elem_of _ _ _ _ _ Hsort Hin); now left).
      pose proof (stores_in_turn w' w a _ u Hx Hw eq_refl Hle). pose proof (Hmax w (at_mo w _ Hw) (Hvis w u ltac:(set_solver) Hw)). lia.
    + apply elem_of_cons in Hin as [->|Hin]; [unfold stores_byte in Hw; congruence|]. now destruct (Hlast w' v Hin).
  - pose proof (Hvis w u ltac:(set_solver) Hw) as Hv. rewrite (Hnone w (at_mo w _ Hw)) in Hv. discriminate.
  - destruct (status_store_inv w' x (Some a) r Hx Hv) as [Hst Hl]. destruct x as [[|a' u']| | | |]; try discriminate. injection Hl as ->.
    now destruct (Hno w' u' (Honly w' u' Hx Hv)).
  - exact Hval.
Qed.

Lemma sequential_run hs : StronglySorted earlier hs -> (forall w a v, stores_byte a w v -> w ∈ hs) -> sequential init (omap data_at hs).
Proof.
  intros Hsort Hall.
  enough (Hgen : forall post pre, hs = pre ++ post -> sequential (replay init (omap data_at pre)) (omap data_at post)) by exact (Hgen hs [] eq_refl).
  induction post as [|e post IH]; intros pre ->; [exact I|].
  specialize (IH (pre ++ [e]) ltac:(now rewrite <- app_assoc)). rewrite omap_app, replay_app in IH. cbn [omap list_omap] in IH |- *.
  destruct (data_at e) as [[a v b|a v]|] eqn:E; [|exact IH|exact IH]. split; [|exact IH].
  apply (load_in_turn pre e post a v b Hsort Hall).
  unfold data_at in E. destruct (at_ e) as [[]|]; congruence.
Qed.

(** ** The data in turn *)

Definition request_events (k : nat) : list ev := map (fun i => mkEv false k i) (seq 0 (length (cl_request (cl k)))).
Definition handler_events (k : nat) : list ev := map (fun i => mkEv true k (found (sv k) + 2 + i)) (seq 0 (length (sv_accesses (sv k)))).
Definition result_events (k : nat) : list ev := map (fun i => mkEv false k (loop_end (cl k) + 2 + i)) (seq 0 (length (cl_results (cl k)))).
Definition round_events (k : nat) : list ev := request_events k ++ handler_events k ++ result_events k.
Definition turns (n : nat) : list ev := concat (map round_events (seq 0 n)).

Lemma elem_map_seq (g : nat -> ev) n e : e ∈ map g (seq 0 n) <-> exists i, e = g i /\ (i < n)%nat.
Proof. rewrite list_elem_of_fmap. split; intros (i & -> & H); exists i; (split; [reflexivity|]); apply elem_of_seq in H || apply elem_of_seq; lia. Qed.

Lemma sorted_map_seq (g : nat -> ev) n s : (forall i j, (i < j < s + n)%nat -> earlier (g i) (g j)) -> StronglySorted earlier (map g (seq s n)).
Proof.
  revert s. induction n as [|n IH]; intros s H; constructor; [apply IH; intros; apply H; lia|].
  apply list.Forall_forall. intros e He. apply list_elem_of_fmap in He as (j & -> & Hj). apply elem_of_seq in Hj. apply H. lia.
Qed.

(** The round and the turn of the events. *)
Lemma turn_of_request k e : e ∈ request_events k -> e_round e = k /\ turn e = 0%nat.
Proof.
  intros H. apply elem_map_seq in H as (i & -> & Hi). split; [reflexivity|]. unfold turn. cbn [e_server e_round e_pos]. now rewrite (proj2 (Nat.ltb_lt _ _) Hi).
Qed.
Lemma turn_of_handler k e : e ∈ handler_events k -> e_round e = k /\ turn e = 1%nat.
Proof. intros H. apply elem_map_seq in H as (i & -> & Hi). easy. Qed.
Lemma turn_of_result k e : e ∈ result_events k -> e_round e = k /\ turn e = 2%nat.
Proof.
  intros H. apply elem_map_seq in H as (i & -> & Hi). split; [reflexivity|]. unfold turn. cbn [e_server e_round e_pos].
  destruct (Nat.ltb_spec (loop_end (cl k) + 2 + i) (length (cl_request (cl k)))) as [Hl|]; [unfold loop_end in Hl; lia|reflexivity].
Qed.

Lemma round_sorted k : StronglySorted earlier (round_events k).
Proof.
  assert (Hturn : forall g n, (forall i, (i < n)%nat -> e_round (g i) = k /\ turn (g i) = turn (g 0%nat)) ->
    (forall i j, (i < j)%nat -> (e_pos (g i) < e_pos (g j))%nat) -> StronglySorted earlier (map g (seq 0 n))).
  { intros g n Ht Hp. apply sorted_map_seq. intros i j Hij. destruct (Ht i ltac:(lia)) as [R1 T1], (Ht j ltac:(lia)) as [R2 T2].
    right. split; [congruence|]. right. split; [congruence|]. now apply Hp. }
  unfold round_events. apply StronglySorted_app_2; [|apply Hturn|apply StronglySorted_app_2; [|apply Hturn..]].
  - intros a c Ha Hc. destruct (turn_of_request k a Ha) as [Ra Ta]. apply elem_of_app in Hc as [Hc|Hc];
      [destruct (turn_of_handler k c Hc)|destruct (turn_of_result k c Hc)]; right; split; [lia|left; lia|lia|left; lia].
  - intros i Hi. destruct (turn_of_request k (mkEv false k i)) as [-> ->]; [apply elem_map_seq; eauto|].
    destruct (turn_of_request k (mkEv false k 0)) as [_ ->]; [apply elem_map_seq; exists 0%nat; split; [reflexivity|lia]|easy].
  - intros i j Hij. cbn. lia.
  - intros a c Ha Hc. destruct (turn_of_handler k a Ha), (turn_of_result k c Hc). right. split; [lia|left; lia].
  - easy.
  - intros i j Hij. cbn. lia.
  - intros i Hi. destruct (turn_of_result k (mkEv false k (loop_end (cl k) + 2 + i))) as [-> ->]; [apply elem_map_seq; eauto|].
    destruct (turn_of_result k (mkEv false k (loop_end (cl k) + 2 + 0))) as [_ ->]; [apply elem_map_seq; exists 0%nat; split; [reflexivity|lia]|easy].
  - intros i j Hij. cbn. lia.
Qed.

Lemma round_of k e : e ∈ round_events k -> e_round e = k.
Proof.
  unfold round_events. rewrite !elem_of_app. intros [H|[H|H]];
    [now destruct (turn_of_request k e H)|now destruct (turn_of_handler k e H)|now destruct (turn_of_result k e H)].
Qed.

Lemma elem_turns n e : e ∈ turns n <-> exists k, (k < n)%nat /\ e ∈ round_events k.
Proof.
  unfold turns. rewrite list_elem_of_In, in_concat. split.
  - intros (l & Hl & He). apply list_elem_of_In, list_elem_of_fmap in Hl as (k & -> & Hk). apply elem_of_seq in Hk. exists k.
    split; [lia|now apply list_elem_of_In].
  - intros (k & Hk & He). exists (round_events k). split; apply list_elem_of_In; [|exact He]. apply list_elem_of_fmap. exists k.
    split; [reflexivity|]. apply elem_of_seq. lia.
Qed.

Lemma turns_S n : turns (S n) = turns n ++ round_events n.
Proof. unfold turns. rewrite seq_S, map_app, concat_app. cbn. now rewrite app_nil_r. Qed.

Lemma turns_sorted n : StronglySorted earlier (turns n).
Proof.
  induction n as [|n IH]; [constructor|]. rewrite turns_S. apply StronglySorted_app_2; [|exact IH|apply round_sorted].
  intros a c (k & Hk & Ha)%elem_turns Hc. apply round_of in Ha, Hc. left. lia.
Qed.

(** Every data access has its turn. *)
Lemma data_in_turns e x : at_ e = Some (Data x) -> e ∈ turns N.
Proof.
  intros He. apply at_inv in He as Hi. destruct e as [[] k i]; cbn in Hi; destruct Hi as (c & Hc & Hat); apply elem_turns; exists k;
    unfold round_events; rewrite !elem_of_app.
  - assert (E : sv k = c) by (unfold sv; now rewrite Hc). apply lookup_lt_Some in Hc as Hlt. rewrite <- (ex_paired _ _ _ _ _ Hex) in Hlt.
    split; [exact Hlt|]. right; left. apply elem_map_seq. inversion Hat; subst. eexists. split; [reflexivity|]. eapply lookup_lt_Some. eassumption.
  - assert (E : cl k = c) by (unfold cl; now rewrite Hc). apply lookup_lt_Some in Hc as Hlt. split; [exact Hlt|].
    inversion Hat; subst; [left|right; right]; apply elem_map_seq; eexists; (split; [reflexivity|]); eapply lookup_lt_Some; eassumption.
Qed.

(** The data of the events is that of the calls. *)
Lemma omap_seq {A} (f : nat -> option A) l s : (forall i, (i < length l)%nat -> f (s + i)%nat = l !! i) -> omap f (seq s (length l)) = l.
Proof.
  revert s. induction l as [|a l IH]; intros s H; [reflexivity|]. cbn [length seq omap list_omap].
  pose proof (H 0%nat ltac:(cbn; lia)) as H0. rewrite Nat.add_0_r in H0. cbn in H0. rewrite H0. f_equal. apply IH. intros i Hi.
  specialize (H (S i) ltac:(cbn; lia)). rewrite Nat.add_succ_r in H. exact H.
Qed.
Lemma omap_map {A B C} (f : B -> option C) (g : A -> B) l : omap f (map g l) = omap (fun x => f (g x)) l.
Proof. induction l as [|a l IH]; [reflexivity|]. cbn. now rewrite IH. Qed.

Lemma request_at c i a v : cl_request c !! i = Some (a, v) -> sendRequest c !! i = Some (Data (Store a v)).
Proof.
  intros H. unfold sendRequest, serializeTo. apply lookup_app_l_Some, list_lookup_fmap_Some. exists (Store a v). split; [reflexivity|].
  apply list_lookup_fmap_Some. now exists (a, v).
Qed.
Lemma result_at c i a v b : cl_results c !! i = Some (a, v, b) -> sendRequest c !! (loop_end c + 2 + i)%nat = Some (Data (Load a v b)).
Proof.
  intros H. destruct c as [ws ps rs]. unfold sendRequest, wait_for, serializeTo, copyResultFrom, loop_end in *; cbn [cl_request cl_polls cl_results] in *.
  assert (L : length (map Data (map (fun '(a, v) => Store a v) ws)) = length ws) by now rewrite !length_map.
  rewrite lookup_app_r, L by lia. rewrite lookup_app_r by (cbn; lia). cbn [length]. rewrite <- app_assoc, lookup_app_r, length_map by (rewrite length_map; lia).
  match goal with |- _ !! ?n = _ => replace n with (S (S i)) by lia end. cbn [app lookup list_lookup].
  change ((map Data (map (fun '(a, v, b) => Load a v b) rs) ++ [StatusStore NONE]) !! i = Some (Data (Load a v b))).
  apply lookup_app_l_Some, list_lookup_fmap_Some. exists (Load a v b). split; [reflexivity|]. apply list_lookup_fmap_Some. now exists (a, v, b).
Qed.

Lemma round_data k : (k < N)%nat ->
  omap data_at (round_events k) = serializeTo (cl_request (cl k)) ++ sv_accesses (sv k) ++ copyResultFrom (cl_results (cl k)).
Proof.
  intros Hk. pose proof (cl_at k Hk) as Hc. pose proof (sv_at k Hk) as Hs. unfold round_events. rewrite !omap_app.
  unfold request_events, handler_events, result_events. rewrite !omap_map. f_equal; [|f_equal].
  - replace (length (cl_request (cl k))) with (length (serializeTo (cl_request (cl k)))) by apply length_map.
    apply omap_seq. intros i Hi. cbn [Nat.add]. unfold serializeTo in *. rewrite length_map in Hi. rewrite list_lookup_fmap.
    apply lookup_lt_is_Some in Hi as [[a v] Hav]. unfold data_at. rewrite (at_call k _ i _ Hc (request_at _ _ _ _ Hav)). now rewrite Hav.
  - apply omap_seq. intros i Hi. cbn [Nat.add]. apply lookup_lt_is_Some in Hi as [x Hx]. destruct (handle_request_at (sv k)) as (_ & _ & _ & _ & Hd).
    unfold data_at. now rewrite (at_service k _ _ _ Hs (Hd i x Hx)), Hx.
  - replace (length (cl_results (cl k))) with (length (copyResultFrom (cl_results (cl k)))) by apply length_map.
    apply omap_seq. intros i Hi. cbn [Nat.add]. unfold copyResultFrom in *. rewrite length_map in Hi. rewrite list_lookup_fmap.
    apply lookup_lt_is_Some in Hi as [[[a v] b] Hav]. unfold data_at. rewrite (at_call k _ _ _ Hc (result_at _ _ _ _ _ Hav)). now rewrite Hav.
Qed.

Lemma turns_data : omap data_at (turns N) = in_turn calls services.
Proof.
  unfold in_turn. assert (E : zip_with (fun c s => serializeTo (cl_request c) ++ sv_accesses s ++ copyResultFrom (cl_results c)) calls services =
    map (fun k => serializeTo (cl_request (cl k)) ++ sv_accesses (sv k) ++ copyResultFrom (cl_results (cl k))) (seq 0 N)).
  { apply list_eq. intros k. rewrite lookup_zip_with, list_lookup_fmap. destruct (decide (k < N)%nat) as [Hk|Hk].
    - rewrite (cl_at k Hk), (sv_at k Hk). rewrite lookup_seq_lt by exact Hk. reflexivity.
    - rewrite (lookup_ge_None_2 calls k) by lia. rewrite lookup_seq_ge by lia. reflexivity. }
  rewrite E. clear E. unfold turns. assert (Hle : forall k, k ∈ seq 0 N -> (k < N)%nat) by (intros k Hk; apply elem_of_seq in Hk; lia).
  induction (seq 0 N) as [|k l IH]; [reflexivity|]. cbn [map concat]. rewrite omap_app, round_data by (apply Hle; now left).
  f_equal. apply IH. intros j Hj. apply Hle. now right.
Qed.

Lemma executions_sequential : sequential init (in_turn calls services).
Proof.
  rewrite <- turns_data. apply sequential_run; [apply turns_sorted|]. intros w a v Hw. exact (data_in_turns w _ Hw).
Qed.
End Runs.

(** C3: whatever order the memory performs the accesses in, as long as it keeps what the
    barriers keep, every load of a request's data by the worker and of its answer by the backend
    returns what the sequential run does in which each request is stored, handled and answered
    before the next, if each of these accesses is one the barriers keep in order: the barriers of
    the x86-64 build order all data; those of the aarch64 build order the stores and the loads on
    which something depends ([worker_may_load_next_request] and [backend_may_load_next_result]
    are what happens to the others). *)
Theorem handshake_is_sequential m calls services init mo :
  execution m calls services init mo -> Forall (in_order m) (in_turn calls services) -> sequential init (in_turn calls services).
Proof.
  intros Hex Hord. apply (executions_sequential m calls services init mo Hex). intros e x He.
  apply (proj1 (list.Forall_forall _ _) Hord). rewrite <- (turns_data m calls services init mo Hex). apply list_elem_of_omap.
  exists e. split; [exact (data_in_turns m calls services init mo Hex e x He)|]. unfold data_at. now rewrite He.
Qed.

(** ** Executions that can be tried *)

Definition all_events (calls : list call) (services : list service) : list ev := events_of calls services false ++ events_of calls services true.
Definition check_execution (m : build) (calls : list call) (services : list service) (init : Z -> Z) (mo : list ev) : bool :=
  let evs := all_events calls services in
  bool_decide (length calls = length services) &&
  forallb (fun c => bool_decide (DONE ∉ cl_polls c)) calls && forallb (fun s => bool_decide (SENT ∉ sv_polls s)) services &&
  bool_decide (NoDup mo) &&
  forallb (fun e => match instr_at calls services e with Some _ => true | None => false end) mo &&
  forallb (fun e => bool_decide (e ∈ mo)) evs &&
  forallb (fun a => forallb (fun c => negb (kept m calls services a c) || before mo a c) evs) evs &&
  forallb (load_ok calls services init mo) mo.

Lemma check_execution_ok m calls services init mo : check_execution m calls services init mo = true -> execution m calls services init mo.
Proof.
  unfold check_execution. cbv zeta. rewrite !andb_true_iff. intros (((((((H1 & H2) & H3) & H4) & H5) & H6) & H7) & H8).
  rewrite forallb_forall in H2, H3, H5, H6, H7, H8.
  assert (Hevs : forall e x, instr_at calls services e = Some x -> e ∈ all_events calls services).
  { intros e x He. apply elem_of_app. apply at_events in He. destruct (e_server e); [now right|now left]. }
  constructor.
  - exact (bool_decide_eq_true_1 _ H1).
  - split; apply list.Forall_forall; intros y Hy; apply list_elem_of_In in Hy;
      [exact (bool_decide_eq_true_1 _ (H2 y Hy))|exact (bool_decide_eq_true_1 _ (H3 y Hy))].
  - exact (bool_decide_eq_true_1 _ H4).
  - intros e. split.
    + intros He. apply list_elem_of_In, H5 in He. destruct (instr_at calls services e); [now eexists|discriminate].
    + intros [x Hx]. apply (bool_decide_eq_true_1 _), H6, list_elem_of_In. exact (Hevs e x Hx).
  - intros a c Hk. assert (Hac : a ∈ all_events calls services /\ c ∈ all_events calls services).
    { unfold kept in Hk. destruct (instr_at calls services a) eqn:Ea; [|discriminate]. destruct (instr_at calls services c) eqn:Ec; [|discriminate].
      split; [exact (Hevs _ _ Ea)|exact (Hevs _ _ Ec)]. }
    destruct Hac as [Ha Hc]. apply list_elem_of_In in Ha, Hc. pose proof (H7 a Ha) as H. rewrite forallb_forall in H. specialize (H c Hc).
    rewrite Hk in H. exact H.
  - apply list.Forall_forall. intros r Hr. now apply H8, list_elem_of_In.
Qed.

Definition client_evs (k : nat) (ps : list nat) : list ev := map (mkEv false k) ps.
Definition server_evs (k : nat) (ps : list nat) : list ev := map (mkEv true k) ps.

(** Two calls whose stores are performed out of order, the first one's loop having looked once
    in vain. *)
Lemma handshake_is_sequential_witness :
  let calls := [mkCall [(16, 1); (20, 2)] [SENT] [(24, 3, false)]; mkCall [(16, 4)] [] [(24, 5, false); (20, 2, false)]] in
  let services := [mkService [NONE] [Load 20 2 false; Load 16 1 false; Store 24 3]; mkService [DONE] [Load 16 4 false; Store 24 5]] in
  sequential (fun _ => 0) (in_turn calls services).
Proof.
  cbv zeta. apply (handshake_is_sequential X86_64 _ _ _ (server_evs 0 [0]%nat ++ client_evs 0 [1; 0; 2; 3; 4]%nat ++ server_evs 0 [1; 3; 2; 4; 5; 6; 7]%nat ++
    server_evs 1 [0]%nat ++ client_evs 0 [5; 6; 7; 8]%nat ++ client_evs 1 [0; 1; 2]%nat ++ server_evs 1 [1; 2; 3; 4; 5; 6]%nat ++
    client_evs 1 [3; 4; 6; 5; 7]%nat)).
  - apply check_execution_ok. vm_compute. reflexivity.
  - repeat constructor.
Defined.

(** ** What [dsb st] does not order *)

(** On aarch64 the worker may still load a byte of the request when the next one is stored: no
    barrier of [handle_request] waits for its loads before it stores [DONE]. *)
Theorem worker_may_load_next_request :
  let calls := [mkCall [(16, 1)] [] []; mkCall [(16, 2)] [] []] in
  let services := [mkService [] [Load 16 2 false]; mkService [] [Load 16 2 false]] in
  (exists mo, execution AARCH64 calls services (fun _ => 0) mo) /\ ~ sequential (fun _ => 0) (in_turn calls services).
Proof.
  cbv zeta. split; [|cbn; unfold put; intros [H _]; discriminate].
  exists (client_evs 0 [0; 1; 2]%nat ++ server_evs 0 [0; 1; 3; 4]%nat ++ client_evs 0 [3; 4; 5]%nat ++ client_evs 1 [0]%nat ++ server_evs 0 [2]%nat ++
    client_evs 1 [1; 2]%nat ++ server_evs 1 [0; 1; 2; 3; 4]%nat ++ client_evs 1 [3; 4; 5]%nat).
  apply check_execution_ok. vm_compute. reflexivity.
Qed.

(** And the backend may still load its result when the worker stores that of the next request:
    no barrier is where [sendRequest] announces one before it clears the status. *)
Theorem backend_may_load_next_result :
  let calls := [mkCall [(16, 1)] [] [(24, 8, false)]; mkCall [(16, 2)] [] [(24, 8, false)]] in
  let services := [mkService [] [Load 16 1 false; Store 24 7]; mkService [] [Load 16 2 false; Store 24 8]] in
  (exists mo, execution AARCH64 calls services (fun _ => 0) mo) /\ ~ sequential (fun _ => 0) (in_turn calls services).
Proof.
  cbv zeta. split; [|cbn; unfold put; intros [_ [H _]]; discriminate].
  exists (client_evs 0 [0; 1; 2]%nat ++ server_evs 0 [0; 1; 2; 3; 4; 5]%nat ++ client_evs 0 [3; 4; 6]%nat ++ client_evs 1 [0; 1; 2]%nat ++
    server_evs 1 [0; 1; 2; 3]%nat ++ client_evs 0 [5]%nat ++ server_evs 1 [4; 5]%nat ++ client_evs 1 [3; 4; 5; 6]%nat).
  apply check_execution_ok. vm_compute. reflexivity.
Qed.
