(* ===== verification/Drivers.v ===== *)
(** The kernel module of tools/drivers that gives user mode access to the ARM cycle counter
    (arm-pmu-driver/pmu_el0_cycle_counter.c). The registers of a CPU and the kernel's string
    functions are parameters. *)
From Stdlib Require Import String.
From S2P Require Import Prelude Fmt Uio.

Definition BIT (n : Z) : Z := Z.shiftl 1 n.

Definition E2BIG : Z := 7.
Definition ENOTTY : Z := 25.

Module Pmu.

(** ** Registers *)

Inductive reg : Type :=
| PMINTENCLR_EL1
| PMCNTENSET_EL0
| PMUSERENR_EL0
| PMCR_EL0
| PMCCFILTR_EL0.

(** [msr] and [mrs] on the registers of one CPU. *)
Class Cpu (R : Type) : Type := {
  msr : reg -> Z -> R -> R;
  mrs : reg -> R -> Z;
}.
(** Of the ARM architecture: writing the set register of the counters sets the bits written and
    leaves the others, the user enable register reads back what is written, and each write
    leaves the other of the two alone. *)
Class CpuLaws (R : Type) `{Cpu R} : Prop := {
  cnten_set : forall v r, 0 <= v < 2 ^ 32 -> mrs PMCNTENSET_EL0 (msr PMCNTENSET_EL0 v r) = Z.lor (mrs PMCNTENSET_EL0 r) v;
  cnten_frame : forall g v r, g <> PMCNTENSET_EL0 -> mrs PMCNTENSET_EL0 (msr g v r) = mrs PMCNTENSET_EL0 r;
  userenr_write : forall v r, 0 <= v < 16 -> mrs PMUSERENR_EL0 (msr PMUSERENR_EL0 v r) = v;
  userenr_frame : forall g v r, g <> PMUSERENR_EL0 -> mrs PMUSERENR_EL0 (msr g v r) = mrs PMUSERENR_EL0 r;
}.

Section Counter.
Context {R : Type} `{Cpu R}.

(** [(u64)(1 << 31)]: the [int] is negative and is sign-extended. *)
Definition enable_cycle_counter_el0 (r : R) : R :=
  let r := msr PMINTENCLR_EL1 (u64 (s32 (Z.shiftl 1 31))) r in
  let r := msr PMCNTENSET_EL0 (BIT 31) r in
  let r := msr PMUSERENR_EL0 (Z.lor (BIT 0) (BIT 2)) r in
  let val := mrs PMCR_EL0 r in
  let val := Z.lor val (Z.lor (BIT 0) (BIT 2)) in
  let r := msr PMCR_EL0 val r in
  msr PMCCFILTR_EL0 (BIT 27) r.
Definition disable_cycle_counter_el0 (r : R) : R :=
  let r := msr PMCNTENSET_EL0 (Z.shiftl 0 31) r in
  msr PMUSERENR_EL0 0 r.
(** [on_each_cpu]. *)
Definition on_each_cpu (f : R -> R) (cpus : list R) : list R := map f cpus.

(** Whether user mode may read the counters, and whether the cycle counter counts. *)
Definition user_access (r : R) : bool := negb (Z.land (mrs PMUSERENR_EL0 r) (Z.lor (BIT 0) (BIT 2)) =? 0).
Definition counting (r : R) : bool := Z.testbit (mrs PMCNTENSET_EL0 r) 31.
End Counter.

(** ** The control file *)

(** [kstrtol] with base 0, and [strim]. *)
Class KernelStrings : Type := {
  kstrtol : bytes -> option Z;
  strim : bytes -> bytes;
}.
Class KernelStringsLaws `{KernelStrings} : Prop := {
  kstrtol_decimal : forall n, in_s64 n -> kstrtol (fmt_int n) = Some n;
  strim_word : forall l, Forall (fun c => 33 <= c < 127) l -> strim l = l;
}.

Definition PAGE_SIZE : Z := 4096.

Section File.
Context {R : Type} `{Cpu R} `{KernelStrings}.

(** [pmccntr_show]: the register of the CPU that runs it, and the characters it counts. *)
Definition pmccntr_show (cpu : R) (size : Z) : bytes * Z :=
  let text := str "PMCCNTR=" ++ [48 + (if user_access cpu then 1 else 0); 10] in
  let ret := strlen text in
  (take (Z.to_nat (size - 1)) text, if ret <? size then ret else size).

Definition pmccntr_modify (arg : bytes) (cpus : list R) : Z * list R :=
  match kstrtol arg with
  | None => (- EINVAL, cpus)
  | Some val => (0, on_each_cpu (if negb (val =? 0) then enable_cycle_counter_el0 else disable_cycle_counter_el0) cpus)
  end.

(** [simple_read_from_buffer] at position 0: the bytes copied. *)
Definition simple_read (count : Z) (buf : bytes) : bytes := take (Z.to_nat (Z.min count (strlen buf))) buf.

(** [pmuctl_read]: the bytes the user gets, or a negative code. The one control is shown with
    the user's count, which is then reduced by the length of its text. *)
Definition pmuctl_read (kzalloc_ok : bool) (cpu : R) (count ppos : Z) : Z + bytes :=
  if 0 <? ppos then inr []
  else if PAGE_SIZE <? count then inl (- E2BIG)
  else if negb kzalloc_ok then inl (- ENOMEM)
  else
    let '(text, size) := pmccntr_show cpu count in
    let buf := text ++ replicate (Z.to_nat (size - strlen text)) 0 in
    let count := count - size in
    inr (simple_read count buf).

(** [strsep(&val, "=")]: the text before the delimiter, and after it if there is one. *)
Fixpoint strsep (l : bytes) : bytes * option bytes :=
  match l with
  | [] => ([], None)
  | c :: l' => if c =? 61 then ([], Some l') else let '(name, val) := strsep l' in (c :: name, val)
  end.

(** [pmuctl_write] on the bytes the user passes; [copied] is false when copy_from_user fails.
    A page full of text has no terminator. *)
Definition pmuctl_write (kzalloc_ok copied : bool) (userbuf : bytes) (cpus : list R) : res (Z * list R) :=
  let count := strlen userbuf in
  if PAGE_SIZE <? count then Ok (- E2BIG, cpus)
  else if negb kzalloc_ok then Ok (- ENOMEM, cpus)
  else if negb copied then Ok (- EIO, cpus)
  else
    let buf := userbuf ++ replicate (Z.to_nat (PAGE_SIZE - count)) 0 in
    if negb (existsb (Z.eqb 0) buf) then Err Undefined
    else
      let '(name, val) := strsep (until_zero buf) in
      let name := strim name in
      match val with
      | None => Ok (- EINVAL, cpus)
      | Some val =>
          let val := strim val in
          if bool_decide (name = str "PMCCNTR") then
            let '(ret, cpus) := pmccntr_modify val cpus in
            Ok (if ret =? 0 then count else ret, cpus)
          else Ok (- EINVAL, cpus)
      end.

(** ** ioctl *)

Definition PMUCTL_IOC_MAGIC : Z := 241.
Definition PM_CTL_PMCCNTR : Z := 0.
Definition IOC_WRITE : Z := 1.
Definition IOC_READ : Z := 2.
Definition IOC_TYPE (cmd : Z) : Z := Z.land (Z.shiftr cmd 8) 255.
Definition IOC_SIZE (cmd : Z) : Z := Z.land (Z.shiftr cmd 16) 16383.
Definition IOC_DIR (cmd : Z) : Z := Z.land (Z.shiftr cmd 30) 3.
Definition IOW (type nr size : Z) : Z :=
  Z.lor (Z.shiftl IOC_WRITE 30) (Z.lor (Z.shiftl size 16) (Z.lor (Z.shiftl type 8) nr)).
Definition PMU_IOC_PMCCNTR : Z := IOW PMUCTL_IOC_MAGIC PM_CTL_PMCCNTR 4.

(** [access_ok] of the argument's range; [user] is the [enable] member when it can be copied.
    The test for a write request looks at the type of the command. *)
Definition pmuctl_ioctl (access_ok : Z -> bool) (user : option Z) (cmd : Z) (cpus : list R) : Z * list R :=
  if negb (IOC_TYPE cmd =? PMUCTL_IOC_MAGIC) then (- ENOTTY, cpus)
  else
    let err := if negb (Z.land (IOC_DIR cmd) IOC_READ =? 0) then negb (access_ok (IOC_SIZE cmd))
               else if negb (Z.land (IOC_TYPE cmd) IOC_WRITE =? 0) then negb (access_ok (IOC_SIZE cmd))
               else false in
    if err then (- EFAULT, cpus)
    else if cmd =? PMU_IOC_PMCCNTR then
      match user with
      | None => (- EIO, cpus)
      | Some enable =>
          (0, on_each_cpu (if negb (enable =? 0) then enable_cycle_counter_el0 else disable_cycle_counter_el0) cpus)
      end
    else (- ENOTTY, cpus).

(** [init] and [fini]; [ret] is what misc_register reports. *)
Definition init (ret : Z) (cpus : list R) : Z * list R :=
  if negb (ret =? 0) then (ret, cpus) else (0, on_each_cpu enable_cycle_counter_el0 cpus).
Definition fini (cpus : list R) : list R := on_each_cpu disable_cycle_counter_el0 cpus.
End File.

(** ** What the driver does *)

Section Laws.
Context {R : Type} `{CpuLaws R}.

Lemma enable_spec r : user_access (enable_cycle_counter_el0 r) = true /\ counting (enable_cycle_counter_el0 r) = true.
Proof.
  unfold user_access, counting, enable_cycle_counter_el0. split.
  - rewrite !userenr_frame by discriminate. rewrite userenr_write by (vm_compute; split; congruence). reflexivity.
  - rewrite !cnten_frame by discriminate. rewrite cnten_set by (vm_compute; split; congruence).
    rewrite Z.lor_spec. apply orb_true_r.
Qed.

(** Disabling takes the access of user mode away, but writes zero to the register that sets
    bits, so a counter that counts keeps counting. *)
Lemma disable_spec r :
  user_access (disable_cycle_counter_el0 r) = false /\ counting (disable_cycle_counter_el0 r) = counting r.
Proof.
  unfold user_access, counting, disable_cycle_counter_el0. split.
  - rewrite userenr_write by lia. reflexivity.
  - rewrite cnten_frame by discriminate. rewrite cnten_set by (vm_compute; split; congruence).
    change (Z.shiftl 0 31) with 0. now rewrite Z.lor_0_r.
Qed.

(** After loading and unloading the module the cycle counter of every CPU is still enabled. *)
Theorem unloaded_module_leaves_counter_running (cpus : list R) :
  Forall (fun r => user_access r = false /\ counting r = true) (fini (snd (init 0 cpus))).
Proof.
  unfold init, fini, on_each_cpu. cbn [negb Z.eqb snd]. rewrite map_map, List.Forall_map. apply List.Forall_forall.
  intros r _. destruct (enable_spec r) as [_ Hc]. destruct (disable_spec (enable_cycle_counter_el0 r)) as [Hu Hk].
  now rewrite Hk, Hc.
Qed.

Context `{KernelStringsLaws}.

Lemma strsep_word name rest : 61 ∉ name -> strsep (name ++ 61 :: rest) = (name, Some rest).
Proof.
  intros Hn. induction name as [|c name IH]; cbn [app strsep]; [reflexivity|].
  rewrite (proj2 (Z.eqb_neq c 61)) by set_solver. now rewrite IH by set_solver.
Qed.

Lemma fmt_int_printable n : in_s64 n -> Forall (fun c => 33 <= c < 127) (fmt_int n).
Proof.
  intros Hn. apply List.Forall_forall. intros c Hc. apply list_elem_of_In in Hc.
  apply (fmt_dec_chars 0 n c Hn) in Hc. lia.
Qed.

Lemma control_text_short n : in_s64 n ->
  strlen (str "PMCCNTR=" ++ fmt_int n) < PAGE_SIZE /\ cstr (str "PMCCNTR=" ++ fmt_int n).
Proof.
  intros Hn. split.
  - unfold strlen. rewrite length_app. pose proof (fmt_int_short n Hn). cbn [length str]. unfold PAGE_SIZE. cbn. lia.
  - apply Forall_app. split; [repeat constructor; vm_compute; congruence|].
    eapply List.Forall_impl; [|apply (fmt_int_printable n Hn)]. cbn. lia.
Qed.

(** writing PMCCNTR=n to the control file sets the access of user mode on every CPU, to
    granted exactly when n is not zero, and the file then shows that state; the call reports
    the whole text as written. *)
Theorem control_file_roundtrip n (cpus : list R) :
  in_s64 n ->
  let text := str "PMCCNTR=" ++ fmt_int n in
  exists cpus', pmuctl_write true true text cpus = Ok (strlen text, cpus') /\
    length cpus' = length cpus /\
    Forall (fun r => user_access r = negb (n =? 0) /\
      pmuctl_read true r PAGE_SIZE 0 = inr (str "PMCCNTR=" ++ [if n =? 0 then 48 else 49; 10])) cpus'.
Proof.
  intros Hn text. destruct (control_text_short n Hn) as [Hl Hz]. fold text in Hl, Hz. unfold pmuctl_write.
  rewrite (proj2 (Z.ltb_ge PAGE_SIZE (strlen text))) by lia. cbn [negb].
  replace (Z.to_nat (PAGE_SIZE - strlen text)) with (S (Z.to_nat (PAGE_SIZE - strlen text) - 1)) by lia.
  cbn [replicate]. rewrite existsb_app. cbn [existsb Z.eqb orb]. rewrite orb_true_r. cbn [negb].
  rewrite until_zero_cstr by exact Hz.
  change text with (str "PMCCNTR" ++ 61 :: fmt_int n) at 1.
  rewrite strsep_word by (apply (bool_decide_unpack _); vm_compute; exact I).
  rewrite !strim_word; [|now apply fmt_int_printable|repeat constructor; vm_compute; congruence].
  rewrite bool_decide_true by reflexivity. unfold pmccntr_modify. rewrite kstrtol_decimal by exact Hn.
  eexists. split; [reflexivity|]. split; [apply length_map|]. unfold on_each_cpu. rewrite List.Forall_map.
  apply List.Forall_forall. intros r _. unfold pmuctl_read, pmccntr_show. destruct (n =? 0); cbn [negb].
  - destruct (disable_spec r) as [Hu _]. rewrite Hu. split; reflexivity.
  - destruct (enable_spec r) as [Hu _]. rewrite Hu. split; reflexivity.
Qed.
End Laws.

(** Registers as numbers. *)
Record cpu_regs : Type := mkRegs { cnten : Z; userenr : Z }.
#[export] Instance demo_cpu : Cpu cpu_regs := {
  msr g v r := match g with
               | PMCNTENSET_EL0 => mkRegs (Z.lor (cnten r) v) (userenr r)
               | PMUSERENR_EL0 => mkRegs (cnten r) v
               | _ => r
               end;
  mrs g r := match g with PMCNTENSET_EL0 => cnten r | PMUSERENR_EL0 => userenr r | _ => 0 end;
}.
#[export] Instance demo_cpu_laws : CpuLaws cpu_regs.
Proof. split; intros; try destruct g; try reflexivity; contradiction. Qed.
#[export] Instance demo_strings : KernelStrings := {
  kstrtol := parse_int;
  strim l := l;
}.
#[export] Instance demo_strings_laws : KernelStringsLaws.
Proof. split; [|reflexivity]. intros n Hn. apply parse_fmt_dec. unfold in_s64 in Hn. lia. Qed.

Lemma control_file_roundtrip_witness :
  exists cpus', pmuctl_write true true (str "PMCCNTR=1") [mkRegs 0 0; mkRegs 0 0] = Ok (9, cpus') /\ length cpus' = 2%nat /\
    Forall (fun r => user_access r = true /\ pmuctl_read true r PAGE_SIZE 0 = inr (str "PMCCNTR=1" ++ [10])) cpus'.
Proof. apply (control_file_roundtrip 1 [mkRegs 0 0; mkRegs 0 0]). unfold in_s64. lia. Defined.

(** A reader whose buffer has room for the text, but not for twice its length, gets only a part
    of it: with 12 bytes two characters, with 10 bytes none. *)
Theorem short_reads_lose_text :
  pmuctl_read true (mkRegs 0 5) 12 0 = inr (str "PM") /\ pmuctl_read true (mkRegs 0 5) 10 0 = inr [] /\
  strlen (str "PMCCNTR=1" ++ [10]) = 10.
Proof. vm_compute. repeat split. Qed.
End Pmu.
