(* ===== verification/Ivshmem.v ===== *)
(** The PCI driver of the shared memory device, tools/drivers/ivshmem-driver/uio-ivshmem.c, on
    top of the userspace I/O core. *)
From Stdlib Require Import String.
From S2P Require Import Prelude Fmt Uio UioFile UioLife UioSafe UioMap.

(** ** What the driver holds *)

(** Beside the [uio_info], which is an object of the kernel state, and the UIO device. *)
Inductive resource : Type :=
| IvshmemInfo
| EnabledDevice
| Regions.
#[export] Instance resource_eq_dec : EqDecision resource.
Proof. solve_decision. Defined.

(** [drvdata] is the [uio] member of what [pci_set_drvdata] stored, [master] whether the device
    may start transfers on the bus. *)
Record pci_state : Type := mkPci { kern : kernel; held : list resource; drvdata : option nat; master : bool }.
Definition set_kern (k : kernel) (s : pci_state) : pci_state := mkPci k (held s) (drvdata s) (master s).
Definition set_held (h : list resource) (s : pci_state) : pci_state := mkPci (kern s) h (drvdata s) (master s).
Definition set_drvdata (o : option nat) (s : pci_state) : pci_state := mkPci (kern s) (held s) o (master s).
Definition set_master (b : bool) (s : pci_state) : pci_state := mkPci (kern s) (held s) (drvdata s) b.
Definition kernelM {A} (m : M kernel A) : M pci_state A := zoomM kern set_kern m.

(** Acquiring what is held already, or releasing what is not held, is an error of the driver. *)
Definition acquire (r : resource) : M pci_state unit :=
  let* s := getM in do* definedM (bool_decide (r ∉ held s)) in putM (set_held (r :: held s) s).
Definition release (r : resource) : M pci_state unit :=
  let* s := getM in do* definedM (bool_decide (r ∈ held s)) in putM (set_held (filter (fun x => x <> r) (held s)) s).
(** [pci_set_master], and [pci_disable_device], which also ends bus mastering. *)
Definition pci_set_master : M pci_state unit := modifyM (set_master true).
Definition pci_disable_device : M pci_state unit := do* release EnabledDevice in modifyM (set_master false).

(** [kzalloc(sizeof(struct uio_info))], and [kfree]. *)
Definition zero_mem : uio_mem := mkMem None 0 0 0 0 None.
Definition zero_port : uio_port := mkPort None 0 0 0 None.
Definition zero_info : uio_info :=
  mkInfo None None None (replicate MAX_UIO_MAPS zero_mem) (replicate MAX_UIO_PORT_REGIONS zero_port) 0 false false false false false.
Definition new_info (i : nat) : M kernel unit := modifyM (fun k => set_infos (<[i := zero_info]> (infos k)) k).
Definition kfree_info (i : nat) : M kernel unit := let* _ := deref infos i in modifyM (fun k => set_infos (delete i (infos k)) k).

(** What the device's second resource is: [pci_resource_start(dev, 2)] and [pci_resource_len]. *)
Record pci_dev : Type := mkDev { resource_start : Z; resource_len : Z }.
(** [info->mem[0]], then [info->name] and [info->version] as the probe function sets them. *)
Definition fill_mem (dev : pci_dev) (f : uio_info) : uio_info :=
  upd_mem 0 (fun m => mkMem (Some (str "shmem")) (resource_start dev) (mem_offs m) (resource_len dev) UIO_MEM_PHYS (mem_map m)) f.
Definition fill_names (f : uio_info) : uio_info :=
  mkInfo (info_uio_dev f) (Some (str "uio_ivshmem")) (Some (str "0.0.1")) (info_mem f)
    (info_port f) (info_irq f) (info_handler f) (info_mmap f) (info_open f) (info_release f) (info_irqcontrol f).

(** The error exits of [ivshmem_pci_probe], from the last one back. *)
Definition out_free (i : nat) : M pci_state Z :=
  do* release IvshmemInfo in do* kernelM (kfree_info i) in retM (- ENODEV).
Definition out_disable (i : nat) : M pci_state Z := do* pci_disable_device in out_free i.
Definition out_unmap (i : nat) : M pci_state Z := do* release Regions in out_disable i.

(** [owner] is this module and [parent] the device. *)
Definition ivshmem_pci_probe (owner parent : nat) (dev : pci_dev) : M pci_state Z :=
  let* info := kernelM kmalloc in
  match info with
  | None => retM (- ENOMEM)
  | Some i =>
      do* kernelM (new_info i) in
      let* a := kernelM ask in
      if negb (a =? 0) then do* kernelM (kfree_info i) in retM (- ENOMEM)
      else
        do* acquire IvshmemInfo in
        let* a := kernelM ask in
        if negb (a =? 0) then out_free i
        else
          do* acquire EnabledDevice in
          let* a := kernelM ask in
          if negb (a =? 0) then out_disable i
          else
            do* acquire Regions in
            if resource_start dev =? 0 then out_unmap i
            else
              do* kernelM (upd_info i (fill_mem dev)) in
              do* pci_set_master in
              do* kernelM (upd_info i fill_names) in
              let* ret := kernelM (__uio_register_device owner (Some parent) (Some i)) in
              if negb (ret =? 0) then out_unmap i
              else
                do* modifyM (set_drvdata (Some i)) in
                retM 0
  end.

Definition ivshmem_pci_remove : M pci_state unit :=
  let* s := getM in
  match drvdata s with
  | None => failM Undefined
  | Some i =>
      do* modifyM (set_drvdata None) in
      do* kernelM (uio_unregister_device (Some i)) in
      do* release Regions in
      do* pci_disable_device in
      do* kernelM (kfree_info i) in
      release IvshmemInfo
  end.

(** ** What probing acquires *)

Lemma kernelM_run {A} (m : M kernel A) s a k' : m (kern s) = (Ok a, k') -> kernelM m s = (Ok a, set_kern k' s).
Proof. intros H. unfold kernelM, zoomM. now rewrite H. Qed.

Lemma acquire_run r s : r ∉ held s -> acquire r s = (Ok tt, set_held (r :: held s) s).
Proof. intros H. unfold acquire, bindM, getM, definedM. now rewrite bool_decide_true. Qed.

Lemma release_run r s h : held s = r :: h -> r ∉ h -> release r s = (Ok tt, set_held h s).
Proof.
  intros E H. unfold release, bindM, getM, definedM. rewrite bool_decide_true by (rewrite E; set_solver). cbn. rewrite E.
  rewrite filter_cons_False by tauto. rewrite filter_all; [reflexivity|]. set_solver.
Qed.

Lemma disable_run s h : held s = EnabledDevice :: h -> EnabledDevice ∉ h ->
  pci_disable_device s = (Ok tt, set_master false (set_held h s)).
Proof. intros E H. unfold pci_disable_device. now rewrite (bindM_run _ _ _ _ _ (release_run _ s h E H)). Qed.

(** [k] with answers and numbers used and the description [f] at [i]. *)
Definition with_desc (k : kernel) (i : nat) (a : list Z) (n : nat) (f : uio_info) : kernel :=
  set_answers a (set_next n (set_infos (<[i := f]> (infos k)) k)).

Lemma ask_desc k i a n f : exists r a', ask (with_desc k i a n f) = (Ok r, with_desc k i a' n f).
Proof. destruct (ask_run (with_desc k i a n f)) as (r & a' & H). exists r, a'. rewrite H. unfold with_desc. now destruct k. Qed.

Lemma upd_desc k i a n f g : upd_info i g (with_desc k i a n f) = (Ok tt, with_desc k i a n (g f)).
Proof.
  unfold upd_info. rewrite (bindM_run _ _ _ (with_desc k i a n f) f) by (apply deref_run; unfold with_desc; destruct k; apply lookup_insert_eq).
  unfold modifyM, with_desc. destruct k. cbn. now rewrite insert_insert_eq.
Qed.

Lemma kfree_desc k i a n f : infos k !! i = None -> kfree_info i (with_desc k i a n f) = (Ok tt, set_answers a (set_next n k)).
Proof.
  intros Hi. unfold kfree_info. rewrite (bindM_run _ _ _ (with_desc k i a n f) f)
    by (apply deref_run; unfold with_desc; destruct k; apply lookup_insert_eq).
  unfold modifyM, with_desc. destruct k. cbn in *. now rewrite delete_insert_id.
Qed.

Lemma given_back_desc k i a n f k' :
  given_back i f (with_desc k i a n f) k' -> exists a' n' f', k' = with_desc k i a' n' f' /\ (n <= n')%nat.
Proof.
  intros (a' & n' & f' & -> & _ & Hn). exists a', n', f'. unfold with_desc in *. destruct k. cbn in *. now rewrite insert_insert_eq.
Qed.

Section Probe.
Context (k : kernel) (dd : option nat) (owner parent : nat) (dev : pci_dev).
Let i : nat := next k.
Hypothesis Hfresh : numbers_fresh k.
Hypothesis Hinfos : forall x, (next k <= x)%nat -> infos k !! x = None.

(** The exits of the probe function release what is held. *)
Definition failed (r : res Z * pci_state) : Prop :=
  exists ret k', r = (Ok ret, mkPci k' [] dd false) /\ ret <> 0 /\ spent k k'.

Lemma out_free_run a n f : (i < n)%nat -> failed (out_free i (mkPci (with_desc k i a n f) [IvshmemInfo] dd false)).
Proof.
  intros Hn. unfold out_free. rewrite (bindM_run _ _ _ _ _ (release_run IvshmemInfo (mkPci _ _ _ _) [] eq_refl ltac:(set_solver))).
  assert (Hi : infos k !! i = None) by (apply Hinfos; unfold i; lia).
  rewrite (bindM_run _ _ _ _ _ (kernelM_run _ (set_held [] (mkPci (with_desc k i a n f) [IvshmemInfo] dd false)) _ _ (kfree_desc k i a n f Hi))).
  exists (- ENODEV). eexists. split; [reflexivity|]. split; [discriminate|]. exists a, n. split; [unfold i in Hn; lia|reflexivity].
Qed.

Lemma out_disable_run a n f b : (i < n)%nat -> failed (out_disable i (mkPci (with_desc k i a n f) [EnabledDevice; IvshmemInfo] dd b)).
Proof.
  intros Hn. unfold out_disable. rewrite (bindM_run _ _ _ _ _ (disable_run (mkPci _ _ _ _) [IvshmemInfo] eq_refl ltac:(set_solver))).
  now apply out_free_run.
Qed.

Lemma out_unmap_run a n f b : (i < n)%nat -> failed (out_unmap i (mkPci (with_desc k i a n f) [Regions; EnabledDevice; IvshmemInfo] dd b)).
Proof.
  intros Hn. unfold out_unmap.
  rewrite (bindM_run _ _ _ _ _ (release_run Regions (mkPci _ _ _ _) [EnabledDevice; IvshmemInfo] eq_refl ltac:(set_solver))).
  now apply out_disable_run.
Qed.

(** The description the probe function registers. *)
Definition probed_info : uio_info := fill_names (fill_mem dev zero_info).
(** The state after a successful probe: the device is set up on [kb]. *)
Definition probed (r : res Z * pci_state) : Prop :=
  exists a n s, let kb := with_desc k i a n probed_info in
    let m := lowest_free (uio_idr k) (size (uio_idr k)) 0 in
    (i < n)%nat /\ resource_start dev <> 0 /\ r = (Ok 0, mkPci (att (with_irq kb n m probed_info) n i s) [Regions; EnabledDevice; IvshmemInfo] (Some i) true) /\
    set_up kb owner n i m probed_info s.

Lemma ask_step {B} (g : Z -> M pci_state B) (P : res B * pci_state -> Prop) a n f h b :
  (forall r a', P (g r (mkPci (with_desc k i a' n f) h dd b))) -> P ((let* r := kernelM ask in g r) (mkPci (with_desc k i a n f) h dd b)).
Proof.
  intros H. destruct (ask_desc k i a n f) as (r & a' & Ha).
  rewrite (bindM_run _ _ _ _ _ (kernelM_run ask (mkPci (with_desc k i a n f) h dd b) _ _ Ha)). apply H.
Qed.

Definition probe_outcome (r : res Z * pci_state) : Prop := failed r \/ probed r.
Lemma probe_run : probe_outcome (ivshmem_pci_probe owner parent dev (mkPci k [] dd false)).
Proof.
  unfold ivshmem_pci_probe. destruct (kmalloc_run k) as (a & [Hk|Hk]);
    rewrite (bindM_run _ _ _ _ _ (kernelM_run kmalloc (mkPci k [] dd false) _ _ Hk)).
  { left. exists (- ENOMEM). eexists. split; [reflexivity|]. split; [discriminate|]. exists a, (next k). split; [lia|now destruct k]. }
  fold i. rewrite (bindM_run _ _ _ (mkPci (with_desc k i a (S i) zero_info) [] dd false) tt)
    by (unfold kernelM, zoomM, new_info, modifyM, with_desc, i; now destruct k).
  apply (ask_step _ probe_outcome). intros r a0. destruct (r =? 0); cbn [negb].
  2: { left. assert (Hi : infos k !! i = None) by (apply Hinfos; unfold i; lia).
       rewrite (bindM_run _ _ _ _ _ (kernelM_run _ (mkPci _ [] dd false) _ _ (kfree_desc k i a0 (S i) zero_info Hi))).
       exists (- ENOMEM). eexists. split; [reflexivity|]. split; [discriminate|]. exists a0, (S i). split; [unfold i; lia|reflexivity]. }
  rewrite (bindM_run _ _ _ _ _ (acquire_run IvshmemInfo (mkPci _ [] dd false) ltac:(set_solver))). cbn [set_held kern held drvdata master].
  apply (ask_step _ probe_outcome). intros r' a1. destruct (r' =? 0); cbn [negb]; [|left; apply out_free_run; lia].
  rewrite (bindM_run _ _ _ _ _ (acquire_run EnabledDevice (mkPci _ [IvshmemInfo] dd false) ltac:(set_solver))). cbn [set_held kern held drvdata master].
  apply (ask_step _ probe_outcome). intros r'' a2. destruct (r'' =? 0); cbn [negb]; [|left; apply out_disable_run; lia].
  rewrite (bindM_run _ _ _ _ _ (acquire_run Regions (mkPci _ [EnabledDevice; IvshmemInfo] dd false) ltac:(set_solver))).
  destruct (Z.eqb_spec (resource_start dev) 0) as [_|Hstart]; [left; apply out_unmap_run; lia|].
  set (kb := with_desc k i a2 (S i) probed_info).
  rewrite (bindM_run _ _ _ _ _ (kernelM_run _ (set_held _ (mkPci _ _ _ _)) _ _ (upd_desc k i a2 (S i) zero_info (fill_mem dev)))).
  rewrite (bindM_run _ _ _ (mkPci (with_desc k i a2 (S i) (fill_mem dev zero_info)) [Regions; EnabledDevice; IvshmemInfo] dd true) tt) by reflexivity.
  rewrite (bindM_run _ _ _ _ _ (kernelM_run _ (mkPci _ _ _ _) _ _ (upd_desc k i a2 (S i) (fill_mem dev zero_info) fill_names))).
  change (set_kern _ _) with (mkPci kb [Regions; EnabledDevice; IvshmemInfo] dd true).
  assert (Hn : next kb = S i) by (unfold kb, with_desc; now destruct k).
  destruct (register_run kb owner parent i probed_info) as (ret & k1 & Hr & Hout).
  - unfold kb, with_desc. destruct k. apply lookup_insert_eq.
  - now split.
  - destruct Hfresh. unfold kb, with_desc, i in *. split; destruct k; cbn in *; intros; auto with lia.
  - rewrite (bindM_run _ _ _ _ _ (kernelM_run _ (mkPci kb _ dd _) _ _ Hr)). destruct Hout as [[Hret Hg]|(-> & s & -> & Hsu)].
    + left. rewrite (proj2 (Z.eqb_neq ret 0) Hret). cbn [negb]. destruct (given_back_desc _ _ _ _ _ _ Hg) as (a' & n' & f' & -> & Hn').
      apply out_unmap_run. lia.
    + right. exists a2, (S i), s. rewrite Hn in *. replace (uio_idr kb) with (uio_idr k) in * by (unfold kb, with_desc; now destruct k).
      fold kb. split; [lia|]. split; [exact Hstart|]. split; [reflexivity|exact Hsu].
Qed.
End Probe.

(** What the probe function does with the answers it gets. *)
Abbreviation preports := (reports (fun s => answers (kern s))).

Lemma reports_kernelM {A} (P : A -> Prop) (m : M kernel A) : reports answers P m -> preports P (kernelM m).
Proof.
  intros H s a s'. unfold kernelM, zoomM. destruct (m (kern s)) as [x k'] eqn:E. intros Hr. inversion Hr. subst.
  exact (H _ _ _ E).
Qed.
Lemma quiet_held {A} (m : M pci_state A) : (forall s a s', m s = (Ok a, s') -> kern s' = kern s) -> preports (fun _ => True) m.
Proof. intros H. apply quiet_state. intros s a s' Hr. now rewrite (H _ _ _ Hr). Qed.
Lemma quiet_acquire r : preports (fun _ => True) (acquire r).
Proof. apply quiet_held. intros s a s'. unfold acquire, bindM, getM, definedM. case_bool_decide; cbn; intros Hr; now inversion Hr. Qed.
Lemma quiet_release r : preports (fun _ => True) (release r).
Proof. apply quiet_held. intros s a s'. unfold release, bindM, getM, definedM. case_bool_decide; cbn; intros Hr; now inversion Hr. Qed.
#[local] Hint Resolve quiet_acquire quiet_release reports_kernelM : reports.
Lemma quiet_kfree_info i : preports (fun _ => True) (kernelM (kfree_info i)).
Proof. apply reports_kernelM, reports_after; auto with reports. Qed.
Abbreviation psettles := (settles (fun s => answers (kern s))).
Lemma out_settles i :
  psettles (- ENODEV) (out_free i) /\ psettles (- ENODEV) (out_disable i) /\ psettles (- ENODEV) (out_unmap i).
Proof.
  assert (Hd : preports (fun _ => True) pci_disable_device) by (apply reports_after; [apply quiet_release|]; intros _; quiet_modify).
  unfold out_unmap, out_disable, out_free. auto 12 using settles_after, settles_ret, quiet_release, quiet_kfree_info.
Qed.

(** A call whose failure leads to an exit with an error. *)
Lemma preports_exit (m : M kernel Z) (err f : M pci_state Z) e : e <> 0 -> reports answers (eq 0) m ->
  psettles e err -> preports (eq 0) f ->
  preports (eq 0) (let* a := kernelM m in if negb (a =? 0) then err else f).
Proof.
  intros He Hm Herr Hf. apply (reports_bind _ (eq 0)); [now apply reports_kernelM| |]; intros a.
  - destruct (a =? 0); cbn; [exact Hf|]. apply (reports_weaken _ (fun _ => True)); [apply Herr|auto].
  - intros s b s' H E. destruct (Z.eqb_spec a 0) as [->|]; [reflexivity|]. cbn in H. apply Herr in H. congruence.
Qed.

Lemma probe_reports owner parent dev : preports (eq 0) (ivshmem_pci_probe owner parent dev).
Proof.
  unfold ivshmem_pci_probe. apply (reports_bind _ is_Some _ _ _ (reports_kernelM _ _ reports_kmalloc)).
  2: { intros [x|] s b s' H Hb; [eauto|]. exfalso. inversion H. subst. discriminate. }
  intros [i|]; [|apply reports_ret]. destruct (out_settles i) as (H1 & H2 & H3).
  apply reports_after; [apply reports_kernelM; quiet_modify|]. intros _.
  apply (preports_exit _ _ _ (- ENOMEM)); [discriminate|apply reports_ask|auto using settles_after, settles_ret, quiet_kfree_info|].
  apply reports_after; [apply quiet_acquire|]. intros _.
  apply (preports_exit _ _ _ (- ENODEV)); [discriminate|apply reports_ask|exact H1|].
  apply reports_after; [apply quiet_acquire|]. intros _.
  apply (preports_exit _ _ _ (- ENODEV)); [discriminate|apply reports_ask|exact H2|].
  apply reports_after; [apply quiet_acquire|]. intros _.
  destruct (resource_start dev =? 0); [apply (reports_weaken _ (fun _ => True)); [apply H3|auto]|].
  apply reports_after; [apply reports_kernelM, quiet_upd_info|]. intros _. apply reports_after; [quiet_modify|]. intros _.
  apply reports_after; [apply reports_kernelM, quiet_upd_info|]. intros _.
  apply (preports_exit _ _ _ (- ENODEV)); [discriminate|apply register_reports|exact H3|].
  apply reports_after; [quiet_modify|]. intros _. apply reports_ret.
Qed.

(** C39: whichever call of the probe function fails, everything acquired until then is released,
    each thing once, and bus mastering is off again; when one of the answers of the kernel that
    were taken ([used]) is an error code, or the device has no shared memory, an error is
    reported; when none fails the device is registered, and removing it releases everything. *)
Theorem probe_releases_on_failure k dd owner parent dev :
  numbers_fresh k -> (forall x, (next k <= x)%nat -> infos k !! x = None) ->
  exists ret s, ivshmem_pci_probe owner parent dev (mkPci k [] dd false) = (Ok ret, s) /\
    (exists used, answers k = used ++ answers (kern s) /\ (Exists (fun a => a < 0) used -> ret <> 0)) /\
    (resource_start dev = 0 -> ret <> 0) /\
    (ret <> 0 -> spent k (kern s) /\ held s = [] /\ drvdata s = dd /\ master s = false) /\
    (ret = 0 -> drvdata s = Some (next k) /\ master s = true /\
      exists s', ivshmem_pci_remove s = (Ok tt, s') /\ spent k (kern s') /\ held s' = [] /\ drvdata s' = None /\ master s' = false).
Proof.
  intros Hfresh Hinfos. pose proof (probe_reports owner parent dev) as Hrep. destruct (probe_run k dd owner parent dev Hfresh Hinfos) as [(ret & k' & Hr & Hret & Hs)|Hp].
  - exists ret. eexists. split; [exact Hr|]. split; [exact (reports_errors _ _ _ _ _ Hrep Hr)|]. easy.
  - destruct Hp as (a & n & s & Hn & Hstart & Hr & Hsu). pose proof (reports_errors _ _ _ _ _ Hrep Hr) as Herr. rewrite Hr. set (i := next k) in *. set (kb := with_desc k i a n (probed_info dev)) in *.
    exists 0. eexists. split; [reflexivity|]. split; [exact Herr|]. split; [easy|]. split; [easy|]. intros _. split; [reflexivity|]. split; [reflexivity|].
    unfold ivshmem_pci_remove. unfold getM at 1. cbn [bindM drvdata modifyM].
    destruct (unregister_set_up kb owner n i (lowest_free (uio_idr k) (size (uio_idr k)) 0) (probed_info dev) s) as (k2 & Hun & Hg); try exact Hsu.
    + unfold kb, with_desc. destruct k. cbn in *. apply (fresh_idevs _ Hfresh). cbn. unfold i in Hn. cbn in Hn. lia.
    + replace (uio_idr kb) with (uio_idr k) by (unfold kb, with_desc; now destruct k). apply lowest_free_free.
    + unfold kb, with_desc. now destruct k.
    + intros q. replace (irqs kb) with (irqs k) by (unfold kb, with_desc; now destruct k). apply (fresh_irqs k Hfresh). unfold i in Hn. lia.
    + now split.
    + destruct (given_back_desc _ _ _ _ _ _ Hg) as (a' & n' & f' & -> & Hn').
      rewrite (bindM_run _ _ _ _ _ (kernelM_run _ (set_drvdata None (mkPci _ _ _ _)) _ _ Hun)).
      change (set_kern _ _) with (mkPci (with_desc k i a' n' f') [Regions; EnabledDevice; IvshmemInfo] None true).
      rewrite (bindM_run _ _ _ _ _ (release_run Regions (mkPci _ [Regions; EnabledDevice; IvshmemInfo] _ _) [EnabledDevice; IvshmemInfo]
        eq_refl ltac:(set_solver))).
      change (set_held _ _) with (mkPci (with_desc k i a' n' f') [EnabledDevice; IvshmemInfo] None true).
      rewrite (bindM_run _ _ _ _ _ (disable_run (mkPci _ [EnabledDevice; IvshmemInfo] _ _) [IvshmemInfo]
        eq_refl ltac:(set_solver))).
      change (set_master _ _) with (mkPci (with_desc k i a' n' f') [IvshmemInfo] None false).
      assert (Hi : infos k !! i = None) by (apply Hinfos; unfold i; lia).
      rewrite (bindM_run _ _ _ _ _ (kernelM_run (kfree_info i) (mkPci _ [IvshmemInfo] _ _) _ _ (kfree_desc k i a' n' f' Hi))).
      eexists. split; [now apply (release_run IvshmemInfo _ [])|]. cbn. split; [|easy]. exists a', n'. split; [unfold i in Hn; lia|reflexivity].
Qed.

Lemma probe_releases_on_failure_witness :
  exists s, ivshmem_pci_probe 7 3 (mkDev 4294967296 16777216) (mkPci (set_infos ∅ demo_kernel) [] None false) = (Ok 0, s) /\
    exists s', ivshmem_pci_remove s = (Ok tt, s') /\ spent (set_infos ∅ demo_kernel) (kern s') /\ held s' = [] /\
      drvdata s' = None /\ master s' = false.
Proof.
  destruct (probe_releases_on_failure (set_infos ∅ demo_kernel) None 7 3 (mkDev 4294967296 16777216)) as (ret & s & Hr & _ & _ & _ & Hok).
  - split; intros; apply lookup_empty || apply not_elem_of_nil.
  - intros. apply lookup_empty.
  - assert (E : fst (ivshmem_pci_probe 7 3 (mkDev 4294967296 16777216) (mkPci (set_infos ∅ demo_kernel) [] None false)) = Ok 0)
      by (vm_compute; reflexivity).
    rewrite Hr in E. injection E as ->. exists s. split; [exact Hr|]. now apply Hok.
Defined.
