(* ===== verification/ShmMap.v ===== *)
(** How the backends and the server attach the shared memory: [get_shm] of client.cpp and of
    server.cpp and tdx_shm.hpp, over a machine whose files are a file in /dev/shm, the UIO
    device and the physical memory. *)
From Stdlib Require Import String.
From S2P Require Import Prelude Fmt Shm Uio UioFile UioLife UioSafe UioMap Ivshmem.

(** ** Files and mappings of a machine *)

Inductive path : Type := SHM_NAME | DEV_UIO0 | DEV_MEM.
(** What a descriptor refers to; a UIO file is known by its listener. *)
Inductive file : Type := ShmFile | UioFile (l : nat) | MemFile.
#[export] Instance file_eq_dec : EqDecision file.
Proof. solve_decision. Defined.

(** One machine, on which server and backends run: the deployment in which they are in two virtual
    machines that share the memory of the device is not modelled. [os_shm] and [os_mem] say
    whether the files can be opened; [os_open] are the descriptors that are open. *)
Record os : Type := mkOs { os_kernel : kernel; os_shm : bool; os_mem : bool; os_open : list file }.
Definition set_os_kernel (k : kernel) (o : os) : os := mkOs k (os_shm o) (os_mem o) (os_open o).
Definition set_os_open (l : list file) (o : os) : os := mkOs (os_kernel o) (os_shm o) (os_mem o) l.
Definition osK {A} (m : M kernel A) : M os A := zoomM os_kernel set_os_kernel m.

Definition opened_as (f : file) : M os (option file) :=
  do* modifyM (fun o => set_os_open (f :: os_open o) o) in retM (Some f).
Definition open (p : path) : M os (option file) :=
  let* o := getM in
  match p with
  | SHM_NAME => if os_shm o then opened_as ShmFile else retM None
  | DEV_MEM => if os_mem o then opened_as MemFile else retM None
  | DEV_UIO0 =>
      let* r := osK (uio_open 0) in
      match r with inl _ => retM None | inr l => opened_as (UioFile l) end
  end.
Definition remove_one (f : file) (l : list file) : list file :=
  match list_find (fun x => x = f) l with Some (n, _) => delete n l | None => l end.
Definition close (f : file) : M os unit :=
  let* o := getM in
  do* definedM (bool_decide (f ∈ os_open o)) in
  modifyM (fun o => set_os_open (remove_one f (os_open o)) o).

(** A mapping of the file at an offset, of a range of physical memory, or of a UIO area. *)
Inductive mapping : Type :=
| OfFile (offset : Z)
| OfPhysical (base : Z)
| OfArea (v : vm_area).
Definition page_up (n : Z) : Z := (n + 4095) / 4096 * 4096.
(** [mmap(0, size, PROT_READ | PROT_WRITE, MAP_SHARED, fd, offset)]; the kernel places a UIO
    area at [addr]. *)
Definition mmap (addr size : Z) (fd : file) (offset : Z) : M os (option mapping) :=
  match fd with
  | ShmFile => let* a := osK ask in retM (if a =? 0 then Some (OfFile offset) else None)
  | MemFile => let* a := osK ask in retM (if a =? 0 then Some (OfPhysical offset) else None)
  | UioFile l =>
      let* ' (ret, v) := osK (uio_mmap l (mkVma addr (addr + page_up size) (offset / 4096) None None 0 None)) in
      retM (if ret =? 0 then Some (OfArea v) else None)
  end.

(** Where byte [x] of a mapping is: in the file, or in physical memory or in a page of the
    kernel's. *)
Inductive location : Type :=
| InFile (a : Z)
| InMemory (a : Z)
| InPage (p : page) (a : Z).
Definition locate (m : mapping) (x : Z) : M kernel (option location) :=
  match m with
  | OfFile offset => retM (Some (InFile (offset + x)))
  | OfPhysical base => retM (Some (InMemory (base + x)))
  | OfArea v =>
      let* r := access_page v (x / 4096) in
      retM (match r with
            | inl n => Some (InMemory (n * 4096 + x mod 4096))
            | inr (inr p) => Some (InPage p (x mod 4096))
            | inr (inl _) => None
            end)
  end.

(** ** tdx_shm.hpp *)

Definition TDX_SHM_PHYS_ADDR : Z := 11676942336.
Definition tdx_shm_phys_addr : Z := TDX_SHM_PHYS_ADDR.
Definition tdx_shm_dev_path : path := DEV_MEM.
Definition tdx_shm_open : M os (option file) := open tdx_shm_dev_path.
Definition tdx_shm_mmap (addr : Z) (fd : file) (size : Z) : M os (option mapping) := mmap addr size fd tdx_shm_phys_addr.

(** ** Attaching *)

Definition check_some {A} (f : failure) (o : option A) : M os A :=
  match o with Some a => retM a | None => failM f end.

(** [get_shm] of client.cpp, where a failed check is an error of the query. [tdx] is the build
    with USE_TDX_FIXED_SHM; only that build closes the descriptor. *)
Definition client_get_shm (tdx : bool) (addr size : Z) : M os mapping :=
  if tdx then
    let* fd := tdx_shm_open in
    let* fd := check_some Raised fd in
    let* p := tdx_shm_mmap addr fd size in
    do* close fd in
    check_some Raised p
  else
    let* fd := open SHM_NAME in
    let* fd := (match fd with Some f => retM (Some f) | None => open DEV_UIO0 end) in
    let* fd := check_some Raised fd in
    let* p := mmap addr size fd 0 in
    check_some Raised p.

(** [get_shm] of server.cpp, where a failed check aborts the process. The result holds the
    global [shm_fd] and whether the message about the missing device is printed. *)
Record attached : Type := mkAttached { at_map : mapping; at_fd : file; at_message : bool }.
Definition server_get_shm (tdx : bool) (addr size : Z) : M os attached :=
  if tdx then
    let* fd := tdx_shm_open in
    let* fd := check_some Fatal fd in
    let* p := tdx_shm_mmap addr fd size in
    let* p := check_some Fatal p in
    retM (mkAttached p fd false)
  else
    let* fd := open SHM_NAME in
    let* ' (fd, message) :=
      (match fd with
       | None => let* f := open DEV_UIO0 in retM (f, false)
       | Some f => retM (Some f, true)
       end) in
    let* fd := check_some Fatal fd in
    let* p := mmap addr size fd 0 in
    let* p := check_some Fatal p in
    retM (mkAttached p fd message).
(** The handler that [get_shm] registers for the end of the process. *)
Definition shm_exit_handler (a : attached) : M os unit := close (at_fd a).

(** ** Processors and waiting *)

(** [bind_to_cpu]: the processor of a process; [None] when none is set. *)
Definition bind_to_cpu (cpu_count cpu_id : Z) : option Z :=
  if cpu_count <=? 0 then None else Some (Z.rem cpu_id cpu_count).

Definition OPS_SERVER_IDLE_SPIN_LIMIT : Z := 10000.
(** What [idle_wait] does to the processor, and the new count of spins. [opt] is the build with
    USE_OPS_CONTENTION_OPT. *)
Inductive yielding : Type := YieldProcessor | SchedYield.
Definition idle_wait (opt : bool) (idle_spins spin_limit : Z) : yielding * Z :=
  if opt then
    if idle_spins + 1 <? spin_limit then (YieldProcessor, idle_spins + 1) else (SchedYield, 0)
  else (YieldProcessor, idle_spins).
Definition signal_handler (shutdown_requested : bool) : bool := true.

(** ** Both processes attach the same memory *)

(** The UIO device with the first minor, if there is one, gives out the physical memory [mem]. *)
Definition gives_out (k : kernel) (mem : uio_mem) : Prop :=
  forall p, uio_idr k !! 0 = Some p -> exists i d f, registered (idevs k) (infos k) p i d f /\
    info_mem f !! 0%nat = Some mem /\ info_mmap f = false /\ mem_memtype mem = UIO_MEM_PHYS /\ wf_region mem.

(** A mapping of a physical region starts at the region and fits into it. *)
Lemma mmap_physical_run k l lis p d i f mem v v' k' :
  listeners k !! l = Some lis -> lis_dev lis = p -> registered (idevs k) (infos k) p i d f -> wf_info f ->
  vm_pgoff v = 0 -> wf_area v -> info_mem f !! 0%nat = Some mem -> info_mmap f = false -> mem_memtype mem = UIO_MEM_PHYS ->
  uio_mmap l v k = (Ok (0, v'), k') ->
  vm_ops v' = Some uio_physical_vm_ops /\ vm_pfn v' = Some (mem_addr mem / 4096) /\ mem_addr mem mod 4096 = 0 /\
  vm_end v - vm_start v <= mem_size mem.
Proof.
  intros Hl Hp (Hd & Hi & Hf) Hwf Hpg Hv Hmem Hno Hty. unfold uio_mmap. rewrite (bindM_run _ _ _ _ _ (deref_run listeners l lis k Hl)), Hp.
  destruct (vm_end v <? vm_start v); [discriminate|]. cbv zeta. rewrite (bindM_run _ _ _ _ _ (deref_run idevs p d k Hd)), Hi.
  set (v1 := set_private p v). assert (Hpg1 : vm_pgoff v1 = 0) by exact Hpg.
  destruct (find_mem_index_run k v1 p d i f Hd Hi Hf Hwf eq_refl ltac:(lia)) as (mi & Hmi & Hcase). rewrite (bindM_run _ _ _ _ _ Hmi).
  destruct Hcase as [->|(-> & _ & mem' & Hmem' & Hsz & Hr)]; [discriminate|]. rewrite Hpg1 in *. change (Z.to_nat 0) with 0%nat in *. replace mem' with mem in * by congruence.
  cbn [Z.ltb Z.compare]. rewrite (bindM_run _ _ _ _ _ Hr). destruct (_ <? vma_pages v1); [discriminate|].
  rewrite (bindM_run _ _ _ _ _ (deref_run infos i f k Hf)), Hno, Hty. cbn [UIO_MEM_IOVA UIO_MEM_PHYS Z.eqb Pos.eqb orb].
  unfold uio_mmap_physical. rewrite (bindM_run _ _ k k p), (bindM_run _ _ _ _ _ Hmi) by reflexivity. cbn [Z.ltb Z.compare].
  rewrite (bindM_run _ _ _ _ _ Hr), page_offset_mod. destruct (Z.eqb_spec (mem_addr mem mod 4096) 0) as [Hal|]; cbn [negb]; [|discriminate].
  change (vm_end v1 - vm_start v1) with (vm_end v - vm_start v). rewrite u64_small by (destruct Hv; unfold in_u64; lia).
  destruct (Z.ltb_spec (mem_size mem) (vm_end v - vm_start v)) as [|Hlen]; [discriminate|].
  unfold remap_pfn_range. destruct (ask_run k) as (a & rest & Ha). rewrite (bindM_run _ _ _ _ _ Ha). intros [= -> <- <-].
  cbn [Z.eqb]. rewrite shiftr_page. easy.
Qed.

(** The address the kernel chooses for an area of [size] bytes. *)
Definition good_address (addr size : Z) : Prop := 0 <= addr /\ 0 < size /\ addr + page_up size < 2 ^ 64.

Lemma uio_area addr size : good_address addr size -> wf_area (mkVma addr (addr + page_up size) 0 None None 0 None).
Proof. unfold good_address, page_up. intros (Ha & Hs & He). split; cbn; dlia. Qed.

(** Byte [x] of the memory that [get_shm] gives in the state [o]. *)
Definition shared_location (tdx : bool) (o : os) (mem : uio_mem) (x : Z) : location :=
  if tdx then InMemory (TDX_SHM_PHYS_ADDR + x) else if os_shm o then InFile x else InMemory (mem_addr mem + x).
Definition maps_shared (tdx : bool) (o : os) (mem : uio_mem) (size : Z) (m : mapping) : Prop :=
  forall x k, 0 <= x < size -> locate m x k = (Ok (Some (shared_location tdx o mem x)), k).
(** Operations on files leave alone what decides about the location. *)
Definition same_files (o o' : os) (mem : uio_mem) : Prop :=
  os_shm o' = os_shm o /\ uio_inv (os_kernel o') /\ gives_out (os_kernel o') mem.

Lemma physical_locate v x k base : vm_ops v = Some uio_physical_vm_ops -> vm_pfn v = Some (base / 4096) -> base mod 4096 = 0 ->
  locate (OfArea v) x k = (Ok (Some (InMemory (base + x))), k).
Proof.
  intros Hops Hpfn Hal. unfold locate, access_page. rewrite Hops, Hpfn. unfold bindM, nonnull, retM. do 4 f_equal. dlia.
Qed.

Lemma osK_run {A} (m : M kernel A) o a k' : m (os_kernel o) = (Ok a, k') -> osK m o = (Ok a, set_os_kernel k' o).
Proof. intros H. unfold osK, zoomM. now rewrite H. Qed.

Lemma spent_gives_out k k' mem : spent k k' -> gives_out k mem -> gives_out k' mem.
Proof. intros (a & n & _ & ->) H. unfold gives_out in *. now destruct k. Qed.

(** Opening leaves the device as it is, but for its count. *)
Lemma open_uio_run o mem : uio_inv (os_kernel o) -> gives_out (os_kernel o) mem ->
  exists r k', uio_open 0 (os_kernel o) = (Ok r, k') /\ uio_inv k' /\ gives_out k' mem /\
    match r with
    | inl _ => True
    | inr l => exists lis i d f, listeners k' !! l = Some lis /\ registered (idevs k') (infos k') (lis_dev lis) i d f /\
        info_mem f !! 0%nat = Some mem /\ info_mmap f = false /\ mem_memtype mem = UIO_MEM_PHYS
    end.
Proof.
  intros Hk Hg. destruct (op_safe (os_kernel o) (OpOpen 0) Hk I) as ([] & k1 & Hrun & Hk1).
  destruct (uio_open_run (os_kernel o) 0 Hk) as (r & k' & Hr & Hout). exists r, k'. split; [exact Hr|].
  cbn [run_op] in Hrun. unfold discard in Hrun. rewrite (bindM_run _ _ _ _ _ Hr) in Hrun. injection Hrun as <-. split; [exact Hk1|].
  destruct r as [ret|l]; [split; [exact (spent_gives_out _ _ _ (proj2 Hout) Hg)|exact I]|].
  destruct Hout as (k2 & p & d & c & i & Hs & Hidr & Hd & Hi & _ & -> & _ & ->).
  destruct (Hg p Hidr) as (i' & d' & f & (Hd' & Hi' & Hf) & Hmem & Hno & Hty & Hwr).
  replace d' with d in * by congruence. replace i' with i in * by congruence.
  assert (Hreg : registered (idevs (opened k2 p (next (os_kernel o)) d c)) (infos (opened k2 p (next (os_kernel o)) d c)) p i
    (set_refs (dev_refs d + 1) d) f).
  { destruct Hs as (a & n & _ & ->). unfold registered, opened. destruct (os_kernel o). cbn in *. rewrite lookup_insert_eq. easy. }
  split.
  - intros q Hq. assert (q = p) as ->.
    { destruct Hs as (a & n & _ & ->). unfold opened in Hq. destruct (os_kernel o). cbn in *. congruence. }
    exists i, (set_refs (dev_refs d + 1) d), f. easy.
  - exists (mkListener p (dev_event d)), i, (set_refs (dev_refs d + 1) d), f. split; [|easy].
    unfold opened. destruct k2. apply lookup_insert_eq.
Qed.

(** What is known of a descriptor in a state: a UIO file leads to the device. *)
Definition leads_to (k : kernel) (mem : uio_mem) (fd : file) : Prop :=
  match fd with
  | UioFile l => exists lis i d f, listeners k !! l = Some lis /\ registered (idevs k) (infos k) (lis_dev lis) i d f /\
      info_mem f !! 0%nat = Some mem /\ info_mmap f = false /\ mem_memtype mem = UIO_MEM_PHYS
  | _ => True
  end.

Lemma same_files_refl o mem : uio_inv (os_kernel o) -> gives_out (os_kernel o) mem -> same_files o o mem.
Proof. now split. Qed.

Lemma same_files_trans o1 o2 o3 mem : same_files o1 o2 mem -> same_files o2 o3 mem -> same_files o1 o3 mem.
Proof. intros (A & _ & _) (B & C & D). split; [congruence|easy]. Qed.

Lemma ask_same_files o o' mem a : uio_inv (os_kernel o) -> gives_out (os_kernel o) mem -> osK ask o = (Ok a, o') -> same_files o o' mem.
Proof.
  intros Hk Hg. destruct (ask_run (os_kernel o)) as (r & rest & Ha). rewrite (osK_run _ _ _ _ Ha). intros [= <- <-].
  assert (Hs : spent (os_kernel o) (set_answers rest (os_kernel o))) by (exists rest, (next (os_kernel o)); split; [lia|now destruct (os_kernel o)]).
  split; [reflexivity|]. split; [exact (spent_inv _ _ Hs Hk)|exact (spent_gives_out _ _ _ Hs Hg)].
Qed.

Lemma open_run o o' mem p r : uio_inv (os_kernel o) -> gives_out (os_kernel o) mem -> open p o = (Ok r, o') ->
  same_files o o' mem /\
  match r with
  | None => p = SHM_NAME -> os_shm o = false
  | Some fd => leads_to (os_kernel o') mem fd /\
      match p with SHM_NAME => fd = ShmFile /\ os_shm o = true | DEV_MEM => fd = MemFile | DEV_UIO0 => exists l, fd = UioFile l end
  end.
Proof.
  intros Hk Hg. pose proof (same_files_refl o mem Hk Hg) as Hrefl. unfold open. unfold getM at 1. cbn [bindM]. destruct p.
  - destruct (os_shm o) eqn:E; [|intros [= <- <-]; easy]. unfold opened_as, bindM, modifyM, retM. intros [= <- <-]. easy.
  - destruct (open_uio_run o mem Hk Hg) as (r0 & k' & Hr & Hk' & Hg' & Hout). rewrite (bindM_run _ _ _ _ _ (osK_run _ _ _ _ Hr)).
    assert (Hs : same_files o (set_os_kernel k' o) mem) by easy. destruct r0 as [ret|l]; [intros [= <- <-]; easy|].
    unfold opened_as, bindM, modifyM, retM. intros [= <- <-]. split; [easy|]. split; [exact Hout|eauto].
  - destruct (os_mem o) eqn:E; [|intros [= <- <-]; easy]. unfold opened_as, bindM, modifyM, retM. intros [= <- <-]. easy.
Qed.

(** ** Calls that change nothing but use up answers *)

Definition asks {A} (m : M kernel A) : Prop := forall k r k', m k = (Ok r, k') -> spent k k'.

Lemma asks_ret {A} (a : A) : asks (retM a).
Proof. intros k r k' [= _ <-]. apply spent_refl. Qed.
Lemma asks_bind {A B} (m : M kernel A) (g : A -> M kernel B) : asks m -> (forall a, asks (g a)) -> asks (bindM m g).
Proof.
  intros Hm Hg k r k' Hrun. apply bindM_ok in Hrun as (a & k1 & H1 & H2). destruct (Hm _ _ _ H1) as (a1 & n1 & Hn1 & ->).
  destruct (Hg _ _ _ _ H2) as (a2 & n2 & Hn2 & ->). exists a2, n2. destruct k. cbn in *. split; [lia|reflexivity].
Qed.
Lemma asks_ask : asks ask.
Proof.
  intros k r k'. destruct (ask_run k) as (a & rest & ->). intros [= _ <-]. exists rest, (next k). split; [lia|now destruct k].
Qed.
Lemma asks_deref {A} (h : kernel -> gmap nat A) x : asks (deref h x).
Proof. intros k r k'. unfold deref. destruct (h k !! x); [|discriminate]. intros [= _ <-]. apply spent_refl. Qed.
Lemma asks_nonnull {A} (x : option A) : asks (nonnull x).
Proof. intros k r k'. destruct x; [|discriminate]. intros [= _ <-]. apply spent_refl. Qed.

Ltac asks_solve :=
  repeat (first [progress (intros) | apply asks_ret | apply asks_ask | apply asks_deref | apply asks_nonnull
                | (apply asks_bind) | match goal with |- asks (if ?b then _ else _) => destruct b end
                | match goal with |- asks (match ?x with _ => _ end) => destruct x end
                | match goal with |- asks (let _ := _ in _) => cbv zeta end ]).

Lemma asks_find v : asks (uio_find_mem_index v).
Proof. unfold uio_find_mem_index, idev_mem, idev_info. asks_solve. Qed.
Lemma asks_mem p n : asks (idev_mem p n).
Proof. unfold idev_mem, idev_info. asks_solve. Qed.

Lemma asks_mmap l v : asks (uio_mmap l v).
Proof.
  unfold uio_mmap, uio_mmap_physical, uio_mmap_logical, remap_pfn_range.
  repeat first [apply asks_find | apply asks_mem | progress asks_solve].
Qed.

Lemma mmap_keeps k l v r k' mem : uio_mmap l v k = (Ok r, k') -> gives_out k mem -> gives_out k' mem.
Proof. intros H. apply spent_gives_out. exact (asks_mmap l v _ _ _ H). Qed.

(** What a successful mmap of a descriptor gives. *)
Definition mapping_of (mem : uio_mem) (size : Z) (fd : file) (offset : Z) (m : mapping) : Prop :=
  match fd with
  | ShmFile => m = OfFile offset
  | MemFile => m = OfPhysical offset
  | UioFile _ => offset = 0 -> (forall x k, 0 <= x < size -> locate m x k = (Ok (Some (InMemory (mem_addr mem + x))), k)) /\
      size <= mem_size mem
  end.

Lemma mmap_run o o' mem addr size fd offset m :
  uio_inv (os_kernel o) -> gives_out (os_kernel o) mem -> leads_to (os_kernel o) mem fd -> good_address addr size -> 0 <= offset ->
  mmap addr size fd offset o = (Ok (Some m), o') -> same_files o o' mem /\ mapping_of mem size fd offset m.
Proof.
  intros Hk Hg Hfd Hgood Hoff. destruct fd as [|l|]; cbn [mmap].
  1, 3: intros Hrun; apply bindM_ok in Hrun as (a & o1 & Ha & Hrun); unfold retM in Hrun; destruct (a =? 0); [|discriminate];
    injection Hrun as <- <-; split; [exact (ask_same_files _ _ _ _ Hk Hg Ha)|reflexivity].
  destruct Hfd as (lis & i & d & f & Hl & Hreg & Hmem & Hno & Hty). set (v := mkVma _ _ _ _ _ _ _).
  assert (Hpg : 0 <= vm_pgoff v) by (cbn; apply Z.div_pos; lia).
  destruct (mmap_safe (os_kernel o) l v Hk ltac:(eauto) Hpg) as ([ret v'] & k' & Hr & Hk').
  rewrite (bindM_run _ _ _ _ _ (osK_run _ _ _ _ Hr)). unfold retM. destruct (Z.eqb_spec ret 0) as [->|]; [|discriminate]. intros [= <- <-].
  assert (Hg' : gives_out k' mem) by exact (mmap_keeps (os_kernel o) l v _ k' mem Hr Hg).
  split; [easy|]. intros ->. change (0 / 4096) with 0 in v.
  destruct (ok_info _ _ _ _ _ _ _ _ Hk _ d i (proj1 Hreg) (proj1 (proj2 Hreg))) as (g & Hgf & _ & Hwf & _).
  replace g with f in * by (destruct Hreg as (_ & _ & Hf); congruence).
  destruct (mmap_physical_run (os_kernel o) l lis _ d i f mem v v' k' Hl eq_refl Hreg Hwf eq_refl (uio_area addr size Hgood) Hmem Hno Hty Hr)
    as (Hops & Hpfn & Hal & Hlen). split; [intros x k _; now apply physical_locate|].
  unfold good_address, page_up in Hgood. cbn in Hlen. unfold page_up in Hlen. dlia.
Qed.

Lemma check_some_run {A} f (x : option A) o a o' : check_some f x o = (Ok a, o') -> x = Some a /\ o' = o.
Proof. destruct x; [intros [= <- <-]; easy|discriminate]. Qed.

Lemma close_same_files o o' mem fd : uio_inv (os_kernel o) -> gives_out (os_kernel o) mem -> close fd o = (Ok tt, o') -> same_files o o' mem.
Proof.
  intros Hk Hg. unfold close. unfold getM at 1. cbn [bindM]. unfold definedM. destruct (bool_decide _); [|discriminate].
  unfold bindM, retM, modifyM. intros [= <-]. easy.
Qed.

(** The mapping of the descriptor that [get_shm] opens is of the shared memory. *)
Lemma mapping_shared (tdx : bool) o mem size fd m :
  mapping_of mem size fd (if tdx then TDX_SHM_PHYS_ADDR else 0) m ->
  (if tdx then fd = MemFile else if os_shm o then fd = ShmFile else exists l, fd = UioFile l) -> maps_shared tdx o mem size m.
Proof.
  intros Hm Hfd x k Hx. unfold shared_location. destruct tdx; [subst fd; cbn in Hm; now subst m|].
  destruct (os_shm o); [subst fd; cbn in Hm; now subst m|]. destruct Hfd as [l ->]. now apply Hm.
Qed.

(** [open] of the two files in turn. *)
Lemma open_either o o1 o2 mem (r : option file) fd :
  uio_inv (os_kernel o) -> gives_out (os_kernel o) mem -> open SHM_NAME o = (Ok r, o1) ->
  (match r with Some f => retM (Some f) | None => open DEV_UIO0 end : M os (option file)) o1 = (Ok (Some fd), o2) ->
  same_files o o2 mem /\ leads_to (os_kernel o2) mem fd /\ (if os_shm o then fd = ShmFile else exists l, fd = UioFile l).
Proof.
  intros Hk Hg H1 H2. destruct (open_run _ _ _ _ _ Hk Hg H1) as [Hs Hr]. pose proof Hs as (_ & Hk1 & Hg1). destruct r as [f|].
  - injection H2 as <- <-. destruct Hr as [Hl [-> E]]. now rewrite E.
  - destruct (open_run _ _ _ _ _ Hk1 Hg1 H2) as [Hs2 [Hl Hfd]]. rewrite (Hr eq_refl).
    split; [exact (same_files_trans _ _ _ _ Hs Hs2)|]. easy.
Qed.

Lemma client_attaches tdx addr size o m o' mem :
  uio_inv (os_kernel o) -> gives_out (os_kernel o) mem -> good_address addr size ->
  client_get_shm tdx addr size o = (Ok m, o') -> maps_shared tdx o mem size m.
Proof.
  intros Hk Hg Hgood Hrun. unfold client_get_shm, tdx_shm_open, tdx_shm_mmap, tdx_shm_dev_path, tdx_shm_phys_addr in Hrun. destruct tdx.
  - apply bindM_ok in Hrun as (r & o1 & Hopen & Hrun). apply bindM_ok in Hrun as (fd & o1' & Hc & Hrun).
    apply check_some_run in Hc as [-> ->]. destruct (open_run _ _ _ _ _ Hk Hg Hopen) as [(Es & Hk1 & Hg1) [Hl ->]].
    apply bindM_ok in Hrun as (p & o2 & Hm & Hrun). apply bindM_ok in Hrun as ([] & o3 & _ & Hc). apply check_some_run in Hc as [-> ->].
    destruct (mmap_run _ _ mem _ _ _ TDX_SHM_PHYS_ADDR _ Hk1 Hg1 Hl Hgood ltac:(unfold TDX_SHM_PHYS_ADDR; lia) Hm) as [_ Hmap].
    exact (mapping_shared true o mem size MemFile m Hmap eq_refl).
  - apply bindM_ok in Hrun as (r & o1 & Hopen & Hrun). apply bindM_ok in Hrun as (fd0 & o2 & Hopen2 & Hrun).
    apply bindM_ok in Hrun as (fd & o2' & Hc & Hrun). apply check_some_run in Hc as [-> ->].
    destruct (open_either _ _ _ mem _ _ Hk Hg Hopen Hopen2) as ((_ & Hk2 & Hg2) & Hl & Hfd).
    apply bindM_ok in Hrun as (p & o3 & Hm & Hc). apply check_some_run in Hc as [-> ->].
    destruct (mmap_run _ _ mem _ _ _ 0 _ Hk2 Hg2 Hl Hgood ltac:(lia) Hm) as [_ Hmap].
    exact (mapping_shared false o mem size fd m Hmap Hfd).
Qed.

Lemma server_attaches tdx addr size o a o' mem :
  uio_inv (os_kernel o) -> gives_out (os_kernel o) mem -> good_address addr size ->
  server_get_shm tdx addr size o = (Ok a, o') -> maps_shared tdx o mem size (at_map a) /\ same_files o o' mem.
Proof.
  intros Hk Hg Hgood Hrun. unfold server_get_shm, tdx_shm_open, tdx_shm_mmap, tdx_shm_dev_path, tdx_shm_phys_addr in Hrun. destruct tdx.
  - apply bindM_ok in Hrun as (r & o1 & Hopen & Hrun). apply bindM_ok in Hrun as (fd & o1' & Hc & Hrun).
    apply check_some_run in Hc as [-> ->]. destruct (open_run _ _ _ _ _ Hk Hg Hopen) as [Hs [Hl ->]]. pose proof Hs as (Es & Hk1 & Hg1).
    apply bindM_ok in Hrun as (p & o2 & Hm & Hrun). apply bindM_ok in Hrun as (m & o2' & Hc & Hrun). apply check_some_run in Hc as [-> ->].
    injection Hrun as <- <-. destruct (mmap_run _ _ mem _ _ _ TDX_SHM_PHYS_ADDR _ Hk1 Hg1 Hl Hgood ltac:(unfold TDX_SHM_PHYS_ADDR; lia) Hm) as [Hs2 Hmap].
    split; [exact (mapping_shared true o mem size MemFile m Hmap eq_refl)|exact (same_files_trans _ _ _ _ Hs Hs2)].
  - apply bindM_ok in Hrun as (r & o1 & Hopen & Hrun). apply bindM_ok in Hrun as ([fd0 msg] & o2 & Hopen2 & Hrun).
    apply bindM_ok in Hrun as (fd & o2' & Hc & Hrun). apply check_some_run in Hc as [-> ->].
    assert (Hopen3 : (match r with Some f => retM (Some f) | None => open DEV_UIO0 end : M os (option file)) o1 = (Ok (Some fd), o2)).
    { destruct r; [injection Hopen2 as <- _ <-; reflexivity|]. apply bindM_ok in Hopen2 as (f & o2' & H & [= -> _ ->]). exact H. }
    destruct (open_either _ _ _ mem _ _ Hk Hg Hopen Hopen3) as (Hs & Hl & Hfd). pose proof Hs as (_ & Hk2 & Hg2).
    apply bindM_ok in Hrun as (p & o3 & Hm & Hrun). apply bindM_ok in Hrun as (m & o3' & Hc & Hrun). apply check_some_run in Hc as [-> ->].
    injection Hrun as <- <-. destruct (mmap_run _ _ mem _ _ _ 0 _ Hk2 Hg2 Hl Hgood ltac:(lia) Hm) as [Hs2 Hmap].
    split; [exact (mapping_shared false o mem size fd m Hmap Hfd)|exact (same_files_trans _ _ _ _ Hs Hs2)].
Qed.

(** C14: in every build, when the server and then a backend attach the shared memory, every byte
    of the one's mapping is the same byte of the other's: of the file in /dev/shm if there is
    one, else of the memory of the UIO device, or of the fixed physical range; wherever the
    kernels place the mappings. *)
Theorem processes_share_memory tdx a1 a2 size o o1 o2 att m mem :
  uio_inv (os_kernel o) -> gives_out (os_kernel o) mem -> good_address a1 size -> good_address a2 size ->
  server_get_shm tdx a1 size o = (Ok att, o1) -> client_get_shm tdx a2 size o1 = (Ok m, o2) ->
  forall x k, 0 <= x < size ->
    locate (at_map att) x k = (Ok (Some (shared_location tdx o mem x)), k) /\ locate m x k = locate (at_map att) x k.
Proof.
  intros Hk Hg Ha1 Ha2 Hs Hc x k Hx. destruct (server_attaches _ _ _ _ _ _ mem Hk Hg Ha1 Hs) as [Hms (Es & Hk1 & Hg1)].
  pose proof (client_attaches _ _ _ _ _ _ mem Hk1 Hg1 Ha2 Hc) as Hmc. rewrite (Hms x k Hx), (Hmc x k Hx).
  unfold shared_location. now rewrite Es.
Qed.

(** ** The memory of the PCI device *)

(** After a successful probe the first minor gives out the device's second resource. *)
Lemma probed_gives_out k dd owner parent dev s :
  uio_inv k -> (forall x, (next k <= x)%nat -> infos k !! x = None) -> is_Some (modules k !! owner) -> uio_idr k = ∅ ->
  wf_region (mkMem (Some (str "shmem")) (resource_start dev) 0 (resource_len dev) UIO_MEM_PHYS None) ->
  ivshmem_pci_probe owner parent dev (mkPci k [] dd false) = (Ok 0, s) ->
  uio_inv (kern s) /\ exists mem, gives_out (kern s) mem /\ mem_addr mem = resource_start dev /\ mem_size mem = resource_len dev /\
    is_Some (uio_idr (kern s) !! 0).
Proof.
  intros Hk Hinfos Ho Hidr Hreg Hrun.
  destruct (probe_run k dd owner parent dev (inv_numbers_fresh k Hk) Hinfos) as [(ret & k' & Hr & Hret & _)|(a & n & t & Hn & _ & Hr & Hsu)];
    [rewrite Hrun in Hr; injection Hr as <- _; contradiction|].
  rewrite Hrun in Hr. injection Hr as ->. cbn [kern]. set (i := next k) in *. set (kb := with_desc k i a n (probed_info dev)) in *.
  rewrite Hidr in *. change (lowest_free ∅ (size (∅ : gmap Z nat)) 0) with 0 in *.
  assert (Hkb : uio_inv kb).
  { assert (Hno : forall f, infos k !! i = Some f -> info_uio_dev f = None) by (intros f Hf; unfold i in Hf; rewrite Hinfos in Hf; [discriminate|lia]).
    assert (Hle : (next k <= n)%nat) by (unfold i in Hn; lia).
    pose proof (ok_next (next k) n _ _ _ _ _ _ _ Hle (ok_unused_info _ _ _ _ _ _ _ _ i (probed_info dev) Hk Hno)) as Hok.
    unfold uio_inv, kb, with_desc. destruct k. exact Hok. }
  assert (Hrg : registrable kb owner i (probed_info dev)).
  { split; [unfold kb, with_desc; destruct k; apply lookup_insert_eq|reflexivity|now split|discriminate|unfold kb, with_desc; now destruct k]. }
  assert (Hnext : next kb = n) by (unfold kb, with_desc; now destruct k).
  assert (Hidrb : uio_idr kb = ∅) by (unfold kb, with_desc; now destruct k).
  split.
  { pose proof (set_up_inv kb owner i (probed_info dev) t Hkb Hrg) as H. rewrite Hnext, Hidrb in H. exact (H Hsu). }
  destruct (set_up_fields _ _ _ _ _ _ _ Hsu) as (Hi & _).
  pose proof (su_info _ _ _ _ _ _ _ Hsu) as Hs.
  pose proof (f_equal info_mem Hs) as Em. pose proof (f_equal info_mmap Hs) as Emm. cbn in Em, Emm.
  destruct (info_mem (pf t)) as [|mem rest] eqn:Et; [discriminate|]. injection Em as E1 E2 E3 E4 E5 _.
  exists mem. split; [|split; [exact E2|split; [exact E4|]]].
  - intros p Hp. exists i, (pd t), (pf t). assert (p = n) as ->.
    { unfold att, with_irq, with_minor in Hp. cbn [has_irq probed_info fill_names fill_mem upd_mem zero_info info_irq Z.eqb negb andb] in Hp. revert Hp.
      destruct kb. cbn in *. rewrite lookup_insert_eq. now intros [= ->]. }
    split; [|rewrite Et; split; [reflexivity|]; split; [exact Emm|]; split; [exact E5|]].
    + unfold registered, att. destruct (with_irq _ _ _ _). cbn. rewrite !lookup_insert_eq. auto.
    + unfold wf_region in *. cbn in Hreg. congruence || (rewrite E2, E4; exact Hreg).
  - unfold att, with_irq, with_minor. cbn [has_irq probed_info fill_names fill_mem upd_mem zero_info info_irq Z.eqb negb andb]. destruct kb. cbn.
    rewrite lookup_insert_eq. eauto.
Qed.

(** A machine with one shared memory device of 1 GiB, after the driver's probe. *)
Definition bare_kernel : kernel := set_infos ∅ demo_kernel.
Definition demo_dev : pci_dev := mkDev 8589934592 1073741824.
Definition probed : pci_state := snd (ivshmem_pci_probe 7 3 demo_dev (mkPci bare_kernel [] None false)).
Definition probed_os : os := mkOs (kern probed) false true [].

Lemma bare_kernel_inv : uio_inv bare_kernel.
Proof. now apply empty_inv. Qed.

Lemma probed_runs : ivshmem_pci_probe 7 3 demo_dev (mkPci bare_kernel [] None false) = (Ok 0, probed).
Proof. vm_compute. reflexivity. Qed.

(** The server and a backend map the 540 MiB at different addresses: the last byte of both is
    the same byte of the device's memory. *)
Lemma processes_share_memory_witness : exists att m o1 o2,
  server_get_shm false 140000000000000 SHM_SIZE probed_os = (Ok att, o1) /\
  client_get_shm false 130000000000000 SHM_SIZE o1 = (Ok m, o2) /\
  locate m (SHM_SIZE - 1) bare_kernel = (Ok (Some (InMemory (8589934592 + (SHM_SIZE - 1)))), bare_kernel).
Proof.
  destruct (probed_gives_out bare_kernel None 7 3 demo_dev probed) as (Hk & mem & Hg & Haddr & _).
  - exact bare_kernel_inv.
  - intros. apply lookup_empty.
  - eexists. reflexivity.
  - reflexivity.
  - unfold wf_region. cbn. lia.
  - exact probed_runs.
  - destruct (server_get_shm false 140000000000000 SHM_SIZE probed_os) as [r o1] eqn:E1.
    assert (H1 : exists att, r = Ok att).
    { pose proof (f_equal fst E1) as E. cbn [fst] in E. rewrite <- E. eexists. vm_compute. reflexivity. }
    destruct H1 as [att ->]. destruct (client_get_shm false 130000000000000 SHM_SIZE o1) as [r2 o2] eqn:E2.
    assert (H2 : exists m, r2 = Ok m).
    { pose proof (f_equal snd E1) as E. cbn [snd] in E. subst o1. pose proof (f_equal fst E2) as E. cbn [fst] in E. rewrite <- E.
      eexists. vm_compute. reflexivity. }
    destruct H2 as [m ->]. exists att, m, o1, o2. split; [reflexivity|]. split; [exact E2|].
    assert (Hgood : forall a, 0 <= a <= 140000000000000 -> good_address a SHM_SIZE) by (unfold good_address, page_up, SHM_SIZE; intros a Ha; change ((540 * 1024 * 1024 + 4095) / 4096 * 4096) with 566231040; lia).
    destruct (processes_share_memory false 140000000000000 130000000000000 SHM_SIZE probed_os o1 o2 att m mem Hk Hg
      (Hgood 140000000000000 ltac:(lia)) (Hgood 130000000000000 ltac:(lia)) E1 E2 (SHM_SIZE - 1) bare_kernel ltac:(unfold SHM_SIZE; lia)) as [Hs ->].
    rewrite Hs. unfold shared_location. cbn [os_shm probed_os]. now rewrite Haddr.
Defined.

(** ** Binding and waiting *)

(** A process is bound to a processor that exists. *)
Lemma bind_to_cpu_exists cpu_count cpu_id c : 0 <= cpu_id -> bind_to_cpu cpu_count cpu_id = Some c -> 0 <= c < cpu_count.
Proof.
  unfold bind_to_cpu. intros Hid. destruct (Z.leb_spec cpu_count 0); [discriminate|]. intros [= <-]. apply Z.rem_bound_pos; lia.
Qed.

(** [n] rounds of waiting: what they do and the count after them. *)
Fixpoint idle_rounds (opt : bool) (n : nat) (spins limit : Z) : list yielding * Z :=
  match n with
  | O => ([], spins)
  | S n' => let '(y, spins') := idle_wait opt spins limit in
      let '(ys, last) := idle_rounds opt n' spins' limit in (y :: ys, last)
  end.

(** Fewer rounds than the limit leaves only spin; the next gives up the processor, and the
    count starts again. *)
Lemma idle_rounds_spin n spins limit : spins + Z.of_nat n < limit ->
  idle_rounds true n spins limit = (replicate n YieldProcessor, spins + Z.of_nat n).
Proof.
  revert spins. induction n as [|n IH]; intros spins H; [cbn; f_equal; lia|]. cbn [idle_rounds]. unfold idle_wait at 1.
  destruct (Z.ltb_spec (spins + 1) limit); [|lia]. rewrite IH by lia. cbn. f_equal. lia.
Qed.
Lemma idle_rounds_yield n spins limit : 0 < limit -> spins + Z.of_nat n = limit - 1 ->
  idle_rounds true (n + 1) spins limit = (replicate n YieldProcessor ++ [SchedYield], 0).
Proof.
  intros Hl. revert spins. induction n as [|n IH]; intros spins H; cbn [Nat.add idle_rounds]; unfold idle_wait at 1.
  - destruct (Z.ltb_spec (spins + 1) limit); [lia|reflexivity].
  - destruct (Z.ltb_spec (spins + 1) limit); [|lia]. rewrite IH by lia. reflexivity.
Qed.
