(* ===== verification/Util.v ===== *)
(** src/utils/util.cpp: the spin lock, as the steps of any number of threads, and the hex
    dump. *)
From Stdlib Require Import String.
From S2P Require Import Prelude Fmt.

(** ** Spin lock *)

(** Where a thread is: outside, about to compare and swap, reading the word until it is zero,
    or holding the lock. *)
Inductive lock_pc : Type :=
| Outside
| Swapping
| Spinning
| Holding.
Record lock_state : Type := mkLock {
  lk_word : Z;
  lk_pc : nat -> lock_pc;
}.
Definition set_pc (t : nat) (p : lock_pc) (f : nat -> lock_pc) : nat -> lock_pc :=
  fun t' => if Nat.eqb t' t then p else f t'.

Inductive lock_step : lock_state -> lock_state -> Prop :=
| spin_lock_call s t : lk_pc s t = Outside -> lock_step s (mkLock (lk_word s) (set_pc t Swapping (lk_pc s)))
| spin_lock_swap s t : lk_pc s t = Swapping -> lk_word s = 0 -> lock_step s (mkLock 1 (set_pc t Holding (lk_pc s)))
| spin_lock_busy s t : lk_pc s t = Swapping -> lk_word s <> 0 ->
    lock_step s (mkLock (lk_word s) (set_pc t Spinning (lk_pc s)))
| spin_lock_wait s t : lk_pc s t = Spinning -> lk_word s <> 0 -> lock_step s s
| spin_lock_retry s t : lk_pc s t = Spinning -> lk_word s = 0 ->
    lock_step s (mkLock (lk_word s) (set_pc t Swapping (lk_pc s)))
| spin_unlock s t : lk_pc s t = Holding -> lock_step s (mkLock 0 (set_pc t Outside (lk_pc s))).

Inductive lock_reach : lock_state -> Prop :=
| lock_init : lock_reach (mkLock 0 (fun _ => Outside))
| lock_next s s' : lock_reach s -> lock_step s s' -> lock_reach s'.

(** The word is zero exactly while nobody holds the lock. *)
Definition lock_inv (s : lock_state) : Prop :=
  (lk_word s = 0 /\ forall t, lk_pc s t <> Holding) \/
  (lk_word s = 1 /\ exists t, lk_pc s t = Holding /\ forall t', lk_pc s t' = Holding -> t' = t).

Lemma set_pc_same t p f : set_pc t p f t = p.
Proof. unfold set_pc. now rewrite Nat.eqb_refl. Qed.
Lemma set_pc_other t t' p f : t' <> t -> set_pc t p f t' = f t'.
Proof. intros Hne. unfold set_pc. now rewrite (proj2 (Nat.eqb_neq t' t) Hne). Qed.

(** Moving a thread that neither held nor gets the lock. *)
Lemma lock_inv_move s t p : lock_inv s -> lk_pc s t <> Holding -> p <> Holding ->
  lock_inv (mkLock (lk_word s) (set_pc t p (lk_pc s))).
Proof.
  intros Hinv Ht Hp.
  assert (Hh : forall t', set_pc t p (lk_pc s) t' = Holding <-> lk_pc s t' = Holding).
  { intros t'. destruct (Nat.eq_dec t' t) as [->|Hne]; [rewrite set_pc_same; naive_solver|now rewrite set_pc_other]. }
  destruct Hinv as [[Hw Hn]|(Hw & o & Ho & Hu)]; [left|right]; (split; [exact Hw|]); cbn [lk_pc].
  - intros t'. rewrite Hh. apply Hn.
  - exists o. split; [now apply Hh|]. intros t'. rewrite Hh. apply Hu.
Qed.

Lemma lock_step_inv s s' : lock_inv s -> lock_step s s' -> lock_inv s'.
Proof.
  intros Hinv Hstep. destruct Hstep as [s t Ht|s t Ht Hw|s t Ht Hw|s t Ht Hw|s t Ht Hw|s t Ht].
  - apply lock_inv_move; [exact Hinv|congruence|discriminate].
  - destruct Hinv as [[_ Hn]|(Hw1 & _)]; [|congruence]. right. split; [reflexivity|]. exists t. cbn [lk_pc].
    split; [apply set_pc_same|]. intros t' Ht'. destruct (Nat.eq_dec t' t) as [|Hne]; [assumption|].
    rewrite set_pc_other in Ht' by exact Hne. now destruct (Hn t').
  - apply lock_inv_move; [exact Hinv|congruence|discriminate].
  - exact Hinv.
  - apply lock_inv_move; [exact Hinv|congruence|discriminate].
  - destruct Hinv as [[_ Hn]|(_ & o & _ & Hu)]; [now destruct (Hn t)|]. left. split; [reflexivity|]. cbn [lk_pc].
    intros t' Ht'. destruct (Nat.eq_dec t' t) as [->|Hne]; [rewrite set_pc_same in Ht'; discriminate|].
    rewrite set_pc_other in Ht' by exact Hne. rewrite <- (Hu t Ht) in Hu. specialize (Hu t' Ht'). congruence.
Qed.

(** In every interleaving at most one thread holds the lock. *)
Theorem spin_lock_mutual_exclusion s t1 t2 :
  lock_reach s -> lk_pc s t1 = Holding -> lk_pc s t2 = Holding -> t1 = t2.
Proof.
  intros Hr H1 H2. assert (Hinv : lock_inv s).
  { clear H1 H2. induction Hr as [|s s' _ IH Hstep]; [now left|exact (lock_step_inv s s' IH Hstep)]. }
  destruct Hinv as [[_ Hn]|(_ & o & _ & Hu)]; [now destruct (Hn t1)|]. now rewrite (Hu t1 H1), (Hu t2 H2).
Qed.

(** Thread 0 has the lock and thread 1 waits for it. *)
Definition lock_idle : lock_state := mkLock 0 (fun _ => Outside).
Definition lock_asked : lock_state := mkLock 0 (set_pc 0 Swapping (lk_pc lock_idle)).
Definition lock_taken : lock_state := mkLock 1 (set_pc 0 Holding (lk_pc lock_asked)).
Definition lock_asked_again : lock_state := mkLock 1 (set_pc 1 Swapping (lk_pc lock_taken)).
Definition contended : lock_state := mkLock 1 (set_pc 1 Spinning (lk_pc lock_asked_again)).
Lemma contended_reached : lock_reach contended.
Proof.
  apply (lock_next lock_asked_again); [|apply spin_lock_busy; [reflexivity|discriminate]].
  apply (lock_next lock_taken); [|now apply spin_lock_call].
  apply (lock_next lock_asked); [|now apply spin_lock_swap].
  apply (lock_next lock_idle); [exact lock_init|now apply spin_lock_call].
Qed.
Lemma spin_lock_mutual_exclusion_witness :
  lk_pc contended 1 = Spinning /\ forall t, lk_pc contended t = Holding -> t = 0%nat.
Proof.
  split; [reflexivity|]. intros t Ht. exact (spin_lock_mutual_exclusion contended t 0 contended_reached Ht eq_refl).
Defined.

(** ** Hex dump *)

Definition hex_char (d : Z) : Z := if d <? 10 then 48 + d else 87 + d.
Definition isgraph (c : Z) : bool := (33 <=? c) && (c <=? 126).

(** The characters of the bytes [y .. x - 1]. *)
Definition graph_part (p : bytes) (y n : nat) : bytes :=
  flat_map (fun i => (if Nat.eqb (i mod 8) 0 then [32] else []) ++
                     let c := nth i p 0 in [if isgraph c then c else 46]) (seq y n).

(** The loop of [print_hex] over the bytes from number [x] on; the current line starts at byte
    [y]. *)
Fixpoint hex_loop (p rest : bytes) (x y : nat) (tmp : bytes) : bytes :=
  match rest with
  | [] => tmp
  | c :: rest' =>
      let tmp := tmp ++ [hex_char (c / 16); hex_char (c mod 16); 32] in
      let x := S x in
      if Nat.eqb (x mod 16) 0 || Nat.eqb x (length p) then
        let tmp := if negb (Nat.eqb (x mod 16) 0)
                   then let z := (16 - x mod 16)%nat in
                        tmp ++ (if Nat.leb 8 z then [32] else []) ++ replicate (3 * z) 32
                   else tmp in
        let tmp := tmp ++ [32; 124; 32] in
        let tmp := tmp ++ graph_part p y (x - y) in
        hex_loop p rest' x x (tmp ++ [10])
      else hex_loop p rest' x y (if Nat.eqb (x mod 8) 0 then tmp ++ [32] else tmp)
  end.
Definition hex_text (what p : bytes) : bytes := hex_loop p p 0 0 (what ++ str " contents: " ++ [10]).
(** [print_hex] builds the text in 512 bytes of its stack. *)
Definition print_hex (what p : bytes) : res bytes :=
  let tmp := hex_text what p in if strlen tmp + 1 <=? 512 then Ok tmp else Err Undefined.

Example print_hex_two : hex_text (str "k") [65; 7] = str "k contents: " ++ [10] ++ str "41 07                                             |  A." ++ [10].
Proof. reflexivity. Qed.

(** The text is appended, and its length depends on the number of bytes only. *)
Lemma hex_loop_prefix p r : forall x y a t, hex_loop p r x y (a ++ t) = a ++ hex_loop p r x y t.
Proof.
  induction r as [|c r IH]; intros x y a t; cbn [hex_loop]; [reflexivity|].
  destruct (_ || _); [|destruct (Nat.eqb (S x mod 8) 0)]; rewrite <- IH; f_equal; rewrite ?app_assoc; try reflexivity.
  destruct (negb _); rewrite ?app_assoc; reflexivity.
Qed.
Lemma graph_part_length p q y n : length (graph_part p y n) = length (graph_part q y n).
Proof.
  unfold graph_part. revert y. induction n as [|n IH]; intros y; cbn [seq flat_map]; [reflexivity|].
  rewrite !length_app, IH. destruct (Nat.eqb (y mod 8) 0); reflexivity.
Qed.
Lemma hex_loop_length p q : length p = length q -> forall r1 r2 x y t1 t2, length r1 = length r2 -> length t1 = length t2 ->
  length (hex_loop p r1 x y t1) = length (hex_loop q r2 x y t2).
Proof.
  intros Hpq. induction r1 as [|c r1 IH]; intros [|d r2] x y t1 t2 Hr Ht; try discriminate; cbn [hex_loop]; [exact Ht|].
  injection Hr as Hr. rewrite Hpq. destruct (_ || _); [|destruct (Nat.eqb (S x mod 8) 0)]; apply IH; try exact Hr;
    rewrite ?length_app; cbn [length]; try lia.
  rewrite (graph_part_length p q). destruct (negb _); rewrite ?length_app; cbn [length]; lia.
Qed.
Definition body_length (l : nat) : nat := length (hex_loop (replicate l 0) (replicate l 0) 0 0 []).
Lemma hex_text_length what p : length (hex_text what p) = (length what + 12 + body_length (length p))%nat.
Proof.
  unfold hex_text. rewrite <- (app_nil_r (what ++ _)), hex_loop_prefix, !length_app. cbn [length].
  unfold body_length. rewrite (hex_loop_length p (replicate (length p) 0)) with (r2 := replicate (length p) 0) (t2 := []);
    rewrite ?length_replicate; try reflexivity; cbn; lia.
Qed.

(** The dump of up to 96 bytes under a name of up to 64 characters fits the buffer; 113 bytes
    overflow it whatever their values and the name. *)
Theorem print_hex_buffer what p :
  ((length p <= 96)%nat -> (length what <= 64)%nat -> print_hex what p = Ok (hex_text what p)) /\
  (length p = 113%nat -> print_hex what p = Err Undefined).
Proof.
  unfold print_hex, strlen. rewrite hex_text_length. split.
  - intros Hp Hw. assert (Hb : (body_length (length p) <= 430)%nat).
    { assert (Hall : forallb (fun l => Nat.leb (body_length l) 430) (seq 0 97) = true) by (vm_compute; reflexivity).
      rewrite forallb_forall in Hall. apply Nat.leb_le, Hall, in_seq. lia. }
    now rewrite (proj2 (Z.leb_le _ _)) by lia.
  - intros ->. change (body_length 113) with 552%nat. now rewrite (proj2 (Z.leb_gt _ _)) by lia.
Qed.

Lemma print_hex_buffer_witness : print_hex (str "key") (replicate 16 255) = Ok (hex_text (str "key") (replicate 16 255)).
Proof. apply (print_hex_buffer (str "key") (replicate 16 255)); vm_compute; lia. Defined.

(** ** Waiting, failing and timing *)

(** [spin_wait]: how many of the values read until [val] was read; nothing while it waits. *)
Fixpoint spin_wait (reads : list Z) (val : Z) : option nat :=
  match reads with
  | [] => None
  | x :: reads' => if negb (x =? val) then S <$> spin_wait reads' val else Some 0%nat
  end.

(** It ends with the first read of [val]. *)
Lemma spin_wait_first reads val n : spin_wait reads val = Some n <-> reads !! n = Some val /\ forall i, (i < n)%nat -> reads !! i <> Some val.
Proof.
  revert n. induction reads as [|x reads IH]; intros n; [split; [discriminate|now intros []]|]. cbn [spin_wait].
  destruct (Z.eqb_spec x val) as [->|Hne]; cbn [negb].
  - split; [intros [= <-]; split; [reflexivity|lia]|]. intros [_ H]. destruct n as [|n]; [reflexivity|]. now destruct (H 0%nat ltac:(lia)).
  - rewrite fmap_Some. split.
    + intros (k & Hk & ->). apply IH in Hk as [H1 H2]. split; [exact H1|]. intros [|i] Hi; [cbn; congruence|]. apply H2. lia.
    + intros [H1 H2]. destruct n as [|n]; [cbn in H1; congruence|]. exists n. split; [|reflexivity]. apply IH. split; [exact H1|].
      intros i Hi. apply (H2 (S i)). lia.
Qed.

(** [kvdb_fatal_at]: a line on the standard error, and the end of the process. *)
Definition kvdb_fatal_at (file : bytes) (line : Z) (text : bytes) : M bytes unit :=
  do* modifyM (fun err => err ++ str "[FATAL] " ++ file ++ str ":" ++ fmt_int line ++ str ": ") in
  do* modifyM (fun err => err ++ text) in
  do* modifyM (fun err => err ++ [10]) in
  failM Fatal.
Lemma kvdb_fatal_at_aborts file line text err :
  kvdb_fatal_at file line text err = (Err Fatal, err ++ str "[FATAL] " ++ file ++ str ":" ++ fmt_int line ++ str ": " ++ text ++ [10]).
Proof. unfold kvdb_fatal_at, bindM, modifyM, failM. now rewrite <- !app_assoc. Qed.

(** [rdtscp]: the two halves of the counter. *)
Definition rdtscp (lo hi : Z) : Z := Z.lor (u64 (Z.shiftl hi 32)) lo.
Lemma rdtscp_halves c : in_u64 c -> rdtscp (c mod 2 ^ 32) (c / 2 ^ 32) = c.
Proof.
  intros Hc. unfold rdtscp. rewrite shiftl_mul by lia. rewrite u64_small by (unfold in_u64 in *; dlia).
  rewrite lor_disjoint by (try lia; apply Z.mod_pos_bound; lia). dlia.
Qed.
