(* ===== verification/Pg.v ===== *)
(** The row trigger and the executor and transaction hooks of the PostgreSQL extension:
    src/integrity_zone/extension.cpp in the default build. A promote request is the call of
    its handler on the worker's stores; requests as bytes are the subject of [Region]. *)
From S2P Require Import Prelude Rid LocalStore FileMap KV Tee Crypto Wal Handler.

(** ** The row trigger *)

(** [relation_partition_id]: [relid] is the relation's 32-bit object id. *)
Definition relation_partition_id {S : Type} (relid : Z) : M S RID :=
  let partition := Z.land relid (2 ^ KVMAP_PARTITION_BITS - 1) in
  if partition =? RID_LOCAL_PARTITION then failM Raised else retM partition.

Definition rid_in_partition (id partition : RID) : bool :=
  negb (islocal id) && (rid_partition id =? partition).

(** [send_promote_req] with the type of the column. *)
Definition promote_cmd (type : vtype) : Z :=
  match type with
  | TFloat => CMD_PROMOTE_FLOAT
  | TText => CMD_PROMOTE_TEXT
  | TTimestamp => CMD_PROMOTE_TIMESTAMP
  | TInt => CMD_PROMOTE_INT
  end.
Definition send_promote_req (type : vtype) (local partition : RID) : M worker RID :=
  match promote_type (promote_cmd type) with
  | Some t => handle_promote t local INVALID_RID partition
  | None => failM Undefined
  end.

(** A column of a relation: [atttypid], if it is one of the four RID types, and
    [attisdropped]. *)
Record attr : Type := mkAttr {
  atttypid : option vtype;
  attisdropped : bool;
}.

(** One entry of [repl_cols], [repl_isnull] and [repl_values]; the value is set only for a
    column that is replaced. *)
Record repl : Type := mkRepl {
  repl_col : bool;
  repl_isnull : bool;
  repl_value : RID;
}.
Definition keep (isnull : bool) : repl := mkRepl false isnull 0.

(** The body of the loop after the type test: [d] is the datum, [None] if it is null. *)
Definition promote_column (partition : RID) (t : vtype) (d : option RID) : M worker repl :=
  match d with
  | None => retM (keep true)
  | Some local =>
      if rid_in_partition local partition then retM (keep false)
      else let* global := send_promote_req t local partition in retM (mkRepl true false global)
  end.

(** The loops of the INSERT and the UPDATE branch; only the second tests [attisdropped]. *)
Definition insert_column (partition : RID) (c : attr * option RID) : M worker repl :=
  match atttypid c.1 with
  | None => retM (keep false)
  | Some t => promote_column partition t c.2
  end.
Definition update_column (partition : RID) (c : attr * option RID) : M worker repl :=
  if attisdropped c.1 then retM (keep false)
  else match atttypid c.1 with
       | None => retM (keep false)
       | Some t => promote_column partition t c.2
       end.

Inductive trigger_event : Type :=
| ByInsert
| ByUpdate
| ByDelete
| ByTruncate.

(** What the trigger uses of PostgreSQL's tuples. *)
Class HeapTuple (T : Type) : Type := {
  heap_getattr : T -> nat -> option RID;
  heap_modify_tuple : T -> list repl -> T;
}.
(** [heap_modify_tuple] replaces the selected columns and keeps the others. *)
Class HeapTupleLaws (T : Type) `{HeapTuple T} : Prop :=
  heap_getattr_modify : forall (t : T) (rs : list repl) (i : nat) (r : repl), rs !! i = Some r ->
    heap_getattr (heap_modify_tuple t rs) i =
      if repl_col r then (if repl_isnull r then None else Some (repl_value r)) else heap_getattr t i.

(** A row as a list of columns. *)
#[export] Instance list_tuple : HeapTuple (list (option RID)) := {
  heap_getattr t i := default None (t !! i);
  heap_modify_tuple t rs :=
    imap (fun i d => match rs !! i with
                     | Some r => if repl_col r then (if repl_isnull r then None else Some (repl_value r)) else d
                     | None => d
                     end) t ++
    map (fun r => if repl_col r then (if repl_isnull r then None else Some (repl_value r)) else None)
        (drop (length t) rs);
}.
#[export] Instance list_tuple_laws : HeapTupleLaws (list (option RID)).
Proof.
  intros t rs i r Hr. cbn. destruct (t !! i) as [d|] eqn:Ed.
  - rewrite lookup_app_l by (rewrite length_imap; now apply lookup_lt_Some in Ed).
    rewrite list_lookup_imap, Ed. cbn. now rewrite Hr.
  - apply lookup_ge_None in Ed. rewrite lookup_app_r by now rewrite length_imap.
    rewrite length_imap, list_lookup_fmap, lookup_drop.
    replace (length t + (i - length t))%nat with i by lia. rewrite Hr. reflexivity.
Qed.

Section Trigger.
Context {T : Type} `{HeapTuple T}.

Definition columns (attrs : list attr) (t : T) : list (attr * option RID) :=
  imap (fun i a => (a, heap_getattr t i)) attrs.

Definition generic_delete_trigger (event : trigger_event) (relid : Z) (attrs : list attr) (newtup : T)
    : M worker (option T) :=
  let* partition := relation_partition_id relid in
  match event with
  | ByDelete => retM None
  | ByInsert =>
      let* rs := forM (columns attrs newtup) (insert_column partition) in
      retM (Some (heap_modify_tuple newtup rs))
  | ByUpdate =>
      let* rs := forM (columns attrs newtup) (update_column partition) in
      let modified := existsb repl_col rs in
      retM (Some (if modified then heap_modify_tuple newtup rs else newtup))
  | ByTruncate => failM Raised
  end.
End Trigger.

(** The RID of a column the trigger looks at. *)
Definition kv_col (c : attr * option RID) : option (vtype * RID) :=
  match atttypid c.1, c.2 with
  | Some t, Some rid => Some (t, rid)
  | _, _ => None
  end.
Definition kv_cols (cs : list (attr * option RID)) : list (vtype * RID) := omap kv_col cs.
Definition local_cols (cs : list (attr * option RID)) : list (vtype * RID) :=
  filter (fun c => islocal c.2 = true) (kv_cols cs).

(** Every column holds a RID of a stored value. *)
Definition col_live (s : store) (c : vtype * RID) : Prop :=
  in_u64 c.2 /\ exists v, view s c.1 c.2 = Some v /\ wf_text v.
Definition col_size (s : store) (c : vtype * RID) : Z :=
  match view s c.1 c.2 with
  | Some v => text_size v
  | None => 0
  end.
Definition cols_size (s : store) (cs : list (vtype * RID)) : Z :=
  fold_right (fun c acc => col_size s c + acc) 0 cs.

(** Room for one more value per column in the relation's partition. *)
Definition row_room (s : store) (p : RID) (cs : list (vtype * RID)) : Prop :=
  global_partition p /\
  (forall t, pnext (kv_part (st_kv s) p) t + Z.of_nat (length cs) <= pcap t) /\
  text_end (st_kv s) p + cols_size s cs <= STORE_SIZE.

(** What a column becomes. *)
Definition col_done (s s' : store) (p : RID) (c : attr * option RID) (r : repl) : Prop :=
  match kv_col c with
  | None => repl_col r = false
  | Some (t, rid) =>
      let rid' := if repl_col r then repl_value r else rid in
      (repl_col r = true -> repl_isnull r = false) /\
      rid_in_partition rid' p = true /\ in_u64 rid' /\ view s' t rid' = view s t rid
  end.

Lemma text_size_nonneg {t} (v : vty t) : 0 <= text_size v.
Proof. destruct t; cbn; lia. Qed.

Lemma col_size_nonneg s c : 0 <= col_size s c.
Proof. unfold col_size. destruct (view s c.1 c.2) as [v|]; [apply text_size_nonneg|lia]. Qed.

Lemma cols_size_cons s c cs : cols_size s (c :: cs) = col_size s c + cols_size s cs.
Proof. reflexivity. Qed.

Lemma cols_size_nonneg s cs : 0 <= cols_size s cs.
Proof.
  induction cs as [|c cs IH]; [reflexivity|]. rewrite cols_size_cons. pose proof (col_size_nonneg s c). lia.
Qed.

Lemma row_room_head s p t rid v cs :
  row_room s p ((t, rid) :: cs) -> view s t rid = Some v -> wf_text v -> room s t v false p.
Proof.
  intros (Hp & Hn & He) Hv Hw. split; [exact Hp|]. specialize (Hn t). cbn [length] in Hn.
  rewrite cols_size_cons in He. pose proof (cols_size_nonneg s cs).
  unfold col_size in He. cbn [fst snd] in He. rewrite Hv in He. unfold text_end in He.
  destruct t; cbn in *; try lia. split; [exact Hw|]. lia.
Qed.

Lemma promoted_live w w' t v rid0 p rid c :
  promoted w w' t v rid0 p rid -> col_live (wk_store w) c ->
  ~ (islocal rid0 = true /\ c = (t, rid0)) ->
  view (wk_store w') c.1 c.2 = view (wk_store w) c.1 c.2.
Proof.
  intros Hp [Hu (x & Hx & _)] Hn. destruct c as [t' k]; cbn [fst snd] in *.
  apply (pm_frame _ _ _ _ _ _ _ Hp); auto.
  intros [= -> ->]. pose proof (pm_fresh _ _ _ _ _ _ _ Hp). congruence.
Qed.

Lemma cols_size_eq s s' cs :
  Forall (fun c : vtype * RID => view s' c.1 c.2 = view s c.1 c.2) cs -> cols_size s' cs = cols_size s cs.
Proof.
  induction 1 as [|c cs Hc _ IH]; [reflexivity|]. rewrite !cols_size_cons, IH. unfold col_size. now rewrite Hc.
Qed.

Lemma row_room_tail s p c cs : row_room s p (c :: cs) -> row_room s p cs.
Proof.
  intros (Hp & Hn & He). split; [exact Hp|]. split.
  - intros t. specialize (Hn t). cbn [length] in Hn. lia.
  - rewrite cols_size_cons in He. pose proof (col_size_nonneg s c). lia.
Qed.

Lemma row_room_promoted w w' t v rid0 p rid cs :
  promoted w w' t v rid0 p rid -> view (wk_store w) t rid0 = Some v ->
  row_room (wk_store w) p ((t, rid0) :: cs) ->
  Forall (fun c : vtype * RID => view (wk_store w') c.1 c.2 = view (wk_store w) c.1 c.2) cs ->
  row_room (wk_store w') p cs.
Proof.
  intros Hpm Hv (Hp & Hn & He) Hsame. split; [exact Hp|]. split.
  - intros t'. specialize (Hn t'). pose proof (pm_next _ _ _ _ _ _ _ Hpm p t'). cbn [length] in Hn. lia.
  - rewrite (cols_size_eq _ _ _ Hsame). rewrite cols_size_cons in He. unfold col_size in He. cbn [fst snd] in He. rewrite Hv in He.
    pose proof (pm_end _ _ _ _ _ _ _ Hpm p). unfold text_end in *. lia.
Qed.

Lemma send_promote_req_eq t local p : send_promote_req t local p = handle_promote t local INVALID_RID p.
Proof. now destruct t. Qed.

Definition keeps (s s' : store) (cs : list (attr * option RID)) : Prop :=
  forall t k, in_u64 k -> is_Some (view s t k) -> (t, k) ∉ local_cols cs -> view s' t k = view s t k.

Lemma keeps_refl s cs : keeps s s cs.
Proof. intros t k _ _ _. reflexivity. Qed.

Lemma insert_column_idle p c w :
  (kv_col c = None \/ exists t rid, kv_col c = Some (t, rid) /\ rid_in_partition rid p = true) ->
  exists b, insert_column p c w = (Ok (keep b), w).
Proof.
  unfold insert_column, promote_column, kv_col. destruct c as [[[t|] dr] [rid|]]; cbn; intros [Hc|(t' & rid' & [= <- <-] & Hin)];
    try discriminate Hc; eauto. rewrite Hin. eauto.
Qed.

Lemma insert_column_run p c t rid w :
  kv_col c = Some (t, rid) -> rid_in_partition rid p = false ->
  insert_column p c w = bindM (handle_promote t rid INVALID_RID p) (fun g => retM (mkRepl true false g)) w.
Proof.
  unfold insert_column, promote_column, kv_col. destruct c as [[[t'|] dr] [rid'|]]; try discriminate; cbn.
  intros [= -> ->] ->. now rewrite send_promote_req_eq.
Qed.

Lemma kv_cols_cons c cs :
  kv_cols (c :: cs) = match kv_col c with Some x => x :: kv_cols cs | None => kv_cols cs end.
Proof. unfold kv_cols. cbn. now destruct (kv_col c). Qed.

Lemma in_local_cols cs t k : (t, k) ∈ local_cols cs <-> (t, k) ∈ kv_cols cs /\ islocal k = true.
Proof. unfold local_cols. rewrite list_elem_of_filter. cbn. tauto. Qed.

Lemma local_cols_cons c cs :
  local_cols (c :: cs) = match kv_col c with
                         | Some (t, rid) => if islocal rid then (t, rid) :: local_cols cs else local_cols cs
                         | None => local_cols cs
                         end.
Proof.
  unfold local_cols. rewrite kv_cols_cons. destruct (kv_col c) as [[t rid]|]; [|reflexivity].
  rewrite filter_cons. cbn [snd]. destruct (islocal rid); reflexivity.
Qed.

(** One column: what it becomes, and what it leaves to the columns after it. *)
Lemma insert_column_spec p c cs w :
  let s := wk_store w in
  store_ok s -> Forall (col_live s) (kv_cols (c :: cs)) -> NoDup (local_cols (c :: cs)) ->
  row_room s p (kv_cols (c :: cs)) ->
  exists r w', insert_column p c w = (Ok r, w') /\ store_ok (wk_store w') /\
    col_done s (wk_store w') p c r /\ keeps s (wk_store w') [c] /\
    Forall (fun x : vtype * RID => view (wk_store w') x.1 x.2 = view s x.1 x.2) (kv_cols cs) /\
    row_room (wk_store w') p (kv_cols cs).
Proof.
  intros s Hok Hlive Hnd Hroom. rewrite kv_cols_cons in Hlive, Hroom. rewrite local_cols_cons in Hnd.
  destruct (kv_col c) as [[t rid]|] eqn:Ec.
  2: { destruct (insert_column_idle p c w) as (b & Hr); [now left|]. exists (keep b), w.
       split; [exact Hr|]. split; [exact Hok|]. split; [unfold col_done; now rewrite Ec|].
       split; [apply keeps_refl|]. split; [now apply Forall_true|exact Hroom]. }
  apply Forall_cons_1 in Hlive as [Hc Hlive].
  destruct (rid_in_partition rid p) eqn:Ein.
  - destruct (insert_column_idle p c w) as (b & Hr); [right; eauto|]. exists (keep b), w.
    split; [exact Hr|]. split; [exact Hok|]. split.
    { unfold col_done. rewrite Ec. cbn [keep repl_col]. split; [discriminate|]. split; [exact Ein|].
      split; [apply Hc|reflexivity]. }
    split; [apply keeps_refl|]. split; [now apply Forall_true|exact (row_room_tail _ _ _ _ Hroom)].
  - destruct Hc as [Hu (v & Hv & Hw)]. cbn [fst snd] in *.
    destruct (handle_promote_spec w t v rid p Hok Hu Hv (row_room_head _ _ _ _ _ _ Hroom Hv Hw))
      as (g & w' & Hr & Hp).
    exists (mkRepl true false g), w'. split.
    { rewrite (insert_column_run p c t rid) by assumption. now rewrite (bindM_run _ _ _ _ _ Hr). }
    assert (Hsame : Forall (fun x : vtype * RID => view (wk_store w') x.1 x.2 = view s x.1 x.2) (kv_cols cs)).
    { apply Forall_forall. intros x Hx. apply list_elem_of_In in Hx.
      assert (Hlx : col_live s x) by (rewrite Forall_forall in Hlive; apply Hlive; now apply list_elem_of_In).
      apply (promoted_live w w' t v rid p g x Hp Hlx). intros [El ->]. rewrite El in Hnd.
      apply list.NoDup_cons in Hnd as [Hnin _]. apply Hnin, in_local_cols. now split. }
    split; [apply Hp|]. split.
    { unfold col_done. rewrite Ec. cbn. split; [reflexivity|]. unfold rid_in_partition.
      rewrite (pm_global _ _ _ _ _ _ _ Hp), (pm_part _ _ _ _ _ _ _ Hp), Z.eqb_refl.
      split; [reflexivity|]. split; [apply Hp|]. rewrite (pm_view _ _ _ _ _ _ _ Hp). now symmetry. }
    split.
    { intros t' k Hk [x Hx] Hn. apply (pm_frame _ _ _ _ _ _ _ Hp); [exact Hk| |].
      - intros [= -> ->]. pose proof (pm_fresh _ _ _ _ _ _ _ Hp). unfold s in Hx. congruence.
      - intros [El [= -> ->]]. apply Hn. rewrite local_cols_cons, Ec, El. now left. }
    split; [exact Hsame|]. exact (row_room_promoted _ _ _ _ _ _ _ _ Hp Hv Hroom Hsame).
Qed.

Lemma col_live_same s s' cs :
  Forall (col_live s) cs -> Forall (fun x : vtype * RID => view s' x.1 x.2 = view s x.1 x.2) cs ->
  Forall (col_live s') cs.
Proof.
  intros Hl Hs. rewrite Forall_forall in *. intros x Hx. destruct (Hl x Hx) as [Hu (v & Hv & Hw)].
  split; [exact Hu|]. exists v. now rewrite (Hs x Hx).
Qed.

Lemma col_done_later s s1 s2 p c cs r :
  col_done s s1 p c r -> keeps s1 s2 cs -> Forall (col_live s) (kv_cols [c]) -> col_done s s2 p c r.
Proof.
  unfold col_done. rewrite kv_cols_cons. destruct (kv_col c) as [[t rid]|]; [|easy].
  intros (Hnull & Hin & Hu & Hv) Hk Hl. split; [exact Hnull|]. split; [exact Hin|]. split; [exact Hu|].
  apply Forall_cons_1 in Hl as [[_ (v & Hv0 & _)] _]. cbn [fst snd] in Hv0.
  rewrite Hk; [exact Hv|exact Hu|rewrite Hv, Hv0; eauto|].
  intros Hloc. apply in_local_cols in Hloc as [_ El]. unfold rid_in_partition in Hin. now rewrite El in Hin.
Qed.

Lemma insert_loop_spec p cs : forall w,
  store_ok (wk_store w) -> Forall (col_live (wk_store w)) (kv_cols cs) -> NoDup (local_cols cs) ->
  row_room (wk_store w) p (kv_cols cs) ->
  exists rs w', forM cs (insert_column p) w = (Ok rs, w') /\ store_ok (wk_store w') /\
    Forall2 (col_done (wk_store w) (wk_store w') p) cs rs /\ keeps (wk_store w) (wk_store w') cs.
Proof.
  induction cs as [|c cs IH]; intros w Hok Hlive Hnd Hroom.
  { exists [], w. split; [reflexivity|]. split; [exact Hok|]. split; [constructor|apply keeps_refl]. }
  destruct (insert_column_spec p c cs w Hok Hlive Hnd Hroom) as (r & w1 & Hr & Hok1 & Hdone & Hk1 & Hsame & Hroom1).
  assert (Hlc : Forall (col_live (wk_store w)) (kv_cols [c]) /\ Forall (col_live (wk_store w)) (kv_cols cs)).
  { rewrite !kv_cols_cons in *. destruct (kv_col c); [|split; [constructor|exact Hlive]].
    apply Forall_cons_1 in Hlive as [H1 H2]. split; [now apply Forall_singleton|exact H2]. }
  assert (Hnd' : NoDup (local_cols cs)).
  { rewrite local_cols_cons in Hnd. destruct (kv_col c) as [[t rid]|]; [destruct (islocal rid)|]; try exact Hnd.
    now apply list.NoDup_cons in Hnd. }
  destruct (IH w1 Hok1 (col_live_same _ _ _ (proj2 Hlc) Hsame) Hnd' Hroom1) as (rs & w' & Hrs & Hok' & Hall & Hk).
  exists (r :: rs), w'. split; [cbn; now rewrite (bindM_run _ _ _ _ _ Hr), (bindM_run _ _ _ _ _ Hrs)|].
  split; [exact Hok'|]. split.
  - constructor; [exact (col_done_later _ _ _ _ _ _ _ Hdone Hk (proj1 Hlc))|].
    pose proof (proj2 Hlc) as Hl. clear -Hall Hsame Hl. induction Hall as [|c' r' cs' rs' Hd Hall IHall]; constructor.
    + unfold col_done in *. rewrite kv_cols_cons in Hsame. destruct (kv_col c') as [[t rid]|]; [|exact Hd].
      apply Forall_cons_1 in Hsame as [Hs _]. cbn [fst snd] in Hs. now rewrite <- Hs.
    + apply IHall; rewrite kv_cols_cons in *; destruct (kv_col c'); try assumption;
        [now apply Forall_cons_1 in Hsame|now apply Forall_cons_1 in Hl].
  - intros t k Hu Hsome Hn. rewrite local_cols_cons in Hn.
    assert (H1 : view (wk_store w1) t k = view (wk_store w) t k).
    { apply Hk1; [exact Hu|exact Hsome|]. rewrite local_cols_cons. intros Hin. apply Hn.
      destruct (kv_col c) as [[t' rid]|]; [destruct (islocal rid)|]; try (now apply elem_of_nil in Hin).
      apply list_elem_of_singleton in Hin as [= -> ->]. now left. }
    rewrite <- H1. apply Hk; [exact Hu|now rewrite H1|]. intros Hin. apply Hn.
    destruct (kv_col c) as [[t' rid]|]; [destruct (islocal rid)|]; [now right|exact Hin|exact Hin].
Qed.

Lemma update_column_eq p c : (attisdropped c.1 = true -> atttypid c.1 = None) -> update_column p c = insert_column p c.
Proof. unfold update_column, insert_column. destruct (attisdropped c.1); [|easy]. intros H. now rewrite (H eq_refl). Qed.

Lemma forM_ext {S A B : Type} (l : list A) (f g : A -> M S B) :
  Forall (fun a => f a = g a) l -> forM l f = forM l g.
Proof. induction 1 as [|a l Ha _ IH]; cbn; [reflexivity|]. now rewrite Ha, IH. Qed.

Section RowTrigger.
Context {T : Type} `{HeapTuple T} `{!HeapTupleLaws T}.

(** What the rows PostgreSQL hands to the trigger look like: a dropped column has no type. *)
Definition attrs_wf (attrs : list attr) : Prop :=
  Forall (fun a => attisdropped a = true -> atttypid a = None) attrs.

Lemma columns_lookup attrs (t : T) i a : attrs !! i = Some a -> columns attrs t !! i = Some (a, heap_getattr t i).
Proof. intros Ha. unfold columns. now rewrite list_lookup_imap, Ha. Qed.

Lemma trigger_columns attrs (t : T) p :
  attrs_wf attrs -> forM (columns attrs t) (update_column p) = forM (columns attrs t) (insert_column p).
Proof.
  intros Hwf. apply forM_ext. apply Forall_lookup_2. intros i c Hc. apply update_column_eq.
  unfold columns in Hc. rewrite list_lookup_imap in Hc. destruct (attrs !! i) as [a|] eqn:Ea; [|discriminate].
  injection Hc as <-. exact (Forall_lookup_1 _ _ _ _ Hwf Ea).
Qed.

(** The row [t'] the trigger returns, column by column. *)
Definition row_done (s s' : store) (p : RID) (attrs : list attr) (t t' : T) : Prop :=
  (forall i a ty rid, attrs !! i = Some a -> atttypid a = Some ty -> heap_getattr t i = Some rid ->
     exists rid', heap_getattr t' i = Some rid' /\ rid_in_partition rid' p = true /\
       view s' ty rid' = view s ty rid) /\
  (forall i a, attrs !! i = Some a -> atttypid a = None \/ heap_getattr t i = None ->
     heap_getattr t' i = heap_getattr t i).

Lemma row_done_modify s s' p attrs (t : T) rs :
  Forall2 (col_done s s' p) (columns attrs t) rs -> row_done s s' p attrs t (heap_modify_tuple t rs).
Proof.
  intros Hall. split.
  - intros i a ty rid Ha Hty Hd. pose proof (columns_lookup attrs t i a Ha) as Hc.
    destruct (Forall2_lookup_l _ _ _ _ _ Hall Hc) as (r & Hr & Hdone).
    unfold col_done, kv_col in Hdone. cbn [fst snd] in Hdone. rewrite Hty, Hd in Hdone.
    destruct Hdone as (Hnull & Hin & _ & Hv). rewrite (heap_getattr_modify t rs i r Hr).
    destruct (repl_col r); [rewrite (Hnull eq_refl)|]; eauto.
  - intros i a Ha Hn. pose proof (columns_lookup attrs t i a Ha) as Hc.
    destruct (Forall2_lookup_l _ _ _ _ _ Hall Hc) as (r & Hr & Hdone).
    rewrite (heap_getattr_modify t rs i r Hr). unfold col_done, kv_col in Hdone. cbn [fst snd] in Hdone.
    destruct Hn as [Hn|Hn]; rewrite Hn in Hdone; [|destruct (atttypid a)]; now rewrite Hdone.
Qed.

Lemma row_done_same s s' p attrs (t : T) rs :
  Forall2 (col_done s s' p) (columns attrs t) rs -> existsb repl_col rs = false -> row_done s s' p attrs t t.
Proof.
  intros Hall Hno. destruct (row_done_modify s s' p attrs t rs Hall) as [H1 _]. split; [|reflexivity].
  intros i a ty rid Ha Hty Hd. destruct (H1 i a ty rid Ha Hty Hd) as (rid' & Hg & Hrest).
  exists rid'. split; [|exact Hrest]. rewrite <- Hg.
  destruct (Forall2_lookup_l _ _ _ _ _ Hall (columns_lookup attrs t i a Ha)) as (r & Hr & _).
  rewrite (heap_getattr_modify t rs i r Hr). destruct (repl_col r) eqn:E; [|reflexivity].
  exfalso. enough (existsb repl_col rs = true) by congruence. apply existsb_exists. exists r.
  split; [|exact E]. apply list_elem_of_In. now apply list_elem_of_lookup_2 in Hr.
Qed.

(** C13: the row trigger makes a row persistent on INSERT and on UPDATE: whatever mix of local
    RIDs and RIDs of other relations its columns hold (no local RID twice), each non-null RID
    column of the stored row holds a RID of the relation's own partition with the value it
    had; null columns and columns of other types are unchanged, and every other RID keeps its
    value. *)
Theorem trigger_makes_row_persistent (event : trigger_event) (relid : Z) (attrs : list attr) (t : T) (w : worker) :
  let s := wk_store w in
  let p := Z.land relid (2 ^ KVMAP_PARTITION_BITS - 1) in
  event = ByInsert \/ event = ByUpdate -> p <> RID_LOCAL_PARTITION -> attrs_wf attrs ->
  store_ok s -> Forall (col_live s) (kv_cols (columns attrs t)) -> NoDup (local_cols (columns attrs t)) ->
  row_room s p (kv_cols (columns attrs t)) ->
  exists t' w', generic_delete_trigger event relid attrs t w = (Ok (Some t'), w') /\
    store_ok (wk_store w') /\ row_done s (wk_store w') p attrs t t' /\
    keeps s (wk_store w') (columns attrs t).
Proof.
  intros s p Hev Hp Hwf Hok Hlive Hnd Hroom.
  destruct (insert_loop_spec p (columns attrs t) w Hok Hlive Hnd Hroom) as (rs & w' & Hr & Hok' & Hall & Hk).
  assert (Hpart : relation_partition_id relid w = (Ok p, w)).
  { unfold relation_partition_id. fold p. apply Z.eqb_neq in Hp. now rewrite Hp. }
  unfold generic_delete_trigger. rewrite (bindM_run _ _ _ _ _ Hpart). destruct Hev as [-> | ->].
  - rewrite (bindM_run _ _ _ _ _ Hr). eexists _, w'. split; [reflexivity|]. split; [exact Hok'|].
    split; [now apply row_done_modify|exact Hk].
  - rewrite trigger_columns by exact Hwf. rewrite (bindM_run _ _ _ _ _ Hr). cbv zeta.
    eexists _, w'. split; [reflexivity|]. split; [exact Hok'|]. split; [|exact Hk].
    destruct (existsb repl_col rs) eqn:E; [now apply row_done_modify|now apply (row_done_same _ _ _ _ _ rs)].
Qed.
End RowTrigger.

(** A relation with a RID column, a plain column and a null RID column. *)
Definition demo_attrs : list attr := [mkAttr (Some TInt) false; mkAttr None false; mkAttr (Some TText) false].
Definition demo_row : list (option RID) := [Some (idx2local 0); Some 11; None].

Lemma trigger_makes_row_persistent_witness :
  exists t' w', generic_delete_trigger ByInsert 65541 demo_attrs demo_row worker_7 = (Ok (Some t'), w') /\
    store_ok (wk_store w') /\ row_done (wk_store worker_7) (wk_store w') 5 demo_attrs demo_row t' /\
    keeps (wk_store worker_7) (wk_store w') (columns demo_attrs demo_row).
Proof.
  apply (trigger_makes_row_persistent ByInsert 65541 demo_attrs demo_row worker_7).
  - now left.
  - vm_compute. congruence.
  - repeat constructor; discriminate.
  - exact worker_7_ok.
  - constructor; [|constructor]. split; [split; vm_compute; congruence|]. exists 7. split; reflexivity || exact I.
  - apply (bool_decide_unpack _). vm_compute. exact I.
  - split; [split; [split; vm_compute; congruence|vm_compute; congruence]|].
    split; [intros []; vm_compute; congruence|vm_compute; congruence].
Defined.

(** The same local RID in two columns of a row: the first promotion frees it, the second
    column gets the value an erased key reads as. *)
Theorem trigger_shared_local_rid_is_lost :
  let '(r, w') := generic_delete_trigger ByInsert 5 [mkAttr (Some TInt) false; mkAttr (Some TInt) false]
                    [Some (idx2local 0); Some (idx2local 0)] worker_7 in
  let a := make_partitioned_rid 5 0 in
  let b := make_partitioned_rid 5 1 in
  r = Ok (Some [Some a; Some b]) /\ view (wk_store w') TInt a = Some 7 /\ view (wk_store w') TInt b = Some 0.
Proof. vm_compute. repeat split. Qed.

(** ** When the local store is cleared *)

Module Hooks.

(** The static variables of extension.cpp, and how often [send_local_clear_req] ran. *)
Record hooks : Type := mkHooks {
  executor_depth : Z;
  clear_outer_executor : bool;
  clears : nat;
}.
Definition hooks_init : hooks := mkHooks 0 false 0.

Inductive event : Type :=
| ExecutorStart (is_select : bool)
| ExecutorEnd
| XactAbort
| XactCommit.

Definition kvdb_ExecutorStart (is_select : bool) (h : hooks) : hooks :=
  let clear := if executor_depth h =? 0 then is_select else clear_outer_executor h in
  mkHooks (executor_depth h + 1) clear (clears h).

Definition kvdb_ExecutorEnd (h : hooks) : hooks :=
  let depth := executor_depth h - 1 in
  if (depth =? 0) && clear_outer_executor h then mkHooks depth false (S (clears h))
  else mkHooks depth (clear_outer_executor h) (clears h).

Definition kv_xact_commit_hook (abort : bool) (h : hooks) : hooks :=
  if abort then mkHooks 0 false (S (clears h)) else h.

Definition step (h : hooks) (e : event) : hooks :=
  match e with
  | ExecutorStart b => kvdb_ExecutorStart b h
  | ExecutorEnd => kvdb_ExecutorEnd h
  | XactAbort => kv_xact_commit_hook true h
  | XactCommit => kv_xact_commit_hook false h
  end.
Definition run (h : hooks) (es : list event) : hooks := fold_left step es h.

(** A statement and the statements its functions and triggers run. *)
Inductive query : Type :=
| Query (is_select : bool) (nested : list query).

Fixpoint trace (q : query) : list event :=
  match q with
  | Query b nested => ExecutorStart b :: flat_map trace nested ++ [ExecutorEnd]
  end.

Fixpoint query_ind' (P : query -> Prop) (Hq : forall b qs, Forall P qs -> P (Query b qs)) (q : query) : P q :=
  match q with
  | Query b qs =>
      Hq b qs ((fix go (l : list query) : Forall P l :=
                  match l with
                  | [] => Forall_nil P
                  | x :: l' => Forall_cons P x l' (query_ind' P Hq x) (go l')
                  end) qs)
  end.

Lemma run_app h es1 es2 : run h (es1 ++ es2) = run (run h es1) es2.
Proof. apply fold_left_app. Qed.

(** A statement run inside another one changes nothing. *)
Lemma run_nested q : forall h, 0 < executor_depth h -> run h (trace q) = h.
Proof.
  induction q as [b qs IH] using query_ind'. intros [d c n] Hd. cbn [executor_depth] in Hd.
  cbn [trace run fold_left step]. fold (run (kvdb_ExecutorStart b (mkHooks d c n)) (flat_map trace qs ++ [ExecutorEnd])).
  assert (Hin : forall h, 0 < executor_depth h -> run h (flat_map trace qs) = h).
  { induction IH as [|q qs Hq _ IHqs]; intros h Hh; [reflexivity|]. cbn [flat_map].
    rewrite run_app, Hq by exact Hh. now apply IHqs. }
  unfold kvdb_ExecutorStart. cbn [executor_depth clear_outer_executor clears].
  rewrite (proj2 (Z.eqb_neq d 0)) by lia. rewrite run_app, Hin by (cbn; lia).
  cbn. unfold kvdb_ExecutorEnd. cbn. rewrite (proj2 (Z.eqb_neq (d + 1 - 1) 0)) by lia. cbn. f_equal. lia.
Qed.

Lemma run_nested_all qs h : 0 < executor_depth h -> run h (flat_map trace qs) = h.
Proof.
  intros Hd. induction qs as [|q qs IH]; [reflexivity|]. cbn [flat_map]. now rewrite run_app, run_nested.
Qed.

Definition outer_select (q : query) : bool := let '(Query b _) := q in b.

Lemma run_outer b qs c n :
  run (mkHooks 0 c n) (trace (Query b qs)) = mkHooks 0 false (if b then S n else n).
Proof.
  cbn [trace]. change (ExecutorStart b :: flat_map trace qs ++ [ExecutorEnd])
    with ([ExecutorStart b] ++ flat_map trace qs ++ [ExecutorEnd]).
  rewrite !run_app, run_nested_all by (cbn; lia). now destruct b.
Qed.

(** C37: in one session whose statements are properly nested and complete, the local store of
    intermediate results is cleared when an outermost SELECT ends: while a statement runs, no
    statement nested in it clears, whatever it is, and after a sequence of complete statements
    the number of clear requests is the number of outermost SELECTs, with the depth back at
    zero. Other sessions of the same worker are the subject of
    [Server.local_clear_drops_other_sessions]. *)
Theorem local_clear_after_outermost_select (qs : list query) (n : nat) :
  (forall h q, 0 < executor_depth h -> run h (trace q) = h) /\
  run (mkHooks 0 false n) (flat_map trace qs) =
    mkHooks 0 false (n + length (List.filter outer_select qs)).
Proof.
  split; [intros h q; apply run_nested|]. revert n. induction qs as [|[b inner] qs IH]; intros n.
  - cbn. f_equal. lia.
  - cbn [flat_map]. rewrite run_app, run_outer, IH. cbn [List.filter outer_select].
    destruct b; cbn [length]; f_equal; lia.
Qed.
End Hooks.
