(* ===== verification/LazyDelete.v ===== *)
(** The build with [USE_LAZY_DELETE] and without partitions: how the row trigger, promotion
    and the transaction hook of src/integrity_zone/extension.cpp use the four queues of deleted
    RIDs. A promote request is a parameter here: what it does with the stores is the subject
    of [Handler]. *)
From S2P Require Import Prelude Rid LocalStore DeleteQueue Handler Pg.

(** ** The queues *)

(** [delete_set_int4], [delete_set_float4], [delete_set_text] and [delete_set_timestamp], and
    the connection to the privacy zone. *)
Record lazy (W : Type) : Type := mkLazy {
  delete_set : vtype -> DeleteQueue;
  lz_tee : W;
}.
Arguments mkLazy {W} _ _.
Arguments delete_set {W} _ _.
Arguments lz_tee {W} _.
Definition set_queue {W : Type} (t : vtype) (q : DeleteQueue) (s : lazy W) : lazy W :=
  mkLazy (fun t' => if decide (t' = t) then q else delete_set s t') (lz_tee s).

Section Lazy.
Context {W : Type}.
(** The promote request: type, local RID and target. *)
Context (promote : vtype -> RID -> RID -> M W RID).

Definition send_delete_req (type : vtype) (old : RID) : M (lazy W) unit :=
  if Unpartitioned.islocal old then retM tt
  else modifyM (fun s => set_queue type (snd (enqueue MAX_ELE_NUM old (delete_set s type))) s).

(** The [dequeue] of [send_promote_req]. *)
Definition take_target (type : vtype) : M (lazy W) RID :=
  let* s := getM in
  let '(target, q) := dequeue MAX_ELE_NUM (delete_set s type) in
  do* putM (set_queue type q s) in retM target.
Definition lazy_send_promote_req (type : vtype) (local : RID) : M (lazy W) RID :=
  let* target := take_target type in
  zoomM lz_tee (fun w s => mkLazy (delete_set s) w) (promote type local target).

(** The queue part of [kv_xact_commit_hook]. *)
Inductive xact_event : Type :=
| XACT_EVENT_COMMIT
| XACT_EVENT_ABORT
| XACT_EVENT_OTHER.
Definition lazy_commit_hook (event : xact_event) (s : lazy W) : lazy W :=
  match event with
  | XACT_EVENT_COMMIT => mkLazy (fun t => set_reuse MAX_ELE_NUM (delete_set s t)) (lz_tee s)
  | XACT_EVENT_ABORT => mkLazy (fun t => discard_pending MAX_ELE_NUM (delete_set s t)) (lz_tee s)
  | XACT_EVENT_OTHER => s
  end.

(** ** The trigger *)

(** The loop bodies of the three branches; old and new datum are [None] when null. *)
Definition lazy_delete_column (c : attr * option RID) : M (lazy W) unit :=
  if attisdropped c.1 then retM tt
  else match atttypid c.1, c.2 with
       | Some t, Some old_value => send_delete_req t old_value
       | _, _ => retM tt
       end.
Definition lazy_insert_column (c : attr * option RID) : M (lazy W) repl :=
  match atttypid c.1 with
  | None => retM (keep false)
  | Some t =>
      match c.2 with
      | None => retM (keep true)
      | Some local =>
          if negb (Unpartitioned.islocal local) then retM (keep false)
          else let* global := lazy_send_promote_req t local in retM (mkRepl true false global)
      end
  end.
Definition lazy_update_column (c : attr * option RID * option RID) : M (lazy W) repl :=
  let '(a, old, new) := c in
  if attisdropped a then retM (keep false)
  else match atttypid a with
  | None => retM (keep false)
  | Some t =>
      match new with
      | None => retM (keep true)
      | Some local =>
          if negb (Unpartitioned.islocal local) then retM (keep false)
          else
            let* global := lazy_send_promote_req t local in
            do* (match old with
                 | None => retM tt
                 | Some old_value => if negb (old_value =? global) then send_delete_req t old_value else retM tt
                 end) in
            retM (mkRepl true false global)
      end
  end.

Definition lazy_trigger {T : Type} `{HeapTuple T} (event : trigger_event) (attrs : list attr) (oldtup newtup : T)
    : M (lazy W) (option T) :=
  match event with
  | ByDelete => do* forM (columns attrs oldtup) lazy_delete_column in retM None
  | ByInsert =>
      let* rs := forM (columns attrs newtup) lazy_insert_column in
      retM (Some (heap_modify_tuple newtup rs))
  | ByUpdate =>
      let* rs := forM (imap (fun i a => (a, heap_getattr oldtup i, heap_getattr newtup i)) attrs) lazy_update_column in
      retM (Some (if existsb repl_col rs then heap_modify_tuple newtup rs else newtup))
  | ByTruncate => failM Raised
  end.

(** ** Histories *)

(** What a session does to the queues. *)
Inductive lazy_op : Type :=
| OpDelete (t : vtype) (old : RID)
| OpTake (t : vtype)
| OpXact (e : xact_event).
Definition lazy_step (o : lazy_op) : M (lazy W) (option (vtype * RID)) :=
  match o with
  | OpDelete t old => do* send_delete_req t old in retM None
  | OpTake t => let* rid := take_target t in retM (Some (t, rid))
  | OpXact e => do* modifyM (lazy_commit_hook e) in retM None
  end.

(** The RIDs of type [t] whose deletion was committed, in order, and those of the transaction
    that runs. *)
Definition deletions (t : vtype) (acc : list RID * list RID) (o : lazy_op) : list RID * list RID :=
  match o with
  | OpDelete t' old => if decide (t' = t) then if Unpartitioned.islocal old then acc else (acc.1, acc.2 ++ [old]) else acc
  | OpTake _ => acc
  | OpXact XACT_EVENT_COMMIT => (acc.1 ++ acc.2, [])
  | OpXact XACT_EVENT_ABORT => (acc.1, [])
  | OpXact XACT_EVENT_OTHER => acc
  end.
Definition deleted (t : vtype) (ops : list lazy_op) : list RID * list RID := fold_left (deletions t) ops ([], []).
(** The RIDs handed out for reuse as type [t]. *)
Definition handed (t : vtype) (outs : list (option (vtype * RID))) : list RID :=
  omap (fun o => match o with
                 | Some (t', rid) => if decide (t' = t) then if rid =? INVALID_RID then None else Some rid else None
                 | None => None
                 end) outs.
Definition lazy_new (w : W) : lazy W := mkLazy (fun _ => dq_new) w.
(** What waits in the queue of type [t] after a history: committed deletions that were not
    handed out yet, and those of the transaction that runs. *)
Definition queueing (t : vtype) (acc : list RID * list RID) (o : lazy_op) : list RID * list RID :=
  match o with
  | OpTake t' => if decide (t' = t) then (tail acc.1, acc.2) else acc
  | _ => deletions t acc o
  end.
Definition queued (t : vtype) (ops : list lazy_op) : list RID * list RID := fold_left (queueing t) ops ([], []).
(** At no time are [MAX_ELE_NUM] RIDs of one type waiting; the length of the history is not
    bounded. *)
Definition never_full (ops : list lazy_op) : Prop := forall t pre, pre `prefix_of` ops ->
  Z.of_nat (length ((queued t pre).1 ++ (queued t pre).2)) < MAX_ELE_NUM.

(** The ring of each type holds what waits, and what was handed out came before it. *)
Definition lazy_inv (ops : list lazy_op) (outs : list (option (vtype * RID))) (s : lazy W) : Prop :=
  forall t, dq_rep MAX_ELE_NUM (delete_set s t) (queued t ops).1 (queued t ops).2 /\ (queued t ops).2 = (deleted t ops).2 /\
    (deleted t ops).1 = handed t outs ++ (queued t ops).1 /\
    Forall (fun r => r <> INVALID_RID) ((queued t ops).1 ++ (queued t ops).2).

Lemma deleted_snoc t ops o : deleted t (ops ++ [o]) = deletions t (deleted t ops) o.
Proof. unfold deleted. now rewrite fold_left_app. Qed.
Lemma queued_snoc t ops o : queued t (ops ++ [o]) = queueing t (queued t ops) o.
Proof. unfold queued. now rewrite fold_left_app. Qed.
Lemma handed_snoc t outs o : handed t (outs ++ [o]) = handed t outs ++ handed t [o].
Proof. unfold handed. apply omap_app. Qed.

Lemma dq_commit_rep q ready pend : dq_rep MAX_ELE_NUM q ready pend ->
  dq_rep MAX_ELE_NUM (set_reuse MAX_ELE_NUM q) (ready ++ pend) [] /\
  dq_rep MAX_ELE_NUM (discard_pending MAX_ELE_NUM q) ready [].
Proof.
  intros Hq. split.
  - exact (proj2 (dq_end_rep MAX_ELE_NUM Commit q ready pend Hq (or_introl eq_refl))).
  - exact (proj2 (dq_end_rep MAX_ELE_NUM Rollback q ready pend Hq (or_intror eq_refl))).
Qed.

(** A global RID is not the invalid one. *)
Lemma global_valid old : Unpartitioned.islocal old = false -> old <> INVALID_RID.
Proof. intros Hl ->. vm_compute in Hl. discriminate. Qed.

Lemma lazy_step_inv ops outs s o :
  lazy_inv ops outs s -> never_full (ops ++ [o]) ->
  exists out s', lazy_step o s = (Ok out, s') /\ lazy_inv (ops ++ [o]) (outs ++ [out]) s' /\ lz_tee s' = lz_tee s.
Proof.
  intros Hinv Hcap. destruct o as [t old|t|e]; cbn [lazy_step].
  - unfold send_delete_req. destruct (Unpartitioned.islocal old) eqn:El.
    + exists None, s. split; [reflexivity|]. split; [|reflexivity]. intros t'. rewrite deleted_snoc, queued_snoc, handed_snoc.
      cbn [queueing deletions]. rewrite El, app_nil_r. destruct (decide (t = t')); apply Hinv.
    + eexists None, _. split; [reflexivity|]. split; [|reflexivity]. intros t'. specialize (Hcap t' (ops ++ [OpDelete t old]) ltac:(reflexivity)).
      rewrite queued_snoc in Hcap. rewrite deleted_snoc, queued_snoc, handed_snoc, app_nil_r. cbn [queueing deletions] in *.
      rewrite El in *. destruct (Hinv t') as (Hq & Hp & Hc & Hv). cbn [set_queue delete_set].
      destruct (decide (t = t')) as [<-|Hne]; [|rewrite decide_False by congruence; now split].
      rewrite decide_True by reflexivity. cbn [fst snd] in *. rewrite !length_app in Hcap. cbn [length] in Hcap.
      split; [apply enqueue_rep; [exact Hq|rewrite length_app; lia]|]. split; [now rewrite Hp|]. split; [exact Hc|].
      rewrite app_assoc. apply Forall_app. split; [exact Hv|]. constructor; [now apply global_valid|constructor].
  - destruct (Hinv t) as (Hq & Hp & Hc & Hv). pose proof (dequeue_rep MAX_ELE_NUM _ _ _ Hq) as Hd.
    unfold take_target. cbn [dq_step spec_step] in Hd.
    destruct (dequeue MAX_ELE_NUM (delete_set s t)) as [target q] eqn:Ed.
    exists (Some (t, target)), (set_queue t q s). split; [|split; [|reflexivity]].
    { unfold bindM, getM, putM, retM. now rewrite Ed. }
    intros t'. rewrite deleted_snoc, queued_snoc, handed_snoc. cbn [queueing deletions set_queue delete_set].
    unfold handed at 2. cbn [omap list_omap]. destruct (decide (t = t')) as [<-|Hne].
    + rewrite decide_True by reflexivity. cbn [fst snd].
      destruct (queued t ops).1 as [|r ready]; cbn [fst snd] in Hd; destruct Hd as [[= ->] Hq']; cbn [tail].
      * rewrite Z.eqb_refl. split; [exact Hq'|]. now rewrite app_nil_r.
      * apply Forall_cons_1 in Hv as [Hr Hv]. rewrite (proj2 (Z.eqb_neq _ _) Hr). split; [exact Hq'|].
        split; [exact Hp|]. split; [now rewrite <- app_assoc|exact Hv].
    + rewrite decide_False by congruence. rewrite app_nil_r. apply Hinv.
  - exists None, (lazy_commit_hook e s). split; [reflexivity|]. split; [|now destruct e]. intros t.
    rewrite deleted_snoc, queued_snoc, handed_snoc, app_nil_r. destruct (Hinv t) as (Hq & Hp & Hc & Hv).
    destruct (dq_commit_rep _ _ _ Hq) as [Hcm Hrb]. destruct e; cbn [queueing deletions fst snd lazy_commit_hook delete_set].
    + rewrite app_nil_r. split; [exact Hcm|]. split; [reflexivity|]. split; [now rewrite Hc, <- Hp, app_assoc|exact Hv].
    + rewrite app_nil_r. split; [exact Hrb|]. split; [reflexivity|]. split; [exact Hc|]. now apply Forall_app in Hv as [Hv _].
    + now split.
Qed.

(** No more RIDs wait than were deleted. *)
Lemma queued_length t ops : (length ((queued t ops).1 ++ (queued t ops).2) <= length ops)%nat.
Proof.
  induction ops as [|o ops IH] using rev_ind; [cbn; lia|]. rewrite queued_snoc, !length_app in *. cbn [length].
  destruct o as [t' old|t'|[]]; cbn [queueing deletions fst snd]; rewrite ?length_app; cbn [length]; try lia;
    destruct (decide (t' = t)); try destruct (Unpartitioned.islocal old); cbn [fst snd]; rewrite ?length_app; cbn [length]; try lia.
  destruct (queued t ops).1; cbn [tail length] in *; lia.
Qed.
Lemma short_never_full ops : Z.of_nat (length ops) < MAX_ELE_NUM -> never_full ops.
Proof. intros H t pre Hp%prefix_length. pose proof (queued_length t pre). lia. Qed.

(** C23: In every history of deletions, promotions, commits and aborts of a session in which at no
    time [MAX_ELE_NUM] RIDs of one type wait for reuse, the RIDs handed out for reuse and then
    those that wait for it are the ones whose deletion was committed: in that order, each once,
    for values of the type they were deleted as, and never a RID of a transaction that was
    aborted or still runs. *)
Theorem reused_rids_are_committed_deletions (ops : list lazy_op) (w : W) :
  never_full ops ->
  exists outs s, forM ops lazy_step (lazy_new w) = (Ok outs, s) /\ lz_tee s = w /\
    forall t, (deleted t ops).1 = handed t outs ++ (queued t ops).1.
Proof.
  intros Hcap.
  assert (H : exists outs s, forM ops lazy_step (lazy_new w) = (Ok outs, s) /\ lazy_inv ops outs s /\ lz_tee s = w).
  { induction ops as [|o ops IH] using rev_ind.
    - exists [], (lazy_new w). split; [reflexivity|]. split; [|reflexivity]. intros t.
      split; [apply dq_rep_new; reflexivity|]. split; [reflexivity|]. split; [reflexivity|constructor].
    - destruct IH as (outs & s & Hr & Hinv & Ht); [intros t pre Hp; apply Hcap, prefix_app_r, Hp|].
      destruct (lazy_step_inv ops outs s o Hinv Hcap) as (out & s' & Hs & Hinv' & Ht').
      exists (outs ++ [out]), s'. split; [|split; [exact Hinv'|now rewrite Ht']].
      apply (forM_app _ _ _ _ _ _ _ _ Hr). cbn [forM]. unfold bindM, retM. now rewrite Hs. }
  destruct H as (outs & s & Hr & Hinv & Ht). exists outs, s. split; [exact Hr|]. split; [exact Ht|].
  intros t. now destruct (Hinv t) as (_ & _ & Hc & _).
Qed.
End Lazy.

(** One queue is replaced. *)
Definition queues_rep {W : Type} (s : lazy W) (ready pend : vtype -> list RID) : Prop :=
  forall t, dq_rep MAX_ELE_NUM (delete_set s t) (ready t) (pend t).

(** ** A row's RIDs are reused by the next row *)

(** The RIDs of type [t] in a row, in column order. *)
Definition row_rids (t : vtype) (cs : list (attr * option RID)) : list RID :=
  omap (fun c : attr * option RID => match atttypid c.1, c.2 with
                  | Some t', Some rid => if decide (t' = t) then Some rid else None
                  | _, _ => None
                  end) cs.
(** A column of a stored row, and of a new one that was computed by a query. *)
Definition stored_col (c : attr * option RID) : Prop :=
  atttypid c.1 = None \/
  attisdropped c.1 = false /\ exists old, c.2 = Some old /\ Unpartitioned.islocal old = false.
Definition computed_col (c : attr * option RID) : Prop :=
  atttypid c.1 = None \/ exists local, c.2 = Some local /\ Unpartitioned.islocal local = true.

Section Rows.
Context {W : Type} (promote : vtype -> RID -> RID -> M W RID).
(** Of the promote request: a valid target is where the value is stored. *)
Context (promote_target : forall t local target w, target <> INVALID_RID ->
  exists w', promote t local target w = (Ok target, w')).

Lemma delete_loop cs : forall (s : lazy W) ready pend, queues_rep s ready pend -> Forall stored_col cs ->
  (forall t, Z.of_nat (length (ready t ++ pend t) + length cs) < MAX_ELE_NUM) ->
  exists us s', forM cs lazy_delete_column s = (Ok us, s') /\ queues_rep s' ready (fun t => pend t ++ row_rids t cs) /\
    lz_tee s' = lz_tee s.
Proof.
  induction cs as [|[a d] cs IH]; intros s ready pend Hq Hcs Hcap.
  - exists [], s. split; [reflexivity|]. split; [|reflexivity]. intros t. cbn. rewrite app_nil_r. apply Hq.
  - apply Forall_cons_1 in Hcs as [Hc Hcs]. cbn [forM]. destruct (atttypid a) as [ty|] eqn:Ety.
    + destruct Hc as [Hc|(Hdr & old & Hd & Hg)]; cbn [fst snd] in *; [congruence|]. subst d.
      set (s1 := set_queue ty (snd (enqueue MAX_ELE_NUM old (delete_set s ty))) s).
      assert (Hq1 : queues_rep s1 ready (fun t => pend t ++ row_rids t [(a, Some old)])).
      { intros t. unfold row_rids. cbn [omap list_omap fst snd s1 set_queue delete_set]. rewrite Ety.
        destruct (decide (t = ty)) as [->|Hne].
        - rewrite decide_True by reflexivity. apply enqueue_rep; [apply Hq|]. specialize (Hcap ty). cbn [length] in Hcap. lia.
        - rewrite decide_False by congruence. rewrite app_nil_r. apply Hq. }
      destruct (IH s1 _ _ Hq1 Hcs) as (us & s2 & Hr & Hq2 & Ht).
      { intros t. specialize (Hcap t). unfold row_rids. cbn [omap list_omap fst snd length] in *. rewrite Ety.
        destruct (decide (ty = t)); rewrite !length_app in *; cbn [length]; lia. }
      exists (tt :: us), s2. split; [|split; [|exact Ht]].
      * unfold lazy_delete_column at 1, send_delete_req. cbn [fst snd]. rewrite Hdr, Ety, Hg.
        rewrite (bindM_run _ _ s s1 tt) by reflexivity. now rewrite (bindM_run _ _ _ _ _ Hr).
      * intros t. specialize (Hq2 t). cbv beta in Hq2. rewrite <- app_assoc in Hq2. unfold row_rids in *. cbn [omap list_omap fst snd] in *.
        rewrite Ety in *. now destruct (decide (ty = t)).
    + destruct (IH s _ _ Hq Hcs) as (us & s2 & Hr & Hq2 & Ht).
      { intros t. specialize (Hcap t). cbn [length] in Hcap. lia. }
      exists (tt :: us), s2. split; [|split; [|exact Ht]].
      * unfold lazy_delete_column at 1. cbn [fst snd]. rewrite Ety.
        rewrite (bindM_run _ _ s s tt) by now destruct (attisdropped a). now rewrite (bindM_run _ _ _ _ _ Hr).
      * intros t. specialize (Hq2 t). unfold row_rids in *. cbn [omap list_omap fst snd]. now rewrite Ety.
Qed.

(** The columns of the new row take the RIDs of the old one's. *)
Lemma insert_loop olds : forall news (s : lazy W) more,
  Forall2 (fun c c' => fst c = fst c') olds news -> Forall stored_col olds -> Forall computed_col news ->
  queues_rep s (fun t => row_rids t olds ++ more t) (fun _ => []) ->
  exists rs s', forM news (lazy_insert_column promote) s = (Ok rs, s') /\ queues_rep s' more (fun _ => []) /\
    Forall2 (fun c r => match atttypid (fst c) with
                        | None => repl_col r = false
                        | Some _ => repl_col r = true /\ repl_isnull r = false /\ snd c = Some (repl_value r)
                        end) olds rs.
Proof.
  induction olds as [|[a d] olds IH]; intros news s more Hall Ho Hn Hq.
  - inversion Hall; subst. exists [], s. split; [reflexivity|]. split; [exact Hq|constructor].
  - inversion Hall as [|? [a' d'] ? news' Ha Hall']; subst. cbn [fst] in Ha. subst a'.
    apply Forall_cons_1 in Ho as [Hc Ho], Hn as [Hc' Hn]. cbn [forM].
    destruct (atttypid a) as [ty|] eqn:Ety.
    + destruct Hc as [Hc|(_ & old & Hd & Hg)]; cbn [fst snd] in *; [congruence|]. subst d.
      destruct Hc' as [Hc'|(local & Hd' & Hl)]; cbn [fst snd] in *; [congruence|]. subst d'.
      assert (Hty : dq_rep MAX_ELE_NUM (delete_set s ty) (old :: row_rids ty olds ++ more ty) []).
      { specialize (Hq ty). unfold row_rids in Hq. cbn [omap list_omap fst snd] in Hq. rewrite Ety in Hq.
        rewrite decide_True in Hq by reflexivity. exact Hq. }
      pose proof (dequeue_rep MAX_ELE_NUM _ _ _ Hty) as Hdq. cbn [spec_step dq_step] in Hdq.
      destruct (dequeue MAX_ELE_NUM (delete_set s ty)) as [target q] eqn:Ed. cbn [fst snd] in Hdq. destruct Hdq as [[= ->] Hq1].
      destruct (promote_target ty local old (lz_tee s) (global_valid old Hg)) as (w1 & Hw1).
      set (s1 := mkLazy (delete_set (set_queue ty q s)) w1).
      assert (Hq1' : queues_rep s1 (fun t => row_rids t olds ++ more t) (fun _ => [])).
      { intros t. cbn [s1 set_queue delete_set]. destruct (decide (t = ty)) as [->|Hne]; [exact Hq1|].
        specialize (Hq t). unfold row_rids in *. cbn [omap list_omap fst snd] in Hq. rewrite Ety in Hq.
        now rewrite decide_False in Hq by congruence. }
      destruct (IH news' s1 more Hall' Ho Hn Hq1') as (rs & s2 & Hr & Hq2 & Hf).
      exists (mkRepl true false old :: rs), s2. split; [|split; [exact Hq2|]].
      * unfold lazy_insert_column at 1. cbn [fst snd]. rewrite Ety, Hl. cbn [negb].
        rewrite (bindM_run _ _ s s1 (mkRepl true false old)); [now rewrite (bindM_run _ _ _ _ _ Hr)|].
        unfold lazy_send_promote_req, take_target, bindM, getM, putM, retM. rewrite Ed. cbv iota beta.
        unfold zoomM. cbn [set_queue lz_tee]. now rewrite Hw1.
      * constructor; [|exact Hf]. cbn [fst snd]. now rewrite Ety.
    + destruct (IH news' s more Hall' Ho Hn) as (rs & s2 & Hr & Hq2 & Hf).
      { intros t. specialize (Hq t). unfold row_rids in *. cbn [omap list_omap fst snd] in Hq. now rewrite Ety in Hq. }
      exists (keep false :: rs), s2. split; [|split; [exact Hq2|]].
      * unfold lazy_insert_column at 1. cbn [fst snd]. rewrite Ety.
        rewrite (bindM_run _ _ s s (keep false)) by reflexivity. now rewrite (bindM_run _ _ _ _ _ Hr).
      * constructor; [|exact Hf]. cbn [fst]. now rewrite Ety.
Qed.
End Rows.

Section RowReuse.
Context {W : Type} (promote : vtype -> RID -> RID -> M W RID) {T : Type} `{HeapTuple T} `{!HeapTupleLaws T}.

Lemma columns_aligned attrs (t t' : T) :
  Forall2 (fun c c' : attr * option RID => c.1 = c'.1) (columns attrs t) (columns attrs t').
Proof.
  apply Forall2_lookup. intros i. unfold columns. rewrite !list_lookup_imap.
  destruct (attrs !! i); cbn; now constructor.
Qed.

(** A row is deleted and the deletion committed; the next row of the relation, computed by a
    query, is then stored under the RIDs of the deleted one, column by column, so a table
    whose rows are replaced does not grow the stores. *)
Theorem deleted_row_is_reused (attrs : list attr) (oldtup newtup : T) (w : W) :
  (forall t local target w, target <> INVALID_RID -> exists w', promote t local target w = (Ok target, w')) ->
  Forall stored_col (columns attrs oldtup) -> Forall computed_col (columns attrs newtup) ->
  Z.of_nat (length attrs) < MAX_ELE_NUM ->
  exists s1 s2 tup, lazy_trigger promote ByDelete attrs oldtup newtup (lazy_new w) = (Ok None, s1) /\
    lazy_trigger promote ByInsert attrs newtup newtup (lazy_commit_hook XACT_EVENT_COMMIT s1) = (Ok (Some tup), s2) /\
    forall i a, attrs !! i = Some a ->
      heap_getattr tup i = match atttypid a with
                           | Some _ => heap_getattr oldtup i
                           | None => heap_getattr newtup i
                           end.
Proof.
  intros Hport Ho Hn Hcap.
  destruct (delete_loop (columns attrs oldtup) (lazy_new w) (fun _ => []) (fun _ => [])) as (us & s1 & Hd & Hq & _).
  { intros t. apply dq_rep_new. reflexivity. }
  { exact Ho. }
  { intros t. unfold columns. rewrite length_imap. cbn [length app]. lia. }
  destruct (insert_loop promote Hport (columns attrs oldtup) (columns attrs newtup) (lazy_commit_hook XACT_EVENT_COMMIT s1)
              (fun _ => []) (columns_aligned attrs oldtup newtup) Ho Hn) as (rs & s2 & Hi & _ & Hf).
  { intros t. destruct (dq_commit_rep _ _ _ (Hq t)) as [Hc _]. cbn [lazy_commit_hook delete_set].
    rewrite app_nil_r. exact Hc. }
  exists s1, s2, (heap_modify_tuple newtup rs). split; [|split].
  - unfold lazy_trigger. now rewrite (bindM_run _ _ _ _ _ Hd).
  - unfold lazy_trigger. now rewrite (bindM_run _ _ _ _ _ Hi).
  - intros i a Ha. destruct (Forall2_lookup_l _ _ _ _ _ Hf (columns_lookup attrs oldtup i a Ha)) as (r & Hr & Hcol).
    rewrite (heap_getattr_modify newtup rs i r Hr). cbn [fst snd] in Hcol. destruct (atttypid a); [|now rewrite Hcol].
    destruct Hcol as (-> & -> & ->). reflexivity.
Qed.
End RowReuse.

(** A privacy zone that counts the RIDs it gives out. *)
Definition counting_promote (t : vtype) (local target : RID) : M RID RID :=
  let* next := getM in
  if target =? INVALID_RID then do* putM (next + 1) in retM next else retM target.

Lemma deleted_row_is_reused_witness :
  exists s1 s2 tup,
    lazy_trigger counting_promote ByDelete demo_attrs [Some 40; Some 11; Some 50] [Some (2 ^ 63); Some 12; Some (2 ^ 63 + 1)]
      (lazy_new 100) = (Ok None, s1) /\
    lazy_trigger counting_promote ByInsert demo_attrs [Some (2 ^ 63); Some 12; Some (2 ^ 63 + 1)] [Some (2 ^ 63); Some 12; Some (2 ^ 63 + 1)]
      (lazy_commit_hook XACT_EVENT_COMMIT s1) = (Ok (Some tup), s2) /\
    heap_getattr tup 0 = Some 40 /\ heap_getattr tup 1 = Some 12 /\ heap_getattr tup 2 = Some 50.
Proof.
  destruct (deleted_row_is_reused counting_promote demo_attrs [Some 40; Some 11; Some 50]
              [Some (2 ^ 63); Some 12; Some (2 ^ 63 + 1)] 100) as (s1 & s2 & tup & Hd & Hi & Hg).
  - intros t local target w Ht. exists w. unfold counting_promote, bindM, getM, retM. now rewrite (proj2 (Z.eqb_neq _ _) Ht).
  - assert (Hs : forall a rid, attisdropped a = false -> Unpartitioned.islocal rid = false -> stored_col (a, Some rid)) by (right; eauto).
    constructor; [|constructor; [now left|constructor; [|constructor]]]; (apply Hs; [reflexivity|vm_compute; reflexivity]).
  - assert (Hs : forall a rid, Unpartitioned.islocal rid = true -> computed_col (a, Some rid)) by (right; eauto).
    constructor; [|constructor; [now left|constructor; [|constructor]]]; (apply Hs; vm_compute; reflexivity).
  - reflexivity.
  - exists s1, s2, tup. split; [exact Hd|]. split; [exact Hi|].
    split; [exact (Hg 0%nat _ eq_refl)|]. split; [exact (Hg 1%nat _ eq_refl)|exact (Hg 2%nat _ eq_refl)].
Defined.

(** After an abort the RIDs stay with the old row. *)
Example aborted_delete_is_not_reused :
  let s1 := snd (lazy_trigger counting_promote ByDelete demo_attrs [Some 40; Some 11; Some 50] [] (lazy_new 100)) in
  fst (lazy_trigger counting_promote ByInsert demo_attrs [] [Some (2 ^ 63); Some 12; None]
         (lazy_commit_hook XACT_EVENT_ABORT s1)) = Ok (Some [Some 100; Some 12; None]).
Proof. vm_compute. reflexivity. Qed.

(** Setting a column to null, or to a RID that is global already, deletes nothing: the RID the
    column had is never reused. *)
Theorem update_to_null_leaks_rid (W : Type) (promote : vtype -> RID -> RID -> M W RID) (t : vtype) (old : RID)
    (new : option RID) (s : lazy W) :
  (forall rid, new = Some rid -> Unpartitioned.islocal rid = false) ->
  exists b, lazy_update_column promote (mkAttr (Some t) false, Some old, new) s = (Ok (keep b), s).
Proof.
  intros Hn. unfold lazy_update_column. cbn [attisdropped atttypid]. destruct new as [rid|]; [|now exists true].
  exists false. now rewrite (Hn rid eq_refl).
Qed.

Definition demo_ops : list lazy_op :=
  [OpDelete TInt 4; OpDelete TText 9; OpXact XACT_EVENT_COMMIT; OpDelete TInt 5; OpXact XACT_EVENT_ABORT; OpTake TInt; OpTake TInt].
Lemma reused_rids_are_committed_deletions_witness :
  exists outs s, forM demo_ops lazy_step (lazy_new 0) = (Ok outs, s) /\ lz_tee s = 0 /\
    forall t, (deleted t demo_ops).1 = handed t outs ++ (queued t demo_ops).1.
Proof. apply (reused_rids_are_committed_deletions demo_ops 0). apply short_never_full. reflexivity. Defined.
