(* ===== verification/Extension.v ===== *)
(** Loading the extension and finding its types: [_PG_init], [_PG_fini],
    [register_xact_callback_once], [kv_xact_init], [kv_replay_log] and [init_oids] of
    src/integrity_zone/extension.cpp. The trigger and the hooks themselves are in [Pg]. *)
From Stdlib Require Import String.
From S2P Require Import Prelude LocalStore Fmt.

(** ** Hooks *)

(** A function installed in a hook of PostgreSQL: one of this extension, or another one. *)
Inductive hook_fn : Type :=
| Kvdb
| Other (n : nat).
#[export] Instance hook_fn_eq_dec : EqDecision hook_fn.
Proof. solve_decision. Defined.

(** The hook variables of a backend, with the static variables of the extension and the
    registered transaction callbacks. *)
Record backend : Type := mkBackend {
  ExecutorStart_hook : option hook_fn;
  ExecutorEnd_hook : option hook_fn;
  prev_ExecutorStart : option hook_fn;
  prev_ExecutorEnd : option hook_fn;
  xact_callback_registered : bool;
  xact_callbacks : list hook_fn;
}.

Definition register_xact_callback_once (b : backend) : backend :=
  if xact_callback_registered b then b
  else mkBackend (ExecutorStart_hook b) (ExecutorEnd_hook b) (prev_ExecutorStart b) (prev_ExecutorEnd b) true
         (Kvdb :: xact_callbacks b).
Definition PG_init (b : backend) : backend :=
  let b := register_xact_callback_once b in
  mkBackend (Some Kvdb) (Some Kvdb) (ExecutorStart_hook b) (ExecutorEnd_hook b) (xact_callback_registered b)
    (xact_callbacks b).
Definition PG_fini (b : backend) : backend :=
  mkBackend (prev_ExecutorStart b) (prev_ExecutorEnd b) (prev_ExecutorStart b) (prev_ExecutorEnd b)
    (xact_callback_registered b) (xact_callbacks b).
Definition kv_xact_init (b : backend) : backend := register_xact_callback_once b.
Definition kv_replay_log : Z := 0.

(** What runs when PostgreSQL starts a query: the installed function, and from
    [kvdb_ExecutorStart] the one installed before it; [None] when [depth] calls do not reach
    the end. The standard function is [None] in the list. *)
Fixpoint start_chain (depth : nat) (prev h : option hook_fn) : option (list (option hook_fn)) :=
  match depth with
  | O => None
  | S d => match h with
           | Some Kvdb => match start_chain d prev prev with
                          | Some l => Some (Some Kvdb :: l)
                          | None => None
                          end
           | _ => Some [h]
           end
  end.
Definition on_start (depth : nat) (b : backend) : option (list (option hook_fn)) :=
  start_chain depth (prev_ExecutorStart b) (ExecutorStart_hook b).

Lemma register_twice b : register_xact_callback_once (register_xact_callback_once b) = register_xact_callback_once b.
Proof. unfold register_xact_callback_once. destruct (xact_callback_registered b) eqn:E; [now rewrite E|reflexivity]. Qed.

Lemma xact_init_again n b : xact_callback_registered b = true -> Nat.iter n kv_xact_init b = b.
Proof.
  intros Hb. induction n as [|n IH]; [reflexivity|]. change (Nat.iter (S n) kv_xact_init b) with (kv_xact_init (Nat.iter n kv_xact_init b)).
  rewrite IH. unfold kv_xact_init, register_xact_callback_once. now rewrite Hb.
Qed.

(** Loading the extension into a backend puts its start hook in front of what ran before;
    unloading it restores the hooks; and the transaction callback is registered once, however
    often SQL calls kv_xact_init afterwards. *)
Theorem loading_roundtrip (b : backend) (n : nat) :
  xact_callback_registered b = false -> ExecutorStart_hook b <> Some Kvdb ->
  on_start 2 (PG_init b) = Some [Some Kvdb; ExecutorStart_hook b] /\
  ExecutorStart_hook (PG_fini (PG_init b)) = ExecutorStart_hook b /\
  ExecutorEnd_hook (PG_fini (PG_init b)) = ExecutorEnd_hook b /\
  xact_callbacks (Nat.iter n kv_xact_init (PG_init b)) = Kvdb :: xact_callbacks b.
Proof.
  intros Hr Hh. split_and!.
  - unfold on_start, PG_init, register_xact_callback_once. rewrite Hr. cbn.
    destruct (ExecutorStart_hook b) as [[|m]|]; [contradiction|reflexivity|reflexivity].
  - unfold PG_fini, PG_init, register_xact_callback_once. now rewrite Hr.
  - unfold PG_fini, PG_init, register_xact_callback_once. now rewrite Hr.
  - rewrite xact_init_again; unfold PG_init, register_xact_callback_once; rewrite Hr; reflexivity.
Qed.
Lemma loading_roundtrip_witness :
  on_start 2 (PG_init (mkBackend (Some (Other 3)) None None None false [])) = Some [Some Kvdb; Some (Other 3)] /\
  xact_callbacks (Nat.iter 4 kv_xact_init (PG_init (mkBackend (Some (Other 3)) None None None false []))) = [Kvdb].
Proof.
  destruct (loading_roundtrip (mkBackend (Some (Other 3)) None None None false []) 4) as (H1 & _ & _ & H4);
    [reflexivity|discriminate|]. split; [exact H1|exact H4].
Defined.

(** Initialising twice would make the hook call itself without end. *)
Lemma loading_twice_loops depth b : on_start depth (PG_init (PG_init b)) = None.
Proof.
  unfold on_start. cbn [PG_init prev_ExecutorStart ExecutorStart_hook].
  replace (ExecutorStart_hook (register_xact_callback_once (PG_init b))) with (Some Kvdb)
    by (unfold register_xact_callback_once at 1; destruct (xact_callback_registered (PG_init b)); reflexivity).
  induction depth as [|d IH]; [reflexivity|]. cbn [start_chain]. now rewrite IH.
Qed.

(** ** Types *)

(** The static OID variables; zero is the invalid OID. *)
Record ext_oids : Type := mkOids {
  oids_init : bool;
  kv_int4_oid : Z;
  kv_float4_oid : Z;
  kv_text_oid : Z;
  kv_timestamp_oid : Z;
}.
Definition set_oid (t : vtype) (oid : Z) (o : ext_oids) : ext_oids :=
  match t with
  | TInt => mkOids (oids_init o) oid (kv_float4_oid o) (kv_text_oid o) (kv_timestamp_oid o)
  | TFloat => mkOids (oids_init o) (kv_int4_oid o) oid (kv_text_oid o) (kv_timestamp_oid o)
  | TText => mkOids (oids_init o) (kv_int4_oid o) (kv_float4_oid o) oid (kv_timestamp_oid o)
  | TTimestamp => mkOids (oids_init o) (kv_int4_oid o) (kv_float4_oid o) (kv_text_oid o) oid
  end.
Definition type_name (t : vtype) : bytes :=
  match t with
  | TInt => str "kv_int4"
  | TFloat => str "kv_float4"
  | TText => str "kv_text"
  | TTimestamp => str "kv_timestamp"
  end.

(** One lookup and its check; [TypenameGetTypid] reads the catalog. *)
Definition find_oid (TypenameGetTypid : bytes -> Z) (t : vtype) : M ext_oids unit :=
  let oid := TypenameGetTypid (type_name t) in
  do* modifyM (set_oid t oid) in
  if oid =? 0 then failM Raised else retM tt.
Definition init_oids (TypenameGetTypid : bytes -> Z) : M ext_oids unit :=
  let* o := getM in
  if oids_init o then retM tt
  else
    do* find_oid TypenameGetTypid TInt in
    do* find_oid TypenameGetTypid TFloat in
    do* find_oid TypenameGetTypid TText in
    do* find_oid TypenameGetTypid TTimestamp in
    modifyM (fun o => mkOids true (kv_int4_oid o) (kv_float4_oid o) (kv_text_oid o) (kv_timestamp_oid o)).

(** The type test of the trigger, and the choice of [send_promote_req]. *)
Definition kv_type (o : ext_oids) (atttype : Z) : option vtype :=
  if negb (atttype =? kv_int4_oid o) && negb (atttype =? kv_float4_oid o) && negb (atttype =? kv_text_oid o) &&
     negb (atttype =? kv_timestamp_oid o) then None
  else if atttype =? kv_float4_oid o then Some TFloat
  else if atttype =? kv_text_oid o then Some TText
  else if atttype =? kv_timestamp_oid o then Some TTimestamp
  else Some TInt.

Definition fresh_oids : ext_oids := mkOids false 0 0 0 0.
(** The catalog knows the four types under different OIDs. *)
Definition catalog_ok (typid : bytes -> Z) : Prop :=
  (forall t, typid (type_name t) <> 0) /\ (forall t t', typid (type_name t) = typid (type_name t') -> t = t').

Lemma init_oids_run typid o : catalog_ok typid -> oids_init o = false ->
  init_oids typid o = (Ok tt, mkOids true (typid (type_name TInt)) (typid (type_name TFloat)) (typid (type_name TText))
                                 (typid (type_name TTimestamp))).
Proof.
  intros [Hv _] Ho. unfold init_oids, bindM at 1, getM. rewrite Ho.
  assert (Hf : forall t o, find_oid typid t o = (Ok tt, set_oid t (typid (type_name t)) o)).
  { intros t o'. unfold find_oid, bindM, modifyM. now rewrite (proj2 (Z.eqb_neq _ _) (Hv t)). }
  now rewrite !(bindM_run _ _ _ _ _ (Hf _ _)).
Qed.

(** After the first trigger call of a session a column's type is recognised exactly when its
    OID is that of one of the four types, and as that type. The OIDs are never looked up
    again: when the extension is dropped and created anew under other OIDs, its types are no
    longer recognised in the session, and the trigger leaves local RIDs in the rows. *)
Theorem types_are_recognised (typid typid' : bytes -> Z) :
  catalog_ok typid -> (forall t t', typid' (type_name t) <> typid (type_name t')) ->
  exists o, init_oids typid fresh_oids = (Ok tt, o) /\
    (forall t, kv_type o (typid (type_name t)) = Some t) /\
    (forall oid, (forall t, oid <> typid (type_name t)) -> kv_type o oid = None) /\
    init_oids typid' o = (Ok tt, o) /\ (forall t, kv_type o (typid' (type_name t)) = None).
Proof.
  intros Hc Hnew. eexists. split; [now apply init_oids_run|].
  assert (Hnone : forall oid, (forall t, oid <> typid (type_name t)) ->
    kv_type (mkOids true (typid (type_name TInt)) (typid (type_name TFloat)) (typid (type_name TText))
               (typid (type_name TTimestamp))) oid = None).
  { intros oid Hoid. unfold kv_type. cbn [kv_int4_oid kv_float4_oid kv_text_oid kv_timestamp_oid].
    now rewrite !(proj2 (Z.eqb_neq _ _) (Hoid _)). }
  split; [|split; [exact Hnone|split; [reflexivity|]]].
  - destruct Hc as [_ Hinj]. intros t. unfold kv_type. cbn [kv_int4_oid kv_float4_oid kv_text_oid kv_timestamp_oid].
    assert (Hne : forall t', t <> t' -> typid (type_name t) =? typid (type_name t') = false).
    { intros t' Hne. apply Z.eqb_neq. intros E. now apply Hne, Hinj. }
    destruct t; rewrite ?Z.eqb_refl, ?(Hne TInt), ?(Hne TFloat), ?(Hne TText), ?(Hne TTimestamp) by discriminate; reflexivity.
  - intros t. apply Hnone. intros t'. apply Hnew.
Qed.
Definition sample_catalog (base : Z) (name : bytes) : Z := base + fold_left Z.add name 0.
Lemma types_are_recognised_witness :
  exists o, init_oids (sample_catalog 16000) fresh_oids = (Ok tt, o) /\ kv_type o (sample_catalog 16000 (type_name TText)) = Some TText /\
    kv_type o (sample_catalog 27000 (type_name TText)) = None.
Proof.
  destruct (types_are_recognised (sample_catalog 16000) (sample_catalog 27000)) as (o & Hi & Hk & _ & _ & Hn).
  - split; [intros []; vm_compute; congruence|intros [] []; vm_compute; congruence].
  - intros [] []; vm_compute; congruence.
  - exists o. split; [exact Hi|]. split; [exact (Hk TText)|exact (Hn TText)].
Defined.
