(* ===== verification/Rng.v ===== *)
(** The random number generators of the benchmark's data generator
    (src/benchmark/tpch/dbgen): rng64.c, rnd.c with its seed table rnd.h, and the skipping of
    rows of speed_seed.c, with the constants of dss.h and config.h they use.

    [DSS_HUGE] is [long long int]; where the code multiplies seeds the 64-bit result wraps
    around. *)
From Stdlib Require Import Zpow_facts.
From S2P Require Import Prelude.

(** ** 64-bit arithmetic modulo 2^64 *)
Definition eq64 (x y : Z) : Prop := x mod 2 ^ 64 = y mod 2 ^ 64.

#[export] Instance eq64_equivalence : Equivalence eq64.
Proof. split; red; unfold eq64; intros; congruence. Qed.

#[export] Instance eq64_add : Proper (eq64 ==> eq64 ==> eq64) Z.add.
Proof. intros x x' Hx y y' Hy. unfold eq64 in *. rewrite Zplus_mod, Hx, Hy, <- Zplus_mod. reflexivity. Qed.

#[export] Instance eq64_mul : Proper (eq64 ==> eq64 ==> eq64) Z.mul.
Proof. intros x x' Hx y y' Hy. unfold eq64 in *. rewrite Zmult_mod, Hx, Hy, <- Zmult_mod. reflexivity. Qed.

Lemma eq64_of_eq x y : x = y -> eq64 x y.
Proof. now intros ->. Qed.

Lemma eq64_u64 x : eq64 (u64 x) x.
Proof. unfold eq64, u64. apply Z.mod_mod. lia. Qed.

Lemma eq64_s64 x : eq64 (s64 x) x.
Proof.
  unfold eq64, s64. rewrite Zminus_mod, Z.mod_mod, <- Zminus_mod by lia. f_equal. lia.
Qed.

Lemma s64_eq64 x y : eq64 x y -> s64 x = s64 y.
Proof.
  intros H. unfold s64. f_equal. unfold eq64 in H. rewrite Zplus_mod, H, <- Zplus_mod. reflexivity.
Qed.

(** ** rng64.c *)
Definition RNG_A : Z := 6364136223846793005.
Definition RNG_C : Z := 1.

Definition NextRand64 (nSeed : Z) : Z := s64 (nSeed * RNG_A + RNG_C).

(** [for (nBit = 0; (nCount >> nBit) != RNG_C; nBit++)] *)
Fixpoint highest_bit (fuel : nat) (nCount nBit : Z) : Z :=
  match fuel with
  | O => nBit
  | S f => if u64 (Z.shiftr nCount nBit) =? RNG_C then nBit else highest_bit f nCount (nBit + 1)
  end.

(** [while (--nBit >= 0)], with [nBit] bits to go. *)
Fixpoint advance_bits (nBit : nat) (nCount Apow Dsum : Z) : Z * Z :=
  match nBit with
  | O => (Apow, Dsum)
  | S nBit' =>
      let Dsum := u64 (Dsum * u64 (Apow + 1)) in
      let Apow := u64 (Apow * Apow) in
      if Z.rem (Z.shiftr nCount (Z.of_nat nBit')) 2 =? 1
      then advance_bits nBit' nCount (u64 (Apow * RNG_A)) (u64 (Dsum + Apow))
      else advance_bits nBit' nCount Apow Dsum
  end.

Definition AdvanceRand64 (nSeed nCount : Z) : Z :=
  if nCount =? 0 then nSeed
  else
    let '(Apow, Dsum) := advance_bits (Z.to_nat (highest_bit 64 nCount 0)) nCount RNG_A RNG_C in
    s64 (u64 nSeed * Apow + Dsum * RNG_C).

(** [1 + A + ... + A^(m-1)] *)
Fixpoint geo (m : nat) : Z :=
  match m with
  | O => 0
  | S m' => geo m' + RNG_A ^ Z.of_nat m'
  end.

Lemma geo_add m n : geo (m + n) = geo m + RNG_A ^ Z.of_nat m * geo n.
Proof.
  induction n as [|n IH]; cbn [geo].
  - rewrite Nat.add_0_r. lia.
  - rewrite Nat.add_succ_r. cbn [geo]. rewrite IH, Nat2Z.inj_add, Z.pow_add_r by lia. ring.
Qed.

Lemma iter_NextRand64 n s :
  eq64 (Nat.iter n NextRand64 s) (s * RNG_A ^ Z.of_nat n + geo n).
Proof.
  induction n as [|n IH].
  - apply eq64_of_eq. change (s = s * 1 + 0). lia.
  - change (Nat.iter (S n) NextRand64 s) with (NextRand64 (Nat.iter n NextRand64 s)).
    cbn [geo]. unfold NextRand64 at 1. rewrite eq64_s64, IH, Nat2Z.inj_succ, Z.pow_succ_r by lia.
    assert (Hg : geo (S n) = RNG_A * geo n + 1).
    { change (S n) with (1 + n)%nat. rewrite geo_add. cbn [geo]. change (Z.of_nat 1) with 1.
      rewrite Z.pow_1_r. change (Z.of_nat 0) with 0. rewrite Z.pow_0_r. ring. }
    cbn [geo] in Hg. rewrite Hg. unfold RNG_C. apply eq64_of_eq. ring.
Qed.

Definition powers_at (m : Z) (Apow Dsum : Z) : Prop :=
  eq64 Apow (RNG_A ^ m) /\ eq64 Dsum (geo (Z.to_nat m)).

Lemma double_step m Apow Dsum :
  0 <= m -> powers_at m Apow Dsum ->
  powers_at (2 * m) (u64 (Apow * Apow)) (u64 (Dsum * u64 (Apow + 1))).
Proof.
  intros Hm [HA HD]. split.
  - rewrite eq64_u64, HA. apply eq64_of_eq. rewrite <- Z.pow_add_r by lia. now replace (m + m) with (2 * m) by lia.
  - rewrite !eq64_u64, HA, HD. apply eq64_of_eq.
    replace (Z.to_nat (2 * m)) with (Z.to_nat m + Z.to_nat m)%nat by lia.
    rewrite geo_add, Z2Nat.id by lia. ring.
Qed.

Lemma odd_step m Apow Dsum :
  0 <= m -> powers_at m Apow Dsum -> powers_at (m + 1) (u64 (Apow * RNG_A)) (u64 (Dsum + Apow)).
Proof.
  intros Hm [HA HD]. split.
  - rewrite eq64_u64, HA. apply eq64_of_eq. now rewrite Z.pow_add_r, Z.pow_1_r by lia.
  - rewrite eq64_u64, HA, HD. apply eq64_of_eq.
    rewrite Z2Nat.inj_add by lia. change (Z.to_nat 1) with 1%nat. rewrite Nat.add_1_r. cbn [geo].
    now rewrite Z2Nat.id by lia.
Qed.

Lemma advance_bits_spec nBit nCount : forall Apow Dsum,
  0 <= nCount -> powers_at (Z.shiftr nCount (Z.of_nat nBit)) Apow Dsum ->
  let '(A, D) := advance_bits nBit nCount Apow Dsum in powers_at nCount A D.
Proof.
  induction nBit as [|k IH]; intros Apow Dsum Hn Hp; cbn [advance_bits].
  - now rewrite Z.shiftr_0_r in Hp.
  - set (q := Z.shiftr nCount (Z.of_nat k)).
    assert (Hq : 0 <= q) by now apply Z.shiftr_nonneg.
    assert (Hhalf : Z.shiftr nCount (Z.of_nat (S k)) = q / 2).
    { unfold q. rewrite !Z.shiftr_div_pow2 by lia. rewrite Nat2Z.inj_succ, Z.pow_succ_r by lia.
      rewrite (Z.mul_comm 2), Z.div_div by lia. reflexivity. }
    rewrite Hhalf in Hp. apply double_step in Hp; [|apply Z.div_pos; lia].
    assert (Hr : Z.rem q 2 = q mod 2) by (apply Z.rem_mod_nonneg; lia).
    pose proof (Z.div_mod q 2 ltac:(lia)) as Hdm. pose proof (Z.mod_pos_bound q 2 ltac:(lia)).
    fold q. rewrite Hr. destruct (Z.eqb_spec (q mod 2) 1) as [E|E].
    + apply IH; [exact Hn|]. fold q. replace q with (2 * (q / 2) + 1) by lia.
      apply odd_step; [|exact Hp]. pose proof (Z.div_pos q 2). lia.
    + apply IH; [exact Hn|]. fold q. now replace q with (2 * (q / 2)) at 1 by lia.
Qed.

Lemma highest_bit_spec nCount fuel : forall nBit,
  0 < nCount < 2 ^ 63 -> 0 <= nBit <= Z.log2 nCount -> Z.log2 nCount - nBit < Z.of_nat fuel ->
  highest_bit fuel nCount nBit = Z.log2 nCount.
Proof.
  induction fuel as [|f IH]; intros nBit Hn Hb Hf; [lia|]. cbn [highest_bit].
  pose proof (Z.log2_spec nCount ltac:(lia)) as [Hlo Hhi].
  rewrite Z.shiftr_div_pow2 by lia. destruct (Z.eq_dec nBit (Z.log2 nCount)) as [->|Hne].
  - replace (nCount / 2 ^ Z.log2 nCount) with 1; [reflexivity|].
    apply Z.div_unique with (nCount - 2 ^ Z.log2 nCount); [|lia].
    rewrite Z.pow_succ_r in Hhi by lia. lia.
  - assert (H2 : 2 <= nCount / 2 ^ nBit).
    { apply Z.div_le_lower_bound; [lia|]. rewrite Z.mul_comm, <- Z.pow_succ_r by lia.
      etransitivity; [|exact Hlo]. apply Z.pow_le_mono_r; lia. }
    assert (H3 : nCount / 2 ^ nBit < 2 ^ 64).
    { pose proof (Z.div_le_upper_bound nCount (2 ^ nBit) nCount). nia. }
    rewrite u64_small by (unfold in_u64; lia). rewrite (proj2 (Z.eqb_neq _ _)) by (unfold RNG_C; lia).
    apply IH; lia.
Qed.

(** [AdvanceRand64] skips ahead in logarithmic time: the seed it computes with the squared
    powers of the multiplier is the seed after [nCount] calls of [NextRand64], for every
    seed and every count. *)
Theorem AdvanceRand64_iterates (nSeed nCount : Z) :
  in_s64 nSeed -> 0 <= nCount < 2 ^ 63 ->
  AdvanceRand64 nSeed nCount = Nat.iter (Z.to_nat nCount) NextRand64 nSeed.
Proof.
  intros Hs Hn. unfold AdvanceRand64. destruct (Z.eqb_spec nCount 0) as [->|Hne]; [reflexivity|].
  rewrite highest_bit_spec; [|lia|pose proof (Z.log2_nonneg nCount); lia|].
  2: { pose proof (Z.log2_lt_pow2 nCount 63). lia. }
  assert (H1 : powers_at (Z.shiftr nCount (Z.of_nat (Z.to_nat (Z.log2 nCount)))) RNG_A RNG_C).
  { rewrite Z2Nat.id by apply Z.log2_nonneg. rewrite Z.shiftr_div_pow2 by apply Z.log2_nonneg.
    pose proof (Z.log2_spec nCount ltac:(lia)) as [Hlo Hhi].
    replace (nCount / 2 ^ Z.log2 nCount) with 1; [split; reflexivity|].
    apply Z.div_unique with (nCount - 2 ^ Z.log2 nCount); [|lia].
    rewrite Z.pow_succ_r in Hhi by apply Z.log2_nonneg. lia. }
  pose proof (advance_bits_spec _ nCount _ _ ltac:(lia) H1) as Hspec.
  destruct (advance_bits _ _ _ _) as [A D]. destruct Hspec as [HA HD].
  assert (Hrange : in_s64 (Nat.iter (Z.to_nat nCount) NextRand64 nSeed)).
  { destruct (Z.to_nat nCount) as [|k] eqn:E; [exact Hs|apply s64_range]. }
  rewrite <- (s64_small (Nat.iter _ _ _)) by exact Hrange. apply s64_eq64.
  rewrite iter_NextRand64, eq64_u64, HA, HD, Z2Nat.id by lia. unfold RNG_C.
  apply eq64_of_eq. ring.
Qed.

Lemma AdvanceRand64_iterates_witness :
  AdvanceRand64 1804289383 1000 = Nat.iter 1000 NextRand64 1804289383.
Proof. apply (AdvanceRand64_iterates 1804289383 1000); [unfold in_s64|]; lia. Defined.

(** ** rnd.c: Park and Miller's generator *)
Definition nM : Z := 2147483647.
Definition NextRand (nSeed : Z) : Z := Z.rem (s64 (nSeed * 16807)) nM.

(** speed_seed.c *)
Definition Multiplier : Z := 16807.
Definition Modulus : Z := 2147483647.

(** The loop of [NthElement]; [N] is halved in each turn, so that 64 turns are enough. *)
Fixpoint nth_loop (fuel : nat) (N Mult z : Z) : Z :=
  match fuel with
  | O => z
  | S f =>
      if 0 <? N then
        let z' := if Z.rem N 2 =? 0 then z else Z.rem (s64 (Mult * z)) Modulus in
        nth_loop f (Z.quot N 2) (Z.rem (s64 (Mult * Mult)) Modulus) z'
      else z
  end.
Definition NthElement (N StartSeed : Z) : Z := nth_loop 64 N Multiplier StartSeed.

Definition seed_ok (z : Z) : Prop := 0 <= z < nM.

Lemma mulmod_ok a b : 0 <= a < nM -> 0 <= b < nM -> Z.rem (s64 (a * b)) nM = (a * b) mod nM.
Proof.
  intros Ha Hb. unfold nM in *. rewrite s64_small by (unfold in_s64; nia).
  apply Z.rem_mod_nonneg; nia.
Qed.

Lemma seed_ok_mod x : seed_ok (x mod nM).
Proof. unfold seed_ok, nM. apply Z.mod_pos_bound. lia. Qed.

Lemma NextRand_eq z : seed_ok z -> NextRand z = (z * 16807) mod nM.
Proof. intros Hz. apply mulmod_ok; [exact Hz|unfold nM; lia]. Qed.

Lemma NextRand_ok z : seed_ok z -> seed_ok (NextRand z).
Proof. intros Hz. rewrite NextRand_eq by exact Hz. apply seed_ok_mod. Qed.

Lemma iter_NextRand_ok n z : seed_ok z -> seed_ok (Nat.iter n NextRand z).
Proof. intros Hz. induction n as [|n IH]; [exact Hz|]. now apply NextRand_ok. Qed.

Lemma iter_NextRand n z : seed_ok z -> Nat.iter n NextRand z = (z * 16807 ^ Z.of_nat n) mod nM.
Proof.
  intros Hz. induction n as [|n IH].
  - cbn. rewrite Z.mul_1_r, Z.mod_small by exact Hz. reflexivity.
  - change (Nat.iter (S n) NextRand z) with (NextRand (Nat.iter n NextRand z)).
    rewrite NextRand_eq by now apply iter_NextRand_ok.
    rewrite IH, Z.mul_mod_idemp_l, Nat2Z.inj_succ, Z.pow_succ_r by (unfold nM; lia). f_equal. ring.
Qed.

Lemma mul_pow_mod z m k : (z * (m mod nM) ^ k) mod nM = (z * m ^ k) mod nM.
Proof.
  rewrite Z.mul_mod, <- Zpower_mod, <- Z.mul_mod by (unfold nM; lia). reflexivity.
Qed.

Lemma nth_loop_spec fuel : forall N Mult z,
  0 <= N < 2 ^ Z.of_nat fuel -> 0 <= Mult < nM -> seed_ok z ->
  nth_loop fuel N Mult z = (z * Mult ^ N) mod nM.
Proof.
  induction fuel as [|f IH]; intros N Mult z HN HM Hz; cbn [nth_loop].
  - replace N with 0 by (change (2 ^ Z.of_nat 0) with 1 in HN; lia).
    rewrite Z.mul_1_r, Z.mod_small by exact Hz. reflexivity.
  - rewrite Nat2Z.inj_succ, Z.pow_succ_r in HN by lia. destruct (Z.ltb_spec 0 N) as [Hpos|Hneg].
    2: { replace N with 0 by lia. now rewrite Z.mul_1_r, Z.mod_small by exact Hz. }
    change Modulus with nM. rewrite !mulmod_ok by assumption.
    rewrite Z.quot_div_nonneg, Z.rem_mod_nonneg by lia.
    pose proof (Z.div_mod N 2 ltac:(lia)) as Hdm. pose proof (Z.mod_pos_bound N 2 ltac:(lia)).
    assert (Hsq : Mult ^ (2 * (N / 2)) = (Mult * Mult) ^ (N / 2)).
    { rewrite Z.pow_mul_r by (try apply Z.div_pos; lia). f_equal. lia. }
    assert (Hbnd : 0 <= N / 2 < 2 ^ Z.of_nat f).
    { split; [apply Z.div_pos; lia|apply Z.div_lt_upper_bound; lia]. }
    assert (HN2 : Mult ^ N = (Mult * Mult) ^ (N / 2) * Mult ^ (N mod 2)).
    { rewrite <- Hsq, <- Z.pow_add_r by lia. f_equal. exact Hdm. }
    destruct (Z.eqb_spec (N mod 2) 0) as [E|E].
    + rewrite IH by (assumption || apply seed_ok_mod). rewrite mul_pow_mod, HN2, E, Z.pow_0_r. f_equal. ring.
    + rewrite IH by (assumption || apply seed_ok_mod). rewrite mul_pow_mod, Z.mul_mod_idemp_l by (unfold nM; lia).
      rewrite HN2. replace (N mod 2) with 1 by lia. rewrite Z.pow_1_r. f_equal. ring.
Qed.

(** Skipping [N] numbers of a stream gives the seed after [N] calls. *)
Lemma NthElement_iterates N z :
  0 <= N < 2 ^ 63 -> seed_ok z -> NthElement N z = Nat.iter (Z.to_nat N) NextRand z.
Proof.
  intros HN Hz. unfold NthElement. rewrite nth_loop_spec; [|change (Z.of_nat 64) with 64; lia|unfold nM, Multiplier; lia|exact Hz].
  rewrite iter_NextRand, Z2Nat.id by (exact Hz || lia). reflexivity.
Qed.
#[global] Arguments NthElement : simpl never.

(** ** Tables and streams *)
Definition NONE : Z := -1.
Definition PART : Z := 0.
Definition PSUPP : Z := 1.
Definition SUPP : Z := 2.
Definition CUST : Z := 3.
Definition ORDER : Z := 4.
Definition LINE : Z := 5.
Definition ORDER_LINE : Z := 6.
Definition PART_PSUPP : Z := 7.
Definition NATION : Z := 8.
Definition REGION : Z := 9.

Definition SUPP_PER_PART : Z := 4.
Definition O_LCNT_MIN : Z := 1.
Definition O_LCNT_MAX : Z := 7.
Definition MAX_STREAM : Z := 47.
Definition MAX_LONG : Z := 2147483647.

Definition P_MFG_SD : Z := 0.
Definition P_BRND_SD : Z := 1.
Definition P_TYPE_SD : Z := 2.
Definition P_SIZE_SD : Z := 3.
Definition P_CNTR_SD : Z := 4.
Definition P_RCST_SD : Z := 5.
Definition PS_QTY_SD : Z := 7.
Definition PS_SCST_SD : Z := 8.
Definition O_SUPP_SD : Z := 10.
Definition O_CLRK_SD : Z := 11.
Definition O_ODATE_SD : Z := 13.
Definition L_QTY_SD : Z := 14.
Definition L_DCNT_SD : Z := 15.
Definition L_TAX_SD : Z := 16.
Definition L_SHIP_SD : Z := 17.
Definition L_SMODE_SD : Z := 18.
Definition L_PKEY_SD : Z := 19.
Definition L_SKEY_SD : Z := 20.
Definition L_SDTE_SD : Z := 21.
Definition L_CDTE_SD : Z := 22.
Definition L_RDTE_SD : Z := 23.
Definition L_RFLG_SD : Z := 24.
Definition C_NTRG_SD : Z := 27.
Definition C_PHNE_SD : Z := 28.
Definition C_ABAL_SD : Z := 29.
Definition C_MSEG_SD : Z := 30.
Definition S_NTRG_SD : Z := 33.
Definition S_PHNE_SD : Z := 34.
Definition S_ABAL_SD : Z := 35.
Definition P_NAME_SD : Z := 37.
Definition O_PRIO_SD : Z := 38.
Definition HVAR_SD : Z := 39.
Definition O_CKEY_SD : Z := 40.
Definition N_CMNT_SD : Z := 41.
Definition R_CMNT_SD : Z := 42.
Definition O_LCNT_SD : Z := 43.
Definition BBB_JNK_SD : Z := 44.
Definition BBB_TYPE_SD : Z := 45.
Definition BBB_CMNT_SD : Z := 46.
Definition BBB_OFFSET_SD : Z := 47.
Definition P_CMNT_SD : Z := 6.
Definition PS_CMNT_SD : Z := 9.
Definition O_CMNT_SD : Z := 12.
Definition C_ADDR_SD : Z := 26.
Definition C_CMNT_SD : Z := 31.
Definition S_ADDR_SD : Z := 32.
Definition S_CMNT_SD : Z := 36.
Definition L_CMNT_SD : Z := 25.

(** [seed_t], with the counter of the RNG_TEST build the makefile selects. *)
Record seed_t : Type := mkSeed {
  table : Z;
  value : Z;
  usage : Z;
  boundary : Z;
  nCalls : Z;
}.
Definition seed (table value usage boundary : Z) : seed_t := mkSeed table value usage boundary 0.

Definition Seed : list seed_t := [
  seed PART 1 0 1;
  seed PART 46831694 0 1;
  seed PART 1841581359 0 1;
  seed PART 1193163244 0 1;
  seed PART 727633698 0 1;
  seed NONE 933588178 0 1;
  seed PART 804159733 0 2;
  seed PSUPP 1671059989 0 SUPP_PER_PART;
  seed PSUPP 1051288424 0 SUPP_PER_PART;
  seed PSUPP 1961692154 0 (SUPP_PER_PART * 2);
  seed ORDER 1227283347 0 1;
  seed ORDER 1171034773 0 1;
  seed ORDER 276090261 0 2;
  seed ORDER 1066728069 0 1;
  seed LINE 209208115 0 O_LCNT_MAX;
  seed LINE 554590007 0 O_LCNT_MAX;
  seed LINE 721958466 0 O_LCNT_MAX;
  seed LINE 1371272478 0 O_LCNT_MAX;
  seed LINE 675466456 0 O_LCNT_MAX;
  seed LINE 1808217256 0 O_LCNT_MAX;
  seed LINE 2095021727 0 O_LCNT_MAX;
  seed LINE 1769349045 0 O_LCNT_MAX;
  seed LINE 904914315 0 O_LCNT_MAX;
  seed LINE 373135028 0 O_LCNT_MAX;
  seed LINE 717419739 0 O_LCNT_MAX;
  seed LINE 1095462486 0 (O_LCNT_MAX * 2);
  seed CUST 881155353 0 9;
  seed CUST 1489529863 0 1;
  seed CUST 1521138112 0 3;
  seed CUST 298370230 0 1;
  seed CUST 1140279430 0 1;
  seed CUST 1335826707 0 2;
  seed SUPP 706178559 0 9;
  seed SUPP 110356601 0 1;
  seed SUPP 884434366 0 3;
  seed SUPP 962338209 0 1;
  seed SUPP 1341315363 0 2;
  seed PART 709314158 0 92;
  seed ORDER 591449447 0 1;
  seed LINE 431918286 0 1;
  seed ORDER 851767375 0 1;
  seed NATION 606179079 0 2;
  seed REGION 1500869201 0 2;
  seed ORDER 1434868289 0 1;
  seed SUPP 263032577 0 1;
  seed SUPP 753643799 0 1;
  seed SUPP 202794285 0 1;
  seed SUPP 715851524 0 1
].

Abbreviation streams := (list seed_t).

Definition upd_seed (f : seed_t -> seed_t) (i : Z) (s : streams) : streams := alter f (Z.to_nat i) s.
Definition set_value (v : Z) (x : seed_t) : seed_t := mkSeed (table x) v (usage x) (boundary x) (nCalls x).
Definition set_usage (u : Z) (x : seed_t) : seed_t := mkSeed (table x) (value x) u (boundary x) (nCalls x).
Definition set_boundary (b : Z) (x : seed_t) : seed_t := mkSeed (table x) (value x) (usage x) b (nCalls x).
Definition add_calls (n : Z) (x : seed_t) : seed_t :=
  mkSeed (table x) (value x) (usage x) (boundary x) (nCalls x + n).

(** The seed of a stream; an index outside the array is undefined. *)
Definition seed_of (i : Z) : M streams seed_t :=
  let* s := getM in
  match (if 0 <=? i then s !! Z.to_nat i else None) with
  | Some x => retM x
  | None => failM Undefined
  end.

(** ** UnifInt

    The nearest binary64 number to a positive rational [n/d], as a fraction; ties go to the
    even significand. No number in the generator comes near the ends of the exponent range. *)
Definition nearest_even (a b : Z) : Z :=
  let q := a / b in
  let r := a mod b in
  if 2 * r <? b then q
  else if b <? 2 * r then q + 1
  else if Z.even q then q else q + 1.

Definition b64_exponent (n d : Z) : Z :=
  let k := Z.log2 n - Z.log2 d in
  (if (if 0 <=? k then d * 2 ^ k <=? n else d <=? n * 2 ^ (- k)) then k else k - 1) - 52.

Definition b64 (n d : Z) : Z * Z :=
  if n =? 0 then (0, 1)
  else
    let e := b64_exponent n d in
    if 0 <=? e then (nearest_even n (d * 2 ^ e) * 2 ^ e, 1)
    else (nearest_even (n * 2 ^ (- e)) d, 2 ^ (- e)).

(** [(DSS_HUGE) (((double) value / dM) * dRange)]: every operation rounds, the conversion
    truncates. *)
Definition scale_draw (value nRange : Z) : Z :=
  let '(rn, rd) := b64 (Z.abs nRange) 1 in
  let '(vn, vd) := b64 value 1 in
  let '(xn, xd) := b64 vn (vd * nM) in
  let '(yn, yd) := b64 (xn * rn) (xd * rd) in
  Z.sgn nRange * (yn / yd).

(** [UnifInt] draws the next number of the stream. The 32-bit range of the first branch
    overflows and wraps. *)
Definition UnifInt (nLow nHigh nStream : Z) : M streams Z :=
  let nStream := if (nStream <? 0) || (MAX_STREAM <? nStream) then 0 else nStream in
  let nRange := if (nHigh =? MAX_LONG) && (nLow =? 0) then s32 (s32 nHigh - s32 nLow + 1)
                else nHigh - nLow + 1 in
  let* x := seed_of nStream in
  let v := NextRand (value x) in
  do* modifyM (upd_seed (fun y => add_calls 1 (set_value v y)) nStream) in
  retM (nLow + scale_draw v nRange).

Definition dss_random (lower upper stream : Z) : M streams Z :=
  let* tgt := UnifInt lower upper stream in
  do* modifyM (upd_seed (fun y => set_usage (usage y + 1) y) stream) in
  retM tgt.

Definition dss_random64 (nLow nHigh nStream : Z) : M streams Z :=
  let nStream := if (nStream <? 0) || (MAX_STREAM <? nStream) then 0 else nStream in
  let '(nLow, nHigh) := if nHigh <? nLow then (nHigh, nLow) else (nLow, nHigh) in
  let* x := seed_of nStream in
  let v := NextRand64 (value x) in
  let nTemp := if v <? 0 then s64 (- v) else v in
  do* modifyM (upd_seed (fun y => add_calls 1 (set_usage (usage y + 1) (set_value v y))) nStream) in
  retM (nLow + Z.rem nTemp (nHigh - nLow + 1)).

(** ** Row boundaries *)
Definition row_start : streams -> streams := map (set_usage 0).

(** The [child] column of [tdefs]. *)
Definition child_of (t : Z) : Z :=
  if t =? PART then PSUPP
  else if t =? ORDER then LINE
  else if t =? ORDER_LINE then LINE
  else if t =? PART_PSUPP then PSUPP
  else NONE.

Definition row_stop_seed (set_seeds : bool) (x : seed_t) : seed_t :=
  if set_seeds && (boundary x <? usage x) then set_boundary (usage x) x
  else add_calls (boundary x - usage x) (set_value (NthElement (boundary x - usage x) (value x)) x).

Definition row_stop (set_seeds : bool) (t : Z) (s : streams) : streams :=
  let t := if t =? ORDER_LINE then ORDER else t in
  let t := if t =? PART_PSUPP then PART else t in
  map (fun x => if (table x =? t) || (table x =? child_of t) then row_stop_seed set_seeds x else x) s.

(** ** speed_seed.c *)
Definition advanceStream (nStream nCalls : Z) (bUse64Bit : bool) (s : streams) : streams :=
  upd_seed (fun x => add_calls nCalls
                       (set_value (if bUse64Bit then AdvanceRand64 (value x) nCalls
                                   else NthElement nCalls (value x)) x)) nStream s.
Definition ADVANCE_STREAM (stream_id num_calls : Z) : streams -> streams := advanceStream stream_id num_calls false.

(** A sequence of advances, in order. *)
Definition advance_all (l : list (Z * Z)) (s : streams) : streams :=
  fold_left (fun s '(i, n) => ADVANCE_STREAM i n s) l s.
(** [for (i = first; i <= last; i++) ADVANCE_STREAM(i, n)] *)
Definition range_calls (first last n : Z) : list (Z * Z) := map (fun i => (i, n)) (seqZ first (last - first + 1)).

(** The calls of each routine. *)
Definition sd_part_calls (skip_count : Z) : list (Z * Z) :=
  range_calls P_MFG_SD P_CNTR_SD skip_count ++ [(P_CMNT_SD, skip_count * 2); (P_NAME_SD, skip_count * 92)].
Definition sd_line_calls (child skip_count : Z) : list (Z * Z) :=
  concat (replicate (Z.to_nat O_LCNT_MAX)
            (range_calls L_QTY_SD L_RFLG_SD skip_count ++ [(L_CMNT_SD, skip_count * 2)])) ++
  (if child =? 1 then [(O_ODATE_SD, skip_count); (O_LCNT_SD, skip_count)] else []).
Definition sd_order_calls (skip_count : Z) : list (Z * Z) :=
  [(O_LCNT_SD, skip_count); (O_CKEY_SD, skip_count); (O_CMNT_SD, skip_count * 2); (O_SUPP_SD, skip_count);
   (O_CLRK_SD, skip_count); (O_PRIO_SD, skip_count); (O_ODATE_SD, skip_count)].
Definition sd_psupp_calls (skip_count : Z) : list (Z * Z) :=
  concat (replicate (Z.to_nat SUPP_PER_PART)
            [(PS_QTY_SD, skip_count); (PS_SCST_SD, skip_count); (PS_CMNT_SD, skip_count * 2)]).
Definition sd_cust_calls (skip_count : Z) : list (Z * Z) :=
  [(C_ADDR_SD, skip_count * 9); (C_CMNT_SD, skip_count * 2); (C_NTRG_SD, skip_count);
   (C_PHNE_SD, 3 * skip_count); (C_ABAL_SD, skip_count); (C_MSEG_SD, skip_count)].
Definition sd_supp_calls (skip_count : Z) : list (Z * Z) :=
  [(S_NTRG_SD, skip_count); (S_PHNE_SD, 3 * skip_count); (S_ABAL_SD, skip_count); (S_ADDR_SD, skip_count * 9);
   (S_CMNT_SD, skip_count * 2); (BBB_CMNT_SD, skip_count); (BBB_JNK_SD, skip_count);
   (BBB_OFFSET_SD, skip_count); (BBB_TYPE_SD, skip_count)].

Definition sd_part (child skip_count : Z) : streams -> streams := advance_all (sd_part_calls skip_count).
Definition sd_line (child skip_count : Z) : streams -> streams := advance_all (sd_line_calls child skip_count).
Definition sd_order (child skip_count : Z) : streams -> streams := advance_all (sd_order_calls skip_count).
Definition sd_psupp (child skip_count : Z) : streams -> streams := advance_all (sd_psupp_calls skip_count).
Definition sd_cust (child skip_count : Z) : streams -> streams := advance_all (sd_cust_calls skip_count).
Definition sd_supp (child skip_count : Z) : streams -> streams := advance_all (sd_supp_calls skip_count).

(** [fake_a_rnd] advances the usage counter with the generator, not the seed. *)
Definition fake_a_rnd (min max column : Z) : M streams unit :=
  let* len := dss_random min max column in
  let itcount := if Z.rem len 5 =? 0 then Z.quot len 5 else Z.quot len 5 + 1 in
  modifyM (upd_seed (fun x => add_calls itcount (set_usage (NthElement itcount (usage x)) x)) column).

(** ** Rounding *)

Lemma nearest_even_bound a b : 0 < b -> 2 * Z.abs (nearest_even a b * b - a) <= b.
Proof.
  intros Hb. unfold nearest_even. pose proof (Z.div_mod a b ltac:(lia)) as Hdm.
  pose proof (Z.mod_pos_bound a b Hb). set (q := a / b) in *. set (r := a mod b) in *.
  destruct (Z.ltb_spec (2 * r) b); [nia|]. destruct (Z.ltb_spec b (2 * r)); [nia|]. destruct (Z.even q); nia.
Qed.

Lemma nearest_even_nonneg a b : 0 <= a -> 0 < b -> 0 <= nearest_even a b.
Proof.
  intros Ha Hb. unfold nearest_even. pose proof (Z.div_pos a b Ha Hb).
  destruct (_ <? _); [lia|]. destruct (_ <? _); [lia|]. destruct (Z.even _); lia.
Qed.

Lemma b64_exponent_low n d : 0 < n -> 0 < d ->
  let e := b64_exponent n d in
  (0 <= e -> d * 2 ^ e * 2 ^ 52 <= n) /\ (e < 0 -> d * 2 ^ 52 <= n * 2 ^ (- e)).
Proof.
  intros Hn Hd. unfold b64_exponent. set (k := Z.log2 n - Z.log2 d).
  pose proof (Z.log2_spec n Hn) as [Hn1 Hn2]. pose proof (Z.log2_spec d Hd) as [Hd1 Hd2].
  pose proof (Z.log2_nonneg n). pose proof (Z.log2_nonneg d).
  (* 2^(k-1) <= n/d *)
  assert (Hlow : forall j, j <= k - 1 -> (0 <= j -> d * 2 ^ j <= n) /\ (j < 0 -> d <= n * 2 ^ (- j))).
  { intros j Hj. split; intros Hs.
    - assert (d * 2 ^ j <= 2 ^ Z.succ (Z.log2 d) * 2 ^ j) by nia.
      rewrite <- Z.pow_add_r in * by lia. pose proof (Z.pow_le_mono_r 2 (Z.succ (Z.log2 d) + j) (Z.log2 n)). lia.
    - assert (2 ^ Z.log2 n * 2 ^ (- j) <= n * 2 ^ (- j)) by nia.
      rewrite <- Z.pow_add_r in * by lia. pose proof (Z.pow_le_mono_r 2 (Z.succ (Z.log2 d)) (Z.log2 n + - j)). lia. }
  set (j := if (if 0 <=? k then d * 2 ^ k <=? n else d <=? n * 2 ^ (- k)) then k else k - 1).
  assert (Hj : (0 <= j -> d * 2 ^ j <= n) /\ (j < 0 -> d <= n * 2 ^ (- j))).
  { unfold j. destruct (Z.leb_spec 0 k).
    - destruct (Z.leb_spec (d * 2 ^ k) n); [split; [easy|lia]|apply Hlow; lia].
    - destruct (Z.leb_spec d (n * 2 ^ (- k))); [split; [lia|easy]|apply Hlow; lia]. }
  clearbody j. clear Hlow k. destruct Hj as [Hj1 Hj2]. cbv zeta. split; intros He.
  - rewrite <- Z.mul_assoc, <- Z.pow_add_r by lia. replace (j - 52 + 52) with j by lia. apply Hj1. lia.
  - destruct (Z.ltb_spec j 0) as [Hneg|Hpos].
    + replace (- (j - 52)) with (- j + 52) by lia. rewrite Z.pow_add_r by lia. specialize (Hj2 Hneg). nia.
    + replace (2 ^ 52) with (2 ^ j * 2 ^ (- (j - 52))).
      2: { rewrite <- Z.pow_add_r by lia. f_equal. lia. }
      specialize (Hj1 Hpos). pose proof (Z.pow_pos_nonneg 2 (- (j - 52))). nia.
Qed.

(** The rounding error is at most one part in 2^53. *)
Lemma b64_bound n d : 0 <= n -> 0 < d ->
  let '(n', d') := b64 n d in
  0 <= n' /\ 0 < d' /\ n' * d * 2 ^ 53 <= n * d' * (2 ^ 53 + 1).
Proof.
  intros Hn Hd. unfold b64. destruct (Z.eqb_spec n 0) as [->|Hne]; [lia|].
  destruct (b64_exponent_low n d ltac:(lia) Hd) as [H1 H2]. set (e := b64_exponent n d) in *. clearbody e.
  destruct (Z.leb_spec 0 e) as [He|He].
  - specialize (H1 He). set (p := 2 ^ e) in *. assert (0 < p) by (unfold p; lia).
    pose proof (nearest_even_bound n (d * p) ltac:(nia)). pose proof (nearest_even_nonneg n (d * p) Hn ltac:(nia)).
    set (m := nearest_even n (d * p)) in *. split; [nia|]. split; [lia|]. nia.
  - specialize (H2 He). set (p := 2 ^ (- e)) in *. assert (0 < p) by (unfold p; lia).
    pose proof (nearest_even_bound (n * p) d Hd). pose proof (nearest_even_nonneg (n * p) d ltac:(nia) Hd).
    set (m := nearest_even (n * p) d) in *. split; [nia|]. split; [lia|]. nia.
Qed.

(** Four roundings, each within [Q/P], cannot carry a fraction below one up to one. *)
Lemma rounding_chain P Q M v R rn rd vn vd xn xd yn yd :
  0 < P -> 0 < Q -> 0 < M -> 0 < R -> 0 < rd -> 0 < vd -> 0 < xd -> 0 < yd ->
  0 <= xn -> 0 <= vn -> v <= M - 1 -> (M - 1) * Q * Q * Q * Q < M * P * P * P * P ->
  rn * P <= R * rd * Q -> vn * P <= v * vd * Q -> xn * (vd * M) * P <= vn * xd * Q ->
  yn * (xd * rd) * P <= xn * rn * yd * Q -> yn < yd * R.
Proof.
  intros HP HQ HM HR Hrd Hvd Hxd Hyd Hxn Hvn Hv Hlast H1 H2 H3 H4.
  apply Z.nle_gt. intros Hc.
  assert (S1 : R * xd * rd * P <= xn * rn * Q).
  { apply (Z.mul_le_mono_pos_r _ _ yd Hyd). etransitivity; [|etransitivity; [exact H4|lia]].
    replace (R * xd * rd * P * yd) with (yd * R * (xd * rd * P)) by ring.
    replace (yn * (xd * rd) * P) with (yn * (xd * rd * P)) by ring. apply Z.mul_le_mono_nonneg_r; [|exact Hc]. nia. }
  assert (S2 : xd * P * P <= xn * Q * Q).
  { apply (Z.mul_le_mono_pos_r _ _ (R * rd) ltac:(nia)).
    assert (xn * rn * Q * P <= xn * Q * (R * rd * Q)).
    { replace (xn * rn * Q * P) with (xn * Q * (rn * P)) by ring. apply Z.mul_le_mono_nonneg_l; [nia|exact H1]. }
    assert (R * xd * rd * P * P <= xn * rn * Q * P) by (apply Z.mul_le_mono_nonneg_r; [lia|exact S1]). lia. }
  assert (S3 : P * P * P * vd * M <= vn * Q * Q * Q).
  { apply (Z.mul_le_mono_pos_r _ _ xd Hxd).
    assert (xd * P * P * (vd * M * P) <= xn * Q * Q * (vd * M * P)) by (apply Z.mul_le_mono_nonneg_r; [nia|exact S2]).
    assert (xn * (vd * M) * P * (Q * Q) <= vn * xd * Q * (Q * Q)) by (apply Z.mul_le_mono_nonneg_r; [nia|exact H3]).
    lia. }
  assert (S4 : P * P * P * P * M <= v * Q * Q * Q * Q).
  { apply (Z.mul_le_mono_pos_r _ _ vd Hvd).
    assert (P * P * P * vd * M * P <= vn * Q * Q * Q * P) by (apply Z.mul_le_mono_nonneg_r; [lia|exact S3]).
    assert (vn * P * (Q * Q * Q) <= v * vd * Q * (Q * Q * Q)) by (apply Z.mul_le_mono_nonneg_r; [nia|exact H2]).
    lia. }
  assert (v * (Q * Q * Q * Q) <= (M - 1) * (Q * Q * Q * Q)) by (apply Z.mul_le_mono_nonneg_r; [nia|exact Hv]).
  lia.
Qed.

Lemma scale_draw_range v R : seed_ok v -> 0 < R -> 0 <= scale_draw v R < R.
Proof.
  intros Hv HR. unfold scale_draw, seed_ok, nM in *. rewrite (Z.abs_eq R), (Z.sgn_pos R) by lia.
  pose proof (b64_bound R 1 ltac:(lia) ltac:(lia)) as Hr. destruct (b64 R 1) as [rn rd]. destruct Hr as (Hr0 & Hr1 & Hr).
  pose proof (b64_bound v 1 ltac:(lia) ltac:(lia)) as Hv1. destruct (b64 v 1) as [vn vd]. destruct Hv1 as (Hv0 & Hvd & Hvb).
  pose proof (b64_bound vn (vd * 2147483647) ltac:(lia) ltac:(lia)) as Hx.
  destruct (b64 vn _) as [xn xd]. destruct Hx as (Hx0 & Hx1 & Hx).
  pose proof (b64_bound (xn * rn) (xd * rd) ltac:(nia) ltac:(nia)) as Hy.
  destruct (b64 (xn * rn) _) as [yn yd]. destruct Hy as (Hy0 & Hy1 & Hy). rewrite Z.mul_1_l.
  split; [now apply Z.div_pos|]. apply Z.div_lt_upper_bound; [exact Hy1|].
  apply (rounding_chain (2 ^ 53) (2 ^ 53 + 1) 2147483647 v R rn rd vn vd xn xd yn yd); lia.
Qed.

Lemma alter_insert {A} (f : A -> A) (l : list A) i x : l !! i = Some x -> alter f i l = <[i := f x]> l.
Proof.
  revert i. induction l as [|y l IH]; intros [|i] H; try discriminate H; cbn in *.
  - now injection H as ->.
  - f_equal. exact (IH i H).
Qed.

Lemma seed_of_run nStream s x : 0 <= nStream -> s !! Z.to_nat nStream = Some x -> seed_of nStream s = (Ok x, s).
Proof.
  intros Hn Hx. unfold seed_of, bindM, getM. rewrite (proj2 (Z.leb_le 0 nStream)), Hx by lia. reflexivity.
Qed.

Definition draw_range (nLow nHigh : Z) : Z :=
  if (nHigh =? MAX_LONG) && (nLow =? 0) then s32 (s32 nHigh - s32 nLow + 1) else nHigh - nLow + 1.

Lemma UnifInt_run nLow nHigh nStream s x :
  0 <= nStream <= MAX_STREAM -> s !! Z.to_nat nStream = Some x ->
  UnifInt nLow nHigh nStream s =
    (Ok (nLow + scale_draw (NextRand (value x)) (draw_range nLow nHigh)),
     <[Z.to_nat nStream := add_calls 1 (set_value (NextRand (value x)) x)]> s).
Proof.
  intros Hst Hx. unfold UnifInt, MAX_STREAM in *.
  rewrite (proj2 (Z.ltb_ge nStream 0)), (proj2 (Z.ltb_ge 47 nStream)) by lia. cbn [orb].
  rewrite (bindM_run _ _ _ _ _ (seed_of_run nStream s x ltac:(lia) Hx)).
  unfold modifyM, bindM, retM, upd_seed. now rewrite (alter_insert _ _ _ _ Hx).
Qed.

Lemma draw_range_ordinary nLow nHigh :
  ~ (nHigh = MAX_LONG /\ nLow = 0) -> draw_range nLow nHigh = nHigh - nLow + 1.
Proof.
  intros Hsp. unfold draw_range.
  destruct (Z.eqb_spec nHigh MAX_LONG), (Z.eqb_spec nLow 0); auto. exfalso. auto.
Qed.

Lemma draw_in_range nLow nHigh v :
  nLow <= nHigh -> ~ (nHigh = MAX_LONG /\ nLow = 0) -> seed_ok v ->
  nLow <= nLow + scale_draw v (draw_range nLow nHigh) <= nHigh.
Proof.
  intros Hle Hsp Hok. rewrite draw_range_ordinary by exact Hsp.
  pose proof (scale_draw_range v (nHigh - nLow + 1) Hok). lia.
Qed.

(** [UnifInt] draws numbers inside the bounds: with the double-precision quotient and
    product the code computes, the number is never below [nLow] and never above [nHigh],
    whatever the seed, and exactly the stream's seed moves one step. *)
Theorem UnifInt_in_range (nLow nHigh nStream : Z) (s : streams) (x : seed_t) :
  0 <= nStream <= MAX_STREAM -> nLow <= nHigh -> ~ (nHigh = MAX_LONG /\ nLow = 0) ->
  s !! Z.to_nat nStream = Some x -> seed_ok (value x) ->
  exists n, UnifInt nLow nHigh nStream s =
      (Ok n, <[Z.to_nat nStream := add_calls 1 (set_value (NextRand (value x)) x)]> s) /\
    nLow <= n <= nHigh.
Proof.
  intros Hst Hle Hsp Hx Hok. eexists. split; [now apply UnifInt_run|].
  apply draw_in_range; auto using NextRand_ok.
Qed.

Lemma UnifInt_in_range_witness :
  exists n, UnifInt 1 7 O_LCNT_SD Seed =
      (Ok n, <[43%nat := add_calls 1 (set_value (NextRand 1434868289) (seed ORDER 1434868289 0 1))]> Seed) /\
    1 <= n <= 7.
Proof.
  apply (UnifInt_in_range 1 7 O_LCNT_SD Seed (seed ORDER 1434868289 0 1)).
  - split; vm_compute; congruence.
  - lia.
  - intros [_ H]. discriminate H.
  - reflexivity.
  - split; vm_compute; congruence.
Defined.

(** For the bounds [0, MAX_LONG] the 32-bit range overflows to [-2^31]: the number drawn is
    never positive. *)
Theorem UnifInt_full_range_is_negative (nStream : Z) (s : streams) (x : seed_t) :
  0 <= nStream <= MAX_STREAM -> s !! Z.to_nat nStream = Some x -> seed_ok (value x) ->
  exists n s', UnifInt 0 MAX_LONG nStream s = (Ok n, s') /\ - 2 ^ 31 < n <= 0.
Proof.
  intros Hst Hx Hok. eexists _, _. split; [exact (UnifInt_run 0 MAX_LONG nStream s x Hst Hx)|].
  change (draw_range 0 MAX_LONG) with (- (2 ^ 31)).
  pose proof (scale_draw_range (NextRand (value x)) (2 ^ 31) (NextRand_ok _ Hok) ltac:(lia)) as H.
  unfold scale_draw in *. change (Z.abs (- 2 ^ 31)) with (Z.abs (2 ^ 31)).
  destruct (b64 (Z.abs (2 ^ 31)) 1) as [rn rd], (b64 (NextRand (value x)) 1) as [vn vd],
    (b64 vn (vd * nM)) as [xn xd], (b64 (xn * rn) (xd * rd)) as [yn yd].
  change (Z.sgn (2 ^ 31)) with 1 in H. change (Z.sgn (- 2 ^ 31)) with (-1). lia.
Qed.

(** ** What a row does to the streams

    Chunks of a table are generated by separate processes, each skipping the rows before its
    own. That this gives the same rows rests on two facts about a row: it reads only the
    streams of its table, and it draws at most [boundary] numbers from each. *)

Definition streams_ok (s : streams) : Prop :=
  length s = 48%nat /\ forall i x, s !! i = Some x -> seed_ok (value x).

(** Two seeds that a row cannot tell apart. *)
Definition same_seed (x y : seed_t) : Prop :=
  table x = table y /\ value x = value y /\ usage x = usage y /\ boundary x = boundary y.

Definition agree (R : list Z) (s t : streams) : Prop :=
  forall i, i ∈ R -> exists x y, s !! Z.to_nat i = Some x /\ t !! Z.to_nat i = Some y /\ same_seed x y.

(** [t] comes from [s] by drawing at most [ub i] numbers from stream [i]. *)
Definition moved (ub : Z -> Z) (s t : streams) : Prop :=
  forall i x, 0 <= i -> s !! Z.to_nat i = Some x ->
    exists n y, t !! Z.to_nat i = Some y /\ (Z.of_nat n <= ub i) /\
      value y = Nat.iter n NextRand (value x) /\ usage y = usage x + Z.of_nat n /\
      table y = table x /\ boundary y = boundary x.

Definition only (c n : Z) (i : Z) : Z := if i =? c then n else 0.
Definition plus (f g : Z -> Z) (i : Z) : Z := f i + g i.
Definition none (i : Z) : Z := 0.

(** [m] reads the streams in [R] only, draws at most [ub i] numbers from stream [i], and
    returns a value that satisfies [post]. *)
Definition Draws {A : Type} (R : list Z) (ub : Z -> Z) (post : A -> Prop) (m : M streams A) : Prop :=
  forall s1 s2, streams_ok s1 -> streams_ok s2 -> agree R s1 s2 ->
  exists a t1 t2, m s1 = (Ok a, t1) /\ m s2 = (Ok a, t2) /\ post a /\
    streams_ok t1 /\ streams_ok t2 /\ agree R t1 t2 /\ moved ub s1 t1 /\ moved ub s2 t2.

Lemma moved_refl ub s : (forall i, 0 <= ub i) -> moved ub s s.
Proof. intros Hub i x Hi Hx. exists 0%nat, x. specialize (Hub i). repeat split; auto; cbn; lia. Qed.

Lemma moved_trans u1 u2 s1 s2 s3 : moved u1 s1 s2 -> moved u2 s2 s3 -> moved (plus u1 u2) s1 s3.
Proof.
  intros H1 H2 i x Hi Hx. destruct (H1 i x Hi Hx) as (n1 & y & Hy & Hn1 & Hv1 & Hu1 & Ht1 & Hb1).
  destruct (H2 i y Hi Hy) as (n2 & z & Hz & Hn2 & Hv2 & Hu2 & Ht2 & Hb2).
  exists (n2 + n1)%nat, z. split; [exact Hz|]. unfold plus. split; [lia|].
  rewrite Hv2, Hv1, Nat.iter_add. repeat split; congruence || lia.
Qed.

Lemma moved_weaken u1 u2 s t : (forall i, 0 <= i -> u1 i <= u2 i) -> moved u1 s t -> moved u2 s t.
Proof.
  intros Hle H i x Hi Hx. destruct (H i x Hi Hx) as (n & y & Hy & Hn & Hrest). exists n, y.
  split; [exact Hy|]. split; [specialize (Hle i Hi); lia|exact Hrest].
Qed.

Lemma Draws_ret {A} R (post : A -> Prop) a : post a -> Draws R none post (retM a).
Proof.
  intros Ha s1 s2 H1 H2 Hag. exists a, s1, s2. split_and!; auto; apply moved_refl; intros; unfold none; lia.
Qed.

Lemma Draws_bind {A B} R u1 u2 (p1 : A -> Prop) (p2 : B -> Prop) m k :
  Draws R u1 p1 m -> (forall a, p1 a -> Draws R u2 p2 (k a)) -> Draws R (plus u1 u2) p2 (bindM m k).
Proof.
  intros Hm Hk s1 s2 H1 H2 Hag.
  destruct (Hm s1 s2 H1 H2 Hag) as (a & t1 & t2 & E1 & E2 & Ha & O1 & O2 & Hag1 & M1 & M2).
  destruct (Hk a Ha t1 t2 O1 O2 Hag1) as (b & w1 & w2 & F1 & F2 & Hb & P1 & P2 & Hag2 & N1 & N2).
  exists b, w1, w2. rewrite (bindM_run _ _ _ _ _ E1), (bindM_run _ _ _ _ _ E2).
  split_and!; auto; eapply moved_trans; eauto.
Qed.

Lemma Draws_weaken {A} R u1 u2 (p1 p2 : A -> Prop) m :
  (forall i, 0 <= i -> u1 i <= u2 i) -> (forall a, p1 a -> p2 a) -> Draws R u1 p1 m -> Draws R u2 p2 m.
Proof.
  intros Hu Hp H s1 s2 H1 H2 Hag.
  destruct (H s1 s2 H1 H2 Hag) as (a & t1 & t2 & E1 & E2 & Ha & O1 & O2 & Hag1 & M1 & M2).
  exists a, t1, t2. split_and!; auto; eapply moved_weaken; eauto.
Qed.

Lemma stream_present s i : streams_ok s -> 0 <= i <= MAX_STREAM -> exists x, s !! Z.to_nat i = Some x /\ seed_ok (value x).
Proof.
  intros [Hlen Hok] Hi. unfold MAX_STREAM in Hi.
  destruct (s !! Z.to_nat i) as [x|] eqn:E; [exists x; split; [reflexivity|exact (Hok _ _ E)]|].
  apply lookup_ge_None in E. lia.
Qed.

(** The seed after one draw. *)
Definition drawn (x : seed_t) : seed_t :=
  set_usage (usage x + 1) (add_calls 1 (set_value (NextRand (value x)) x)).

Lemma dss_random_run lower upper c s x :
  0 <= c <= MAX_STREAM -> s !! Z.to_nat c = Some x ->
  dss_random lower upper c s =
    (Ok (lower + scale_draw (NextRand (value x)) (draw_range lower upper)), <[Z.to_nat c := drawn x]> s).
Proof.
  intros Hc Hx. unfold dss_random. rewrite (bindM_run _ _ _ _ _ (UnifInt_run lower upper c s x Hc Hx)).
  unfold modifyM, bindM, retM, upd_seed. f_equal.
  rewrite (alter_insert _ _ _ (add_calls 1 (set_value (NextRand (value x)) x))).
  - now rewrite list_insert_insert_eq.
  - apply list_lookup_insert_eq. apply lookup_lt_Some in Hx. exact Hx.
Qed.

Lemma streams_ok_insert s c x :
  streams_ok s -> seed_ok (value x) -> streams_ok (<[c := x]> s).
Proof.
  intros [Hlen Hok] Hx. split; [now rewrite length_insert|]. intros i y Hy.
  apply list_lookup_insert_Some in Hy as [(-> & -> & _)|[_ Hy]]; [exact Hx|exact (Hok _ _ Hy)].
Qed.

Lemma moved_drawn s c x :
  0 <= c -> s !! Z.to_nat c = Some x -> moved (only c 1) s (<[Z.to_nat c := drawn x]> s).
Proof.
  intros Hc Hx i y Hi Hy. unfold only. destruct (Z.eqb_spec i c) as [->|Hne].
  - rewrite Hx in Hy. injection Hy as ->. exists 1%nat, (drawn y).
    rewrite list_lookup_insert_eq by now apply lookup_lt_Some in Hx. repeat split; cbn; lia.
  - exists 0%nat, y. rewrite list_lookup_insert_ne by lia. repeat split; auto; cbn; lia.
Qed.

Lemma agree_drawn R s1 s2 c x1 x2 :
  0 <= c -> agree R s1 s2 -> s1 !! Z.to_nat c = Some x1 -> s2 !! Z.to_nat c = Some x2 -> same_seed x1 x2 ->
  (forall i, i ∈ R -> 0 <= i) ->
  agree R (<[Z.to_nat c := drawn x1]> s1) (<[Z.to_nat c := drawn x2]> s2).
Proof.
  intros Hc Hag H1 H2 (Ht & Hv & Hu & Hb) Hpos i Hi. specialize (Hpos i Hi).
  destruct (Z.eq_dec i c) as [->|Hne].
  - exists (drawn x1), (drawn x2). apply lookup_lt_Some in H1, H2.
    rewrite !list_lookup_insert_eq by assumption. repeat split; auto; cbn; congruence.
  - destruct (Hag i Hi) as (y1 & y2 & E1 & E2 & Hsame). exists y1, y2.
    rewrite !list_lookup_insert_ne by lia. auto.
Qed.

(** The streams of a table are indices of the array. *)
Definition streams_of_table (R : list Z) : Prop := forall i, i ∈ R -> 0 <= i <= MAX_STREAM.

Lemma Draws_random R lower upper c (post : Z -> Prop) :
  streams_of_table R -> c ∈ R ->
  (forall v, seed_ok v -> post (lower + scale_draw v (draw_range lower upper))) ->
  Draws R (only c 1) post (dss_random lower upper c).
Proof.
  intros HR Hc Hpost s1 s2 H1 H2 Hag. pose proof (HR c Hc) as Hcr.
  destruct (Hag c Hc) as (x1 & x2 & E1 & E2 & Hsame). pose proof Hsame as (_ & Hv & _ & _).
  pose proof (proj2 H1 _ _ E1) as Hok1. pose proof (proj2 H2 _ _ E2) as Hok2.
  eexists _, _, _. split; [exact (dss_random_run lower upper c s1 x1 Hcr E1)|].
  split; [rewrite Hv; exact (dss_random_run lower upper c s2 x2 Hcr E2)|].
  split; [apply Hpost, NextRand_ok, Hok1|].
  split; [apply streams_ok_insert; [exact H1|apply NextRand_ok, Hok1]|].
  split; [apply streams_ok_insert; [exact H2|apply NextRand_ok, Hok2]|].
  split; [apply agree_drawn; auto; [lia|intros i Hi; apply HR, Hi]|].
  split; apply moved_drawn; auto; lia.
Qed.

Lemma Draws_unif R lower upper c :
  streams_of_table R -> c ∈ R -> lower <= upper -> ~ (upper = MAX_LONG /\ lower = 0) ->
  Draws R (only c 1) (fun n => lower <= n <= upper) (dss_random lower upper c).
Proof. intros HR Hc Hle Hsp. apply Draws_random; auto. intros v Hv. now apply draw_in_range. Qed.

Lemma Draws_any R lower upper c :
  streams_of_table R -> c ∈ R -> Draws R (only c 1) (fun _ => True) (dss_random lower upper c).
Proof. intros HR Hc. now apply Draws_random. Qed.

(** ** Rows and skipping rows *)

(** One turn of the loop of [gen_tbl]: the row is built between [row_start] and [row_stop]. *)
Definition gen_row {A : Type} (t : Z) (mk : Z -> M streams A) (i : Z) : M streams A :=
  do* modifyM row_start in
  let* a := mk i in
  do* modifyM (row_stop false t) in
  retM a.

(** The tables and boundaries are those of the seed table. *)
Definition shaped (s : streams) : Prop :=
  forall i x, s !! i = Some x -> exists y, Seed !! i = Some y /\ table x = table y /\ boundary x = boundary y.

Definition val (s : streams) (i : Z) : Z := from_option value 0 (s !! Z.to_nat i).
Definition bnd (i : Z) : Z := from_option boundary 0 (Seed !! Z.to_nat i).

Record ready (s : streams) : Prop := {
  ready_ok : streams_ok s;
  ready_shape : shaped s;
}.

Definition vagree (R : list Z) (s1 s2 : streams) : Prop := forall i, i ∈ R -> val s1 i = val s2 i.
Definition advanced (R : list Z) (k : Z) (s t : streams) : Prop :=
  forall i, i ∈ R -> val t i = Nat.iter (Z.to_nat (k * bnd i)) NextRand (val s i).

Lemma ready_lookup s i : ready s -> 0 <= i <= MAX_STREAM ->
  exists x y, s !! Z.to_nat i = Some x /\ Seed !! Z.to_nat i = Some y /\ seed_ok (value x) /\
    val s i = value x /\ bnd i = boundary x /\ table x = table y.
Proof.
  intros [Hok Hsh] Hi. destruct (stream_present s i Hok Hi) as (x & Hx & Hv).
  destruct (Hsh _ _ Hx) as (y & Hy & Ht & Hb). exists x, y. unfold val, bnd. rewrite Hx, Hy. cbn.
  split_and!; auto.
Qed.

Lemma ready_map s (f : seed_t -> seed_t) :
  ready s ->
  (forall i x, s !! i = Some x -> seed_ok (value x) ->
     seed_ok (value (f x)) /\ table (f x) = table x /\ boundary (f x) = boundary x) ->
  ready (map f s).
Proof.
  intros [[Hlen Hok] Hsh] Hf. split; [split|].
  - now rewrite length_map.
  - intros i x Hx. rewrite list_lookup_fmap in Hx. destruct (s !! i) as [y|] eqn:E; [|discriminate].
    injection Hx as <-. exact (proj1 (Hf i y E (Hok _ _ E))).
  - intros i x Hx. rewrite list_lookup_fmap in Hx. destruct (s !! i) as [y|] eqn:E; [|discriminate].
    injection Hx as <-. destruct (Hsh _ _ E) as (z & Hz & Ht & Hb). exists z. split; [exact Hz|].
    destruct (Hf i y E (Hok _ _ E)) as (_ & -> & ->). auto.
Qed.

Lemma ready_row_start s : ready s -> ready (row_start s).
Proof. intros Hs. apply ready_map; [exact Hs|]. intros i x _ Hx. auto. Qed.

Lemma nth_loop_nonpos fuel N Mult z : N <= 0 -> nth_loop fuel N Mult z = z.
Proof. intros HN. destruct fuel; [reflexivity|]. cbn [nth_loop]. now rewrite (proj2 (Z.ltb_ge 0 N)). Qed.

Lemma NthElement_ok N z : N < 2 ^ 63 -> seed_ok z -> seed_ok (NthElement N z).
Proof.
  intros HN Hz. destruct (Z.ltb_spec N 0).
  - unfold NthElement. now rewrite nth_loop_nonpos by lia.
  - rewrite NthElement_iterates by (exact Hz || lia). now apply iter_NextRand_ok.
Qed.

Lemma agree_row_start R s1 s2 :
  streams_of_table R -> ready s1 -> ready s2 -> vagree R s1 s2 -> agree R (row_start s1) (row_start s2).
Proof.
  intros HR H1 H2 Hv i Hi. destruct (ready_lookup s1 i H1 (HR i Hi)) as (x1 & y & E1 & Ey & _ & Hv1 & Hb1 & Ht1).
  destruct (ready_lookup s2 i H2 (HR i Hi)) as (x2 & y' & E2 & Ey' & _ & Hv2 & Hb2 & Ht2).
  exists (set_usage 0 x1), (set_usage 0 x2). unfold row_start. rewrite !list_lookup_fmap, E1, E2.
  specialize (Hv i Hi). repeat split; cbn; congruence.
Qed.

Section Rows.
Context {A : Type} (R : list Z) (ub : Z -> Z) (t : Z) (mk : Z -> M streams A).
(** The streams a row reads belong to its table or to the child table, and are drawn from
    within their boundaries. *)
Context (HR : streams_of_table R).
Context (Htable : forall i y, i ∈ R -> Seed !! Z.to_nat i = Some y ->
           let t' := if t =? ORDER_LINE then ORDER else t in
           let t'' := if t' =? PART_PSUPP then PART else t' in
           (table y =? t'') || (table y =? child_of t'') = true).
Context (Hub : forall i, i ∈ R -> ub i <= bnd i).
Context (Hmk : forall i, Draws R ub (fun _ => True) (mk i)).

Lemma bnd_small i : bnd i < 2 ^ 63.
Proof.
  unfold bnd. destruct (Seed !! Z.to_nat i) as [y|] eqn:E; cbn; [|lia].
  assert (H : Forall (fun y => boundary y < 2 ^ 63) Seed) by (repeat constructor).
  exact (Forall_lookup_1 _ _ _ _ H E).
Qed.

Lemma moved_row s s' u : ready s -> streams_ok s' -> moved u (row_start s) s' -> shaped s'.
Proof.
  intros Hs Hs' Hm i x Hx.
  assert (Hlt : (i < length s)%nat).
  { rewrite (proj1 (ready_ok _ Hs)), <- (proj1 Hs'). now apply lookup_lt_Some in Hx. }
  destruct (lookup_lt_is_Some_2 _ _ Hlt) as [y Hy].
  destruct (Hm (Z.of_nat i) (set_usage 0 y)) as (n & z & Hz & _ & _ & _ & Htz & Hbz).
  { lia. } { unfold row_start. now rewrite Nat2Z.id, list_lookup_fmap, Hy. }
  rewrite Nat2Z.id in Hz. rewrite Hx in Hz. injection Hz as <-.
  destruct (ready_shape _ Hs _ _ Hy) as (w & Hw & Ht & Hb). exists w. cbn in *. split; [exact Hw|]. split; congruence.
Qed.

Lemma moved_usage s s' u i x : ready s -> streams_ok s' -> moved u (row_start s) s' -> s' !! i = Some x -> 0 <= usage x.
Proof.
  intros Hs Hs' Hm Hx. assert (Hlt : (i < length s)%nat).
  { rewrite (proj1 (ready_ok _ Hs)), <- (proj1 Hs'). now apply lookup_lt_Some in Hx. }
  destruct (lookup_lt_is_Some_2 _ _ Hlt) as [y Hy].
  destruct (Hm (Z.of_nat i) (set_usage 0 y)) as (n & z & Hz & _ & _ & Hu & _).
  { lia. } { unfold row_start. now rewrite Nat2Z.id, list_lookup_fmap, Hy. }
  rewrite Nat2Z.id in Hz. rewrite Hx in Hz. injection Hz as <-. cbn in Hu. lia.
Qed.

Lemma boundary_small s i x : shaped s -> s !! i = Some x -> boundary x < 2 ^ 62.
Proof.
  intros Hsh Hx. destruct (Hsh _ _ Hx) as (y & Hy & _ & Hb). rewrite Hb.
  assert (H : Forall (fun y => boundary y < 2 ^ 62) Seed) by (repeat constructor).
  exact (Forall_lookup_1 _ _ _ _ H Hy).
Qed.

(** [row_stop] rounds every stream of the table up to its boundary. *)
Lemma ready_row_stop s s' u : ready s -> streams_ok s' -> moved u (row_start s) s' -> ready (row_stop false t s').
Proof.
  intros Hs Hs' Hm. pose proof (moved_row s s' u Hs Hs' Hm) as Hsh.
  apply ready_map; [now split|]. intros i x Hx Hv. destruct (_ || _); [|auto].
  unfold row_stop_seed. cbn [andb]. cbn. split; [|auto]. apply NthElement_ok; [|exact Hv].
  pose proof (moved_usage s s' u i x Hs Hs' Hm Hx). pose proof (boundary_small s' i x Hsh Hx). lia.
Qed.

Lemma row_stop_val s s' i :
  ready s -> streams_ok s' -> moved ub (row_start s) s' -> i ∈ R ->
  val (row_stop false t s') i = Nat.iter (Z.to_nat (bnd i)) NextRand (val s i).
Proof.
  intros Hs Hs' Hm Hi. destruct (ready_lookup s i Hs (HR i Hi)) as (x & y & Ex & Ey & Hok & -> & Hb & Ht).
  destruct (Hm i (set_usage 0 x)) as (n & z & Ez & Hn & Hvz & Huz & Htz & Hbz).
  { apply HR, Hi. } { unfold row_start. now rewrite list_lookup_fmap, Ex. }
  cbn in Hvz, Huz, Htz, Hbz. unfold val, row_stop. rewrite list_lookup_fmap, Ez. cbn [from_option fmap option_fmap option_map].
  pose proof (Htable i y Hi Ey) as Htab. cbv zeta in Htab.
  rewrite Htz, Ht, Htab. unfold row_stop_seed. cbn [andb value set_value add_calls].
  specialize (Hub i Hi). pose proof (bnd_small i).
  rewrite NthElement_iterates by (rewrite ?Hvz; auto using iter_NextRand_ok; lia).
  rewrite Hvz, <- Nat.iter_add. f_equal. lia.
Qed.

Lemma gen_row_spec s1 s2 i :
  ready s1 -> ready s2 -> vagree R s1 s2 ->
  exists a t1 t2, gen_row t mk i s1 = (Ok a, t1) /\ gen_row t mk i s2 = (Ok a, t2) /\
    ready t1 /\ ready t2 /\ vagree R t1 t2 /\ advanced R 1 s1 t1.
Proof.
  intros H1 H2 Hv.
  destruct (Hmk i (row_start s1) (row_start s2) (ready_ok _ (ready_row_start _ H1)) (ready_ok _ (ready_row_start _ H2))
              (agree_row_start R s1 s2 HR H1 H2 Hv)) as (a & t1 & t2 & E1 & E2 & _ & O1 & O2 & _ & M1 & M2).
  exists a, (row_stop false t t1), (row_stop false t t2).
  assert (Hrun : forall s u, mk i (row_start s) = (Ok a, u) -> gen_row t mk i s = (Ok a, row_stop false t u)).
  { intros s u E. unfold gen_row, modifyM. unfold bindM at 1. rewrite (bindM_run _ _ _ _ _ E). reflexivity. }
  split_and!; auto.
  - exact (ready_row_stop s1 t1 ub H1 O1 M1).
  - exact (ready_row_stop s2 t2 ub H2 O2 M2).
  - intros j Hj. rewrite (row_stop_val s1 t1 j H1 O1 M1 Hj), (row_stop_val s2 t2 j H2 O2 M2 Hj). now rewrite (Hv j Hj).
  - intros j Hj. rewrite Z.mul_1_l. exact (row_stop_val s1 t1 j H1 O1 M1 Hj).
Qed.

Lemma bnd_nonneg i : 0 <= bnd i.
Proof.
  unfold bnd. destruct (Seed !! Z.to_nat i) as [y|] eqn:E; cbn; [|lia].
  assert (H : Forall (fun y => 0 <= boundary y) Seed) by (repeat constructor; vm_compute; congruence).
  exact (Forall_lookup_1 _ _ _ _ H E).
Qed.

Lemma advanced_trans k1 k2 s1 s2 s3 :
  0 <= k1 -> 0 <= k2 -> advanced R k1 s1 s2 -> advanced R k2 s2 s3 -> advanced R (k1 + k2) s1 s3.
Proof.
  intros H1 H2 Ha Hb i Hi. rewrite (Hb i Hi), (Ha i Hi), <- Nat.iter_add. f_equal.
  pose proof (bnd_nonneg i). nia.
Qed.

Lemma gen_rows_spec n : forall i s1 s2,
  ready s1 -> ready s2 -> vagree R s1 s2 ->
  exists l t1 t2, forM (seqZ i (Z.of_nat n)) (gen_row t mk) s1 = (Ok l, t1) /\
    forM (seqZ i (Z.of_nat n)) (gen_row t mk) s2 = (Ok l, t2) /\ length l = n /\
    ready t1 /\ ready t2 /\ vagree R t1 t2 /\ advanced R (Z.of_nat n) s1 t1.
Proof.
  induction n as [|n IH]; intros i s1 s2 H1 H2 Hv.
  - exists [], s1, s2. split_and!; auto. intros j Hj. reflexivity.
  - rewrite Nat2Z.inj_succ, seqZ_cons by lia. rewrite Z.pred_succ. cbn [forM].
    destruct (gen_row_spec s1 s2 i H1 H2 Hv) as (a & u1 & u2 & E1 & E2 & R1 & R2 & Hv' & Ha).
    destruct (IH (Z.succ i) u1 u2 R1 R2 Hv') as (l & t1 & t2 & F1 & F2 & Hl & Q1 & Q2 & Hv2 & Hb).
    exists (a :: l), t1, t2. rewrite (bindM_run _ _ _ _ _ E1), (bindM_run _ _ _ _ _ E2),
      (bindM_run _ _ _ _ _ F1), (bindM_run _ _ _ _ _ F2).
    split_and!; auto; [cbn; now rewrite Hl|].
    replace (Z.succ (Z.of_nat n)) with (1 + Z.of_nat n) by lia. apply (advanced_trans 1 (Z.of_nat n) s1 u1 t1); auto; lia.
Qed.
End Rows.

Definition calls_to (i : Z) (l : list (Z * Z)) : Z :=
  fold_right (fun c acc => (if c.1 =? i then c.2 else 0) + acc) 0 l.

Definition calls_ok (l : list (Z * Z)) : Prop := Forall (fun c => 0 <= c.1 <= MAX_STREAM /\ 0 <= c.2 < 2 ^ 63) l.

Lemma calls_to_cons i j n l : calls_to i ((j, n) :: l) = (if j =? i then n else 0) + calls_to i l.
Proof. reflexivity. Qed.

Lemma calls_to_nonneg i l : calls_ok l -> 0 <= calls_to i l.
Proof.
  induction 1 as [|[j n] l [_ Hn] _ IH]; [reflexivity|]. rewrite calls_to_cons. cbn [snd] in Hn. destruct (j =? i); lia.
Qed.

Lemma ADVANCE_STREAM_spec j n s :
  ready s -> 0 <= j <= MAX_STREAM -> 0 <= n < 2 ^ 63 ->
  ready (ADVANCE_STREAM j n s) /\
  forall i, 0 <= i <= MAX_STREAM ->
    val (ADVANCE_STREAM j n s) i = Nat.iter (if j =? i then Z.to_nat n else 0%nat) NextRand (val s i).
Proof.
  intros Hs Hj Hn. destruct (ready_lookup s j Hs Hj) as (x & y & Ex & _ & Hok & Hv & _).
  unfold ADVANCE_STREAM, advanceStream, upd_seed. rewrite (alter_insert _ _ _ _ Ex).
  set (x' := add_calls n (set_value (NthElement n (value x)) x)).
  assert (Hx' : value x' = Nat.iter (Z.to_nat n) NextRand (value x)) by (apply NthElement_iterates; auto).
  split.
  - split.
    + apply streams_ok_insert; [apply Hs|]. rewrite Hx'. now apply iter_NextRand_ok.
    + intros k z Hz. apply list_lookup_insert_Some in Hz as [(<- & <- & _)|[_ Hz]].
      * exact (ready_shape _ Hs _ _ Ex).
      * exact (ready_shape _ Hs _ _ Hz).
  - intros i Hi. unfold val. destruct (Z.eqb_spec j i) as [E|Hne].
    + rewrite <- E, Ex, list_lookup_insert_eq by now apply lookup_lt_Some in Ex. exact Hx'.
    + rewrite list_lookup_insert_ne by lia. reflexivity.
Qed.

Lemma advance_all_spec l : forall s,
  ready s -> calls_ok l ->
  ready (advance_all l s) /\
  forall i, 0 <= i <= MAX_STREAM ->
    val (advance_all l s) i = Nat.iter (Z.to_nat (calls_to i l)) NextRand (val s i).
Proof.
  induction l as [|[j n] l IH]; intros s Hs Hl; [auto|].
  apply Forall_cons_1 in Hl as [[Hj Hn] Hl]. cbn [fst snd] in *.
  destruct (ADVANCE_STREAM_spec j n s Hs Hj Hn) as [Hr1 Hv1].
  destruct (IH (ADVANCE_STREAM j n s) Hr1 Hl) as [Hr2 Hv2].
  change (advance_all ((j, n) :: l) s) with (advance_all l (ADVANCE_STREAM j n s)).
  split; [exact Hr2|]. intros i Hi. rewrite (Hv2 i Hi), (Hv1 i Hi), <- Nat.iter_add. f_equal.
  pose proof (calls_to_nonneg i l Hl). rewrite calls_to_cons. destruct (j =? i); lia.
Qed.

(** Skipping [k] rows with a sequence of calls that matches the boundaries. *)
Lemma skip_rows R k l s :
  streams_of_table R -> ready s -> calls_ok l -> (forall i, i ∈ R -> calls_to i l = k * bnd i) ->
  ready (advance_all l s) /\ advanced R k s (advance_all l s).
Proof.
  intros HR Hs Hl Hk. destruct (advance_all_spec l s Hs Hl) as [Hr Hv]. split; [exact Hr|].
  intros i Hi. now rewrite (Hv i (HR i Hi)), (Hk i Hi).
Qed.

(** The streams the rows of each table read. *)
Definition cust_streams : list Z := [C_ADDR_SD; C_NTRG_SD; C_PHNE_SD; C_ABAL_SD; C_MSEG_SD; C_CMNT_SD].
Definition supp_streams : list Z :=
  [S_ADDR_SD; S_NTRG_SD; S_PHNE_SD; S_ABAL_SD; S_CMNT_SD; BBB_CMNT_SD; BBB_JNK_SD; BBB_OFFSET_SD; BBB_TYPE_SD].
Definition part_streams : list Z :=
  [P_MFG_SD; P_BRND_SD; P_TYPE_SD; P_SIZE_SD; P_CNTR_SD; P_CMNT_SD; P_NAME_SD; PS_QTY_SD; PS_SCST_SD; PS_CMNT_SD].
Definition order_streams : list Z :=
  [O_CKEY_SD; O_ODATE_SD; O_PRIO_SD; O_CLRK_SD; O_CMNT_SD; O_LCNT_SD; L_QTY_SD; L_DCNT_SD; L_TAX_SD; L_SHIP_SD;
   L_SMODE_SD; L_CMNT_SD; L_PKEY_SD; L_SKEY_SD; L_SDTE_SD; L_CDTE_SD; L_RDTE_SD; L_RFLG_SD].

Ltac each_stream H :=
  repeat (apply elem_of_cons in H as [H|H]; [subst|]); try (now apply elem_of_nil in H).

(** Evaluate a list of calls with a symbolic row count. *)
Ltac eval_calls l := let l' := eval cbv -[Z.mul] in l in change l with l'.
Ltac calls_in_range :=
  repeat (apply Forall_cons_2; [cbn [fst snd]; unfold MAX_STREAM; lia|]); apply Forall_nil_2.

Lemma cust_skip k : 0 <= k < 2 ^ 50 ->
  calls_ok (sd_cust_calls k) /\ forall i, i ∈ cust_streams -> calls_to i (sd_cust_calls k) = k * bnd i.
Proof.
  intros Hk. eval_calls (sd_cust_calls k). split; [calls_in_range|].
  intros i Hi. each_stream Hi; cbv -[Z.add Z.mul]; lia.
Qed.

Lemma supp_skip k : 0 <= k < 2 ^ 50 ->
  calls_ok (sd_supp_calls k) /\ forall i, i ∈ supp_streams -> calls_to i (sd_supp_calls k) = k * bnd i.
Proof.
  intros Hk. eval_calls (sd_supp_calls k). split; [calls_in_range|].
  intros i Hi. each_stream Hi; cbv -[Z.add Z.mul]; lia.
Qed.

Lemma part_skip k : 0 <= k < 2 ^ 50 ->
  calls_ok (sd_part_calls k ++ sd_psupp_calls k) /\
  forall i, i ∈ part_streams -> calls_to i (sd_part_calls k ++ sd_psupp_calls k) = k * bnd i.
Proof.
  intros Hk. eval_calls (sd_part_calls k ++ sd_psupp_calls k). split; [calls_in_range|].
  intros i Hi. each_stream Hi; cbv -[Z.add Z.mul]; lia.
Qed.

Lemma order_skip k : 0 <= k < 2 ^ 50 ->
  calls_ok (sd_order_calls k ++ sd_line_calls 0 k) /\
  forall i, i ∈ order_streams -> calls_to i (sd_order_calls k ++ sd_line_calls 0 k) = k * bnd i.
Proof.
  intros Hk. eval_calls (sd_order_calls k ++ sd_line_calls 0 k). split; [calls_in_range|].
  intros i Hi. each_stream Hi; cbv -[Z.add Z.mul]; lia.
Qed.
