(* ===== verification/Calendar.v ===== *)
(** The calendar of the data generator (src/benchmark/tpch/dbgen): [julian] and [unjulian] of
    bm_utils.c, [mk_time] with its month table of build.c and the date strings of
    [mk_ascdate].

    A julian date is [1000 * year + day], with the year counted from 1900. *)
From Stdlib Require Import String.
From S2P Require Import Prelude Fmt.

Definition STARTDATE : Z := 92001.
Definition CURRENTDATE : Z := 95168.
Definition ENDDATE : Z := 98365.
Definition TOTDATE : Z := 2557.
Definition T_START_DAY : Z := 3.

Definition LEAP (y : Z) : Z := if (Z.rem y 4 =? 0) && negb (Z.rem y 100 =? 0) then 1 else 0.

(** The loop of [julian]: it ends when the offset fits the year. Each turn uses up a year of
    the offset, so that the number of years bounds the turns. *)
Fixpoint julian_loop (fuel : nat) (result offset : Z) : option Z :=
  match fuel with
  | O => None
  | S f =>
      let yr := Z.quot result 1000 in
      let yend := yr * 1000 + 365 + LEAP yr in
      if yend <? result + offset then julian_loop f (result + 1000) (offset - (yend - result + 1))
      else Some (result + offset)
  end.
Definition julian_fuel (offset : Z) : nat := S (Z.to_nat (offset / 365)).
Definition julian (date : Z) : option Z :=
  julian_loop (julian_fuel (date - STARTDATE)) STARTDATE (date - STARTDATE).

Definition unjulian (date : Z) : Z :=
  fold_left (fun res i => res + (365 + LEAP i))
    (seqZ (STARTDATE / 1000) (Z.quot date 1000 - STARTDATE / 1000)) 0 +
  (Z.rem date 1000 - 1).

Definition LEAP_ADJ (yr mnth : Z) : Z := if (LEAP yr =? 1) && (2 <=? mnth) then 1 else 0.
Definition JDAY_BASE : Z := 8035.
Definition JMNTH_BASE : Z := -70 * 12.

(** [months]: name, days and days so far. *)
Definition months : list (string * Z * Z) :=
  [(""%string, 0, 0); ("JAN"%string, 31, 31); ("FEB"%string, 28, 59); ("MAR"%string, 31, 90);
   ("APR"%string, 30, 120); ("MAY"%string, 31, 151); ("JUN"%string, 30, 181); ("JUL"%string, 31, 212);
   ("AUG"%string, 31, 243); ("SEP"%string, 30, 273); ("OCT"%string, 31, 304); ("NOV"%string, 30, 334);
   ("DEC"%string, 31, 365)].
Definition dcnt (m : Z) : option Z :=
  match months !! Z.to_nat m with
  | Some (_, _, d) => if 0 <=? m then Some d else None
  | None => None
  end.

Record dss_time_t : Type := mkTime {
  timekey : Z;
  alpha : bytes;
  tyear : Z;
  tmonth : Z;
  tweek : Z;
  tday : Z;
}.

(** [PR_DATE] *)
Definition PR_DATE (yr mn dy : Z) : bytes :=
  str "19" ++ fmt_dec 2 yr ++ str "-" ++ fmt_dec 2 mn ++ str "-" ++ fmt_dec 2 dy.

(** [while (d > months[m].dcnt + LEAP_ADJ(y, m)) m++;] leaving the table is undefined. *)
Fixpoint month_loop (fuel : nat) (d y m : Z) : option Z :=
  match fuel, dcnt m with
  | S f, Some c => if c + LEAP_ADJ y m <? d then month_loop f d y (m + 1) else Some m
  | _, _ => None
  end.

Definition mk_time (index : Z) : option dss_time_t :=
  match julian (index + STARTDATE - 1) with
  | None => None
  | Some j =>
      let y := Z.quot j 1000 in
      let d := Z.rem j 1000 in
      match month_loop 13 d y 0 with
      | None => None
      | Some m =>
          match dcnt (m - 1) with
          | None => None
          | Some before =>
              Some (mkTime (index + JDAY_BASE)
                      (PR_DATE y m (d - before - (if (LEAP y =? 1) && (2 <? m) then 1 else 0)))
                      (1900 + y) (m + 12 * y + JMNTH_BASE)
                      (Z.quot (d + T_START_DAY - 1) 7 + 1)
                      (d - before - LEAP_ADJ y (m - 1)))
          end
      end
  end.

(** [mk_ascdate]: the dates of the days [STARTDATE + i]. *)
Definition asc_date (i : Z) : option bytes :=
  if (0 <=? i) && (i <? TOTDATE) then option_map alpha (mk_time (i + 1)) else None.
Definition mk_ascdate : list (option bytes) := map asc_date (seqZ 0 TOTDATE).

(** ** julian and unjulian *)

(** The number of days from the start date to the first day of year [y]. *)
Definition days_before (y : Z) : Z := fold_left (fun res i => res + (365 + LEAP i)) (seqZ 92 (y - 92)) 0.

Lemma LEAP_range y : 0 <= LEAP y <= 1.
Proof. unfold LEAP. destruct (_ && _); lia. Qed.

Lemma days_before_succ y : 92 <= y -> days_before (y + 1) = days_before y + 365 + LEAP y.
Proof.
  intros Hy. unfold days_before. replace (y + 1 - 92) with ((y - 92) + 1) by lia.
  rewrite seqZ_app by lia. rewrite fold_left_app. replace (92 + (y - 92)) with y by lia.
  assert (seqZ y 1 = [y]) as -> by (unfold seqZ; cbn; f_equal; lia). cbn [fold_left]. lia.
Qed.

Lemma julian_loop_spec fuel : forall y off,
  92 <= y -> 0 <= off -> off / 365 < Z.of_nat fuel ->
  exists y' d, julian_loop fuel (1000 * y + 1) off = Some (1000 * y' + d) /\ y <= y' /\
    1 <= d <= 365 + LEAP y' /\ days_before y' + d - 1 = days_before y + off.
Proof.
  induction fuel as [|f IH]; intros y off Hy Hoff Hf.
  { pose proof (Z.div_pos off 365). lia. }
  cbn [julian_loop].
  assert (Hq : Z.quot (1000 * y + 1) 1000 = y).
  { rewrite Z.quot_div_nonneg by lia. symmetry. apply Z.div_unique with 1; lia. }
  rewrite Hq. pose proof (LEAP_range y). destruct (Z.ltb_spec (y * 1000 + 365 + LEAP y) (1000 * y + 1 + off)) as [Hlt|Hge].
  - replace (1000 * y + 1 + 1000) with (1000 * (y + 1) + 1) by lia.
    replace (off - (y * 1000 + 365 + LEAP y - (1000 * y + 1) + 1)) with (off - (365 + LEAP y)) by lia.
    destruct (IH (y + 1) (off - (365 + LEAP y))) as (y' & d & Hr & Hle & Hd & Hsum); [lia|lia| |].
    { assert (off / 365 = (off - 365) / 365 + 1) by (replace off with ((off - 365) + 1 * 365) at 1 by lia; now rewrite Z.div_add by lia).
      pose proof (Z.div_le_mono (off - (365 + LEAP y)) (off - 365) 365). lia. }
    exists y', d. split; [exact Hr|]. split; [lia|]. split; [exact Hd|]. rewrite Hsum, days_before_succ by lia. lia.
  - exists y, (1 + off). split; [f_equal; lia|]. lia.
Qed.

(** the two date conversions are inverse: [julian] terminates on every date from the start
    date on and yields an existing day of a year, and [unjulian] turns it back into the
    number of days since the start date. *)
Theorem unjulian_julian (n : Z) :
  0 <= n ->
  exists y d, julian (STARTDATE + n) = Some (1000 * y + d) /\ 92 <= y /\ 1 <= d <= 365 + LEAP y /\
    unjulian (1000 * y + d) = n.
Proof.
  intros Hn. unfold julian. replace (STARTDATE + n - STARTDATE) with n by lia.
  destruct (julian_loop_spec (julian_fuel n) 92 n) as (y & d & Hr & Hy & Hd & Hsum); [lia|exact Hn| |].
  { unfold julian_fuel. pose proof (Z.div_pos n 365). lia. }
  exists y, d. split; [exact Hr|]. split; [exact Hy|]. split; [exact Hd|].
  unfold unjulian. pose proof (LEAP_range y).
  rewrite Z.quot_div_nonneg, Z.rem_mod_nonneg by lia.
  rewrite <- (Z.div_unique (1000 * y + d) 1000 y d), <- (Z.mod_unique (1000 * y + d) 1000 y d) by lia.
  change (STARTDATE / 1000) with 92. fold (days_before y). change (days_before 92) with 0 in Hsum. lia.
Qed.

Lemma unjulian_julian_witness :
  exists y d, julian (STARTDATE + 1262) = Some (1000 * y + d) /\ 92 <= y /\ 1 <= d <= 365 + LEAP y /\
    unjulian (1000 * y + d) = 1262.
Proof. apply (unjulian_julian 1262). lia. Defined.

(** ** The date table against the Gregorian calendar *)

(** A date and the next one. *)
Record civil : Type := mkCivil {
  c_year : Z;
  c_month : Z;
  c_day : Z;
}.
Definition gregorian_leap (y : Z) : bool := (y mod 4 =? 0) && (negb (y mod 100 =? 0) || (y mod 400 =? 0)).
Definition month_length (y m : Z) : Z :=
  if m =? 2 then (if gregorian_leap y then 29 else 28)
  else if (m =? 4) || (m =? 6) || (m =? 9) || (m =? 11) then 30 else 31.
Definition next_day (d : civil) : civil :=
  if c_day d <? month_length (c_year d) (c_month d) then mkCivil (c_year d) (c_month d) (c_day d + 1)
  else if c_month d <? 12 then mkCivil (c_year d) (c_month d + 1) 1
  else mkCivil (c_year d + 1) 1 1.
Definition first_day : civil := mkCivil 1992 1 1.
(** The date [i] days after the first. *)
Definition civil_of (i : nat) : civil := Nat.iter i next_day first_day.
Definition iso_date (d : civil) : bytes :=
  fmt_dec 4 (c_year d) ++ str "-" ++ fmt_dec 2 (c_month d) ++ str "-" ++ fmt_dec 2 (c_day d).

(** [mk_time] describes this date. *)
Definition describes (t : dss_time_t) (d : civil) : bool :=
  bool_decide (alpha t = iso_date d) && (tyear t =? c_year d) && (tday t =? c_day d) &&
  (tmonth t =? c_month d + 12 * (c_year d - 1970)).

Fixpoint dates_match (n : nat) (index : Z) (d : civil) : bool :=
  match n with
  | O => true
  | S n' =>
      match mk_time index with
      | Some t => describes t d && dates_match n' (index + 1) (next_day d)
      | None => false
      end
  end.

Lemma dates_match_spec n : forall index d k,
  dates_match n index d = true -> (k < n)%nat ->
  exists t, mk_time (index + Z.of_nat k) = Some t /\ describes t (Nat.iter k next_day d) = true.
Proof.
  induction n as [|n IH]; intros index d k Hm Hk; [lia|]. cbn [dates_match] in Hm.
  destruct (mk_time index) as [t|] eqn:Et; [|discriminate]. apply andb_true_iff in Hm as [Hd Hm].
  destruct k as [|k].
  - exists t. now rewrite Z.add_0_r.
  - destruct (IH (index + 1) (next_day d) k Hm ltac:(lia)) as (t' & Ht' & Hd').
    exists t'. rewrite Nat.iter_succ_r. split; [|exact Hd'].
    replace (index + Z.of_nat (S k)) with (index + 1 + Z.of_nat k) by lia. exact Ht'.
Qed.

Lemma all_dates_match : dates_match 2557 1 first_day = true.
Proof. vm_compute. reflexivity. Qed.

(** the date table is the Gregorian calendar: for each of the [TOTDATE] days from
    1992-01-01 on [mk_time] succeeds, and its text, year, month and day are those of the day
    that many days after the first, leap years included. *)
Theorem mk_time_gregorian (i : Z) :
  0 <= i < TOTDATE ->
  exists t, mk_time (i + 1) = Some t /\ let d := civil_of (Z.to_nat i) in
    alpha t = iso_date d /\ tyear t = c_year d /\ tday t = c_day d /\
    tmonth t = c_month d + 12 * (c_year d - 1970).
Proof.
  intros Hi. destruct (dates_match_spec 2557 1 first_day (Z.to_nat i) all_dates_match) as (t & Ht & Hd).
  { unfold TOTDATE in Hi. lia. }
  exists t. split; [rewrite <- Ht; f_equal; lia|].
  unfold describes in Hd. rewrite !andb_true_iff, bool_decide_eq_true, !Z.eqb_eq in Hd.
  destruct Hd as [[[Ha Hy] Hd] Hm]. auto.
Qed.

Lemma mk_time_gregorian_witness :
  exists t, mk_time 1520 = Some t /\ let d := civil_of 1519 in
    alpha t = iso_date d /\ tyear t = c_year d /\ tday t = c_day d /\ tmonth t = c_month d + 12 * (c_year d - 1970).
Proof. apply (mk_time_gregorian 1519). unfold TOTDATE. lia. Defined.

Lemma asc_date_some i : 0 <= i < TOTDATE -> exists d, asc_date i = Some d.
Proof.
  intros Hi. destruct (dates_match_spec 2557 1 first_day (Z.to_nat i) all_dates_match) as (t & Ht & _).
  { unfold TOTDATE in Hi. lia. }
  exists (alpha t). unfold asc_date. rewrite (proj2 (Z.leb_le 0 i)), (proj2 (Z.ltb_lt i TOTDATE)) by lia.
  cbn [andb]. replace (i + 1) with (1 + Z.of_nat (Z.to_nat i)) by lia. now rewrite Ht.
Qed.
