(* ===== verification/Bcd.v ===== *)
(** The two-word decimal arithmetic of the data generator: src/benchmark/tpch/dbgen/bcd2.c.
    A number is fourteen decimal digits of four bits, seven in each of two words. *)
From S2P Require Import Prelude Fmt.

Definition DIGITS_PER_LONG : Z := 7.

Record bcd2 : Type := mkBcd {
  bcd_low : Z;
  bcd_high : Z;
}.

(** The digit in position [k] of a word, and the word with another digit there. *)
Definition get_nibble (k w : Z) : Z := Z.shiftr (Z.land w (Z.shiftl 15 (4 * k))) (4 * k).
Definition set_nibble (v k w : Z) : Z :=
  Z.lor (Z.land w (Z.lxor 268435455 (Z.shiftl 15 (4 * k)))) (Z.shiftl v (4 * k)).

Definition GET_DIGIT (num : Z) (b : bcd2) : Z :=
  if DIGITS_PER_LONG <=? num then get_nibble (num - DIGITS_PER_LONG) (bcd_high b)
  else get_nibble num (bcd_low b).
Definition SET_DIGIT (value num : Z) (b : bcd2) : bcd2 :=
  if DIGITS_PER_LONG <=? num then mkBcd (bcd_low b) (set_nibble value (num - DIGITS_PER_LONG) (bcd_high b))
  else mkBcd (set_nibble value num (bcd_low b)) (bcd_high b).

(** [bin_bcd2]: the digits of [%014ld], shifted into the high word and then into the low one.
    A longer text overflows the buffer. *)
Fixpoint shift_in (number : bytes) (count : Z) (b : bcd2) : bcd2 :=
  match number with
  | [] => b
  | c :: rest =>
      let push w := Z.lor (Z.shiftl w 4) (c - 48) in
      shift_in rest (count - 1)
        (if count <? DIGITS_PER_LONG then mkBcd (push (bcd_low b)) (bcd_high b)
         else mkBcd (bcd_low b) (push (bcd_high b)))
  end.
Definition bin_bcd2 (binary : Z) : res bcd2 :=
  let number := fmt_dec 14 binary in
  if (0 <=? binary) && (length number <=? 14)%nat then Ok (shift_in number 13 (mkBcd 0 0)) else Err Undefined.

(** [bcd2_bin]: [count] runs from 6 down with the mask. *)
Definition bcd2_bin (bcd : Z) : Z :=
  fold_left (fun dest count => dest * 10 + Z.shiftr (Z.land bcd (Z.shiftl 15 (4 * count))) (4 * count))
    [6; 5; 4; 3; 2; 1; 0] 0.

(** The loop of [bcd2_add] over the positions [l]. *)
Fixpoint add_loop (l : list Z) (t : bcd2) (carry : Z) (b : bcd2) : Z * bcd2 :=
  match l with
  | [] => (carry, b)
  | digit :: rest =>
      let res := GET_DIGIT digit b + GET_DIGIT digit t + carry in
      add_loop rest t (Z.quot res 10) (SET_DIGIT (Z.rem res 10) digit b)
  end.
Definition bcd2_add (b : bcd2) (addend : Z) : res (Z * bcd2) :=
  match bin_bcd2 addend with
  | Ok t => Ok (add_loop (seqZ 0 14) t 0 b)
  | Err f => Err f
  end.

(** The loop of [bcd2_sub]: [carry] is set by a borrow and never cleared. *)
Fixpoint sub_loop (l : list Z) (t : bcd2) (carry : Z) (b : bcd2) : Z * bcd2 :=
  match l with
  | [] => (carry, b)
  | digit :: rest =>
      let res := GET_DIGIT digit b - GET_DIGIT digit t - carry in
      if res <? 0 then sub_loop rest t 1 (SET_DIGIT (res + 10) digit b)
      else sub_loop rest t carry (SET_DIGIT res digit b)
  end.
Definition bcd2_sub (b : bcd2) (subend : Z) : res (Z * bcd2) :=
  match bin_bcd2 subend with
  | Ok t => Ok (sub_loop (seqZ 0 14) t 0 b)
  | Err f => Err f
  end.

(** [bcd2_mul]: for every digit [m1] of the multiplier a pass over the digits of the number. *)
Fixpoint mul_pass (l : list Z) (m1 ldigit : Z) (tmp : bcd2) (carry : Z) (b : bcd2) : Z * bcd2 :=
  match l with
  | [] => (carry, b)
  | udigit :: rest =>
      let res := m1 * GET_DIGIT udigit tmp + carry in
      let res := if udigit + ldigit <? 14 then res + GET_DIGIT (udigit + ldigit) b else res in
      let b := if udigit + ldigit <? 14 then SET_DIGIT (Z.rem res 10) (udigit + ldigit) b else b in
      mul_pass rest m1 ldigit tmp (Z.quot res 10) b
  end.
Fixpoint mul_loop (l : list Z) (m tmp : bcd2) (carry : Z) (b : bcd2) : Z * bcd2 :=
  match l with
  | [] => (carry, b)
  | ldigit :: rest =>
      let '(carry, b) := mul_pass (seqZ 0 14) (GET_DIGIT ldigit m) ldigit tmp 0 b in
      mul_loop rest m tmp carry b
  end.
Definition bcd2_mul (b : bcd2) (multiplier : Z) : res (Z * bcd2) :=
  match bin_bcd2 multiplier with
  | Ok m => Ok (mul_loop (seqZ 0 14) m b 0 (mkBcd 0 0))
  | Err f => Err f
  end.

(** [bcd2_div], from the highest digit down. *)
Fixpoint div_loop (l : list Z) (tmp : bcd2) (divisor carry : Z) (b : bcd2) : Z * bcd2 :=
  match l with
  | [] => (carry, b)
  | digit :: rest =>
      let d1 := GET_DIGIT digit tmp + 10 * carry in
      div_loop rest tmp divisor (Z.rem d1 divisor) (SET_DIGIT (Z.quot d1 divisor) digit b)
  end.
Definition bcd2_div (b : bcd2) (divisor : Z) : res (Z * bcd2) :=
  if divisor =? 0 then Err Undefined else Ok (div_loop (rev (seqZ 0 14)) b divisor 0 (mkBcd 0 0)).

(** [bcd2_mod] subtracts while the number is above [modulo], comparing the decimal word with
    the binary one; [fuel] bounds the subtractions. *)
Fixpoint bcd2_mod (fuel : nat) (b : bcd2) (modulo : Z) : option (res Z) :=
  match fuel with
  | O => None
  | S f =>
      if negb (bcd_high b =? 0) || (modulo <? bcd_low b) then
        match bcd2_sub b modulo with
        | Ok (_, b') => bcd2_mod f b' modulo
        | Err e => Some (Err e)
        end
      else Some (Ok (bcd_low b))
  end.

Definition bcd2_cmp (b : bcd2) (comp : Z) : Z :=
  if 214 <? bcd2_bin (bcd_high b) then 1 else bcd2_bin (bcd_low b) - comp.

(** ** Digits *)

Definition word_ok (w : Z) : Prop := 0 <= w < 2 ^ 28.
Definition bcd_ok (b : bcd2) : Prop :=
  word_ok (bcd_low b) /\ word_ok (bcd_high b) /\ forall i, 0 <= i < 14 -> GET_DIGIT i b <= 9.
(** The number the digits below [n] stand for. *)
Fixpoint low_value (n : nat) (b : bcd2) : Z :=
  match n with
  | O => 0
  | S n' => low_value n' b + GET_DIGIT (Z.of_nat n') b * 10 ^ Z.of_nat n'
  end.
Definition bcd_value (b : bcd2) : Z := low_value 14 b.

Lemma get_nibble_bits k w n : 0 <= k -> 0 <= n -> Z.testbit (get_nibble k w) n = Z.testbit w (n + 4 * k) && Z.testbit 15 n.
Proof.
  intros Hk Hn. unfold get_nibble. rewrite Z.shiftr_spec, Z.land_spec, Z.shiftl_spec by lia.
  now replace (n + 4 * k - 4 * k) with n by lia.
Qed.

Lemma testbit_15 n : 0 <= n -> Z.testbit 15 n = (n <? 4).
Proof. intros Hn. change 15 with (Z.ones 4). destruct (Z.ltb_spec n 4); [apply Z.ones_spec_low|apply Z.ones_spec_high]; lia. Qed.

Lemma get_nibble_range k w : 0 <= k -> 0 <= get_nibble k w < 16.
Proof.
  intros Hk. assert (H : get_nibble k w = Z.land (Z.shiftr w (4 * k)) (Z.ones 4)).
  { apply Z.bits_inj'. intros n Hn. rewrite get_nibble_bits, Z.land_spec, Z.shiftr_spec by lia. reflexivity. }
  rewrite H, Z.land_ones by lia. apply Z.mod_pos_bound. lia.
Qed.

Lemma set_nibble_bits v k w m : 0 <= k -> 0 <= m ->
  Z.testbit (set_nibble v k w) m =
    Z.testbit w m && xorb (m <? 28) (Z.testbit (Z.shiftl 15 (4 * k)) m) || Z.testbit v (m - 4 * k).
Proof.
  intros Hk Hm. unfold set_nibble. rewrite Z.lor_spec, Z.land_spec, Z.lxor_spec, (Z.shiftl_spec v) by lia.
  assert (Z.testbit 268435455 m = (m <? 28)) as ->; [|reflexivity]. change 268435455 with (Z.ones 28).
  destruct (Z.ltb_spec m 28); [apply Z.ones_spec_low|apply Z.ones_spec_high]; lia.
Qed.

Lemma small_testbit v n : 0 <= v < 16 -> 4 <= n -> Z.testbit v n = false.
Proof. intros Hv Hn. apply (testbit_above v 4 n); lia. Qed.

Lemma get_set_nibble v k k' w : 0 <= v < 16 -> 0 <= k < 7 -> 0 <= k' < 7 ->
  get_nibble k' (set_nibble v k w) = if k' =? k then v else get_nibble k' w.
Proof.
  intros Hv Hk Hk'. apply Z.bits_inj'. intros n Hn.
  rewrite get_nibble_bits, set_nibble_bits, Z.shiftl_spec, (testbit_15 n) by lia.
  destruct (Z.ltb_spec n 4) as [Hlt|Hge].
  2: { rewrite andb_false_r. destruct (k' =? k); [now rewrite small_testbit by lia|].
       rewrite get_nibble_bits, testbit_15 by lia. rewrite (proj2 (Z.ltb_ge n 4)) by lia. now rewrite andb_false_r. }
  rewrite andb_true_r, (proj2 (Z.ltb_lt (n + 4 * k') 28)) by lia.
  destruct (Z.eqb_spec k' k) as [->|Hne].
  - replace (n + 4 * k - 4 * k) with n by lia. rewrite testbit_15 by lia.
    rewrite (proj2 (Z.ltb_lt n 4)) by lia. cbn. now rewrite andb_false_r.
  - rewrite get_nibble_bits, (testbit_15 n), (proj2 (Z.ltb_lt n 4)), andb_true_r by lia.
    destruct (Z.ltb_spec (n + 4 * k' - 4 * k) 0).
    + rewrite !(Z.testbit_neg_r _ (n + 4 * k' - 4 * k)) by lia. cbn. now rewrite andb_true_r, orb_false_r.
    + rewrite testbit_15, (proj2 (Z.ltb_ge (n + 4 * k' - 4 * k) 4)), (small_testbit v) by lia.
      cbn. now rewrite andb_true_r, orb_false_r.
Qed.

Lemma set_nibble_ok v k w : 0 <= v < 16 -> 0 <= k < 7 -> word_ok w -> word_ok (set_nibble v k w).
Proof.
  intros Hv Hk Hw. unfold set_nibble. apply lor_bound; [lia|apply land_bound; [lia|exact Hw]|].
  rewrite Z.shiftl_mul_pow2 by lia. split; [nia|].
  assert (2 ^ (4 * k) <= 2 ^ 24) by (apply Z.pow_le_mono_r; lia). nia.
Qed.

Lemma GET_DIGIT_range i b : 0 <= i -> 0 <= GET_DIGIT i b < 16.
Proof.
  intros Hi. unfold GET_DIGIT, DIGITS_PER_LONG. destruct (Z.leb_spec 7 i); apply get_nibble_range; lia.
Qed.

Lemma GET_SET_DIGIT v i j b : 0 <= v < 16 -> 0 <= i < 14 -> 0 <= j < 14 ->
  GET_DIGIT j (SET_DIGIT v i b) = if j =? i then v else GET_DIGIT j b.
Proof.
  intros Hv Hi Hj. unfold GET_DIGIT, SET_DIGIT, DIGITS_PER_LONG.
  destruct (Z.leb_spec 7 i), (Z.leb_spec 7 j); cbn [bcd_low bcd_high].
  - rewrite get_set_nibble by lia. destruct (Z.eqb_spec (j - 7) (i - 7)), (Z.eqb_spec j i); lia || reflexivity.
  - destruct (Z.eqb_spec j i); [lia|reflexivity].
  - destruct (Z.eqb_spec j i); [lia|reflexivity].
  - now rewrite get_set_nibble by lia.
Qed.

Lemma bcd_ok_set v i b : 0 <= v <= 9 -> 0 <= i < 14 -> bcd_ok b -> bcd_ok (SET_DIGIT v i b).
Proof.
  intros Hv Hi (Hl & Hh & Hd). split_and!.
  - unfold SET_DIGIT, DIGITS_PER_LONG. destruct (Z.leb_spec 7 i); cbn; [exact Hl|apply set_nibble_ok; [lia|lia|exact Hl]].
  - unfold SET_DIGIT, DIGITS_PER_LONG. destruct (Z.leb_spec 7 i); cbn; [apply set_nibble_ok; [lia|lia|exact Hh]|exact Hh].
  - intros j Hj. rewrite GET_SET_DIGIT by lia. destruct (j =? i); [lia|now apply Hd].
Qed.

(** ** Conversion *)

Lemma get_nibble_push k w d : 0 <= d < 16 -> 0 <= k ->
  get_nibble k (Z.lor (Z.shiftl w 4) d) = if k =? 0 then d else get_nibble (k - 1) w.
Proof.
  intros Hd Hk. apply Z.bits_inj'. intros n Hn.
  rewrite get_nibble_bits, Z.lor_spec, Z.shiftl_spec, (testbit_15 n) by lia.
  destruct (Z.ltb_spec n 4) as [Hlt|Hge].
  2: { rewrite andb_false_r. destruct (Z.eqb_spec k 0); [now rewrite small_testbit by lia|].
       now rewrite get_nibble_bits, (testbit_15 n), (proj2 (Z.ltb_ge n 4)), andb_false_r by lia. }
  rewrite andb_true_r. destruct (Z.eqb_spec k 0) as [->|Hne].
  - rewrite Z.testbit_neg_r by lia. cbn. f_equal. lia.
  - rewrite get_nibble_bits, (testbit_15 n), (proj2 (Z.ltb_lt n 4)), andb_true_r by lia.
    rewrite (small_testbit d) by lia. rewrite orb_false_r. f_equal. lia.
Qed.

Definition word_of (ds : bytes) : Z := fold_left (fun w c => Z.lor (Z.shiftl w 4) (c - 48)) ds 0.

Lemma word_of_ok ds w n : Forall (fun c => is_digit c = true) ds -> 0 <= w < 2 ^ Z.of_nat n ->
  0 <= fold_left (fun w c => Z.lor (Z.shiftl w 4) (c - 48)) ds w < 2 ^ (Z.of_nat n + 4 * Z.of_nat (length ds)).
Proof.
  intros Hds. revert w n. induction Hds as [|c ds Hc _ IH]; intros w n Hw; cbn [fold_left length].
  - now rewrite Z.add_0_r.
  - replace (Z.of_nat n + 4 * Z.of_nat (S (length ds))) with (Z.of_nat (n + 4) + 4 * Z.of_nat (length ds)) by lia.
    apply IH. unfold is_digit in Hc. apply andb_true_iff in Hc.
    rewrite Z.shiftl_mul_pow2 by lia. rewrite (lor_disjoint w (c - 48) 4) by lia.
    rewrite Nat2Z.inj_add, Z.pow_add_r by lia. change (2 ^ Z.of_nat 4) with 16. change (2 ^ 4) with 16. nia.
Qed.

Lemma get_word_of ds : Forall (fun c => is_digit c = true) ds -> forall k,
  get_nibble (Z.of_nat k) (word_of ds) = nth k (rev ds) 48 - 48.
Proof.
  induction ds as [|c ds IH] using rev_ind; intros Hds k.
  - unfold word_of. cbn [fold_left rev]. assert (get_nibble (Z.of_nat k) 0 = 0) as ->.
    { unfold get_nibble. now rewrite Z.land_0_l, Z.shiftr_0_l. }
    destruct k; reflexivity.
  - apply Forall_app in Hds as [Hds Hc]. apply Forall_cons_1 in Hc as [Hc _].
    unfold is_digit in Hc. apply andb_true_iff in Hc.
    unfold word_of. rewrite fold_left_app. cbn [fold_left]. fold (word_of ds).
    rewrite get_nibble_push, rev_app_distr by lia. cbn [rev app].
    destruct k as [|k]; [reflexivity|]. rewrite (proj2 (Z.eqb_neq _ _)) by lia. cbn [nth].
    replace (Z.of_nat (S k) - 1) with (Z.of_nat k) by lia. now apply IH.
Qed.

(** The seven digits of a word. *)
Lemma word_of_digits c6 c5 c4 c3 c2 c1 c0 :
  Forall (fun c => is_digit c = true) [c6; c5; c4; c3; c2; c1; c0] ->
  let w := word_of [c6; c5; c4; c3; c2; c1; c0] in
  word_ok w /\ get_nibble 0 w = c0 - 48 /\ get_nibble 1 w = c1 - 48 /\ get_nibble 2 w = c2 - 48 /\
  get_nibble 3 w = c3 - 48 /\ get_nibble 4 w = c4 - 48 /\ get_nibble 5 w = c5 - 48 /\ get_nibble 6 w = c6 - 48.
Proof.
  intros Hd w. pose proof (word_of_ok _ 0 0 Hd) as Hok. cbn [length] in Hok. change (2 ^ (Z.of_nat 0 + 4 * Z.of_nat 7)) with (2 ^ 28) in Hok.
  split; [apply Hok; cbn; lia|].
  pose proof (get_word_of _ Hd) as Hg.
  exact (conj (Hg 0%nat) (conj (Hg 1%nat) (conj (Hg 2%nat) (conj (Hg 3%nat) (conj (Hg 4%nat) (conj (Hg 5%nat) (Hg 6%nat))))))).
Qed.

Lemma number_14 n : 0 <= n < 10 ^ 14 ->
  length (fmt_dec 14 n) = 14%nat /\ Forall (fun c => is_digit c = true) (fmt_dec 14 n) /\ dec_value (fmt_dec 14 n) = n.
Proof.
  intros Hn. unfold fmt_dec. rewrite (proj2 (Z.ltb_ge n 0)) by lia.
  destruct (pad0_digits 14 n ltac:(lia)) as [Hd Hv]. split_and!.
  - unfold pad0. rewrite length_app, length_replicate.
    pose proof (length_digits_acc 20 n [] 13 ltac:(change (Z.of_nat 14) with 14; lia)). cbn [length] in *. unfold digits. lia.
  - apply Forall_forall. intros c Hc. rewrite forallb_forall in Hd. now apply Hd.
  - exact Hv.
Qed.

Lemma low_value_14 b : bcd_value b =
  GET_DIGIT 0 b + 10 * GET_DIGIT 1 b + 100 * GET_DIGIT 2 b + 1000 * GET_DIGIT 3 b + 10000 * GET_DIGIT 4 b +
  100000 * GET_DIGIT 5 b + 1000000 * GET_DIGIT 6 b + 10000000 * GET_DIGIT 7 b + 100000000 * GET_DIGIT 8 b +
  1000000000 * GET_DIGIT 9 b + 10000000000 * GET_DIGIT 10 b + 100000000000 * GET_DIGIT 11 b +
  1000000000000 * GET_DIGIT 12 b + 10000000000000 * GET_DIGIT 13 b.
Proof.
  cbv -[GET_DIGIT Z.mul Z.add]. lia.
Qed.

(** Fourteen digits converted are the number they were printed from. *)
Lemma bin_bcd2_spec n : 0 <= n < 10 ^ 14 -> exists b, bin_bcd2 n = Ok b /\ bcd_ok b /\ bcd_value b = n.
Proof.
  intros Hn. destruct (number_14 n Hn) as (Hlen & Hdig & Hval). unfold bin_bcd2.
  rewrite (proj2 (Z.leb_le 0 n)), Hlen by lia. cbn [andb Nat.leb].
  destruct (fmt_dec 14 n) as [|d13 [|d12 [|d11 [|d10 [|d9 [|d8 [|d7 [|d6 [|d5 [|d4 [|d3 [|d2 [|d1 [|d0 [|]]]]]]]]]]]]]]];
    try discriminate Hlen.
  set (hi := [d13; d12; d11; d10; d9; d8; d7]). set (lo := [d6; d5; d4; d3; d2; d1; d0]).
  exists (mkBcd (word_of lo) (word_of hi)). split; [reflexivity|].
  assert (Hboth : Forall (fun c => is_digit c = true) hi /\ Forall (fun c => is_digit c = true) lo).
  { apply Forall_app. exact Hdig. }
  destruct (word_of_digits _ _ _ _ _ _ _ (proj1 Hboth)) as (Hwh & H0 & H1 & H2 & H3 & H4 & H5 & H6).
  destruct (word_of_digits _ _ _ _ _ _ _ (proj2 Hboth)) as (Hwl & L0 & L1 & L2 & L3 & L4 & L5 & L6).
  fold hi in Hwh, H0, H1, H2, H3, H4, H5, H6. fold lo in Hwl, L0, L1, L2, L3, L4, L5, L6.
  assert (Hr : forall c, In c (hi ++ lo) -> 0 <= c - 48 <= 9).
  { intros c Hc. rewrite Forall_forall in Hdig. specialize (Hdig c Hc). unfold is_digit in Hdig. apply andb_true_iff in Hdig. lia. }
  split.
  - split; [exact Hwl|]. split; [exact Hwh|]. intros i Hi.
    assert (Hi14 : i = 0 \/ i = 1 \/ i = 2 \/ i = 3 \/ i = 4 \/ i = 5 \/ i = 6 \/ i = 7 \/ i = 8 \/ i = 9 \/ i = 10 \/ i = 11 \/ i = 12 \/ i = 13) by lia.
    unfold GET_DIGIT, DIGITS_PER_LONG. cbn [bcd_low bcd_high].
    destruct Hi14 as [->|[->|[->|[->|[->|[->|[->|[->|[->|[->|[->|[->|[->| ->]]]]]]]]]]]]]; cbn [Z.leb Z.compare Pos.compare Pos.compare_cont];
      [rewrite L0|rewrite L1|rewrite L2|rewrite L3|rewrite L4|rewrite L5|rewrite L6
      |change (7 - 7) with 0; rewrite H0|change (8 - 7) with 1; rewrite H1|change (9 - 7) with 2; rewrite H2
      |change (10 - 7) with 3; rewrite H3|change (11 - 7) with 4; rewrite H4|change (12 - 7) with 5; rewrite H5|change (13 - 7) with 6; rewrite H6];
      apply Hr; unfold hi, lo; simpl; tauto.
  - rewrite low_value_14, <- Hval. unfold GET_DIGIT, DIGITS_PER_LONG. cbn [bcd_low bcd_high].
    change (7 <=? 0) with false. change (7 <=? 1) with false. change (7 <=? 2) with false. change (7 <=? 3) with false.
    change (7 <=? 4) with false. change (7 <=? 5) with false. change (7 <=? 6) with false. change (7 <=? 7) with true.
    change (7 <=? 8) with true. change (7 <=? 9) with true. change (7 <=? 10) with true. change (7 <=? 11) with true.
    change (7 <=? 12) with true. change (7 <=? 13) with true. cbv iota.
    change (7 - 7) with 0. change (8 - 7) with 1. change (9 - 7) with 2. change (10 - 7) with 3. change (11 - 7) with 4.
    change (12 - 7) with 5. change (13 - 7) with 6.
    rewrite L0, L1, L2, L3, L4, L5, L6, H0, H1, H2, H3, H4, H5, H6. unfold dec_value. cbn [fold_left app hi lo]. unfold dec_step. lia.
Qed.

(** ** Addition and division *)

(** The value of the [m] highest digits, at their places. *)
Fixpoint hi_value (m : nat) (b : bcd2) : Z :=
  match m with
  | O => 0
  | S m' => GET_DIGIT (13 - Z.of_nat m') b * 10 ^ (13 - Z.of_nat m') + hi_value m' b
  end.

Lemma hi_value_all b : hi_value 14 b = bcd_value b.
Proof.
  rewrite low_value_14. cbn [hi_value].
  repeat match goal with
         | |- context [13 - Z.of_nat ?n] =>
             let v := eval vm_compute in (13 - Z.of_nat n) in change (13 - Z.of_nat n) with v
         end.
  cbv -[GET_DIGIT Z.mul Z.add]. lia.
Qed.

Lemma hi_value_ext m b b' : (m <= 14)%nat ->
  (forall i, 14 - Z.of_nat m <= i < 14 -> GET_DIGIT i b' = GET_DIGIT i b) -> hi_value m b' = hi_value m b.
Proof.
  induction m as [|m IH]; intros Hm H; cbn [hi_value]; [reflexivity|]. rewrite H by lia. f_equal. apply IH; [lia|].
  intros i Hi. apply H. lia.
Qed.

Lemma low_value_ext m b b' : (forall i, 0 <= i < Z.of_nat m -> GET_DIGIT i b' = GET_DIGIT i b) -> low_value m b' = low_value m b.
Proof.
  induction m as [|m IH]; intros H; cbn [low_value]; [reflexivity|]. rewrite H by lia. f_equal. apply IH.
  intros i Hi. apply H. lia.
Qed.

Lemma seqZ_cons_14 m : (m < 14)%nat -> seqZ (14 - Z.of_nat (S m)) (Z.of_nat (S m)) = (13 - Z.of_nat m) :: seqZ (14 - Z.of_nat m) (Z.of_nat m).
Proof.
  intros Hm. rewrite seqZ_cons by lia. f_equal; [lia|]. f_equal; lia.
Qed.

Lemma add_loop_spec t m : bcd_ok t -> (m <= 14)%nat -> forall carry b, bcd_ok b -> 0 <= carry <= 1 ->
  let '(c, b') := add_loop (seqZ (14 - Z.of_nat m) (Z.of_nat m)) t carry b in
  bcd_ok b' /\ 0 <= c <= 1 /\ (forall i, 0 <= i < 14 - Z.of_nat m -> GET_DIGIT i b' = GET_DIGIT i b) /\
  hi_value m b' + c * 10 ^ 14 = hi_value m b + hi_value m t + carry * 10 ^ (14 - Z.of_nat m).
Proof.
  intros Ht. induction m as [|m IH]; intros Hm carry b Hb Hc.
  { cbn. split_and!; auto; lia. }
  rewrite seqZ_cons_14 by lia. cbn [add_loop]. set (k := 13 - Z.of_nat m) in *.
  assert (Hk : 0 <= k < 14) by lia.
  pose proof (GET_DIGIT_range k b ltac:(lia)). pose proof (GET_DIGIT_range k t ltac:(lia)).
  pose proof (proj2 (proj2 Hb) k Hk). pose proof (proj2 (proj2 Ht) k Hk).
  set (res := GET_DIGIT k b + GET_DIGIT k t + carry).
  assert (Hq : Z.quot res 10 = res / 10) by (apply Z.quot_div_nonneg; lia).
  assert (Hr : Z.rem res 10 = res mod 10) by (apply Z.rem_mod_nonneg; lia). rewrite Hq, Hr.
  pose proof (Z.div_mod res 10 ltac:(lia)). pose proof (Z.mod_pos_bound res 10 ltac:(lia)).
  assert (Hcar : 0 <= res / 10 <= 1) by lia. assert (Hdig : 0 <= res mod 10 <= 9) by lia.
  specialize (IH ltac:(lia) (res / 10) (SET_DIGIT (res mod 10) k b) (bcd_ok_set _ _ _ Hdig Hk Hb) Hcar).
  destruct (add_loop (seqZ (14 - Z.of_nat m) (Z.of_nat m)) t (res / 10) (SET_DIGIT (res mod 10) k b)) as [c b'].
  destruct IH as (Hok & Hc' & Hsame & Hval). split; [exact Hok|]. split; [exact Hc'|]. split.
  - intros i Hi. rewrite Hsame by lia. rewrite GET_SET_DIGIT by lia. now rewrite (proj2 (Z.eqb_neq i k)) by lia.
  - cbn [hi_value]. fold k. rewrite (Hsame k) by lia. rewrite GET_SET_DIGIT, Z.eqb_refl by lia.
    rewrite (hi_value_ext m b (SET_DIGIT (res mod 10) k b)) in Hval; [|lia|].
    2: { intros i Hi. rewrite GET_SET_DIGIT by lia. now rewrite (proj2 (Z.eqb_neq i k)) by lia. }
    replace (14 - Z.of_nat m) with (Z.succ k) in Hval by lia.
    replace (14 - Z.of_nat (S m)) with k by lia. rewrite Z.pow_succ_r in Hval by lia.
    set (P := 10 ^ k) in *. nia.
Qed.

Lemma bcd2_add_spec b addend : bcd_ok b -> 0 <= addend < 10 ^ 14 ->
  exists c b', bcd2_add b addend = Ok (c, b') /\ bcd_ok b' /\ 0 <= c <= 1 /\
    bcd_value b' + c * 10 ^ 14 = bcd_value b + addend.
Proof.
  intros Hb Ha. destruct (bin_bcd2_spec addend Ha) as (t & Ht & Hokt & Hvt). unfold bcd2_add. rewrite Ht.
  pose proof (add_loop_spec t 14 Hokt ltac:(lia) 0 b Hb ltac:(lia)) as H.
  change (14 - Z.of_nat 14) with 0 in H. change (Z.of_nat 14) with 14 in H.
  destruct (add_loop (seqZ 0 14) t 0 b) as [c b']. destruct H as (Hok & Hc & _ & Hv).
  exists c, b'. split_and!; auto; try lia. rewrite !hi_value_all in Hv. lia.
Qed.

Lemma rev_seqZ_succ m : rev (seqZ 0 (Z.of_nat (S m))) = Z.of_nat m :: rev (seqZ 0 (Z.of_nat m)).
Proof.
  replace (Z.of_nat (S m)) with (Z.of_nat m + 1) by lia. rewrite seqZ_app by lia. rewrite rev_app_distr.
  assert (seqZ (0 + Z.of_nat m) 1 = [Z.of_nat m]) as -> by (unfold seqZ; cbn; f_equal; lia). reflexivity.
Qed.

Lemma div_loop_spec tmp divisor m : bcd_ok tmp -> 0 < divisor -> (m <= 14)%nat -> forall carry b,
  bcd_ok b -> 0 <= carry < divisor ->
  let '(c, b') := div_loop (rev (seqZ 0 (Z.of_nat m))) tmp divisor carry b in
  bcd_ok b' /\ 0 <= c < divisor /\ (forall i, Z.of_nat m <= i < 14 -> GET_DIGIT i b' = GET_DIGIT i b) /\
  low_value m tmp + carry * 10 ^ Z.of_nat m = divisor * low_value m b' + c.
Proof.
  intros Ht Hd. induction m as [|m IH]; intros Hm carry b Hb Hc.
  { cbn. split_and!; auto; lia. }
  rewrite rev_seqZ_succ. cbn [div_loop]. set (k := Z.of_nat m) in *. assert (Hk : 0 <= k < 14) by lia.
  pose proof (GET_DIGIT_range k tmp ltac:(lia)). pose proof (proj2 (proj2 Ht) k Hk).
  set (d1 := GET_DIGIT k tmp + 10 * carry).
  assert (Hq : Z.quot d1 divisor = d1 / divisor) by (apply Z.quot_div_nonneg; lia).
  assert (Hr : Z.rem d1 divisor = d1 mod divisor) by (apply Z.rem_mod_nonneg; lia). rewrite Hq, Hr.
  pose proof (Z.div_mod d1 divisor ltac:(lia)). pose proof (Z.mod_pos_bound d1 divisor Hd).
  assert (Hdig : 0 <= d1 / divisor <= 9).
  { split; [apply Z.div_pos; lia|]. enough (d1 / divisor < 10) by lia. apply Z.div_lt_upper_bound; lia. }
  specialize (IH ltac:(lia) (d1 mod divisor) (SET_DIGIT (d1 / divisor) k b) (bcd_ok_set _ _ _ Hdig Hk Hb) ltac:(lia)).
  destruct (div_loop (rev (seqZ 0 k)) tmp divisor (d1 mod divisor) (SET_DIGIT (d1 / divisor) k b)) as [c b'].
  destruct IH as (Hok & Hc' & Hsame & Hval). split; [exact Hok|]. split; [exact Hc'|]. split.
  - intros i Hi. rewrite Hsame by lia. rewrite GET_SET_DIGIT by lia. now rewrite (proj2 (Z.eqb_neq i k)) by lia.
  - cbn [low_value]. fold k. rewrite (Hsame k) by lia. rewrite GET_SET_DIGIT, Z.eqb_refl by lia.
    rewrite Nat2Z.inj_succ. fold k. rewrite Z.pow_succ_r by lia. set (P := 10 ^ k) in *. nia.
Qed.

Lemma zero_ok : bcd_ok (mkBcd 0 0).
Proof.
  split_and!; try (unfold word_ok; cbn; lia). intros i Hi. unfold GET_DIGIT.
  destruct (_ <=? _); unfold get_nibble; cbn [bcd_low bcd_high]; rewrite Z.land_0_l, Z.shiftr_0_l; lia.
Qed.

Lemma bcd2_div_spec b divisor : bcd_ok b -> 0 < divisor ->
  exists c b', bcd2_div b divisor = Ok (c, b') /\ bcd_ok b' /\ 0 <= c < divisor /\
    bcd_value b = divisor * bcd_value b' + c.
Proof.
  intros Hb Hd. unfold bcd2_div. rewrite (proj2 (Z.eqb_neq divisor 0)) by lia.
  pose proof (div_loop_spec b divisor 14 Hb Hd ltac:(lia) 0 (mkBcd 0 0) zero_ok ltac:(lia)) as H.
  change (Z.of_nat 14) with 14 in H. destruct (div_loop _ _ _ _ _) as [c b']. destruct H as (Hok & Hc & _ & Hv).
  exists c, b'. split_and!; auto; try lia. unfold bcd_value. lia.
Qed.

(** decimal addition and division are exact: converting, adding a number of up to fourteen
    digits and dividing by a positive number return, keep the digits decimal, and give the
    sum with its carry out of the fourteenth digit and the quotient with its remainder. *)
Theorem bcd2_add_div_exact (binary addend divisor : Z) :
  0 <= binary < 10 ^ 14 -> 0 <= addend < 10 ^ 14 -> 0 < divisor < 2 ^ 59 ->
  exists b c b' r q, bin_bcd2 binary = Ok b /\ bcd_value b = binary /\
    bcd2_add b addend = Ok (c, b') /\ bcd_ok b' /\ bcd_value b' + c * 10 ^ 14 = binary + addend /\
    bcd2_div b' divisor = Ok (r, q) /\ bcd_ok q /\ 0 <= r < divisor /\ bcd_value b' = divisor * bcd_value q + r.
Proof.
  intros Hb Ha Hd. destruct (bin_bcd2_spec binary Hb) as (b & Hbb & Hok & Hv).
  destruct (bcd2_add_spec b addend Hok Ha) as (c & b' & Hadd & Hok' & _ & Hsum).
  destruct (bcd2_div_spec b' divisor Hok' ltac:(lia)) as (r & q & Hdiv & Hokq & Hr & Hq).
  exists b, c, b', r, q. rewrite Hv in Hsum. split_and!; auto; lia.
Qed.

Lemma bcd2_add_div_exact_witness :
  exists b c b' r q, bin_bcd2 99999999999999 = Ok b /\ bcd_value b = 99999999999999 /\
    bcd2_add b 2345678 = Ok (c, b') /\ bcd_ok b' /\ bcd_value b' + c * 10 ^ 14 = 99999999999999 + 2345678 /\
    bcd2_div b' 97 = Ok (r, q) /\ bcd_ok q /\ 0 <= r < 97 /\ bcd_value b' = 97 * bcd_value q + r.
Proof. apply (bcd2_add_div_exact 99999999999999 2345678 97); lia. Defined.

(** A borrow is never paid back: 1000 - 1 gives fourteen digits 99999999990999. *)
Theorem bcd2_sub_keeps_borrowing :
  match bin_bcd2 1000 with
  | Ok b => match bcd2_sub b 1 with
            | Ok (_, b') => bcd_value b' = 99999999990999
            | Err _ => False
            end
  | Err _ => False
  end.
Proof. vm_compute. reflexivity. Qed.
