(* ===== verification/Build.v ===== *)
(** The row builders of the data generator (src/benchmark/tpch/dbgen): build.c with the
    selection routines of bm_utils.c, permute.c and the text selection of text.c, over the
    record types of dsstypes.h and the limits of dss.h and shared.h.

    What a run reads besides the seeds is fixed while a table is generated: the scale factor,
    the base row counts of [tdefs], the distributions loaded from dists.dss and the text pool.
    Character arrays are lists of bytes up to the terminator. *)
From Stdlib Require Import String.
From S2P Require Import Prelude Fmt Rng Calendar.

(** ** Limits of dss.h and shared.h *)
Definition P_NAME_SCL : Z := 5.
Definition P_MFG_TAG : bytes := str "Manufacturer#".
Definition P_MFG_MIN : Z := 1.
Definition P_MFG_MAX : Z := 5.
Definition P_BRND_TAG : bytes := str "Brand#".
Definition P_BRND_MIN : Z := 1.
Definition P_BRND_MAX : Z := 5.
Definition P_SIZE_MIN : Z := 1.
Definition P_SIZE_MAX : Z := 50.
Definition S_NAME_TAG : bytes := str "Supplier#".
Definition S_ABAL_MIN : Z := -99999.
Definition S_ABAL_MAX : Z := 999999.
Definition S_CMNT_BBB : Z := 10.
Definition BBB_DEADBEATS : Z := 50.
Definition BBB_BASE : bytes := str "Customer ".
Definition BBB_COMPLAIN : bytes := str "Complaints".
Definition BBB_COMMEND : bytes := str "Recommends".
Definition BBB_CMNT_LEN : Z := 19.
Definition BBB_BASE_LEN : Z := 9.
Definition BBB_TYPE_LEN : Z := 10.
Definition PS_SCST_MIN : Z := 100.
Definition PS_SCST_MAX : Z := 100000.
Definition PS_QTY_MIN : Z := 1.
Definition PS_QTY_MAX : Z := 9999.
Definition C_NAME_TAG : bytes := str "Customer#".
Definition C_ABAL_MIN : Z := -99999.
Definition C_ABAL_MAX : Z := 999999.
Definition O_CKEY_MIN : Z := 1.
Definition O_CLRK_TAG : bytes := str "Clerk#".
Definition O_CLRK_SCL : Z := 1000.
Definition L_QTY_MIN : Z := 1.
Definition L_QTY_MAX : Z := 50.
Definition L_TAX_MIN : Z := 0.
Definition L_TAX_MAX : Z := 8.
Definition L_DCNT_MIN : Z := 0.
Definition L_DCNT_MAX : Z := 10.
Definition L_PKEY_MIN : Z := 1.
Definition L_SDTE_MIN : Z := 1.
Definition L_SDTE_MAX : Z := 121.
Definition L_CDTE_MIN : Z := 30.
Definition L_CDTE_MAX : Z := 90.
Definition L_RDTE_MIN : Z := 1.
Definition L_RDTE_MAX : Z := 30.
Definition O_ODATE_MIN : Z := STARTDATE.
Definition O_ODATE_MAX : Z := STARTDATE + TOTDATE - (L_SDTE_MAX + L_RDTE_MAX) - 1.
Definition CUST_MORTALITY : Z := 3.
Definition NATIONS_MAX : Z := 90.
Definition UPD_PCT : Z := 10.
Definition PENNIES : Z := 100.
Definition SPARSE_BITS : Z := 2.
Definition SPARSE_KEEP : Z := 3.
Definition TEXT_POOL_SIZE : Z := 300 * 1024 * 1024.
Definition N_CMNT_LEN : Z := 72.
Definition R_CMNT_LEN : Z := 72.
Definition P_CMNT_LEN : Z := 14.
Definition S_ADDR_LEN : Z := 25.
Definition S_CMNT_LEN : Z := 63.
Definition PS_CMNT_LEN : Z := 124.
Definition C_ADDR_LEN : Z := 25.
Definition C_CMNT_LEN : Z := 73.
Definition O_CMNT_LEN : Z := 49.
Definition L_CMNT_LEN : Z := 27.
(** [(int)(avg * V_STR_LOW)] and [(int)(avg * V_STR_HGH)], with the factors 0.4 and 1.6. *)
Definition v_str_low (avg : Z) : Z := avg * 4 / 10.
Definition v_str_high (avg : Z) : Z := avg * 16 / 10.

(** ** Distributions *)
Record distribution : Type := mkDist {
  d_count : Z;
  d_list : list (Z * bytes);
}.

Record customer_t : Type := mkCust {
  c_custkey : Z;
  c_name : bytes;
  c_address : bytes;
  c_nation_code : Z;
  c_phone : bytes;
  c_acctbal : Z;
  c_mktsegment : bytes;
  c_comment : bytes;
}.

Record line_t : Type := mkLine {
  l_okey : Z;
  l_partkey : Z;
  l_suppkey : Z;
  l_lcnt : Z;
  l_quantity : Z;
  l_eprice : Z;
  l_discount : Z;
  l_tax : Z;
  l_rflag : Z;
  l_lstatus : Z;
  l_cdate : bytes;
  l_sdate : bytes;
  l_rdate : bytes;
  l_shipinstruct : bytes;
  l_shipmode : bytes;
  l_comment : bytes;
}.

Record order_t : Type := mkOrder {
  o_okey : Z;
  o_custkey : Z;
  o_orderstatus : Z;
  o_totalprice : Z;
  o_odate : bytes;
  o_opriority : bytes;
  o_clerk : bytes;
  o_spriority : Z;
  o_comment : bytes;
  o_lines : list line_t;
}.

Record partsupp_t : Type := mkPsupp {
  ps_partkey : Z;
  ps_suppkey : Z;
  ps_qty : Z;
  ps_scost : Z;
  ps_comment : bytes;
}.

Record part_t : Type := mkPart {
  p_partkey : Z;
  p_name : bytes;
  p_mfgr : bytes;
  p_brand : bytes;
  p_type : bytes;
  p_size : Z;
  p_container : bytes;
  p_retailprice : Z;
  p_comment : bytes;
  p_s : list partsupp_t;
}.

Record supplier_t : Type := mkSupp {
  s_suppkey : Z;
  s_name : bytes;
  s_address : bytes;
  s_nation_code : Z;
  s_phone : bytes;
  s_acctbal : Z;
  s_comment : bytes;
}.

Record code_t : Type := mkCode {
  n_code : Z;
  n_text : bytes;
  n_join : Z;
  n_comment : bytes;
}.

(** ** Selections (bm_utils.c, permute.c) *)

Definition alpha_num : bytes := str "0123456789abcdefghijklmnopqrstuvwxyz ABCDEFGHIJKLMNOPQRSTUVWXYZ,".

(** The loop of [a_rnd]: a new number every five characters. *)
Fixpoint a_rnd_loop (n : nat) (i char_int column : Z) : M streams bytes :=
  match n with
  | O => retM []
  | S n' =>
      let* char_int := (if Z.rem i 5 =? 0 then dss_random 0 MAX_LONG column else retM char_int) in
      let c := default 0 (alpha_num !! Z.to_nat (Z.land char_int 63)) in
      let* rest := a_rnd_loop n' (i + 1) (Z.shiftr char_int 6) column in
      retM (c :: rest)
  end.
Definition a_rnd (min max column : Z) : M streams bytes :=
  let* len := dss_random min max column in
  a_rnd_loop (Z.to_nat len) 0 0 column.

(** [while (s->list[i].weight < j) i++;] *)
Fixpoint pick_loop (l : list (Z * bytes)) (i j : Z) : option (Z * bytes) :=
  match l with
  | [] => None
  | (weight, text) :: rest => if weight <? j then pick_loop rest (i + 1) j else Some (i, text)
  end.
Definition pick_str (s : distribution) (c : Z) : M streams (Z * bytes) :=
  match d_list s !! Z.to_nat (d_count s - 1) with
  | None => failM Undefined
  | Some (weight, _) =>
      let* j := dss_random 1 weight c in
      match pick_loop (d_list s) 0 j with
      | Some r => retM r
      | None => failM Undefined
      end
  end.

(** [permute]: element [i] trades places with one drawn from those not before it. *)
Fixpoint permute_loop (n : nat) (i c s : Z) (a : list Z) : M streams (list Z) :=
  match n with
  | O => retM a
  | S n' =>
      let* source := dss_random i (c - 1) s in
      match a !! Z.to_nat source, a !! Z.to_nat i with
      | Some temp, Some x => permute_loop n' (i + 1) c s (<[Z.to_nat i := temp]> (<[Z.to_nat source := x]> a))
      | _, _ => failM Undefined
      end
  end.
Definition permute (a : list Z) (c s : Z) : M streams (list Z) := permute_loop (Z.to_nat c) 0 c s a.

Definition permute_dist (d : distribution) (stream : Z) : M streams (list Z) :=
  permute (seqZ 0 (d_count d)) (d_count d) stream.

(** [agg_str]: the first [count] members of a permutation, separated by blanks. *)
Fixpoint agg_members (d : distribution) (l : list Z) : option bytes :=
  match l with
  | [] => Some []
  | i :: rest =>
      match d_list d !! Z.to_nat i, agg_members d rest with
      | Some (_, text), Some tl => Some (text ++ 32 :: tl)
      | _, _ => None
      end
  end.
Definition agg_str (d : distribution) (count col : Z) : M streams bytes :=
  let* p := permute_dist d col in
  do* definedM (count <=? Z.of_nat (length p)) in
  match agg_members d (take (Z.to_nat count) p) with
  | Some dest => retM (take (length dest - 1) dest)
  | None => failM Undefined
  end.

(** ** Keys and prices (build.c) *)

Definition rpb_routine (p : Z) : Z := 90000 + Z.rem (Z.quot p 10) 20001 + Z.rem p 1000 * 100.

Definition mk_sparse (i seq : Z) : Z :=
  let low_bits := Z.land i (Z.shiftl 1 SPARSE_KEEP - 1) in
  let ok := Z.shiftr i SPARSE_KEEP in
  let ok := Z.shiftl ok SPARSE_BITS in
  let ok := ok + seq in
  let ok := Z.shiftl ok SPARSE_KEEP in
  ok + low_bits.

(** The macro of dss.h the delete keys are made with. *)
Definition MK_SPARSE (key seq : Z) : Z :=
  Z.lor (Z.shiftl (Z.lor (Z.shiftl (Z.shiftr key 3) 2) (Z.land seq 3)) 3) (Z.land key 7).

(** [while (o->custkey % CUST_MORTALITY == 0)] *)
Fixpoint mortality_loop (fuel : nat) (custkey max delta : Z) : option Z :=
  match fuel with
  | O => None
  | S f =>
      if Z.rem custkey CUST_MORTALITY =? 0
      then mortality_loop f (Z.min (custkey + delta) max) max (- delta)
      else Some custkey
  end.

Definition gen_phone (ind seed : Z) : M streams bytes :=
  let* acode := dss_random 100 999 seed in
  let* exchg := dss_random 100 999 seed in
  let* number := dss_random 1000 9999 seed in
  retM (fmt_dec 2 (10 + Z.rem ind NATIONS_MAX) ++ str "-" ++ fmt_dec 3 acode ++ str "-" ++
        fmt_dec 3 exchg ++ str "-" ++ fmt_dec 4 number).

(** [memcpy] into a string, at [off]; the model covers copies that stay inside it. *)
Definition splice (off : Z) (src dst : bytes) : option bytes :=
  if (0 <=? off) && (off + strlen src <=? strlen dst)
  then Some (take (Z.to_nat off) dst ++ src ++ drop (Z.to_nat off + length src) dst)
  else None.

Definition ofOption {S A : Type} (o : option A) : M S A :=
  match o with
  | Some a => retM a
  | None => failM Undefined
  end.

Section Rows.
(** The scale factor, the base row counts, the distributions and the text pool. *)
Context (scale : Z) (base : Z -> Z) (pool : Z -> Z).
Context (nations regions o_priority_set l_instruct_set l_smode_set l_rflag_set c_mseg_set
         colors p_types_set p_cntr_set : distribution).

Definition O_CKEY_MAX : Z := base CUST * scale.
Definition L_PKEY_MAX : Z := base PART * scale.

(** [dbg_text] once the pool is loaded. *)
Definition dbg_text (min max sd : Z) : M streams bytes :=
  let* hgOffset := dss_random 0 (TEXT_POOL_SIZE - max) sd in
  let* hgLength := dss_random min max sd in
  retM (map pool (seqZ hgOffset hgLength)).
Definition TEXT (avg sd : Z) : M streams bytes := dbg_text (v_str_low avg) (v_str_high avg) sd.
Definition V_STR (avg sd : Z) : M streams bytes := a_rnd (v_str_low avg) (v_str_high avg) sd.

(** With no suppliers the source divides by zero, where this is a number; the base counts are at
    least one. *)
Definition PART_SUPP_BRIDGE (p s : Z) : Z :=
  let tot_scnt := base SUPP * scale in
  Z.rem (p + s * (Z.quot tot_scnt SUPP_PER_PART + Z.quot (p - 1) tot_scnt)) tot_scnt + 1.

Definition mk_cust (n_cust : Z) : M streams customer_t :=
  let* address := V_STR C_ADDR_LEN C_ADDR_SD in
  let* i := dss_random 0 (d_count nations - 1) C_NTRG_SD in
  let* phone := gen_phone i C_PHNE_SD in
  let* acctbal := dss_random C_ABAL_MIN C_ABAL_MAX C_ABAL_SD in
  let* '(_, mktsegment) := pick_str c_mseg_set C_MSEG_SD in
  let* comment := TEXT C_CMNT_LEN C_CMNT_SD in
  retM (mkCust n_cust (C_NAME_TAG ++ fmt_dec 9 n_cust) address i phone acctbal mktsegment comment).

(** One line of an order placed on day [tmp_date]: the line, its part of the total price and
    whether it has been shipped. *)
Definition mk_line (okey tmp_date lcnt : Z) : M streams (line_t * Z * bool) :=
  let* quantity := dss_random L_QTY_MIN L_QTY_MAX L_QTY_SD in
  let* discount := dss_random L_DCNT_MIN L_DCNT_MAX L_DCNT_SD in
  let* tax := dss_random L_TAX_MIN L_TAX_MAX L_TAX_SD in
  let* '(_, shipinstruct) := pick_str l_instruct_set L_SHIP_SD in
  let* '(_, shipmode) := pick_str l_smode_set L_SMODE_SD in
  let* comment := TEXT L_CMNT_LEN L_CMNT_SD in
  let* partkey := (if 30000 <=? scale then dss_random64 L_PKEY_MIN L_PKEY_MAX L_PKEY_SD
                   else dss_random L_PKEY_MIN L_PKEY_MAX L_PKEY_SD) in
  let rprice := rpb_routine partkey in
  let* supp_num := dss_random 0 3 L_SKEY_SD in
  let suppkey := PART_SUPP_BRIDGE partkey supp_num in
  let eprice := rprice * quantity in
  let price := Z.quot (Z.quot (eprice * (100 - discount)) PENNIES * (100 + tax)) PENNIES in
  let* s_days := dss_random L_SDTE_MIN L_SDTE_MAX L_SDTE_SD in
  let s_date := s_days + tmp_date in
  let* c_days := dss_random L_CDTE_MIN L_CDTE_MAX L_CDTE_SD in
  let c_date := c_days + tmp_date in
  let* r_days := dss_random L_RDTE_MIN L_RDTE_MAX L_RDTE_SD in
  let r_date := r_days + s_date in
  let* sdate := ofOption (asc_date (s_date - STARTDATE)) in
  let* cdate := ofOption (asc_date (c_date - STARTDATE)) in
  let* rdate := ofOption (asc_date (r_date - STARTDATE)) in
  let* rj := ofOption (julian r_date) in
  let* rflag := (if rj <=? CURRENTDATE then
                   let* '(_, tmp_str) := pick_str l_rflag_set L_RFLG_SD in retM (default 0 (head tmp_str))
                 else retM 78) in
  let* sj := ofOption (julian s_date) in
  let shipped := sj <=? CURRENTDATE in
  retM (mkLine okey partkey suppkey (lcnt + 1) quantity eprice discount tax rflag
          (if shipped then 70 else 79) cdate sdate rdate shipinstruct shipmode comment, price, shipped).

Definition mk_order (index upd_num : Z) : M streams order_t :=
  let okey := mk_sparse index (if upd_num =? 0 then 0 else 1 + Z.quot upd_num (Z.quot 10000 UPD_PCT)) in
  let* custkey := (if 30000 <=? scale then dss_random64 O_CKEY_MIN O_CKEY_MAX O_CKEY_SD
                   else dss_random O_CKEY_MIN O_CKEY_MAX O_CKEY_SD) in
  let* custkey := ofOption (mortality_loop 3 custkey O_CKEY_MAX 1) in
  let* tmp_date := dss_random O_ODATE_MIN O_ODATE_MAX O_ODATE_SD in
  let* odate := ofOption (asc_date (tmp_date - STARTDATE)) in
  let* '(_, opriority) := pick_str o_priority_set O_PRIO_SD in
  let* clk_num := dss_random 1 (Z.max (scale * O_CLRK_SCL) O_CLRK_SCL) O_CLRK_SD in
  let* comment := TEXT O_CMNT_LEN O_CMNT_SD in
  let* lines := dss_random O_LCNT_MIN O_LCNT_MAX O_LCNT_SD in
  let* ls := forM (seqZ 0 lines) (mk_line okey tmp_date) in
  let ocnt := Z.of_nat (length (List.filter (fun x => x.2) ls)) in
  let totalprice := fold_left Z.add (map (fun x => x.1.2) ls) 0 in
  let orderstatus := if ocnt =? lines then 70 else if 0 <? ocnt then 80 else 79 in
  retM (mkOrder okey custkey orderstatus totalprice odate opriority (O_CLRK_TAG ++ fmt_dec 9 clk_num)
          0 comment (map (fun x => x.1.1) ls)).

Definition mk_psupp (index snum : Z) : M streams partsupp_t :=
  let* qty := dss_random PS_QTY_MIN PS_QTY_MAX PS_QTY_SD in
  let* scost := dss_random PS_SCST_MIN PS_SCST_MAX PS_SCST_SD in
  let* comment := TEXT PS_CMNT_LEN PS_CMNT_SD in
  retM (mkPsupp index (PART_SUPP_BRIDGE index snum) qty scost comment).

Definition mk_part (index : Z) : M streams part_t :=
  let* name := agg_str colors P_NAME_SCL P_NAME_SD in
  let* temp := dss_random P_MFG_MIN P_MFG_MAX P_MFG_SD in
  let* brnd := dss_random P_BRND_MIN P_BRND_MAX P_BRND_SD in
  let* '(_, type) := pick_str p_types_set P_TYPE_SD in
  let* size := dss_random P_SIZE_MIN P_SIZE_MAX P_SIZE_SD in
  let* '(_, container) := pick_str p_cntr_set P_CNTR_SD in
  let* comment := TEXT P_CMNT_LEN P_CMNT_SD in
  let* s := forM (seqZ 0 SUPP_PER_PART) (mk_psupp index) in
  retM (mkPart index name (P_MFG_TAG ++ fmt_dec 1 temp) (P_BRND_TAG ++ fmt_dec 2 (temp * 10 + brnd))
          type size container (rpb_routine index) comment s).

Definition mk_supp (index : Z) : M streams supplier_t :=
  let* address := V_STR S_ADDR_LEN S_ADDR_SD in
  let* i := dss_random 0 (d_count nations - 1) S_NTRG_SD in
  let* phone := gen_phone i S_PHNE_SD in
  let* acctbal := dss_random S_ABAL_MIN S_ABAL_MAX S_ABAL_SD in
  let* comment := TEXT S_CMNT_LEN S_CMNT_SD in
  let clen := strlen comment in
  let* bad_press := dss_random 1 10000 BBB_CMNT_SD in
  let* type := dss_random 0 100 BBB_TYPE_SD in
  let* noise := dss_random 0 (clen - BBB_CMNT_LEN) BBB_JNK_SD in
  let* offset := dss_random 0 (clen - (BBB_CMNT_LEN + noise)) BBB_OFFSET_SD in
  let* comment :=
    (if bad_press <=? S_CMNT_BBB then
       let* c1 := ofOption (splice offset BBB_BASE comment) in
       ofOption (splice (BBB_BASE_LEN + offset + noise)
                   (if type <? BBB_DEADBEATS then BBB_COMPLAIN else BBB_COMMEND) c1)
     else retM comment) in
  retM (mkSupp index (S_NAME_TAG ++ fmt_dec 9 index) address i phone acctbal comment).

Definition mk_nation (index : Z) : M streams code_t :=
  match (if 1 <=? index then d_list nations !! Z.to_nat (index - 1) else None) with
  | None => failM Undefined
  | Some (weight, text) =>
      let* comment := TEXT N_CMNT_LEN N_CMNT_SD in
      retM (mkCode (index - 1) text weight comment)
  end.

Definition mk_region (index : Z) : M streams code_t :=
  match (if 1 <=? index then d_list regions !! Z.to_nat (index - 1) else None) with
  | None => failM Undefined
  | Some (_, text) =>
      let* comment := TEXT R_CMNT_LEN R_CMNT_SD in
      retM (mkCode (index - 1) text 0 comment)
  end.
End Rows.

(** ** Drawing *)

Lemma Draws_opt {A} R (o : option A) (post : A -> Prop) a :
  o = Some a -> post a -> Draws R none post (ofOption o).
Proof. intros -> Ha. now apply Draws_ret. Qed.

Lemma only_nonneg c n i : 0 <= n -> 0 <= only c n i.
Proof. intros. unfold only. destruct (i =? c); lia. Qed.

Lemma only_plus c m n i : plus (only c m) (only c n) i = only c (m + n) i.
Proof. unfold plus, only. destruct (i =? c); lia. Qed.

(** A branch that draws nothing fits where another one draws. *)
Lemma Draws_none {A} R u (post : A -> Prop) m : (forall i, 0 <= u i) -> Draws R none post m -> Draws R u post m.
Proof. intros Hu. apply Draws_weaken; auto. Qed.

Definition times (n : Z) (u : Z -> Z) (i : Z) : Z := n * u i.

Lemma Draws_forM {A B} R u (post : B -> Prop) (f : A -> M streams B) (l : list A) :
  (forall i, 0 <= u i) -> (forall a, a ∈ l -> Draws R u post (f a)) ->
  Draws R (times (Z.of_nat (length l)) u) (fun bs => Forall post bs /\ length bs = length l) (forM l f).
Proof.
  intros Hu. induction l as [|a l IH]; intros Hf; cbn [forM].
  - apply Draws_none; [intros; unfold times; cbn; lia|]. apply Draws_ret. auto.
  - apply Draws_weaken with (u1 := plus u (plus (times (Z.of_nat (length l)) u) none))
      (p1 := fun bs => Forall post bs /\ length bs = length (a :: l)); [|auto|].
    { intros i _. unfold plus, times, none. cbn [length]. lia. }
    apply Draws_bind with (p1 := post); [apply Hf; left|]. intros b Hb.
    apply Draws_bind with (p1 := fun bs => Forall post bs /\ length bs = length l).
    { apply IH. intros x Hx. apply Hf. now right. }
    intros bs [Hbs Hl]. apply Draws_ret. split; [now constructor|]. cbn. now rewrite Hl.
Qed.

Section Selections.
Context (R : list Z) (HR : streams_of_table R).

(** The numbers [a_rnd] draws for the characters [i .. i+n-1]. *)
Definition fives (i n : Z) : Z := (i + n + 4) / 5 - (i + 4) / 5.

Lemma a_rnd_loop_draws c n : c ∈ R -> forall i ci, 0 <= i ->
  Draws R (only c (fives i (Z.of_nat n))) (fun l => length l = n) (a_rnd_loop n i ci c).
Proof.
  intros Hc. induction n as [|n IH]; intros i ci Hi; cbn [a_rnd_loop].
  - apply Draws_none; [|now apply Draws_ret]. intros j. apply only_nonneg. unfold fives.
    pose proof (Z.div_le_mono (i + 4) (i + Z.of_nat 0 + 4) 5). lia.
  - assert (Hf : fives i (Z.of_nat (S n)) = (if Z.rem i 5 =? 0 then 1 else 0) + fives (i + 1) (Z.of_nat n)).
    { unfold fives. rewrite Z.rem_mod_nonneg by lia. destruct (Z.eqb_spec (i mod 5) 0); dlia. }
    apply Draws_weaken with (u1 := plus (only c (if Z.rem i 5 =? 0 then 1 else 0))
                                        (plus (only c (fives (i + 1) (Z.of_nat n))) none))
      (p1 := fun l => length l = S n); [|auto|].
    { intros j _. rewrite Hf, <- only_plus. unfold plus, none. lia. }
    apply Draws_bind with (p1 := fun _ => True).
    { destruct (Z.rem i 5 =? 0); [now apply Draws_any|].
      apply Draws_none; [intros j; now apply only_nonneg|]. now apply Draws_ret. }
    intros ci' _. apply Draws_bind with (p1 := fun l => length l = n); [apply IH; lia|].
    intros l Hl. apply Draws_ret. cbn. now rewrite Hl.
Qed.

Lemma a_rnd_draws c min max : c ∈ R -> 0 <= min <= max -> max < MAX_LONG ->
  Draws R (only c (1 + (max + 4) / 5)) (fun l => min <= strlen l <= max) (a_rnd min max c).
Proof.
  intros Hc Hb Hm. unfold a_rnd.
  apply Draws_weaken with (u1 := plus (only c 1) (only c ((max + 4) / 5))) (p1 := fun l => min <= strlen l <= max);
    [intros j _; now rewrite only_plus|auto|].
  apply Draws_bind with (p1 := fun n => min <= n <= max); [apply Draws_unif; auto; [lia|intros [H _]; lia]|].
  intros n Hn. apply Draws_weaken with (u1 := only c (fives 0 (Z.of_nat (Z.to_nat n)))) (p1 := fun l => length l = Z.to_nat n).
  - intros j _. unfold only. destruct (j =? c); [|lia]. unfold fives. change ((0 + 4) / 5) with 0.
    pose proof (Z.div_le_mono (0 + Z.of_nat (Z.to_nat n) + 4) (max + 4) 5). lia.
  - intros l Hl. unfold strlen. rewrite Hl. lia.
  - apply a_rnd_loop_draws; [exact Hc|lia].
Qed.

(** A distribution [pick_str] can draw from: [count] members, the last with a positive
    cumulative weight. *)
Definition dist_ok (d : distribution) : Prop :=
  d_count d = Z.of_nat (length (d_list d)) /\
  exists w t, d_list d !! Z.to_nat (d_count d - 1) = Some (w, t) /\ 1 <= w < MAX_LONG.

Lemma pick_loop_some l : forall n i j w t, l !! n = Some (w, t) -> j <= w ->
  exists m w' t', pick_loop l i j = Some (i + Z.of_nat m, t') /\ l !! m = Some (w', t').
Proof.
  induction l as [|[w0 t0] l IH]; intros n i j w t Hn Hj; [discriminate|]. cbn [pick_loop].
  destruct (Z.ltb_spec w0 j); [|exists 0%nat, w0, t0; split; [f_equal; f_equal; lia|reflexivity]].
  destruct n as [|n]; cbn in Hn; [injection Hn as -> ->; lia|].
  destruct (IH n (i + 1) j w t Hn Hj) as (m & w' & t' & -> & Hm). exists (S m), w', t'.
  split; [f_equal; f_equal; lia|exact Hm].
Qed.

(** What is drawn is a member, under its index. *)
Definition member (d : distribution) (r : Z * bytes) : Prop :=
  0 <= r.1 /\ exists w, d_list d !! Z.to_nat r.1 = Some (w, r.2).

Lemma pick_str_member d c : dist_ok d -> c ∈ R -> Draws R (only c 1) (member d) (pick_str d c).
Proof.
  intros (_ & w & t & Hw & Hr) Hc. unfold pick_str. rewrite Hw.
  apply Draws_weaken with (u1 := plus (only c 1) none) (p1 := member d); [intros j _; unfold plus, none; lia|auto|].
  apply Draws_bind with (p1 := fun j => 1 <= j <= w); [apply Draws_unif; auto; [lia|intros [_ H]; lia]|].
  intros j Hj. destruct (pick_loop_some _ _ 0 j _ _ Hw ltac:(lia)) as (m & w' & t' & -> & Hm). apply Draws_ret.
  split; cbn [fst snd]; [lia|]. exists w'. now rewrite Z.add_0_l, Nat2Z.id.
Qed.

Lemma pick_str_draws d c : dist_ok d -> c ∈ R -> Draws R (only c 1) (fun _ => True) (pick_str d c).
Proof.
  intros Hd Hc. apply Draws_weaken with (u1 := only c 1) (p1 := member d); [reflexivity|auto|]. now apply pick_str_member.
Qed.

Lemma gen_phone_draws ind c : c ∈ R -> Draws R (only c 3) (fun _ => True) (gen_phone ind c).
Proof.
  intros Hc. unfold gen_phone.
  apply Draws_weaken with (u1 := plus (only c 1) (plus (only c 1) (plus (only c 1) none))) (p1 := fun _ => True);
    [intros j _; unfold plus, none, only; destruct (j =? c); lia|auto|].
  apply Draws_bind with (p1 := fun _ => True); [now apply Draws_any|]. intros x _.
  apply Draws_bind with (p1 := fun _ => True); [now apply Draws_any|]. intros y _.
  apply Draws_bind with (p1 := fun _ => True); [now apply Draws_any|]. intros z _. now apply Draws_ret.
Qed.

Lemma dbg_text_draws pool c min max : c ∈ R -> 0 <= min <= max -> max < MAX_LONG -> max <= TEXT_POOL_SIZE ->
  Draws R (only c 2) (fun l => min <= strlen l <= max) (dbg_text pool min max c).
Proof.
  intros Hc Hb Hm Hp. unfold dbg_text.
  apply Draws_weaken with (u1 := plus (only c 1) (plus (only c 1) none)) (p1 := fun l => min <= strlen l <= max);
    [intros j _; unfold plus, none, only; destruct (j =? c); lia|auto|].
  apply Draws_bind with (p1 := fun _ => True); [now apply Draws_any|]. intros off _.
  apply Draws_bind with (p1 := fun n => min <= n <= max); [apply Draws_unif; auto; [lia|intros [H _]; lia]|].
  intros n Hn. apply Draws_ret. unfold strlen. rewrite length_map, length_seqZ. lia.
Qed.
End Selections.
