(* ===== verification/Dist.v ===== *)
(** The distributions file of the data generator (src/benchmark/tpch/dbgen): [read_dist] of
    bm_utils.c with its case-insensitive comparisons. A file is the list of its lines, as
    [fgets] delivers them; the layout is that of dists.dss: sections that start with BEGIN and
    a name, give a count and one weighted member per line, and stop at END. *)
From Stdlib Require Import String.
From S2P Require Import Prelude Fmt Clib Rng Build.

(** [dsscasecmp] and [dssncasecmp] on terminated strings. *)
Fixpoint dsscasecmp (s1 s2 : bytes) : Z :=
  match s1, s2 with
  | [], [] => 0
  | [], _ :: _ => -1
  | _ :: _, [] => 1
  | a :: s1', b :: s2' =>
      if tolower a =? tolower b then dsscasecmp s1' s2'
      else if tolower a <? tolower b then -1 else 1
  end.
Fixpoint dssncasecmp (n : nat) (s1 s2 : bytes) : Z :=
  match n with
  | O => 0
  | S n' =>
      match s1, s2 with
      | [], [] => 0
      | [], _ :: _ => -1
      | _ :: _, [] => 1
      | a :: s1', b :: s2' =>
          if tolower a =? tolower b then dssncasecmp n' s1' s2'
          else if tolower a <? tolower b then -1 else 1
      end
  end.

(** The text before the first [c]. *)
Fixpoint cut_at (c : Z) (l : bytes) : bytes :=
  match l with
  | [] => []
  | x :: l' => if x =? c then [] else x :: cut_at c l'
  end.

(** [strtok] with the delimiters line end, tab and blank: the token and what follows it. *)
Definition is_delim (c : Z) : bool := (c =? 10) || (c =? 9) || (c =? 32).
Fixpoint drop_delims (l : bytes) : bytes :=
  match l with
  | c :: l' => if is_delim c then drop_delims l' else l
  | [] => []
  end.
Fixpoint span_token (l : bytes) : bytes * bytes :=
  match l with
  | c :: l' => if is_delim c then ([], l') else let '(t, r) := span_token l' in (c :: t, r)
  | [] => ([], [])
  end.
Definition strtok (l : bytes) : option (bytes * bytes) :=
  match drop_delims l with
  | [] => None
  | l' => Some (span_token l')
  end.

(** [%ld]: blanks, a sign and at least one digit. *)
Fixpoint scan_digits (l : bytes) (acc : Z) : Z :=
  match l with
  | c :: l' => if is_digit c then scan_digits l' (dec_step acc c) else acc
  | [] => acc
  end.
Fixpoint scan_long (l : bytes) : option Z :=
  match l with
  | [] => None
  | c :: l' =>
      if (c =? 32) || ((9 <=? c) && (c <=? 13)) then scan_long l'
      else
        let '(neg, ds) := if c =? 45 then (true, l') else if c =? 43 then (false, l') else (false, l) in
        match ds with
        | d :: _ => if is_digit d then Some (if neg : bool then - scan_digits ds 0 else scan_digits ds 0) else None
        | [] => None
        end
  end.
(** [sscanf(line, "%[^|]|%ld", token, &weight) == 2] *)
Definition scan_member (line : bytes) : option (bytes * Z) :=
  let token := cut_at 124 line in
  match token, drop (length token) line with
  | _ :: _, 124 :: rest => option_map (pair token) (scan_long rest)
  | _, _ => None
  end.

(** The locals of [read_dist] and the target. *)
Record reading : Type := mkReading {
  r_name_set : bool;
  r_count : Z;
  t_count : Z;
  t_max : Z;
  t_list : list (Z * bytes);
}.
Definition start_reading : reading := mkReading false 0 0 0 [].

(** One line without its comment; [inr] when the END of the section is reached. A token that is
    missing, a member more than were allocated, or a count behind members (which leaves
    elements of the new list unset) is undefined. *)
Definition read_text (name line : bytes) (r : reading) : res (reading + reading) :=
  if negb (r_name_set r) then
    match strtok line with
    | None => Err Undefined
    | Some (t1, rest) =>
        if negb (dsscasecmp t1 (str "BEGIN") =? 0) then Ok (inl r)
        else match strtok rest with
             | None => Err Undefined
             | Some (t2, _) =>
                 if negb (dsscasecmp t2 name =? 0) then Ok (inl r)
                 else Ok (inl (mkReading true (r_count r) (t_count r) (t_max r) (t_list r)))
             end
    end
  else if dssncasecmp 3 line (str "END") =? 0 then Ok (inr r)
  else
    match scan_member line with
    | None => Ok (inl r)
    | Some (token, weight) =>
        if dsscasecmp token (str "count") =? 0 then
          if negb (r_count r =? 0) then Err Undefined else Ok (inl (mkReading true (r_count r) weight 0 []))
        else if t_count r <=? r_count r then Err Undefined
        else
          let max := t_max r + weight in
          Ok (inl (mkReading true (r_count r + 1) (t_count r) max (t_list r ++ [(max, token)])))
    end.
Definition read_line (name line : bytes) (r : reading) : res (reading + reading) :=
  match cut_at 35 (cut_at 10 line) with
  | [] => Ok (inl r)
  | line => read_text name line r
  end.

Definition target (r : reading) : distribution := mkDist (t_count r) (t_list r).

(** The loop over the lines; without an END the count is checked. *)
Fixpoint read_lines (name : bytes) (lines : list bytes) (r : reading) : res distribution :=
  match lines with
  | [] => if r_count r =? t_count r then Ok (target r) else Err Fatal
  | l :: ls =>
      match read_line name l r with
      | Err f => Err f
      | Ok (inr r') => Ok (target r')
      | Ok (inl r') => read_lines name ls r'
      end
  end.
Definition read_dist (lines : list bytes) (name : bytes) : res distribution := read_lines name lines start_reading.

(** ** Reading a section *)

Lemma cut_at_none c l : c ∉ l -> cut_at c l = l.
Proof.
  induction l as [|x l IH]; intros H; [reflexivity|]. apply not_elem_of_cons in H as [Hx Hl]. cbn.
  rewrite (proj2 (Z.eqb_neq x c)) by auto. now rewrite IH.
Qed.

Lemma cut_at_first c l r : c ∉ l -> cut_at c (l ++ c :: r) = l.
Proof.
  induction l as [|x l IH]; intros H; cbn; [now rewrite Z.eqb_refl|]. apply not_elem_of_cons in H as [Hx Hl].
  rewrite (proj2 (Z.eqb_neq x c)) by auto. now rewrite IH.
Qed.

Lemma scan_digits_all l : forall acc, forallb is_digit l = true -> scan_digits l acc = fold_left dec_step l acc.
Proof.
  induction l as [|c l IH]; intros acc H; [reflexivity|]. cbn in *. apply andb_true_iff in H as [Hc Hl].
  rewrite Hc. now apply IH.
Qed.

Lemma scan_long_fmt n : in_s64 n -> scan_long (fmt_int n) = Some n.
Proof.
  unfold in_s64. intros Hn. unfold fmt_int, fmt_dec. destruct (Z.ltb_spec n 0).
  - destruct (pad0_digits (0 - 1) (- n) ltac:(lia)) as [Hd Hv]. cbn [scan_long]. cbn [Z.eqb Pos.eqb orb andb Z.leb Z.compare Pos.compare Pos.compare_cont].
    destruct (pad0 (0 - 1) (digits (- n))) as [|c l] eqn:E.
    + exfalso. apply (digits_nonempty (- n)). unfold pad0 in E. now apply app_eq_nil in E.
    + pose proof Hd as Hd'. cbn in Hd'. apply andb_true_iff in Hd' as [Hc _]. rewrite Hc, scan_digits_all by exact Hd.
      unfold dec_value in Hv. rewrite Hv. f_equal. lia.
  - destruct (pad0_digits 0 n ltac:(lia)) as [Hd Hv]. destruct (pad0 0 (digits n)) as [|c l] eqn:E.
    + exfalso. apply (digits_nonempty n). unfold pad0 in E. now apply app_eq_nil in E.
    + pose proof Hd as Hd'. cbn in Hd'. apply andb_true_iff in Hd' as [Hc _]. cbn [scan_long].
      assert (Hr : 48 <= c <= 57) by (unfold is_digit in Hc; apply andb_true_iff in Hc; lia).
      rewrite (proj2 (Z.eqb_neq c 32)), (proj2 (Z.leb_gt c 13)), (proj2 (Z.eqb_neq c 45)), (proj2 (Z.eqb_neq c 43)) by lia.
      rewrite andb_false_r. cbn [orb]. rewrite Hc, scan_digits_all by exact Hd. unfold dec_value in Hv. now rewrite Hv.
Qed.

Definition member_line (x : bytes * Z) : bytes := x.1 ++ 124 :: fmt_int x.2.
Definition count_line (n : Z) : bytes := str "COUNT|" ++ fmt_int n.
Definition begin_line (name : bytes) : bytes := str "BEGIN " ++ name.
Definition end_line (name : bytes) : bytes := str "END " ++ name.

(** A member that reads as one. *)
Record member_ok (x : bytes * Z) : Prop := {
  mo_nonempty : x.1 <> [];
  mo_bar : 124 ∉ x.1;
  mo_hash : 35 ∉ x.1;
  mo_line : 10 ∉ x.1;
  mo_count : dsscasecmp x.1 (str "count") <> 0;
  mo_end : dssncasecmp 3 (member_line x) (str "END") <> 0;
  mo_weight : in_s64 x.2;
}.

(** The running totals of the weights. *)
Fixpoint cumulate (max : Z) (l : list (bytes * Z)) : list (Z * bytes) :=
  match l with
  | [] => []
  | (t, w) :: l' => (max + w, t) :: cumulate (max + w) l'
  end.

Lemma fmt_int_avoids c n : in_s64 n -> c <> 45 -> ~ (48 <= c <= 57) -> c ∉ fmt_int n.
Proof. intros Hn H1 H2 Hin. apply fmt_dec_chars in Hin; [lia|exact Hn]. Qed.

Lemma scan_member_line t w : t <> [] -> 124 ∉ t -> in_s64 w -> scan_member (t ++ 124 :: fmt_int w) = Some (t, w).
Proof.
  intros Hne Hb Hw. unfold scan_member. rewrite cut_at_first by exact Hb. cbv zeta.
  destruct t as [|c t]; [easy|]. rewrite drop_app_length. now rewrite scan_long_fmt.
Qed.

Lemma read_line_text name l r : 10 ∉ l -> 35 ∉ l -> l <> [] -> read_line name l r = read_text name l r.
Proof.
  intros H1 H2 Hne. unfold read_line. rewrite (cut_at_none 10), (cut_at_none 35) by assumption. now destruct l.
Qed.

Lemma read_member name x r : member_ok x -> r_name_set r = true -> r_count r < t_count r ->
  read_line name (member_line x) r =
    Ok (inl (mkReading true (r_count r + 1) (t_count r) (t_max r + x.2) (t_list r ++ [(t_max r + x.2, x.1)]))).
Proof.
  intros [Hne Hb Hh Hl Hc He Hw] Hs Hn.
  assert (Hcut : forall c, c <> 124 -> c <> 45 -> ~ (48 <= c <= 57) -> c ∉ x.1 -> c ∉ member_line x).
  { intros c H1 H2 H3 H4. unfold member_line. rewrite elem_of_app, elem_of_cons. intros [H|[H|H]]; [auto|auto|].
    now apply (fmt_int_avoids c x.2). }
  rewrite read_line_text by (try (apply Hcut; auto; lia); unfold member_line; destruct x.1; discriminate).
  unfold read_text. rewrite Hs, (proj2 (Z.eqb_neq _ 0) He). cbn [negb]. unfold member_line.
  rewrite scan_member_line by assumption. rewrite (proj2 (Z.eqb_neq _ 0) Hc), (proj2 (Z.leb_gt (t_count r) (r_count r))) by lia.
  reflexivity.
Qed.

Lemma read_members name rest l : forall r, Forall member_ok l -> r_name_set r = true ->
  r_count r + Z.of_nat (length l) <= t_count r ->
  exists r', read_lines name (map member_line l ++ rest) r = read_lines name rest r' /\
    r_name_set r' = true /\ r_count r' = r_count r + Z.of_nat (length l) /\ t_count r' = t_count r /\
    t_list r' = t_list r ++ cumulate (t_max r) l.
Proof.
  induction l as [|[t w] l IH]; intros r Hl Hs Hn.
  - exists r. cbn. rewrite app_nil_r. auto with lia.
  - apply Forall_cons_1 in Hl as [Hx Hl]. cbn [length] in Hn. cbn [map app read_lines].
    rewrite (read_member name (t, w) r Hx Hs) by lia. cbn [fst snd].
    set (r1 := mkReading true (r_count r + 1) (t_count r) (t_max r + w) (t_list r ++ [(t_max r + w, t)])).
    destruct (IH r1 Hl eq_refl) as (r' & E & H1 & H2 & H3 & H4); [cbn; lia|].
    exists r'. split; [exact E|]. cbn [length cumulate]. rewrite H2, H3, H4. cbn. rewrite <- app_assoc. split_and!; auto. lia.
Qed.

Lemma dsscasecmp_refl s : dsscasecmp s s = 0.
Proof. induction s as [|c s IH]; [reflexivity|]. cbn. now rewrite Z.eqb_refl. Qed.

Lemma span_token_all s : Forall (fun c => is_delim c = false) s -> span_token s = (s, []).
Proof. induction 1 as [|c s Hc _ IH]; [reflexivity|]. cbn. now rewrite Hc, IH. Qed.

(** A section name: one word. *)
Definition name_ok (name : bytes) : Prop := name <> [] /\ Forall (fun c => is_delim c = false) name /\ 35 ∉ name.

Lemma read_begin name r : name_ok name -> r_name_set r = false ->
  read_line name (begin_line name) r = Ok (inl (mkReading true (r_count r) (t_count r) (t_max r) (t_list r))).
Proof.
  intros (Hne & Hd & Hh) Hs.
  assert (H10 : 10 ∉ name).
  { intros Hin. apply list_elem_of_In in Hin. rewrite Forall_forall in Hd.
    specialize (Hd 10 Hin). discriminate Hd. }
  assert (Hcut : forall c, c = 10 \/ c = 35 -> c ∉ begin_line name).
  { intros c Hc. unfold begin_line. rewrite elem_of_app. intros [H|H].
    - revert H. destruct Hc as [-> | ->]; apply (bool_decide_unpack _); vm_compute; exact I.
    - destruct Hc as [-> | ->]; auto. }
  rewrite read_line_text by (auto || discriminate). unfold read_text. rewrite Hs. cbn [negb].
  assert (E1 : strtok (begin_line name) = Some (str "BEGIN", name)) by reflexivity.
  rewrite E1, dsscasecmp_refl. cbn [Z.eqb negb].
  assert (E2 : strtok name = Some (name, [])).
  { unfold strtok. destruct name as [|c name']; [easy|]. cbn [drop_delims].
    pose proof Hd as Hd'. apply Forall_cons_1 in Hd' as [Hc _]. rewrite Hc. now rewrite span_token_all. }
  now rewrite E2, dsscasecmp_refl.
Qed.

Lemma read_count name n r : in_s64 n -> r_name_set r = true -> r_count r = 0 ->
  read_line name (count_line n) r = Ok (inl (mkReading true (r_count r) n 0 [])).
Proof.
  intros Hn Hs H0.
  assert (Hcut : forall c, c = 10 \/ c = 35 -> c ∉ count_line n).
  { intros c Hc. unfold count_line. rewrite elem_of_app. intros [H|H].
    - revert H. destruct Hc as [-> | ->]; apply (bool_decide_unpack _); vm_compute; exact I.
    - apply (fmt_int_avoids c n); auto; lia. }
  rewrite read_line_text by (auto || discriminate). unfold read_text. rewrite Hs. cbn [negb].
  change (dssncasecmp 3 (count_line n) (str "END") =? 0) with false. cbv iota.
  assert (E : scan_member (count_line n) = Some (str "COUNT", n)).
  { change (count_line n) with (str "COUNT" ++ 124 :: fmt_int n).
    apply scan_member_line; [discriminate|apply (bool_decide_unpack _); vm_compute; exact I|exact Hn]. }
  now rewrite E, H0.
Qed.

Lemma read_end name r : r_name_set r = true -> 10 ∉ name -> 35 ∉ name -> read_line name (end_line name) r = Ok (inr r).
Proof.
  intros Hs H10 H35.
  assert (Hcut : forall c, c = 10 \/ c = 35 -> c ∉ end_line name).
  { intros c Hc. unfold end_line. rewrite elem_of_app. intros [H|H].
    - revert H. destruct Hc as [-> | ->]; apply (bool_decide_unpack _); vm_compute; exact I.
    - destruct Hc as [-> | ->]; auto. }
  rewrite read_line_text by (auto || discriminate). unfold read_text. now rewrite Hs.
Qed.

(** The lines of a section. *)
Definition section_lines (name : bytes) (members : list (bytes * Z)) : list bytes :=
  begin_line name :: count_line (Z.of_nat (length members)) :: map member_line members ++ [end_line name].

Lemma read_lines_skip name pre rest r : Forall (fun l => read_line name l r = Ok (inl r)) pre ->
  read_lines name (pre ++ rest) r = read_lines name rest r.
Proof. induction 1 as [|l pre Hl _ IH]; [reflexivity|]. cbn [app read_lines]. now rewrite Hl. Qed.

(** Reading a distribution by its name, behind lines that belong to other sections, gives the
    members of its section in order with the running totals of their weights. *)
Theorem read_dist_section pre name members rest :
  Forall (fun l => read_line name l start_reading = Ok (inl start_reading)) pre -> name_ok name ->
  Forall member_ok members -> in_s64 (Z.of_nat (length members)) ->
  read_dist (pre ++ section_lines name members ++ rest) name =
    Ok (mkDist (Z.of_nat (length members)) (cumulate 0 members)).
Proof.
  intros Hpre Hn Hm Hl. unfold read_dist. rewrite read_lines_skip by exact Hpre. unfold section_lines.
  cbn [app read_lines]. rewrite (read_begin name start_reading Hn eq_refl). cbn [read_lines].
  rewrite read_count by (exact Hl || reflexivity). rewrite <- app_assoc. cbn [app].
  destruct (read_members name (end_line name :: rest) members (mkReading true 0 (Z.of_nat (length members)) 0 []) Hm eq_refl)
    as (r' & E & Hs & _ & Hc & Ht); [cbn; lia|].
  cbn [r_count t_count t_max t_list start_reading] in *. rewrite E. cbn [read_lines].
  destruct Hn as (_ & Hd & Hh). rewrite read_end; [|exact Hs| |exact Hh].
  - unfold target. now rewrite Hc, Ht.
  - intros Hin. apply list_elem_of_In in Hin. rewrite Forall_forall in Hd. specialize (Hd 10 Hin). discriminate Hd.
Qed.

(** Two sections of a file; the second one is asked for. *)
Lemma read_dist_section_witness :
  read_dist ((str "# regions" :: section_lines (str "nations") [(str "FRANCE", 1)]) ++
             section_lines (str "regions") [(str "ASIA", 1); (str "EUROPE", 2)] ++ []) (str "regions") =
    Ok (mkDist 2 [(1, str "ASIA"); (3, str "EUROPE")]).
Proof.
  apply (read_dist_section (str "# regions" :: section_lines (str "nations") [(str "FRANCE", 1)]) (str "regions")
           [(str "ASIA", 1); (str "EUROPE", 2)] []).
  - repeat constructor; vm_compute; reflexivity.
  - split_and!; [discriminate|repeat constructor|apply (bool_decide_unpack _); vm_compute; exact I].
  - repeat constructor; try (apply (bool_decide_unpack _); vm_compute; exact I); try discriminate; unfold in_s64; cbn; lia.
  - unfold in_s64. cbn. lia.
Defined.

(** The count is not compared when the section has its END: two members of three are read
    without an error. *)
Example short_section_is_accepted :
  read_dist [begin_line (str "d"); count_line 3; str "a|1"; str "b|1"; end_line (str "d")] (str "d") =
    Ok (mkDist 3 [(1, str "a"); (2, str "b")]).
Proof. reflexivity. Qed.
