(* ===== verification/Rows.v ===== *)
(** Properties of the row builders of Build.v: shuffles, sparse order keys, the suppliers of a
    part, and what every builder takes from the random streams. The last group is what makes
    a chunk of a table computable without the rows before it. *)
From Stdlib Require Import String.
From S2P Require Import Prelude Fmt Rng Calendar Build.

(** ** Shuffles *)

Lemma swap_permutation (a : list Z) i j x y :
  a !! i = Some x -> a !! j = Some y -> <[i := y]> (<[j := x]> a) ≡ₚ a.
Proof.
  intros Hi Hj. destruct (Nat.eq_dec i j) as [->|Hne].
  - rewrite list_insert_insert_eq. rewrite Hi in Hj. injection Hj as ->. now rewrite list_insert_id.
  - apply Permutation_inj. assert (Hl : (length (<[i:=y]> (<[j:=x]> a)) = length a)%nat) by now rewrite !length_insert.
    split; [exact Hl|]. exists (fun k => if decide (k = i) then j else if decide (k = j) then i else k).
    split.
    + intros k1 k2. cbv beta. repeat case_decide; lia.
    + intros k. apply lookup_lt_Some in Hi as Hli. apply lookup_lt_Some in Hj as Hlj.
      case_decide as E1; [subst k|case_decide as E2; [subst k|]].
      * now rewrite list_lookup_insert_eq by now rewrite length_insert.
      * rewrite list_lookup_insert_ne by lia. now rewrite list_lookup_insert_eq by exact Hlj.
      * now rewrite !list_lookup_insert_ne by lia.
Qed.

Section Shuffles.
Context (R : list Z) (HR : streams_of_table R).

Lemma permute_loop_draws c s n : s ∈ R -> c < MAX_LONG -> forall i a,
  0 <= i -> i + Z.of_nat n = c -> Z.of_nat (length a) = c ->
  Draws R (only s (Z.of_nat n)) (fun p => p ≡ₚ a) (permute_loop n i c s a).
Proof.
  intros Hs Hm. induction n as [|n IH]; intros i a Hi Hn Hl; cbn [permute_loop].
  - apply Draws_none; [intros; now apply only_nonneg|]. now apply Draws_ret.
  - apply Draws_weaken with (u1 := plus (only s 1) (only s (Z.of_nat n))) (p1 := fun p => p ≡ₚ a); [|auto|].
    { intros j _. rewrite only_plus. unfold only. destruct (j =? s); lia. }
    apply Draws_bind with (p1 := fun k => i <= k <= c - 1); [apply Draws_unif; auto; [lia|intros [H _]; lia]|].
    intros k Hk. destruct (lookup_lt_is_Some_2 a (Z.to_nat k)) as [x Hx]; [lia|].
    destruct (lookup_lt_is_Some_2 a (Z.to_nat i)) as [y Hy]; [lia|]. rewrite Hx, Hy.
    apply Draws_weaken with (u1 := only s (Z.of_nat n))
      (p1 := fun p => p ≡ₚ <[Z.to_nat i:=x]> (<[Z.to_nat k:=y]> a)); [reflexivity| |].
    + intros p ->. now apply swap_permutation.
    + apply IH; [lia|lia|now rewrite !length_insert].
Qed.

Lemma permute_draws a c s : s ∈ R -> 0 <= c < MAX_LONG -> Z.of_nat (length a) = c ->
  Draws R (only s c) (fun p => p ≡ₚ a) (permute a c s).
Proof.
  intros Hs Hc Hl. unfold permute.
  apply Draws_weaken with (u1 := only s (Z.of_nat (Z.to_nat c))) (p1 := fun p => p ≡ₚ a); [|auto|].
  { intros j _. now rewrite Z2Nat.id by lia. }
  apply permute_loop_draws; auto; lia.
Qed.

Lemma agg_members_some d l : (forall i, i ∈ l -> 0 <= i < Z.of_nat (length (d_list d))) ->
  exists t, agg_members d l = Some t.
Proof.
  induction l as [|i l IH]; intros Hl; cbn [agg_members]; [eauto|].
  destruct (lookup_lt_is_Some_2 (d_list d) (Z.to_nat i)) as [[w t] ->]; [specialize (Hl i ltac:(left)); lia|].
  destruct IH as [tl ->]; [|eauto]. intros j Hj. apply Hl. now right.
Qed.

Lemma agg_str_draws d n s : s ∈ R -> dist_ok d -> 0 <= n <= d_count d -> d_count d < MAX_LONG ->
  Draws R (only s (d_count d)) (fun _ => True) (agg_str d n s).
Proof.
  intros Hs [Hc _] Hn Hm. unfold agg_str, permute_dist.
  apply Draws_weaken with (u1 := plus (only s (d_count d)) none) (p1 := fun _ => True); [|auto|].
  { intros j _. unfold plus, none. lia. }
  eapply Draws_bind; [apply permute_draws; [exact Hs|lia|rewrite length_seqZ; lia]|].
  intros p Hp. pose proof (Permutation_length Hp) as Hlen. rewrite length_seqZ in Hlen.
  unfold definedM. rewrite (proj2 (Z.leb_le _ _)) by lia.
  apply Draws_weaken with (u1 := plus none none) (p1 := fun _ => True); [intros; unfold plus, none; lia|auto|].
  apply Draws_bind with (p1 := fun _ => True); [now apply Draws_ret|]. intros _ _.
  destruct (agg_members_some d (take (Z.to_nat n) p)) as [t ->]; [|now apply Draws_ret].
  intros i Hi. apply elem_of_take in Hi as (k & Hk & _). apply list_elem_of_lookup_2 in Hk.
  rewrite Hp in Hk. apply elem_of_seqZ in Hk. lia.
Qed.
End Shuffles.

Lemma agree_refl R s : streams_of_table R -> streams_ok s -> agree R s s.
Proof.
  intros HR Hs i Hi. destruct (stream_present s i Hs (HR i Hi)) as (x & Hx & _). exists x, x.
  now repeat split.
Qed.

(** One run of a computation that draws. *)
Lemma Draws_run {A} R ub (post : A -> Prop) m s :
  streams_of_table R -> streams_ok s -> Draws R ub post m ->
  exists a t, m s = (Ok a, t) /\ post a /\ streams_ok t /\ moved ub s t.
Proof.
  intros HR Hs Hm. destruct (Hm s s Hs Hs (agree_refl R s HR Hs)) as (a & t & _ & E & _ & Ha & Ht & _ & _ & Hmv & _).
  eauto 6.
Qed.

(** [permute] shuffles: whatever the seeds it succeeds, the array is a permutation of what
    it was, and the stream moves by at most one number per element. *)
Theorem permute_permutes (a : list Z) (stream : Z) (s : streams) :
  streams_ok s -> 0 <= stream <= MAX_STREAM -> Z.of_nat (length a) < MAX_LONG ->
  exists p t, permute a (Z.of_nat (length a)) stream s = (Ok p, t) /\ p ≡ₚ a /\
    moved (only stream (Z.of_nat (length a))) s t.
Proof.
  intros Hs Hst Hl.
  assert (HR : streams_of_table [stream]) by (intros i Hi; apply list_elem_of_singleton in Hi; now subst).
  destruct (Draws_run [stream] _ _ _ s HR Hs
              (permute_draws [stream] HR a (Z.of_nat (length a)) stream ltac:(left) ltac:(lia) eq_refl))
    as (p & t & E & Hp & _ & Hm). eauto 6.
Qed.

Lemma Seed_ok : streams_ok Seed.
Proof.
  split; [reflexivity|]. intros i x Hx.
  assert (H : Forall (fun x => seed_ok (value x)) Seed) by (repeat constructor; vm_compute; congruence).
  exact (Forall_lookup_1 _ _ _ _ H Hx).
Qed.

Lemma permute_permutes_witness :
  exists p t, permute [10; 11; 12] 3 22 Seed = (Ok p, t) /\ p ≡ₚ [10; 11; 12] /\ moved (only 22 3) Seed t.
Proof.
  apply (permute_permutes [10; 11; 12] 22 Seed); [exact Seed_ok|split; vm_compute; congruence|reflexivity].
Defined.

(** ** Keys *)

(** order keys are sparse and never collide: [mk_sparse] uses the first eight keys of every
    thirty-two for the initial rows and the next groups for updates, so that different
    (index, update group) pairs get different keys; the macro [MK_SPARSE] the deletes are
    written with computes the same key. *)
Theorem mk_sparse_injective (i j p q : Z) :
  0 <= i -> 0 <= j -> 0 <= p < 4 -> 0 <= q < 4 ->
  mk_sparse i p = i / 8 * 32 + p * 8 + i mod 8 /\ MK_SPARSE i p = mk_sparse i p /\
  (mk_sparse i p = mk_sparse j q -> i = j /\ p = q).
Proof.
  assert (H : forall i p, mk_sparse i p = i / 8 * 32 + p * 8 + i mod 8).
  { intros k r. unfold mk_sparse, SPARSE_KEEP, SPARSE_BITS. change (Z.shiftl 1 3 - 1) with (2 ^ 3 - 1).
    rewrite land_mask, shiftr_div, !shiftl_mul by lia. change (2 ^ 3) with 8. change (2 ^ 2) with 4. lia. }
  intros Hi Hj Hp Hq. split; [apply H|]. split.
  - rewrite H. unfold MK_SPARSE. change 3 with (2 ^ 2 - 1) at 2. change 7 with (2 ^ 3 - 1).
    rewrite !land_mask, shiftr_div, !shiftl_mul by lia.
    rewrite (Z.mod_small p), (lor_disjoint (i / 2 ^ 3) p 2) by lia.
    rewrite lor_disjoint by (try apply Z.mod_pos_bound; lia). change (2 ^ 3) with 8. change (2 ^ 2) with 4. lia.
  - rewrite !H. intros E. dlia.
Qed.

Lemma mk_sparse_injective_witness :
  mk_sparse 9 1 = 9 / 8 * 32 + 1 * 8 + 9 mod 8 /\ MK_SPARSE 9 1 = mk_sparse 9 1 /\
  (mk_sparse 9 1 = mk_sparse 9 0 -> 9 = 9 /\ 1 = 0).
Proof. apply (mk_sparse_injective 9 9 1 0); lia. Defined.

(** ** What a row draws *)

(** Bounds are compared stream by stream. *)
Lemma Draws_fits {A} R u1 u2 (p1 p2 : A -> Prop) m :
  Draws R u1 p1 m -> (forall a, p1 a -> p2 a) ->
  forallb (fun i => u1 i <=? u2 i) (seqZ 0 (MAX_STREAM + 1)) = true -> Draws R u2 p2 m.
Proof.
  intros H Hp Hu s1 s2 H1 H2 Hag.
  assert (Hmv : forall s t, streams_ok s -> moved u1 s t -> moved u2 s t).
  { intros s t Hs Hm i x Hi Hx. destruct (Hm i x Hi Hx) as (n & y & Hy & Hn & Hrest). exists n, y.
    split; [exact Hy|]. split; [|exact Hrest]. apply lookup_lt_Some in Hx. rewrite (proj1 Hs) in Hx.
    rewrite forallb_forall in Hu. specialize (Hu i). rewrite <- list_elem_of_In, elem_of_seqZ, Z.leb_le in Hu.
    unfold MAX_STREAM in Hu. lia. }
  destruct (H s1 s2 H1 H2 Hag) as (a & t1 & t2 & E1 & E2 & Ha & O1 & O2 & Hag1 & M1 & M2).
  exists a, t1, t2. split_and!; auto.
Qed.

(** A loop of at most [k] rounds. *)
Lemma Draws_forM2 {A B} R u (post : A -> B -> Prop) (f : A -> M streams B) (l : list A) :
  (forall i, 0 <= u i) -> (forall a, a ∈ l -> Draws R u (post a) (f a)) ->
  Draws R (times (Z.of_nat (length l)) u) (Forall2 post l) (forM l f).
Proof.
  intros Hu. induction l as [|a l IH]; intros Hf; cbn [forM].
  - apply Draws_none; [intros; unfold times; cbn; lia|]. apply Draws_ret. constructor.
  - apply Draws_weaken with (u1 := plus u (plus (times (Z.of_nat (length l)) u) none))
      (p1 := Forall2 post (a :: l)); [|auto|].
    { intros i _. unfold plus, times, none. cbn [length]. lia. }
    apply Draws_bind with (p1 := post a); [apply Hf; left|]. intros b Hb.
    apply Draws_bind with (p1 := Forall2 post l); [apply IH; intros x Hx; apply Hf; now right|].
    intros bs Hbs. apply Draws_ret. now constructor.
Qed.

Lemma Draws_loop {A B} R u k (post : A -> B -> Prop) (f : A -> M streams B) (l : list A) :
  (forall i, 0 <= u i) -> Z.of_nat (length l) <= k -> (forall a, a ∈ l -> Draws R u (post a) (f a)) ->
  Draws R (times k u) (Forall2 post l) (forM l f).
Proof.
  intros Hu Hk Hf. eapply Draws_weaken; [| |apply Draws_forM2; [exact Hu|exact Hf]]; [|auto].
  intros i _. unfold times. specialize (Hu i). nia.
Qed.

Lemma cust_streams_ok : streams_of_table cust_streams.
Proof. intros i Hi. each_stream Hi; split; vm_compute; congruence. Qed.
Lemma supp_streams_ok : streams_of_table supp_streams.
Proof. intros i Hi. each_stream Hi; split; vm_compute; congruence. Qed.
Lemma part_streams_ok : streams_of_table part_streams.
Proof. intros i Hi. each_stream Hi; split; vm_compute; congruence. Qed.
Lemma order_streams_ok : streams_of_table order_streams.
Proof. intros i Hi. each_stream Hi; split; vm_compute; congruence. Qed.
#[export] Hint Resolve cust_streams_ok supp_streams_ok part_streams_ok order_streams_ok : zeno.

Ltac in_streams := solve [repeat (left || right)].
Ltac not_full_range := let H := fresh in intros [H ?]; vm_compute in H; congruence.
(** One selection of a row builder, with what it guarantees about the value. *)
Ltac draw_unif :=
  eapply Draws_bind; [apply Draws_unif; [auto with zeno|in_streams|vm_compute; congruence|not_full_range]|].
Ltac draw_any := eapply Draws_bind; [apply Draws_any; [auto with zeno|in_streams]|].
Ltac draw_pick := eapply Draws_bind; [apply pick_str_draws; [auto with zeno|assumption|in_streams]|].
Ltac draw_phone := eapply Draws_bind; [apply gen_phone_draws; [auto with zeno|in_streams]|].
Ltac draw_text :=
  eapply Draws_bind; [apply dbg_text_draws; [auto with zeno|in_streams|split; vm_compute; congruence
                                            |vm_compute; congruence|vm_compute; congruence]|].
Ltac draw_vstr :=
  eapply Draws_bind; [apply a_rnd_draws; [auto with zeno|in_streams|split; vm_compute; congruence
                                         |vm_compute; congruence]|].

Section RowDraws.
Context (scale : Z) (base : Z -> Z) (pool : Z -> Z).
Context (nations regions o_priority_set l_instruct_set l_smode_set l_rflag_set c_mseg_set
         colors p_types_set p_cntr_set : distribution).

Lemma mk_cust_draws (Hseg : dist_ok c_mseg_set) n :
  Draws cust_streams bnd (fun c => c_custkey c = n) (mk_cust pool nations c_mseg_set n).
Proof.
  eapply Draws_fits with (p1 := fun c => c_custkey c = n); [|auto|].
  - unfold mk_cust, V_STR, TEXT. draw_vstr. intros addr _. draw_any. intros i _. draw_phone. intros ph _.
    draw_any. intros bal _. draw_pick. intros [k seg] _. draw_text. intros cmt _. now apply Draws_ret.
  - vm_compute. reflexivity.
Qed.

(** Both pieces of text fit the comment. *)
Lemma splice_some off src dst :
  0 <= off -> off + strlen src <= strlen dst ->
  exists r, splice off src dst = Some r /\ strlen r = strlen dst.
Proof.
  intros H1 H2. unfold splice. rewrite (proj2 (Z.leb_le 0 off)), (proj2 (Z.leb_le _ _)) by lia. cbn [andb].
  eexists. split; [reflexivity|]. unfold strlen in *. rewrite !length_app, length_take, length_drop. lia.
Qed.

Lemma mk_supp_draws n :
  Draws supp_streams bnd (fun s => s_suppkey s = n /\ 25 <= strlen (s_comment s) <= 100) (mk_supp pool nations n).
Proof.
  eapply Draws_fits with (p1 := fun s => s_suppkey s = n /\ 25 <= strlen (s_comment s) <= 100); [|auto|].
  - unfold mk_supp, V_STR, TEXT. draw_vstr. intros addr _. draw_any. intros i _. draw_phone. intros ph _.
    draw_any. intros bal _. draw_text. intros cmt Hc. cbv beta in Hc.
    change (v_str_low S_CMNT_LEN) with 25 in Hc. change (v_str_high S_CMNT_LEN) with 100 in Hc.
    draw_any. intros bad _. draw_any. intros type _.
    eapply Draws_bind; [apply Draws_unif; [auto with zeno|in_streams|unfold BBB_CMNT_LEN; lia
                                          |intros [H _]; unfold BBB_CMNT_LEN, MAX_LONG in H; lia]|].
    intros noise Hn. cbv beta in Hn.
    eapply Draws_bind; [apply Draws_unif; [auto with zeno|in_streams|unfold BBB_CMNT_LEN in *; lia
                                          |intros [H _]; unfold BBB_CMNT_LEN, MAX_LONG in *; lia]|].
    intros off Hoff. cbv beta in Hoff. unfold BBB_CMNT_LEN, BBB_BASE_LEN in *.
    eapply Draws_bind with (u1 := none) (p1 := fun c => strlen c = strlen cmt).
    + destruct (bad <=? S_CMNT_BBB); [|now apply Draws_ret].
      destruct (splice_some off BBB_BASE cmt) as (c1 & E1 & L1); [lia|change (strlen BBB_BASE) with 9; lia|].
      set (what := if type <? BBB_DEADBEATS then BBB_COMPLAIN else BBB_COMMEND).
      assert (Hw : strlen what = 10) by (unfold what; now destruct (type <? BBB_DEADBEATS)).
      destruct (splice_some (9 + off + noise) what c1) as (c2 & E2 & L2); [lia|lia|].
      eapply Draws_fits with (u1 := plus none none); [|intros a Ha; exact Ha|reflexivity].
      eapply Draws_bind with (p1 := fun c => c = c1); [exact (Draws_opt _ _ _ _ E1 eq_refl)|].
      intros c ->. apply (Draws_opt _ _ _ _ E2). lia.
    + intros c Hcl. apply Draws_ret. cbn. split; [reflexivity|lia].
  - vm_compute. reflexivity.
Qed.

(** A row of partsupp as part [index] lists it. *)
Definition supplies (index : Z) (k : Z) (x : partsupp_t) : Prop :=
  ps_partkey x = index /\ ps_suppkey x = PART_SUPP_BRIDGE scale base index k.

Definition psupp_ub (i : Z) : Z :=
  if (i =? PS_QTY_SD) || (i =? PS_SCST_SD) then 1 else if i =? PS_CMNT_SD then 2 else 0.

Lemma mk_psupp_draws index k :
  Draws part_streams psupp_ub (supplies index k) (mk_psupp scale base pool index k).
Proof.
  eapply Draws_fits with (p1 := supplies index k); [|auto|].
  - unfold mk_psupp, TEXT. draw_any. intros qty _. draw_any. intros cost _. draw_text. intros cmt _.
    apply Draws_ret. split; reflexivity.
  - vm_compute. reflexivity.
Qed.

Definition part_wf (index : Z) (p : part_t) : Prop :=
  p_partkey p = index /\ p_retailprice p = rpb_routine index /\
  exists a b c d, p_s p = [a; b; c; d] /\
    supplies index 0 a /\ supplies index 1 b /\ supplies index 2 c /\ supplies index 3 d.

Lemma mk_psupps_draws index :
  Draws part_streams (times 4 psupp_ub)
    (fun l => exists a b c d, l = [a; b; c; d] /\
       supplies index 0 a /\ supplies index 1 b /\ supplies index 2 c /\ supplies index 3 d)
    (forM (seqZ 0 SUPP_PER_PART) (mk_psupp scale base pool index)).
Proof.
  change (seqZ 0 SUPP_PER_PART) with [0; 1; 2; 3]. cbn [forM].
  eapply Draws_fits with (u1 := plus psupp_ub (plus (plus psupp_ub (plus (plus psupp_ub (plus (plus psupp_ub
    (plus none none)) none)) none)) none)); [|intros l Hl; exact Hl|vm_compute; reflexivity].
  eapply Draws_bind; [apply mk_psupp_draws|]. intros a Ha.
  eapply Draws_bind with (p1 := fun l => exists b c d, l = [b; c; d] /\ supplies index 1 b /\ supplies index 2 c /\ supplies index 3 d).
  2: { intros l (b & c & d & -> & Hb & Hc & Hd). apply Draws_ret. eauto 10. }
  eapply Draws_bind; [apply mk_psupp_draws|]. intros b Hb.
  eapply Draws_bind with (p1 := fun l => exists c d, l = [c; d] /\ supplies index 2 c /\ supplies index 3 d).
  2: { intros l (c & d & -> & Hc & Hd). apply Draws_ret. eauto 10. }
  eapply Draws_bind; [apply mk_psupp_draws|]. intros c Hc.
  eapply Draws_bind with (p1 := fun l => exists d, l = [d] /\ supplies index 3 d).
  2: { intros l (d & -> & Hd). apply Draws_ret. eauto 10. }
  eapply Draws_bind; [apply mk_psupp_draws|]. intros d Hd.
  eapply Draws_bind with (p1 := fun l => l = []); [now apply Draws_ret|]. intros l ->. apply Draws_ret. eauto.
Qed.

Lemma mk_part_draws (Hcol : dist_ok colors) (Hcnt : d_count colors = 92)
  (Htyp : dist_ok p_types_set) (Hcn : dist_ok p_cntr_set) n :
  Draws part_streams bnd (part_wf n) (mk_part scale base pool colors p_types_set p_cntr_set n).
Proof.
  eapply Draws_fits with (p1 := part_wf n); [|auto|].
  - unfold mk_part, TEXT.
    eapply Draws_bind; [apply agg_str_draws; [auto with zeno|in_streams|exact Hcol
      |rewrite Hcnt; split; vm_compute; congruence|rewrite Hcnt; vm_compute; reflexivity]|].
    intros name _. draw_any. intros mfg _. draw_any. intros brnd _. draw_pick. intros [k type] _.
    draw_any. intros size _. draw_pick. intros [k' cntr] _. draw_text. intros cmt _.
    eapply Draws_bind; [apply mk_psupps_draws|]. intros l (a & b & c & d & -> & Hs). apply Draws_ret.
    split; [reflexivity|]. split; [reflexivity|]. exists a, b, c, d. auto.
  - rewrite Hcnt. vm_compute. reflexivity.
Qed.

(** ** Orders *)
Context (Hscale : 1 <= scale < 30000) (Hparts : 1 <= base PART) (Hcusts : 1 <= base CUST).

(** A line of an order placed [tmp_date - STARTDATE] days after the first day: keys, ranges,
    price, dates and status. *)
Definition line_wf (okey tmp_date lcnt : Z) (x : line_t * Z * bool) : Prop :=
  let '(l, price, shipped) := x in
  l_okey l = okey /\ l_lcnt l = lcnt + 1 /\
  1 <= l_partkey l <= base PART * scale /\
  (exists k, 0 <= k <= 3 /\ l_suppkey l = PART_SUPP_BRIDGE scale base (l_partkey l) k) /\
  1 <= l_quantity l <= 50 /\ 0 <= l_discount l <= 10 /\ 0 <= l_tax l <= 8 /\
  l_eprice l = rpb_routine (l_partkey l) * l_quantity l /\
  price = Z.quot (Z.quot (l_eprice l * (100 - l_discount l)) PENNIES * (100 + l_tax l)) PENNIES /\
  (exists sd cd rd, asc_date (sd - STARTDATE) = Some (l_sdate l) /\ asc_date (cd - STARTDATE) = Some (l_cdate l) /\
     asc_date (rd - STARTDATE) = Some (l_rdate l) /\ tmp_date + 1 <= sd <= tmp_date + 121 /\
     tmp_date + 30 <= cd <= tmp_date + 90 /\ sd + 1 <= rd <= sd + 30) /\
  l_lstatus l = (if shipped then 70 else 79).

Definition line_ub (i : Z) : Z :=
  if (L_QTY_SD <=? i) && (i <=? L_RFLG_SD) then 1 else if i =? L_CMNT_SD then 2 else 0.

Lemma julian_some (n : Z) : 0 <= n -> exists j, julian (STARTDATE + n) = Some j.
Proof.
  intros Hn. unfold julian. replace (STARTDATE + n - STARTDATE) with n by lia.
  destruct (julian_loop_spec (julian_fuel n) 92 n) as (y & d & Hr & _); [lia|exact Hn| |eauto].
  unfold julian_fuel. pose proof (Z.div_pos n 365). lia.
Qed.

(** A day of the period. *)
Lemma day_known d : STARTDATE <= d < STARTDATE + TOTDATE ->
  exists a j, asc_date (d - STARTDATE) = Some a /\ julian d = Some j.
Proof.
  intros Hd. destruct (asc_date_some (d - STARTDATE)) as [a Ha]; [lia|].
  destruct (julian_some (d - STARTDATE)) as [j Hj]; [lia|].
  replace (STARTDATE + (d - STARTDATE)) with d in Hj by lia. eauto.
Qed.

Lemma rflag_draws (Hrf : dist_ok l_rflag_set) b :
  Draws order_streams (only L_RFLG_SD 1) (fun _ => True)
    (if (b : bool) then let* '(_, tmp_str) := pick_str l_rflag_set L_RFLG_SD in retM (default 0 (head tmp_str))
     else retM 78).
Proof.
  destruct b.
  - eapply Draws_fits with (u1 := plus (only L_RFLG_SD 1) none); [|intros a Ha; exact Ha|vm_compute; reflexivity].
    draw_pick. intros [k t] _. now apply Draws_ret.
  - eapply Draws_fits with (u1 := none); [now apply (Draws_ret _ (fun _ => True))|auto|vm_compute; reflexivity].
Qed.

Ltac draw_opt E :=
  match type of E with
  | _ = Some ?v => eapply Draws_bind; [exact (Draws_opt _ _ (fun x => x = v) _ E eq_refl)|]; intros ? ->
  end.

Lemma mk_line_draws (Hins : dist_ok l_instruct_set) (Hsm : dist_ok l_smode_set) (Hrf : dist_ok l_rflag_set)
  okey tmp_date lcnt :
  O_ODATE_MIN <= tmp_date <= O_ODATE_MAX ->
  Draws order_streams line_ub (line_wf okey tmp_date lcnt)
    (mk_line scale base pool l_instruct_set l_smode_set l_rflag_set okey tmp_date lcnt).
Proof.
  intros Ht. eapply Draws_fits with (p1 := line_wf okey tmp_date lcnt); [|auto|].
  - unfold mk_line, TEXT. rewrite (proj2 (Z.leb_gt 30000 scale)) by lia.
    draw_unif. intros qty Hq. draw_unif. intros disc Hdi. draw_unif. intros tax Htx.
    draw_pick. intros [k1 ins] _. draw_pick. intros [k2 sm] _. draw_text. intros cmt _.
    eapply Draws_bind; [apply Draws_unif; [auto with zeno|in_streams|unfold L_PKEY_MIN, L_PKEY_MAX; nia
                                          |intros [_ H]; discriminate H]|]. intros pk Hpk.
    draw_unif. intros k Hk. draw_unif. intros sd Hsd. draw_unif. intros cd Hcd. draw_unif. intros rd Hrd.
    cbv beta in *.
    assert (HO : O_ODATE_MIN = STARTDATE /\ O_ODATE_MAX + 151 < STARTDATE + TOTDATE) by now split.
    unfold L_SDTE_MIN, L_SDTE_MAX, L_CDTE_MIN, L_CDTE_MAX, L_RDTE_MIN, L_RDTE_MAX in *.
    destruct (day_known (sd + tmp_date)) as (sa & sj & Esa & Esj); [lia|].
    destruct (day_known (cd + tmp_date)) as (ca & cj & Eca & _); [lia|].
    destruct (day_known (rd + (sd + tmp_date))) as (ra & rj & Era & Erj); [lia|].
    draw_opt Esa. draw_opt Eca. draw_opt Era. draw_opt Erj.
    eapply Draws_bind; [apply rflag_draws, Hrf|]. intros rf _. draw_opt Esj. apply Draws_ret.
    unfold line_wf. cbn [l_okey l_lcnt l_partkey l_suppkey l_quantity l_eprice l_discount l_tax l_lstatus l_cdate l_sdate l_rdate].
    unfold L_PKEY_MAX, L_PKEY_MIN, L_QTY_MIN, L_QTY_MAX, L_DCNT_MIN, L_DCNT_MAX, L_TAX_MIN, L_TAX_MAX in *.
    split_and!; try reflexivity; try lia.
    + exists k. auto.
    + exists (sd + tmp_date), (cd + tmp_date), (rd + (sd + tmp_date)). split_and!; auto; lia.
  - vm_compute. reflexivity.
Qed.

(** The customer is moved off the keys that take no orders, within the key range. *)
Lemma mortality_loop_spec k max : 1 <= k <= max ->
  exists c, mortality_loop 3 k max 1 = Some c /\ 1 <= c <= max /\ c mod 3 <> 0.
Proof.
  assert (Hr : forall x, 1 <= x -> Z.rem x CUST_MORTALITY = x mod 3) by (intros; apply Z.rem_mod_nonneg; unfold CUST_MORTALITY; lia).
  intros Hk. cbn [mortality_loop]. rewrite !Hr by lia.
  destruct (Z.eqb_spec (k mod 3) 0) as [E1|E1]; [|exists k; auto].
  destruct (Z.eqb_spec (Z.min (k + 1) max mod 3) 0) as [E2|E2]; [|eexists; split; [reflexivity|split; [lia|exact E2]]].
  assert (Hkm : k = max) by (destruct (Z.eq_dec k max); [auto|]; rewrite Z.min_l in E2 by lia; dlia).
  assert (3 <= max) by (subst; dlia). rewrite Hr by lia.
  destruct (Z.eqb_spec (Z.min (Z.min (k + 1) max + - (1)) max mod 3) 0) as [E3|E3].
  - exfalso. rewrite (Z.min_r (k + 1)), Z.min_l in E3 by lia. dlia.
  - eexists. split; [reflexivity|]. split; [lia|exact E3].
Qed.

Definition line_price (l : line_t) : Z :=
  Z.quot (Z.quot (l_eprice l * (100 - l_discount l)) PENNIES * (100 + l_tax l)) PENNIES.

Definition order_wf (index upd_num : Z) (o : order_t) : Prop :=
  o_okey o = mk_sparse index (if upd_num =? 0 then 0 else 1 + Z.quot upd_num (Z.quot 10000 UPD_PCT)) /\
  1 <= o_custkey o <= base CUST * scale /\ o_custkey o mod 3 <> 0 /\
  exists tmp_date xs, O_ODATE_MIN <= tmp_date <= O_ODATE_MAX /\ asc_date (tmp_date - STARTDATE) = Some (o_odate o) /\
    1 <= Z.of_nat (length xs) <= 7 /\
    Forall2 (line_wf (o_okey o) tmp_date) (seqZ 0 (Z.of_nat (length xs))) xs /\
    o_lines o = map (fun x => x.1.1) xs /\
    o_totalprice o = fold_left Z.add (map (fun x => x.1.2) xs) 0 /\
    o_orderstatus o = (let ocnt := Z.of_nat (length (List.filter (fun x => x.2) xs)) in
                       if ocnt =? Z.of_nat (length xs) then 70 else if 0 <? ocnt then 80 else 79).

Lemma line_ub_nonneg i : 0 <= line_ub i.
Proof. unfold line_ub. destruct (_ && _); [lia|]. destruct (_ =? _); lia. Qed.

Lemma mk_order_draws (Hpr : dist_ok o_priority_set) (Hins : dist_ok l_instruct_set) (Hsm : dist_ok l_smode_set)
  (Hrf : dist_ok l_rflag_set) index upd_num :
  Draws order_streams bnd (order_wf index upd_num)
    (mk_order scale base pool o_priority_set l_instruct_set l_smode_set l_rflag_set index upd_num).
Proof.
  eapply Draws_fits with (p1 := order_wf index upd_num); [|auto|].
  - unfold mk_order, TEXT. rewrite (proj2 (Z.leb_gt 30000 scale)) by lia. cbv zeta.
    eapply Draws_bind; [apply Draws_unif; [auto with zeno|in_streams|unfold O_CKEY_MIN, O_CKEY_MAX; nia
                                          |intros [_ H]; discriminate H]|]. intros ck Hck. cbv beta in Hck.
    destruct (mortality_loop_spec ck (O_CKEY_MAX scale base) Hck) as (c & Ec & Hc & Hc3). draw_opt Ec.
    draw_unif. intros day Hday. cbv beta in Hday.
    destruct (day_known day) as (da & _ & Eda & _).
    { assert (O_ODATE_MIN = STARTDATE /\ O_ODATE_MAX + 151 < STARTDATE + TOTDATE) by now split. lia. }
    draw_opt Eda. draw_pick. intros [k1 pr] _. draw_any. intros clk _. draw_text. intros cmt _.
    draw_unif. intros n Hn. cbv beta in Hn. unfold O_LCNT_MIN, O_LCNT_MAX in Hn.
    eapply Draws_bind; [apply (Draws_loop _ line_ub 7);
      [exact line_ub_nonneg|rewrite length_seqZ; lia|intros k _; now apply mk_line_draws]|].
    intros xs Hxs. pose proof (Forall2_length Hxs) as Hlen. rewrite length_seqZ in Hlen.
    assert (En : n = Z.of_nat (length xs)) by lia. subst n.
    apply Draws_ret. split; [reflexivity|]. split; [exact Hc|]. split; [exact Hc3|].
    exists day, xs. split_and!; auto; lia.
  - vm_compute. reflexivity.
Qed.
End RowDraws.

(** ** The suppliers of a part *)

Lemma bridge_range scale base p k : 0 < base SUPP * scale -> 0 <= p -> 0 <= k ->
  1 <= PART_SUPP_BRIDGE scale base p k <= base SUPP * scale.
Proof.
  intros Hs Hp Hk. unfold PART_SUPP_BRIDGE. set (S := base SUPP * scale) in *.
  assert (0 <= Z.quot S SUPP_PER_PART) by (apply Z.quot_pos; unfold SUPP_PER_PART; lia).
  assert (-1 < Z.quot (p - 1) S \/ p = 0) by (destruct (Z.eq_dec p 0); [auto|left; pose proof (Z.quot_pos (p - 1) S); lia]).
  assert (p = 0 -> Z.quot (p - 1) S = 0 \/ S = 1).
  { intros ->. destruct (Z.eq_dec S 1); [auto|left]. now apply Z.quot_small_iff; lia. }
  destruct (Z.eq_dec S 1) as [->|Hne1]; [rewrite Z.rem_1_r; lia|].
  assert (0 <= p + k * (Z.quot S SUPP_PER_PART + Z.quot (p - 1) S)) by nia.
  pose proof (Z.rem_bound_pos (p + k * (Z.quot S SUPP_PER_PART + Z.quot (p - 1) S)) S). lia.
Qed.

(** The stride between two suppliers of a part is no multiple of the number of suppliers. *)
Lemma bridge_stride (n p a b : Z) : 1 <= n -> 1 <= p <= 200000 * n -> 0 <= a < b -> b <= 3 ->
  Z.rem (p + a * (Z.quot (10000 * n) 4 + Z.quot (p - 1) (10000 * n))) (10000 * n) <>
  Z.rem (p + b * (Z.quot (10000 * n) 4 + Z.quot (p - 1) (10000 * n))) (10000 * n).
Proof.
  intros Hn Hp Ha Hb. rewrite !Z.quot_div_nonneg by lia.
  replace (10000 * n / 4) with (2500 * n) by (apply Z.div_unique with 0; lia).
  assert (Hq : 0 <= (p - 1) / (10000 * n) <= 19).
  { split; [apply Z.div_pos; lia|]. assert ((p - 1) / (10000 * n) < 20) by (apply Z.div_lt_upper_bound; lia). lia. }
  set (q := (p - 1) / (10000 * n)) in *. rewrite !Z.rem_mod_nonneg by nia. intros E.
  assert (Hd : ((b - a) * (2500 * n + q)) mod (10000 * n) = 0).
  { replace ((b - a) * (2500 * n + q)) with ((p + b * (2500 * n + q)) - (p + a * (2500 * n + q))) by ring.
    rewrite Zminus_mod, E, Z.sub_diag. apply Z.mod_0_l. lia. }
  rewrite Z.mod_small in Hd by nia. nia.
Qed.

(** the partsupp table has a primary key and the supplier keys exist: at every scale factor from
    one on, the four suppliers [PART_SUPP_BRIDGE] assigns to a part are different and are
    keys of the supplier table. *)
Theorem part_suppliers_distinct (scale p : Z) (base : Z -> Z) :
  1 <= scale -> base SUPP = 10000 -> 1 <= p <= 200000 * scale ->
  NoDup (map (PART_SUPP_BRIDGE scale base p) [0; 1; 2; 3]) /\
  Forall (fun k => 1 <= k <= base SUPP * scale) (map (PART_SUPP_BRIDGE scale base p) [0; 1; 2; 3]).
Proof.
  intros Hsc Hbase Hp.
  assert (Hne : forall a b, 0 <= a < b -> b <= 3 -> PART_SUPP_BRIDGE scale base p a <> PART_SUPP_BRIDGE scale base p b).
  { intros a b Ha Hb. unfold PART_SUPP_BRIDGE. rewrite Hbase. cbv zeta. pose proof (bridge_stride scale p a b Hsc Hp Ha Hb).
    change SUPP_PER_PART with 4. lia. }
  split.
  - cbn [map]. rewrite !list.NoDup_cons. pose proof (Hne 0 1). pose proof (Hne 0 2). pose proof (Hne 0 3).
    pose proof (Hne 1 2). pose proof (Hne 1 3). pose proof (Hne 2 3).
    rewrite !not_elem_of_cons. split_and!; try lia; try apply not_elem_of_nil. apply base.NoDup_nil_2.
  - cbn [map]. repeat (apply Forall_cons_2; [apply bridge_range; lia|]). apply Forall_nil_2.
Qed.

Lemma part_suppliers_distinct_witness :
  NoDup (map (PART_SUPP_BRIDGE 2 (fun _ => 10000) 399999) [0; 1; 2; 3]) /\
  Forall (fun k => 1 <= k <= 10000 * 2) (map (PART_SUPP_BRIDGE 2 (fun _ => 10000) 399999) [0; 1; 2; 3]).
Proof. apply (part_suppliers_distinct 2 399999 (fun _ => 10000)); reflexivity || lia. Defined.

(** Below scale factor one they need not be: with [-s 0.001] there are ten suppliers, and part
    81 names one of them four times. *)
Theorem part_suppliers_collide_at_small_scale (base : Z -> Z) :
  base SUPP = 10 -> map (PART_SUPP_BRIDGE 1 base 81) [0; 1; 2; 3] = [2; 2; 2; 2].
Proof. intros H. unfold PART_SUPP_BRIDGE. now rewrite H. Qed.

(** ** Orders against parts *)

Lemma Forall2_lookup_out {A B} (P : A -> B -> Prop) l k y : Forall2 P l k -> y ∈ k -> exists x, x ∈ l /\ P x y.
Proof.
  induction 1 as [|a b l k Hab _ IH]; intros Hy; [now apply elem_of_nil in Hy|].
  apply elem_of_cons in Hy as [->|Hy]; [exists a; split; [left|exact Hab]|].
  destruct (IH Hy) as (x & Hx & Hp). exists x. split; [now right|exact Hp].
Qed.

(** C35: orders are consistent with the other tables. For scale factors from 1 to 29999 and any
    seeds, [mk_order] succeeds; the order has one to seven lines, numbered from one, its
    customer is an existing one that may order, its total and status follow from its lines,
    its dates are days of the calendar in the right order ([order_wf]); and every line
    refers to a row of partsupp: generating the part with the line's part key yields the
    pair (part, supplier) of the line and the price the line was computed with. *)
Theorem order_lines_reference_partsupp
  (scale : Z) (base pool : Z -> Z) (o_prio instruct smode rflag colors types cntr : distribution)
  (index : Z) (s : streams) :
  1 <= scale < 30000 -> 1 <= base PART -> 1 <= base CUST ->
  Forall dist_ok [o_prio; instruct; smode; rflag; colors; types; cntr] -> d_count colors = 92 ->
  streams_ok s ->
  exists o s', mk_order scale base pool o_prio instruct smode rflag index 0 s = (Ok o, s') /\
    order_wf scale base index 0 o /\
    forall l t, l ∈ o_lines o -> streams_ok t ->
      exists p t' ps, mk_part scale base pool colors types cntr (l_partkey l) t = (Ok p, t') /\
        ps ∈ p_s p /\ ps_partkey ps = l_partkey l /\ ps_suppkey ps = l_suppkey l /\
        l_eprice l = p_retailprice p * l_quantity l.
Proof.
  intros Hsc Hp Hc Hd Hcol Hs. do 7 (apply Forall_cons_1 in Hd as [? Hd]).
  destruct (Draws_run order_streams _ _ _ s order_streams_ok Hs
              (mk_order_draws scale base pool o_prio instruct smode rflag Hsc Hp Hc H H0 H1 H2 index 0))
    as (o & s' & Eo & Hwf & _).
  exists o, s'. split; [exact Eo|]. split; [exact Hwf|]. intros l t Hl Ht.
  destruct Hwf as (_ & _ & _ & day & xs & _ & _ & _ & Hxs & Els & _). rewrite Els in Hl.
  apply list_elem_of_fmap in Hl as ([[l' price] shipped] & -> & Hx).
  destruct (Forall2_lookup_out _ _ _ _ Hxs Hx) as (k & _ & Hline). cbn [fst].
  destruct Hline as (_ & _ & _ & (j & Hj & Esk) & _ & _ & _ & Eep & _).
  destruct (Draws_run part_streams _ _ _ t part_streams_ok Ht
              (mk_part_draws scale base pool colors types cntr H3 Hcol H4 H5 (l_partkey l')))
    as (p & t' & Ep & (Epk & Erp & a & b & c & d & Eps & Ha & Hb & Hcc & Hdd) & _).
  assert (Hps : exists ps, ps ∈ p_s p /\ supplies scale base (l_partkey l') j ps).
  { rewrite Eps. assert (j = 0 \/ j = 1 \/ j = 2 \/ j = 3) as [->|[->|[->| ->]]] by lia;
      [exists a|exists b|exists c|exists d]; (split; [solve [repeat (left || right)]|assumption]). }
  destruct Hps as (ps & Hin & Ek & Es). exists p, t', ps. rewrite Es, Erp. auto.
Qed.

(** A distribution of 92 values. *)
Definition sample_dist : distribution := mkDist 92 (map (fun i => (i, [65])) (seqZ 1 92)).
Lemma sample_dist_ok : dist_ok sample_dist.
Proof. split; [reflexivity|]. exists 92, [65]. now repeat split. Qed.

Lemma order_lines_reference_partsupp_witness :
  let d := sample_dist in
  exists o s', mk_order 1 (fun _ => 150000) (fun _ => 97) d d d d 7 0 Seed = (Ok o, s') /\
    order_wf 1 (fun _ => 150000) 7 0 o /\
    forall l t, l ∈ o_lines o -> streams_ok t ->
      exists p t' ps, mk_part 1 (fun _ => 150000) (fun _ => 97) d d d (l_partkey l) t = (Ok p, t') /\
        ps ∈ p_s p /\ ps_partkey ps = l_partkey l /\ ps_suppkey ps = l_suppkey l /\
        l_eprice l = p_retailprice p * l_quantity l.
Proof.
  intros d. apply (order_lines_reference_partsupp 1 (fun _ => 150000) (fun _ => 97) d d d d d d d 7 Seed); try lia.
  - repeat (apply Forall_cons_2; [exact sample_dist_ok|]). apply Forall_nil_2.
  - reflexivity.
  - exact Seed_ok.
Defined.
