(* ===== verification/Print.v ===== *)
(** The flat-file output of the data generator: print.c, with [tbl_open] and [env_config] of
    bm_utils.c and the output macros of dss.h.

    A file is its contents, an open [FILE] the path it was opened with; every file the
    generator opens for writing is truncated. The static [FILE] pointers of the [pr_]
    routines are kept per table. *)
From Stdlib Require Import String.
From S2P Require Import Prelude Fmt Rng Calendar Build.

(** ** One field *)
Definition SEPARATOR : Z := 124.

Inductive data : Type :=
| DT_STR (s : bytes)
| DT_INT (n : Z)
| DT_HUGE (n : Z)
| DT_KEY (n : Z)
| DT_MONEY (n : Z)
| DT_CHR (c : Z).

(** The characters [dbg_print] writes. The amount is narrowed to an [int]. *)
Definition dbg_print (d : data) (sep : bool) : bytes :=
  (match d with
   | DT_STR s => s
   | DT_INT n => fmt_int n
   | DT_HUGE n => fmt_int n
   | DT_KEY n => fmt_int n
   | DT_MONEY n =>
       let cents := s32 n in
       let sign := if cents <? 0 then str "-" else [] in
       let cents := if cents <? 0 then - cents else cents in
       sign ++ fmt_int (Z.quot cents 100) ++ str "." ++ fmt_dec 2 (Z.rem cents 100)
   | DT_CHR c => [c]
   end) ++ (if sep then [SEPARATOR] else []).

(** A record: the fields in order, a separator after all but the last, and [PR_END]. *)
Fixpoint pr_fields (l : list data) : bytes :=
  match l with
  | [] => []
  | [d] => dbg_print d false
  | d :: rest => dbg_print d true ++ pr_fields rest
  end.
Definition pr_record (l : list data) : bytes := pr_fields l ++ [10].

(** ** Files *)
Record prints : Type := mkPrints {
  tnames : list bytes;
  files : gmap bytes bytes;
  fps : gmap Z bytes;
  last_mode : gmap Z Z;
  insert_orders_segment : Z;
  insert_lineitem_segment : Z;
  delete_segment : Z;
  dfp : option bytes;
  last_num : Z;
  rows_per_segment : Z;
  rows_this_segment : Z;
}.

Definition set_files_map (m : gmap bytes bytes) (p : prints) : prints :=
  mkPrints (tnames p) m (fps p) (last_mode p) (insert_orders_segment p) (insert_lineitem_segment p) (delete_segment p)
    (dfp p) (last_num p) (rows_per_segment p) (rows_this_segment p).
Definition set_fp (t : Z) (mode : Z) (fp : bytes) (p : prints) : prints :=
  mkPrints (tnames p) (files p) (<[t := fp]> (fps p)) (<[t := mode]> (last_mode p)) (insert_orders_segment p)
    (insert_lineitem_segment p) (delete_segment p) (dfp p) (last_num p) (rows_per_segment p) (rows_this_segment p).
Definition set_name (t : Z) (n : bytes) (p : prints) : prints :=
  mkPrints (<[Z.to_nat t := n]> (tnames p)) (files p) (fps p) (last_mode p) (insert_orders_segment p)
    (insert_lineitem_segment p) (delete_segment p) (dfp p) (last_num p) (rows_per_segment p) (rows_this_segment p).
Definition set_segments (o l d : Z) (p : prints) : prints :=
  mkPrints (tnames p) (files p) (fps p) (last_mode p) o l d (dfp p) (last_num p) (rows_per_segment p) (rows_this_segment p).
Definition set_drange (f : option bytes) (num per this : Z) (p : prints) : prints :=
  mkPrints (tnames p) (files p) (fps p) (last_mode p) (insert_orders_segment p) (insert_lineitem_segment p)
    (delete_segment p) f num per this.

Definition fopen (path : bytes) : M prints bytes :=
  do* modifyM (fun p => set_files_map (<[path := []]> (files p)) p) in retM path.
Definition fput (fp : bytes) (b : bytes) : M prints unit :=
  modifyM (fun p => set_files_map (<[fp := default [] (files p !! fp) ++ b]> (files p)) p).

Definition name_of (t : Z) (p : prints) : bytes := default [] (tnames p !! Z.to_nat t).

Definition PATH_SEP : Z := 47.

Section Output.
(** The environment, the options and the answers at the terminal. *)
Context (getenv : bytes -> option bytes) (yes_no : bytes -> bool).
Context (updates insert_segments delete_segments : Z) (force : bool).

Definition env_config (var dflt : bytes) : bytes := default dflt (getenv var).
Definition PATH_TAG : bytes := str "DSS_PATH".
Definition PATH_DFLT : bytes := str ".".

(** [tbl_open] for writing regular files; the program ends when an existing file must not be
    overwritten. *)
Definition tbl_open (tbl : Z) : M prints bytes :=
  let* p := getM in
  let name := name_of tbl p in
  let fullpath := match name with
                  | c :: _ => if c =? PATH_SEP then name else env_config PATH_TAG PATH_DFLT ++ PATH_SEP :: name
                  | [] => env_config PATH_TAG PATH_DFLT ++ PATH_SEP :: name
                  end in
  do* checkM (negb (bool_decide (is_Some (files p !! fullpath))) || force ||
              yes_no (str "Do you want to overwrite " ++ fullpath ++ str " ?")) in
  fopen fullpath.

Definition print_prep (table update : Z) : M prints bytes :=
  if updates =? 0 then tbl_open table
  else
    let* p := getM in
    let dir := env_config PATH_TAG PATH_DFLT ++ [PATH_SEP] in
    if 0 <? update then
      if negb (insert_segments =? 0) then
        let orders := bool_decide (name_of table p = str "orders.tbl") in
        let this_segment := if orders then insert_lineitem_segment p + 1 else insert_orders_segment p + 1 in
        do* modifyM (if orders then set_segments (insert_orders_segment p) this_segment (delete_segment p)
                     else set_segments this_segment (insert_lineitem_segment p) (delete_segment p)) in
        fopen (dir ++ name_of table p ++ str ".u" ++ fmt_int (Z.rem update 10000) ++ str "." ++ fmt_int this_segment)
      else fopen (dir ++ name_of table p ++ str ".u" ++ fmt_int update)
    else
      if negb (delete_segments =? 0) then
        do* modifyM (set_segments (insert_orders_segment p) (insert_lineitem_segment p) (delete_segment p + 1)) in
        fopen (dir ++ str "delete.u" ++ fmt_int (Z.rem (- update) 10000) ++ str "." ++ fmt_int (delete_segment p + 1))
      else fopen (dir ++ str "delete." ++ fmt_int (- update)).

(** The static [FILE] of a table, opened at first use. *)
Definition static_fp (t mode : Z) : M prints bytes :=
  let* p := getM in
  match fps p !! t with
  | Some fp => retM fp
  | None => let* fp := print_prep t mode in
            do* modifyM (set_fp t mode fp) in retM fp
  end.
(** ... and reopened when the mode changes. *)
Definition mode_fp (t mode : Z) : M prints bytes :=
  let* p := getM in
  match fps p !! t with
  | Some fp =>
      if mode =? default 0 (last_mode p !! t) then retM fp
      else let* fp := print_prep t mode in do* modifyM (set_fp t mode fp) in retM fp
  | None => let* fp := print_prep t mode in do* modifyM (set_fp t mode fp) in retM fp
  end.

(** ** The records of each table *)
Definition cust_fields (c : customer_t) : list data :=
  [DT_HUGE (c_custkey c); DT_STR (c_name c); DT_STR (c_address c); DT_HUGE (c_nation_code c); DT_STR (c_phone c);
   DT_MONEY (c_acctbal c); DT_STR (c_mktsegment c); DT_STR (c_comment c)].
Definition order_fields (o : order_t) : list data :=
  [DT_HUGE (o_okey o); DT_HUGE (o_custkey o); DT_CHR (o_orderstatus o); DT_MONEY (o_totalprice o); DT_STR (o_odate o);
   DT_STR (o_opriority o); DT_STR (o_clerk o); DT_INT (o_spriority o); DT_STR (o_comment o)].
Definition line_fields (l : line_t) : list data :=
  [DT_HUGE (l_okey l); DT_HUGE (l_partkey l); DT_HUGE (l_suppkey l); DT_HUGE (l_lcnt l); DT_HUGE (l_quantity l);
   DT_MONEY (l_eprice l); DT_MONEY (l_discount l); DT_MONEY (l_tax l); DT_CHR (l_rflag l); DT_CHR (l_lstatus l);
   DT_STR (l_sdate l); DT_STR (l_cdate l); DT_STR (l_rdate l); DT_STR (l_shipinstruct l); DT_STR (l_shipmode l);
   DT_STR (l_comment l)].
Definition part_fields (p : part_t) : list data :=
  [DT_HUGE (p_partkey p); DT_STR (p_name p); DT_STR (p_mfgr p); DT_STR (p_brand p); DT_STR (p_type p);
   DT_HUGE (p_size p); DT_STR (p_container p); DT_MONEY (p_retailprice p); DT_STR (p_comment p)].
Definition psupp_fields (x : partsupp_t) : list data :=
  [DT_HUGE (ps_partkey x); DT_HUGE (ps_suppkey x); DT_HUGE (ps_qty x); DT_MONEY (ps_scost x); DT_STR (ps_comment x)].
Definition supp_fields (s : supplier_t) : list data :=
  [DT_HUGE (s_suppkey s); DT_STR (s_name s); DT_STR (s_address s); DT_HUGE (s_nation_code s); DT_STR (s_phone s);
   DT_MONEY (s_acctbal s); DT_STR (s_comment s)].
Definition nation_fields (c : code_t) : list data :=
  [DT_HUGE (n_code c); DT_STR (n_text c); DT_INT (n_join c); DT_STR (n_comment c)].
Definition region_fields (c : code_t) : list data :=
  [DT_HUGE (n_code c); DT_STR (n_text c); DT_STR (n_comment c)].

Definition pr_cust (c : customer_t) (mode : Z) : M prints unit :=
  let* fp := static_fp CUST 0 in fput fp (pr_record (cust_fields c)).
Definition pr_order (o : order_t) (mode : Z) : M prints unit :=
  let* fp := mode_fp ORDER mode in fput fp (pr_record (order_fields o)).
Definition pr_line (o : order_t) (mode : Z) : M prints unit :=
  let* fp := mode_fp LINE mode in iterM (o_lines o) (fun l => fput fp (pr_record (line_fields l))).
Definition pr_order_line (o : order_t) (mode : Z) : M prints unit :=
  do* modifyM (fun p => set_name ORDER (name_of ORDER_LINE p) p) in
  do* pr_order o mode in
  pr_line o mode.
Definition pr_part (p : part_t) (mode : Z) : M prints unit :=
  let* fp := static_fp PART 0 in fput fp (pr_record (part_fields p)).
Definition pr_psupp (p : part_t) (mode : Z) : M prints unit :=
  let* fp := static_fp PSUPP mode in iterM (p_s p) (fun x => fput fp (pr_record (psupp_fields x))).
Definition pr_part_psupp (p : part_t) (mode : Z) : M prints unit :=
  do* modifyM (fun st => set_name PART (name_of PART_PSUPP st) st) in
  do* pr_part p mode in
  pr_psupp p mode.
Definition pr_supp (s : supplier_t) (mode : Z) : M prints unit :=
  let* fp := static_fp SUPP mode in fput fp (pr_record (supp_fields s)).
Definition pr_nation (c : code_t) (mode : Z) : M prints unit :=
  let* fp := static_fp NATION mode in fput fp (pr_record (nation_fields c)).
Definition pr_region (c : code_t) (mode : Z) : M prints unit :=
  let* fp := static_fp REGION mode in fput fp (pr_record (region_fields c)).

(** [pr_drange]: the keys an update set deletes, [cnt] rows still to go. *)
Fixpoint drange_loop (n : nat) (tbl child cnt num : Z) : M prints unit :=
  match n with
  | O => retM tt
  | S n' =>
      do* (if delete_segments =? 0 then retM tt
           else
             let* p := getM in
             let per := if rows_per_segment p =? 0 then Z.quot cnt delete_segments + 1 else rows_per_segment p in
             let this := rows_this_segment p + 1 in
             if per <? this then
               let* fp := print_prep tbl (- num) in modifyM (set_drange (Some fp) num per 1)
             else modifyM (set_drange (dfp p) (last_num p) per this)) in
      let* p := getM in
      do* match dfp p with
          | Some fp => fput fp (dbg_print (DT_HUGE (MK_SPARSE child (Z.quot num (Z.quot 10000 UPD_PCT)))) true ++ [10])
          | None => failM Undefined
          end in
      drange_loop n' tbl (child + 1) (cnt - 1) num
  end.
Definition pr_drange (tbl min cnt num : Z) : M prints unit :=
  let* p := getM in
  do* (if last_num p =? num then retM tt
       else let* fp := print_prep tbl (- num) in
            modifyM (fun p => set_drange (Some fp) num (rows_per_segment p) 0 p)) in
  drange_loop (Z.to_nat cnt) tbl min cnt num.
End Output.

(** ** Reading a table back *)

Inductive column : Type := CStr | CInt | CHuge | CKey | CMoney | CChr.
Definition column_of (d : data) : column :=
  match d with
  | DT_STR _ => CStr
  | DT_INT _ => CInt
  | DT_HUGE _ => CHuge
  | DT_KEY _ => CKey
  | DT_MONEY _ => CMoney
  | DT_CHR _ => CChr
  end.

(** Cut at every [c]; one piece more than there are cuts. *)
Fixpoint split_on (c : Z) (l : bytes) : list bytes :=
  match l with
  | [] => [[]]
  | x :: l' =>
      if x =? c then [] :: split_on c l'
      else match split_on c l' with
           | [] => [[x]]
           | w :: ws => (x :: w) :: ws
           end
  end.

(** Dollars and cents. *)
Definition parse_money (l : bytes) : option Z :=
  let '(neg, l) := match l with
                   | c :: l' => if c =? 45 then (true, l') else (false, l)
                   | [] => (false, l)
                   end in
  match split_on 46 l with
  | [d; c] =>
      match parse_int d, parse_int c with
      | Some dollars, Some cents => Some ((if neg : bool then -1 else 1) * (100 * dollars + cents))
      | _, _ => None
      end
  | _ => None
  end.

Definition read_as (t : column) (b : bytes) : option data :=
  match t with
  | CStr => Some (DT_STR b)
  | CInt => DT_INT <$> parse_int b
  | CHuge => DT_HUGE <$> parse_int b
  | CKey => DT_KEY <$> parse_int b
  | CMoney => DT_MONEY <$> parse_money b
  | CChr => match b with [c] => Some (DT_CHR c) | _ => None end
  end.

Fixpoint read_record (shape : list column) (l : list bytes) : option (list data) :=
  match shape, l with
  | [], [] => Some []
  | t :: shape', b :: l' =>
      match read_as t b, read_record shape' l' with
      | Some d, Some ds => Some (d :: ds)
      | _, _ => None
      end
  | _, _ => None
  end.

Fixpoint read_records (shape : list column) (l : list bytes) : option (list (list data)) :=
  match l with
  | [] => None
  | [b] => match b with [] => Some [] | _ => None end
  | b :: l' =>
      match read_record shape (split_on SEPARATOR b), read_records shape l' with
      | Some r, Some rs => Some (r :: rs)
      | _, _ => None
      end
  end.
Definition read_table (shape : list column) (file : bytes) : option (list (list data)) :=
  read_records shape (split_on 10 file).

(** Text that a reader cannot mistake for a separator; amounts that fit an [int]. *)
Definition clean (d : data) : Prop :=
  match d with
  | DT_STR s => SEPARATOR ∉ s /\ 10 ∉ s
  | DT_INT n | DT_HUGE n | DT_KEY n => in_s64 n
  | DT_MONEY n => - 2 ^ 31 < n < 2 ^ 31
  | DT_CHR c => c <> SEPARATOR /\ c <> 10
  end.

Lemma split_on_none c l : c ∉ l -> split_on c l = [l].
Proof.
  induction l as [|x l IH]; intros H; [reflexivity|]. apply not_elem_of_cons in H as [Hx Hl]. cbn.
  rewrite (proj2 (Z.eqb_neq x c)) by auto. now rewrite IH.
Qed.

Lemma split_on_cut c l r : c ∉ l -> split_on c (l ++ c :: r) = l :: split_on c r.
Proof.
  induction l as [|x l IH]; intros H; cbn.
  - now rewrite Z.eqb_refl.
  - apply not_elem_of_cons in H as [Hx Hl]. rewrite (proj2 (Z.eqb_neq x c)) by auto. now rewrite IH.
Qed.

(** The text of an amount, and what it reads as. *)
Definition money_text (cents : Z) : bytes := fmt_int (Z.quot cents 100) ++ str "." ++ fmt_dec 2 (Z.rem cents 100).

Lemma parse_money_text neg cents : 0 <= cents < 2 ^ 31 ->
  parse_money ((if neg : bool then str "-" else []) ++ money_text cents) = Some (if neg then - cents else cents).
Proof.
  intros Hc. unfold money_text. rewrite Z.quot_div_nonneg, Z.rem_mod_nonneg by lia.
  assert (Hq : 0 <= cents / 100 < 2 ^ 31) by (split; [apply Z.div_pos|apply Z.div_lt_upper_bound]; lia).
  assert (Hr : 0 <= cents mod 100 < 100) by (apply Z.mod_pos_bound; lia).
  pose proof (Z.div_mod cents 100 ltac:(lia)) as Hdm.
  assert (Hno : forall w n, 0 <= n < 2 ^ 31 -> 46 ∉ fmt_dec w n).
  { intros w n Hn Hin. apply fmt_dec_chars in Hin; unfold in_s64; lia. }
  assert (Hsplit : split_on 46 (fmt_int (cents / 100) ++ str "." ++ fmt_dec 2 (cents mod 100)) =
                   [fmt_int (cents / 100); fmt_dec 2 (cents mod 100)]).
  { change (str ".") with [46]. cbn [app]. rewrite split_on_cut by now apply Hno.
    rewrite split_on_none by (apply Hno; lia). reflexivity. }
  destruct neg.
  - change (str "-") with [45]. cbn [app]. unfold parse_money. change (45 =? 45) with true. cbv iota beta.
    rewrite Hsplit. unfold fmt_int. rewrite !parse_fmt_dec by lia. f_equal. lia.
  - rewrite app_nil_l. destruct (fmt_dec_nonneg 0 (cents / 100)) as (x & l & E & Hx); [lia|].
    unfold parse_money. change fmt_int with (fmt_dec 0) in *. rewrite E in *. cbn [app] in *.
    rewrite (proj2 (Z.eqb_neq x 45) Hx), Hsplit, <- E, !parse_fmt_dec by lia. f_equal. lia.
Qed.

Lemma money_text_chars cents c : 0 <= cents < 2 ^ 31 -> c ∈ money_text cents -> c = 45 \/ c = 46 \/ 48 <= c <= 57.
Proof.
  intros Hc. unfold money_text. rewrite Z.quot_div_nonneg, Z.rem_mod_nonneg by lia.
  assert (0 <= cents / 100 < 2 ^ 31) by (split; [apply Z.div_pos|apply Z.div_lt_upper_bound]; lia).
  pose proof (Z.mod_pos_bound cents 100). rewrite !elem_of_app. intros [H'|[H'|H']].
  - apply fmt_dec_chars in H'; [lia|unfold in_s64; lia].
  - change (str ".") with [46] in H'. apply list_elem_of_singleton in H'. auto.
  - apply fmt_dec_chars in H'; [lia|unfold in_s64; lia].
Qed.

Lemma dbg_print_money n : - 2 ^ 31 < n < 2 ^ 31 ->
  dbg_print (DT_MONEY n) false = (if n <? 0 then str "-" else []) ++ money_text (Z.abs n).
Proof.
  intros Hn. unfold dbg_print. rewrite s32_small by (unfold in_s32; lia). rewrite app_nil_r.
  unfold money_text. destruct (Z.ltb_spec n 0); [rewrite Z.abs_neq by lia|rewrite Z.abs_eq by lia]; reflexivity.
Qed.

Lemma field_clean d c : clean d -> c = SEPARATOR \/ c = 10 -> c ∉ dbg_print d false.
Proof.
  unfold SEPARATOR. intros Hd Hc.
  assert (Hnum : forall n, in_s64 n -> c ∉ fmt_int n ++ []).
  { intros n Hn Hin. rewrite app_nil_r in Hin. apply fmt_dec_chars in Hin; [lia|exact Hn]. }
  destruct d as [s|n|n|n|n|x]; cbn [clean] in Hd; [|exact (Hnum n Hd)|exact (Hnum n Hd)|exact (Hnum n Hd)| |].
  - unfold dbg_print. rewrite app_nil_r. unfold SEPARATOR in Hd. destruct Hc as [-> | ->]; apply Hd.
  - rewrite dbg_print_money by exact Hd. intros Hin. apply elem_of_app in Hin as [Hin|Hin].
    + destruct (n <? 0); [|now apply elem_of_nil in Hin]. change (str "-") with [45] in Hin.
      apply list_elem_of_singleton in Hin. lia.
    + apply money_text_chars in Hin; lia.
  - unfold dbg_print. rewrite app_nil_r. intros Hin. apply list_elem_of_singleton in Hin. unfold SEPARATOR in Hd. lia.
Qed.

Lemma field_reads d : clean d -> read_as (column_of d) (dbg_print d false) = Some d.
Proof.
  assert (Hnum : forall n, in_s64 n -> parse_int (fmt_int n ++ []) = Some n).
  { intros n Hn. rewrite app_nil_r. apply parse_fmt_dec. unfold in_s64 in Hn. lia. }
  intros Hd. destruct d as [s|n|n|n|n|x]; cbn [clean] in Hd; cbn [column_of read_as];
    [|unfold dbg_print; rewrite (Hnum n Hd); reflexivity|unfold dbg_print; rewrite (Hnum n Hd); reflexivity
     |unfold dbg_print; rewrite (Hnum n Hd); reflexivity| |].
  - unfold dbg_print. now rewrite app_nil_r.
  - rewrite dbg_print_money by exact Hd. rewrite parse_money_text by lia. cbn. do 2 f_equal. destruct (Z.ltb_spec n 0); lia.
  - reflexivity.
Qed.

Lemma pr_fields_split l : l <> [] -> Forall clean l -> split_on SEPARATOR (pr_fields l) = map (fun d => dbg_print d false) l.
Proof.
  induction l as [|d l IH]; intros Hne Hcl; [easy|]. apply Forall_cons_1 in Hcl as [Hd Hl].
  pose proof (field_clean d SEPARATOR Hd ltac:(auto)) as Hs. destruct l as [|d' l].
  - cbn [pr_fields map]. now apply split_on_none.
  - change (pr_fields (d :: d' :: l)) with (dbg_print d true ++ pr_fields (d' :: l)).
    assert (E : dbg_print d true = dbg_print d false ++ [SEPARATOR]) by (unfold dbg_print; now rewrite app_nil_r).
    rewrite E, <- app_assoc. cbn [app]. rewrite split_on_cut by exact Hs. rewrite IH by easy. reflexivity.
Qed.

Lemma pr_fields_one_line l : Forall clean l -> 10 ∉ pr_fields l.
Proof.
  induction l as [|d l IH]; intros Hcl; [apply not_elem_of_nil|]. apply Forall_cons_1 in Hcl as [Hd Hl].
  pose proof (field_clean d 10 Hd ltac:(auto)) as Hs. destruct l as [|d' l]; [exact Hs|].
  change (pr_fields (d :: d' :: l)) with (dbg_print d true ++ pr_fields (d' :: l)).
  assert (E : dbg_print d true = dbg_print d false ++ [SEPARATOR]) by (unfold dbg_print; now rewrite app_nil_r).
  rewrite E, !elem_of_app. intros [[H|H]|H]; [auto| |now apply (IH Hl)].
  apply list_elem_of_singleton in H. discriminate H.
Qed.

Lemma read_record_fields l : Forall clean l -> read_record (map column_of l) (map (fun d => dbg_print d false) l) = Some l.
Proof.
  induction l as [|d l IH]; intros Hcl; [reflexivity|]. apply Forall_cons_1 in Hcl as [Hd Hl].
  cbn [map read_record]. now rewrite field_reads, IH.
Qed.

(** C36: a table file can be read back: for rows of one shape whose texts contain neither the
    separator nor a line end, splitting the written file into lines and fields and reading
    each field at its column's type gives exactly the rows that were printed, negative
    amounts and single-digit cents included. *)
Theorem table_reads_back (shape : list column) (rows : list (list data)) :
  shape <> [] -> Forall (fun r => map column_of r = shape /\ Forall clean r) rows ->
  read_table shape (concat (map pr_record rows)) = Some rows.
Proof.
  intros Hne. unfold read_table. induction rows as [|r rows IH]; intros Hrows; [reflexivity|].
  apply Forall_cons_1 in Hrows as [[Hr Hcl] Hrows]. specialize (IH Hrows). cbn [map concat].
  unfold pr_record at 1. rewrite <- app_assoc. cbn [app].
  rewrite split_on_cut by now apply pr_fields_one_line.
  destruct (split_on 10 (concat (map pr_record rows))) as [|b l] eqn:E; [discriminate IH|].
  cbn [read_records]. rewrite pr_fields_split; [|intros ->; now subst shape|exact Hcl].
  rewrite <- Hr, read_record_fields, Hr by exact Hcl. cbn [read_records] in IH. now rewrite IH.
Qed.

Lemma table_reads_back_witness :
  let r := psupp_fields (mkPsupp 81 7502 (-3) (-105) (str "final, ironic")) in
  read_table [CHuge; CHuge; CHuge; CMoney; CStr] (concat (map pr_record [r; r])) = Some [r; r].
Proof.
  intros r. apply (table_reads_back [CHuge; CHuge; CHuge; CMoney; CStr] [r; r]); [discriminate|].
  assert (H : map column_of r = [CHuge; CHuge; CHuge; CMoney; CStr] /\ Forall clean r).
  { split; [reflexivity|]. unfold r, psupp_fields, ps_partkey, ps_suppkey, ps_qty, ps_scost, ps_comment.
    repeat apply Forall_cons_2; try apply Forall_nil_2; cbn [clean]; unfold in_s64; try lia.
    split; vm_compute; intros Hin; repeat (apply elem_of_cons in Hin as [Hin|Hin]; [discriminate Hin|]);
      now apply elem_of_nil in Hin. }
  repeat (apply Forall_cons_2; [exact H|]). apply Forall_nil_2.
Defined.
