(* ===== verification/Driver.v ===== *)
(** The data generator's driver (src/benchmark/tpch/dbgen): driver.c, with [set_state] of
    bm_utils.c. The options, the table descriptions, the generation of a table, of the n-th
    chunk of a table and of update sets, and the main program, over the random streams of
    Rng.v, the row builders of Build.v and the output of Print.v. *)
From Stdlib Require Import String.
From S2P Require Import Prelude Fmt Rng Calendar Build Rows Print.

(** ** Table descriptions and options *)

(** [tdefs], column by column; the loader and the seed function of a table are given by
    [load_rows] and [gen_seed], the child by [child_of]. *)
Definition tdefs_name : list bytes :=
  [str "part.tbl"; str "partsupp.tbl"; str "supplier.tbl"; str "customer.tbl"; str "orders.tbl";
   str "lineitem.tbl"; str "orders.tbl"; str "part.tbl"; str "nation.tbl"; str "region.tbl"].
Definition tdefs_base : list Z :=
  [200000; 200000; 10000; 150000; 150000; 150000; 150000; 200000; NATIONS_MAX; NATIONS_MAX].
Definition ORDERS_PER_CUST : Z := 10.
Definition MIN_SCALE : Z := 1.
Definition MAX_SCALE : Z := 100000.

(** The globals the options set. *)
Record options : Type := mkOptions {
  op_table : Z;
  op_force : bool;
  op_insert_segments : Z;
  op_delete_segments : Z;
  op_verbose : Z;
  op_set_seeds : bool;
  op_scale : Z;
  op_updates : Z;
  op_step : Z;
  op_children : Z;
  op_bTableSet : bool;
  op_base : list Z;
  op_dists : bytes;
}.

(** What [getopt] delivers. The argument of [-s] is a decimal fraction. *)
Inductive option_arg : Type :=
| Opt_b (path : bytes)
| Opt_C (n : Z)
| Opt_d (n : Z)
| Opt_f
| Opt_i (n : Z)
| Opt_q
| Opt_s (num den : Z)
| Opt_S (n : Z)
| Opt_U (n : Z)
| Opt_v
| Opt_T (c : Z)
| Opt_O (c : Z)
| Opt_h
| Opt_unknown.

Definition table_bits (l : list Z) : Z := fold_left (fun acc t => Z.lor acc (Z.shiftl 1 t)) l 0.

(** The letters of [-T]. *)
Definition table_letter (c : Z) : option (list Z) :=
  if c =? 99 then Some [CUST]
  else if c =? 76 then Some [LINE]
  else if c =? 108 then Some [NATION; REGION]
  else if c =? 110 then Some [NATION]
  else if c =? 79 then Some [ORDER]
  else if c =? 111 then Some [ORDER_LINE]
  else if c =? 80 then Some [PART]
  else if c =? 112 then Some [PART_PSUPP]
  else if c =? 114 then Some [REGION]
  else if c =? 83 then Some [PSUPP]
  else if c =? 115 then Some [SUPP]
  else None.

(** The scale factor: below one, the base row counts shrink instead. [atof] rounds to the
    nearest double, and so does the product with 1000. *)
Definition set_scale (num den : Z) (o : options) : options :=
  let '(fn, fd) := b64 num den in
  if fn <? MIN_SCALE * fd then
    let '(xn, xd) := b64 (1000 * fn) fd in
    let int_scale := Z.quot xn xd in
    let shrink i b := if (i <? REGION) then Z.max (Z.quot (int_scale * b) 1000) 1 else b in
    mkOptions (op_table o) (op_force o) (op_insert_segments o) (op_delete_segments o) (op_verbose o) (op_set_seeds o)
      1 (op_updates o) (op_step o) (op_children o) (op_bTableSet o)
      (imap (fun i b => shrink (Z.of_nat i) b) (op_base o)) (op_dists o)
  else
    mkOptions (op_table o) (op_force o) (op_insert_segments o) (op_delete_segments o) (op_verbose o) (op_set_seeds o)
      (Z.quot fn fd) (op_updates o) (op_step o) (op_children o) (op_bTableSet o) (op_base o) (op_dists o).

(** One option; [None] ends the program. [readable] tells which files can be opened. *)
Definition process_option (readable : bytes -> bool) (o : options) (a : option_arg) : option options :=
  let 'mkOptions table force ins del verbose seeds scale updates step children set base dists := o in
  match a with
  | Opt_b path => if readable path then Some (mkOptions table force ins del verbose seeds scale updates step children set base path) else None
  | Opt_C n => Some (mkOptions table force ins del verbose seeds scale updates step n set base dists)
  | Opt_d n => Some (mkOptions table force ins n verbose seeds scale updates step children set base dists)
  | Opt_f => Some (mkOptions table true ins del verbose seeds scale updates step children set base dists)
  | Opt_i n => Some (mkOptions table force n del verbose seeds scale updates step children set base dists)
  | Opt_q => Some (mkOptions table force ins del (-1) seeds scale updates step children set base dists)
  | Opt_s num den => Some (set_scale num den o)
  | Opt_S n => Some (mkOptions table force ins del verbose seeds scale updates n children set base dists)
  | Opt_U n => Some (mkOptions table force ins del verbose seeds scale n step children set base dists)
  | Opt_v => Some (mkOptions table force ins del 1 seeds scale updates step children set base dists)
  | Opt_T c => match table_letter c with
               | Some l => Some (mkOptions (table_bits l) force ins del verbose seeds scale updates step children true base dists)
               | None => None
               end
  | Opt_O c => if (c =? 115) || (c =? 83) then Some (mkOptions table force ins del verbose true scale updates step children set base dists) else None
  | Opt_h => None
  | Opt_unknown => None
  end.
Fixpoint process_options (readable : bytes -> bool) (o : options) (l : list option_arg) : option options :=
  match l with
  | [] => Some o
  | a :: l' => match process_option readable o a with
               | Some o' => process_options readable o' l'
               | None => None
               end
  end.

Definition validate_options (o : options) : bool :=
  (if negb (op_children o =? 1) then (op_updates o =? 0) && negb (op_step o =? -1) else true) &&
  (if op_updates o =? 0 then (op_insert_segments o =? 0) && (op_delete_segments o =? 0) else true) &&
  (if negb (op_step o =? -1) then negb ((op_children o =? 1) && (op_updates o =? 0)) else true) &&
  negb (op_bTableSet o && negb (op_updates o =? 0)).

(** The values [main] starts with. *)
Definition default_options : options :=
  mkOptions (table_bits [CUST; SUPP; NATION; REGION; PART_PSUPP; ORDER_LINE]) false 0 0 0 false 1 0 (-1) 1 false
    (imap (fun i b => if (Z.of_nat i =? ORDER) || (Z.of_nat i =? LINE) || (Z.of_nat i =? ORDER_LINE)
                      then b * ORDERS_PER_CUST else b) tdefs_base) [].

(** ** State *)
Record gstate : Type := mkG {
  seeds : streams;
  prn : prints;
}.
Definition on_seeds {A : Type} (m : M streams A) : M gstate A :=
  zoomM seeds (fun s g => mkG s (prn g)) m.
Definition on_prints {A : Type} (m : M prints A) : M gstate A :=
  zoomM prn (fun p g => mkG (seeds g) p) m.

(** [set_files]: the file of a table and of its child get the chunk number as suffix; without a
    number the name is asked for ([line] is what was typed). The child of a child is [NONE]
    in [tdefs] already. *)
Definition rename (t : Z) (pload : Z) (line : option bytes) (p : prints) : option prints :=
  if negb (pload =? -1) then Some (set_name t (name_of t p ++ str "." ++ fmt_int pload) p)
  else match line with
       | Some (c :: l) => Some (set_name t (c :: l) p)
       | _ => None
       end.
Definition set_files (table t pload : Z) (line : option bytes) (p : prints) : prints :=
  if Z.testbit table t then
    match rename t pload line p with
    | None => p
    | Some p1 =>
        if child_of t =? NONE then p1
        else match rename (child_of t) pload line p1 with Some p2 => p2 | None => p1 end
    end
  else p.

(** ** Seeking *)

(** The [gen_seed] column of [tdefs]; the code tables have none. *)
Definition gen_seed (t child skip_count : Z) : M streams unit :=
  if (t =? PART) || (t =? PART_PSUPP) then modifyM (sd_part child skip_count)
  else if t =? PSUPP then modifyM (sd_psupp child skip_count)
  else if t =? SUPP then modifyM (sd_supp child skip_count)
  else if t =? CUST then modifyM (sd_cust child skip_count)
  else if (t =? ORDER) || (t =? ORDER_LINE) then modifyM (sd_order child skip_count)
  else if t =? LINE then modifyM (sd_line child skip_count)
  else failM Undefined.

(** One round of the loop of [set_state]. *)
Definition seek_chunk (t rowcount : Z) : M streams unit :=
  do* gen_seed t (if t =? LINE then 1 else 0) rowcount in
  if child_of t =? NONE then retM tt else gen_seed (child_of t) 0 rowcount.

(** [set_state] returns the rows per chunk and the rows left over. *)
Definition set_state (base : list Z) (t sf procs step : Z) : M streams (Z * Z) :=
  if (sf =? 0) || (step =? 0) then retM (0, 0)
  else
    let rowcount := default 0 (base !! Z.to_nat t) * sf in
    let extra := Z.rem rowcount procs in
    let rowcount := Z.quot rowcount procs in
    do* iterM (seqZ 0 (step - 1)) (fun _ => seek_chunk t rowcount) in
    do* (if procs <? step then gen_seed t 0 extra else retM tt) in
    retM (rowcount, extra).

(** ** Generation *)

(** The distributions [load_dists] reads. *)
Record dists : Type := mkDists {
  d_nations : distribution;
  d_regions : distribution;
  d_o_prio : distribution;
  d_instruct : distribution;
  d_smode : distribution;
  d_rflag : distribution;
  d_mseg : distribution;
  d_colors : distribution;
  d_types : distribution;
  d_cntr : distribution;
}.

Section Generation.
Context (getenv : bytes -> option bytes) (yes_no : bytes -> bool) (pool : Z -> Z) (ds : dists) (op : options).

Definition base_rows (t : Z) : Z := default 0 (op_base op !! Z.to_nat t).

Definition make_order : Z -> Z -> M streams order_t :=
  mk_order (op_scale op) base_rows pool (d_o_prio ds) (d_instruct ds) (d_smode ds) (d_rflag ds).
Definition make_part : Z -> M streams part_t :=
  mk_part (op_scale op) base_rows pool (d_colors ds) (d_types ds) (d_cntr ds).
Definition make_supp : Z -> M streams supplier_t := mk_supp pool (d_nations ds).
Definition make_cust : Z -> M streams customer_t := mk_cust pool (d_nations ds) (d_mseg ds).

Definition output {A : Type} (pr : (bytes -> option bytes) -> (bytes -> bool) -> Z -> Z -> Z -> bool -> A -> Z -> M prints unit)
  (a : A) (mode : Z) : M gstate unit :=
  if op_set_seeds op then retM tt
  else on_prints (pr getenv yes_no (op_updates op) (op_insert_segments op) (op_delete_segments op) (op_force op) a mode).

(** The segment an order of an update set goes to: the counter and the update number, with the
    segment in its ten-thousands. *)
Definition next_segment (upd_num per residual this : Z) : Z * Z :=
  if negb (op_insert_segments op =? 0) && (0 <? upd_num) then
    if Z.quot upd_num 10000 <? residual then
      if per <? this + 1 then (upd_num + 10000, 0) else (upd_num, this + 1)
    else
      if per <=? this + 1 then (upd_num + 10000, 0) else (upd_num, this + 1)
  else (upd_num, this).

(** The [switch] of [gen_tbl], with the update number and segment counter after it. *)
Definition gen_switch (tnum i upd_num per residual this : Z) : M gstate (Z * Z) :=
  if (tnum =? LINE) || (tnum =? ORDER) || (tnum =? ORDER_LINE) then
    let* o := on_seeds (make_order i (Z.rem upd_num 10000)) in
    let '(upd_num, this) := next_segment upd_num per residual this in
    do* (if tnum =? LINE then output pr_line o upd_num
         else if tnum =? ORDER then output pr_order o upd_num
         else output pr_order_line o upd_num) in
    retM (upd_num, this)
  else if tnum =? SUPP then
    let* supp := on_seeds (make_supp i) in do* output pr_supp supp upd_num in retM (upd_num, this)
  else if tnum =? CUST then
    let* cust := on_seeds (make_cust i) in do* output pr_cust cust upd_num in retM (upd_num, this)
  else if (tnum =? PSUPP) || (tnum =? PART) || (tnum =? PART_PSUPP) then
    let* part := on_seeds (make_part i) in
    do* (if tnum =? PSUPP then output pr_psupp part upd_num
         else if tnum =? PART then output pr_part part upd_num
         else output pr_part_psupp part upd_num) in
    retM (upd_num, this)
  else if tnum =? NATION then
    let* code := on_seeds (mk_nation pool (d_nations ds) i) in do* output pr_nation code 0 in retM (upd_num, this)
  else if tnum =? REGION then
    let* code := on_seeds (mk_region pool (d_regions ds) i) in do* output pr_region code 0 in retM (upd_num, this)
  else retM (upd_num, this).

Fixpoint gen_loop (n : nat) (tnum i upd_num per residual this : Z) : M gstate unit :=
  match n with
  | O => retM tt
  | S n' =>
      do* on_seeds (modifyM row_start) in
      let* '(upd_num, this) := gen_switch tnum i upd_num per residual this in
      do* on_seeds (modifyM (row_stop (op_set_seeds op) tnum)) in
      gen_loop n' tnum (i + 1) upd_num per residual this
  end.
Definition gen_tbl (tnum start count upd_num : Z) : M gstate unit :=
  let per := if op_insert_segments op =? 0 then 0 else Z.quot count (op_insert_segments op) in
  let residual := if op_insert_segments op =? 0 then 0 else count - per * op_insert_segments op in
  gen_loop (Z.to_nat count) tnum start upd_num per residual (-1).

(** The [s]-th chunk of a table. *)
Definition partial (tbl s : Z) : M gstate unit :=
  do* on_prints (modifyM (set_files (op_table op) tbl s None)) in
  let* '(rowcnt, extra) := on_seeds (set_state (op_base op) tbl (op_scale op) (op_children op) s) in
  gen_tbl tbl (rowcnt * (s - 1) + 1) (if s =? op_children op then rowcnt + extra else rowcnt) 0.

(** Update sets: the new orders continue after the initial rows. *)
Definition update_set (rowcnt upd_num : Z) : M gstate unit :=
  do* on_prints (modifyM (set_segments 0 0 0)) in
  let minrow := upd_num * rowcnt + 1 in
  do* gen_tbl ORDER_LINE minrow rowcnt (upd_num + 1) in
  on_prints (pr_drange getenv yes_no (op_updates op) (op_insert_segments op) (op_delete_segments op) (op_force op)
               ORDER_LINE minrow rowcnt (upd_num + 1)).
Definition gen_updates : M gstate unit :=
  do* on_seeds (set_state (op_base op) ORDER (op_scale op) 100 101) in
  let rowcnt := s32 (Z.quot (base_rows ORDER_LINE) 10000 * op_scale op * UPD_PCT) in
  do* (if 0 <? op_step op then
         on_seeds (iterM (seqZ 1 (op_step op - 1))
                     (fun _ => do* modifyM (sd_order 0 rowcnt) in modifyM (sd_line 0 rowcnt)))
       else retM tt) in
  let first := if 0 <? op_step op then op_step op - 1 else 0 in
  iterM (seqZ first (op_updates op - first)) (update_set rowcnt).

(** The tables selected, in the order of [tdefs]. *)
Definition gen_tables : M gstate unit :=
  iterM (seqZ PART (REGION + 1)) (fun i =>
    if Z.testbit (op_table op) i then
      if (1 <? op_children op) && (i <? NATION) then partial i (op_step op)
      else gen_tbl i 1 (if i <? NATION then base_rows i * op_scale op else base_rows i) 0
    else retM tt).
End Generation.

(** The row counts of the code tables are those of their distributions. *)
Definition set_code_bases (ds : dists) (op : options) : options :=
  let base := <[Z.to_nat REGION := d_count (d_regions ds)]> (<[Z.to_nat NATION := d_count (d_nations ds)]> (op_base op)) in
  mkOptions (op_table op) (op_force op) (op_insert_segments op) (op_delete_segments op) (op_verbose op) (op_set_seeds op)
    (op_scale op) (op_updates op) (op_step op) (op_children op) (op_bTableSet op) base (op_dists op).

(** [main], after the distributions are read. *)
Definition main (getenv : bytes -> option bytes) (yes_no readable : bytes -> bool) (pool : Z -> Z)
  (load_dists : bytes -> dists) (args : list option_arg) : M gstate unit :=
  match process_options readable default_options args with
  | None => failM Fatal
  | Some op =>
      do* checkM (validate_options op) in
      let ds := load_dists (op_dists op) in
      let op := set_code_bases ds op in
      if op_updates op =? 0 then gen_tables getenv yes_no pool ds op
      else gen_updates getenv yes_no pool ds op
  end.
