(* ===== verification/Chunks.v ===== *)
(** Generating a table in chunks: every process of a parallel load seeks the random streams to
    the first row of its chunk ([set_state]) and generates its rows. The files of the chunks,
    one after the other, are the file a single process writes. *)
From Stdlib Require Import String.
From S2P Require Import Prelude Fmt Rng Calendar Build Rows Print Driver.

(** ** Sequences of steps *)

Lemma iterM_run {S A} (f : A -> M S unit) l : forall s,
  (forall a s, a ∈ l -> exists s', f a s = (Ok tt, s')) -> exists s', iterM l f s = (Ok tt, s').
Proof.
  induction l as [|a l IH]; intros s Hf; cbn [iterM]; [eexists; reflexivity|].
  destruct (Hf a s ltac:(left)) as (s1 & E). rewrite (bindM_run _ _ _ _ _ E).
  apply IH. intros b s' Hb. apply Hf. now right.
Qed.

(** ** Rows of a chunk *)

Section Rows.
Context {A : Type} (R : list Z) (t : Z) (mk : Z -> M streams A) (post : Z -> A -> Prop).
Context (HR : streams_of_table R).
Context (Htable : forall i y, i ∈ R -> Seed !! Z.to_nat i = Some y ->
           let t' := if t =? ORDER_LINE then ORDER else t in
           let t'' := if t' =? PART_PSUPP then PART else t' in
           (table y =? t'') || (table y =? child_of t'') = true).
Context (Hmk : forall i, Draws R bnd (post i) (mk i)).
(** What [set_state] calls to skip [k] rows. *)
Context (calls : Z -> list (Z * Z)).
Context (Hseek : forall k s, seek_chunk t k s = (Ok tt, advance_all (calls k) s)).
Context (Hcalls : forall k, 0 <= k < 2 ^ 50 -> calls_ok (calls k) /\ forall i, i ∈ R -> calls_to i (calls k) = k * bnd i).

Lemma mk_any i : Draws R bnd (fun _ => True) (mk i).
Proof. apply Draws_weaken with (u1 := bnd) (p1 := post i); [reflexivity|auto|apply Hmk]. Qed.

Lemma seek_chunks k n : 0 <= k < 2 ^ 50 -> forall j s, ready s ->
  exists s', iterM (seqZ j (Z.of_nat n)) (fun _ => seek_chunk t k) s = (Ok tt, s') /\ ready s' /\
    advanced R (k * Z.of_nat n) s s'.
Proof.
  intros Hk. induction n as [|n IH]; intros j s Hs.
  - exists s. split; [reflexivity|]. split; [exact Hs|]. intros i Hi. now rewrite Z.mul_0_r.
  - rewrite Nat2Z.inj_succ, seqZ_cons by lia. rewrite Z.pred_succ. cbn [iterM].
    destruct (Hcalls k Hk) as [Hok Hto]. destruct (skip_rows R k (calls k) s HR Hs Hok Hto) as [Hr Ha].
    rewrite (bindM_run _ _ _ _ _ (Hseek k s)). destruct (IH (Z.succ j) _ Hr) as (s' & E & Hr' & Ha').
    exists s'. split; [exact E|]. split; [exact Hr'|]. replace (k * Z.succ (Z.of_nat n)) with (k + k * Z.of_nat n) by lia.
    eapply (advanced_trans R k (k * Z.of_nat n)); eauto; lia.
Qed.

(** The rows from [a+1] on that a process generates after skipping [a] rows are those of the
    whole table. *)
Lemma chunk_rows s0 N : ready s0 -> 0 <= N ->
  exists all s1, forM (seqZ 1 N) (gen_row t mk) s0 = (Ok all, s1) /\ Z.of_nat (length all) = N /\
    forall a b st, 0 <= a -> 0 <= b -> a + b <= N -> ready st -> advanced R a s0 st ->
      exists st', forM (seqZ (a + 1) b) (gen_row t mk) st = (Ok (take (Z.to_nat b) (drop (Z.to_nat a) all)), st').
Proof.
  intros H0 HN. pose proof (gen_rows_spec R bnd t mk HR Htable (fun i _ => Z.le_refl _) mk_any) as G.
  destruct (G (Z.to_nat N) 1 s0 s0 H0 H0 (fun _ _ => eq_refl)) as (all & s1 & _ & Eall & _ & Hlen & _).
  rewrite Z2Nat.id in Eall by exact HN. exists all, s1. split; [exact Eall|]. split; [lia|].
  intros a b st Ha Hb Hab Hst Hadv.
  destruct (G (Z.to_nat a) 1 s0 s0 H0 H0 (fun _ _ => eq_refl)) as (l1 & t1 & _ & E1 & _ & L1 & R1 & _ & _ & A1).
  rewrite Z2Nat.id in E1, A1 by exact Ha.
  assert (Hv : vagree R t1 st) by (intros i Hi; now rewrite (A1 i Hi), (Hadv i Hi)).
  destruct (G (Z.to_nat b) (a + 1) t1 st R1 Hst Hv) as (l2 & t2 & st' & E2 & F2 & L2 & R2 & _).
  rewrite Z2Nat.id in E2, F2 by exact Hb.
  destruct (G (Z.to_nat (N - a - b)) (a + 1 + b) t2 t2 R2 R2 (fun _ _ => eq_refl)) as (l3 & t3 & _ & E3 & _).
  rewrite Z2Nat.id in E3 by lia. exists st'. rewrite F2. do 2 f_equal.
  pose proof (forM_app _ _ _ _ _ _ _ _ E1 (forM_app _ _ _ _ _ _ _ _ E2 E3)) as Eapp.
  replace (seqZ (a + 1) b ++ seqZ (a + 1 + b) (N - a - b)) with (seqZ (a + 1) (N - a)) in Eapp.
  2: { replace (N - a) with (b + (N - a - b)) by lia. rewrite seqZ_app by lia. now replace (b + (N - a - b) - b) with (N - a - b) by lia. }
  replace (seqZ 1 a ++ seqZ (a + 1) (N - a)) with (seqZ 1 N) in Eapp.
  2: { replace N with (a + (N - a)) at 1 by lia. rewrite seqZ_app by lia. now replace (1 + a) with (a + 1) by lia. }
  rewrite Eall in Eapp. injection Eapp as -> _. rewrite drop_app_length' by lia. now rewrite take_app_length' by lia.
Qed.
End Rows.

(** ** Files of a chunk *)

(** What was written to the file a table's routine has open. *)
Definition written (t : Z) (p : prints) : bytes :=
  match fps p !! t with
  | Some fp => default [] (files p !! fp)
  | None => []
  end.

(** Look through the updates of the output state. *)
Ltac prn_simpl := unfold set_files_map, set_fp, set_name; cbn [files fps last_mode tnames].

Lemma fput_run fp b p a : files p !! fp = Some a ->
  fput fp b p = (Ok tt, set_files_map (<[fp := a ++ b]> (files p)) p).
Proof. intros H. unfold fput, modifyM. now rewrite H. Qed.

Lemma set_files_same p : set_files_map (files p) p = p.
Proof. now destruct p. Qed.

Lemma fputs_run {X} fp (g : X -> bytes) xs : forall p a, files p !! fp = Some a ->
  iterM xs (fun x => fput fp (g x)) p = (Ok tt, set_files_map (<[fp := a ++ concat (map g xs)]> (files p)) p).
Proof.
  induction xs as [|x xs IH]; intros p a Ha; cbn [iterM map concat].
  - rewrite app_nil_r, insert_id by exact Ha. now rewrite set_files_same.
  - rewrite (bindM_run _ _ _ _ _ (fput_run fp (g x) p a Ha)).
    rewrite (IH _ (a ++ g x)) by (prn_simpl; now rewrite lookup_insert_eq). prn_simpl. now rewrite insert_insert_eq, app_assoc.
Qed.

Section Files.
Context (getenv : bytes -> option bytes) (yes_no : bytes -> bool) (ins del : Z).

(** Where [tbl_open] puts a file. *)
Definition full_path (name : bytes) : bytes :=
  match name with
  | c :: _ => if c =? PATH_SEP then name else env_config getenv PATH_TAG PATH_DFLT ++ PATH_SEP :: name
  | [] => env_config getenv PATH_TAG PATH_DFLT ++ PATH_SEP :: name
  end.

Lemma full_path_inj x y n m : x <> PATH_SEP -> y <> PATH_SEP -> full_path (x :: n) = full_path (y :: m) -> x :: n = y :: m.
Proof.
  intros Hx Hy. unfold full_path. rewrite (proj2 (Z.eqb_neq x PATH_SEP) Hx), (proj2 (Z.eqb_neq y PATH_SEP) Hy).
  intros H. apply app_inv_head in H. congruence.
Qed.

Definition opened (t : Z) (p : prints) : prints :=
  set_fp t 0 (full_path (name_of t p)) (set_files_map (<[full_path (name_of t p) := []]> (files p)) p).

Lemma tbl_open_run t p :
  tbl_open getenv yes_no true t p =
    (Ok (full_path (name_of t p)), set_files_map (<[full_path (name_of t p) := []]> (files p)) p).
Proof.
  unfold tbl_open, bindM, getM, checkM, full_path. rewrite orb_true_r. cbn [orb]. unfold retM, fopen, bindM, modifyM, retM.
  reflexivity.
Qed.

Lemma print_prep_run t p :
  print_prep getenv yes_no 0 ins del true t 0 p =
    (Ok (full_path (name_of t p)), set_files_map (<[full_path (name_of t p) := []]> (files p)) p).
Proof. exact (tbl_open_run t p). Qed.

(** A routine's way to its file: opened at the first row, reused after it. *)
Record file_access (opn : Z -> M prints bytes) : Prop := {
  access_open : forall t p, fps p !! t = None -> opn t p = (Ok (full_path (name_of t p)), opened t p);
  access_reuse : forall t p fp, fps p !! t = Some fp -> default 0 (last_mode p !! t) = 0 -> opn t p = (Ok fp, p);
}.

Lemma static_access : file_access (fun t => static_fp getenv yes_no 0 ins del true t 0).
Proof.
  split.
  - intros t p Hp. unfold static_fp, bindM at 1, getM. rewrite Hp, (bindM_run _ _ _ _ _ (print_prep_run t p)). reflexivity.
  - intros t p fp Hp _. unfold static_fp, bindM, getM. now rewrite Hp.
Qed.

Lemma mode_access : file_access (fun t => mode_fp getenv yes_no 0 ins del true t 0).
Proof.
  split.
  - intros t p Hp. unfold mode_fp, bindM at 1, getM. rewrite Hp, (bindM_run _ _ _ _ _ (print_prep_run t p)). reflexivity.
  - intros t p fp Hp Hm. unfold mode_fp, bindM, getM. now rewrite Hp, Hm.
Qed.

(** Nothing open yet, or open with this much written. *)
Definition channel (t : Z) (p : prints) (a : bytes) : Prop :=
  (fps p !! t = None /\ a = []) \/
  exists fp, fps p !! t = Some fp /\ files p !! fp = Some a /\ default 0 (last_mode p !! t) = 0.

Lemma channel_written t p a : channel t p a -> written t p = a.
Proof. intros [[H ->]|(fp & H & Ha & _)]; unfold written; rewrite H; [reflexivity|]. now rewrite Ha. Qed.

(** A routine with one file. *)
Lemma load_rows_one {X} opn t (r : X -> list data) (rows : list X) : file_access opn -> forall p a,
  channel t p a ->
  exists p', iterM rows (fun x => let* fp := opn t in fput fp (pr_record (r x))) p = (Ok tt, p') /\
    channel t p' (a ++ concat (map (fun x => pr_record (r x)) rows)).
Proof.
  intros Hacc. induction rows as [|x rows IH]; intros p a Hc; cbn [iterM map concat].
  { exists p. rewrite app_nil_r. auto. }
  assert (Hstep : exists p1, (let* fp := opn t in fput fp (pr_record (r x))) p = (Ok tt, p1) /\ channel t p1 (a ++ pr_record (r x))).
  { destruct Hc as [[Hn ->]|(fp & Hfp & Ha & Hm)].
    - rewrite (bindM_run _ _ _ _ _ (access_open _ Hacc t p Hn)).
      rewrite (fput_run _ _ _ []) by (unfold opened; prn_simpl; now rewrite lookup_insert_eq). eexists. split; [reflexivity|]. right.
      eexists. unfold opened. prn_simpl. rewrite !lookup_insert_eq. auto.
    - rewrite (bindM_run _ _ _ _ _ (access_reuse _ Hacc t p fp Hfp Hm)), (fput_run _ _ _ a Ha).
      eexists. split; [reflexivity|]. right. exists fp. prn_simpl. rewrite lookup_insert_eq. auto. }
  destruct Hstep as (p1 & E1 & C1). rewrite (bindM_run _ _ _ _ _ E1). destruct (IH p1 _ C1) as (p' & E & C).
  exists p'. rewrite app_assoc. auto.
Qed.

(** A routine that takes the name of its first file from the combined table [ts] and writes a
    record to it and some to a second file. *)
Definition load_two {X Y} (opn : Z -> M prints bytes) (t1 ts t2 : Z) (r1 : X -> list data) (xs : X -> list Y)
  (r2 : Y -> list data) (x : X) : M prints unit :=
  do* modifyM (fun p => set_name t1 (name_of ts p) p) in
  do* (let* fp := opn t1 in fput fp (pr_record (r1 x))) in
  let* fp := opn t2 in iterM (xs x) (fun y => fput fp (pr_record (r2 y))).

Definition both_open (t1 t2 : Z) (p : prints) (a b : bytes) : Prop :=
  exists f1 f2, f1 <> f2 /\ fps p !! t1 = Some f1 /\ fps p !! t2 = Some f2 /\
    files p !! f1 = Some a /\ files p !! f2 = Some b /\
    default 0 (last_mode p !! t1) = 0 /\ default 0 (last_mode p !! t2) = 0.

Definition two_texts {X Y} (r1 : X -> list data) (xs : X -> list Y) (r2 : Y -> list data) (x : X) : bytes * bytes :=
  (pr_record (r1 x), concat (map (fun y => pr_record (r2 y)) (xs x))).

Lemma load_two_reuse {X Y} opn t1 ts t2 (r1 : X -> list data) (xs : X -> list Y) r2 x p a b :
  file_access opn -> both_open t1 t2 p a b ->
  exists p', load_two opn t1 ts t2 r1 xs r2 x p = (Ok tt, p') /\
    both_open t1 t2 p' (a ++ (two_texts r1 xs r2 x).1) (b ++ (two_texts r1 xs r2 x).2).
Proof.
  intros Hacc (f1 & f2 & Hd & H1 & H2 & Ha & Hb & M1 & M2). unfold load_two, modifyM. unfold bindM at 1.
  set (q := set_name t1 (name_of ts p) p).
  rewrite bindM_assoc, (bindM_run _ _ _ _ _ (access_reuse _ Hacc t1 q f1 H1 M1)).
  rewrite (bindM_run _ _ _ _ _ (fput_run f1 _ q a Ha)).
  rewrite (bindM_run _ _ _ _ _ (access_reuse _ Hacc t2 (set_files_map _ q) f2 H2 M2)).
  rewrite (fputs_run f2 _ _ _ b).
  2: { prn_simpl. now rewrite lookup_insert_ne by exact Hd. }
  eexists. split; [reflexivity|]. unfold q. exists f1, f2. prn_simpl. split_and!; auto.
  - now rewrite lookup_insert_ne, lookup_insert_eq by now intros ->.
  - now rewrite lookup_insert_eq.
Qed.

(** The first record opens both files. *)
Definition both_closed (t1 ts t2 : Z) (p : prints) : Prop :=
  fps p !! t1 = None /\ fps p !! t2 = None /\ (Z.to_nat t1 < length (tnames p))%nat /\
  full_path (name_of ts p) <> full_path (name_of t2 p).

Lemma load_two_open {X Y} opn t1 ts t2 (r1 : X -> list data) (xs : X -> list Y) r2 x p :
  file_access opn -> 0 <= t1 -> 0 <= t2 -> t1 <> t2 -> both_closed t1 ts t2 p ->
  exists p', load_two opn t1 ts t2 r1 xs r2 x p = (Ok tt, p') /\
    both_open t1 t2 p' (two_texts r1 xs r2 x).1 (two_texts r1 xs r2 x).2.
Proof.
  intros Hacc P1 P2 Hne (H1 & H2 & Hlen & Hpath). unfold load_two, modifyM. unfold bindM at 1.
  set (q := set_name t1 (name_of ts p) p).
  assert (N1 : name_of t1 q = name_of ts p) by (unfold q, set_name, name_of at 1; prn_simpl; now rewrite list_lookup_insert_eq).
  assert (N2 : name_of t2 q = name_of t2 p) by (unfold q, set_name, name_of at 1; prn_simpl; now rewrite list_lookup_insert_ne by lia).
  rewrite bindM_assoc, (bindM_run _ _ _ _ _ (access_open _ Hacc t1 q H1)).
  rewrite (bindM_run _ _ _ _ _ (fput_run _ _ (opened t1 q) [] ltac:(unfold opened; prn_simpl; apply lookup_insert_eq))).
  set (q1 := set_files_map _ (opened t1 q)).
  assert (Hq1 : fps q1 !! t2 = None) by (unfold q1, opened, q; prn_simpl; now rewrite lookup_insert_ne by exact Hne).
  rewrite (bindM_run _ _ _ _ _ (access_open _ Hacc t2 q1 Hq1)).
  assert (N2' : name_of t2 q1 = name_of t2 p) by exact N2.
  rewrite N2', (fputs_run _ _ _ _ []).
  2: { unfold opened. prn_simpl. rewrite N2'. apply lookup_insert_eq. }
  eexists. split; [reflexivity|]. exists (full_path (name_of ts p)), (full_path (name_of t2 p)).
  unfold opened. prn_simpl. rewrite ?N2'. split_and!; [exact Hpath|..].
  - rewrite lookup_insert_ne by auto. unfold q1, opened. prn_simpl. now rewrite lookup_insert_eq, N1.
  - now rewrite lookup_insert_eq.
  - rewrite !lookup_insert_ne by auto. unfold q1, opened. prn_simpl. now rewrite N1, lookup_insert_eq.
  - now rewrite lookup_insert_eq.
  - rewrite lookup_insert_ne by auto. unfold q1, opened. prn_simpl. now rewrite lookup_insert_eq.
  - now rewrite lookup_insert_eq.
Qed.

Lemma load_rows_two {X Y} opn t1 ts t2 (r1 : X -> list data) (xs : X -> list Y) r2 (rows : list X) p :
  file_access opn -> 0 <= t1 -> 0 <= t2 -> t1 <> t2 -> both_closed t1 ts t2 p ->
  exists p', iterM rows (load_two opn t1 ts t2 r1 xs r2) p = (Ok tt, p') /\
    written t1 p' = concat (map (fun x => (two_texts r1 xs r2 x).1) rows) /\
    written t2 p' = concat (map (fun x => (two_texts r1 xs r2 x).2) rows).
Proof.
  intros Hacc P1 P2 Hne Hcl.
  assert (Hopen : forall rows p a b, both_open t1 t2 p a b -> exists p',
    iterM rows (load_two opn t1 ts t2 r1 xs r2) p = (Ok tt, p') /\
    both_open t1 t2 p' (a ++ concat (map (fun x => (two_texts r1 xs r2 x).1) rows))
                       (b ++ concat (map (fun x => (two_texts r1 xs r2 x).2) rows))).
  { clear p Hcl rows. induction rows as [|x rows IH]; intros p a b Hb; cbn [iterM map concat].
    - exists p. now rewrite !app_nil_r.
    - destruct (load_two_reuse opn t1 ts t2 r1 xs r2 x p a b Hacc Hb) as (p1 & E1 & B1).
      rewrite (bindM_run _ _ _ _ _ E1). destruct (IH p1 _ _ B1) as (p' & E & B). exists p'. now rewrite !app_assoc. }
  destruct rows as [|x rows].
  - exists p. destruct Hcl as (H1 & H2 & _). unfold written. rewrite H1, H2. auto.
  - cbn [iterM]. destruct (load_two_open opn t1 ts t2 r1 xs r2 x p Hacc P1 P2 Hne Hcl) as (p1 & E1 & B1).
    rewrite (bindM_run _ _ _ _ _ E1). destruct (Hopen rows p1 _ _ B1) as (p' & E & B).
    exists p'. split; [exact E|]. destruct B as (f1 & f2 & _ & F1 & F2 & G1 & G2 & _).
    unfold written. rewrite F1, F2, G1, G2. auto.
Qed.
End Files.

(** ** Slices of a list *)

Lemma slices_prefix {X} (all : list X) (k m : nat) :
  concat (map (fun s => take k (drop (k * s) all)) (seq 0 m)) = take (k * m) all.
Proof.
  induction m as [|m IH].
  - now rewrite Nat.mul_0_r.
  - rewrite seq_S, map_app, concat_app, IH. cbn [map concat]. rewrite app_nil_r, Nat.add_0_l.
    replace (k * S m)%nat with (k * m + k)%nat by lia. now rewrite <- take_take_drop.
Qed.

(** Equal slices, the last one with the rest. *)
Lemma slices_whole {X} (all : list X) (k c : nat) :
  (0 < c)%nat -> (k * c <= length all)%nat ->
  concat (map (fun s => take (if (S s =? c)%nat then length all - k * s else k) (drop (k * s) all)) (seq 0 c)) = all.
Proof.
  intros Hc Hl. destruct c as [|c]; [lia|]. rewrite seq_S, map_app, concat_app. cbn [map concat].
  rewrite Nat.add_0_l, Nat.eqb_refl, app_nil_r.
  rewrite (map_ext_in _ (fun s => take k (drop (k * s) all))).
  - rewrite slices_prefix, (take_ge (drop (k * c) all)) by (rewrite length_drop; lia). apply take_drop.
  - intros s Hs. apply in_seq in Hs. now rewrite (proj2 (Nat.eqb_neq (S s) (S c))) by lia.
Qed.

Lemma finite_choice {X} (P : nat -> X -> Prop) (c : nat) :
  (forall i, (i < c)%nat -> exists x, P i x) ->
  exists l, length l = c /\ forall i x, l !! i = Some x -> P i x.
Proof.
  induction c as [|c IH]; intros H.
  - exists []. split; [reflexivity|]. intros i x Hi. now rewrite lookup_nil in Hi.
  - destruct IH as (l & Hl & Hp); [intros i Hi; apply H; lia|]. destruct (H c ltac:(lia)) as [x Hx].
    exists (l ++ [x]). rewrite length_app. split; [cbn; lia|]. intros i y Hy.
    apply lookup_app_Some in Hy as [Hy|[Hge Hy]]; [auto|].
    apply list_lookup_singleton_Some in Hy as [Hi <-]. now replace i with c by lia.
Qed.

Lemma map_indexed {X Y} (f : X -> Y) (h : nat -> Y) (l : list X) :
  (forall i x, l !! i = Some x -> f x = h i) -> map f l = map h (seq 0 (length l)).
Proof.
  revert h. induction l as [|x l IH]; intros h H; [reflexivity|]. cbn [map length seq].
  rewrite (H 0%nat x eq_refl), <- seq_shift, map_map. f_equal. apply IH. intros i y Hi. exact (H (S i) y Hi).
Qed.

Lemma concat_map_slices {X Y} (f : X -> list Y) (ls : list (list X)) :
  concat (map f (concat ls)) = concat (map (fun l => concat (map f l)) ls).
Proof. induction ls as [|l ls IH]; [reflexivity|]. cbn [concat map]. now rewrite map_app, concat_app, IH. Qed.

(** ** A table in chunks *)

Lemma on_seeds_run {A} (m : M streams A) g a s : m (seeds g) = (Ok a, s) -> on_seeds m g = (Ok a, mkG s (prn g)).
Proof. intros H. unfold on_seeds, zoomM. now rewrite H. Qed.

Lemma on_prints_run {A} (m : M prints A) g a p : m (prn g) = (Ok a, p) -> on_prints m g = (Ok a, mkG (seeds g) p).
Proof. intros H. unfold on_prints, zoomM. now rewrite H. Qed.

(** A process starts with the seed table and no file open. *)
Definition start_state (fs : gmap bytes bytes) : gstate :=
  mkG Seed (mkPrints tdefs_name fs ∅ ∅ 0 0 0 None 0 0 0).

Lemma Seed_ready : ready Seed.
Proof. split; [exact Seed_ok|]. intros i x Hx. exists x. auto. Qed.

Section Table.
Context (getenv : bytes -> option bytes) (yes_no : bytes -> bool) (pool : Z -> Z) (ds : dists) (op : options).
Context {A : Type} (R : list Z) (t : Z) (mk : Z -> M streams A) (post : Z -> A -> Prop) (calls : Z -> list (Z * Z)).
Context (load : A -> M prints unit) (closed : prints -> Prop) (cs : list Z) (txt : Z -> A -> bytes).
Context (Hseeds : op_set_seeds op = false) (Hins : op_insert_segments op = 0).
Context (HR : streams_of_table R).
Context (Htable : forall i y, i ∈ R -> Seed !! Z.to_nat i = Some y ->
           let t' := if t =? ORDER_LINE then ORDER else t in
           let t'' := if t' =? PART_PSUPP then PART else t' in
           (table y =? t'') || (table y =? child_of t'') = true).
Context (Hmk : forall i, Draws R bnd (post i) (mk i)).
Context (Hseek : forall k s, seek_chunk t k s = (Ok tt, advance_all (calls k) s)).
Context (Hcalls : forall k, 0 <= k < 2 ^ 50 -> calls_ok (calls k) /\ forall i, i ∈ R -> calls_to i (calls k) = k * bnd i).
Context (Hswitch : forall i per residual this g,
           gen_switch getenv yes_no pool ds op t i 0 per residual this g =
             (let* a := on_seeds (mk i) in do* on_prints (load a) in retM (0, this)) g).
Context (Hload : forall rows p, closed p -> exists p', iterM rows load p = (Ok tt, p') /\
           forall c, c ∈ cs -> written c p' = concat (map (txt c) rows)).

(** The loop of [gen_tbl] builds the rows and prints them. *)
Lemma gen_loop_rows n per residual this : forall i g l s' p',
  forM (seqZ i (Z.of_nat n)) (gen_row t mk) (seeds g) = (Ok l, s') -> iterM l load (prn g) = (Ok tt, p') ->
  gen_loop getenv yes_no pool ds op n t i 0 per residual this g = (Ok tt, mkG s' p').
Proof.
  induction n as [|n IH]; intros i g l s' p' Hrows Hpr.
  - injection Hrows as <- <-. injection Hpr as <-. now destruct g.
  - rewrite Nat2Z.inj_succ, seqZ_cons, Z.pred_succ in Hrows by lia. cbn [forM] in Hrows.
    apply bindM_ok in Hrows as (a & s1 & Ha & Hrows). apply bindM_ok in Hrows as (l' & s2 & Hl & Hrows).
    injection Hrows as <- ->. cbn [iterM] in Hpr. apply bindM_ok in Hpr as ([] & p1 & Hp1 & Hpr).
    unfold gen_row in Ha. apply bindM_ok in Ha as ([] & s3 & Hs3 & Ha). apply bindM_ok in Ha as (a' & s4 & Hmk4 & Ha).
    apply bindM_ok in Ha as ([] & s5 & Hs5 & Ha). injection Ha as -> ->. injection Hs3 as <-. injection Hs5 as <-.
    cbn [gen_loop]. rewrite (bindM_run _ _ _ _ _ (on_seeds_run (modifyM row_start) g tt _ eq_refl)).
    assert (Hsw : gen_switch getenv yes_no pool ds op t i 0 per residual this (mkG (row_start (seeds g)) (prn g)) =
                  (Ok (0, this), mkG s4 p1)).
    { rewrite Hswitch. rewrite (bindM_run _ _ _ _ _ (on_seeds_run _ (mkG (row_start (seeds g)) (prn g)) _ _ Hmk4)).
      now rewrite (bindM_run _ _ _ _ _ (on_prints_run _ (mkG s4 (prn g)) _ _ Hp1)). }
    rewrite (bindM_run _ _ _ _ _ Hsw), Hseeds.
    rewrite (bindM_run _ _ _ _ _ (on_seeds_run (modifyM (row_stop false t)) (mkG s4 p1) tt _ eq_refl)).
    exact (IH (i + 1) (mkG (row_stop false t s4) p1) l' s' p' Hl Hpr).
Qed.

Lemma gen_tbl_rows start count g l s' p' :
  0 <= count -> forM (seqZ start count) (gen_row t mk) (seeds g) = (Ok l, s') -> iterM l load (prn g) = (Ok tt, p') ->
  gen_tbl getenv yes_no pool ds op t start count 0 g = (Ok tt, mkG s' p').
Proof.
  intros Hc Hrows Hpr. unfold gen_tbl. apply gen_loop_rows with (l := l); [|exact Hpr]. now rewrite Z2Nat.id.
Qed.

Context (fs : gmap bytes bytes).
Context (Hscale : 1 <= op_scale op) (Hrows : 0 <= base_rows op t * op_scale op < 2 ^ 50).
Context (Hopen : closed (prn (start_state fs))).
Context (Hopen_chunk : forall s, 1 <= s <= op_children op -> closed (set_files (op_table op) t s None (prn (start_state fs)))).
Context (Hchildren : 1 <= op_children op).

Lemma set_state_chunk s : 1 <= s <= op_children op ->
  let k := Z.quot (base_rows op t * op_scale op) (op_children op) in
  exists st, set_state (op_base op) t (op_scale op) (op_children op) s Seed =
      (Ok (k, Z.rem (base_rows op t * op_scale op) (op_children op)), st) /\ ready st /\ advanced R (k * (s - 1)) Seed st.
Proof.
  intros Hs k. assert (Hk : 0 <= k < 2 ^ 50).
  { unfold k. rewrite Z.quot_div_nonneg by lia. split; [apply Z.div_pos; lia|].
    apply Z.le_lt_trans with (base_rows op t * op_scale op); [|lia]. apply Z.div_le_upper_bound; nia. }
  destruct (seek_chunks R t HR calls Hseek Hcalls k (Z.to_nat (s - 1)) Hk 0 Seed Seed_ready) as (st & E & Hr & Ha).
  rewrite Z2Nat.id in E, Ha by lia. exists st. split; [|auto]. unfold set_state.
  rewrite (proj2 (Z.eqb_neq (op_scale op) 0)), (proj2 (Z.eqb_neq s 0)) by lia. cbn [orb].
  change (default 0 (op_base op !! Z.to_nat t)) with (base_rows op t). fold k.
  rewrite (bindM_run _ _ _ _ _ E). rewrite (proj2 (Z.ltb_ge (op_children op) s)) by lia. reflexivity.
Qed.

Lemma table_chunks :
  exists whole parts,
    gen_tbl getenv yes_no pool ds op t 1 (base_rows op t * op_scale op) 0 (start_state fs) = (Ok tt, whole) /\
    Z.of_nat (length parts) = op_children op /\
    (forall i part, parts !! i = Some part ->
       partial getenv yes_no pool ds op t (Z.of_nat i + 1) (start_state fs) = (Ok tt, part)) /\
    forall c, c ∈ cs -> written c (prn whole) = concat (map (fun g => written c (prn g)) parts).
Proof.
  set (N := base_rows op t * op_scale op) in *. set (C := op_children op) in *. set (k := Z.quot N C).
  assert (Hk : N = k * C + Z.rem N C) by (unfold k; pose proof (Z.quot_rem' N C); lia).
  assert (He : 0 <= Z.rem N C < C) by (apply Z.rem_bound_pos; lia).
  assert (Hkp : 0 <= k) by (unfold k; apply Z.quot_pos; lia).
  destruct (chunk_rows R t mk post HR Htable Hmk Seed N Seed_ready ltac:(lia)) as (all & s1 & Eall & Hlen & Hslice).
  destruct (Hload all (prn (start_state fs)) Hopen) as (p1 & Ep1 & Hp1).
  set (slice i := take (if (S i =? Z.to_nat C)%nat then length all - Z.to_nat k * i else Z.to_nat k)%nat (drop (Z.to_nat k * i) all)).
  destruct (finite_choice (fun i g =>
      partial getenv yes_no pool ds op t (Z.of_nat i + 1) (start_state fs) = (Ok tt, g) /\
      forall c, c ∈ cs -> written c (prn g) = concat (map (txt c) (slice i))) (Z.to_nat C)) as (parts & Hpl & Hparts).
  { intros i Hi. set (s := Z.of_nat i + 1). assert (Hs : 1 <= s <= C) by lia.
    destruct (set_state_chunk s Hs) as (st & Est & Hr & Ha). fold N C k in Est, Ha.
    set (b := if s =? C then k + Z.rem N C else k).
    assert (Hb : 0 <= b /\ k * (s - 1) + b <= N) by (unfold b; destruct (Z.eqb_spec s C); nia).
    destruct (Hslice (k * (s - 1)) b st ltac:(nia) (proj1 Hb) (proj2 Hb) Hr Ha) as (st' & Erows).
    assert (Esl : take (Z.to_nat b) (drop (Z.to_nat (k * (s - 1))) all) = slice i).
    { unfold slice. f_equal; [|f_equal; unfold s; nia]. unfold b. destruct (Z.eqb_spec s C) as [E|E].
      - rewrite (proj2 (Nat.eqb_eq (S i) (Z.to_nat C))) by lia. nia.
      - now rewrite (proj2 (Nat.eqb_neq (S i) (Z.to_nat C))) by lia. }
    rewrite Esl in Erows. destruct (Hload (slice i) _ (Hopen_chunk s Hs)) as (p2 & Ep2 & Hp2).
    exists (mkG st' p2). split; [|exact Hp2]. unfold partial. unfold on_prints at 1, zoomM, modifyM, bindM at 1.
    rewrite (bindM_run _ _ _ _ _ (on_seeds_run _ (mkG Seed _) _ _ Est)). fold C. fold b.
    exact (gen_tbl_rows (k * (s - 1) + 1) b (mkG st _) (slice i) st' p2 (proj1 Hb) Erows Ep2). }
  exists (mkG s1 p1), parts. split; [exact (gen_tbl_rows 1 N (start_state fs) all s1 p1 ltac:(lia) Eall Ep1)|].
  split; [lia|]. split; [intros i part Hi; exact (proj1 (Hparts i part Hi))|]. intros c Hc. cbn [prn].
  rewrite (map_indexed _ (fun i => concat (map (txt c) (slice i))) parts) by (intros i g Hg; exact (proj2 (Hparts i g Hg) c Hc)).
  rewrite Hpl, (Hp1 c Hc). rewrite <- (map_map slice (fun l => concat (map (txt c) l))), <- concat_map_slices.
  unfold slice. now rewrite slices_whole by nia.
Qed.
End Table.

(** ** The tables of a load *)

(** A load that overwrites its files, without update sets. *)
Record plain_load (op : options) : Prop := {
  load_seeds : op_set_seeds op = false;
  load_ins : op_insert_segments op = 0;
  load_updates : op_updates op = 0;
  load_force : op_force op = true;
  load_scale : 1 <= op_scale op < 30000;
  load_children : 1 <= op_children op;
  load_tables : length (op_base op) = 10%nat;
  load_base : Forall (fun b => 1 <= b <= 1500000) (op_base op);
}.

Definition dists_ok (ds : dists) : Prop :=
  dist_ok (d_o_prio ds) /\ dist_ok (d_instruct ds) /\ dist_ok (d_smode ds) /\ dist_ok (d_rflag ds) /\
  dist_ok (d_mseg ds) /\ dist_ok (d_colors ds) /\ d_count (d_colors ds) = 92 /\ dist_ok (d_types ds) /\ dist_ok (d_cntr ds).

Lemma base_rows_ok op t : plain_load op -> 0 <= t < 10 -> 1 <= base_rows op t <= 1500000.
Proof.
  intros Hop Ht. unfold base_rows. destruct (lookup_lt_is_Some_2 (op_base op) (Z.to_nat t)) as [b Hb].
  - rewrite (load_tables _ Hop). lia.
  - rewrite Hb. exact (Forall_lookup_1 _ _ _ _ (load_base _ Hop) Hb).
Qed.

Lemma rows_bound op t : plain_load op -> 0 <= t < 10 -> 0 <= base_rows op t * op_scale op < 2 ^ 50.
Proof. intros Hop Ht. pose proof (base_rows_ok op t Hop Ht). pose proof (load_scale _ Hop). nia. Qed.

Lemma set_files_fps table t s p : fps (set_files table t s None p) = fps p.
Proof. unfold set_files, rename. destruct (Z.testbit table t), (s =? -1), (child_of t =? NONE); reflexivity. Qed.

(** The names of the two files of a combined table stay different. *)
Lemma two_names (getenv : bytes -> option bytes) (n1 n2 u v : bytes) :
  (n1 = str "orders.tbl" /\ n2 = str "lineitem.tbl") \/ (n1 = str "part.tbl" /\ n2 = str "partsupp.tbl") ->
  full_path getenv (n1 ++ u) <> full_path getenv (n2 ++ v).
Proof.
  intros [[-> ->]|[-> ->]] H; cbn in H.
  - apply full_path_inj in H; [discriminate H|discriminate|discriminate].
  - apply full_path_inj in H; [discriminate H|discriminate|discriminate].
Qed.

Lemma both_closed_start getenv t1 ts t2 fs n1 n2 :
  (n1 = str "orders.tbl" /\ n2 = str "lineitem.tbl") \/ (n1 = str "part.tbl" /\ n2 = str "partsupp.tbl") ->
  0 <= t1 < 10 -> tdefs_name !! Z.to_nat ts = Some n1 -> tdefs_name !! Z.to_nat t2 = Some n2 ->
  both_closed getenv t1 ts t2 (prn (start_state fs)).
Proof.
  intros Hn H1 Hs H2. unfold both_closed, name_of. cbn [prn start_state fps tnames]. rewrite Hs, H2, !lookup_empty.
  split_and!; auto; [change (length tdefs_name) with 10%nat; lia|]. cbn [default from_option].
  rewrite <- (app_nil_r n1), <- (app_nil_r n2). now apply two_names.
Qed.

Lemma both_closed_chunk getenv table s t1 ts t2 fs n1 n2 :
  (n1 = str "orders.tbl" /\ n2 = str "lineitem.tbl") \/ (n1 = str "part.tbl" /\ n2 = str "partsupp.tbl") ->
  0 <= t1 < 10 -> 1 <= s -> 0 <= ts -> 0 <= t2 -> ts <> t2 -> child_of ts = t2 -> t2 <> NONE ->
  tdefs_name !! Z.to_nat ts = Some n1 -> tdefs_name !! Z.to_nat t2 = Some n2 ->
  both_closed getenv t1 ts t2 (set_files table ts s None (prn (start_state fs))).
Proof.
  intros Hn H1 Hs P1 P2 Hne Hch Hnone Hts H2.
  destruct (Z.testbit table ts) eqn:Hbit.
  2: { unfold set_files. rewrite Hbit. now apply both_closed_start with (n1 := n1) (n2 := n2). }
  unfold both_closed. rewrite set_files_fps. cbn [prn start_state fps]. rewrite !lookup_empty.
  unfold set_files, rename. rewrite Hbit, Hch, (proj2 (Z.eqb_neq t2 NONE)), (proj2 (Z.eqb_neq s (-1))) by (exact Hnone || lia).
  cbn [negb]. unfold set_name, name_of. cbn [tnames start_state prn]. rewrite !length_insert.
  pose proof (lookup_lt_Some _ _ _ Hts) as L1. pose proof (lookup_lt_Some _ _ _ H2) as L2.
  assert (D : Z.to_nat ts <> Z.to_nat t2) by lia.
  rewrite (list_lookup_insert_ne _ (Z.to_nat t2) (Z.to_nat ts)) by auto.
  rewrite (list_lookup_insert_ne _ (Z.to_nat ts) (Z.to_nat t2)) by exact D.
  rewrite !list_lookup_insert_eq by (rewrite ?length_insert; assumption).
  rewrite Hts, H2. split_and!; auto; [change (length tdefs_name) with 10%nat; lia|]. cbn [default from_option].
  now apply two_names.
Qed.

Section Load.
Context (getenv : bytes -> option bytes) (yes_no : bytes -> bool) (pool : Z -> Z) (ds : dists) (op : options).
Context (Hop : plain_load op) (Hds : dists_ok ds) (fs : gmap bytes bytes).

(** The chunks of table [t] written one after the other give what one process writes, in each of
    the files [cs]. *)
Definition chunks_agree (t : Z) (cs : list Z) : Prop :=
  exists whole parts,
    gen_tbl getenv yes_no pool ds op t 1 (base_rows op t * op_scale op) 0 (start_state fs) = (Ok tt, whole) /\
    Z.of_nat (length parts) = op_children op /\
    (forall i part, parts !! i = Some part ->
       partial getenv yes_no pool ds op t (Z.of_nat i + 1) (start_state fs) = (Ok tt, part)) /\
    forall c, c ∈ cs -> written c (prn whole) = concat (map (fun g => written c (prn g)) parts).

Ltac own_streams :=
  intros ? ? Hi Hy; each_stream Hi; vm_compute in Hy; injection Hy as <-; vm_compute; reflexivity.
Ltac plain_switch :=
  intros; unfold gen_switch, output, next_segment;
  rewrite (load_seeds _ Hop), (load_ins _ Hop), (load_updates _ Hop), (load_force _ Hop); reflexivity.

Lemma cust_chunks : chunks_agree CUST [CUST].
Proof.
  pose proof Hds as (_ & _ & _ & _ & Hseg & _).
  apply (table_chunks getenv yes_no pool ds op cust_streams CUST (make_cust pool ds) (fun n c => c_custkey c = n) sd_cust_calls
    (fun c => pr_cust getenv yes_no 0 0 (op_delete_segments op) true c 0) (fun p => fps p !! CUST = None) [CUST]
    (fun _ c => pr_record (cust_fields c))); try apply Hop.
  - exact cust_streams_ok.
  - own_streams.
  - intros i. now apply mk_cust_draws.
  - reflexivity.
  - exact cust_skip.
  - plain_switch.
  - intros rows p Hp.
    destruct (load_rows_one getenv _ CUST cust_fields rows (static_access getenv yes_no 0 (op_delete_segments op)) p []) as (p' & E & Hc);
      [now left|]. exists p'. split; [exact E|]. intros c Hin. apply list_elem_of_singleton in Hin as ->. now apply channel_written in Hc.
  - apply rows_bound; [exact Hop|split; vm_compute; congruence].
  - reflexivity.
  - intros s _. now rewrite set_files_fps.
Qed.

Lemma supp_chunks : chunks_agree SUPP [SUPP].
Proof.
  apply (table_chunks getenv yes_no pool ds op supp_streams SUPP (make_supp pool ds)
    (fun n s => s_suppkey s = n /\ 25 <= strlen (s_comment s) <= 100) sd_supp_calls
    (fun c => pr_supp getenv yes_no 0 0 (op_delete_segments op) true c 0) (fun p => fps p !! SUPP = None) [SUPP]
    (fun _ c => pr_record (supp_fields c))); try apply Hop.
  - exact supp_streams_ok.
  - own_streams.
  - intros i. apply mk_supp_draws.
  - reflexivity.
  - exact supp_skip.
  - plain_switch.
  - intros rows p Hp.
    destruct (load_rows_one getenv _ SUPP supp_fields rows (static_access getenv yes_no 0 (op_delete_segments op)) p []) as (p' & E & Hc);
      [now left|]. exists p'. split; [exact E|]. intros c Hin. apply list_elem_of_singleton in Hin as ->. now apply channel_written in Hc.
  - apply rows_bound; [exact Hop|split; vm_compute; congruence].
  - reflexivity.
  - intros s _. now rewrite set_files_fps.
Qed.

(** The text of one row for the first or the second file. *)
Definition two_txt {X Y} (t1 : Z) (r1 : X -> list data) (xs : X -> list Y) (r2 : Y -> list data) (c : Z) (x : X) : bytes :=
  if c =? t1 then (two_texts r1 xs r2 x).1 else (two_texts r1 xs r2 x).2.

Lemma part_chunks : chunks_agree PART_PSUPP [PART; PSUPP].
Proof.
  pose proof Hds as (_ & _ & _ & _ & _ & Hcol & Hcnt & Htyp & Hcn).
  apply (table_chunks getenv yes_no pool ds op part_streams PART_PSUPP (make_part pool ds op)
    (part_wf (op_scale op) (base_rows op)) (fun k => sd_part_calls k ++ sd_psupp_calls k)
    (fun x => pr_part_psupp getenv yes_no 0 0 (op_delete_segments op) true x 0) (both_closed getenv PART PART_PSUPP PSUPP) [PART; PSUPP]
    (two_txt PART part_fields p_s psupp_fields)); try apply Hop.
  - exact part_streams_ok.
  - own_streams.
  - intros i. now apply mk_part_draws.
  - intros k s. unfold seek_chunk. cbn. unfold advance_all. now rewrite fold_left_app.
  - exact part_skip.
  - plain_switch.
  - intros rows p Hp.
    destruct (load_rows_two getenv _ PART PART_PSUPP PSUPP part_fields p_s psupp_fields rows p
                (static_access getenv yes_no 0 (op_delete_segments op))) as (p' & E & W1 & W2); [now cbn|now cbn|easy|exact Hp|].
    exists p'. split; [exact E|]. intros c Hin. each_stream Hin; [exact W1|exact W2].
  - apply rows_bound; [exact Hop|split; vm_compute; congruence].
  - apply both_closed_start with (n1 := str "part.tbl") (n2 := str "partsupp.tbl"); auto; [split; vm_compute; congruence|..]; reflexivity.
  - intros s Hs. apply both_closed_chunk with (n1 := str "part.tbl") (n2 := str "partsupp.tbl"); auto;
      try reflexivity; try (vm_compute; congruence); [split; vm_compute; congruence|lia].
Qed.

Lemma order_chunks : chunks_agree ORDER_LINE [ORDER; LINE].
Proof.
  pose proof Hds as (Hpr & Hins & Hsm & Hrf & _). pose proof (load_scale _ Hop) as Hsc.
  apply (table_chunks getenv yes_no pool ds op order_streams ORDER_LINE (fun i => make_order pool ds op i 0)
    (fun i => order_wf (op_scale op) (base_rows op) i 0) (fun k => sd_order_calls k ++ sd_line_calls 0 k)
    (fun x => pr_order_line getenv yes_no 0 0 (op_delete_segments op) true x 0) (both_closed getenv ORDER ORDER_LINE LINE) [ORDER; LINE]
    (two_txt ORDER order_fields o_lines line_fields)); try apply Hop.
  - exact order_streams_ok.
  - own_streams.
  - intros i. apply mk_order_draws; auto; apply base_rows_ok; auto; split; vm_compute; congruence.
  - intros k s. unfold seek_chunk. cbn -[sd_line_calls sd_order_calls]. unfold advance_all. now rewrite fold_left_app.
  - exact order_skip.
  - plain_switch.
  - intros rows p Hp.
    destruct (load_rows_two getenv _ ORDER ORDER_LINE LINE order_fields o_lines line_fields rows p
                (mode_access getenv yes_no 0 (op_delete_segments op))) as (p' & E & W1 & W2); [now cbn|now cbn|easy|exact Hp|].
    exists p'. split; [exact E|]. intros c Hin. each_stream Hin; [exact W1|exact W2].
  - apply rows_bound; [exact Hop|split; vm_compute; congruence].
  - apply both_closed_start with (n1 := str "orders.tbl") (n2 := str "lineitem.tbl"); auto; [split; vm_compute; congruence|..]; reflexivity.
  - intros s Hs. apply both_closed_chunk with (n1 := str "orders.tbl") (n2 := str "lineitem.tbl"); auto;
      try reflexivity; try (vm_compute; congruence); [split; vm_compute; congruence|lia].
Qed.
End Load.

(** C11: parallel loads produce the same data. For every number of chunks [-C], every scale factor
    from 1 to 29999 (with shrunken base counts below one) and every previous content of the
    files: a single process generates each table without failure, every chunk process
    [partial] succeeds, and the chunk files in order are byte for byte the file of the single
    process; for customers, suppliers, parts with their partsupp rows and orders with their
    lines. *)
Theorem chunk_files_make_the_table getenv yes_no pool ds op fs :
  plain_load op -> dists_ok ds ->
  chunks_agree getenv yes_no pool ds op fs CUST [CUST] /\
  chunks_agree getenv yes_no pool ds op fs SUPP [SUPP] /\
  chunks_agree getenv yes_no pool ds op fs PART_PSUPP [PART; PSUPP] /\
  chunks_agree getenv yes_no pool ds op fs ORDER_LINE [ORDER; LINE].
Proof.
  intros Hop Hds. split_and!; [now apply cust_chunks|now apply supp_chunks|now apply part_chunks|now apply order_chunks].
Qed.

Definition sample_dists : dists :=
  mkDists sample_dist sample_dist sample_dist sample_dist sample_dist sample_dist sample_dist sample_dist sample_dist sample_dist.
(** [dbgen -f -s 2 -C 3 -S 1] *)
Definition sample_options : options :=
  match process_options (fun _ => true) default_options [Opt_f; Opt_s 2 1; Opt_C 3; Opt_S 1] with
  | Some op => op
  | None => default_options
  end.

Lemma chunk_files_make_the_table_witness :
  let agree := chunks_agree (fun _ => None) (fun _ => false) (fun _ => 97) sample_dists sample_options ∅ in
  agree CUST [CUST] /\ agree SUPP [SUPP] /\ agree PART_PSUPP [PART; PSUPP] /\ agree ORDER_LINE [ORDER; LINE].
Proof.
  apply (chunk_files_make_the_table (fun _ => None) (fun _ => false) (fun _ => 97) sample_dists sample_options ∅).
  - assert (E : op_scale sample_options = 2 /\ op_children sample_options = 3) by now vm_compute. destruct E as [E1 E2].
    split; [reflexivity|reflexivity|reflexivity|reflexivity|rewrite E1; lia|rewrite E2; lia|reflexivity|].
    apply Forall_forall. intros b Hb. vm_compute in Hb.
    repeat (destruct Hb as [Hb|Hb]; [subst b; lia|]). destruct Hb.
  - split_and!; try exact sample_dist_ok. reflexivity.
Defined.

(** From scale factor 30000 on the customer and part keys are drawn with the 64-bit generator,
    but chunks still seek their streams with the 32-bit one: after one skipped row the seed
    of the customer keys is not the one a generated row leaves. *)
Theorem large_scale_seek_uses_wrong_generator (hi : Z) :
  match dss_random64 1 hi O_CKEY_SD Seed with
  | (Ok _, s) => val s O_CKEY_SD <> val (sd_order 0 1 Seed) O_CKEY_SD
  | _ => False
  end.
Proof.
  unfold dss_random64. change ((O_CKEY_SD <? 0) || (MAX_STREAM <? O_CKEY_SD)) with false. cbv iota.
  destruct (hi <? 1); unfold bindM, modifyM, retM; vm_compute; congruence.
Qed.
