(* ===== verification/TextPool.v ===== *)
(** The text pool of the data generator (src/benchmark/tpch/dbgen/text.c): sentences drawn from
    the grammar of dists.dss into a local buffer, the loop that fills the pool with them, and
    [dbg_text] with the flag that tells whether the pool is filled.

    A character array is a [bytes] of its declared size, a pointer into it an index; what is
    written outside is undefined. Sentences use one random stream; [Reads] states what a
    computation gives from any two states of the streams that agree on it. *)
From Stdlib Require Import String.
From S2P Require Import Prelude Fmt Clib Rng Build Dist Rows Driver.

Definition MAX_GRAMMAR_LEN : Z := 12.
Definition MAX_SENT_LEN : Z := 256.

(** The distributions of words and of forms. *)
Record lexicon : Type := mkLexicon {
  nouns : distribution; verbs : distribution; adverbs : distribution; articles : distribution;
  prepositions : distribution; auxillaries : distribution; terminators : distribution;
  adjectives : distribution; grammar : distribution; np : distribution; vp : distribution;
}.

(** ** Writing into an array *)
Definition poke (buf : bytes) (i c : Z) : M streams bytes := ofOption (splice i [c] buf).
Definition strcpy (buf : bytes) (dest : Z) (src : bytes) : M streams bytes := ofOption (splice dest (src ++ [0]) buf).
(** The string at the start of an array; without a terminator, reading it is undefined. *)
Definition c_string (buf : bytes) : M streams bytes :=
  if existsb (Z.eqb 0) buf then retM (until_zero buf) else failM Undefined.

(** [strlen(DIST_MEMBER(d, i))] *)
Definition member_length (d : distribution) (i : Z) : M streams Z :=
  match (if 0 <=? i then d_list d !! Z.to_nat i else None) with
  | Some (_, text) => retM (strlen text)
  | None => failM Undefined
  end.

(** The tokens [strtok] finds with a blank as the delimiter. *)
Fixpoint tokens (l : bytes) : list bytes :=
  match l with
  | [] => []
  | c :: l' =>
      if c =? 32 then tokens l'
      else match l' with
           | [] => [[c]]
           | b :: _ => if b =? 32 then [c] :: tokens l'
                       else match tokens l' with
                            | t :: ts => (c :: t) :: ts
                            | [] => [[c]]
                            end
           end
  end.

Section Text.
Context (G : lexicon) (sd : Z).

(** [pick_str] of a form, into the array [syntax]. *)
Definition pick_form (d : distribution) : M streams bytes :=
  let* '(_, syntax) := pick_str d sd in
  do* definedM (strlen syntax <=? MAX_GRAMMAR_LEN) in
  retM syntax.

(** [pick_str(src, sd, dest)] and the length of what was picked; [src] is null for a letter
    without a class. *)
Definition pick_word (src : option distribution) (buf : bytes) (dest : Z) : M streams (Z * bytes) :=
  match src with
  | None => failM Undefined
  | Some src =>
      let* '(i, text) := pick_str src sd in
      let* buf := strcpy buf dest text in
      let* i := member_length src i in
      retM (i, buf)
  end.

(** ** Phrases *)

(** The switch of [txt_vp]. *)
Definition vp_class (c : Z) : option distribution :=
  if c =? 68 then Some (adverbs G)
  else if c =? 86 then Some (verbs G)
  else if c =? 88 then Some (auxillaries G)
  else None.
(** The body of the loop of [txt_vp]: [dest], [res] and the array. *)
Definition vp_token (tok : bytes) (st : Z * Z * bytes) : M streams (Z * Z * bytes) :=
  let '(dest, res, buf) := st in
  match tok with
  | [] => retM st
  | c :: more =>
      let* '(i, buf) := pick_word (vp_class c) buf dest in
      let dest := dest + i in
      let res := res + i in
      let* '(dest, res, buf) := (match more with
                                 | p :: _ =>
                                     let dest := dest + 1 in
                                     let res := res + 1 in
                                     let* buf := poke buf dest p in retM (dest, res, buf)
                                 | [] => retM (dest, res, buf)
                                 end) in
      let* buf := poke buf dest 32 in
      retM (dest + 1, res + 1, buf)
  end.

(** The switch of [txt_np]. *)
Definition np_class (c : Z) : option distribution :=
  if c =? 65 then Some (articles G)
  else if c =? 74 then Some (adjectives G)
  else if c =? 68 then Some (adverbs G)
  else if c =? 78 then Some (nouns G)
  else None.
Definition np_token (tok : bytes) (st : Z * Z * bytes) : M streams (Z * Z * bytes) :=
  let '(dest, res, buf) := st in
  match tok with
  | [] => retM st
  | c :: more =>
      let* '(i, buf) := pick_word (np_class c) buf dest in
      let dest := dest + i in
      let res := res + i in
      let* '(dest, res, buf) := (match more with
                                 | p :: _ => let* buf := poke buf dest p in retM (dest + 1, res + 1, buf)
                                 | [] => retM (dest, res, buf)
                                 end) in
      let* buf := poke buf dest 32 in
      retM (dest + 1, res + 1, buf)
  end.

Fixpoint token_loop (step : bytes -> Z * Z * bytes -> M streams (Z * Z * bytes)) (toks : list bytes)
    (st : Z * Z * bytes) : M streams (Z * Z * bytes) :=
  match toks with
  | [] => retM st
  | tok :: toks' => let* st := step tok st in token_loop step toks' st
  end.

(** The length of the phrase, and the array it was written to. *)
Definition txt_vp (buf : bytes) (dest : Z) : M streams (Z * bytes) :=
  let* syntax := pick_form (vp G) in
  let* '(_, res, buf) := token_loop vp_token (tokens syntax) (dest, 0, buf) in
  retM (res, buf).
Definition txt_np (buf : bytes) (dest : Z) : M streams (Z * bytes) :=
  let* syntax := pick_form (np G) in
  let* '(_, res, buf) := token_loop np_token (tokens syntax) (dest, 0, buf) in
  retM (res, buf).

(** ** Sentences *)

(** The switch of [txt_sentence]: [dest], [len] and the array. A letter without a case leaves
    the length of the part before it. *)
Definition sentence_part (c dest len : Z) (buf : bytes) : M streams (Z * Z * bytes) :=
  if c =? 86 then let* '(len, buf) := txt_vp buf dest in retM (dest, len, buf)
  else if c =? 78 then let* '(len, buf) := txt_np buf dest in retM (dest, len, buf)
  else if c =? 80 then
    let* '(len, buf) := pick_word (Some (prepositions G)) buf dest in
    let* buf := strcpy buf (dest + len) (str " the ") in
    let len := len + 5 in
    let* '(n, buf) := txt_np buf (dest + len) in
    retM (dest, len + n, buf)
  else if c =? 84 then
    let dest := dest - 1 in
    let* '(len, buf) := pick_word (Some (terminators G)) buf dest in
    retM (dest, len, buf)
  else retM (dest, len, buf).

(** From the label [next_token], with what is left of [syntax]. *)
Fixpoint next_token (cptr : bytes) (dest res len : Z) (buf : bytes) : M streams (Z * Z * bytes) :=
  match cptr with
  | [] => retM (dest, res, buf)
  | c :: cptr' =>
      if c =? 32 then next_token cptr' dest res len buf
      else
        let* '(dest, len, buf) := sentence_part c dest len buf in
        let dest := dest + len in
        let res := res + len in
        match cptr' with
        | p :: _ =>
            if p =? 32 then next_token cptr' dest res len buf
            else
              let dest := dest + 1 in
              let* buf := poke buf dest p in
              next_token cptr' dest (res + 1) len buf
        | [] => next_token cptr' dest res len buf
        end
  end.

Definition txt_sentence (buf : bytes) : M streams (Z * bytes) :=
  let* syntax := pick_form (grammar G) in
  let* '(dest, res, buf) := next_token syntax 0 0 0 buf in
  let* buf := poke buf dest 0 in
  retM (res - 1, buf).

(** ** The pool *)

(** The loop of [dbg_text] over a pool of [size] bytes: [wordlen], [cp], the local array and the
    pool. [wordlen] grows in every pass. *)
Fixpoint fill_loop (fuel : nat) (size wordlen cp : Z) (sentence szTextPool : bytes) : M streams bytes :=
  match fuel with
  | O => failM Undefined
  | S f =>
      if negb (wordlen <? size) then poke szTextPool cp 0
      else
        let* '(s_len, sentence) := txt_sentence sentence in
        do* checkM (negb (s_len <? 0)) in
        let needed := size - wordlen in
        if s_len + 1 <=? needed then
          let* text := c_string sentence in
          let* szTextPool := strcpy szTextPool cp text in
          let cp := cp + s_len in
          let wordlen := wordlen + s_len + 1 in
          let* szTextPool := poke szTextPool cp 32 in
          fill_loop f size wordlen (cp + 1) sentence szTextPool
        else
          let* sentence := poke sentence needed 0 in
          let* text := c_string sentence in
          let* szTextPool := strcpy szTextPool cp text in
          fill_loop f size (wordlen + needed) (cp + needed) sentence szTextPool
  end.
(** [sentence] is not initialised, the static array of the pool is zero. *)
Definition fill_pool (size : Z) (sentence : bytes) : M streams bytes :=
  fill_loop (S (Z.to_nat size)) size 0 0 sentence (replicate (Z.to_nat size + 1) 0).
End Text.

(** The streams, and the pool when [bInit] is set. *)
Record text_state : Type := mkText { tx_streams : streams; tx_pool : option bytes }.
Definition set_streams (s : streams) (st : text_state) : text_state := mkText s (tx_pool st).
Definition on_streams {A} (m : M streams A) : M text_state A := zoomM tx_streams set_streams m.

(** The stream of the pool. *)
Definition TEXT_SD : Z := 5.

(** [dbg_text] with the string it leaves in [tgt]; [junk] is what [sentence] holds before. *)
Definition preload (G : lexicon) (size : Z) (junk : bytes) : M text_state bytes :=
  let* st := getM in
  match tx_pool st with
  | Some szTextPool => retM szTextPool
  | None =>
      let* szTextPool := on_streams (fill_pool G TEXT_SD size junk) in
      do* modifyM (fun st => mkText (tx_streams st) (Some szTextPool)) in
      retM szTextPool
  end.
Definition pool_text (G : lexicon) (size : Z) (junk : bytes) (min max sd : Z) : M text_state bytes :=
  let* szTextPool := preload G size junk in
  let* hgOffset := on_streams (dss_random 0 (size - max) sd) in
  let* hgLength := on_streams (dss_random min max sd) in
  do* definedM ((0 <=? hgOffset) && (0 <=? hgLength) && (hgOffset <? strlen szTextPool)) in
  retM (until_zero (take (Z.to_nat hgLength) (drop (Z.to_nat hgOffset) szTextPool))).

(** ** The language of the grammar *)

Definition words (d : distribution) : list bytes := map snd (d_list d).

(** A token stands for a word of its class, its punctuation and a blank. *)
Definition token_text (class : Z -> option distribution) (tok text : bytes) : Prop :=
  exists c more d w, tok = c :: more /\ class c = Some d /\ w ∈ words d /\ text = w ++ more ++ [32].
Fixpoint phrase_text (class : Z -> option distribution) (toks : list bytes) (text : bytes) : Prop :=
  match toks with
  | [] => text = []
  | tok :: toks' => exists a b, text = a ++ b /\ token_text class tok a /\ phrase_text class toks' b
  end.
Definition noun_phrase (G : lexicon) (text : bytes) : Prop :=
  exists form, form ∈ words (np G) /\ phrase_text (np_class G) (tokens form) text.
Definition verb_phrase (G : lexicon) (text : bytes) : Prop :=
  exists form, form ∈ words (vp G) /\ phrase_text (vp_class G) (tokens form) text.
Definition part_text (G : lexicon) (c : Z) (text : bytes) : Prop :=
  (c = 86 /\ verb_phrase G text) \/ (c = 78 /\ noun_phrase G text) \/
  (c = 80 /\ exists w n, w ∈ words (prepositions G) /\ noun_phrase G n /\ text = w ++ str " the " ++ n).
(** The parts of a form before its terminator. *)
Fixpoint parts_text (G : lexicon) (form text : bytes) : Prop :=
  match form with
  | c :: _ :: form' => exists a b, text = a ++ b /\ part_text G c a /\ parts_text G form' b
  | _ => text = []
  end.
(** The terminator takes the place of the last blank. *)
Definition is_sentence (G : lexicon) (text : bytes) : Prop :=
  exists form body t, form ∈ words (grammar G) /\ parts_text G form (body ++ [32]) /\
    t ∈ words (terminators G) /\ text = body ++ t.

(** ** A lexicon the arrays are large enough for *)

Definition longest (d : distribution) : Z := foldr Z.max 0 (map strlen (words d)).
Definition dist_okb (d : distribution) : bool :=
  (d_count d =? Z.of_nat (length (d_list d))) &&
  match d_list d !! Z.to_nat (d_count d - 1) with
  | Some (w, _) => (1 <=? w) && (w <? MAX_LONG)
  | None => false
  end &&
  forallb (fun t => negb (strlen t =? 0) && forallb (fun c => (0 <? c) && (c <? 256)) t) (words d).

Definition token_max (class : Z -> option distribution) (tok : bytes) : Z :=
  match tok with
  | c :: _ => from_option longest 0 (class c) + strlen tok
  | [] => 0
  end.
Definition phrase_max (class : Z -> option distribution) (toks : list bytes) : Z :=
  foldr (fun tok n => token_max class tok + n) 0 toks.
Definition forms_max (class : Z -> option distribution) (d : distribution) : Z :=
  foldr Z.max 0 (map (fun form => phrase_max class (tokens form)) (words d)).
Definition part_max (G : lexicon) (c : Z) : Z :=
  if c =? 86 then forms_max (vp_class G) (vp G)
  else if c =? 78 then forms_max (np_class G) (np G)
  else longest (prepositions G) + 6 + forms_max (np_class G) (np G).
Fixpoint parts_max (G : lexicon) (form : bytes) : Z :=
  match form with
  | c :: _ :: form' => part_max G c + parts_max G form'
  | _ => 0
  end.

(** A phrase has tokens, each of a class and with at most [punct] characters behind the letter. *)
Definition phrase_form (class : Z -> option distribution) (punct : Z) (form : bytes) : bool :=
  (strlen form <=? MAX_GRAMMAR_LEN) && negb (Nat.eqb (length (tokens form)) 0) &&
  forallb (fun tok => match tok with
                      | c :: more => bool_decide (is_Some (class c)) && (strlen more <=? punct)
                      | [] => false
                      end) (tokens form).
(** A sentence has parts, each followed by a blank, and a terminator at the end. *)
Fixpoint parts_form (form : bytes) : bool :=
  match form with
  | [] => false
  | c :: form' =>
      match form' with
      | [] => c =? 84
      | b :: form'' => (b =? 32) && ((c =? 86) || (c =? 78) || (c =? 80)) && parts_form form''
      end
  end.
Definition sentence_form (G : lexicon) (form : bytes) : bool :=
  (3 <=? strlen form) && (strlen form <=? MAX_GRAMMAR_LEN) && parts_form form &&
  (parts_max G form + longest (terminators G) <=? MAX_SENT_LEN + 1).

Definition lexicon_ok (G : lexicon) : bool :=
  forallb dist_okb [nouns G; verbs G; adverbs G; articles G; prepositions G; auxillaries G; terminators G;
                    adjectives G; grammar G; np G; vp G] &&
  forallb (phrase_form (np_class G) 1) (words (np G)) &&
  forallb (phrase_form (vp_class G) 0) (words (vp G)) &&
  forallb (sentence_form G) (words (grammar G)).

(** ** One stream *)

Definition elsewhere (sd : Z) (s t : streams) : Prop :=
  forall i x, i <> Z.to_nat sd -> s !! i = Some x -> exists y, t !! i = Some y /\ same_seed x y.

(** [m1] and [m2] are the same code on arrays that were not initialised. From states that agree
    on the stream [sd] both return, [post] holds of what they return, they leave the stream in
    the same state and every other stream alone. *)
Definition Reads {A} (sd : Z) (post : A -> A -> Prop) (m1 m2 : M streams A) : Prop :=
  forall s1 s2, streams_ok s1 -> streams_ok s2 -> agree [sd] s1 s2 ->
  exists a1 a2 t1 t2, m1 s1 = (Ok a1, t1) /\ m2 s2 = (Ok a2, t2) /\ post a1 a2 /\
    streams_ok t1 /\ streams_ok t2 /\ agree [sd] t1 t2 /\ elsewhere sd s1 t1 /\ elsewhere sd s2 t2.

(** Both results stand for the same [w]. *)
Definition both {W A} (P : W -> A -> Prop) (a1 a2 : A) : Prop := exists w, P w a1 /\ P w a2.
(** Both are the same value, with a property. *)
Definition same {A} (P : A -> Prop) (a1 a2 : A) : Prop := a1 = a2 /\ P a1.

Lemma same_seed_trans x y z : same_seed x y -> same_seed y z -> same_seed x z.
Proof. unfold same_seed. intuition congruence. Qed.

Lemma elsewhere_trans sd s t u : elsewhere sd s t -> elsewhere sd t u -> elsewhere sd s u.
Proof.
  intros H1 H2 i x Hi Hx. destruct (H1 i x Hi Hx) as (y & Hy & E1). destruct (H2 i y Hi Hy) as (z & Hz & E2).
  exists z. split; [exact Hz|]. exact (same_seed_trans _ _ _ E1 E2).
Qed.

Lemma elsewhere_refl sd s : elsewhere sd s s.
Proof. intros i x _ Hx. exists x. now repeat split. Qed.

Section Reading.
Context (sd : Z).

Lemma Reads_ret {A} (post : A -> A -> Prop) a1 a2 : post a1 a2 -> Reads sd post (retM a1) (retM a2).
Proof. intros Ha s1 s2 H1 H2 Hag. exists a1, a2, s1, s2. split_and!; auto using elsewhere_refl. Qed.

Lemma Reads_bind {A B} (p1 : A -> A -> Prop) (p2 : B -> B -> Prop) m1 m2 k1 k2 :
  Reads sd p1 m1 m2 -> (forall a1 a2, p1 a1 a2 -> Reads sd p2 (k1 a1) (k2 a2)) -> Reads sd p2 (bindM m1 k1) (bindM m2 k2).
Proof.
  intros Hm Hk s1 s2 H1 H2 Hag.
  destruct (Hm s1 s2 H1 H2 Hag) as (a1 & a2 & t1 & t2 & E1 & E2 & Ha & O1 & O2 & Hag1 & M1 & M2).
  destruct (Hk a1 a2 Ha t1 t2 O1 O2 Hag1) as (b1 & b2 & w1 & w2 & F1 & F2 & Hb & P1 & P2 & Hag2 & N1 & N2).
  exists b1, b2, w1, w2. rewrite (bindM_run _ _ _ _ _ E1), (bindM_run _ _ _ _ _ E2).
  split_and!; auto; eapply elsewhere_trans; eauto.
Qed.

Lemma Reads_weaken {A} (p1 p2 : A -> A -> Prop) m1 m2 : (forall a1 a2, p1 a1 a2 -> p2 a1 a2) -> Reads sd p1 m1 m2 -> Reads sd p2 m1 m2.
Proof.
  intros Hp H s1 s2 H1 H2 Hag. destruct (H s1 s2 H1 H2 Hag) as (a1 & a2 & t1 & t2 & E1 & E2 & Ha & Hrest).
  exists a1, a2, t1, t2. auto.
Qed.

Lemma Reads_opt {A} (post : A -> A -> Prop) o1 o2 a1 a2 : o1 = Some a1 -> o2 = Some a2 -> post a1 a2 -> Reads sd post (ofOption o1) (ofOption o2).
Proof. intros -> -> Ha. now apply Reads_ret. Qed.

Lemma Reads_draws {A} n (post : A -> Prop) m : Draws [sd] (only sd n) post m -> 0 <= sd -> Reads sd (same post) m m.
Proof.
  intros Hm Hsd s1 s2 H1 H2 Hag.
  destruct (Hm s1 s2 H1 H2 Hag) as (a & t1 & t2 & E1 & E2 & Ha & O1 & O2 & Hag1 & M1 & M2).
  assert (He : forall s t, moved (only sd n) s t -> elsewhere sd s t).
  { intros s t Hmv i x Hi Hx. specialize (Hmv (Z.of_nat i) x ltac:(lia)). rewrite Nat2Z.id in Hmv.
    destruct (Hmv Hx) as (k & y & Hy & Hk & Hv & Hu & Ht & Hb). exists y. split; [exact Hy|].
    unfold only in Hk. rewrite (proj2 (Z.eqb_neq (Z.of_nat i) sd)) in Hk by lia.
    assert (k = 0%nat) as -> by lia. repeat split; cbn in *; congruence || lia. }
  exists a, a, t1, t2. split_and!; auto. now split.
Qed.
End Reading.

(** ** Arrays *)

(** An array of [N] bytes that starts with [p]. *)
Definition arr (N : Z) (p buf : bytes) : Prop := p `prefix_of` buf /\ strlen buf = N.

Lemma strlen_app (a b : bytes) : strlen (a ++ b) = strlen a + strlen b.
Proof. unfold strlen. rewrite length_app. lia. Qed.
Lemma strlen_nonneg (a : bytes) : 0 <= strlen a.
Proof. unfold strlen. lia. Qed.

Lemma arr_app N p q buf : arr N (p ++ q) buf -> arr N p buf.
Proof. intros [[k ->] H]. split; [exists (q ++ k); now rewrite app_assoc|exact H]. Qed.

Lemma arr_splice N p src buf : arr N p buf -> strlen p + strlen src <= N ->
  exists buf', splice (strlen p) src buf = Some buf' /\ arr N (p ++ src) buf'.
Proof.
  intros [[k ->] HN] Hlen. rewrite strlen_app in HN. unfold splice.
  pose proof (strlen_nonneg p). rewrite (proj2 (Z.leb_le 0 (strlen p))), (proj2 (Z.leb_le _ _)) by (rewrite ?strlen_app; lia).
  cbn [andb]. eexists. split; [reflexivity|]. unfold arr, strlen in *. rewrite Nat2Z.id, take_app_length.
  split; [exists (drop (length src) k); now rewrite <- drop_drop, drop_app_length, app_assoc|].
  rewrite <- drop_drop, drop_app_length, !length_app, length_drop. lia.
Qed.

Lemma longest_member d w : w ∈ words d -> strlen w <= longest d.
Proof.
  unfold longest. induction (words d) as [|x l IH]; intros Hw; [now apply elem_of_nil in Hw|]. cbn.
  apply elem_of_cons in Hw as [->|Hw]; [lia|specialize (IH Hw); lia].
Qed.

Lemma longest_nonneg d : 0 <= longest d.
Proof. unfold longest. induction (words d); cbn; lia. Qed.

Lemma dist_okb_ok d : dist_okb d = true -> dist_ok d.
Proof.
  unfold dist_okb, dist_ok. rewrite !andb_true_iff. intros [[Hc Hw] _]. split; [lia|].
  destruct (d_list d !! Z.to_nat (d_count d - 1)) as [[w t]|]; [|discriminate]. exists w, t. split; [reflexivity|lia].
Qed.

Lemma dist_okb_words d w : dist_okb d = true -> w ∈ words d -> w <> [] /\ cstr w.
Proof.
  unfold dist_okb. rewrite !andb_true_iff. intros [_ Hf] Hw. rewrite forallb_forall in Hf.
  specialize (Hf w (proj1 (list_elem_of_In _ _) Hw)). rewrite andb_true_iff in Hf. destruct Hf as [Hne Hc]. split.
  - intros ->. discriminate.
  - apply list.Forall_forall. intros x Hx. rewrite forallb_forall in Hc.
    specialize (Hc x (proj1 (list_elem_of_In _ _) Hx)). lia.
Qed.

Section Sentences.
Context (G : lexicon) (sd : Z) (Hsd : 0 <= sd <= MAX_STREAM) (HG : lexicon_ok G = true).

Lemma one_stream : streams_of_table [sd].
Proof. intros i Hi. apply list_elem_of_singleton in Hi as ->. exact Hsd. Qed.

Lemma pick_str_reads d : dist_okb d = true -> Reads sd (same (member d)) (pick_str d sd) (pick_str d sd).
Proof.
  intros Hd. apply (Reads_draws sd 1); [|lia].
  apply pick_str_member; [exact one_stream|now apply dist_okb_ok|now apply list_elem_of_singleton].
Qed.

Lemma member_word d i w : member d (i, w) -> w ∈ words d.
Proof. intros [_ [v Hv]]. apply list_elem_of_lookup_2 in Hv. exact (list_elem_of_fmap_2 snd _ _ Hv). Qed.

Lemma pick_form_reads d :
  dist_okb d = true -> (forall form, form ∈ words d -> strlen form <= MAX_GRAMMAR_LEN) ->
  Reads sd (same (fun form => form ∈ words d)) (pick_form sd d) (pick_form sd d).
Proof.
  intros Hd Hlen. unfold pick_form. eapply Reads_bind; [exact (pick_str_reads d Hd)|].
  intros [i form] ? [<- Hm]. apply member_word in Hm. rewrite (proj2 (Z.leb_le _ _)) by auto. now apply Reads_ret.
Qed.

(** A word and its terminator are written; what counts is the word. *)
Lemma pick_word_reads d N p buf1 buf2 :
  dist_okb d = true -> arr N p buf1 -> arr N p buf2 -> strlen p + longest d + 1 <= N ->
  Reads sd (both (fun w '(i, buf') => w ∈ words d /\ i = strlen w /\ arr N (p ++ w) buf'))
    (pick_word sd (Some d) buf1 (strlen p)) (pick_word sd (Some d) buf2 (strlen p)).
Proof.
  intros Hd Ha1 Ha2 Hroom. unfold pick_word. eapply Reads_bind; [exact (pick_str_reads d Hd)|].
  intros [i w] ? [<- Hm]. pose proof (member_word _ _ _ Hm) as Hw. pose proof (longest_member _ _ Hw) as Hl.
  assert (Hfit : strlen p + strlen (w ++ [0]) <= N) by (rewrite strlen_app; change (strlen [0]) with 1; lia).
  destruct (arr_splice N p (w ++ [0]) buf1 Ha1 Hfit) as (b1 & Hs1 & Hb1).
  destruct (arr_splice N p (w ++ [0]) buf2 Ha2 Hfit) as (b2 & Hs2 & Hb2).
  eapply Reads_bind; [exact (Reads_opt sd (fun x y => x = b1 /\ y = b2) _ _ _ _ Hs1 Hs2 (conj eq_refl eq_refl))|].
  intros ? ? [-> ->]. destruct Hm as [Hi [v Hv]]. cbn [fst snd] in *.
  unfold member_length. rewrite (proj2 (Z.leb_le 0 i) Hi), Hv. apply Reads_ret. rewrite app_assoc in Hb1, Hb2.
  exists w. split; (split_and!; [exact Hw|reflexivity|]); eapply arr_app; eassumption.
Qed.

Lemma poke_reads N p buf1 buf2 c : arr N p buf1 -> arr N p buf2 -> strlen p + 1 <= N ->
  Reads sd (fun b1 b2 => arr N (p ++ [c]) b1 /\ arr N (p ++ [c]) b2) (poke buf1 (strlen p) c) (poke buf2 (strlen p) c).
Proof.
  intros Ha1 Ha2 Hr. destruct (arr_splice N p [c] buf1 Ha1 Hr) as (b1 & Hs1 & Hb1).
  destruct (arr_splice N p [c] buf2 Ha2 Hr) as (b2 & Hs2 & Hb2). exact (Reads_opt sd _ _ _ _ _ Hs1 Hs2 (conj Hb1 Hb2)).
Qed.

(** ** Phrases *)

(** The variables of a loop that has written [p]. *)
Definition at_ (N : Z) (p : bytes) (r : Z) (st : Z * Z * bytes) : Prop :=
  let '(dest, res, buf) := st in arr N p buf /\ dest = strlen p /\ res = r.

(** The last statements of a pass: the blank. *)
Lemma blank_reads N p r st1 st2 : at_ N p r st1 -> at_ N p r st2 -> strlen p + 1 <= N ->
  Reads sd (fun st1' st2' => at_ N (p ++ [32]) (r + 1) st1' /\ at_ N (p ++ [32]) (r + 1) st2')
    (let* buf := poke st1.2 st1.1.1 32 in retM (st1.1.1 + 1, st1.1.2 + 1, buf))
    (let* buf := poke st2.2 st2.1.1 32 in retM (st2.1.1 + 1, st2.1.2 + 1, buf)).
Proof.
  destruct st1 as [[d1 r1] b1], st2 as [[d2 r2] b2]. intros (Ha1 & -> & ->) (Ha2 & -> & ->) Hr. cbn [fst snd].
  eapply Reads_bind; [exact (poke_reads N p b1 b2 32 Ha1 Ha2 Hr)|]. intros b1' b2' [Hb1 Hb2]. apply Reads_ret. cbn.
  rewrite strlen_app. auto.
Qed.

Definition class_ok (class : Z -> option distribution) : Prop := forall c d, class c = Some d -> dist_okb d = true.

(** What a pass or a loop appends. *)
Definition appends (N : Z) (p : bytes) (r : Z) (lang : bytes -> Prop) : Z * Z * bytes -> Z * Z * bytes -> Prop :=
  both (fun a st => lang a /\ at_ N (p ++ a) (r + strlen a) st).

Definition step_ok (class : Z -> option distribution) (punct : Z) (step : bytes -> Z * Z * bytes -> M streams (Z * Z * bytes)) : Prop :=
  forall c more d N p r st1 st2, class c = Some d -> strlen more <= punct -> strlen p + token_max class (c :: more) <= N ->
  at_ N p r st1 -> at_ N p r st2 ->
  Reads sd (appends N p r (token_text class (c :: more))) (step (c :: more) st1) (step (c :: more) st2).

Lemma token_appends class N p r c more d w st1 st2 :
  class c = Some d -> w ∈ words d -> at_ N ((p ++ w ++ more) ++ [32]) (r + strlen w + strlen more + 1) st1 ->
  at_ N ((p ++ w ++ more) ++ [32]) (r + strlen w + strlen more + 1) st2 -> appends N p r (token_text class (c :: more)) st1 st2.
Proof.
  intros Hc Hw H1 H2. exists (w ++ more ++ [32]).
  replace (r + strlen (w ++ more ++ [32])) with (r + strlen w + strlen more + 1) by (rewrite !strlen_app; change (strlen [32]) with 1; lia).
  rewrite <- !app_assoc in *. split; (split; [exists c, more, d, w; auto|assumption]).
Qed.

Lemma np_token_ok : class_ok (np_class G) -> step_ok (np_class G) 1 (np_token G sd).
Proof.
  intros Hok c more d N p r [[d1 r1] buf1] [[d2 r2] buf2] Hc Hm Hroom (Ha1 & -> & ->) (Ha2 & -> & ->).
  cbn [np_token token_max] in *. rewrite Hc in *. cbn [from_option] in Hroom.
  assert (Hlen : strlen (c :: more) = 1 + strlen more) by (unfold strlen; cbn; lia). pose proof (strlen_nonneg more).
  eapply Reads_bind; [apply (pick_word_reads d N p buf1 buf2 (Hok _ _ Hc) Ha1 Ha2); lia|].
  intros [i1 b1] [i2 b2] (w & (Hw & -> & Hb1) & (_ & -> & Hb2)). pose proof (longest_member _ _ Hw) as Hl.
  eapply Reads_bind with (p1 := fun st1 st2 => at_ N (p ++ w ++ more) (r + strlen w + strlen more) st1 /\
                                              at_ N (p ++ w ++ more) (r + strlen w + strlen more) st2).
  - destruct more as [|x [|? ?]]; [..|unfold strlen in Hm; cbn in Hm; lia].
    + apply Reads_ret. rewrite app_nil_r. cbn. rewrite strlen_app, !Z.add_0_r. auto.
    + change (strlen [x]) with 1 in *. rewrite <- strlen_app. eapply Reads_bind; [apply (poke_reads N (p ++ w) b1 b2 x Hb1 Hb2); rewrite strlen_app; lia|].
      intros b1' b2' [Hb1' Hb2']. apply Reads_ret. cbn. rewrite app_assoc, !strlen_app. auto.
  - intros st1 st2 [H1 H2]. eapply Reads_weaken; [|pose proof (blank_reads N _ _ st1 st2 H1 H2) as Hbl; destruct st1 as [[? ?] ?], st2 as [[? ?] ?]; apply Hbl].
    + intros st1' st2' [H1' H2']. exact (token_appends _ _ _ _ _ _ _ _ _ _ Hc Hw H1' H2').
    + rewrite !strlen_app. lia.
Qed.

Lemma vp_token_ok : class_ok (vp_class G) -> step_ok (vp_class G) 0 (vp_token G sd).
Proof.
  intros Hok c more d N p r [[d1 r1] buf1] [[d2 r2] buf2] Hc Hm Hroom (Ha1 & -> & ->) (Ha2 & -> & ->).
  cbn [vp_token token_max] in *. rewrite Hc in *. cbn [from_option] in Hroom.
  destruct more as [|? ?]; [|unfold strlen in Hm; cbn in Hm; lia]. change (strlen [c]) with 1 in Hroom.
  eapply Reads_bind; [apply (pick_word_reads d N p buf1 buf2 (Hok _ _ Hc) Ha1 Ha2); lia|].
  intros [i1 b1] [i2 b2] (w & (Hw & -> & Hb1) & (_ & -> & Hb2)). pose proof (longest_member _ _ Hw) as Hl.
  assert (H : forall b, arr N (p ++ w) b -> at_ N (p ++ w ++ []) (r + strlen w + strlen []) (strlen p + strlen w, r + strlen w, b)).
  { intros b Hb. cbn. rewrite app_nil_r, strlen_app, Z.add_0_r. auto. }
  eapply Reads_weaken; [|apply (blank_reads N _ _ _ _ (H b1 Hb1) (H b2 Hb2)); rewrite app_nil_r, strlen_app; lia].
  intros st1' st2' [H1' H2']. exact (token_appends _ _ _ _ _ _ _ _ _ _ Hc Hw H1' H2').
Qed.
Lemma token_text_max class tok a : token_text class tok a -> strlen a <= token_max class tok.
Proof.
  intros (c & more & d & w & -> & Hc & Hw & ->). cbn [token_max]. rewrite Hc. cbn [from_option]. pose proof (longest_member _ _ Hw).
  rewrite !strlen_app. change (strlen [32]) with 1. unfold strlen in *. cbn [length]. lia.
Qed.

Lemma phrase_text_max class toks : forall a, phrase_text class toks a -> strlen a <= phrase_max class toks.
Proof.
  induction toks as [|tok toks IH]; intros a Ha; cbn [phrase_text phrase_max foldr] in *; [subst; reflexivity|].
  destruct Ha as (x & y & -> & Hx & Hy). rewrite strlen_app. pose proof (token_text_max _ _ _ Hx). specialize (IH y Hy).
  unfold phrase_max in IH. lia.
Qed.

Definition tokens_ok (class : Z -> option distribution) (punct : Z) (toks : list bytes) : Prop :=
  Forall (fun tok => exists c more d, tok = c :: more /\ class c = Some d /\ strlen more <= punct) toks.

Lemma phrase_max_nonneg class toks : 0 <= phrase_max class toks.
Proof.
  unfold phrase_max. induction toks as [|tok toks IH]; cbn; [lia|]. assert (0 <= token_max class tok); [|lia].
  unfold token_max. destruct tok as [|c more]; [lia|]. pose proof (strlen_nonneg (c :: more)).
  destruct (class c) as [d|]; cbn; [pose proof (longest_nonneg d)|]; lia.
Qed.

Lemma token_loop_reads class punct step N toks :
  step_ok class punct step -> tokens_ok class punct toks -> forall p r st1 st2, strlen p + phrase_max class toks <= N ->
  at_ N p r st1 -> at_ N p r st2 ->
  Reads sd (appends N p r (phrase_text class toks)) (token_loop step toks st1) (token_loop step toks st2).
Proof.
  intros Hstep Htoks. induction Htoks as [|tok toks (c & more & d & -> & Hc & Hm) Htoks IH]; intros p r st1 st2 Hroom H1 H2; cbn [token_loop].
  - apply Reads_ret. exists []. rewrite app_nil_r, Z.add_0_r. now repeat split.
  - change (phrase_max class ((c :: more) :: toks)) with (token_max class (c :: more) + phrase_max class toks) in Hroom.
    pose proof (phrase_max_nonneg class toks). eapply Reads_bind; [apply (Hstep c more d N p r st1 st2 Hc Hm); [lia|assumption..]|].
    intros st1' st2' (a & [Ha H1'] & [_ H2']). pose proof (token_text_max _ _ _ Ha) as Hmax.
    eapply Reads_weaken; [|apply (IH (p ++ a) (r + strlen a) st1' st2'); [rewrite strlen_app; lia|assumption..]].
    intros st1'' st2'' (b & [Hb H1''] & [_ H2'']). exists (a ++ b). rewrite app_assoc, strlen_app, Z.add_assoc.
    split; (split; [exists a, b; auto|assumption]).
Qed.

Lemma phrase_form_tokens class punct form :
  phrase_form class punct form = true -> strlen form <= MAX_GRAMMAR_LEN /\ tokens form <> [] /\ tokens_ok class punct (tokens form).
Proof.
  unfold phrase_form. rewrite !andb_true_iff. intros [[Hlen Hne] Hf]. split; [lia|]. split; [intros E; now rewrite E in Hne|].
  apply list.Forall_forall. intros tok Htok. rewrite forallb_forall in Hf. specialize (Hf tok (proj1 (list_elem_of_In _ _) Htok)).
  destruct tok as [|c more]; [discriminate|]. apply andb_true_iff in Hf as [Hc Hm]. apply bool_decide_eq_true_1 in Hc as [d Hd].
  exists c, more, d. split_and!; auto. lia.
Qed.

Lemma forms_max_form class d form : form ∈ words d -> phrase_max class (tokens form) <= forms_max class d.
Proof.
  unfold forms_max. induction (words d) as [|x l IH]; intros Hw; [now apply elem_of_nil in Hw|]. cbn.
  apply elem_of_cons in Hw as [->|Hw]; [lia|specialize (IH Hw); lia].
Qed.

(** A phrase of a distribution of forms: not empty, and with a blank at its end. *)
Definition ends_blank (a : bytes) : Prop := exists q, a = q ++ [32].

Lemma phrase_ends class toks : forall a, toks <> [] -> phrase_text class toks a -> ends_blank a.
Proof.
  induction toks as [|tok toks IH]; intros a Hne Ha; [contradiction|]. destruct Ha as (x & y & -> & Hx & Hy).
  destruct toks as [|tok' toks].
  - cbn in Hy. subst y. rewrite app_nil_r. destruct Hx as (c & more & d & w & _ & _ & _ & ->). exists (w ++ more). now rewrite app_assoc.
  - destruct (IH y ltac:(discriminate) Hy) as [q ->]. exists (x ++ q). now rewrite app_assoc.
Qed.

(** What a phrase or a part appends: its length is returned. *)
Definition wrote (N : Z) (p : bytes) (lang : bytes -> Prop) (bound : Z) : Z * bytes -> Z * bytes -> Prop :=
  both (fun a '(n, buf) => lang a /\ ends_blank a /\ strlen a <= bound /\ n = strlen a /\ arr N (p ++ a) buf).

Lemma wrote_lang N p (l1 l2 : bytes -> Prop) bound r1 r2 : (forall a, l1 a -> l2 a) -> wrote N p l1 bound r1 r2 -> wrote N p l2 bound r1 r2.
Proof.
  intros Hl (a & H1 & H2). exists a. destruct r1 as [n1 b1], r2 as [n2 b2]. destruct H1 as [? ?], H2 as [? ?]. auto 6.
Qed.

Lemma phrase_reads class punct step d N p buf1 buf2 :
  step_ok class punct step -> dist_okb d = true -> (forall form, form ∈ words d -> phrase_form class punct form = true) ->
  arr N p buf1 -> arr N p buf2 -> strlen p + forms_max class d <= N ->
  let phrase buf := (let* syntax := pick_form sd d in
                     let* '(_, res, buf) := token_loop step (tokens syntax) (strlen p, 0, buf) in
                     retM (res, buf)) in
  Reads sd (wrote N p (fun a => exists form, form ∈ words d /\ phrase_text class (tokens form) a) (forms_max class d))
    (phrase buf1) (phrase buf2).
Proof.
  intros Hstep Hd Hforms Ha1 Ha2 Hroom phrase. unfold phrase. eapply Reads_bind.
  { apply (pick_form_reads d Hd). intros form Hf. exact (proj1 (phrase_form_tokens _ _ _ (Hforms form Hf))). }
  intros form ? [<- Hf]. destruct (phrase_form_tokens _ _ _ (Hforms form Hf)) as (_ & Hne & Htoks). pose proof (forms_max_form class d form Hf) as Hmax.
  eapply Reads_bind; [apply (token_loop_reads class punct step N (tokens form) Hstep Htoks p 0); [lia|cbn; auto..]|].
  intros [[d1 r1] b1] [[d2 r2] b2] (a & (Hta & Hb1 & _ & ->) & (_ & Hb2 & _ & ->)). pose proof (phrase_text_max _ _ _ Hta).
  pose proof (phrase_ends _ _ _ Hne Hta). apply Reads_ret. exists a. split; split_and!; eauto; lia.
Qed.

(** ** Sentences *)

Lemma lexicon_dists : Forall (fun d => dist_okb d = true)
  [nouns G; verbs G; adverbs G; articles G; prepositions G; auxillaries G; terminators G; adjectives G; grammar G; np G; vp G].
Proof.
  unfold lexicon_ok in HG. rewrite !andb_true_iff in HG. destruct HG as [[[H _] _] _]. apply list.Forall_forall. intros d Hd.
  rewrite forallb_forall in H. apply H. now apply list_elem_of_In.
Qed.

Ltac in_lexicon := apply (proj1 (list.Forall_forall _ _) lexicon_dists); rewrite !elem_of_cons; tauto.

Lemma np_class_ok : class_ok (np_class G).
Proof. intros c d. unfold np_class. repeat case_match; intros [= <-]; in_lexicon. Qed.
Lemma vp_class_ok : class_ok (vp_class G).
Proof. intros c d. unfold vp_class. repeat case_match; intros [= <-]; in_lexicon. Qed.

Lemma lexicon_forms :
  (forall form, form ∈ words (np G) -> phrase_form (np_class G) 1 form = true) /\
  (forall form, form ∈ words (vp G) -> phrase_form (vp_class G) 0 form = true) /\
  (forall form, form ∈ words (grammar G) -> sentence_form G form = true).
Proof.
  unfold lexicon_ok in HG. rewrite !andb_true_iff, !forallb_forall in HG. destruct HG as [[[_ Hn] Hv] Hs].
  split_and!; intros form Hf; apply list_elem_of_In in Hf; auto.
Qed.

Lemma txt_np_reads N p buf1 buf2 : arr N p buf1 -> arr N p buf2 -> strlen p + forms_max (np_class G) (np G) <= N ->
  Reads sd (wrote N p (noun_phrase G) (forms_max (np_class G) (np G))) (txt_np G sd buf1 (strlen p)) (txt_np G sd buf2 (strlen p)).
Proof.
  intros Ha1 Ha2 Hroom. apply (phrase_reads (np_class G) 1 (np_token G sd) (np G) N p buf1 buf2); auto; [|in_lexicon|apply lexicon_forms].
  apply np_token_ok, np_class_ok.
Qed.

Lemma txt_vp_reads N p buf1 buf2 : arr N p buf1 -> arr N p buf2 -> strlen p + forms_max (vp_class G) (vp G) <= N ->
  Reads sd (wrote N p (verb_phrase G) (forms_max (vp_class G) (vp G))) (txt_vp G sd buf1 (strlen p)) (txt_vp G sd buf2 (strlen p)).
Proof.
  intros Ha1 Ha2 Hroom. apply (phrase_reads (vp_class G) 0 (vp_token G sd) (vp G) N p buf1 buf2); auto; [|in_lexicon|apply lexicon_forms].
  apply vp_token_ok, vp_class_ok.
Qed.

Ltac the_len := rewrite ?strlen_app; change (strlen (str " the ")) with 5; change (strlen [0]) with 1; change (strlen [32]) with 1.

Lemma forms_max_nonneg class d : 0 <= forms_max class d.
Proof. unfold forms_max. induction (words d); cbn; lia. Qed.

(** The switch of [txt_sentence] at a part. *)
Definition part_wrote (N : Z) (p : bytes) (c : Z) (r1 r2 : Z * Z * bytes) : Prop :=
  r1.1.1 = strlen p /\ r2.1.1 = strlen p /\ wrote N p (part_text G c) (part_max G c) (r1.1.2, r1.2) (r2.1.2, r2.2).

(** A prepositional phrase: the terminator of the preposition and that of the article are
    overwritten. *)
Lemma preposition_reads N p buf1 buf2 len1 len2 :
  arr N p buf1 -> arr N p buf2 -> strlen p + (longest (prepositions G) + 6 + forms_max (np_class G) (np G)) <= N ->
  Reads sd (part_wrote N p 80) (sentence_part G sd 80 (strlen p) len1 buf1) (sentence_part G sd 80 (strlen p) len2 buf2).
Proof.
  intros Ha1 Ha2 Hroom. pose proof (forms_max_nonneg (np_class G) (np G)) as Hn.
  eapply Reads_bind; [apply (pick_word_reads (prepositions G) N p buf1 buf2); [in_lexicon|assumption..|lia]|].
  intros [n1 b1] [n2 b2] (w & (Hw & -> & Hb1) & (_ & -> & Hb2)). pose proof (longest_member _ _ Hw) as Hl.
  assert (Hfit : strlen (p ++ w) + strlen (str " the " ++ [0]) <= N) by (the_len; lia).
  destruct (arr_splice N (p ++ w) (str " the " ++ [0]) b1 Hb1 Hfit) as (c1 & Hs1 & Hc1).
  destruct (arr_splice N (p ++ w) (str " the " ++ [0]) b2 Hb2 Hfit) as (c2 & Hs2 & Hc2). rewrite strlen_app in Hs1, Hs2.
  eapply Reads_bind; [exact (Reads_opt sd (fun x y => x = c1 /\ y = c2) _ _ _ _ Hs1 Hs2 (conj eq_refl eq_refl))|].
  intros ? ? [-> ->]. rewrite app_assoc in Hc1, Hc2. apply arr_app in Hc1, Hc2. eapply Reads_bind.
  { replace (strlen p + (strlen w + 5)) with (strlen ((p ++ w) ++ str " the ")) by (the_len; lia).
    apply (txt_np_reads N _ _ _ Hc1 Hc2). the_len. lia. }
  intros [m1 e1] [m2 e2] (a & (Hna & [q ->] & Hla & -> & He1) & (_ & _ & _ & -> & He2)). apply Reads_ret.
  split; [reflexivity|]. split; [reflexivity|]. exists (w ++ str " the " ++ q ++ [32]). cbn [fst snd].
  assert (Ht : part_text G 80 (w ++ str " the " ++ q ++ [32])) by (right; right; split; [reflexivity|]; now exists w, (q ++ [32])).
  assert (Hb : ends_blank (w ++ str " the " ++ q ++ [32])) by (exists (w ++ str " the " ++ q); now rewrite <- !app_assoc).
  change (part_max G 80) with (longest (prepositions G) + 6 + forms_max (np_class G) (np G)).
  rewrite strlen_app in Hla. change (strlen [32]) with 1 in Hla. rewrite <- !app_assoc in He1, He2.
  split; (split_and!; [exact Ht|exact Hb|the_len; lia|the_len; lia|assumption]).
Qed.

Lemma part_reads N p buf1 buf2 c len1 len2 :
  c = 86 \/ c = 78 \/ c = 80 -> arr N p buf1 -> arr N p buf2 -> strlen p + part_max G c <= N ->
  Reads sd (part_wrote N p c) (sentence_part G sd c (strlen p) len1 buf1) (sentence_part G sd c (strlen p) len2 buf2).
Proof.
  intros [->|[-> | ->]] Ha1 Ha2 Hroom.
  - eapply Reads_bind; [apply (txt_vp_reads N p buf1 buf2 Ha1 Ha2 Hroom)|]. intros [n1 b1] [n2 b2] Hw.
    apply Reads_ret. split_and!; [reflexivity..|]. revert Hw. apply wrote_lang. now left.
  - eapply Reads_bind; [apply (txt_np_reads N p buf1 buf2 Ha1 Ha2 Hroom)|]. intros [n1 b1] [n2 b2] Hw.
    apply Reads_ret. split_and!; [reflexivity..|]. revert Hw. apply wrote_lang. right. now left.
  - apply preposition_reads; auto.
Qed.

Lemma parts_max_nonneg form : 0 <= parts_max G form.
Proof.
  induction form as [form IH] using (induction_ltof1 _ (@length Z)). unfold ltof in IH. destruct form as [|c [|x form]]; cbn [parts_max]; try lia.
  specialize (IH form ltac:(cbn; lia)). assert (0 <= part_max G c); [|lia]. unfold part_max. pose proof (longest_nonneg (prepositions G)).
  pose proof (forms_max_nonneg (np_class G) (np G)). repeat case_match; auto using forms_max_nonneg. lia.
Qed.

(** A form after [b]: the terminator [t] replaces the blank behind [q]. *)
Definition finished (N : Z) (form p : bytes) (r : Z) : Z * Z * bytes -> Z * Z * bytes -> Prop :=
  both (fun '(b, q, t) '(dest, res, buf) => parts_text G form b /\ t ∈ words (terminators G) /\ p ++ b = q ++ [32] /\
          dest = strlen (q ++ t) /\ res = r + strlen b + strlen t /\ strlen b <= parts_max G form /\ arr N (q ++ t) buf).

Lemma terminator_reads N p buf1 buf2 r len1 len2 :
  ends_blank p -> arr N p buf1 -> arr N p buf2 -> strlen p + longest (terminators G) <= N ->
  Reads sd (finished N [84] p r) (next_token G sd [84] (strlen p) r len1 buf1) (next_token G sd [84] (strlen p) r len2 buf2).
Proof.
  intros [q ->] Ha1 Ha2 Hroom. apply arr_app in Ha1, Ha2. rewrite strlen_app in *. change (strlen [32]) with 1 in *.
  cbn [next_token]. change (84 =? 32) with false. cbv iota. unfold sentence_part. cbn [Z.eqb Pos.eqb]. cbv zeta.
  replace (strlen q + 1 - 1) with (strlen q) by lia. eapply Reads_bind with (p1 := fun r1 r2 => r1.1.1 = strlen q /\ r2.1.1 = strlen q /\
    both (fun t st => t ∈ words (terminators G) /\ st.1.2 = strlen t /\ arr N (q ++ t) st.2) r1 r2).
  - eapply Reads_bind; [apply (pick_word_reads (terminators G) N q buf1 buf2); [in_lexicon|assumption..|lia]|].
    intros [n1 b1] [n2 b2] (t & (Ht & -> & Hb1) & (_ & -> & Hb2)). apply Reads_ret. split_and!; [reflexivity..|]. exists t. auto.
  - intros [[d1 n1] b1] [[d2 n2] b2] (E1 & E2 & t & (Ht & Hn1 & Hb1) & (_ & Hn2 & Hb2)). cbn [fst snd] in *. subst. apply Reads_ret.
    exists ([], q, t). rewrite app_nil_r, strlen_app, Z.add_0_r. split; split_and!; auto; reflexivity.
Qed.

(** From [next_token] at the start of a part or of the terminator. *)
Lemma next_token_reads N form : forall p buf1 buf2 r len1 len2,
  parts_form form = true -> ends_blank p \/ 3 <= strlen form -> arr N p buf1 -> arr N p buf2 ->
  strlen p + parts_max G form + longest (terminators G) <= N ->
  Reads sd (finished N form p r) (next_token G sd form (strlen p) r len1 buf1) (next_token G sd form (strlen p) r len2 buf2).
Proof.
  induction form as [form IH] using (induction_ltof1 _ (@length Z)). unfold ltof in IH. intros p buf1 buf2 r len1 len2 Hform Hp Ha1 Ha2 Hroom.
  destruct form as [|c [|x form]]; cbn [parts_form] in Hform; [discriminate|..].
  - apply Z.eqb_eq in Hform as ->. destruct Hp as [Hp|Hp]; [|unfold strlen in Hp; cbn in Hp; lia].
    apply terminator_reads; auto. cbn [parts_max] in Hroom. lia.
  - rewrite !andb_true_iff, !orb_true_iff, !Z.eqb_eq in Hform. destruct Hform as [[-> Hc] Hform].
    pose proof (parts_max_nonneg form). cbn [parts_max] in Hroom. pose proof (longest_nonneg (terminators G)) as Hlt. cbn [next_token].
    rewrite (proj2 (Z.eqb_neq c 32)) by lia. eapply Reads_bind; [apply (part_reads N p buf1 buf2 c len1 len2); [tauto|assumption..|lia]|].
    intros [[d1 n1] b1] [[d2 n2] b2] (E1 & E2 & a & (Hpa & [q ->] & Hla & Hn1 & Hb1) & (_ & _ & _ & Hn2 & Hb2)). cbn [fst snd] in *. subst.
    cbn [Z.eqb Pos.eqb]. rewrite <- strlen_app.
    eapply Reads_weaken; [|apply (IH form ltac:(cbn; lia) (p ++ q ++ [32]) b1 b2); auto].
    + intros [[d1' r1'] b1'] [[d2' r2'] b2'] ([[b0 q0] t] & (Hb0 & Ht & E & -> & -> & Hlb & Hb1') & (_ & _ & _ & -> & -> & _ & Hb2')).
      exists ((q ++ [32]) ++ b0, q0, t). rewrite <- app_assoc in E. rewrite !(strlen_app (q ++ [32]) b0). cbn [parts_max].
      split; (split_and!; [now exists (q ++ [32]), b0|exact Ht|exact E|reflexivity|lia|lia|assumption]).
    + left. exists (p ++ q). now rewrite app_assoc.
    + rewrite (strlen_app p). lia.
Qed.

(** ** Characters *)

Lemma tokens_chars l : forall tok x, tok ∈ tokens l -> x ∈ tok -> x ∈ l.
Proof.
  induction l as [|c l IH]; intros tok x Htok Hx; cbn [tokens] in Htok; [now apply elem_of_nil in Htok|].
  destruct (c =? 32); [right; eauto|]. destruct l as [|b l].
  - apply list_elem_of_singleton in Htok as ->. exact Hx.
  - destruct (b =? 32).
    + apply elem_of_cons in Htok as [->|Htok]; [apply list_elem_of_singleton in Hx as ->; left|right; eauto].
    + destruct (tokens (b :: l)) as [|tk ts] eqn:E.
      * apply list_elem_of_singleton in Htok as ->. apply list_elem_of_singleton in Hx as ->. left.
      * apply elem_of_cons in Htok as [->|Htok]; [|right; apply (IH tok); [now right|exact Hx]].
        apply elem_of_cons in Hx as [->|Hx]; [left|right; apply (IH tk); [left|exact Hx]].
Qed.

Lemma cstr_app a b : cstr a -> cstr b -> cstr (a ++ b).
Proof. apply Forall_app_2. Qed.

Lemma phrase_cstr class form : class_ok class -> cstr form -> forall toks a, (forall tok, tok ∈ toks -> tok ∈ tokens form) -> phrase_text class toks a -> cstr a.
Proof.
  intros Hok Hf. induction toks as [|tok toks IH]; intros a Hin Ha; cbn [phrase_text] in Ha; [subst; constructor|].
  destruct Ha as (x & y & -> & (c & more & d & w & -> & Hc & Hw & ->) & Hy).
  apply cstr_app; [|apply (IH y); [intros tok Ht; apply Hin; now right|exact Hy]].
  apply cstr_app; [exact (proj2 (dist_okb_words _ _ (Hok _ _ Hc) Hw))|]. apply cstr_app; [|repeat constructor; lia].
  apply list.Forall_forall. intros z Hz. apply (proj1 (list.Forall_forall _ _) Hf). apply (tokens_chars form (c :: more)); [apply Hin; left|now right].
Qed.

Lemma noun_phrase_cstr a : noun_phrase G a -> cstr a.
Proof.
  intros (form & Hf & Ha). apply (phrase_cstr (np_class G) form np_class_ok) with (toks := tokens form); auto.
  refine (proj2 (dist_okb_words (np G) form _ Hf)). in_lexicon.
Qed.
Lemma verb_phrase_cstr a : verb_phrase G a -> cstr a.
Proof.
  intros (form & Hf & Ha). apply (phrase_cstr (vp_class G) form vp_class_ok) with (toks := tokens form); auto.
  refine (proj2 (dist_okb_words (vp G) form _ Hf)). in_lexicon.
Qed.

Lemma parts_cstr form : forall a, parts_text G form a -> cstr a.
Proof.
  induction form as [form IH] using (induction_ltof1 _ (@length Z)). unfold ltof in IH. intros a Ha.
  destruct form as [|c [|x form]]; cbn [parts_text] in Ha; [subst; constructor..|]. destruct Ha as (y & z & -> & Hy & Hz).
  apply cstr_app; [|apply (IH form); [cbn; lia|exact Hz]].
  destruct Hy as [[_ Hy]|[[_ Hy]|[_ (w & n & Hw & Hn & ->)]]]; [now apply verb_phrase_cstr|now apply noun_phrase_cstr|].
  apply cstr_app; [refine (proj2 (dist_okb_words (prepositions G) w _ Hw)); in_lexicon|].
  apply cstr_app; [repeat constructor; lia|now apply noun_phrase_cstr].
Qed.

Lemma sentence_cstr a : is_sentence G a -> cstr a.
Proof.
  intros (form & body & t & _ & Hb & Ht & ->). apply parts_cstr in Hb. apply Forall_app in Hb as [Hb _].
  apply cstr_app; [exact Hb|]. refine (proj2 (dist_okb_words (terminators G) t _ Ht)). in_lexicon.
Qed.

(** [txt_sentence] leaves a sentence of the grammar, terminated, and returns its length. *)
Lemma txt_sentence_reads buf1 buf2 : strlen buf1 = MAX_SENT_LEN + 1 -> strlen buf2 = MAX_SENT_LEN + 1 ->
  Reads sd (both (fun a '(n, buf) => is_sentence G a /\ n = strlen a /\ arr (MAX_SENT_LEN + 1) (a ++ [0]) buf))
    (txt_sentence G sd buf1) (txt_sentence G sd buf2).
Proof.
  intros H1 H2. unfold txt_sentence. destruct lexicon_forms as (_ & _ & Hforms). unfold sentence_form in Hforms.
  eapply Reads_bind; [apply pick_form_reads; [in_lexicon|]|].
  { intros form Hf. specialize (Hforms form Hf). rewrite !andb_true_iff in Hforms. lia. }
  intros form ? [<- Hf]. specialize (Hforms form Hf). rewrite !andb_true_iff in Hforms. destruct Hforms as [[[Hl3 _] Hpf] Hmax].
  assert (Ha : forall b, strlen b = MAX_SENT_LEN + 1 -> arr (MAX_SENT_LEN + 1) [] b) by (intros b Hb; split; [now exists b|exact Hb]).
  eapply Reads_bind; [apply (next_token_reads (MAX_SENT_LEN + 1) form [] buf1 buf2 0 0 0 Hpf); [right; lia|auto..|change (strlen []) with 0; lia]|].
  intros [[d1 r1] b1] [[d2 r2] b2] ([[b q] tm] & (Hb & Ht & E & -> & -> & Hlb & Hb1) & (_ & _ & _ & -> & -> & _ & Hb2)). cbn in E. subst b.
  pose proof (longest_member _ _ Ht). rewrite strlen_app in Hlb. change (strlen [32]) with 1 in Hlb.
  eapply Reads_bind; [apply (poke_reads (MAX_SENT_LEN + 1) (q ++ tm) b1 b2 0 Hb1 Hb2); rewrite strlen_app; lia|].
  intros c1 c2 [Hc1 Hc2]. apply Reads_ret. exists (q ++ tm). rewrite !strlen_app. change (strlen [32]) with 1.
  split; (split_and!; [now exists form, q, tm|lia|assumption]).
Qed.

(** ** The pool *)

Definition joined (ss : list bytes) : bytes := List.concat (map (fun a => a ++ [32]) ss).

(** The first [size] bytes of sentences with blanks between them, and a terminator. *)
Definition is_pool (size : Z) (pool : bytes) : Prop :=
  exists ss, Forall (is_sentence G) ss /\ size <= strlen (joined ss) /\ pool = take (Z.to_nat size) (joined ss) ++ [0].

Lemma c_string_reads N a buf1 buf2 : cstr a -> arr N (a ++ [0]) buf1 -> arr N (a ++ [0]) buf2 ->
  Reads sd (fun x y => x = a /\ y = a) (c_string buf1) (c_string buf2).
Proof.
  intros Ha [[k1 ->] _] [[k2 ->] _]. unfold c_string. rewrite <- !app_assoc. cbn [app]. rewrite !existsb_app. cbn [existsb].
  rewrite !orb_true_r. rewrite !until_zero_cstr by exact Ha. now apply Reads_ret.
Qed.

(** Where the loop stands: [P] is in the pool, the local array has its size. *)
Definition filling (size : Z) (ss : list bytes) (P pool sentence : bytes) : Prop :=
  Forall (is_sentence G) ss /\ P `prefix_of` joined ss /\ (strlen P < size -> P = joined ss) /\ strlen P <= size /\
  arr (size + 1) P pool /\ strlen sentence = MAX_SENT_LEN + 1.

Lemma joined_snoc ss a : joined (ss ++ [a]) = joined ss ++ a ++ [32].
Proof. unfold joined. rewrite map_app, concat_app. cbn. now rewrite app_nil_r. Qed.

Lemma strcpy_pool_reads size P a pool1 pool2 : arr (size + 1) P pool1 -> arr (size + 1) P pool2 -> strlen P + strlen a <= size ->
  Reads sd (fun x y => arr (size + 1) (P ++ a) x /\ arr (size + 1) (P ++ a) y) (strcpy pool1 (strlen P) a) (strcpy pool2 (strlen P) a).
Proof.
  intros H1 H2 Hl. assert (Hfit : strlen P + strlen (a ++ [0]) <= size + 1) by (rewrite strlen_app; change (strlen [0]) with 1; lia).
  destruct (arr_splice _ _ _ _ H1 Hfit) as (b1 & Hs1 & Hb1). destruct (arr_splice _ _ _ _ H2 Hfit) as (b2 & Hs2 & Hb2).
  rewrite app_assoc in Hb1, Hb2. apply arr_app in Hb1, Hb2. exact (Reads_opt sd _ _ _ _ _ Hs1 Hs2 (conj Hb1 Hb2)).
Qed.

(** A whole sentence and a blank fit. *)
Lemma filling_whole size ss P a pool sentence : filling size ss P pool sentence -> strlen P < size -> is_sentence G a -> strlen a + 1 <= size - strlen P ->
  forall pool' sentence', arr (size + 1) ((P ++ a) ++ [32]) pool' -> strlen sentence' = MAX_SENT_LEN + 1 ->
  filling size (ss ++ [a]) ((P ++ a) ++ [32]) pool' sentence'.
Proof.
  intros (Hss & _ & Hj & _ & _ & _) Hlt Ha Hfit pool' sentence' Hp' Hs'. specialize (Hj Hlt). subst P.
  assert (E : (joined ss ++ a) ++ [32] = joined (ss ++ [a])) by (rewrite joined_snoc; now rewrite app_assoc).
  unfold filling. rewrite E in *. split_and!; [apply Forall_app; auto|reflexivity|reflexivity| |exact Hp'|exact Hs'].
  rewrite <- E, !strlen_app. change (strlen [32]) with 1. lia.
Qed.

(** The last sentence is cut. *)
Lemma filling_cut size ss P a pool sentence : filling size ss P pool sentence -> strlen P < size -> is_sentence G a -> size - strlen P < strlen a + 1 ->
  let cut := take (Z.to_nat (size - strlen P)) a in
  strlen cut = size - strlen P /\
  forall pool' sentence', arr (size + 1) (P ++ cut) pool' -> strlen sentence' = MAX_SENT_LEN + 1 -> filling size (ss ++ [a]) (P ++ cut) pool' sentence'.
Proof.
  intros (Hss & _ & Hj & _ & _ & _) Hlt Ha Hcut cut. specialize (Hj Hlt). subst P.
  assert (Hlen : strlen cut = size - strlen (joined ss)) by (unfold cut, strlen in *; rewrite length_take; lia). split; [exact Hlen|].
  intros pool' sentence' Hp' Hs'. unfold filling. rewrite strlen_app, Hlen. split_and!; [apply Forall_app; auto| |lia|lia|exact Hp'|exact Hs'].
  rewrite joined_snoc. exists (drop (Z.to_nat (size - strlen (joined ss))) a ++ [32]). unfold cut.
  now rewrite <- app_assoc, (app_assoc (take _ _)), take_drop.
Qed.

Lemma filling_done size ss P pool sentence : 0 <= size -> filling size ss P pool sentence -> size <= strlen P ->
  forall pool', arr (size + 1) (P ++ [0]) pool' -> pool' = P ++ [0] /\ is_pool size pool'.
Proof.
  intros H0 (Hss & [k Hk] & _ & Hle & _ & _) Hge pool' [[k' ->] Hlen]. rewrite !strlen_app in Hlen. change (strlen [0]) with 1 in Hlen.
  assert (k' = []) as -> by (destruct k'; [reflexivity|unfold strlen in *; cbn [length] in Hlen; lia]). rewrite app_nil_r. split; [reflexivity|].
  exists ss. split; [exact Hss|]. rewrite Hk, strlen_app. pose proof (strlen_nonneg k). split; [lia|]. f_equal.
  replace (Z.to_nat size) with (length P) by (unfold strlen in *; lia). now rewrite take_app_length.
Qed.

Lemma fill_loop_reads fuel : forall size ss P pool1 pool2 sentence1 sentence2,
  0 <= size -> filling size ss P pool1 sentence1 -> filling size ss P pool2 sentence2 -> size - strlen P < Z.of_nat fuel ->
  Reads sd (same (is_pool size)) (fill_loop G sd fuel size (strlen P) (strlen P) sentence1 pool1)
    (fill_loop G sd fuel size (strlen P) (strlen P) sentence2 pool2).
Proof.
  induction fuel as [|fuel IH]; intros size ss P pool1 pool2 sentence1 sentence2 H0 H1 H2 Hfuel; cbn [fill_loop].
  { destruct H1 as (_ & _ & _ & Hle & _). lia. }
  pose proof H1 as (_ & _ & _ & Hle & Hp1 & Hs1). pose proof H2 as (_ & _ & _ & _ & Hp2 & Hs2). destruct (Z.ltb_spec (strlen P) size) as [Hlt|Hge]; cbn [negb].
  2: { eapply Reads_weaken; [|apply (poke_reads (size + 1) P pool1 pool2 0 Hp1 Hp2); lia]. intros x y [Hx Hy].
       destruct (filling_done _ _ _ _ _ H0 H1 Hge x Hx) as [-> Hpool]. destruct (filling_done _ _ _ _ _ H0 H1 Hge y Hy) as [-> _]. now split. }
  eapply Reads_bind; [exact (txt_sentence_reads sentence1 sentence2 Hs1 Hs2)|].
  intros [n1 b1] [n2 b2] (a & (Ha & -> & Hb1) & (_ & -> & Hb2)). pose proof (strlen_nonneg a) as Hn.
  rewrite (proj2 (Z.ltb_ge (strlen a) 0) Hn). cbn [negb checkM]. eapply Reads_bind with (p1 := fun _ _ => True); [now apply Reads_ret|].
  intros [] [] _. pose proof (sentence_cstr a Ha) as Hcs. destruct (Z.leb_spec (strlen a + 1) (size - strlen P)) as [Hfit|Hcut].
  - eapply Reads_bind; [exact (c_string_reads _ a b1 b2 Hcs Hb1 Hb2)|]. intros ? ? [-> ->].
    eapply Reads_bind; [apply (strcpy_pool_reads size P a pool1 pool2 Hp1 Hp2); lia|]. intros q1 q2 [Hq1 Hq2]. rewrite <- strlen_app.
    eapply Reads_bind; [apply (poke_reads (size + 1) (P ++ a) q1 q2 32 Hq1 Hq2); rewrite strlen_app; lia|]. intros r1 r2 [Hr1 Hr2].
    replace (strlen P + strlen a + 1) with (strlen ((P ++ a) ++ [32])) by (rewrite !strlen_app; reflexivity).
    replace (strlen (P ++ a) + 1) with (strlen ((P ++ a) ++ [32])) by (rewrite !strlen_app; reflexivity).
    apply (IH size (ss ++ [a])); [exact H0|exact (filling_whole _ _ _ _ _ _ H1 Hlt Ha Hfit _ _ Hr1 (proj2 Hb1))
      |exact (filling_whole _ _ _ _ _ _ H1 Hlt Ha Hfit _ _ Hr2 (proj2 Hb2))|]. rewrite !strlen_app. change (strlen [32]) with 1. lia.
  - destruct (filling_cut _ _ _ _ _ _ H1 Hlt Ha Hcut) as [Hlen Hnext]. set (cut := take (Z.to_nat (size - strlen P)) a) in *.
    assert (Hpre : forall b, arr (MAX_SENT_LEN + 1) (a ++ [0]) b -> arr (MAX_SENT_LEN + 1) cut b).
    { intros b Hb. apply arr_app in Hb. rewrite <- (take_drop (Z.to_nat (size - strlen P)) a) in Hb. now apply arr_app in Hb. }
    pose proof (strlen_nonneg cut). assert (Hroom : strlen cut + 1 <= MAX_SENT_LEN + 1).
    { destruct Hb1 as [[k E] Hlb]. rewrite E, !strlen_app in Hlb. change (strlen [0]) with 1 in Hlb. pose proof (strlen_nonneg k). lia. }
    rewrite <- Hlen. eapply Reads_bind; [exact (poke_reads _ cut b1 b2 0 (Hpre b1 Hb1) (Hpre b2 Hb2) Hroom)|]. intros c1 c2 [Hc1 Hc2].
    assert (Hcc : cstr cut) by (unfold cut; now apply Forall_take).
    eapply Reads_bind; [exact (c_string_reads _ cut c1 c2 Hcc Hc1 Hc2)|]. intros ? ? [-> ->].
    eapply Reads_bind; [apply (strcpy_pool_reads size P cut pool1 pool2 Hp1 Hp2); lia|]. intros q1 q2 [Hq1 Hq2]. rewrite <- !strlen_app.
    apply (IH size (ss ++ [a])); [exact H0|exact (Hnext _ _ Hq1 (proj2 Hc1))|exact (Hnext _ _ Hq2 (proj2 Hc2))|]. rewrite strlen_app. lia.
Qed.

Lemma fill_pool_reads size junk1 junk2 : 0 <= size -> strlen junk1 = MAX_SENT_LEN + 1 -> strlen junk2 = MAX_SENT_LEN + 1 ->
  Reads sd (same (is_pool size)) (fill_pool G sd size junk1) (fill_pool G sd size junk2).
Proof.
  intros H0 H1 H2. unfold fill_pool.
  assert (Hf : forall j, strlen j = MAX_SENT_LEN + 1 -> filling size [] [] (replicate (Z.to_nat size + 1) 0) j).
  { intros j Hj. split_and!; [constructor|reflexivity|reflexivity|exact H0| |exact Hj].
    split; [eexists; reflexivity|]. unfold strlen. rewrite length_replicate. lia. }
  apply (fill_loop_reads (S (Z.to_nat size)) size [] [] _ _ junk1 junk2 H0 (Hf _ H1) (Hf _ H2)). change (strlen []) with 0. lia.
Qed.
End Sentences.

(** ** The first comment of a process *)

Definition pool_at (pool : bytes) (i : Z) : Z := default 0 (pool !! Z.to_nat i).

Lemma take_drop_seqZ (l : bytes) off len : 0 <= off -> 0 <= len -> off + len <= strlen l ->
  take (Z.to_nat len) (drop (Z.to_nat off) l) = map (pool_at l) (seqZ off len).
Proof.
  intros Ho Hl Hb. apply list_eq. intros i. rewrite list_lookup_fmap. destruct (decide (i < Z.to_nat len)%nat) as [Hi|Hi].
  - rewrite lookup_take_lt, lookup_drop, (proj2 (lookup_seqZ off len i (off + Z.of_nat i))) by lia. cbn. unfold pool_at.
    replace (Z.to_nat (off + Z.of_nat i)) with (Z.to_nat off + i)%nat by lia.
    destruct (lookup_lt_is_Some_2 l (Z.to_nat off + i)) as [x Hx]; [unfold strlen in Hb; lia|]. now rewrite Hx.
  - rewrite lookup_take_ge, lookup_seqZ_ge by lia. reflexivity.
Qed.

(** ** Who draws from the stream of the pool *)

(** [m] leaves the stream of the pool alone. *)
Definition spares {A} (m : M streams A) : Prop := forall s, snd (m s) !! Z.to_nat TEXT_SD = s !! Z.to_nat TEXT_SD.
(** A stream of the tables. *)
Definition other_stream (c : Z) : bool := (0 <=? c) && (c <=? MAX_STREAM) && negb (c =? TEXT_SD).

Lemma spares_bind {A B} (m : M streams A) (k : A -> M streams B) : spares m -> (forall a, spares (k a)) -> spares (bindM m k).
Proof.
  intros Hm Hk s. unfold bindM. specialize (Hm s). destruct (m s) as [[a|f] s1]; cbn in *; [|exact Hm].
  transitivity (s1 !! Z.to_nat TEXT_SD); [apply Hk|exact Hm].
Qed.
Lemma spares_ret {A} (a : A) : spares (retM a).
Proof. easy. Qed.
Lemma spares_fail {A} f : spares (A := A) (failM f).
Proof. easy. Qed.
Lemma spares_option {A} (o : option A) : spares (ofOption o).
Proof. now destruct o. Qed.
Lemma spares_defined b : spares (definedM b).
Proof. now destruct b. Qed.
Lemma spares_seed_of i : spares (seed_of i).
Proof. intros s. unfold seed_of, bindM, getM. destruct (if 0 <=? i then _ else None); reflexivity. Qed.
#[local] Hint Resolve spares_ret spares_fail spares_option spares_defined spares_seed_of : spares.

Lemma other_stream_eq c : other_stream c = true -> (c <? 0) || (MAX_STREAM <? c) = false /\ Z.to_nat c <> Z.to_nat TEXT_SD.
Proof.
  unfold other_stream, TEXT_SD, MAX_STREAM. rewrite !andb_true_iff, negb_true_iff, Z.eqb_neq, orb_false_iff. lia.
Qed.
Lemma spares_upd f c : other_stream c = true -> spares (modifyM (upd_seed f c)).
Proof. intros [_ Hc]%other_stream_eq s. cbn. unfold upd_seed. now apply list_lookup_alter_ne. Qed.
Lemma spares_random lower upper c : other_stream c = true -> spares (dss_random lower upper c).
Proof.
  intros Hc. pose proof (other_stream_eq c Hc) as [E _]. unfold dss_random, UnifInt. rewrite E.
  repeat (apply spares_bind; [auto using spares_upd with spares|intros ?]); auto using spares_upd with spares.
Qed.
Lemma spares_random64 lower upper c : other_stream c = true -> spares (dss_random64 lower upper c).
Proof.
  intros Hc. pose proof (other_stream_eq c Hc) as [E _]. unfold dss_random64. rewrite E. destruct (if upper <? lower then _ else _).
  repeat (apply spares_bind; [auto using spares_upd with spares|intros ?]); auto with spares.
Qed.
#[local] Hint Extern 1 (other_stream _ = true) => reflexivity : spares.
#[local] Hint Resolve spares_random spares_random64 : spares.

(** One binding after the other. *)
Ltac spare :=
  repeat (lazymatch goal with
          | |- spares (bindM _ _) => apply spares_bind; [|intros ?]
          | |- spares (if ?b then _ else _) => destruct b
          | |- spares (match ?x with _ => _ end) => destruct x
          | |- spares _ => solve [auto with spares]
          end).

Lemma spares_forM {A B} (f : A -> M streams B) l : (forall a, spares (f a)) -> spares (forM l f).
Proof. intros Hf. induction l as [|a l IH]; cbn [forM]; [easy|]. apply spares_bind; [apply Hf|intros b]. apply spares_bind; [exact IH|easy]. Qed.
Lemma spares_pick d c : other_stream c = true -> spares (pick_str d c).
Proof. intros Hc. unfold pick_str. spare. Qed.
Lemma spares_a_rnd min max c : other_stream c = true -> spares (a_rnd min max c).
Proof.
  intros Hc. unfold a_rnd. apply spares_bind; [auto with spares|]. intros len. generalize 0 at 1 as i. generalize 0 as x.
  induction (Z.to_nat len) as [|n IH]; intros x i; cbn [a_rnd_loop]; [easy|]. apply spares_bind; [spare|intros y].
  apply spares_bind; [apply IH|easy].
Qed.
Lemma spares_agg d n c : other_stream c = true -> spares (agg_str d n c).
Proof.
  intros Hc. unfold agg_str, permute_dist, permute. apply spares_bind; [|intros p; spare].
  generalize (seqZ 0 (d_count d)) as l. generalize 0 as i. induction (Z.to_nat (d_count d)) as [|k IH]; intros i l; cbn [permute_loop]; [easy|].
  apply spares_bind; [auto with spares|]. intros j. repeat case_match; easy || apply IH.
Qed.
Lemma spares_text pool avg c : other_stream c = true -> spares (TEXT pool avg c).
Proof. intros Hc. unfold TEXT, dbg_text. spare. Qed.
Lemma spares_phone i c : other_stream c = true -> spares (gen_phone i c).
Proof. intros Hc. unfold gen_phone. spare. Qed.
#[local] Hint Resolve spares_pick spares_a_rnd spares_agg spares_text spares_phone : spares.

Section Builders.
Context (scale : Z) (base : Z -> Z) (pool : Z -> Z) (nations regions prio instruct smode rflag mseg colors types cntr : distribution).

Lemma mk_line_spares okey date lcnt : spares (mk_line scale base pool instruct smode rflag okey date lcnt).
Proof. unfold mk_line. spare. Qed.
Lemma mk_psupp_spares i k : spares (mk_psupp scale base pool i k).
Proof. unfold mk_psupp. spare. Qed.
#[local] Hint Resolve mk_line_spares mk_psupp_spares spares_forM : spares.
Lemma builders_spare i upd :
  spares (mk_cust pool nations mseg i) /\ spares (mk_supp pool nations i) /\
  spares (mk_part scale base pool colors types cntr i) /\ spares (mk_order scale base pool prio instruct smode rflag i upd) /\
  spares (mk_nation pool nations i) /\ spares (mk_region pool regions i).
Proof.
  split_and!; [unfold mk_cust, V_STR|unfold mk_supp, V_STR|unfold mk_part|unfold mk_order|unfold mk_nation|unfold mk_region]; spare.
Qed.
End Builders.

(** Seeking leaves it alone too. *)
Lemma advance_all_keeps l : forallb (fun c => (0 <=? fst c) && negb (fst c =? TEXT_SD)) l = true ->
  forall s, advance_all l s !! Z.to_nat TEXT_SD = s !! Z.to_nat TEXT_SD.
Proof.
  induction l as [|[i n] l IH]; intros Hl s; [reflexivity|]. cbn [forallb fst] in Hl. rewrite andb_true_iff in Hl. destruct Hl as [Hi Hl].
  change (advance_all ((i, n) :: l) s) with (advance_all l (ADVANCE_STREAM i n s)). rewrite (IH Hl).
  unfold ADVANCE_STREAM, advanceStream, upd_seed. apply list_lookup_alter_ne. unfold TEXT_SD in *. lia.
Qed.

Lemma gen_seed_keeps t child n : spares (gen_seed t child n).
Proof.
  intros s. unfold gen_seed. repeat case_match; cbn [snd modifyM failM]; try reflexivity; apply advance_all_keeps; [reflexivity..|].
  unfold sd_line_calls. rewrite forallb_app, andb_true_iff. split; [reflexivity|]. now case_match.
Qed.

Lemma set_state_keeps base t sf procs step : spares (set_state base t sf procs step).
Proof.
  unfold set_state. case_match; [easy|]. apply spares_bind; [|intros []; apply spares_bind; [|easy]].
  - induction (seqZ 0 (step - 1)) as [|x l IH]; [easy|]. cbn [iterM]. apply spares_bind; [|intros _; exact IH].
    unfold seek_chunk. apply spares_bind; [apply gen_seed_keeps|intros _]. case_match; [easy|apply gen_seed_keeps].
  - case_match; [apply gen_seed_keeps|easy].
Qed.

Section FirstComment.
Context (G : lexicon) (HG : lexicon_ok G = true).

Lemma text_stream : 0 <= TEXT_SD <= MAX_STREAM.
Proof. easy. Qed.

Lemma joined_cstr ss : Forall (is_sentence G) ss -> cstr (joined ss).
Proof.
  induction 1 as [|a ss Ha _ IH]; [constructor|]. unfold joined in *. cbn. apply cstr_app; [|exact IH].
  apply cstr_app; [exact (sentence_cstr G TEXT_SD text_stream HG a Ha)|repeat constructor; lia].
Qed.

Lemma is_pool_text size pool : 0 <= size -> is_pool G size pool -> exists P, pool = P ++ [0] /\ strlen P = size /\ cstr P.
Proof.
  intros H0 (ss & Hss & Hlen & ->). exists (take (Z.to_nat size) (joined ss)). split; [reflexivity|].
  split; [unfold strlen in *; rewrite length_take; lia|now apply Forall_take, joined_cstr].
Qed.

(** Once the pool is loaded, [dbg_text] is that of the row builders. *)
Lemma pool_text_loaded pool junk min max sd s :
  is_pool G TEXT_POOL_SIZE pool -> streams_ok s -> 0 <= sd <= MAX_STREAM -> 0 <= min <= max -> max <= TEXT_POOL_SIZE ->
  exists text s', dbg_text (pool_at pool) min max sd s = (Ok text, s') /\ min <= strlen text <= max /\
    pool_text G TEXT_POOL_SIZE junk min max sd (mkText s (Some pool)) = (Ok text, mkText s' (Some pool)).
Proof.
  intros Hpool Hs Hsd Hb Hmax. destruct (is_pool_text TEXT_POOL_SIZE pool ltac:(easy) Hpool) as (P & HP & HlP & Hcs). clear Hpool. subst pool.
  assert (HR := one_stream sd Hsd). assert (Hin : sd ∈ [sd]) by now apply list_elem_of_singleton.
  assert (Hag : forall u, streams_ok u -> agree [sd] u u).
  { intros u Hu i Hi. apply list_elem_of_singleton in Hi as ->. destruct (stream_present u sd Hu Hsd) as (x & Hx & _). exists x, x. now repeat split. }
  assert (HT : TEXT_POOL_SIZE < MAX_LONG) by reflexivity.
  destruct (Draws_unif [sd] 0 (TEXT_POOL_SIZE - max) sd HR Hin ltac:(lia) ltac:(lia) s s Hs Hs (Hag s Hs)) as (off & s1 & _ & E1 & _ & Ho & Hs1 & _).
  destruct (Draws_unif [sd] min max sd HR Hin ltac:(lia) ltac:(lia) s1 s1 Hs1 Hs1 (Hag s1 Hs1)) as (len & s2 & _ & E2 & _ & Hl & _).
  exists (map (pool_at (P ++ [0])) (seqZ off len)), s2. unfold dbg_text. rewrite (bindM_run _ _ _ _ _ E1), (bindM_run _ _ _ _ _ E2).
  split; [reflexivity|]. split; [unfold strlen; rewrite length_map, length_seqZ; lia|].
  unfold pool_text, preload, on_streams, zoomM, set_streams, getM, bindM, retM. cbn [tx_pool tx_streams]. rewrite E1. cbn [tx_pool tx_streams]. rewrite E2. cbn [tx_pool tx_streams].
  rewrite strlen_app, HlP. change (strlen [0]) with 1. rewrite !(proj2 (Z.leb_le _ _)), (proj2 (Z.ltb_lt _ _)) by lia. cbn [andb definedM].
  unfold definedM, retM. f_equal. f_equal.
  rewrite <- take_drop_seqZ by (rewrite ?strlen_app; change (strlen [0]) with 1; lia).
  rewrite drop_app_le, take_app_le by (unfold strlen in *; rewrite ?length_drop; lia). apply until_zero_id, Forall_take, Forall_drop, Hcs.
Qed.

(** The stream of the pool is as in the seed table. *)
Lemma pool_stream_fresh s : s !! Z.to_nat TEXT_SD = Seed !! Z.to_nat TEXT_SD -> agree [TEXT_SD] s Seed.
Proof.
  intros H i Hi. apply list_elem_of_singleton in Hi as ->. exists (seed NONE 933588178 0 1), (seed NONE 933588178 0 1).
  split; [exact H|]. repeat split.
Qed.

(** C38: with a lexicon the arrays are large enough for, every process that generates a chunk of
    a table, whichever table and chunk it is and whatever the uninitialised array of a sentence
    holds, fills its pool with the same bytes at its first comment: sentences of the grammar
    with a blank behind each, cut at the size of the pool. Seeking the chunk, starting a row and
    building rows of any table draw nothing from the stream of the pool; from every state in
    which that stream is as in the seed table, filling the pool ends, stays inside the arrays
    and leaves the streams of the tables alone; and from every state with the pool filled a
    comment is the one the row builders take from that pool. *)
Theorem every_process_loads_the_same_pool :
  exists pool, is_pool G TEXT_POOL_SIZE pool /\
  (forall base t sf procs step,
    row_start (snd (set_state base t sf procs step Seed)) !! Z.to_nat TEXT_SD = Seed !! Z.to_nat TEXT_SD) /\
  (forall scale base text nations regions prio instruct smode rflag mseg colors types cntr i upd,
    spares (mk_cust text nations mseg i) /\ spares (mk_supp text nations i) /\
    spares (mk_part scale base text colors types cntr i) /\ spares (mk_order scale base text prio instruct smode rflag i upd) /\
    spares (mk_nation text nations i) /\ spares (mk_region text regions i)) /\
  (forall s junk min max sd,
    s !! Z.to_nat TEXT_SD = Seed !! Z.to_nat TEXT_SD -> streams_ok s ->
    strlen junk = MAX_SENT_LEN + 1 -> 0 <= sd <= MAX_STREAM -> 0 <= min <= max -> max <= TEXT_POOL_SIZE ->
    exists s1 text s2, elsewhere TEXT_SD s s1 /\ streams_ok s1 /\
      dbg_text (pool_at pool) min max sd s1 = (Ok text, s2) /\ min <= strlen text <= max /\
      pool_text G TEXT_POOL_SIZE junk min max sd (mkText s None) = (Ok text, mkText s2 (Some pool))) /\
  (forall s junk min max sd,
    streams_ok s -> 0 <= sd <= MAX_STREAM -> 0 <= min <= max -> max <= TEXT_POOL_SIZE ->
    exists text s', dbg_text (pool_at pool) min max sd s = (Ok text, s') /\ min <= strlen text <= max /\
      pool_text G TEXT_POOL_SIZE junk min max sd (mkText s (Some pool)) = (Ok text, mkText s' (Some pool))).
Proof.
  assert (Hseed : streams_ok Seed) by exact Seed_ok.
  pose proof (pool_stream_fresh Seed eq_refl) as Hself.
  set (zeros := replicate 257 0). assert (Hz : strlen zeros = MAX_SENT_LEN + 1) by reflexivity.
  destruct (fill_pool_reads G TEXT_SD text_stream HG TEXT_POOL_SIZE zeros zeros ltac:(easy) Hz Hz Seed Seed Hseed Hseed Hself)
    as (pool & ? & t1 & t2 & E1 & _ & [<- Hpool] & _). exists pool. split; [exact Hpool|].
  split. { intros. unfold row_start. rewrite list_lookup_fmap, set_state_keeps. reflexivity. }
  split. { intros. apply builders_spare. }
  split; [|intros; now apply pool_text_loaded].
  intros s junk min max sd Hm Hs Hj Hsd Hb Hmax. pose proof (pool_stream_fresh s Hm) as Hag.
  destruct (fill_pool_reads G TEXT_SD text_stream HG TEXT_POOL_SIZE junk zeros ltac:(easy) Hj Hz s Seed Hs Hseed Hag)
    as (pool1 & pool2 & s1 & s2' & F1 & F2 & [<- _] & Hs1 & _ & _ & He & _).
  rewrite F2 in E1. injection E1 as -> _.
  destruct (pool_text_loaded pool junk min max sd s1 Hpool Hs1 Hsd Hb Hmax) as (text & s2 & D & Hlen & Hrun).
  exists s1, text, s2. split_and!; auto; try lia. rewrite <- Hrun. unfold pool_text. unfold bindM at 1. unfold bindM at 3.
  assert (Hpre : preload G TEXT_POOL_SIZE junk (mkText s None) = (Ok pool, mkText s1 (Some pool))).
  { unfold preload, on_streams, zoomM, getM, bindM, modifyM, retM, set_streams. cbn [tx_pool tx_streams]. now rewrite F1. }
  rewrite Hpre. reflexivity.
Qed.
End FirstComment.

(** ** The lexicon of the benchmark *)

(** The part of [load_dists] that reads the words and forms. *)
Definition load_lexicon (lines : list bytes) : res lexicon :=
  let read name k := match read_dist lines (str name) with Ok d => k d | Err f => Err f end in
  read "nouns"%string (fun nouns => read "verbs"%string (fun verbs => read "adjectives"%string (fun adjectives =>
  read "adverbs"%string (fun adverbs => read "auxillaries"%string (fun auxillaries => read "terminators"%string (fun terminators =>
  read "articles"%string (fun articles => read "prepositions"%string (fun prepositions => read "grammar"%string (fun grammar =>
  read "np"%string (fun np => read "vp"%string (fun vp =>
  Ok (mkLexicon nouns verbs adverbs articles prepositions auxillaries terminators adjectives grammar np vp)))))))))))).

(** The sections of dists.dss, without comments. *)
Definition dists_dss : list string := [
  "BEGIN nouns"; "COUNT|45"; "packages|40"; "requests|40"; "accounts|40"; "deposits|40"; "foxes|20"; "ideas|20";
  "theodolites|20"; "pinto beans|20"; "instructions|20"; "dependencies|10"; "excuses|10"; "platelets|10";
  "asymptotes|10"; "courts|5"; "dolphins|5"; "multipliers|1"; "sauternes|1"; "warthogs|1"; "frets|1"; "dinos|1";
  "attainments|1"; "somas|1"; "Tiresias|1"; "patterns|1"; "forges|1"; "braids|1"; "frays|1"; "warhorses|1";
  "dugouts|1"; "notornis|1"; "epitaphs|1"; "pearls|1"; "tithes|1"; "waters|1"; "orbits|1"; "gifts|1"; "sheaves|1";
  "depths|1"; "sentiments|1"; "decoys|1"; "realms|1"; "pains|1"; "grouches|1"; "escapades|1"; "hockey players|1";
  "END nouns"; "BEGIN verbs"; "COUNT|40"; "sleep|20"; "wake|20"; "are|20"; "cajole|20"; "haggle|20"; "nag|10";
  "use|10"; "boost|10"; "affix|5"; "detect|5"; "integrate|5"; "maintain|1"; "nod|1"; "was|1"; "lose|1"; "sublate|1";
  "solve|1"; "thrash|1"; "promise|1"; "engage|1"; "hinder|1"; "print|1"; "x-ray|1"; "breach|1"; "eat|1"; "grow|1";
  "impress|1"; "mold|1"; "poach|1"; "serve|1"; "run|1"; "dazzle|1"; "snooze|1"; "doze|1"; "unwind|1"; "kindle|1";
  "play|1"; "hang|1"; "believe|1"; "doubt|1"; "END verbs"; "BEGIN adverbs"; "COUNT|28"; "sometimes|1"; "always|1";
  "never|1"; "furiously|50"; "slyly|50"; "carefully|50"; "blithely|40"; "quickly|30"; "fluffily|20"; "slowly|1";
  "quietly|1"; "ruthlessly|1"; "thinly|1"; "closely|1"; "doggedly|1"; "daringly|1"; "bravely|1"; "stealthily|1";
  "permanently|1"; "enticingly|1"; "idly|1"; "busily|1"; "regularly|1"; "finally|1"; "ironically|1"; "evenly|1";
  "boldly|1"; "silently|1"; "END adverbs"; "BEGIN articles"; "COUNT|3"; "the|50"; "a|20"; "an|5"; "END articles";
  "BEGIN prepositions"; "COUNT|47"; "about|50"; "above|50"; "according to|50"; "across|50"; "after|50"; "against|40";
  "along|40"; "alongside of|30"; "among|30"; "around|20"; "at|10"; "atop|1"; "before|1"; "behind|1"; "beneath|1";
  "beside|1"; "besides|1"; "between|1"; "beyond|1"; "by|1"; "despite|1"; "during|1"; "except|1"; "for|1"; "from|1";
  "in place of|1"; "inside|1"; "instead of|1"; "into|1"; "near|1"; "of|1"; "on|1"; "outside|1"; "over|1 "; "past|1";
  "since|1"; "through|1"; "throughout|1"; "to|1"; "toward|1"; "under|1"; "until|1"; "up|1 "; "upon|1"; "whithout|1";
  "with|1"; "within|1"; "END prepositions"; "BEGIN auxillaries"; "COUNT|18"; "do|1"; "may|1"; "might|1"; "shall|1";
  "will|1"; "would|1"; "can|1"; "could|1"; "should|1"; "ought to|1"; "must|1"; "will have to|1"; "shall have to|1";
  "could have to|1"; "should have to|1"; "must have to|1"; "need to|1"; "try to|1"; "END auxiallaries";
  "BEGIN terminators"; "COUNT|6"; ".|50"; ";|1"; ":|1"; "?|1"; "!|1"; "--|1"; "END terminators"; "BEGIN adjectives";
  "COUNT|29"; "special|20"; "pending|20"; "unusual|20"; "express|20"; "furious|1"; "sly|1"; "careful|1"; "blithe|1";
  "quick|1"; "fluffy|1"; "slow|1"; "quiet|1"; "ruthless|1"; "thin|1"; "close|1"; "dogged|1"; "daring|1"; "brave|1";
  "stealthy|1"; "permanent|1"; "enticing|1"; "idle|1"; "busy|1"; "regular|50"; "final|40"; "ironic|40"; "even|30";
  "bold|20"; "silent|10"; "END adjectives"; "BEGIN grammar"; "COUNT|5"; "N V T|3"; "N V P T|3"; "N V N T|3";
  "N P V N T|1"; "N P V P T|1"; "END grammar"; "BEGIN np"; "COUNT|4"; "N|10"; "J N|20"; "J, J N|10"; "D J N|50";
  "END np"; "BEGIN vp"; "COUNT|4"; "V|30"; "X V|1"; "V D|40"; "X V D|1"; "END vp"
]%string.
Definition shipped : lexicon :=
  match load_lexicon (map str dists_dss) with
  | Ok G => G
  | Err _ => let none := mkDist 0 [] in mkLexicon none none none none none none none none none none none
  end.

(** No sentence of the benchmark is longer than 185 characters. *)
Lemma shipped_ok : lexicon_ok shipped = true /\
  foldr Z.max 0 (map (fun form => parts_max shipped form + longest (terminators shipped)) (words (grammar shipped))) = 186.
Proof. split; vm_compute; reflexivity. Qed.

(** The beginning of the pool of every benchmark run. *)
Example pool_starts :
  fst (fill_pool shipped TEXT_SD 99 (replicate 257 1) Seed) =
    Ok (str "furiously special foxes haggle furiously blithely ironic deposits. slyly final theodolites boost sl" ++ [0]).
Proof. vm_compute. reflexivity. Qed.

(** The second of four processes that generate the parts, at the comment of its first row. *)
Definition second_process : streams := row_start (snd (set_state tdefs_base PART 1 4 2 Seed)).

Lemma every_process_loads_the_same_pool_witness :
  lexicon_ok shipped = true /\ exists pool, is_pool shipped TEXT_POOL_SIZE pool /\
  exists s1 text s2, elsewhere TEXT_SD second_process s1 /\ streams_ok s1 /\
    dbg_text (pool_at pool) 5 22 P_CMNT_SD s1 = (Ok text, s2) /\ 5 <= strlen text <= 22 /\
    pool_text shipped TEXT_POOL_SIZE (replicate 257 1) 5 22 P_CMNT_SD (mkText second_process None) = (Ok text, mkText s2 (Some pool)).
Proof.
  split; [exact (proj1 shipped_ok)|].
  destruct (every_process_loads_the_same_pool shipped (proj1 shipped_ok)) as (pool & Hpool & Hstart & _ & H & _).
  exists pool. split; [exact Hpool|].
  apply (H second_process (replicate 257 1) 5 22 P_CMNT_SD); [apply Hstart| |easy..].
  split; [reflexivity|]. intros i x Hx.
  assert (Hf : forallb (fun x => (0 <=? value x) && (value x <? nM)) second_process = true) by (vm_compute; reflexivity).
  rewrite forallb_forall in Hf. apply list_elem_of_lookup_2, list_elem_of_In in Hx. specialize (Hf x Hx). unfold seed_ok. lia.
Defined.

(** [txt_vp] steps over the byte behind the word before it stores the punctuation, and then
    stores the blank over the punctuation: the terminator of the word stays, and the string
    in the array ends there although the length counts on. [txt_np] stores and then steps. No
    verb phrase of dists.dss has punctuation. *)
Theorem verb_phrase_punctuation_is_lost :
  exists G, let one w := mkDist 1 [(1, str w)] in
    vp G = one "V, D"%string /\ np G = one "N,"%string /\
    (exists buf s, txt_vp G TEXT_SD (replicate 257 32) 0 Seed = (Ok (13, buf), s) /\ until_zero buf = str "sleep"%string) /\
    (exists buf s, txt_np G TEXT_SD (replicate 257 32) 0 Seed = (Ok (7, buf), s) /\ take 7 buf = str "foxes, "%string).
Proof.
  set (one := fun w => mkDist 1 [(1, str w)]).
  exists (mkLexicon (one "foxes") (one "sleep") (one "slyly") (one "the") (one "about") (one "may") (one ".") (one "bold")
            (one "N V T") (one "N,") (one "V, D"))%string.
  split; [reflexivity|]. split; [reflexivity|]. split.
  - eexists _, _. split; [vm_compute; reflexivity|reflexivity].
  - eexists _, _. split; [vm_compute; reflexivity|reflexivity].
Qed.
