(* ===== verification/Query.v ===== *)
(** The query generator (src/benchmark/tpch/dbgen): the parameter substitution of varsub.c, the
    template processing and main program of qgen.c, the query orders of permute.h and the
    definitions of tpcd.h.

    Templates and query files are lists of lines; the generator is a filter, so that what it
    prints is one byte string. *)
From Stdlib Require Import String.
From S2P Require Import Prelude Fmt Rng Calendar Build Rows.

(** ** tpcd.h *)
Definition DFLT : Z := 0x0001.
Definition OUTPUT : Z := 0x0002.
Definition EXPLAIN : Z := 0x0004.
Definition DBASE : Z := 0x0008.
Definition VERBOSE : Z := 0x0010.
Definition LOG : Z := 0x0040.
Definition ANSI : Z := 0x0200.
Definition SEED : Z := 0x0400.
Definition COMMENT : Z := 0x0800.
Definition INIT : Z := 0x1000.
Definition TERMINATE : Z := 0x2000.
Definition DFLT_NUM : Z := 0x4000.
Definition VTAG : Z := 58.
Definition GEN_QUERY_PLAN : bytes := str "EXPLAIN".
Definition START_TRAN : bytes := str "BEGIN TRANSACTION".
Definition END_TRAN : bytes := str "COMMIT;".
Definition SET_OUTPUT : bytes := [].
Definition SET_ROWCOUNT (n : Z) : bytes := str "LIMIT " ++ fmt_int n ++ [10].
Definition SET_DBASE : bytes := [].
Definition QUERIES_PER_SET : Z := 22.
Definition MAX_PERMUTE : Z := 41.
Definition MAX_PARAM : Z := 10.
Definition rowcnt_dflt : list Z :=
  [-1; -1; 100; 10; -1; -1; -1; -1; -1; -1; 20; -1; -1; -1; -1; -1; -1; -1; 100; -1; -1; 100; -1].

Definition has (flags bit : Z) : bool := negb (Z.land flags bit =? 0).

(** ** Query orders (permute.h) *)
Definition permutation : list (list Z) :=
  [
   [14; 2; 9; 20; 6; 17; 18; 8; 21; 13; 3; 22; 16; 4; 11; 15; 1; 10; 19; 5; 7; 12];
   [21; 3; 18; 5; 11; 7; 6; 20; 17; 12; 16; 15; 13; 10; 2; 8; 14; 19; 9; 22; 1; 4];
   [6; 17; 14; 16; 19; 10; 9; 2; 15; 8; 5; 22; 12; 7; 13; 18; 1; 4; 20; 3; 11; 21];
   [8; 5; 4; 6; 17; 7; 1; 18; 22; 14; 9; 10; 15; 11; 20; 2; 21; 19; 13; 16; 12; 3];
   [5; 21; 14; 19; 15; 17; 12; 6; 4; 9; 8; 16; 11; 2; 10; 18; 1; 13; 7; 22; 3; 20];
   [21; 15; 4; 6; 7; 16; 19; 18; 14; 22; 11; 13; 3; 1; 2; 5; 8; 20; 12; 17; 10; 9];
   [10; 3; 15; 13; 6; 8; 9; 7; 4; 11; 22; 18; 12; 1; 5; 16; 2; 14; 19; 20; 17; 21];
   [18; 8; 20; 21; 2; 4; 22; 17; 1; 11; 9; 19; 3; 13; 5; 7; 10; 16; 6; 14; 15; 12];
   [19; 1; 15; 17; 5; 8; 9; 12; 14; 7; 4; 3; 20; 16; 6; 22; 10; 13; 2; 21; 18; 11];
   [8; 13; 2; 20; 17; 3; 6; 21; 18; 11; 19; 10; 15; 4; 22; 1; 7; 12; 9; 14; 5; 16];
   [6; 15; 18; 17; 12; 1; 7; 2; 22; 13; 21; 10; 14; 9; 3; 16; 20; 19; 11; 4; 8; 5];
   [15; 14; 18; 17; 10; 20; 16; 11; 1; 8; 4; 22; 5; 12; 3; 9; 21; 2; 13; 6; 19; 7];
   [1; 7; 16; 17; 18; 22; 12; 6; 8; 9; 11; 4; 2; 5; 20; 21; 13; 10; 19; 3; 14; 15];
   [21; 17; 7; 3; 1; 10; 12; 22; 9; 16; 6; 11; 2; 4; 5; 14; 8; 20; 13; 18; 15; 19];
   [2; 9; 5; 4; 18; 1; 20; 15; 16; 17; 7; 21; 13; 14; 19; 8; 22; 11; 10; 3; 12; 6];
   [16; 9; 17; 8; 14; 11; 10; 12; 6; 21; 7; 3; 15; 5; 22; 20; 1; 13; 19; 2; 4; 18];
   [1; 3; 6; 5; 2; 16; 14; 22; 17; 20; 4; 9; 10; 11; 15; 8; 12; 19; 18; 13; 7; 21];
   [3; 16; 5; 11; 21; 9; 2; 15; 10; 18; 17; 7; 8; 19; 14; 13; 1; 4; 22; 20; 6; 12];
   [14; 4; 13; 5; 21; 11; 8; 6; 3; 17; 2; 20; 1; 19; 10; 9; 12; 18; 15; 7; 22; 16];
   [4; 12; 22; 14; 5; 15; 16; 2; 8; 10; 17; 9; 21; 7; 3; 6; 13; 18; 11; 20; 19; 1];
   [16; 15; 14; 13; 4; 22; 18; 19; 7; 1; 12; 17; 5; 10; 20; 3; 9; 21; 11; 2; 6; 8];
   [20; 14; 21; 12; 15; 17; 4; 19; 13; 10; 11; 1; 16; 5; 18; 7; 8; 22; 9; 6; 3; 2];
   [16; 14; 13; 2; 21; 10; 11; 4; 1; 22; 18; 12; 19; 5; 7; 8; 6; 3; 15; 20; 9; 17];
   [18; 15; 9; 14; 12; 2; 8; 11; 22; 21; 16; 1; 6; 17; 5; 10; 19; 4; 20; 13; 3; 7];
   [7; 3; 10; 14; 13; 21; 18; 6; 20; 4; 9; 8; 22; 15; 2; 1; 5; 12; 19; 17; 11; 16];
   [18; 1; 13; 7; 16; 10; 14; 2; 19; 5; 21; 11; 22; 15; 8; 17; 20; 3; 4; 12; 6; 9];
   [13; 2; 22; 5; 11; 21; 20; 14; 7; 10; 4; 9; 19; 18; 6; 3; 1; 8; 15; 12; 17; 16];
   [14; 17; 21; 8; 2; 9; 6; 4; 5; 13; 22; 7; 15; 3; 1; 18; 16; 11; 10; 12; 20; 19];
   [10; 22; 1; 12; 13; 18; 21; 20; 2; 14; 16; 7; 15; 3; 4; 17; 5; 19; 6; 8; 9; 11];
   [10; 8; 9; 18; 12; 6; 1; 5; 20; 11; 17; 22; 16; 3; 13; 2; 15; 21; 14; 19; 7; 4];
   [7; 17; 22; 5; 3; 10; 13; 18; 9; 1; 14; 15; 21; 19; 16; 12; 8; 6; 11; 20; 4; 2];
   [2; 9; 21; 3; 4; 7; 1; 11; 16; 5; 20; 19; 18; 8; 17; 13; 10; 12; 15; 6; 14; 22];
   [15; 12; 8; 4; 22; 13; 16; 17; 18; 3; 7; 5; 6; 1; 9; 11; 21; 10; 14; 20; 19; 2];
   [15; 16; 2; 11; 17; 7; 5; 14; 20; 4; 21; 3; 10; 9; 12; 8; 13; 6; 18; 19; 22; 1];
   [1; 13; 11; 3; 4; 21; 6; 14; 15; 22; 18; 9; 7; 5; 10; 20; 12; 16; 17; 8; 19; 2];
   [14; 17; 22; 20; 8; 16; 5; 10; 1; 13; 2; 21; 12; 9; 4; 18; 3; 7; 6; 19; 15; 11];
   [9; 17; 7; 4; 5; 13; 21; 18; 11; 3; 22; 1; 6; 16; 20; 14; 15; 10; 8; 2; 12; 19];
   [13; 14; 5; 22; 19; 11; 9; 6; 18; 15; 8; 10; 7; 4; 17; 16; 3; 1; 12; 2; 21; 20];
   [20; 5; 4; 14; 11; 1; 6; 16; 8; 22; 7; 3; 2; 12; 21; 19; 17; 13; 10; 15; 18; 9];
   [3; 7; 14; 15; 6; 5; 21; 20; 18; 10; 4; 16; 19; 1; 13; 9; 8; 17; 11; 12; 22; 2];
   [13; 15; 17; 1; 22; 11; 3; 4; 7; 20; 14; 21; 9; 8; 2; 18; 16; 6; 10; 12; 5; 19]].

Definition SEQUENCE (stream query : Z) : option Z :=
  match permutation !! Z.to_nat (Z.rem stream MAX_PERMUTE) with
  | Some row => if (0 <=? stream) && (1 <=? query) then row !! Z.to_nat (query - 1) else None
  | None => None
  end.

(** ** varsub.c *)
Definition brands : list Z :=
  [11; 12; 13; 14; 15; 21; 22; 23; 24; 25; 31; 32; 33; 34; 35; 41; 42; 43; 44; 45; 51; 52; 53; 54; 55].
Definition sizes : list Z := seqZ 1 50.
Definition ccode : list Z := seqZ 10 25.

Open Scope string_scope.
Definition defaults : list (list (option string)) :=
  [
   [Some "90"; None; None; None; None; None; None; None; None; None; None];
   [Some "15"; Some "BRASS"; Some "EUROPE"; None; None; None; None; None; None; None; None];
   [Some "BUILDING"; Some "1995-03-15"; None; None; None; None; None; None; None; None; None];
   [Some "1993-07-01"; None; None; None; None; None; None; None; None; None; None];
   [Some "ASIA"; Some "1994-01-01"; None; None; None; None; None; None; None; None; None];
   [Some "1994-01-01"; Some ".06"; Some "24"; None; None; None; None; None; None; None; None];
   [Some "FRANCE"; Some "GERMANY"; None; None; None; None; None; None; None; None; None];
   [Some "BRAZIL"; Some "AMERICA"; Some "ECONOMY ANODIZED STEEL"; None; None; None; None; None; None; None; None];
   [Some "green"; None; None; None; None; None; None; None; None; None; None];
   [Some "1993-10-01"; None; None; None; None; None; None; None; None; None; None];
   [Some "GERMANY"; Some "0.0001"; None; None; None; None; None; None; None; None; None];
   [Some "MAIL"; Some "SHIP"; Some "1994-01-01"; None; None; None; None; None; None; None; None];
   [Some "special"; Some "requests"; None; None; None; None; None; None; None; None; None];
   [Some "1995-09-01"; None; None; None; None; None; None; None; None; None; None];
   [Some "1996-01-01"; None; None; None; None; None; None; None; None; None; None];
   [Some "Brand#45"; Some "MEDIUM POLISHED"; Some "49"; Some "14"; Some "23"; Some "45"; Some "19"; Some "3"; Some "36"; Some "9"; None];
   [Some "Brand#23"; Some "MED BOX"; None; None; None; None; None; None; None; None; None];
   [Some "300"; None; None; None; None; None; None; None; None; None; None];
   [Some "Brand#12"; Some "Brand#23"; Some "Brand#34"; Some "1"; Some "10"; Some "20"; None; None; None; None; None];
   [Some "forest"; Some "1994-01-01"; Some "CANADA"; None; None; None; None; None; None; None; None];
   [Some "SAUDI ARABIA"; None; None; None; None; None; None; None; None; None; None];
   [Some "13"; Some "31"; Some "23"; Some "29"; Some "30"; Some "18"; Some "17"; None; None; None; None];
   [None; None; None; None; None; None; None; None; None; None; None];
   [None; None; None; None; None; None; None; None; None; None; None]].
Close Scope string_scope.

Definition default_param (qnum vnum : Z) : option bytes :=
  match defaults !! Z.to_nat (qnum - 1) with
  | Some row => match row !! Z.to_nat (vnum - 1) with
                | Some (Some s) => Some (str s)
                | _ => None
                end
  | None => None
  end.

(** [%11.10f]: ten decimals, correctly rounded. *)
Definition fmt_f10 (n d : Z) : bytes :=
  let x := nearest_even (n * 10 ^ 10) d in
  fmt_int (x / 10 ^ 10) ++ str "." ++ fmt_dec 10 (x mod 10 ^ 10).
(** [Q11_FRACTION / flt_scale], a double. *)
Definition q11_fraction (flt_scale : Z * Z) : Z * Z :=
  let '(qn, qd) := b64 1 10000 in
  let '(sn, sd) := flt_scale in
  b64 (qn * sd) (qd * sn).

(** The static variables of [varsub], [strip_comments] and [qsub], and what is written. *)
Record qstate : Type := mkQ {
  q_seeds : streams;
  param : list bytes;
  q_sizes : list Z;
  q_ccode : list Z;
  in_comment : bool;
  q_log : bytes;
  q_out : bytes;
}.
Definition init_qstate (s : streams) : qstate := mkQ s (replicate 11 []) sizes ccode false [] [].

Definition q_draw {A : Type} (m : M streams A) : M qstate A :=
  zoomM q_seeds (fun s q => mkQ s (param q) (q_sizes q) (q_ccode q) (in_comment q) (q_log q) (q_out q)) m.
Definition set_param (i : Z) (v : bytes) (q : qstate) : qstate :=
  mkQ (q_seeds q) (<[Z.to_nat i := v]> (param q)) (q_sizes q) (q_ccode q) (in_comment q) (q_log q) (q_out q).
Definition set_sizes (l : list Z) (q : qstate) : qstate :=
  mkQ (q_seeds q) (param q) l (q_ccode q) (in_comment q) (q_log q) (q_out q).
Definition set_ccode (l : list Z) (q : qstate) : qstate :=
  mkQ (q_seeds q) (param q) (q_sizes q) l (in_comment q) (q_log q) (q_out q).
Definition set_in_comment (b : bool) (q : qstate) : qstate :=
  mkQ (q_seeds q) (param q) (q_sizes q) (q_ccode q) b (q_log q) (q_out q).
Definition q_print (b : bytes) : M qstate unit :=
  modifyM (fun q => mkQ (q_seeds q) (param q) (q_sizes q) (q_ccode q) (in_comment q) (q_log q) (q_out q ++ b)).
Definition q_logs (b : bytes) : M qstate unit :=
  modifyM (fun q => mkQ (q_seeds q) (param q) (q_sizes q) (q_ccode q) (in_comment q) (q_log q ++ b) (q_out q)).

(** [param[i]] gets a value; the one after the last is emptied. *)
Definition put (i : Z) (v : bytes) : M qstate unit := modifyM (set_param i v).
Definition stop_at (i : Z) : M qstate unit := put i [].

(** The last word of a text, and the text before it with the blank cut off. *)
Fixpoint last_blank (l : bytes) (i : nat) : option nat :=
  match l with
  | [] => None
  | c :: l' => match last_blank l' (S i) with
               | Some j => Some j
               | None => if c =? 32 then Some i else None
               end
  end.
Definition last_word (l : bytes) : option bytes := option_map (fun i => drop (S i) l) (last_blank l 0).
Definition but_last_word (l : bytes) : option bytes := option_map (fun i => take i l) (last_blank l 0).

(** [19%02d-%02d-01] of month [m] counted from January 1993. *)
Definition fmt_month (m : Z) : bytes :=
  str "19" ++ fmt_dec 2 (93 + Z.quot m 12) ++ str "-" ++ fmt_dec 2 (Z.rem m 12 + 1) ++ str "-01".
Definition fmt_year (y : Z) : bytes := str "19" ++ fmt_dec 2 y ++ str "-01-01".
Definition fmt_brand (a b : Z) : bytes := str "Brand#" ++ fmt_int a ++ fmt_int b.

Section Queries.
(** The distributions [setup] reads and the scale factor as a double. *)
Context (p_types_set regions c_mseg_set nations nations2 colors l_smode_set q13a q13b p_cntr_set : distribution).
Context (flt_scale : Z * Z).

(** [while (pick_str(d, c, target) == tmp);], with a bound on the number of draws. *)
Fixpoint pick_other (fuel : nat) (d : distribution) (c tmp : Z) : M streams bytes :=
  match fuel with
  | O => failM Undefined
  | S f => let* '(i, text) := pick_str d c in
           if i =? tmp then pick_other f d c tmp else retM text
  end.
Definition pick_fuel : nat := 1000.

Definition unif (lo hi q : Z) : M qstate Z := q_draw (UnifInt lo hi q).
Definition pick (d : distribution) (q : Z) : M qstate (Z * bytes) := q_draw (pick_str d q).

(** The parameters of query [qnum]. *)
Definition set_params (qnum : Z) : M qstate unit :=
  if qnum =? 1 then
    let* n := unif 60 120 qnum in do* put 1 (fmt_int n) in stop_at 2
  else if qnum =? 2 then
    let* n := unif P_SIZE_MIN P_SIZE_MAX qnum in do* put 1 (fmt_int n) in
    let* '(_, type) := pick p_types_set qnum in
    let* w := ofOption (last_word type) in do* put 2 w in
    let* '(_, region) := pick regions qnum in do* put 3 region in stop_at 4
  else if qnum =? 3 then
    let* '(_, seg) := pick c_mseg_set qnum in do* put 1 seg in
    let* tmp_date := q_draw (dss_random 0 30 qnum) in
    let* d := ofOption (asc_date (tmp_date + 1155)) in do* put 2 d in stop_at 3
  else if qnum =? 4 then
    let* m := unif 1 58 qnum in do* put 1 (fmt_month m) in stop_at 2
  else if qnum =? 5 then
    let* '(_, region) := pick regions qnum in do* put 1 region in
    let* y := unif 93 97 qnum in do* put 2 (fmt_year y) in stop_at 3
  else if qnum =? 6 then
    let* y := unif 93 97 qnum in do* put 1 (fmt_year y) in
    let* d := unif 2 9 qnum in do* put 2 (str "0." ++ fmt_dec 2 d) in
    let* n := unif 24 25 qnum in do* put 3 (fmt_int n) in stop_at 4
  else if qnum =? 7 then
    let* '(i, n1) := pick nations2 qnum in do* put 1 n1 in
    let* n2 := q_draw (pick_other pick_fuel nations2 qnum i) in do* put 2 n2 in stop_at 3
  else if qnum =? 8 then
    let* '(i, n) := pick nations2 qnum in do* put 1 n in
    let* '(r, _) := ofOption (d_list nations !! Z.to_nat i) in
    let* '(_, region) := ofOption (d_list regions !! Z.to_nat r) in do* put 2 region in
    let* '(_, type) := pick p_types_set qnum in do* put 3 type in stop_at 4
  else if qnum =? 9 then
    let* '(_, c) := pick colors qnum in do* put 1 c in stop_at 2
  else if qnum =? 10 then
    let* m := unif 1 24 qnum in do* put 1 (fmt_month m) in stop_at 2
  else if qnum =? 11 then
    let* '(_, n) := pick nations2 qnum in do* put 1 n in
    do* put 2 (let '(a, b) := q11_fraction flt_scale in fmt_f10 a b) in stop_at 3
  else if qnum =? 12 then
    let* '(i, m1) := pick l_smode_set qnum in do* put 1 m1 in
    let* m2 := q_draw (pick_other pick_fuel l_smode_set qnum i) in do* put 2 m2 in
    let* y := unif 93 97 qnum in do* put 3 (fmt_year y) in stop_at 4
  else if qnum =? 13 then
    let* '(_, a) := pick q13a qnum in do* put 1 a in
    let* '(_, b) := pick q13b qnum in do* put 2 b in stop_at 3
  else if qnum =? 14 then
    let* m := unif 0 59 qnum in do* put 1 (fmt_month m) in stop_at 2
  else if qnum =? 15 then
    let* m := unif 0 57 qnum in do* put 1 (fmt_month m) in stop_at 2
  else if qnum =? 16 then
    let* a := unif 1 5 qnum in let* b := unif 1 5 qnum in do* put 1 (fmt_brand a b) in
    let* '(_, type) := pick p_types_set qnum in
    let* w := ofOption (but_last_word type) in do* put 2 w in
    let* q := getM in
    let* sz := q_draw (permute (q_sizes q) 50 qnum) in do* modifyM (set_sizes sz) in
    iterM (seqZ 3 (MAX_PARAM - 2)) (fun i => put i (fmt_int (default 0 (sz !! Z.to_nat (i - 3)))))
  else if qnum =? 17 then
    let* a := unif 1 5 qnum in let* b := unif 1 5 qnum in do* put 1 (fmt_brand a b) in
    let* '(_, c) := pick p_cntr_set qnum in do* put 2 c in stop_at 3
  else if qnum =? 18 then
    let* n := unif 312 315 qnum in do* put 1 (fmt_int n) in stop_at 2
  else if qnum =? 19 then
    let* a := unif 1 5 qnum in let* b := unif 1 5 qnum in do* put 1 (fmt_brand a b) in
    let* a := unif 1 5 qnum in let* b := unif 1 5 qnum in do* put 2 (fmt_brand a b) in
    let* a := unif 1 5 qnum in let* b := unif 1 5 qnum in do* put 3 (fmt_brand a b) in
    let* n := unif 1 10 qnum in do* put 4 (fmt_int n) in
    let* n := unif 10 20 qnum in do* put 5 (fmt_int n) in
    let* n := unif 20 30 qnum in do* put 6 (fmt_int n) in stop_at 7
  else if qnum =? 20 then
    let* '(_, c) := pick colors qnum in do* put 1 c in
    let* y := unif 93 97 qnum in do* put 2 (fmt_year y) in
    let* '(_, n) := pick nations2 qnum in do* put 3 n in stop_at 4
  else if qnum =? 21 then
    let* '(_, n) := pick nations2 qnum in do* put 1 n in stop_at 2
  else if qnum =? 22 then
    let* q := getM in
    let* cc := q_draw (permute (q_ccode q) 25 qnum) in do* modifyM (set_ccode cc) in
    do* iterM (seqZ 0 8) (fun i => put (i + 1) (fmt_int (10 + default 0 (cc !! Z.to_nat i)))) in
    stop_at 8
  else retM tt.

(** The log line: the parameters up to the first empty one. *)
Fixpoint log_params (vflags : Z) (n : nat) (i qnum : Z) (params : list bytes) : bytes :=
  match n with
  | O => []
  | S n' =>
      let v := if has vflags DFLT then default_param qnum i
               else match params !! Z.to_nat i with
                    | Some (c :: l) => Some (c :: l)
                    | _ => None
                    end in
      match v with
      | Some v => 9 :: v ++ log_params vflags n' (i + 1) qnum params
      | None => []
      end
  end.

(** [varsub(qnum, vnum, flags)]: choose the parameters ([vnum] zero) or print one; the queries
    are 1 to 24 (23 and 24 have none). *)
Definition varsub (qnum vnum : Z) (vflags : Z) : M qstate unit :=
  if vnum =? 0 then
    if negb (has vflags DFLT) && negb ((1 <=? qnum) && (qnum <=? 24)) then retM tt
    else
      do* (if has vflags DFLT then retM tt else set_params qnum) in
      if has vflags LOG then
        let* q := getM in
        q_logs (fmt_int qnum ++ log_params vflags 10 1 qnum (param q) ++ [10])
      else retM tt
  else if has vflags DFLT then
    if (qnum =? 11) && (vnum =? 2) then q_print (let '(a, b) := q11_fraction flt_scale in fmt_f10 a b)
    else match default_param qnum vnum with
         | Some v => q_print v
         | None => retM tt
         end
  else
    let* q := getM in
    match param q !! Z.to_nat vnum with
    | Some v => if vnum <=? MAX_PARAM then q_print v else retM tt
    | None => retM tt
    end.

(** ** qgen.c *)

(** [strchr], as an index. *)
Fixpoint index_of (c : Z) (l : bytes) : option nat :=
  match l with
  | [] => None
  | x :: l' => if x =? c then Some 0%nat else option_map S (index_of c l')
  end.

(** The loop of [strip_comments]; [cp1] stays at the start of the line throughout. *)
Fixpoint strip_loop (fuel : nat) (inside : bool) (line : bytes) : option (bool * bytes) :=
  match fuel with
  | O => None
  | S f =>
      if inside then
        match index_of 125 line with
        | Some k => strip_loop f false (drop (S k) line)
        | None => Some (true, [])
        end
      else
        match index_of 45 line with
        | Some k => if bool_decide (line !! S k = Some 45) then Some (false, take k line)
                    else match index_of 123 line with
                         | Some j => strip_loop f true (<[j := 32]> line)
                         | None => Some (false, line)
                         end
        | None => match index_of 123 line with
                  | Some j => strip_loop f true (<[j := 32]> line)
                  | None => Some (false, line)
                  end
        end
  end.
Definition strip_comments (line : bytes) : M qstate bytes :=
  let* q := getM in
  match strip_loop (2 * length line + 2) (in_comment q) line with
  | Some (inside, l) => do* modifyM (set_in_comment inside) in retM l
  | None => failM Undefined
  end.

(** [atoi]: blanks, a sign, digits. *)
Fixpoint take_digits (l : bytes) (acc : Z) : Z :=
  match l with
  | c :: l' => if is_digit c then take_digits l' (10 * acc + (c - 48)) else acc
  | [] => acc
  end.
Fixpoint atoi (l : bytes) : Z :=
  match l with
  | [] => 0
  | c :: l' =>
      if (c =? 32) || ((9 <=? c) && (c <=? 13)) then atoi l'
      else if c =? 45 then - take_digits l' 0
      else if c =? 43 then take_digits l' 0
      else take_digits l 0
  end.
Fixpoint skip_digits (l : bytes) : bytes :=
  match l with
  | c :: l' => if is_digit c then skip_digits l' else l
  | [] => []
  end.

Definition toupper (c : Z) : Z := if (97 <=? c) && (c <=? 122) then c - 32 else c.

(** One line of a template, from [mark] on. *)
Fixpoint subst_line (fuel : nat) (qtag osuff : bytes) (snum flags : Z) (mark : bytes) : M qstate unit :=
  match fuel with
  | O => failM Undefined
  | S f =>
      match index_of VTAG mark with
      | None => q_print mark
      | Some k =>
          let qnum := atoi qtag in
          let pre := take k mark in
          do* q_print pre in
          match drop (S k) mark with
          | [] => failM Undefined
          | c :: rest =>
              let next := subst_line f qtag osuff snum flags rest in
              if toupper c =? 66 then do* (if has flags ANSI then retM tt else q_print (START_TRAN ++ [10])) in next
              else if toupper c =? 67 then do* (if has flags DBASE then q_print SET_DBASE else retM tt) in next
              else if toupper c =? 69 then do* (if has flags ANSI then retM tt else q_print (END_TRAN ++ [10])) in next
              else if toupper c =? 78 then
                do* (if has flags DFLT_NUM then retM tt else q_print (SET_ROWCOUNT (atoi rest))) in
                q_print pre
              else if toupper c =? 79 then
                do* (if has flags OUTPUT
                     then q_print (SET_OUTPUT ++ str " '" ++ osuff ++ str "/" ++ qtag ++ str "." ++ fmt_int (Z.max snum 0) ++ str "'")
                     else retM tt) in next
              else if toupper c =? 81 then do* q_print qtag in next
              else if toupper c =? 83 then do* q_print (fmt_int (Z.max snum 0)) in next
              else if toupper c =? 88 then do* (if has flags EXPLAIN then q_print (GEN_QUERY_PLAN ++ [10]) else retM tt) in next
              else if (49 <=? c) && (c <=? 57) then
                do* varsub qnum (atoi (c :: rest)) (Z.land flags DFLT) in
                subst_line f qtag osuff snum flags (skip_digits rest)
              else next
          end
      end
  end.

Definition qsub_line (qtag osuff : bytes) (snum flags : Z) (line : bytes) : M qstate unit :=
  let* line := (if has flags COMMENT then retM line else strip_comments line) in
  subst_line (S (length line)) qtag osuff snum flags line.

(** [qsub]: the parameters are chosen, then the template is copied line by line; [template] is
    the file [qtag.sql] of the query directory. *)
Definition qsub (template : bytes -> option (list bytes)) (osuff : bytes) (snum flags : Z) (qtag : bytes) : M qstate unit :=
  match template qtag with
  | None => failM Fatal
  | Some lines =>
      let qnum := atoi qtag in
      let* rowcnt := ofOption (if 0 <=? qnum then rowcnt_dflt !! Z.to_nat qnum else None) in
      do* varsub qnum 0 flags in
      do* (if has flags DFLT_NUM then q_print (SET_ROWCOUNT rowcnt) else retM tt) in
      iterM lines (qsub_line qtag osuff snum flags)
  end.

(** The streams a run starts with: query [i] has stream [i]. *)
Fixpoint perturb (n : nat) (i : Z) (s : streams) : streams :=
  match n with
  | O => s
  | S n' =>
      let v := NextRand (from_option value 0 (s !! 0%nat)) in
      perturb n' (i + 1) (upd_seed (set_value v) i (upd_seed (set_value v) 0 s))
  end.
Definition seed_queries (rndm : Z) (s : streams) : streams :=
  let rndm := if rndm <? 0 then rndm + 2147483647 else rndm in
  perturb (Z.to_nat QUERIES_PER_SET) 1 (upd_seed (set_value rndm) 0 s).

(** The queries of a run: those named, in the order given or, with a stream number, in the order of
    that stream; all of them otherwise. *)
Definition query_names (snum : Z) (args : list bytes) : option (list bytes) :=
  if 0 <=? snum then
    mapM (fun i => option_map fmt_int (SEQUENCE snum i))
      (match args with [] => seqZ 1 QUERIES_PER_SET | _ => map atoi args end)
  else Some (match args with [] => map fmt_int (seqZ 1 QUERIES_PER_SET) | _ => args end).

(** [main] after the options; [rndm] is the argument of [-r] or the time, [ifile] and [tfile] the
    contents of the files that open and close the stream. *)
Definition qgen_main (template : bytes -> option (list bytes)) (osuff ifile tfile : bytes) (snum rndm flags : Z)
  (args : list bytes) : M qstate unit :=
  do* (if has flags DFLT then q_print (str "-- using default substitutions" ++ [10])
       else
         do* q_draw (modifyM (seed_queries rndm)) in
         q_print (str "-- using " ++ fmt_int (if rndm <? 0 then rndm + 2147483647 else rndm) ++ str " as a seed to the RNG" ++ [10])) in
  do* (if has flags INIT then q_print ifile else retM tt) in
  let* names := ofOption (query_names snum args) in
  do* iterM names (qsub template osuff snum flags) in
  if has flags TERMINATE then q_print tfile else retM tt.
End Queries.

(** ** The options of qgen.c *)
Record qoptions : Type := mkQopt {
  qo_flags : Z;
  qo_snum : Z;
  qo_rndm : Z;
  qo_flt_scale : Z * Z;
  qo_dists : option bytes;
  qo_ifile : bytes;
  qo_lfile : bytes;
  qo_db_name : bytes;
  qo_osuff : bytes;
  qo_tfile : bytes;
}.
Definition default_qoptions : qoptions := mkQopt 0 (-1) 0 (1, 1) None [] [] [] [] [].

Inductive qoption_arg : Type :=
| Qopt_a
| Qopt_b (path : bytes)
| Qopt_c
| Qopt_d
| Qopt_h
| Qopt_i (file : bytes)
| Qopt_l (file : bytes)
| Qopt_N
| Qopt_n (db : bytes)
| Qopt_o (path : bytes)
| Qopt_p (n : Z)
| Qopt_r (n : Z)
| Qopt_s (num den : Z)
| Qopt_t (file : bytes)
| Qopt_v
| Qopt_x
| Qopt_unknown.

(** One option; [None] ends the program. *)
Definition qgen_option (o : qoptions) (a : qoption_arg) : option qoptions :=
  let 'mkQopt flags snum rndm sf dists ifile lfile db osuff tfile := o in
  match a with
  | Qopt_a => Some (mkQopt (Z.lor flags ANSI) snum rndm sf dists ifile lfile db osuff tfile)
  | Qopt_b path => Some (mkQopt flags snum rndm sf (Some path) ifile lfile db osuff tfile)
  | Qopt_c => Some (mkQopt (Z.lor flags COMMENT) snum rndm sf dists ifile lfile db osuff tfile)
  | Qopt_d => Some (mkQopt (Z.lor flags DFLT) snum rndm sf dists ifile lfile db osuff tfile)
  | Qopt_h => None
  | Qopt_i file => Some (mkQopt (Z.lor flags INIT) snum rndm sf dists file lfile db osuff tfile)
  | Qopt_l file => Some (mkQopt (Z.lor flags LOG) snum rndm sf dists ifile file db osuff tfile)
  | Qopt_N => Some (mkQopt (Z.lor flags DFLT_NUM) snum rndm sf dists ifile lfile db osuff tfile)
  | Qopt_n name => Some (mkQopt (Z.lor flags DBASE) snum rndm sf dists ifile lfile name osuff tfile)
  | Qopt_o path => Some (mkQopt (Z.lor flags OUTPUT) snum rndm sf dists ifile lfile db path tfile)
  | Qopt_p n => Some (mkQopt flags n rndm sf dists ifile lfile db osuff tfile)
  | Qopt_r n => Some (mkQopt (Z.lor flags SEED) snum n sf dists ifile lfile db osuff tfile)
  | Qopt_s num den => Some (mkQopt flags snum rndm (b64 num den) dists ifile lfile db osuff tfile)
  | Qopt_t file => Some (mkQopt (Z.lor flags TERMINATE) snum rndm sf dists ifile lfile db osuff file)
  | Qopt_v => Some (mkQopt (Z.lor flags VERBOSE) snum rndm sf dists ifile lfile db osuff tfile)
  | Qopt_x => Some (mkQopt (Z.lor flags EXPLAIN) snum rndm sf dists ifile lfile db osuff tfile)
  | Qopt_unknown => None
  end.
Fixpoint qgen_options (o : qoptions) (l : list qoption_arg) : option qoptions :=
  match l with
  | [] => Some o
  | a :: l' => match qgen_option o a with
               | Some o' => qgen_options o' l'
               | None => None
               end
  end.

(** ** Query orders *)

Lemma permutation_rows : forallb (fun row => bool_decide (row ≡ₚ seqZ 1 22)) permutation = true.
Proof. vm_compute. reflexivity. Qed.

(** every stream runs every query once: for every stream number the query numbers
    [SEQUENCE] yields for the positions 1 to 22 are a permutation of 1 to 22. *)
Theorem query_order_permutes (stream : Z) :
  0 <= stream ->
  exists l, mapM (SEQUENCE stream) (seqZ 1 QUERIES_PER_SET) = Some l /\ l ≡ₚ seqZ 1 22.
Proof.
  intros Hs. pose proof (Z.rem_bound_pos stream MAX_PERMUTE Hs ltac:(reflexivity)) as Hr. unfold MAX_PERMUTE in Hr.
  destruct (lookup_lt_is_Some_2 permutation (Z.to_nat (Z.rem stream MAX_PERMUTE))) as [row Hrow].
  { change (length permutation) with 41%nat. unfold MAX_PERMUTE. lia. }
  pose proof permutation_rows as Hall. rewrite forallb_forall in Hall.
  assert (Hp : row ≡ₚ seqZ 1 22).
  { apply (bool_decide_eq_true_1 _), Hall, list_elem_of_In. exact (list_elem_of_lookup_2 _ _ _ Hrow). }
  exists row. split; [|exact Hp]. apply mapM_Some_2, Forall2_same_length_lookup_2.
  - rewrite length_seqZ. apply Permutation_length in Hp. rewrite length_seqZ in Hp. now rewrite Hp.
  - intros i q x Hq Hx. apply lookup_seqZ in Hq as [-> Hi]. unfold SEQUENCE. rewrite Hrow.
    rewrite (proj2 (Z.leb_le 0 stream)), (proj2 (Z.leb_le 1 _)) by lia. cbn [andb].
    now replace (Z.to_nat (1 + Z.of_nat i - 1)) with i by lia.
Qed.

Lemma query_order_permutes_witness :
  exists l, mapM (SEQUENCE 47) (seqZ 1 QUERIES_PER_SET) = Some l /\ l ≡ₚ seqZ 1 22.
Proof. apply (query_order_permutes 47). lia. Defined.

(** ** Templates *)

(** A template line: texts, each followed by a parameter, and the end of the line. *)
Definition render (segs : list (bytes * Z)) (tail : bytes) : bytes :=
  concat (map (fun s => s.1 ++ [VTAG; digit s.2]) segs) ++ tail.
(** What it stands for. *)
Definition expand (value : Z -> bytes) (segs : list (bytes * Z)) (tail : bytes) : bytes :=
  concat (map (fun s => s.1 ++ value s.2) segs) ++ tail.

Definition starts_digit (l : bytes) : bool := match l with c :: _ => is_digit c | [] => false end.
(** Texts without tags; a digit does not follow a parameter. *)
Definition seg_ok (s : bytes * Z) : Prop := VTAG ∉ s.1 /\ 1 <= s.2 <= 9.
Definition no_digit_follows (segs : list (bytes * Z)) (tail : bytes) : Prop :=
  Forall (fun s => starts_digit s.1 = false) (drop 1 segs) /\ starts_digit tail = false.

Lemma index_of_none c l : c ∉ l -> index_of c l = None.
Proof.
  induction l as [|x l IH]; intros H; [reflexivity|]. apply not_elem_of_cons in H as [Hx Hl]. cbn.
  rewrite (proj2 (Z.eqb_neq x c)) by auto. now rewrite IH.
Qed.

Lemma index_of_first c l r : c ∉ l -> index_of c (l ++ c :: r) = Some (length l).
Proof.
  induction l as [|x l IH]; intros H; cbn; [now rewrite Z.eqb_refl|]. apply not_elem_of_cons in H as [Hx Hl].
  rewrite (proj2 (Z.eqb_neq x c)) by auto. now rewrite IH.
Qed.

(** The text a parameter is replaced with. *)
Definition param_value (flt_scale : Z * Z) (flags qnum : Z) (params : list bytes) (n : Z) : bytes :=
  if has flags DFLT then
    if (qnum =? 11) && (n =? 2) then let '(a, b) := q11_fraction flt_scale in fmt_f10 a b
    else default [] (default_param qnum n)
  else default [] (params !! Z.to_nat n).

Definition printed (b : bytes) (q : qstate) : qstate :=
  mkQ (q_seeds q) (param q) (q_sizes q) (q_ccode q) (in_comment q) (q_log q) (q_out q ++ b).

Lemma q_print_run b q : q_print b q = (Ok tt, printed b q).
Proof. reflexivity. Qed.

Lemma printed_printed a b q : printed b (printed a q) = printed (a ++ b) q.
Proof. unfold printed. cbn. now rewrite app_assoc. Qed.

Lemma printed_nil q : printed [] q = q.
Proof. unfold printed. rewrite app_nil_r. now destruct q. Qed.

Lemma has_land flags : has (Z.land flags DFLT) DFLT = has flags DFLT.
Proof. unfold has. now rewrite <- Z.land_assoc, Z.land_diag. Qed.

Section Templates.
Context (p_types_set regions c_mseg_set nations nations2 colors l_smode_set q13a q13b p_cntr_set : distribution).
Context (flt_scale : Z * Z).
Let varsub' := varsub p_types_set regions c_mseg_set nations nations2 colors l_smode_set q13a q13b p_cntr_set flt_scale.
Let subst' := subst_line p_types_set regions c_mseg_set nations nations2 colors l_smode_set q13a q13b p_cntr_set flt_scale.

Lemma varsub_prints qnum n flags q : 1 <= n <= 9 ->
  varsub' qnum n (Z.land flags DFLT) q = (Ok tt, printed (param_value flt_scale flags qnum (param q) n) q).
Proof.
  intros Hn. unfold varsub', varsub, param_value. rewrite (proj2 (Z.eqb_neq n 0)), has_land by lia.
  destruct (has flags DFLT).
  - destruct (_ && _); [reflexivity|]. destruct (default_param qnum n); [reflexivity|]. cbn. now rewrite printed_nil.
  - unfold bindM, getM. destruct (param q !! Z.to_nat n) as [v|] eqn:E; cbn [default from_option].
    + rewrite (proj2 (Z.leb_le n MAX_PARAM)) by (unfold MAX_PARAM; lia). reflexivity.
    + now rewrite printed_nil.
Qed.

Lemma digit_range n : 1 <= n <= 9 -> 49 <= digit n <= 57 /\ is_digit (digit n) = true.
Proof. intros Hn. unfold digit. split; [lia|]. unfold is_digit. apply andb_true_iff. lia. Qed.

Lemma atoi_digit n rest : 1 <= n <= 9 -> starts_digit rest = false -> atoi (digit n :: rest) = n.
Proof.
  intros Hn Hr. destruct (digit_range n Hn) as [Hd Hi]. cbn [atoi].
  rewrite (proj2 (Z.eqb_neq (digit n) 32)), (proj2 (Z.leb_gt (digit n) 13)), (proj2 (Z.eqb_neq (digit n) 45)),
    (proj2 (Z.eqb_neq (digit n) 43)) by lia. rewrite andb_false_r. cbn [orb take_digits]. rewrite Hi.
  replace (10 * 0 + (digit n - 48)) with n by (unfold digit; lia).
  destruct rest as [|c r]; cbn in *; [reflexivity|]. now rewrite Hr.
Qed.

Lemma skip_digits_none l : starts_digit l = false -> skip_digits l = l.
Proof. destruct l as [|c l]; cbn; [auto|]. now intros ->. Qed.

(** The tag characters are no digits. *)
Lemma subst_parameter f qtag osuff snum flags pre n rest q :
  VTAG ∉ pre -> 1 <= n <= 9 -> starts_digit rest = false ->
  subst' (S f) qtag osuff snum flags (pre ++ VTAG :: digit n :: rest) q =
  subst' f qtag osuff snum flags rest (printed (pre ++ param_value flt_scale flags (atoi qtag) (param q) n) q).
Proof.
  intros Hp Hn Hr. destruct (digit_range n Hn) as [Hd Hi]. unfold subst' at 1. cbn [subst_line].
  rewrite (index_of_first VTAG pre _ Hp), take_app_length, (bindM_run _ _ _ _ _ (q_print_run pre q)).
  replace (drop (S (length pre)) (pre ++ VTAG :: digit n :: rest)) with (digit n :: rest).
  2: { replace (pre ++ VTAG :: digit n :: rest) with ((pre ++ [VTAG]) ++ digit n :: rest) by now rewrite <- app_assoc.
       rewrite drop_app_length'; [reflexivity|]. rewrite length_app. cbn. lia. }
  assert (Hu : toupper (digit n) = digit n) by (unfold toupper; now rewrite (proj2 (Z.leb_gt 97 (digit n))) by lia).
  rewrite Hu. rewrite !(proj2 (Z.eqb_neq (digit n) _)) by lia.
  rewrite (proj2 (Z.leb_le 49 (digit n))), (proj2 (Z.leb_le (digit n) 57)) by lia. cbn [andb].
  rewrite atoi_digit, (skip_digits_none rest Hr) by assumption.
  rewrite (bindM_run _ _ _ _ _ (varsub_prints (atoi qtag) n flags (printed pre q) Hn)).
  unfold subst'. now rewrite printed_printed.
Qed.

Lemma subst_render qtag osuff snum flags tail segs : forall f q,
  Forall seg_ok segs -> VTAG ∉ tail -> no_digit_follows segs tail -> (length segs < f)%nat ->
  subst' f qtag osuff snum flags (render segs tail) q =
    (Ok tt, printed (expand (param_value flt_scale flags (atoi qtag) (param q)) segs tail) q).
Proof.
  induction segs as [|[pre n] segs IH]; intros f q Hsegs Htail [Hnd Hnt] Hf; (destruct f as [|f]; [lia|]).
  - unfold subst'. cbn [render expand map concat app subst_line]. now rewrite (index_of_none VTAG tail Htail).
  - apply Forall_cons_1 in Hsegs as [[Hp Hn] Hsegs]. cbn [fst snd] in Hp, Hn.
    assert (Hst : starts_digit (render segs tail) = false).
    { destruct segs as [|[p' n'] segs]; [exact Hnt|]. cbn in Hnd. apply Forall_cons_1 in Hnd as [Hd _].
      destruct p'; [reflexivity|exact Hd]. }
    unfold render, expand. cbn [map concat fst snd]. rewrite <- !app_assoc. cbn [app].
    change (concat (map (fun s => s.1 ++ [VTAG; digit s.2]) segs) ++ tail) with (render segs tail).
    rewrite subst_parameter by assumption. rewrite IH; auto.
    + rewrite printed_printed. unfold expand. now rewrite <- !app_assoc.
    + split; [|exact Hnt]. cbn in Hnd. destruct segs; [constructor|]. now apply Forall_cons_1 in Hnd as [_ Hnd].
    + cbn in Hf. lia.
Qed.
End Templates.

Lemma strip_comments_plain line q : in_comment q = false -> 45 ∉ line -> 123 ∉ line -> strip_comments line q = (Ok line, q).
Proof.
  intros Hq Hm Hb. unfold strip_comments, bindM at 1, getM. rewrite Hq.
  replace (2 * length line + 2)%nat with (S (2 * length line + 1)) by lia. cbn [strip_loop].
  rewrite (index_of_none 45), (index_of_none 123) by assumption.
  unfold modifyM, bindM, retM, set_in_comment. rewrite <- Hq. now destruct q.
Qed.

Lemma render_length segs tail : (length segs <= length (render segs tail))%nat.
Proof.
  unfold render. rewrite length_app. induction segs as [|s segs IH]; cbn [map concat length]; [lia|].
  rewrite !length_app. cbn [length]. lia.
Qed.

(** templates are expanded: a template line made of texts and parameter tags [:1] to [:9],
    free of comments, is copied to the output with every tag replaced by the parameter
    chosen for the query, or by its default value when defaults are requested; the
    substitution ends within the number of tags. *)
Theorem template_line_expands (p_types regions mseg nations nations2 colors smode q13a q13b cntr : distribution)
  (flt_scale : Z * Z) (qtag osuff : bytes) (snum flags : Z) (segs : list (bytes * Z)) (tail : bytes) (q : qstate) :
  Forall seg_ok segs -> VTAG ∉ tail -> no_digit_follows segs tail ->
  in_comment q = false -> 45 ∉ render segs tail -> 123 ∉ render segs tail ->
  qsub_line p_types regions mseg nations nations2 colors smode q13a q13b cntr flt_scale qtag osuff snum flags
    (render segs tail) q =
  (Ok tt, printed (expand (param_value flt_scale flags (atoi qtag) (param q)) segs tail) q).
Proof.
  intros Hs Ht Hn Hq Hm Hb. unfold qsub_line. pose proof (render_length segs tail) as Hl.
  assert (E : (if has flags COMMENT then retM (render segs tail) else strip_comments (render segs tail)) q = (Ok (render segs tail), q)).
  { destruct (has flags COMMENT); [reflexivity|]. now apply strip_comments_plain. }
  rewrite (bindM_run _ _ _ _ _ E). apply subst_render; auto. lia.
Qed.

Lemma template_line_expands_witness :
  let d := sample_dist in
  qsub_line d d d d d d d d d d (1, 1) (str "14") [] (-1) DFLT (render [(str "date '", 1)] (str "'")) (init_qstate Seed) =
  (Ok tt, printed (expand (param_value (1, 1) DFLT 14 (replicate 11 [])) [(str "date '", 1)] (str "'")) (init_qstate Seed)).
Proof.
  intros d. apply (template_line_expands d d d d d d d d d d (1, 1) (str "14") [] (-1) DFLT [(str "date '", 1)] (str "'") (init_qstate Seed)).
  - apply Forall_cons_2; [|apply Forall_nil_2]. split; [apply (bool_decide_unpack _); vm_compute; exact I|cbn; lia].
  - apply (bool_decide_unpack _). vm_compute. exact I.
  - split; [apply Forall_nil_2|reflexivity].
  - reflexivity.
  - apply (bool_decide_unpack _). vm_compute. exact I.
  - apply (bool_decide_unpack _). vm_compute. exact I.
Defined.

(** ** Comments and codes that go wrong *)

(** A [{...}] comment takes the text before it on its line along. *)
Theorem strip_comments_loses_prefix (pre com post : bytes) (q : qstate) :
  in_comment q = false -> 45 ∉ pre ++ 123 :: com ++ 125 :: post -> 123 ∉ pre -> 125 ∉ pre -> 125 ∉ com -> 123 ∉ post ->
  strip_comments (pre ++ 123 :: com ++ 125 :: post) q = (Ok post, q).
Proof.
  intros Hq Hm Hp Hp2 Hc Hpost. unfold strip_comments, bindM at 1, getM. rewrite Hq.
  set (line := pre ++ 123 :: com ++ 125 :: post) in *.
  assert (Hlen : (2 * length line + 2 = S (S (S (2 * length line - 1))))%nat).
  { unfold line. rewrite !length_app. cbn [length]. lia. }
  rewrite Hlen. cbn [strip_loop]. rewrite (index_of_none 45 line Hm). unfold line at 1. rewrite (index_of_first 123 pre _ Hp).
  assert (E : <[length pre := 32]> line = (pre ++ 32 :: com) ++ 125 :: post).
  { unfold line. replace (length pre) with (length pre + 0)%nat by lia. rewrite insert_app_r. cbn. now rewrite <- app_assoc. }
  rewrite E, (index_of_first 125).
  2: { rewrite elem_of_app, elem_of_cons. intros [H|[H|H]]; [auto|discriminate H|auto]. }
  replace (drop (S (length (pre ++ 32 :: com))) ((pre ++ 32 :: com) ++ 125 :: post)) with post.
  2: { change (125 :: post) with ([125] ++ post). rewrite app_assoc, drop_app_length'; [reflexivity|]. rewrite (length_app (pre ++ _)). cbn. lia. }
  cbn [strip_loop]. rewrite (index_of_none 45 post), (index_of_none 123 post Hpost).
  - unfold modifyM, bindM, retM, set_in_comment. rewrite <- Hq. now destruct q.
  - intros H. apply Hm. unfold line. rewrite !elem_of_app, !elem_of_cons, elem_of_app, elem_of_cons. auto 6.
Qed.

(** The tag [:n] repeats what precedes it on the line and drops what follows. *)
Theorem row_count_tag_repeats_line (p_types regions mseg nations nations2 colors smode q13a q13b cntr : distribution)
  (flt_scale : Z * Z) (qtag osuff pre post : bytes) (snum flags : Z) (q : qstate) :
  VTAG ∉ pre -> has flags DFLT_NUM = true ->
  subst_line p_types regions mseg nations nations2 colors smode q13a q13b cntr flt_scale 1 qtag osuff snum flags
    (pre ++ VTAG :: 110 :: post) q = (Ok tt, printed (pre ++ pre) q).
Proof.
  intros Hp Hf. cbn [subst_line]. rewrite (index_of_first VTAG pre _ Hp), take_app_length, (bindM_run _ _ _ _ _ (q_print_run pre q)).
  replace (drop (S (length pre)) (pre ++ VTAG :: 110 :: post)) with (110 :: post).
  2: { change (VTAG :: 110 :: post) with ([VTAG] ++ 110 :: post). rewrite app_assoc, drop_app_length'; [reflexivity|].
       rewrite length_app. cbn. lia. }
  change (toupper 110) with 78. cbn [Z.eqb Pos.eqb]. rewrite Hf. unfold bindM, retM. rewrite q_print_run. now rewrite printed_printed.
Qed.

Lemma iter_put (l : list Z) (g : Z -> bytes) : forall q, exists q',
  iterM l (fun i => put (i + 1) (g i)) q = (Ok tt, q') /\
  param q' = fold_left (fun ps i => <[Z.to_nat (i + 1) := g i]> ps) l (param q).
Proof.
  induction l as [|i l IH]; intros q; cbn [iterM fold_left]; [exists q; auto|].
  destruct (IH (set_param (i + 1) (g i) q)) as (q' & E & Hp). exists q'. split; [exact E|exact Hp].
Qed.

(** The country codes of query 22 start at 20: the table holds the codes 10 to 34 already and ten
    is added once more, while phone numbers carry 10 to 34. *)
Theorem q22_codes_start_at_20 (p_types regions mseg nations nations2 colors smode q13a q13b cntr : distribution)
  (flt_scale : Z * Z) (q : qstate) :
  streams_ok (q_seeds q) -> q_ccode q ≡ₚ ccode -> length (param q) = 11%nat ->
  exists q' code, set_params p_types regions mseg nations nations2 colors smode q13a q13b cntr flt_scale 22 q = (Ok tt, q') /\
    param q' !! 1%nat = Some (fmt_int code) /\ 20 <= code <= 44.
Proof.
  intros Hs Hc Hl.
  assert (HR : streams_of_table [22]) by (intros i Hi; apply list_elem_of_singleton in Hi; subst; split; vm_compute; congruence).
  assert (Hcl : Z.of_nat (length (q_ccode q)) = 25) by (rewrite (Permutation_length Hc); reflexivity).
  destruct (Draws_run [22] _ _ _ (q_seeds q) HR Hs (permute_draws [22] HR (q_ccode q) 25 22 ltac:(left) ltac:(now split) Hcl))
    as (cc & t & E & Hp & _).
  rewrite Hc in Hp. destruct cc as [|c0 cc]; [apply Permutation_length in Hp; discriminate Hp|].
  assert (H0 : 10 <= c0 < 35) by (assert (H : c0 ∈ ccode) by (rewrite <- Hp; left); apply elem_of_seqZ in H; lia).
  destruct (param q) as [|p0 [|p1 ps]] eqn:Eq; try discriminate Hl.
  unfold set_params. cbn [Z.eqb Pos.eqb]. unfold bindM at 1, getM.
  assert (Ed : q_draw (permute (q_ccode q) 25 22) q =
    (Ok (c0 :: cc), mkQ t (param q) (q_sizes q) (q_ccode q) (in_comment q) (q_log q) (q_out q))).
  { unfold q_draw, zoomM. now rewrite E. }
  rewrite (bindM_run _ _ _ _ _ Ed). unfold modifyM at 1, bindM at 1.
  set (q1 := set_ccode (c0 :: cc) _). assert (Hq1 : param q1 = p0 :: p1 :: ps) by exact Eq.
  edestruct (iter_put (seqZ 0 8)) as (q2 & E2 & Hp2). rewrite (bindM_run _ _ _ _ _ E2). rewrite Hq1 in Hp2.
  exists (set_param 8 [] q2), (10 + c0). split; [reflexivity|]. split; [|lia].
  unfold set_param. cbn [param]. rewrite Hp2. reflexivity.
Qed.
